(* ===== verification/_CoqProject ===== *)
-Q . S2P
Prelude.v
Text.v
Always.v
Extern.v
Ids.v
Evidence.v
Route.v
Contract.v
Event.v
ReadModel.v
Ordering.v
PolicyEngine.v
Approval.v
Budget.v
Envelope.v
ResourceBudget.v
Scheduler.v
Command.v
AdapterCore.v
LoadoutMonitor.v
ProcessTree.v
Pause.v
MissionActor.v
PolicyGate.v
ActorRecovery.v
ActorLockstep.v
EventPipeline.v
Frame.v
Handshake.v
Memory.v
ContextPack.v
Recall.v
BlobStore.v
Redaction.v
CivilDate.v
Ledger.v
Lifecycle.v
RecoveryPackage.v
ServiceData.v
Service.v
ServiceProofs.v
ServiceSafety.v
ServiceExamples.v
DurableActor.v
Normalize.v
AppServer.v
CodexSession.v
Ipc.v
ServerLoop.v
ServiceIpc.v
GitWorkspace.v
Snapshot.v
DesktopBridge.v
UpdateGuard.v
ClaudeSession.v
CcSwitch.v
KeyStore.v
LedgerOpen.v
BlobFiles.v
Startup.v
Rendezvous.v
WindowsSecurity.v
JobObjects.v
NamedMutex.v
PackageSmoke.v
Adapters.v
Detect.v
CodexProbe.v
TypeExports.v
ChildProcess.v
