(* ===== verification/Prelude.v ===== *)
(** * Agent Mission Control: a verification development

    Agent Mission Control runs coding agents under supervision.  A mission has
    a versioned contract and routes; everything that happens to it is an event
    appended to an encrypted ledger; agents act only as far as policy,
    approvals, budgets and the flight envelope allow; a supervisor process
    schedules missions, starts agents through adapters, pauses and terminates
    them, and rebuilds its state from the ledger after a crash; confirmed
    memory, context packs and recovery packages carry knowledge from one run to
    the next; routes work in Git worktrees and are merged on approval; the
    desktop talks to the supervisor over an authenticated, framed connection.

    This library translates the Rust crates under [src/crates] and the desktop
    shell under [src/apps/desktop/src-tauri] into executable definitions and
    proves what makes them correct.

    ** How the code is represented

    - Rust's [Result] is [result E A]; a method on [&mut self] is a function
      [S -> S * result E A] ([stm]), so an early return keeps the assignments
      made before it, and sequencing is the monadic bind (the [?] operator).
    - [u64], [u32] and the like are [Z] with the wrap-around, saturation or
      checked operation of the source written out; release-build wrapping is
      used where the source writes a plain [+].
    - A [String] is its UTF-8 bytes; the functions of [str] are modelled on
      bytes ([Prelude], [Text]).  Paths are POSIX paths where they matter.
    - [BTreeMap], [HashMap] and SQL tables keyed by a primary key are [gmap];
      where the code iterates in an unspecified order the order is a parameter.
    - Names are [Type_method] and [Type_field]; enum constructors carry a short
      prefix where two enums share a variant name.
    - Third-party crates ([serde_json], [sha2], [hmac], [uuid], [aes_gcm],
      [regex], SQLCipher through [rusqlite]) are type classes of operations
      with separate classes of laws; [Json] in [Extern] and the example modules
      hold concrete instances, with which the concrete cases are evaluated.
    - What the world answers is an argument: records of answers
      ([ServiceEnv], [ConnectionEnv], [TransportEnv], [CcEnv], [CredentialEnv],
      [ReadyEnv], [RunEnv], [ProbeEnv], [OpenEnv], [ReportEnv]), supplies of identifiers and
      nonces indexed by how many were drawn, and the classes [Git],
      [Filesystem], [Pipe], [SqlCipher], [NamedMutexes] and [JobObjects] for
      what keeps a state.
    - Asynchronous code is one handler or one turn of a [select!] at a time:
      the order in which branches become ready is the list of turns, and the
      theorems hold for every such list; that a timer ends is such a turn.
      Processes that contend for a named mutex take turns
      the same way.  Threads that only watch another one are
      what became of it.

    ** Files

    - [Prelude], [Text], [Always], [Extern], [Ordering]: the error and state
      monads, machine integers, strings, invariants of runs, third-party
      interfaces, comparators and sorting by them.
    - Domain ([crates/domain]): [Ids], [Evidence], [Route] (the route state
      machine), [Contract] (versioned patches), [Event] (kinds and envelopes),
      [ReadModel] (projection of an event stream).
    - Policy ([crates/policy]): [PolicyEngine], [Approval], [Budget], [Envelope].
    - Ledger ([crates/ledger]): [BlobStore], [BlobFiles] (blobs on disk, the
      report after a crash), [Redaction], [CivilDate] (timestamps), [Ledger]
      (appending and replaying), [Lifecycle] (retention, deletion, export),
      [KeyStore], [LedgerOpen] (keys, migration, backup).
    - Memory ([crates/memory]): [Memory] (items, extraction, review),
      [ContextPack], [Recall], [RecoveryPackage].
    - Supervisor ([crates/supervisor]): [ResourceBudget], [Scheduler],
      [LoadoutMonitor], [ProcessTree], [Pause], [MissionActor] with
      [PolicyGate] (the gate in front of every action), [ActorRecovery], [ActorLockstep] and [DurableActor] (the actor on the
      encrypted ledger), [EventPipeline]; the mission service in [ServiceData]
      (requests and results), [Service] (every command handler, the event
      consumer, the watchdog, the restart and the dispatcher), [ServiceProofs],
      [ServiceSafety] and [ServiceExamples]; [Ipc] (one connection),
      [ServerLoop] (the thread around it), [ServiceIpc] (service and server
      together), [Startup] (command line, ready file, order of starting, the
      loop of the process), [PackageSmoke].
    - Protocol ([crates/protocol]): [Command], [Frame], [Handshake],
      [WindowsSecurity] (user identifiers, security descriptors, pipe names),
      [TypeExports] (the exported types against the records of the crates).
    - The machine between the processes: [NamedMutex] (the single instance and
      the lock around the installation secret), [JobObjects] (the jobs that own
      the agents' processes), [ChildProcess] (waiting for children under a
      deadline), [Rendezvous] (how the desktop finds the supervisor).
    - Adapters: [AdapterCore] ([crates/adapter-core]), [Normalize] (what agents
      print), [AppServer] and [CodexSession] ([crates/adapter-codex]),
      [ClaudeSession] ([crates/adapter-claude]), [Adapters] (the adapter
      interface and the fake adapter), [Detect] ([crates/adapter-detect]),
      [CodexProbe], [CcSwitch] ([crates/cc-switch-bridge]).
    - Workspace ([crates/workspace]): [GitWorkspace] (runner, previews, merges,
      worktrees, checkpoints), [Snapshot].
    - Desktop ([apps/desktop/src-tauri]): [DesktopBridge], [UpdateGuard].

    Components meet at interfaces: the actor is proved against the class
    [ActorLedger], the pipeline against [AppendOnlyLedger], recovery packages
    against [BlobStorage], opening the ledger against [KeyStore], the server
    against [IpcDispatcher], the desktop against [SupervisorTransport] and
    [Pipe], control of a run against [AgentAdapter], processes against
    [NamedMutexes] and [JobObjects]; the components that implement them
    discharge the laws, and concrete kernels show that those of the operating
    system can hold.

    ** What the theorems show

    - Authority: an action runs unasked exactly under conditions written out
      class by class, and no setting unlocks the classes reserved to the user; every
      authorization goes back to a decision of the user for that subject, in
      time and not withdrawn; a route is completed only with evidence and an
      accepting approval; limits, memory and forced termination move only on a
      user's word, through the whole service; a merge consumes a fresh
      approval; memory that reaches a model was confirmed by the user.
    - Isolation: commands for one mission do not touch another; bytes that do
      not authenticate reach nothing; a replayed session changes nothing; the
      desktop sends only allowed commands; the provider bridge stays on the
      machine; updates never go back.
    - Durability: an actor or pipeline rebuilt from its ledger agrees with the
      one that was lost, for the actor down to the encrypted rows and as far as
      its agents send nothing a rebuild refuses; the ledger gives back what was
      appended; opening it keeps its rows, repeats its migration script without
      effect and never loses the old file and its backup both; replay depends only on the set of events and reports
      exactly the missing ones; a blob that is referenced is never lost;
      snapshots, recovery packages and deletions are exact.
    - Secrecy: no field of an event that is sensitive by its name reaches the
      disk, and redaction changes nothing else but the secret patterns in texts.
    - Agents: every line of an agent becomes an event, notifications are kept
      in order however the stream is cut and lost only by calls that fail or are
      dropped, requests for approval are answered at most once, as decided or
      with the refusal of their timer, calls return, runs clean up after themselves, and closing
      or losing the supervisor ends every process an agent's job owns.
    - Processes: at most one supervisor holds the instance mutex, all
      processes of an installation agree on one secret, the desktop meets the
      supervisor of its own user, and waiting for a Git command or a probe
      comes to an end.
    - Composition: the server carries out exactly the commands in the bytes of
      authenticated clients, each once and in order; a desktop connected to it
      is told what became of a command, a timeout and an unavailable supervisor
      apart, and without disturbance gets exactly the dispatcher's answers; the smoke test does what the desktop does.
    - Resources and progress: concurrency, budgets, context tokens, frames and
      nonce caches stay within their bounds; the scheduler never panics, is
      work-conserving and fair; a disconnected user interface pauses all runs.
    - Deviations: theorems and lemmas that state behaviours the code has and
      should not have, among them: a paused draft resumes past plan approval;
      unknown event kinds can impersonate known ones; an unbindable approval
      event blocks restart; the budget is forgotten after a restart; a read
      that is dropped half-way loses bytes; a Claude agent is never told its
      goal; any printed text counts as structured events; a process an agent
      starts before it is put into its job escapes the job; the ready file
      outlives the server it announces; a failure after the migration leaves the
      migrated database; a command whose deadline passed may have been carried
      out.

    ** Bounds and fuel

    Most definitions are structurally recursive.  The scheduler's search is
    bounded by the length of the schedule as in the source.  Loops over input
    take fuel computed from it, and theorems show it is enough: serving a
    connection (one unit per byte, [Ipc]), reading lines and waiting for a
    response ([AppServer.calls_return]), waiting for a thread
    ([CodexSession.await_fueled]).  The search of the blob store's report takes
    its fuel as an argument, since directories can be links: it ends, with any
    fuel from some point on, when no path goes down for ever, and with none
    otherwise ([BlobFiles.recovery_report_exact]).  Waiting for a pipe or for a child takes one turn
    per reading of the clock before the deadline ([ChildProcess]).  Counter
    theorems state the range in which the 64-bit counters do not wrap.

    ** Not modelled

    What is left under [src/crates] and [src/apps/desktop/src-tauri] is code
    whose meaning lies outside it: the bodies of the Windows calls, which are
    the interfaces and answers above; the window of the desktop and its
    framework; the threads and channels that carry events from one loop to the
    next, which are the order of the turns; the clock of the asynchronous
    runtime (when a timer ends is an input); generated TypeScript; crate roots, tests and benchmarks.  Handlers
    of the mission service run one at a time: those that interleave between two
    lockings of one mutex are not modelled, and fairness of the operating
    system towards a waiting process is not assumed. *)

From Stdlib Require Import ZArith Lia Ascii.
From stdpp Require Import base gmap strings list sorting option pretty.

Declare Scope mission_scope.
Delimit Scope mission_scope with mission.

(** ** Rust's [Result] and [&mut self] methods

    [result E A] is Rust's [Result<A, E>]; the error comes first so that
    [result E] is a monad for stdpp's [x ← e; k] notation (Rust's [?]). *)
Inductive result (E A : Type) : Type :=
| Ok (a : A)
| Err (e : E).
Arguments Ok {E A} a.
Arguments Err {E A} e.

#[export] Instance result_ret E : MRet (result E) := λ A, Ok.
#[export] Instance result_bind E : MBind (result E) := λ A B k r,
  match r with Ok a => k a | Err e => Err e end.
#[export] Instance result_fmap E : FMap (result E) := λ A B f r,
  match r with Ok a => Ok (f a) | Err e => Err e end.
#[export] Instance result_eq_dec `{EqDecision E, EqDecision A} : EqDecision (result E A).
Proof. solve_decision. Defined.

#[export] Instance Ok_inj {E A} : Inj (=) (=) (@Ok E A).
Proof. by intros ?? [=]. Qed.
#[export] Instance Err_inj {E A} : Inj (=) (=) (@Err E A).
Proof. by intros ?? [=]. Qed.

(** A successful [?] chain, and the chain it steps to. *)
Lemma result_bind_Ok {E A B} (r : result E A) (k : A → result E B) b :
  r ≫= k = Ok b ↔ ∃ a, r = Ok a ∧ k a = Ok b.
Proof. destruct r as [a|e]; simpl; split; naive_solver. Qed.

Definition map_err {E F A} (f : E → F) (r : result E A) : result F A :=
  match r with Ok a => Ok a | Err e => Err (f e) end.
Definition ok_or {E A} (e : E) (o : option A) : result E A :=
  match o with Some a => Ok a | None => Err e end.
Definition result_ok {E A} (r : result E A) : option A :=
  match r with Ok a => Some a | Err _ => None end.
Definition is_ok {E A} (r : result E A) : bool :=
  match r with Ok _ => true | Err _ => false end.

(** A fallible method on [&mut self] returns the receiver as the method
    leaves it together with the result: an early [return Err(..)] keeps every
    assignment made before it. *)
Definition stm (S E A : Type) : Type := S → S * result E A.

#[export] Instance stm_ret S E : MRet (stm S E) := λ A a s, (s, Ok a).
#[export] Instance stm_bind S E : MBind (stm S E) := λ A B k m s,
  match m s with
  | (s', Ok a) => k a s'
  | (s', Err e) => (s', Err e)
  end.

Definition stm_get {S E} : stm S E S := λ s, (s, Ok s).
Definition stm_modify {S E} (f : S → S) : stm S E unit := λ s, (f s, Ok tt).
Definition stm_throw {S E A} (e : E) : stm S E A := λ s, (s, Err e).
Definition stm_lift {S E A} (r : result E A) : stm S E A := λ s, (s, r).

(** [self.a.b(..).map_err(f)] for a fallible method [b] of the field [a]. *)
Definition stm_zoom {S T E F A} (get : S → T) (set : T → S → S) (f : E → F)
    (m : stm T E A) : stm S F A :=
  λ s, let '(t, r) := m (get s) in (set t s, map_err f r).

(** ** Machine integers

    A w-bit unsigned integer is its value in [Z]; each operation says what it
    does on overflow.  [+=] on [u64] wraps, the behaviour of a release build
    (the workspace sets no [overflow-checks]). *)
Abbreviation u8 := Z (only parsing).
Abbreviation u16 := Z (only parsing).
Abbreviation u32 := Z (only parsing).
Abbreviation u64 := Z (only parsing).
Abbreviation usize := nat (only parsing).

Definition u32_max : Z := 4294967295.
Definition u64_max : Z := 18446744073709551615.
Definition is_u64 (n : Z) : Prop := (0 ≤ n ≤ u64_max)%Z.
Definition is_u32 (n : Z) : Prop := (0 ≤ n ≤ u32_max)%Z.

Definition wrapping_add64 (a b : Z) : Z := ((a + b) mod (u64_max + 1))%Z.
Definition saturating_add (max a b : Z) : Z := Z.min max (a + b).
Definition saturating_mul (max a b : Z) : Z := Z.min max (a * b).
Definition saturating_sub (a b : Z) : Z := Z.max 0 (a - b).
Definition checked_add64 (a b : Z) : option Z :=
  if (a + b <=? u64_max)%Z then Some (a + b)%Z else None.

Lemma wrapping_add64_small a b :
  (0 ≤ a + b ≤ u64_max)%Z → wrapping_add64 a b = (a + b)%Z.
Proof. intros. unfold wrapping_add64. apply Z.mod_small. lia. Qed.

Lemma wrapping_add64_range a b : is_u64 (wrapping_add64 a b).
Proof.
  unfold wrapping_add64, is_u64, u64_max.
  pose proof (Z.mod_pos_bound (a + b) (18446744073709551615 + 1)). lia.
Qed.

(** One wrapping increment never returns to where it started: a version or
    revision counter always distinguishes consecutive states. *)
Lemma wrapping_succ64_neq a : is_u64 a → wrapping_add64 a 1 ≠ a.
Proof.
  unfold is_u64. intros Ha. destruct (decide (a = u64_max)) as [->|].
  - by vm_compute.
  - rewrite wrapping_add64_small; lia.
Qed.

Lemma saturating_add_range max a b :
  (0 ≤ max)%Z → (0 ≤ a)%Z → (0 ≤ b)%Z → (0 ≤ saturating_add max a b ≤ max)%Z.
Proof. unfold saturating_add. lia. Qed.

Create HintDb mission discriminated.
#[export] Hint Resolve wrapping_add64_range : mission.

(** ** Strings

    A Rust [String] is its UTF-8 byte sequence; [s.len()] is the byte length.
    [char::is_whitespace] is the Unicode [White_Space] property: one byte for
    U+0009..U+000D and U+0020, two for U+0085 and U+00A0, three for the
    others. *)
Definition byte_in (lo hi : N) (c : ascii) : bool :=
  (lo <=? N_of_ascii c)%N && (N_of_ascii c <=? hi)%N.
Definition byte_is (n : N) (c : ascii) : bool := (N_of_ascii c =? n)%N.

Definition ws1 (a : ascii) : bool := byte_in 9 13 a || byte_is 32 a.
Definition ws2 (a b : ascii) : bool :=
  byte_is 194 a && (byte_is 133 b || byte_is 160 b).
Definition ws3 (a b c : ascii) : bool :=
  (byte_is 225 a && byte_is 154 b && byte_is 128 c)
  || (byte_is 226 a && byte_is 128 b
      && (byte_in 128 138 c || byte_in 168 169 c || byte_is 175 c))
  || (byte_is 226 a && byte_is 129 b && byte_is 159 c)
  || (byte_is 227 a && byte_is 128 b && byte_is 128 c).

(** [str::trim_start]. *)
Fixpoint trim_start (s : string) : string :=
  match s with
  | EmptyString => EmptyString
  | String a r =>
      if ws1 a then trim_start r else
      match r with
      | EmptyString => s
      | String b r2 =>
          if ws2 a b then trim_start r2 else
          match r2 with
          | EmptyString => s
          | String c r3 => if ws3 a b c then trim_start r3 else s
          end
      end
  end.

(** [s.trim().is_empty()]: trimming at both ends leaves nothing exactly when
    trimming at the start does. *)
Definition blank (s : string) : bool := String.eqb (trim_start s) "".

(** [str::trim_end] and [str::trim]. *)
Fixpoint trim_end (s : string) : string :=
  match s with
  | EmptyString => ""
  | String c r => if blank s then "" else String c (trim_end r)
  end.
Definition str_trim (s : string) : string := trim_end (trim_start s).

Definition str_len (s : string) : Z := Z.of_nat (String.length s).
Definition str_eqb (a b : string) : bool := String.eqb a b.
Definition is_empty {A} (l : list A) : bool := match l with [] => true | _ => false end.

(** [s.split_whitespace()]: the maximal runs of non-whitespace characters;
    [cur] holds the bytes of the current run, last first. *)
Definition push_run (cur : list ascii) (rest : list string) : list string :=
  match cur with [] => rest | _ => String.string_of_list_ascii (rev cur) :: rest end.
Fixpoint split_ws (cur : list ascii) (s : string) : list string :=
  match s with
  | EmptyString => push_run cur []
  | String a r =>
      if ws1 a then push_run cur (split_ws [] r) else
      match r with
      | EmptyString => push_run (a :: cur) []
      | String b r2 =>
          if ws2 a b then push_run cur (split_ws [] r2) else
          match r2 with
          | EmptyString => split_ws (a :: cur) r
          | String c r3 =>
              if ws3 a b c then push_run cur (split_ws [] r3)
              else split_ws (a :: cur) r
          end
      end
  end.
Definition split_whitespace (s : string) : list string := split_ws [] s.

Definition lower_byte (c : ascii) : ascii :=
  if byte_in 65 90 c then ascii_of_N (N_of_ascii c + 32) else c.
Fixpoint to_ascii_lowercase (s : string) : string :=
  match s with
  | EmptyString => EmptyString
  | String c r => String (lower_byte c) (to_ascii_lowercase r)
  end.

(** [hay.contains(needle)]. *)
Fixpoint str_contains (hay needle : string) : bool :=
  String.prefix needle hay
  || match hay with EmptyString => false | String _ r => str_contains r needle end.

Definition starts_with (s p : string) : bool := String.prefix p s.
Fixpoint ends_with (s p : string) : bool :=
  String.eqb s p || match s with EmptyString => false | String _ r => ends_with r p end.

(** [s.chars().count()]: UTF-8 continuation bytes are [10xxxxxx]. *)
Fixpoint chars_count (s : string) : nat :=
  match s with
  | EmptyString => 0
  | String c r => (if byte_in 128 191 c then 0 else 1) + chars_count r
  end.

(** [slice.join(sep)]. *)
Fixpoint str_join (sep : string) (l : list string) : string :=
  match l with
  | [] => ""
  | [x] => x
  | x :: r => x +:+ sep +:+ str_join sep r
  end.

(** [format!("{byte:02x}")] over a digest, and decimal formatting. *)
Definition hex_digit (n : Z) : string :=
  match n with
  | 0 => "0" | 1 => "1" | 2 => "2" | 3 => "3" | 4 => "4" | 5 => "5" | 6 => "6"
  | 7 => "7" | 8 => "8" | 9 => "9" | 10 => "a" | 11 => "b" | 12 => "c"
  | 13 => "d" | 14 => "e" | _ => "f"
  end%Z.
Definition hex_byte (n : Z) : string := hex_digit (n / 16) +:+ hex_digit (n mod 16).
Definition hex_bytes (l : list Z) : string := str_join "" (hex_byte <$> l).

Lemma blank_empty : blank "" = true.
Proof. reflexivity. Qed.

(** ** Stable sorting: [slice::sort_by] with a total preorder *)
Section sort_by.
Context {A : Type} (le : A → A → bool).

Fixpoint sort_insert (x : A) (l : list A) : list A :=
  match l with
  | [] => [x]
  | y :: r => if le x y then x :: l else y :: sort_insert x r
  end.
Fixpoint sort_by (l : list A) : list A :=
  match l with [] => [] | x :: r => sort_insert x (sort_by r) end.

Lemma sort_insert_perm x l : sort_insert x l ≡ₚ x :: l.
Proof.
  induction l as [|y l IH]; simpl; [done|]. destruct (le x y); [done|].
  rewrite IH. apply Permutation_swap.
Qed.
Lemma sort_by_perm l : sort_by l ≡ₚ l.
Proof. induction l as [|x l IH]; simpl; [done|]. by rewrite sort_insert_perm, IH. Qed.

Lemma sort_by_elem x l : x ∈ sort_by l ↔ x ∈ l.
Proof. by rewrite sort_by_perm. Qed.

Context (le_total : ∀ x y, le x y = true ∨ le y x = true).
Context (le_trans : ∀ x y z, le x y = true → le y z = true → le x z = true).

Lemma sort_insert_sorted x l :
  StronglySorted le l → StronglySorted le (sort_insert x l).
Proof.
  induction 1 as [|y l Hl IH Hy]; simpl; [by repeat constructor|].
  destruct (le x y) eqn:Hxy.
  - constructor; [by constructor|]. constructor; [by rewrite Hxy|].
    eapply Forall_impl; [exact Hy|]. intros z Hz.
    apply Is_true_eq_left, (le_trans x y z); [done|by apply Is_true_eq_true].
  - constructor; [done|]. apply Forall_forall. intros z.
    rewrite sort_insert_perm. rewrite elem_of_cons. intros [->|Hz].
    + destruct (le_total x y) as [?|Hyx]; [congruence|by rewrite Hyx].
    + rewrite Forall_forall in Hy. by apply Hy.
Qed.
Lemma sort_by_sorted l : StronglySorted le (sort_by l).
Proof. induction l; simpl; [constructor|by apply sort_insert_sorted]. Qed.

(** A list that is already in order is left alone (stability on runs). *)
Lemma sort_by_sorted_id l : StronglySorted le l → sort_by l = l.
Proof.
  induction 1 as [|x l Hl IH Hx]; simpl; [done|]. rewrite IH.
  destruct l as [|y l]; [done|]. simpl.
  apply Forall_cons in Hx as [Hxy _]. by rewrite (Is_true_eq_true _ Hxy).
Qed.

(** When the order identifies no two different elements of the input, the
    result depends only on which elements are present. *)
Lemma sort_by_unique l k :
  (∀ x y, x ∈ l → y ∈ l → le x y = true → le y x = true → x = y) →
  l ≡ₚ k → sort_by l = sort_by k.
Proof.
  intros Hanti Hlk.
  assert (Hp : sort_by l ≡ₚ sort_by k) by (by rewrite !sort_by_perm).
  assert (Hanti' : ∀ x y, x ∈ sort_by l → y ∈ sort_by l →
    le x y = true → le y x = true → x = y).
  { intros x y. rewrite !sort_by_elem. apply Hanti. }
  generalize (sort_by_sorted l) (sort_by_sorted k). revert Hp Hanti'.
  generalize (sort_by l) (sort_by k). clear l k Hanti Hlk.
  intros l1. induction l1 as [|x l1 IH]; intros l2 Hp Hanti H1 H2.
  { by apply Permutation_nil_l in Hp. }
  destruct l2 as [|y l2]; [by apply Permutation_nil_r in Hp|].
  apply StronglySorted_inv in H1 as [H1 Hx]. apply StronglySorted_inv in H2 as [H2 Hy].
  rewrite Forall_forall in Hx, Hy.
  assert (x = y) as ->.
  { assert (x ∈ y :: l2) as Hxy by (rewrite <-Hp; by left).
    assert (y ∈ x :: l1) as Hyx by (rewrite Hp; by left).
    apply elem_of_cons in Hxy as [->|Hxy]; [done|].
    apply elem_of_cons in Hyx as [->|Hyx]; [done|].
    apply Hanti; [by left|by right| |]; apply Is_true_eq_true; auto. }
  f_equal. apply IH; [by eapply Permutation_cons_inv| |done|done].
  intros a b Ha Hb. apply Hanti; by constructor.
Qed.
End sort_by.

(** [≫=] on lists depends on the function only at the members. *)
Lemma bind_ext_elem {A B} (f g : A → list B) (l : list A) :
  (∀ x, x ∈ l → f x = g x) → l ≫= f = l ≫= g.
Proof.
  induction l as [|x l IH]; intros Hfg; [done|]. csimpl.
  rewrite Hfg by (by left). f_equal. apply IH. intros y Hy. apply Hfg. by right.
Qed.

(** [iter.map(f).collect::<Result<Vec<_>, _>>()]. *)
Lemma mapM_Ok {E A B} (f : A → result E B) l k :
  mapM f l = Ok k ↔ Forall2 (λ x y, f x = Ok y) l k.
Proof.
  revert k. induction l as [|x l IH]; intros k; simpl.
  - split; [by intros [= <-]; constructor|by inversion 1].
  - rewrite result_bind_Ok. setoid_rewrite result_bind_Ok. setoid_rewrite IH. split.
    + intros (y&Hy&k'&Hk&[= <-]). by constructor.
    + inversion 1; naive_solver.
Qed.
Lemma mapM_fails {E A B} (f : A → result E B) l x :
  x ∈ l → is_ok (f x) = false → is_ok (mapM f l) = false.
Proof.
  intros Hx Hf. destruct (mapM f l) as [k|] eqn:Hk; [|done]. apply mapM_Ok in Hk.
  apply list_elem_of_lookup_1 in Hx as [i Hi].
  destruct (Forall2_lookup_l _ _ _ _ _ Hk Hi) as (y&_&Hy). by rewrite Hy in Hf.
Qed.

(** ** Automation

    [guards] turns the boolean guards of a branch into propositions;
    [run H] evaluates a method call recorded in [H] by splitting on its
    guards and discarding the branches [H] excludes. *)
Ltac guards :=
  repeat match goal with
  | H : _ || _ = false |- _ => apply orb_false_iff in H; destruct H
  | H : _ && _ = true |- _ => apply andb_true_iff in H; destruct H
  | H : negb _ = false |- _ => apply negb_false_iff in H
  | H : negb _ = true |- _ => apply negb_true_iff in H
  | H : Bool.eqb _ _ = true |- _ => apply Bool.eqb_prop in H
  | H : bool_decide _ = true |- _ => apply bool_decide_eq_true in H
  | H : bool_decide _ = false |- _ => apply bool_decide_eq_false in H
  | H : ¬ (_ ≠ _) |- _ => apply dec_stable in H
  | H : str_eqb _ _ = true |- _ => apply String.eqb_eq in H
  | H : str_eqb _ _ = false |- _ => apply String.eqb_neq in H
  | H : (_ <=? _)%Z = true |- _ => apply Z.leb_le in H
  | H : (_ <=? _)%Z = false |- _ => apply Z.leb_gt in H
  | H : (_ <? _)%Z = true |- _ => apply Z.ltb_lt in H
  | H : (_ <? _)%Z = false |- _ => apply Z.ltb_ge in H
  | H : (_ =? _)%Z = true |- _ => apply Z.eqb_eq in H
  | H : (_ =? _)%Z = false |- _ => apply Z.eqb_neq in H
  end.
Ltac bind_inv H :=
  repeat match type of H with
  | mbind _ _ = Ok _ => apply result_bind_Ok in H as (?&?&H)
  end.
Ltac run H := repeat (case_match; simplify_eq/=); simplify_eq/=; guards.
