(* ===== verification/Text.v ===== *)
(** * Strings of the standard library

    Splitting, stripping and reading numbers, as the parsers of several
    components use them.  A string is its bytes. *)

From S2P Require Import Prelude.
From Stdlib Require Import ZArith Lia Ascii.
From stdpp Require Import prelude strings pretty.

(** The bytes read so far, last first, as a string. *)
Definition part (cur : list ascii) : string := String.string_of_list_ascii (rev cur).
(** [bytes().all(..)]. *)
Definition all_bytes (p : ascii → bool) (s : string) : bool :=
  forallb p (String.list_ascii_of_string s).
(** [str::split(char)]: the pieces between the separators. *)
Fixpoint split_on (sep : N) (cur : list ascii) (s : string) : list string :=
  match s with
  | EmptyString => [part cur]
  | String c r => if byte_is sep c then part cur :: split_on sep [] r else split_on sep (c :: cur) r
  end.
(** [str::lines]. *)
Fixpoint lines_of (cur : list ascii) (s : string) : list string :=
  let strip cur := match cur with c :: r => if byte_is 13 c then r else cur | [] => [] end in
  match s with
  | EmptyString => match cur with [] => [] | _ => [part cur] end
  | String c r =>
      if byte_is 10 c then part (strip cur) :: lines_of [] r else lines_of (c :: cur) r
  end.
Definition str_lines (s : string) : list string := lines_of [] s.
Definition str_strip_prefix (p value : string) : option string :=
  if starts_with value p
  then Some (String.substring (String.length p) (String.length value - String.length p) value)
  else None.
(** [str::split_once] and [str::rsplit_once] at a byte. *)
Fixpoint split_once (sep : N) (cur : list ascii) (s : string) : option (string * string) :=
  match s with
  | EmptyString => None
  | String c r => if byte_is sep c then Some (part cur, r) else split_once sep (c :: cur) r
  end.
Fixpoint rsplit_once (sep : N) (cur : list ascii) (s : string) : option (string * string) :=
  match s with
  | EmptyString => None
  | String c r =>
      match rsplit_once sep (c :: cur) r with
      | Some halves => Some halves
      | None => if byte_is sep c then Some (part cur, r) else None
      end
  end.
(** [str::split_once] at a string. *)
Fixpoint split_once_str (sep : string) (cur : list ascii) (s : string) : option (string * string) :=
  match str_strip_prefix sep s with
  | Some r => Some (part cur, r)
  | None => match s with EmptyString => None | String c r => split_once_str sep (c :: cur) r end
  end.
Definition eq_ignore_ascii_case (a b : string) : bool :=
  str_eqb (to_ascii_lowercase a) (to_ascii_lowercase b).

(** [str::parse] at an unsigned integer of which [max] is the largest: a
    leading plus is allowed, nothing else but digits, and not too many. *)
Definition digit_value (c : ascii) : option Z :=
  if byte_in 48 57 c then Some (Z.of_N (N_of_ascii c) - 48)%Z else None.
Fixpoint parse_digits (max acc : Z) (s : string) : option Z :=
  match s with
  | EmptyString => Some acc
  | String c r =>
      d ← digit_value c;
      if (acc * 10 + d <=? max)%Z then parse_digits max (acc * 10 + d)%Z r else None
  end.
Definition parse_uint (max : Z) (s : string) : option Z :=
  match s with
  | EmptyString => None
  | String c r =>
      if byte_is 43 c then match r with EmptyString => None | _ => parse_digits max 0 r end
      else parse_digits max 0 s
  end.

(** ** Lemmas *)
Lemma string_app_nil (s : string) : s +:+ "" = s.
Proof. induction s as [|c s IH]; [done|]. change (String c (s +:+ "") = String c s). by rewrite IH. Qed.
Lemma str_app_assoc (a b c : string) : (a +:+ b) +:+ c = a +:+ b +:+ c.
Proof. induction a as [|x a IH]; [done|]. change (String x ((a +:+ b) +:+ c) = String x (a +:+ b +:+ c)). by rewrite IH. Qed.
Lemma str_length_app (a b : string) : String.length (a +:+ b) = String.length a + String.length b.
Proof. induction a as [|c a IH]; [done|]. change (S (String.length (a +:+ b)) = S (String.length a + String.length b)). by rewrite IH. Qed.
Lemma part_app cur s : part (rev (String.list_ascii_of_string s) ++ cur) = part cur +:+ s.
Proof.
  unfold part. rewrite rev_app_distr, rev_involutive.
  induction (rev cur) as [|c l IH]; simpl; [apply String.string_of_list_ascii_of_string|].
  by rewrite IH.
Qed.
(** Splitting takes a name without the separator whole. *)
Lemma split_on_name sep s : ∀ cur rest,
  all_bytes (λ c, negb (byte_is sep c)) s = true →
  split_on sep cur (s +:+ rest) = split_on sep (rev (String.list_ascii_of_string s) ++ cur) rest.
Proof.
  induction s as [|c s IH]; intros cur rest Hs; [done|]. simpl in *.
  unfold all_bytes in Hs. simpl in Hs. apply andb_true_iff in Hs as [Hc Hs].
  apply negb_true_iff in Hc. rewrite Hc, IH by done. by rewrite <-app_assoc.
Qed.

Lemma parse_digits_range max s : ∀ acc n,
  (0 ≤ acc ≤ max)%Z → parse_digits max acc s = Some n → (0 ≤ n ≤ max)%Z.
Proof.
  induction s as [|c s IH]; intros acc n Ha; simpl; [by intros [= <-]|].
  unfold digit_value. destruct (byte_in 48 57 c) eqn:Hb; simpl; [|done].
  destruct (_ <=? max)%Z eqn:Hle; [|done]. apply Z.leb_le in Hle. apply IH.
  unfold byte_in in Hb. apply andb_true_iff in Hb as [Hlo%N.leb_le _]. lia.
Qed.
(** What is read fits the type. *)
Lemma parse_uint_range max s n : (0 ≤ max)%Z → parse_uint max s = Some n → (0 ≤ n ≤ max)%Z.
Proof.
  intros Hm. unfold parse_uint. repeat case_match; try done; apply parse_digits_range; lia.
Qed.

(** *** Printed numbers *)
Lemma pretty_N_digit n : (n < 10)%N → digit_value (pretty_N_char n) = Some (Z.of_N n).
Proof. intros Hn. destruct n as [|p]; [done|]. do 4 (destruct p as [p|p|]; try done); lia. Qed.
Lemma pretty_go_step x s : x ≠ 0%N →
  (x `div` 10 < x)%N ∧ (x = 10 * (x `div` 10) + x `mod` 10)%N ∧ (x `mod` 10 < 10)%N ∧
  pretty_N_go x s = pretty_N_go (x `div` 10) (String (pretty_N_char (x `mod` 10)) s).
Proof.
  intros Hx. split; [apply N.div_lt; lia|]. split; [apply N.div_mod; lia|].
  split; [apply N.mod_lt; lia|]. apply pretty_N_go_step. lia.
Qed.
Lemma parse_pretty_go max x : ∀ s, (Z.of_N x ≤ max)%Z →
  parse_digits max 0 (pretty_N_go x s) = parse_digits max (Z.of_N x) s.
Proof.
  induction (N.lt_wf_0 x) as [x _ IH]. intros s Hx.
  destruct (decide (x = 0)%N) as [->|Hne]; [by rewrite pretty_N_go_0|].
  destruct (pretty_go_step x s Hne) as (Hlt&Hdm&Hm&->).
  rewrite IH by lia. cbn [parse_digits]. rewrite pretty_N_digit by done. simpl.
  assert (Z.of_N (x `div` 10) * 10 + Z.of_N (x `mod` 10) = Z.of_N x)%Z as -> by lia.
  by rewrite (proj2 (Z.leb_le _ _) Hx).
Qed.
Lemma pretty_go_digits x : ∀ s,
  all_bytes (byte_in 48 57) (pretty_N_go x s) = all_bytes (byte_in 48 57) s.
Proof.
  induction (N.lt_wf_0 x) as [x _ IH]. intros s.
  destruct (decide (x = 0)%N) as [->|Hne]; [by rewrite pretty_N_go_0|].
  destruct (pretty_go_step x s Hne) as (Hlt&_&Hm&->). rewrite IH by done.
  unfold all_bytes. simpl. pose proof (pretty_N_digit _ Hm) as Hd. unfold digit_value in Hd.
  by destruct (byte_in 48 57 _).
Qed.
Lemma pretty_digits z : (0 ≤ z)%Z → all_bytes (byte_in 48 57) (pretty z) = true.
Proof.
  intros Hz. destruct z as [|p|p]; [done| |lia]. unfold pretty, pretty_Z, pretty, pretty_positive.
  unfold pretty, pretty_N. case_decide; [done|]. by rewrite pretty_go_digits.
Qed.
(** A printed number is read back. *)
Lemma parse_uint_pretty max z : (0 ≤ z ≤ max)%Z → parse_uint max (pretty z) = Some z.
Proof.
  intros Hz. assert (parse_digits max 0 (pretty z) = Some z) as Hp.
  { destruct z as [|p|p]; [|unfold pretty, pretty_Z, pretty, pretty_positive|lia].
    - change ((if (0 <=? max)%Z then Some 0%Z else None) = Some 0%Z).
      by rewrite (proj2 (Z.leb_le 0 max)) by lia.
    - unfold pretty, pretty_N. case_decide; [done|]. rewrite parse_pretty_go by lia. done. }
  pose proof (pretty_digits z ltac:(lia)) as Hd. unfold parse_uint.
  destruct (pretty z) as [|c r] eqn:Hpz.
  { exfalso. destruct z as [|p|p]; [done| |lia]. simpl in Hp. congruence. }
  destruct (byte_is 43 c) eqn:Hc; [|done]. unfold all_bytes in Hd. simpl in Hd.
  apply andb_true_iff in Hd as [Hd _]. unfold byte_is in Hc. unfold byte_in in Hd.
  apply N.eqb_eq in Hc. rewrite Hc in Hd. done.
Qed.
