(* ===== verification/Always.v ===== *)
(** * Relations every run of a stateful method respects

    [always R m]: whatever the result of [m], the state it leaves is related
    by [R] to the state it started from.  For a preorder [R] the relation is
    compositional, so a property of a long handler follows from that of its
    calls; [always_step] walks through a handler. *)

From S2P Require Import Prelude.
From stdpp Require Import prelude.

Definition always {S E A : Type} (R : S → S → Prop) (m : stm S E A) : Prop :=
  ∀ s, R s (m s).1.

(** The relation that keeps an invariant. *)
Definition keeps {S : Type} (I : S → Prop) (s s' : S) : Prop := I s → I s'.
#[export] Instance keeps_preorder {S} (I : S → Prop) : PreOrder (keeps I).
Proof. split; [by intros s Hs|]. intros s1 s2 s3 H1 H2 Hs. by apply H2, H1. Qed.

Section always.
Context {S E : Type} {R : S → S → Prop} `{!PreOrder R}.

Lemma always_ret {A} (a : A) : always R (mret a : stm S E A).
Proof. intros s. reflexivity. Qed.
Lemma always_lift {A} (r : result E A) : always R (stm_lift r).
Proof. intros s. reflexivity. Qed.
Lemma always_throw {A} (e : E) : always R (stm_throw e : stm S E A).
Proof. intros s. reflexivity. Qed.
Lemma always_get : always R (stm_get : stm S E S).
Proof. intros s. reflexivity. Qed.
Lemma always_modify (f : S → S) : (∀ s, R s (f s)) → always R (stm_modify f : stm S E unit).
Proof. intros Hf s. apply Hf. Qed.
Lemma always_bind {A B} (m : stm S E A) (k : A → stm S E B) :
  always R m → (∀ a, always R (k a)) → always R (m ≫= k).
Proof.
  intros Hm Hk s. unfold mbind, stm_bind. specialize (Hm s).
  destruct (m s) as [s' [a|e]]; simpl in *; [|done]. etrans; [exact Hm|apply Hk].
Qed.
(** A value that is only computed: its continuation knows where it is from. *)
Lemma always_bind_lift {A B} (r : result E A) (k : A → stm S E B) :
  (∀ a, r = Ok a → always R (k a)) → always R (stm_lift r ≫= k).
Proof.
  intros Hk s. unfold mbind, stm_bind, stm_lift. destruct r as [a|e]; simpl; [by apply Hk|reflexivity].
Qed.
Lemma always_zoom {T F A} (Q : T → T → Prop) (get : S → T) (set : T → S → S) (f : F → E)
    (m : stm T F A) :
  always Q m → (∀ s t, Q (get s) t → R s (set t s)) → always R (stm_zoom get set f m).
Proof.
  intros Hm Hs s. unfold stm_zoom. specialize (Hm (get s)).
  destruct (m (get s)) as [t r]. apply Hs, Hm.
Qed.
(** A state that is only read. *)
Lemma always_read {A} (r : S → result E A) : always R (λ s, (s, r s)).
Proof. intros s. reflexivity. Qed.
End always.

Lemma always_impl {S E A} (R Q : S → S → Prop) (m : stm S E A) :
  (∀ s s', R s s' → Q s s') → always R m → always Q m.
Proof. intros HRQ Hm s. apply HRQ, Hm. Qed.

(** What a successful run returns. *)
Definition returns {S E A : Type} (P : A → Prop) (m : stm S E A) : Prop :=
  ∀ s s' a, m s = (s', Ok a) → P a.
Lemma returns_ret {S E A} (P : A → Prop) (a : A) : P a → returns P (mret a : stm S E A).
Proof. intros Ha s s' a' [= _ <-]. done. Qed.
Lemma returns_throw {S E A} (P : A → Prop) (e : E) : returns P (stm_throw e : stm S E A).
Proof. intros s s' a [=]. Qed.
Lemma returns_bind {S E A B} (P : B → Prop) (m : stm S E A) (k : A → stm S E B) :
  (∀ a, returns P (k a)) → returns P (m ≫= k).
Proof.
  intros Hk s s' b. unfold mbind, stm_bind. destruct (m s) as [s1 [a|e]]; [|done]. apply Hk.
Qed.
Lemma returns_bind_lift {S E A B} (P : B → Prop) (r : result E A) (k : A → stm S E B) :
  (∀ a, r = Ok a → returns P (k a)) → returns P (stm_lift r ≫= k).
Proof.
  intros Hk s s' b. unfold mbind, stm_bind, stm_lift. destruct r as [a|e]; [|done]. by apply Hk.
Qed.
(** A step whose continuation may use what was returned. *)
Lemma always_bind_returns {S E A B} {R : S → S → Prop} `{!PreOrder R} (P : A → Prop)
    (m : stm S E A) (k : A → stm S E B) :
  always R m → returns P m → (∀ a, P a → always R (k a)) → always R (m ≫= k).
Proof.
  intros Hm Hp Hk s. unfold mbind, stm_bind. specialize (Hm s). specialize (Hp s).
  destruct (m s) as [s' [a|e]]; simpl in *; [|done]. etrans; [exact Hm|by eapply Hk, Hp].
Qed.

(** A run that succeeds, taken apart. *)
Lemma stm_bind_Ok {S E A B} (m : stm S E A) (k : A → stm S E B) s s' b :
  (m ≫= k) s = (s', Ok b) → ∃ s1 a, m s = (s1, Ok a) ∧ k a s1 = (s', Ok b).
Proof. unfold mbind, stm_bind. destruct (m s) as [s1 [a|e]]; [eauto|done]. Qed.
Lemma stm_bind_lift_Ok {S E A B} (r : result E A) (k : A → stm S E B) s s' b :
  (stm_lift r ≫= k) s = (s', Ok b) → ∃ a, r = Ok a ∧ k a s = (s', Ok b).
Proof. unfold mbind, stm_bind, stm_lift. destruct r as [a|e]; [eauto|done]. Qed.
Lemma stm_bind_get_Ok {S E B} (k : S → stm S E B) s s' b :
  (stm_get ≫= k) s = (s', Ok b) → k s s = (s', Ok b).
Proof. done. Qed.

Create HintDb always discriminated.
#[export] Hint Extern 0 (always _ (mret _)) => apply always_ret : always.
#[export] Hint Extern 0 (always _ (stm_lift _)) => apply always_lift : always.
#[export] Hint Extern 0 (always _ (stm_throw _)) => apply always_throw : always.
#[export] Hint Extern 0 (always _ stm_get) => apply always_get : always.

(** One step through a handler: a bind, a branch, or a call with a lemma. *)
Ltac always_step :=
  lazymatch goal with
  | |- ∀ _, _ => intros ?
  | |- always _ (mbind _ (stm_lift _)) => apply always_bind_lift; intros ? ?
  | |- always _ (mbind _ _) => apply always_bind; [|intros ?]
  | |- always _ (match ?x with _ => _ end) => destruct x
  | |- always _ (if ?x then _ else _) => destruct x
  | |- always _ (let '(_, _) := ?x in _) => destruct x
  | |- always _ (let _ := _ in _) => cbv zeta
  | |- always _ ((λ _, _) _) => cbv beta
  end.
Ltac always_auto := repeat first [solve [eauto with always] | always_step].
