(* ===== verification/Extern.v ===== *)
(** * Code the repository calls but does not contain

    [serde_json], [sha2] and [uuid] are third-party crates: their operations
    are parameters of the model, grouped in type classes, and what the code
    relies on is a separate class of laws stating documented behaviour.
    [Json] at the end is one concrete implementation: it shows the laws can
    hold and lets concrete inputs be evaluated. *)

From S2P Require Import Prelude.
From Stdlib Require Import ZArith Lia Ascii.
From stdpp Require Import base gmap strings list option.

(** ** [uuid::Uuid]: a 128-bit value with a textual form *)
Abbreviation Uuid := N (only parsing).

Class UuidText : Type := {
  uuid_to_string : Uuid → string;           (* Display: hyphenated hexadecimal *)
  uuid_parse_str : string → option Uuid;    (* Uuid::parse_str(..).ok() *)
}.
Class UuidTextLaws `{UuidText} : Prop :=
  uuid_parse_to_string : ∀ u, uuid_parse_str (uuid_to_string u) = Some u.

#[export] Instance uuid_to_string_inj `{UuidTextLaws} : Inj (=) (=) uuid_to_string.
Proof.
  intros u v Huv. apply (inj Some). by rewrite <-!uuid_parse_to_string, Huv.
Qed.

(** ** [sha2::Sha256::digest] *)
Class Sha256 : Type := sha256_digest : string → list Z.

(** ** [serde_json::Value]

    The enum's constructors and accessors.  [Value_U64] is [Value::from(u64)];
    [Value_Object] takes the finished map; [to_vec] is the compact text that
    [serde_json::to_vec] and [to_string] produce. *)
Class SerdeJson : Type := {
  Value : Type;
  Value_eq_dec :: EqDecision Value;
  Value_Null : Value;
  Value_Bool : bool → Value;
  Value_U64 : u64 → Value;
  Value_String : string → Value;
  Value_Array : list Value → Value;
  Value_Object : gmap string Value → Value;
  Value_as_str : Value → option string;
  Value_as_u64 : Value → option u64;
  Value_as_array : Value → option (list Value);
  Value_as_object : Value → option (gmap string Value);
  Value_get : Value → string → option Value;
  to_vec : Value → string;
}.

Class SerdeJsonLaws `{SerdeJson} : Prop := {
  as_str_String s : Value_as_str (Value_String s) = Some s;
  as_str_Object m : Value_as_str (Value_Object m) = None;
  as_str_Null : Value_as_str Value_Null = None;
  as_u64_U64 n : is_u64 n → Value_as_u64 (Value_U64 n) = Some n;
  as_u64_String s : Value_as_u64 (Value_String s) = None;
  as_object_Object m : Value_as_object (Value_Object m) = Some m;
  as_object_String s : Value_as_object (Value_String s) = None;
  as_array_String s : Value_as_array (Value_String s) = None;
  as_array_Array l : Value_as_array (Value_Array l) = Some l;
  as_object_Array l : Value_as_object (Value_Array l) = None;
  as_str_object v m : Value_as_object v = Some m → Value_as_str v = None;
  as_str_array v l : Value_as_array v = Some l → Value_as_str v = None;
  as_array_object v m : Value_as_object v = Some m → Value_as_array v = None;
  as_object_get v m k : Value_as_object v = Some m → Value_get v k = m !! k;
  as_object_None_get v k : Value_as_object v = None → Value_get v k = None;
}.

Lemma get_Object `{SerdeJsonLaws} m k : Value_get (Value_Object m) k = m !! k.
Proof. apply as_object_get, as_object_Object. Qed.

(** [serde_json::json!({..})] with distinct literal keys. *)
Definition json_object `{SerdeJson} (l : list (string * Value)) : Value :=
  Value_Object (list_to_map l).

(** [#[derive(Serialize, Deserialize)]] of a type, used through
    [serde_json::to_value] and [serde_json::from_value]; the error of the
    latter is its message. *)
Class Serde `{SerdeJson} (T : Type) : Type := {
  to_value : T → Value;
  from_value : Value → result string T;
}.
Class SerdeLaws `{Serde T} : Prop :=
  from_to_value : ∀ x : T, from_value (to_value x) = Ok x.
Arguments SerdeLaws {_} T {_}.

#[export] Instance to_value_inj `{SerdeLaws T} : Inj (=) (=) (to_value (T := T)).
Proof.
  intros x y Hxy. apply (inj (Ok (E := string))). by rewrite <-!from_to_value, Hxy.
Qed.

(** [format!("{value:?}")] of a type with a derived [Debug]. *)
Class DebugFmt (T : Type) : Type := debug_fmt : T → string.

(** The order in which a [HashMap]'s values are visited is not specified;
    every value is visited once. *)
Class HashOrder (V : Type) : Type := hash_values : gmap string V → list V.
Class HashOrderLaws V `{HashOrder V} : Prop :=
  hash_values_perm : ∀ m : gmap string V, hash_values m ≡ₚ (map_to_list m).*2.

(** The lowercase hexadecimal SHA-256 of a value's JSON text: the expression
    the code repeats wherever it hashes a value. *)
Definition sha256_hex `{Sha256} (bytes : string) : string :=
  hex_bytes (sha256_digest bytes).

Ltac json_simpl :=
  repeat first
    [ rewrite as_str_String | rewrite as_str_Object | rewrite as_u64_String
    | rewrite as_object_Object | rewrite get_Object
    | rewrite as_u64_U64 by done ].

(** ** A concrete implementation *)
Module Json.
#[local] Set Warnings "-register-all".
Inductive json : Type :=
| JNull
| JBool (b : bool)
| JNum (n : Z)
| JStr (s : string)
| JArr (l : list json)
| JObj (l : list (string * json)).

Fixpoint json_eqb (a b : json) {struct a} : bool :=
  match a, b with
  | JNull, JNull => true
  | JBool x, JBool y => Bool.eqb x y
  | JNum x, JNum y => Z.eqb x y
  | JStr x, JStr y => String.eqb x y
  | JArr l, JArr k =>
      (fix go l k := match l, k with
        | [], [] => true
        | x :: l', y :: k' => json_eqb x y && go l' k'
        | _, _ => false end) l k
  | JObj l, JObj k =>
      (fix go l k := match l, k with
        | [], [] => true
        | (i, x) :: l', (j, y) :: k' => String.eqb i j && json_eqb x y && go l' k'
        | _, _ => false end) l k
  | _, _ => false
  end.

Fixpoint json_size (a : json) : nat :=
  match a with
  | JArr l => S (list_sum (json_size <$> l))
  | JObj l => S (list_sum ((λ p, json_size p.2) <$> l))
  | _ => 1
  end.

Lemma json_eqb_eq n : ∀ a b, json_size a ≤ n → json_eqb a b = true ↔ a = b.
Proof.
  induction n as [|n IH]; intros a b Hn; [destruct a; simpl in Hn; lia|].
  destruct a as [|x|x|x|l|l], b as [|y|y|y|k|k]; simpl;
    try (split; [done|discriminate || done]); try done.
  - rewrite Bool.eqb_true_iff. naive_solver.
  - rewrite Z.eqb_eq. naive_solver.
  - rewrite String.eqb_eq. naive_solver.
  - simpl in Hn. apply le_S_n in Hn. revert k.
    induction l as [|x l IHl]; intros [|y k]; try (split; done).
    rewrite fmap_cons in Hn. simpl in Hn. rewrite andb_true_iff, IH by lia.
    specialize (IHl ltac:(lia) k). naive_solver.
  - simpl in Hn. apply le_S_n in Hn. revert k.
    induction l as [|[i x] l IHl]; intros [|[j y] k]; try (split; done).
    rewrite fmap_cons in Hn. simpl in Hn.
    rewrite !andb_true_iff, String.eqb_eq, IH by lia.
    specialize (IHl ltac:(lia) k). naive_solver.
Qed.

#[export] Instance json_eq_dec : EqDecision json.
Proof.
  intros a b. destruct (json_eqb a b) eqn:E; [left|right].
  - by apply (json_eqb_eq (json_size a)).
  - intros Hab. apply (json_eqb_eq (json_size a)) in Hab; [congruence|done].
Defined.

Definition json_as_object (v : json) : option (gmap string json) :=
  match v with JObj l => Some (list_to_map l) | _ => None end.

Fixpoint json_text (v : json) : string :=
  match v with
  | JNull => "null"
  | JBool b => if b then "true" else "false"
  | JNum n => pretty.pretty n
  | JStr s => "'" +:+ s +:+ "'"
  | JArr l => "[" +:+ str_join "," (json_text <$> l) +:+ "]"
  | JObj l => "{" +:+ str_join "," ((λ p, p.1 +:+ ":" +:+ json_text p.2) <$> l) +:+ "}"
  end.

#[export] Instance json_serde : SerdeJson := {
  Value := json;
  Value_Null := JNull;
  Value_Bool := JBool;
  Value_U64 := JNum;
  Value_String := JStr;
  Value_Array := JArr;
  Value_Object := λ m, JObj (map_to_list m);
  Value_as_str := λ v, match v with JStr s => Some s | _ => None end;
  Value_as_u64 := λ v, match v with
    | JNum n => if (0 <=? n)%Z && (n <=? u64_max)%Z then Some n else None
    | _ => None end;
  Value_as_array := λ v, match v with JArr l => Some l | _ => None end;
  Value_as_object := json_as_object;
  Value_get := λ v k, json_as_object v ≫= λ m, m !! k;
  to_vec := json_text;
}.

#[export] Instance json_serde_laws : SerdeJsonLaws.
Proof.
  split; simpl; try done.
  - intros n [??]. by rewrite (proj2 (Z.leb_le _ _)), (proj2 (Z.leb_le _ _)).
  - intros m. by rewrite list_to_map_to_list.
  - by intros [] m.
  - by intros [] m.
  - by intros [] m.
  - intros v m k ->. done.
  - intros v k ->. done.
Qed.

#[export] Instance json_hash_order V : HashOrder V := λ m, (map_to_list m).*2.
#[export] Instance json_hash_order_laws V : HashOrderLaws V.
Proof. intros m. reflexivity. Qed.
#[export] Instance json_debug T : DebugFmt T := λ _, "?".

(** A digest that keeps every byte of its input (its range is larger than
    SHA-256's), and identifiers written bit by bit, lowest first. *)
#[export] Instance json_sha256 : Sha256 := λ s,
  (λ c, Z.of_N (Ascii.N_of_ascii c)) <$> String.list_ascii_of_string s.

Fixpoint bits_text (p : positive) : string :=
  match p with
  | xH => "."
  | xO p => String "0"%char (bits_text p)
  | xI p => String "1"%char (bits_text p)
  end.
Fixpoint text_bits (s : string) : option positive :=
  match s with
  | String "."%char "" => Some xH
  | String "0"%char r => xO <$> text_bits r
  | String "1"%char r => xI <$> text_bits r
  | _ => None
  end.
Lemma text_bits_text p : text_bits (bits_text p) = Some p.
Proof. induction p as [p IH|p IH|]; simpl; [by rewrite IH|by rewrite IH|done]. Qed.

#[export] Instance json_uuid : UuidText := {
  uuid_to_string := λ u, bits_text (N.succ_pos u);
  uuid_parse_str := λ s, Pos.pred_N <$> text_bits s;
}.
#[export] Instance json_uuid_laws : UuidTextLaws.
Proof.
  intros u. simpl. rewrite text_bits_text. simpl. by rewrite N.pos_pred_succ.
Qed.

(** Derived serialisation of the basic field types. *)
Definition from_opt {T} (o : option T) : result string T := ok_or "invalid type" o.
Definition json_to_str (v : json) : option string :=
  match v with JStr s => Some s | _ => None end.
Definition json_to_strs (v : json) : option (list string) :=
  match v with JArr l => mapM json_to_str l | _ => None end.
Definition json_to_num (v : json) : option Z :=
  match v with JNum n => Some n | _ => None end.
Definition json_to_opt {T} (f : json → option T) (v : json) : option (option T) :=
  match v with JNull => Some None | _ => Some <$> f v end.
Definition json_of_opt {T} (f : T → json) (o : option T) : json :=
  match o with None => JNull | Some x => f x end.

Lemma json_strs_roundtrip l : json_to_strs (JArr (JStr <$> l)) = Some l.
Proof. by apply mapM_fmap_Some. Qed.
Lemma json_opt_num_roundtrip o : json_to_opt json_to_num (json_of_opt JNum o) = Some o.
Proof. by destruct o. Qed.

#[export] Instance json_serde_string : Serde string :=
  { to_value := JStr; from_value := λ v, from_opt (json_to_str v) }.
#[export] Instance json_serde_strings : Serde (list string) :=
  { to_value := λ l, JArr (JStr <$> l); from_value := λ v, from_opt (json_to_strs v) }.
#[export] Instance json_serde_string_laws : SerdeLaws string.
Proof. done. Qed.
#[export] Instance json_serde_strings_laws : SerdeLaws (list string).
Proof.
  intros l. change (from_opt (json_to_strs (JArr (JStr <$> l))) = Ok l).
  by rewrite json_strs_roundtrip.
Qed.
End Json.
