(* ===== verification/Ids.v ===== *)
(** * Identifiers and timestamps ([crates/domain/src/ids.rs])

    The identifier newtypes and the textual timestamp with its parser. *)

From S2P Require Import Prelude Extern.
From Stdlib Require Import ZArith.
From stdpp Require Import base strings.

(** The three [uuid_id!] newtypes; only equality, ordering and the textual
    form of the wrapped [Uuid] are ever observed. *)
Abbreviation MissionId := Uuid (only parsing).
Abbreviation RouteId := Uuid (only parsing).
Abbreviation EventId := Uuid (only parsing).

(** [pub struct Timestamp(String)]. *)
Record Timestamp := { Timestamp_as_str : string }.
#[export] Instance Timestamp_eq_dec : EqDecision Timestamp.
Proof. solve_decision. Defined.

Definition Timestamp_parse (value : string) : result string Timestamp :=
  if (str_len value <? 20)%Z
     || negb (str_contains value "T")
     || negb (ends_with value "Z" || str_contains value "+")
  then Err "timestamp must be an RFC3339 UTC value"
  else Ok {| Timestamp_as_str := value |}.

Definition Timestamp_now : Timestamp :=
  {| Timestamp_as_str := "1970-01-01T00:00:00Z" |}.

(** Every timestamp the domain stamps is one its parser accepts. *)
Lemma Timestamp_now_parses :
  Timestamp_parse (Timestamp_as_str Timestamp_now) = Ok Timestamp_now.
Proof. reflexivity. Qed.

Lemma Timestamp_parse_as_str s t : Timestamp_parse s = Ok t → Timestamp_as_str t = s.
Proof. unfold Timestamp_parse. case_match; [done|]. by intros [= <-]. Qed.
