(* ===== verification/Evidence.v ===== *)
(** * Evidence matrix and acceptance ([crates/domain/src/evidence.rs])

    The acceptance criteria of a route, the evidence recorded for each, and
    when the matrix counts as complete. *)

From S2P Require Import Prelude.
From stdpp Require Import base strings list.

Inductive EvidenceKind := KTest | KBuild | KScreenshot | KDiff | KUserAcceptance.
#[export] Instance EvidenceKind_eq_dec : EqDecision EvidenceKind.
Proof. solve_decision. Defined.

Record EvidenceEntry := {
  EvidenceEntry_id : string;
  EvidenceEntry_kind : EvidenceKind;
  EvidenceEntry_summary : string;
  EvidenceEntry_verified : bool;
  EvidenceEntry_source_event_ids : list string;
}.
#[export] Instance EvidenceEntry_eq_dec : EqDecision EvidenceEntry.
Proof. solve_decision. Defined.

Inductive CriterionStatus := Verified | PartiallyVerified | Unverified | NotApplicable.
#[export] Instance CriterionStatus_eq_dec : EqDecision CriterionStatus.
Proof. solve_decision. Defined.

Definition satisfies_completion (s : CriterionStatus) : bool :=
  match s with Verified | NotApplicable => true | _ => false end.

Record CriterionEvidence := {
  CriterionEvidence_criterion_id : string;
  CriterionEvidence_description : string;
  CriterionEvidence_status : CriterionStatus;
  CriterionEvidence_evidence_ids : list string;
}.
#[export] Instance CriterionEvidence_eq_dec : EqDecision CriterionEvidence.
Proof. solve_decision. Defined.

Definition CriterionEvidence_new (criterion_id description : string) : CriterionEvidence := {|
  CriterionEvidence_criterion_id := criterion_id;
  CriterionEvidence_description := description;
  CriterionEvidence_status := Unverified;
  CriterionEvidence_evidence_ids := [];
|}.

Record EvidenceMatrix := {
  EvidenceMatrix_criteria : list CriterionEvidence;
  EvidenceMatrix_entries : list EvidenceEntry;
}.
#[export] Instance EvidenceMatrix_eq_dec : EqDecision EvidenceMatrix.
Proof. solve_decision. Defined.

Definition EvidenceMatrix_default : EvidenceMatrix :=
  {| EvidenceMatrix_criteria := []; EvidenceMatrix_entries := [] |}.
Definition EvidenceMatrix_from_criteria (criteria : list CriterionEvidence) : EvidenceMatrix :=
  {| EvidenceMatrix_criteria := criteria; EvidenceMatrix_entries := [] |}.

Inductive EvidenceMatrixError := UnknownCriterion | EvidenceRequired.
#[export] Instance EvidenceMatrixError_eq_dec : EqDecision EvidenceMatrixError.
Proof. solve_decision. Defined.

(** [iter_mut().find(..)] followed by the two assignments: the first
    criterion with this id is replaced. *)
Fixpoint set_criterion (criterion_id : string) (status : CriterionStatus)
    (evidence_ids : list string) (l : list CriterionEvidence) : list CriterionEvidence :=
  match l with
  | [] => []
  | c :: r =>
      if str_eqb (CriterionEvidence_criterion_id c) criterion_id then
        {| CriterionEvidence_criterion_id := CriterionEvidence_criterion_id c;
           CriterionEvidence_description := CriterionEvidence_description c;
           CriterionEvidence_status := status;
           CriterionEvidence_evidence_ids := evidence_ids |} :: r
      else c :: set_criterion criterion_id status evidence_ids r
  end.

Definition EvidenceMatrix_record (criterion_id : string) (status : CriterionStatus)
    (evidence_ids : list string) : stm EvidenceMatrix EvidenceMatrixError unit := λ self,
  if negb (existsb (λ c, str_eqb (CriterionEvidence_criterion_id c) criterion_id)
             (EvidenceMatrix_criteria self))
  then (self, Err UnknownCriterion)
  else if match status with Verified | PartiallyVerified => true | _ => false end
          && is_empty evidence_ids
  then (self, Err EvidenceRequired)
  else ({| EvidenceMatrix_criteria :=
             set_criterion criterion_id status evidence_ids (EvidenceMatrix_criteria self);
           EvidenceMatrix_entries := EvidenceMatrix_entries self |}, Ok tt).

Definition can_await_acceptance (self : EvidenceMatrix) : bool :=
  negb (is_empty (EvidenceMatrix_criteria self)).
Definition EvidenceMatrix_is_complete (self : EvidenceMatrix) : bool :=
  negb (is_empty (EvidenceMatrix_criteria self))
  && forallb (λ c, satisfies_completion (CriterionEvidence_status c))
       (EvidenceMatrix_criteria self).
Definition verified_count (self : EvidenceMatrix) : usize :=
  length (filter (λ e, EvidenceEntry_verified e = true) (EvidenceMatrix_entries self)).

Record Approval := {
  Approval_actor : string;
  Approval_decision : string;
  Approval_evidence_event_ids : list string;
}.
#[export] Instance Approval_eq_dec : EqDecision Approval.
Proof. solve_decision. Defined.

Definition Approval_is_acceptance (self : Approval) : bool :=
  str_eqb (Approval_decision self) "accept"
  && negb (blank (Approval_actor self))
  && negb (is_empty (Approval_evidence_event_ids self)).

(** ** What the matrix promises

    [backed m]: every criterion claimed verified, fully or partially, cites
    evidence.  [EvidenceMatrix_record] keeps it, so a matrix built from fresh
    criteria and [record] calls is complete only when every criterion is
    either backed by evidence or explicitly not applicable. *)
Definition claims_evidence (s : CriterionStatus) : bool :=
  match s with Verified | PartiallyVerified => true | _ => false end.
Definition criterion_backed (c : CriterionEvidence) : Prop :=
  claims_evidence (CriterionEvidence_status c) = true →
  CriterionEvidence_evidence_ids c ≠ [].
Definition backed (m : EvidenceMatrix) : Prop :=
  Forall criterion_backed (EvidenceMatrix_criteria m).

Lemma set_criterion_ids k s ids l :
  CriterionEvidence_criterion_id <$> set_criterion k s ids l
  = CriterionEvidence_criterion_id <$> l.
Proof. induction l as [|c l IH]; csimpl; [done|]. case_match; csimpl; congruence. Qed.

Lemma set_criterion_backed k s ids l :
  (claims_evidence s = true → ids ≠ []) →
  Forall criterion_backed l → Forall criterion_backed (set_criterion k s ids l).
Proof.
  intros Hs. induction 1 as [|c l Hc Hl IH]; simpl; [constructor|].
  case_match; constructor; auto.
Qed.

Lemma EvidenceMatrix_record_backed k s ids m :
  backed m → backed (EvidenceMatrix_record k s ids m).1.
Proof.
  intros Hm. unfold EvidenceMatrix_record.
  case_match; [done|]. case_match eqn:Hreq; [done|]. simpl.
  apply set_criterion_backed; [|done].
  intros Hs ->. simpl in Hreq. unfold claims_evidence in Hs. by destruct s.
Qed.

Definition record_all (steps : list (string * CriterionStatus * list string))
    (m : EvidenceMatrix) : EvidenceMatrix :=
  foldl (λ m '(k, s, ids), (EvidenceMatrix_record k s ids m).1) m steps.

Lemma record_all_backed steps m : backed m → backed (record_all steps m).
Proof.
  revert m. induction steps as [|[[k s] ids] steps IH]; intros m Hm; [done|].
  apply IH. by apply EvidenceMatrix_record_backed.
Qed.

Lemma new_criteria_backed l :
  backed (EvidenceMatrix_from_criteria ((λ p, CriterionEvidence_new p.1 p.2) <$> l)).
Proof. unfold backed. simpl. apply Forall_fmap, Forall_true. by intros [??]. Qed.

Lemma complete_forall m :
  EvidenceMatrix_is_complete m = true →
  EvidenceMatrix_criteria m ≠ [] ∧
  ∀ c, c ∈ EvidenceMatrix_criteria m → satisfies_completion (CriterionEvidence_status c) = true.
Proof.
  unfold EvidenceMatrix_is_complete. rewrite andb_true_iff, forallb_forall.
  intros [H1 H2]. split; [by destruct (EvidenceMatrix_criteria m)|].
  intros c Hc. by apply H2, list_elem_of_In.
Qed.

(** An evidence matrix that starts from fresh criteria and is changed
    only through [record] is complete only when every criterion either is
    verified and cites at least one piece of evidence, or is not applicable;
    failed [record] calls included. *)
Theorem complete_matrix_is_evidenced
    (criteria : list (string * string)) (steps : list (string * CriterionStatus * list string)) :
  let m := record_all steps (EvidenceMatrix_from_criteria
             ((λ p, CriterionEvidence_new p.1 p.2) <$> criteria)) in
  EvidenceMatrix_is_complete m = true →
  ∀ c, c ∈ EvidenceMatrix_criteria m →
    (CriterionEvidence_status c = Verified ∧ CriterionEvidence_evidence_ids c ≠ [])
    ∨ CriterionEvidence_status c = NotApplicable.
Proof.
  intros m Hm c Hc.
  apply complete_forall in Hm as [_ Hall]. specialize (Hall c Hc).
  assert (backed m) as Hb by apply record_all_backed, new_criteria_backed.
  eapply Forall_forall in Hb; [|exact Hc]. unfold criterion_backed in Hb.
  destruct (CriterionEvidence_status c); simpl in *; naive_solver.
Qed.

Lemma complete_matrix_is_evidenced_witness :
  let m := record_all [("tests", Verified, ["test-1"]); ("docs", Verified, [])]
             (EvidenceMatrix_from_criteria
               ((λ p, CriterionEvidence_new p.1 p.2) <$> [("tests", "route tests")])) in
  (∀ c, c ∈ EvidenceMatrix_criteria m →
    (CriterionEvidence_status c = Verified ∧ CriterionEvidence_evidence_ids c ≠ [])
    ∨ CriterionEvidence_status c = NotApplicable) ∧ EvidenceMatrix_criteria m ≠ [].
Proof.
  split; [|by vm_compute].
  apply (complete_matrix_is_evidenced [("tests", "route tests")]
    [("tests", Verified, ["test-1"]); ("docs", Verified, [])]).
  vm_compute. reflexivity.
Defined.
