(* ===== verification/Route.v ===== *)
(** * Route state machine ([crates/domain/src/route.rs])

    A route is changed only by applying an event that one of [transition],
    [complete_with_evidence] and [abandon] proposed.  [apply_transition] and
    [apply_abandonment] are also reachable with events that were deserialised
    from elsewhere, so the completion invariant is proved for arbitrary event
    values, and the life-cycle theorems for proposed ones. *)

From S2P Require Import Prelude Ids Evidence.
From Stdlib Require Import ZArith Lia.
From stdpp Require Import base strings list option relations.

Inductive RouteState :=
| Draft | ReadOnlyExploration | AwaitingPlanApproval | Executing | Verifying
| AwaitingAcceptance | Completed | Paused | Blocked | Abandoned.
#[export] Instance RouteState_eq_dec : EqDecision RouteState.
Proof. solve_decision. Defined.

Definition RouteState_is_terminal (s : RouteState) : bool :=
  match s with Completed | Abandoned => true | _ => false end.

Record RouteAbandonment := {
  RouteAbandonment_last_checkpoint_id : string;
  RouteAbandonment_reason : string;
  RouteAbandonment_failure_evidence_ids : list string;
  RouteAbandonment_reusable_artifacts : list string;
}.

Record Route := {
  Route_route_id : RouteId;
  Route_state : RouteState;
  Route_version : u64;
  Route_derived_from : option RouteId;
  Route_abandonment : option RouteAbandonment;
  Route_final_approval : option Approval;
  Route_evidence_matrix : EvidenceMatrix;
  Route_updated_at : Timestamp;
}.

Record RouteAcceptance := {
  RouteAcceptance_approval : Approval;
  RouteAcceptance_evidence_matrix : EvidenceMatrix;
}.
Record RouteTransitioned := {
  RouteTransitioned_route_id : RouteId;
  RouteTransitioned_from : RouteState;
  RouteTransitioned_to : RouteState;
  RouteTransitioned_expected_version : u64;
  RouteTransitioned_acceptance : option RouteAcceptance;
}.
Record RouteAbandoned := {
  RouteAbandoned_route_id : RouteId;
  RouteAbandoned_from : RouteState;
  RouteAbandoned_expected_version : u64;
  RouteAbandoned_metadata : RouteAbandonment;
}.
Inductive InvalidAbandonment := MkInvalidAbandonment.
Inductive InvalidDerivation := MkInvalidDerivation.
Record InvalidTransition := {
  InvalidTransition_from : RouteState;
  InvalidTransition_to : RouteState;
}.

Definition Route_new (route_id : RouteId) : Route := {|
  Route_route_id := route_id;
  Route_state := Draft;
  Route_version := 0%Z;
  Route_derived_from := None;
  Route_abandonment := None;
  Route_final_approval := None;
  Route_evidence_matrix := EvidenceMatrix_default;
  Route_updated_at := Timestamp_now;
|}.

Definition Route_derived (route_id : RouteId) (source : Route) : result InvalidDerivation Route :=
  if bool_decide (Route_state source ≠ Abandoned)
     || bool_decide (Route_abandonment source = None)
  then Err MkInvalidDerivation
  else let route := Route_new route_id in
    Ok {| Route_route_id := Route_route_id route;
          Route_state := Route_state route;
          Route_version := Route_version route;
          Route_derived_from := Some (Route_route_id source);
          Route_abandonment := Route_abandonment route;
          Route_final_approval := Route_final_approval route;
          Route_evidence_matrix := Route_evidence_matrix route;
          Route_updated_at := Route_updated_at route |}.

Definition allowed_transition (from to : RouteState) : bool :=
  match from, to with
  | Draft, ReadOnlyExploration
  | ReadOnlyExploration, AwaitingPlanApproval
  | AwaitingPlanApproval, Executing
  | Executing, Verifying
  | Verifying, AwaitingAcceptance
  | AwaitingAcceptance, Completed
  | Draft, Paused
  | ReadOnlyExploration, Paused
  | AwaitingPlanApproval, Paused
  | Executing, Paused
  | Verifying, Paused
  | AwaitingAcceptance, Paused
  | Paused, Executing
  | Executing, Blocked
  | Verifying, Blocked
  | Blocked, Executing => true
  | _, _ => false
  end.

Definition Route_transition (self : Route) (target : RouteState)
    : result InvalidTransition RouteTransitioned :=
  if bool_decide (target = Completed) || negb (allowed_transition (Route_state self) target)
  then Err {| InvalidTransition_from := Route_state self; InvalidTransition_to := target |}
  else Ok {| RouteTransitioned_route_id := Route_route_id self;
             RouteTransitioned_from := Route_state self;
             RouteTransitioned_to := target;
             RouteTransitioned_expected_version := Route_version self;
             RouteTransitioned_acceptance := None |}.

Definition Route_complete_with_evidence (self : Route) (approval : Approval)
    (evidence_matrix : EvidenceMatrix) : result InvalidTransition RouteTransitioned :=
  if bool_decide (Route_state self ≠ AwaitingAcceptance)
     || negb (Approval_is_acceptance approval)
     || negb (EvidenceMatrix_is_complete evidence_matrix)
  then Err {| InvalidTransition_from := Route_state self; InvalidTransition_to := Completed |}
  else Ok {| RouteTransitioned_route_id := Route_route_id self;
             RouteTransitioned_from := Route_state self;
             RouteTransitioned_to := Completed;
             RouteTransitioned_expected_version := Route_version self;
             RouteTransitioned_acceptance := Some {|
               RouteAcceptance_approval := approval;
               RouteAcceptance_evidence_matrix := evidence_matrix |} |}.

Definition Route_abandon (self : Route) (metadata : RouteAbandonment)
    : result InvalidAbandonment RouteAbandoned :=
  if RouteState_is_terminal (Route_state self)
     || blank (RouteAbandonment_last_checkpoint_id metadata)
     || blank (RouteAbandonment_reason metadata)
     || is_empty (RouteAbandonment_failure_evidence_ids metadata)
  then Err MkInvalidAbandonment
  else Ok {| RouteAbandoned_route_id := Route_route_id self;
             RouteAbandoned_from := Route_state self;
             RouteAbandoned_expected_version := Route_version self;
             RouteAbandoned_metadata := metadata |}.

Definition Route_apply_abandonment (event : RouteAbandoned)
    : stm Route InvalidAbandonment unit := λ self,
  if bool_decide (RouteAbandoned_route_id event ≠ Route_route_id self)
     || bool_decide (RouteAbandoned_from event ≠ Route_state self)
     || bool_decide (RouteAbandoned_expected_version event ≠ Route_version self)
     || RouteState_is_terminal (Route_state self)
  then (self, Err MkInvalidAbandonment)
  else ({| Route_route_id := Route_route_id self;
           Route_state := Abandoned;
           Route_version := wrapping_add64 (Route_version self) 1;
           Route_derived_from := Route_derived_from self;
           Route_abandonment := Some (RouteAbandoned_metadata event);
           Route_final_approval := Route_final_approval self;
           Route_evidence_matrix := Route_evidence_matrix self;
           Route_updated_at := Timestamp_now |}, Ok tt).

Definition Route_apply_transition (event : RouteTransitioned)
    : stm Route InvalidTransition unit := λ self,
  let invalid := {| InvalidTransition_from := Route_state self;
                    InvalidTransition_to := RouteTransitioned_to event |} in
  let completes := bool_decide (RouteTransitioned_to event = Completed) in
  let accepts := bool_decide (is_Some (RouteTransitioned_acceptance event)) in
  if bool_decide (RouteTransitioned_route_id event ≠ Route_route_id self)
     || bool_decide (RouteTransitioned_from event ≠ Route_state self)
     || bool_decide (RouteTransitioned_expected_version event ≠ Route_version self)
     || negb (Bool.eqb completes accepts)
  then (self, Err invalid)
  else
    let moved (final_approval : option Approval) (evidence_matrix : EvidenceMatrix) : Route :=
      {| Route_route_id := Route_route_id self;
         Route_state := RouteTransitioned_to event;
         Route_version := wrapping_add64 (Route_version self) 1;
         Route_derived_from := Route_derived_from self;
         Route_abandonment := Route_abandonment self;
         Route_final_approval := final_approval;
         Route_evidence_matrix := evidence_matrix;
         Route_updated_at := Timestamp_now |} in
    match RouteTransitioned_acceptance event with
    | Some acceptance =>
        if negb (Approval_is_acceptance (RouteAcceptance_approval acceptance))
           || negb (EvidenceMatrix_is_complete (RouteAcceptance_evidence_matrix acceptance))
        then (self, Err invalid)
        else (moved (Some (RouteAcceptance_approval acceptance))
                    (RouteAcceptance_evidence_matrix acceptance), Ok tt)
    | None => (moved (Route_final_approval self) (Route_evidence_matrix self), Ok tt)
    end.

(** ** Applying events *)

Lemma Route_apply_transition_ok ev r r' :
  Route_apply_transition ev r = (r', Ok tt) →
  RouteTransitioned_from ev = Route_state r ∧
  RouteTransitioned_expected_version ev = Route_version r ∧
  Route_route_id r' = Route_route_id r ∧
  Route_state r' = RouteTransitioned_to ev ∧
  Route_version r' = wrapping_add64 (Route_version r) 1 ∧
  Route_abandonment r' = Route_abandonment r ∧
  (RouteTransitioned_to ev = Completed →
   ∃ a, Route_final_approval r' = Some a ∧ Approval_is_acceptance a = true ∧
        EvidenceMatrix_is_complete (Route_evidence_matrix r') = true).
Proof.
  unfold Route_apply_transition. intros Hap.
  destruct (_ || _) eqn:Hg in Hap; [done|]. guards.
  destruct (RouteTransitioned_acceptance ev) as [acc|] eqn:Hacc.
  - destruct (_ || _) eqn:Hg2 in Hap; [done|]. guards. simplify_eq/=. eauto 10.
  - simplify_eq/=. guards. repeat split; done.
Qed.

Lemma Route_apply_abandonment_ok ev r r' :
  Route_apply_abandonment ev r = (r', Ok tt) →
  RouteState_is_terminal (Route_state r) = false ∧
  RouteAbandoned_expected_version ev = Route_version r ∧
  Route_route_id r' = Route_route_id r ∧
  Route_state r' = Abandoned ∧
  Route_version r' = wrapping_add64 (Route_version r) 1 ∧
  Route_abandonment r' = Some (RouteAbandoned_metadata ev).
Proof.
  unfold Route_apply_abandonment. intros Hap.
  destruct (_ || _) eqn:Hg in Hap; [done|]. guards. by simplify_eq/=.
Qed.

Lemma Route_apply_err_id ev r r' e :
  Route_apply_transition ev r = (r', Err e) → r' = r.
Proof. unfold Route_apply_transition. intros Hap. by run Hap. Qed.

(** ** The completion invariant, for arbitrary event values *)
Inductive RouteEvent :=
| EvTransitioned (ev : RouteTransitioned)
| EvAbandoned (ev : RouteAbandoned).

Definition Route_apply (ev : RouteEvent) (r : Route) : Route :=
  match ev with
  | EvTransitioned ev => (Route_apply_transition ev r).1
  | EvAbandoned ev => (Route_apply_abandonment ev r).1
  end.
Definition Route_apply_all (evs : list RouteEvent) (r : Route) : Route :=
  foldl (λ r ev, Route_apply ev r) r evs.

Definition accepted (r : Route) : Prop :=
  ∃ a, Route_final_approval r = Some a ∧ Approval_is_acceptance a = true ∧
       EvidenceMatrix_is_complete (Route_evidence_matrix r) = true.

Lemma Route_apply_accepted ev r :
  (Route_state r = Completed → accepted r) →
  Route_state (Route_apply ev r) = Completed → accepted (Route_apply ev r).
Proof.
  intros Hr. destruct ev as [ev|ev]; simpl.
  - destruct (Route_apply_transition ev r) as [r' [[]|e]] eqn:Hap; simpl.
    + apply Route_apply_transition_ok in Hap as (_&_&_&Hst&_&_&Hacc).
      rewrite Hst. exact Hacc.
    + apply Route_apply_err_id in Hap as ->. done.
  - unfold Route_apply_abandonment. case_match; [done|]. simpl. done.
Qed.

Lemma Route_apply_all_accepted evs r :
  (Route_state r = Completed → accepted r) →
  Route_state (Route_apply_all evs r) = Completed → accepted (Route_apply_all evs r).
Proof.
  revert r. induction evs as [|ev evs IH]; intros r Hr; [done|].
  apply IH. by apply Route_apply_accepted.
Qed.

(** ** The life cycle, driven by proposed events *)
Inductive route_step : Route → Route → Prop :=
| step_transition r target ev r' :
    Route_transition r target = Ok ev →
    Route_apply_transition ev r = (r', Ok tt) → route_step r r'
| step_complete r approval matrix ev r' :
    Route_complete_with_evidence r approval matrix = Ok ev →
    Route_apply_transition ev r = (r', Ok tt) → route_step r r'
| step_abandon r metadata ev r' :
    Route_abandon r metadata = Ok ev →
    Route_apply_abandonment ev r = (r', Ok tt) → route_step r r'.

Definition abandonment_recorded (r : Route) : Prop :=
  ∃ m, Route_abandonment r = Some m ∧
       blank (RouteAbandonment_last_checkpoint_id m) = false ∧
       blank (RouteAbandonment_reason m) = false ∧
       RouteAbandonment_failure_evidence_ids m ≠ [].

(** A route's invariant: it is completed only with an accepting approval and
    a complete matrix, and carries abandonment metadata exactly when it is
    abandoned. *)
Record route_wf (r : Route) : Prop := {
  wf_completed : Route_state r = Completed → accepted r;
  wf_abandoned : Route_state r = Abandoned → abandonment_recorded r;
  wf_live : Route_state r ≠ Abandoned → Route_abandonment r = None;
}.

Lemma Route_transition_ok r t ev :
  Route_transition r t = Ok ev →
  t ≠ Completed ∧ allowed_transition (Route_state r) t = true ∧
  RouteTransitioned_to ev = t ∧ RouteTransitioned_from ev = Route_state r.
Proof. unfold Route_transition. case_match; [done|]. guards. intros [= <-]. done. Qed.

Lemma allowed_not_terminal s t :
  allowed_transition s t = true → RouteState_is_terminal s = false ∧ t ≠ Abandoned.
Proof. by destruct s, t. Qed.

Lemma route_step_not_terminal r r' :
  route_step r r' → RouteState_is_terminal (Route_state r) = false.
Proof.
  destruct 1 as [r t ev r' Hp _|r a m ev r' Hp _|r md ev r' _ Ha].
  - apply Route_transition_ok in Hp as (_&Hal&_). by apply allowed_not_terminal in Hal as [? _].
  - unfold Route_complete_with_evidence in Hp. case_match; [done|]. guards.
    by destruct (Route_state r).
  - by apply Route_apply_abandonment_ok in Ha as (?&_).
Qed.

Lemma route_step_wf r r' : route_wf r → route_step r r' → route_wf r'.
Proof.
  intros Hwf Hs. pose proof (route_step_not_terminal _ _ Hs) as Hnt.
  destruct Hs as [r t ev r' Hp Ha|r a m ev r' Hp Ha|r md ev r' Hp Ha].
  - apply Route_transition_ok in Hp as (Hc&Hal&Hto&_).
    apply allowed_not_terminal in Hal as [_ Hna].
    apply Route_apply_transition_ok in Ha as (_&_&_&Hst&_&Hab&_).
    rewrite Hto in Hst. split; rewrite Hst; [done|done|]. intros _. rewrite Hab.
    apply (wf_live r Hwf). intros Hab'. by rewrite Hab' in Hnt.
  - unfold Route_complete_with_evidence in Hp. case_match; [done|]. simplify_eq/=.
    apply Route_apply_transition_ok in Ha as (_&_&_&Hst&_&Hab&Hacc). simpl in *.
    split; rewrite Hst; [intros _; by apply Hacc|done|]. intros _. rewrite Hab.
    apply (wf_live r Hwf). intros Hab'. by rewrite Hab' in Hnt.
  - unfold Route_abandon in Hp. case_match; [done|]. guards. simplify_eq/=.
    apply Route_apply_abandonment_ok in Ha as (_&_&_&Hst&_&Hab). simpl in Hab.
    split; rewrite Hst; [done| |done]. intros _. exists md. repeat split; try done.
    intros Hnil. by rewrite Hnil in *.
Qed.

Lemma route_steps_wf id r : rtc route_step (Route_new id) r → route_wf r.
Proof.
  assert (route_wf (Route_new id)) as Hnew by by split.
  intros Hs. revert Hnew. induction Hs; eauto using route_step_wf.
Qed.

(** ** Theorems *)

(** C2: whatever sequence of transition and abandonment events is applied to
    a new route, forged, stale or rejected ones included, the route is in
    state [Completed] only with a recorded approval that is an acceptance
    and with a complete evidence matrix. *)
Theorem completed_route_is_accepted (id : RouteId) (evs : list RouteEvent) :
  Route_state (Route_apply_all evs (Route_new id)) = Completed →
  ∃ a, Route_final_approval (Route_apply_all evs (Route_new id)) = Some a ∧
    Approval_is_acceptance a = true ∧
    EvidenceMatrix_is_complete
      (Route_evidence_matrix (Route_apply_all evs (Route_new id))) = true.
Proof. by apply Route_apply_all_accepted. Qed.

(** On every route reachable by proposing and applying events, the route
    invariant holds (completed with acceptance, abandoned with full
    metadata, metadata only when abandoned), no step leaves [Completed] or
    [Abandoned], and a derived route can be created exactly when the route
    is abandoned. *)
Theorem route_lifecycle (id fresh : RouteId) (r : Route)
    (Hreach : rtc route_step (Route_new id) r) :
  route_wf r ∧
  (RouteState_is_terminal (Route_state r) = true → ∀ r', ¬ route_step r r') ∧
  (is_ok (Route_derived fresh r) = true ↔ Route_state r = Abandoned).
Proof.
  pose proof (route_steps_wf _ _ Hreach) as Hwf. split; [done|]. split.
  - intros Ht r' Hs. apply route_step_not_terminal in Hs. congruence.
  - unfold Route_derived. split.
    + case_match; [done|]. guards. done.
    + intros Ha. destruct (wf_abandoned _ Hwf Ha) as (m&Hm&_).
      by rewrite Ha, Hm.
Qed.

(** C34: [transition] accepts exactly the edges of the allowed-transition
    table except completion, and applying the event it proposes to the same
    route always succeeds, moves it to the target, bumps the version by one
    and changes no approval, evidence or abandonment data. *)
Theorem proposed_transition_applies (r : Route) (target : RouteState) :
  if allowed_transition (Route_state r) target && negb (bool_decide (target = Completed))
  then ∃ ev, Route_transition r target = Ok ev ∧
    Route_apply_transition ev r =
      ({| Route_route_id := Route_route_id r;
          Route_state := target;
          Route_version := wrapping_add64 (Route_version r) 1;
          Route_derived_from := Route_derived_from r;
          Route_abandonment := Route_abandonment r;
          Route_final_approval := Route_final_approval r;
          Route_evidence_matrix := Route_evidence_matrix r;
          Route_updated_at := Timestamp_now |}, Ok tt)
  else Route_transition r target =
    Err {| InvalidTransition_from := Route_state r; InvalidTransition_to := target |}.
Proof.
  unfold Route_transition.
  destruct (allowed_transition _ _) eqn:Hal; simpl; [|by rewrite orb_true_r].
  destruct (bool_decide (target = Completed)) eqn:Hc; simpl; [done|].
  eexists. split; [done|]. unfold Route_apply_transition. simpl.
  rewrite !bool_decide_eq_false_2 by (by intros []; auto). by rewrite Hc.
Qed.

(** An applied transition event is rejected when applied again, and so is
    every event proposed on the route before that application: the version
    stamp makes proposals single-use. *)
Lemma stale_transition_rejected (r r' : Route) (ev ev' : RouteTransitioned)
    (Hv : is_u64 (Route_version r))
    (Hap : Route_apply_transition ev r = (r', Ok tt))
    (Hstale : RouteTransitioned_expected_version ev' = Route_version r) :
  Route_apply_transition ev' r' =
    (r', Err {| InvalidTransition_from := Route_state r';
                InvalidTransition_to := RouteTransitioned_to ev' |}).
Proof.
  apply Route_apply_transition_ok in Hap as (_&_&_&_&Hver&_).
  unfold Route_apply_transition.
  assert (bool_decide (RouteTransitioned_expected_version ev' ≠ Route_version r') = true) as ->.
  { apply bool_decide_eq_true. rewrite Hver, Hstale. symmetry.
    by apply wrapping_succ64_neq. }
  by rewrite orb_true_r, orb_true_l.
Qed.

(** A paused route resumes into [Executing] whatever it was doing before,
    so pausing a draft is a way into execution that never visits
    [AwaitingPlanApproval]. *)
Theorem pause_bypasses_plan_approval (id : RouteId) :
  ∃ r1 r2, route_step (Route_new id) r1 ∧ Route_state r1 = Paused ∧
    route_step r1 r2 ∧ Route_state r2 = Executing.
Proof.
  do 2 eexists. split; [|split; [|split]].
  - eapply (step_transition _ Paused); [reflexivity|]. unfold Route_apply_transition.
    simpl. by rewrite bool_decide_eq_false_2 by auto.
  - reflexivity.
  - eapply (step_transition _ Executing); [reflexivity|]. unfold Route_apply_transition.
    simpl. by rewrite bool_decide_eq_false_2 by auto.
  - reflexivity.
Qed.

(** ** Witnesses *)
Definition demo_approval : Approval :=
  {| Approval_actor := "user"; Approval_decision := "accept";
     Approval_evidence_event_ids := ["event-1"] |}.
Definition demo_matrix : EvidenceMatrix :=
  record_all [("tests", Verified, ["test-1"])]
    (EvidenceMatrix_from_criteria [CriterionEvidence_new "tests" "route tests"]).
Definition demo_event (from to : RouteState) (v : u64) (acc : option RouteAcceptance) : RouteEvent :=
  EvTransitioned {| RouteTransitioned_route_id := 7%N; RouteTransitioned_from := from;
    RouteTransitioned_to := to; RouteTransitioned_expected_version := v;
    RouteTransitioned_acceptance := acc |}.
Definition demo_path : list RouteEvent :=
  [ demo_event Draft ReadOnlyExploration 0 None;
    demo_event ReadOnlyExploration Completed 1 None;
    demo_event ReadOnlyExploration AwaitingAcceptance 1 None;
    demo_event AwaitingAcceptance Completed 2
      (Some {| RouteAcceptance_approval := demo_approval;
               RouteAcceptance_evidence_matrix := demo_matrix |}) ].

Lemma completed_route_is_accepted_witness :
  ∃ a, Route_final_approval (Route_apply_all demo_path (Route_new 7%N)) = Some a ∧
    Approval_is_acceptance a = true ∧
    EvidenceMatrix_is_complete
      (Route_evidence_matrix (Route_apply_all demo_path (Route_new 7%N))) = true.
Proof. apply (completed_route_is_accepted 7%N demo_path). vm_compute. reflexivity. Defined.

Definition demo_metadata : RouteAbandonment :=
  {| RouteAbandonment_last_checkpoint_id := "cp-final";
     RouteAbandonment_reason := "verification failed";
     RouteAbandonment_failure_evidence_ids := ["evidence-failure"];
     RouteAbandonment_reusable_artifacts := [] |}.
Definition demo_abandoned : Route :=
  (Route_apply_abandonment
    {| RouteAbandoned_route_id := 7%N; RouteAbandoned_from := Draft;
       RouteAbandoned_expected_version := 0%Z;
       RouteAbandoned_metadata := demo_metadata |} (Route_new 7%N)).1.

Lemma route_lifecycle_witness :
  rtc route_step (Route_new 7%N) demo_abandoned ∧ Route_state demo_abandoned = Abandoned ∧
  is_ok (Route_derived 8%N demo_abandoned) = true ∧ ∀ r', ¬ route_step demo_abandoned r'.
Proof.
  assert (Hreach : rtc route_step (Route_new 7%N) demo_abandoned).
  { apply rtc_once. by eapply (step_abandon _ demo_metadata). }
  destruct (route_lifecycle 7%N 8%N _ Hreach) as (_&Hend&Hder).
  split; [exact Hreach|]. split; [reflexivity|].
  split; [apply Hder; reflexivity|apply Hend; reflexivity].
Defined.

Definition demo_proposal : RouteTransitioned :=
  {| RouteTransitioned_route_id := 7%N; RouteTransitioned_from := Draft;
     RouteTransitioned_to := ReadOnlyExploration; RouteTransitioned_expected_version := 0%Z;
     RouteTransitioned_acceptance := None |}.
Definition demo_moved : Route := (Route_apply_transition demo_proposal (Route_new 7%N)).1.

Lemma stale_transition_rejected_witness :
  Route_transition (Route_new 7%N) ReadOnlyExploration = Ok demo_proposal ∧
  Route_apply_transition demo_proposal demo_moved =
    (demo_moved, Err {| InvalidTransition_from := ReadOnlyExploration;
                        InvalidTransition_to := ReadOnlyExploration |}).
Proof.
  split; [reflexivity|].
  apply (stale_transition_rejected (Route_new 7%N) demo_moved demo_proposal demo_proposal);
    [split; by vm_compute|reflexivity|reflexivity].
Defined.
