(* ===== verification/Contract.v ===== *)
(** * Versioned mission contracts ([crates/domain/src/contract.rs] and
    [crates/domain/src/mission.rs])

    A contract changes only by a versioned patch; the resulting diff lists the
    fields that changed. *)

From S2P Require Import Prelude Extern Ids Evidence Route.
From Stdlib Require Import ZArith Lia.
From stdpp Require Import base strings list option.

Inductive DrivingMode := Manual | Assisted | Autopilot.
#[export] Instance DrivingMode_eq_dec : EqDecision DrivingMode.
Proof. solve_decision. Defined.

Record ApprovalPolicy := {
  ApprovalPolicy_require_plan_approval : bool;
  ApprovalPolicy_require_write_approval : bool;
  ApprovalPolicy_require_final_acceptance : bool;
}.
Record Budget := {
  Budget_max_tokens : option u64;
  Budget_max_duration_seconds : option u64;
  Budget_max_cost_micros : option u64;
}.
Record Loadout := {
  Loadout_provider : string;
  Loadout_model : string;
  Loadout_configuration_digest : string;
}.

Record MissionContract := {
  MissionContract_version : u64;
  MissionContract_goal : string;
  MissionContract_non_goals : list string;
  MissionContract_acceptance_criteria : list string;
  MissionContract_allowed_paths : list string;
  MissionContract_forbidden_scopes : list string;
  MissionContract_driving_mode : DrivingMode;
  MissionContract_approval_policy : ApprovalPolicy;
  MissionContract_budget : Budget;
  MissionContract_loadout : Loadout;
  MissionContract_confirmed_assumptions : list string;
  MissionContract_risks : list string;
}.

Definition MissionContract_default : MissionContract := {|
  MissionContract_version := 1%Z;
  MissionContract_goal := "";
  MissionContract_non_goals := [];
  MissionContract_acceptance_criteria := [];
  MissionContract_allowed_paths := [];
  MissionContract_forbidden_scopes := [];
  MissionContract_driving_mode := Manual;
  MissionContract_approval_policy := {|
    ApprovalPolicy_require_plan_approval := false;
    ApprovalPolicy_require_write_approval := false;
    ApprovalPolicy_require_final_acceptance := false |};
  MissionContract_budget := {|
    Budget_max_tokens := None; Budget_max_duration_seconds := None;
    Budget_max_cost_micros := None |};
  MissionContract_loadout := {|
    Loadout_provider := ""; Loadout_model := ""; Loadout_configuration_digest := "" |};
  MissionContract_confirmed_assumptions := [];
  MissionContract_risks := [];
|}.

Record ContractPatch := {
  ContractPatch_goal : option string;
  ContractPatch_non_goals : option (list string);
  ContractPatch_acceptance_criteria : option (list string);
  ContractPatch_allowed_paths : option (list string);
  ContractPatch_forbidden_scopes : option (list string);
  ContractPatch_driving_mode : option DrivingMode;
  ContractPatch_approval_policy : option ApprovalPolicy;
  ContractPatch_budget : option Budget;
  ContractPatch_loadout : option Loadout;
  ContractPatch_confirmed_assumptions : option (list string);
  ContractPatch_risks : option (list string);
}.

Inductive PatchActor := PatchUser | PatchSystem | PatchAgent.
#[export] Instance PatchActor_eq_dec : EqDecision PatchActor.
Proof. solve_decision. Defined.

Inductive VersionConflict :=
| ExpectedVersion (expected actual : u64)
| AgentMutationForbidden.

(** The field types a contract serialises, each through its derived
    [Serialize]. *)
Class ContractSerde `{SerdeJson} : Type := {
  serde_String :: Serde string;
  serde_Vec_String :: Serde (list string);
  serde_DrivingMode :: Serde DrivingMode;
  serde_ApprovalPolicy :: Serde ApprovalPolicy;
  serde_Budget :: Serde Budget;
  serde_Loadout :: Serde Loadout;
}.
Class ContractSerdeLaws `{ContractSerde} : Prop := {
  serde_laws_String :: SerdeLaws string;
  serde_laws_Vec_String :: SerdeLaws (list string);
  serde_laws_DrivingMode :: SerdeLaws DrivingMode;
  serde_laws_ApprovalPolicy :: SerdeLaws ApprovalPolicy;
  serde_laws_Budget :: SerdeLaws Budget;
  serde_laws_Loadout :: SerdeLaws Loadout;
}.

Section contract.
Context `{ContractSerde}.

Record ContractFieldDiff := {
  ContractFieldDiff_field : string;
  ContractFieldDiff_before : Value;
  ContractFieldDiff_after : Value;
}.
Record ContractDiff := {
  ContractDiff_from_version : u64;
  ContractDiff_to_version : u64;
  ContractDiff_fields : list ContractFieldDiff;
}.

(** The body of the [update!] macro: the field's next value and what is
    pushed onto [fields]. *)
Definition update_field {T} `{!Serde T} (field : string) (current : T) (patch : option T)
    : T * list ContractFieldDiff :=
  match patch with
  | None => (current, [])
  | Some value =>
      let before := to_value current in
      let after := to_value value in
      if bool_decide (before ≠ after)
      then (value, [{| ContractFieldDiff_field := field;
                       ContractFieldDiff_before := before;
                       ContractFieldDiff_after := after |}])
      else (current, [])
  end.

Definition MissionContract_apply_patch (self : MissionContract) (expected_version : u64)
    (patch : ContractPatch) (actor : PatchActor)
    : result VersionConflict (MissionContract * ContractDiff) :=
  if bool_decide (actor = PatchAgent) then Err AgentMutationForbidden
  else if bool_decide (expected_version ≠ MissionContract_version self)
  then Err (ExpectedVersion expected_version (MissionContract_version self))
  else
    let '(goal, d1) := update_field "goal" (MissionContract_goal self) (ContractPatch_goal patch) in
    let '(non_goals, d2) :=
      update_field "non_goals" (MissionContract_non_goals self) (ContractPatch_non_goals patch) in
    let '(acceptance_criteria, d3) :=
      update_field "acceptance_criteria" (MissionContract_acceptance_criteria self)
        (ContractPatch_acceptance_criteria patch) in
    let '(allowed_paths, d4) :=
      update_field "allowed_paths" (MissionContract_allowed_paths self)
        (ContractPatch_allowed_paths patch) in
    let '(forbidden_scopes, d5) :=
      update_field "forbidden_scopes" (MissionContract_forbidden_scopes self)
        (ContractPatch_forbidden_scopes patch) in
    let '(driving_mode, d6) :=
      update_field "driving_mode" (MissionContract_driving_mode self)
        (ContractPatch_driving_mode patch) in
    let '(approval_policy, d7) :=
      update_field "approval_policy" (MissionContract_approval_policy self)
        (ContractPatch_approval_policy patch) in
    let '(budget, d8) :=
      update_field "budget" (MissionContract_budget self) (ContractPatch_budget patch) in
    let '(loadout, d9) :=
      update_field "loadout" (MissionContract_loadout self) (ContractPatch_loadout patch) in
    let '(confirmed_assumptions, d10) :=
      update_field "confirmed_assumptions" (MissionContract_confirmed_assumptions self)
        (ContractPatch_confirmed_assumptions patch) in
    let '(risks, d11) :=
      update_field "risks" (MissionContract_risks self) (ContractPatch_risks patch) in
    Ok ({| MissionContract_version := wrapping_add64 (MissionContract_version self) 1;
           MissionContract_goal := goal;
           MissionContract_non_goals := non_goals;
           MissionContract_acceptance_criteria := acceptance_criteria;
           MissionContract_allowed_paths := allowed_paths;
           MissionContract_forbidden_scopes := forbidden_scopes;
           MissionContract_driving_mode := driving_mode;
           MissionContract_approval_policy := approval_policy;
           MissionContract_budget := budget;
           MissionContract_loadout := loadout;
           MissionContract_confirmed_assumptions := confirmed_assumptions;
           MissionContract_risks := risks |},
        {| ContractDiff_from_version := MissionContract_version self;
           ContractDiff_to_version := wrapping_add64 (MissionContract_version self) 1;
           ContractDiff_fields :=
             d1 ++ d2 ++ d3 ++ d4 ++ d5 ++ d6 ++ d7 ++ d8 ++ d9 ++ d10 ++ d11 |}).

(** ** Specification: the patched contract and the difference of two contracts *)
Definition patched (c : MissionContract) (p : ContractPatch) : MissionContract := {|
  MissionContract_version := wrapping_add64 (MissionContract_version c) 1;
  MissionContract_goal := default (MissionContract_goal c) (ContractPatch_goal p);
  MissionContract_non_goals := default (MissionContract_non_goals c) (ContractPatch_non_goals p);
  MissionContract_acceptance_criteria :=
    default (MissionContract_acceptance_criteria c) (ContractPatch_acceptance_criteria p);
  MissionContract_allowed_paths :=
    default (MissionContract_allowed_paths c) (ContractPatch_allowed_paths p);
  MissionContract_forbidden_scopes :=
    default (MissionContract_forbidden_scopes c) (ContractPatch_forbidden_scopes p);
  MissionContract_driving_mode :=
    default (MissionContract_driving_mode c) (ContractPatch_driving_mode p);
  MissionContract_approval_policy :=
    default (MissionContract_approval_policy c) (ContractPatch_approval_policy p);
  MissionContract_budget := default (MissionContract_budget c) (ContractPatch_budget p);
  MissionContract_loadout := default (MissionContract_loadout c) (ContractPatch_loadout p);
  MissionContract_confirmed_assumptions :=
    default (MissionContract_confirmed_assumptions c) (ContractPatch_confirmed_assumptions p);
  MissionContract_risks := default (MissionContract_risks c) (ContractPatch_risks p);
|}.

(** A contract's patchable fields as (name, JSON) pairs, in declaration order. *)
Definition contract_fields (c : MissionContract) : list (string * Value) :=
  [ ("goal", to_value (MissionContract_goal c));
    ("non_goals", to_value (MissionContract_non_goals c));
    ("acceptance_criteria", to_value (MissionContract_acceptance_criteria c));
    ("allowed_paths", to_value (MissionContract_allowed_paths c));
    ("forbidden_scopes", to_value (MissionContract_forbidden_scopes c));
    ("driving_mode", to_value (MissionContract_driving_mode c));
    ("approval_policy", to_value (MissionContract_approval_policy c));
    ("budget", to_value (MissionContract_budget c));
    ("loadout", to_value (MissionContract_loadout c));
    ("confirmed_assumptions", to_value (MissionContract_confirmed_assumptions c));
    ("risks", to_value (MissionContract_risks c)) ].

Definition field_diff (b a : string * Value) : list ContractFieldDiff :=
  if bool_decide (b.2 ≠ a.2)
  then [{| ContractFieldDiff_field := b.1;
           ContractFieldDiff_before := b.2; ContractFieldDiff_after := a.2 |}]
  else [].
Definition contract_diff (before after : MissionContract) : list ContractFieldDiff :=
  concat (zip_with field_diff (contract_fields before) (contract_fields after)).

Lemma update_field_value {T} `{!Serde T, !SerdeLaws T} name (cur : T) p :
  (update_field name cur p).1 = default cur p.
Proof.
  destruct p as [v|]; simpl; [|done]. case_bool_decide as Hd; [done|].
  by apply (inj to_value) in Hd.
Qed.
Lemma update_field_diff {T} `{!Serde T, !SerdeLaws T} name (cur : T) p :
  (update_field name cur p).2 = field_diff (name, to_value cur) (name, to_value (default cur p)).
Proof.
  destruct p as [v|]; unfold field_diff; simpl; [by case_bool_decide|].
  by rewrite bool_decide_eq_false_2 by auto.
Qed.

Lemma update_field_eq {T} `{!Serde T, !SerdeLaws T} name (cur : T) p :
  update_field name cur p =
    (default cur p, field_diff (name, to_value cur) (name, to_value (default cur p))).
Proof.
  rewrite (surjective_pairing (update_field name cur p)).
  by rewrite update_field_value, update_field_diff.
Qed.

End contract.
Arguments ContractFieldDiff {_}.
Arguments ContractDiff {_}.

(** The whole behaviour of [apply_patch].  An agent can never patch a
    contract; a caller with a stale version gets the conflict with both
    versions; any other caller gets the contract in which exactly the
    patched fields are replaced and the version is one higher, with a diff
    that lists, in order, exactly the fields whose JSON differs between the
    old and the new contract. *)
Theorem apply_patch_spec `{ContractSerdeLaws} (c : MissionContract) (expected : u64)
    (p : ContractPatch) (actor : PatchActor) :
  MissionContract_apply_patch c expected p actor =
    match actor with
    | PatchAgent => Err AgentMutationForbidden
    | _ =>
        if (expected =? MissionContract_version c)%Z then
          Ok (patched c p,
              {| ContractDiff_from_version := MissionContract_version c;
                 ContractDiff_to_version := wrapping_add64 (MissionContract_version c) 1;
                 ContractDiff_fields := contract_diff c (patched c p) |})
        else Err (ExpectedVersion expected (MissionContract_version c))
    end.
Proof.
  unfold MissionContract_apply_patch. rewrite !update_field_eq.
  destruct (Z.eqb_spec expected (MissionContract_version c)) as [->|Hne];
    [rewrite (bool_decide_eq_false_2 (_ ≠ _)) by auto|rewrite (bool_decide_eq_true_2 _ Hne)];
    destruct actor; try done;
    unfold contract_diff, contract_fields, patched; simpl; by rewrite app_nil_r.
Qed.

(** ** Witness: the concrete serialisation *)
Import Json.
#[export] Instance json_serde_DrivingMode : Serde DrivingMode := {
  to_value := λ m, JStr (match m with
    | Manual => "manual" | Assisted => "assisted" | Autopilot => "autopilot" end);
  from_value := λ v, match v with
    | JStr "manual" => Ok Manual | JStr "assisted" => Ok Assisted
    | JStr "autopilot" => Ok Autopilot | _ => Err "unknown variant" end;
}.
#[export] Instance json_serde_ApprovalPolicy : Serde ApprovalPolicy := {
  to_value := λ p, JArr [JBool (ApprovalPolicy_require_plan_approval p);
    JBool (ApprovalPolicy_require_write_approval p);
    JBool (ApprovalPolicy_require_final_acceptance p)];
  from_value := λ v, match v with
    | JArr [JBool a; JBool b; JBool c] => Ok (Build_ApprovalPolicy a b c)
    | _ => Err "invalid type" end;
}.
#[export] Instance json_serde_Budget : Serde Budget := {
  to_value := λ b, JArr [json_of_opt JNum (Budget_max_tokens b);
    json_of_opt JNum (Budget_max_duration_seconds b);
    json_of_opt JNum (Budget_max_cost_micros b)];
  from_value := λ v, match v with
    | JArr [a; b; c] => from_opt (
        x ← json_to_opt json_to_num a; y ← json_to_opt json_to_num b;
        z ← json_to_opt json_to_num c; Some (Build_Budget x y z))
    | _ => Err "invalid type" end;
}.
#[export] Instance json_serde_Loadout : Serde Loadout := {
  to_value := λ l, JArr [JStr (Loadout_provider l); JStr (Loadout_model l);
    JStr (Loadout_configuration_digest l)];
  from_value := λ v, match v with
    | JArr [JStr a; JStr b; JStr c] => Ok (Build_Loadout a b c)
    | _ => Err "invalid type" end;
}.
#[export] Instance json_contract_serde : ContractSerde := {}.
#[export] Instance json_contract_serde_laws : ContractSerdeLaws.
Proof. split; try apply _; [by intros []|by intros []| |by intros []]. by intros [[] [] []]. Qed.

Definition demo_patch : ContractPatch := {|
  ContractPatch_goal := Some "ship"; ContractPatch_non_goals := Some [];
  ContractPatch_acceptance_criteria := None; ContractPatch_allowed_paths := None;
  ContractPatch_forbidden_scopes := None; ContractPatch_driving_mode := Some Assisted;
  ContractPatch_approval_policy := None; ContractPatch_budget := None;
  ContractPatch_loadout := None; ContractPatch_confirmed_assumptions := None;
  ContractPatch_risks := None |}.

Lemma apply_patch_spec_witness :
  ∃ next diff,
    MissionContract_apply_patch MissionContract_default 1 demo_patch PatchUser = Ok (next, diff) ∧
    MissionContract_version next = 2%Z ∧
    (ContractFieldDiff_field <$> ContractDiff_fields diff) = ["goal"; "driving_mode"].
Proof.
  do 2 eexists. split; [rewrite apply_patch_spec; reflexivity|].
  split; vm_compute; reflexivity.
Defined.

(** ** [Mission] *)
Record Mission := {
  Mission_mission_id : MissionId;
  Mission_contract : MissionContract;
  Mission_routes : list Route;
  Mission_created_at : Timestamp;
}.
Definition Mission_new (mission_id : MissionId) (contract : MissionContract) : Mission := {|
  Mission_mission_id := mission_id; Mission_contract := contract;
  Mission_routes := []; Mission_created_at := Timestamp_now |}.
Definition Mission_add_route (self : Mission) (route : Route) : Mission := {|
  Mission_mission_id := Mission_mission_id self; Mission_contract := Mission_contract self;
  Mission_routes := Mission_routes self ++ [route];
  Mission_created_at := Mission_created_at self |}.
