(* ===== verification/Event.v ===== *)
(** * Event envelopes ([crates/domain/src/event.rs])

    The kinds of events with their textual form, and the envelope with the
    digest of its payload. *)

From S2P Require Import Prelude Extern Ids.
From Stdlib Require Import ZArith.
From stdpp Require Import base gmap strings list option.

Inductive EventSource := SourceSupervisor | SourceAgent | SourceUser | SourceSystem.
#[export] Instance EventSource_eq_dec : EqDecision EventSource.
Proof. solve_decision. Defined.

Inductive EventConfidence := Observed | Inferred | Confirmed.
#[export] Instance EventConfidence_eq_dec : EqDecision EventConfidence.
Proof. solve_decision. Defined.

Inductive EventKind :=
| MissionCreated | ContractUpdated | RouteCreated | RouteStateChanged
| ExplorationStarted | AgentRunStarted | AgentRunCompleted | AgentRunAborted
| AgentMessage | EvidenceRecorded | ApprovalRequested | ApprovalResolved
| ApprovalRevoked | ApprovalExpired | ApprovalConsumed | BudgetWarning
| BudgetApprovalRequired | BudgetExceeded | FlightEnvelopeChanged
| LoadoutChanged | MemoryItemChanged | PauseRequested | RecoveryContinued
| RecoveryAbandoned
| UnknownKind (value : string).
#[export] Instance EventKind_eq_dec : EqDecision EventKind.
Proof. solve_decision. Defined.

Definition EventKind_as_str (self : EventKind) : string :=
  match self with
  | MissionCreated => "mission_created"
  | ContractUpdated => "contract_updated"
  | RouteCreated => "route_created"
  | RouteStateChanged => "route_state_changed"
  | ExplorationStarted => "exploration_started"
  | AgentRunStarted => "agent_run_started"
  | AgentRunCompleted => "agent_run_completed"
  | AgentRunAborted => "agent_run_aborted"
  | AgentMessage => "agent_message"
  | EvidenceRecorded => "evidence_recorded"
  | ApprovalRequested => "approval_requested"
  | ApprovalResolved => "approval_resolved"
  | ApprovalRevoked => "approval_revoked"
  | ApprovalExpired => "approval_expired"
  | ApprovalConsumed => "approval_consumed"
  | BudgetWarning => "budget_warning"
  | BudgetApprovalRequired => "budget_approval_required"
  | BudgetExceeded => "budget_exceeded"
  | FlightEnvelopeChanged => "flight_envelope_changed"
  | LoadoutChanged => "loadout_changed"
  | MemoryItemChanged => "memory_item_changed"
  | PauseRequested => "pause_requested"
  | RecoveryContinued => "recovery_continued"
  | RecoveryAbandoned => "recovery_abandoned"
  | UnknownKind value => value
  end.

(** [EventKindVisitor::visit_str]. *)
Definition EventKind_visit_str (value : string) : EventKind :=
  if str_eqb value "mission_created" then MissionCreated
  else if str_eqb value "contract_updated" then ContractUpdated
  else if str_eqb value "route_created" then RouteCreated
  else if str_eqb value "route_state_changed" then RouteStateChanged
  else if str_eqb value "exploration_started" then ExplorationStarted
  else if str_eqb value "agent_run_started" then AgentRunStarted
  else if str_eqb value "agent_run_completed" then AgentRunCompleted
  else if str_eqb value "agent_run_aborted" then AgentRunAborted
  else if str_eqb value "agent_message" then AgentMessage
  else if str_eqb value "evidence_recorded" then EvidenceRecorded
  else if str_eqb value "approval_requested" then ApprovalRequested
  else if str_eqb value "approval_resolved" then ApprovalResolved
  else if str_eqb value "approval_revoked" then ApprovalRevoked
  else if str_eqb value "approval_expired" then ApprovalExpired
  else if str_eqb value "approval_consumed" then ApprovalConsumed
  else if str_eqb value "budget_warning" then BudgetWarning
  else if str_eqb value "budget_approval_required" then BudgetApprovalRequired
  else if str_eqb value "budget_exceeded" then BudgetExceeded
  else if str_eqb value "flight_envelope_changed" then FlightEnvelopeChanged
  else if str_eqb value "loadout_changed" then LoadoutChanged
  else if str_eqb value "memory_item_changed" then MemoryItemChanged
  else if str_eqb value "pause_requested" then PauseRequested
  else if str_eqb value "recovery_continued" then RecoveryContinued
  else if str_eqb value "recovery_abandoned" then RecoveryAbandoned
  else UnknownKind value.

Record EventLinks := {
  EventLinks_parent_event_id : option EventId;
  EventLinks_source_event_ids : list EventId;
}.
Definition EventLinks_default : EventLinks :=
  {| EventLinks_parent_event_id := None; EventLinks_source_event_ids := [] |}.

Section event.
Context `{SerdeJson, Sha256}.

Record EventEnvelope := {
  EventEnvelope_event_id : EventId;
  EventEnvelope_schema_version : u16;
  EventEnvelope_mission_id : MissionId;
  EventEnvelope_route_id : RouteId;
  EventEnvelope_agent_run_id : option string;
  EventEnvelope_sequence : u64;
  EventEnvelope_occurred_at : Timestamp;
  EventEnvelope_source : EventSource;
  EventEnvelope_confidence : EventConfidence;
  EventEnvelope_kind : EventKind;
  EventEnvelope_payload : Value;
  EventEnvelope_raw_evidence : option Value;
  EventEnvelope_payload_hash : string;
  EventEnvelope_correlation_id : option string;
  EventEnvelope_causation_id : option string;
  EventEnvelope_links : EventLinks;
}.

Definition payload_hash (payload : Value) : string := sha256_hex (to_vec payload).

Definition EventEnvelope_new (event_id : EventId) (mission_id : MissionId)
    (route_id : RouteId) (sequence : u64) (kind : EventKind) (payload : Value)
    : EventEnvelope := {|
  EventEnvelope_event_id := event_id;
  EventEnvelope_schema_version := 1%Z;
  EventEnvelope_mission_id := mission_id;
  EventEnvelope_route_id := route_id;
  EventEnvelope_agent_run_id := None;
  EventEnvelope_sequence := sequence;
  EventEnvelope_occurred_at := Timestamp_now;
  EventEnvelope_source := SourceSupervisor;
  EventEnvelope_confidence := Observed;
  EventEnvelope_kind := kind;
  EventEnvelope_payload := payload;
  EventEnvelope_raw_evidence := None;
  EventEnvelope_payload_hash := payload_hash payload;
  EventEnvelope_correlation_id := None;
  EventEnvelope_causation_id := None;
  EventEnvelope_links := EventLinks_default;
|}.

Definition has_valid_payload_hash (self : EventEnvelope) : bool :=
  str_eqb (EventEnvelope_payload_hash self) (payload_hash (EventEnvelope_payload self)).

Lemma EventEnvelope_new_valid eid mid rid seq k p :
  has_valid_payload_hash (EventEnvelope_new eid mid rid seq k p) = true.
Proof. apply String.eqb_refl. Qed.

End event.
Arguments EventEnvelope {_}.
#[export] Hint Resolve EventEnvelope_new_valid : mission.

(** ** The textual form of a kind *)

Definition is_known_kind (k : EventKind) : bool :=
  match k with UnknownKind _ => false | _ => true end.

Lemma visit_known k : is_known_kind k = true → EventKind_visit_str (EventKind_as_str k) = k.
Proof. by destruct k. Qed.

Lemma visit_as_str s : EventKind_as_str (EventKind_visit_str s) = s.
Proof.
  unfold EventKind_visit_str.
  repeat match goal with
  | |- context [str_eqb s ?t] =>
      destruct (str_eqb s t) eqn:E; [apply String.eqb_eq in E; rewrite E; reflexivity|clear E]
  end.
  reflexivity.
Qed.

(** The textual form of an event kind, which is what serialisation and
    the ledger keep: parsing is a right inverse of printing (no text is
    lost), printing is inverted by parsing exactly on the kinds that are
    canonical, and the only kinds that are not are [Unknown] values carrying
    the text of a known kind, which come back as that known kind. *)
Theorem event_kind_roundtrip (k : EventKind) (s : string) :
  EventKind_as_str (EventKind_visit_str s) = s ∧
  (EventKind_visit_str (EventKind_as_str k) = k ↔
    ∀ v, k = UnknownKind v → is_known_kind (EventKind_visit_str v) = false).
Proof.
  split; [apply visit_as_str|]. destruct k as [| | | | | | | | | | | | | | | | | | | | | | | |v];
    try (split; [intros _ v [=]|reflexivity]).
  simpl. split.
  - intros Hv v' [= <-]. by rewrite Hv.
  - intros Hv. specialize (Hv v eq_refl). pose proof (visit_as_str v) as Has.
    destruct (EventKind_visit_str v); try done. simpl in Has. by subst.
Qed.

(** Kinds that carry text chosen by an agent are not canonical: the
    adapters wrap an unrecognised native event type as [Unknown], and when
    that type is the text of a lifecycle kind the event reads back from the
    ledger as the lifecycle event itself. *)
Theorem unknown_kind_can_impersonate (k : EventKind) :
  is_known_kind k = true →
  UnknownKind (EventKind_as_str k) ≠ k ∧
  EventKind_visit_str (EventKind_as_str (UnknownKind (EventKind_as_str k))) = k.
Proof. intros Hk. split; [by destruct k|]. simpl. by apply visit_known. Qed.

Lemma unknown_kind_can_impersonate_witness :
  EventKind_visit_str (EventKind_as_str (UnknownKind "approval_resolved")) = ApprovalResolved.
Proof. apply (unknown_kind_can_impersonate ApprovalResolved). reflexivity. Defined.
