(* ===== verification/ReadModel.v ===== *)
(** * Projection of the event stream ([crates/domain/src/read_model.rs])

    [reduce] applies one event to a read model; [replay] sorts a stream by
    sequence, detects gaps and conflicts and folds [reduce] over it. *)

From S2P Require Import Prelude Extern Ids Evidence Route Event.
From Stdlib Require Import ZArith Lia.
From stdpp Require Import sorting base gmap strings list option.

Record SequenceRange := { SequenceRange_start : u64; SequenceRange_end : u64 }.

Record ReadModel := {
  ReadModel_mission_id : option MissionId;
  ReadModel_route_id : option RouteId;
  ReadModel_route_state : option RouteState;
  ReadModel_route_version : u64;
  ReadModel_contract_version : u64;
  ReadModel_evidence_matrix : EvidenceMatrix;
  ReadModel_incomplete : bool;
  ReadModel_missing_sequences : list SequenceRange;
  ReadModel_compatibility_warnings : list string;
  ReadModel_applied_event_ids : gset EventId;
}.
Definition ReadModel_default : ReadModel := {|
  ReadModel_mission_id := None; ReadModel_route_id := None;
  ReadModel_route_state := None; ReadModel_route_version := 0%Z;
  ReadModel_contract_version := 0%Z;
  ReadModel_evidence_matrix := EvidenceMatrix_default;
  ReadModel_incomplete := false; ReadModel_missing_sequences := [];
  ReadModel_compatibility_warnings := []; ReadModel_applied_event_ids := ∅ |}.

Inductive ProjectionError :=
| PayloadHashMismatch (id : EventId)
| MissionMismatch (id : EventId)
| SequenceConflict (sequence : u64)
| MalformedPayload (id : EventId) (message : string).

(** [RouteState]'s serde names ([rename_all = "PascalCase"]). *)
Definition parse_state (value : string) : option RouteState :=
  if str_eqb value "Draft" then Some Draft
  else if str_eqb value "ReadOnlyExploration" then Some ReadOnlyExploration
  else if str_eqb value "AwaitingPlanApproval" then Some AwaitingPlanApproval
  else if str_eqb value "Executing" then Some Executing
  else if str_eqb value "Verifying" then Some Verifying
  else if str_eqb value "AwaitingAcceptance" then Some AwaitingAcceptance
  else if str_eqb value "Completed" then Some Completed
  else if str_eqb value "Paused" then Some Paused
  else if str_eqb value "Blocked" then Some Blocked
  else if str_eqb value "Abandoned" then Some Abandoned
  else None.

Section read_model.
Context `{SerdeJson, Sha256, !Serde EvidenceEntry}.

Definition rm_number (payload : Value) (field : string) (event : EventEnvelope)
    : result ProjectionError u64 :=
  ok_or (MalformedPayload (EventEnvelope_event_id event) ("missing " +:+ field))
    (Value_get payload field ≫= Value_as_u64).
Definition rm_string (payload : Value) (field : string) (event : EventEnvelope)
    : result ProjectionError string :=
  ok_or (MalformedPayload (EventEnvelope_event_id event) ("missing " +:+ field))
    (Value_get payload field ≫= Value_as_str).

Definition with_contract_version (v : u64) (m : ReadModel) : ReadModel := {|
  ReadModel_mission_id := ReadModel_mission_id m; ReadModel_route_id := ReadModel_route_id m;
  ReadModel_route_state := ReadModel_route_state m;
  ReadModel_route_version := ReadModel_route_version m;
  ReadModel_contract_version := v;
  ReadModel_evidence_matrix := ReadModel_evidence_matrix m;
  ReadModel_incomplete := ReadModel_incomplete m;
  ReadModel_missing_sequences := ReadModel_missing_sequences m;
  ReadModel_compatibility_warnings := ReadModel_compatibility_warnings m;
  ReadModel_applied_event_ids := ReadModel_applied_event_ids m |}.
Definition with_route (id : RouteId) (st : RouteState) (v : u64) (m : ReadModel) : ReadModel := {|
  ReadModel_mission_id := ReadModel_mission_id m; ReadModel_route_id := Some id;
  ReadModel_route_state := Some st; ReadModel_route_version := v;
  ReadModel_contract_version := ReadModel_contract_version m;
  ReadModel_evidence_matrix := ReadModel_evidence_matrix m;
  ReadModel_incomplete := ReadModel_incomplete m;
  ReadModel_missing_sequences := ReadModel_missing_sequences m;
  ReadModel_compatibility_warnings := ReadModel_compatibility_warnings m;
  ReadModel_applied_event_ids := ReadModel_applied_event_ids m |}.
Definition push_entry (e : EvidenceEntry) (m : ReadModel) : ReadModel := {|
  ReadModel_mission_id := ReadModel_mission_id m; ReadModel_route_id := ReadModel_route_id m;
  ReadModel_route_state := ReadModel_route_state m;
  ReadModel_route_version := ReadModel_route_version m;
  ReadModel_contract_version := ReadModel_contract_version m;
  ReadModel_evidence_matrix := {|
    EvidenceMatrix_criteria := EvidenceMatrix_criteria (ReadModel_evidence_matrix m);
    EvidenceMatrix_entries := EvidenceMatrix_entries (ReadModel_evidence_matrix m) ++ [e] |};
  ReadModel_incomplete := ReadModel_incomplete m;
  ReadModel_missing_sequences := ReadModel_missing_sequences m;
  ReadModel_compatibility_warnings := ReadModel_compatibility_warnings m;
  ReadModel_applied_event_ids := ReadModel_applied_event_ids m |}.
Definition push_warning (w : string) (m : ReadModel) : ReadModel := {|
  ReadModel_mission_id := ReadModel_mission_id m; ReadModel_route_id := ReadModel_route_id m;
  ReadModel_route_state := ReadModel_route_state m;
  ReadModel_route_version := ReadModel_route_version m;
  ReadModel_contract_version := ReadModel_contract_version m;
  ReadModel_evidence_matrix := ReadModel_evidence_matrix m;
  ReadModel_incomplete := ReadModel_incomplete m;
  ReadModel_missing_sequences := ReadModel_missing_sequences m;
  ReadModel_compatibility_warnings := ReadModel_compatibility_warnings m ++ [w];
  ReadModel_applied_event_ids := ReadModel_applied_event_ids m |}.
Definition mark_applied (event : EventEnvelope) (m : ReadModel) : ReadModel := {|
  ReadModel_mission_id := Some (EventEnvelope_mission_id event);
  ReadModel_route_id := ReadModel_route_id m;
  ReadModel_route_state := ReadModel_route_state m;
  ReadModel_route_version := ReadModel_route_version m;
  ReadModel_contract_version := ReadModel_contract_version m;
  ReadModel_evidence_matrix := ReadModel_evidence_matrix m;
  ReadModel_incomplete := ReadModel_incomplete m;
  ReadModel_missing_sequences := ReadModel_missing_sequences m;
  ReadModel_compatibility_warnings := ReadModel_compatibility_warnings m;
  ReadModel_applied_event_ids :=
    {[ EventEnvelope_event_id event ]} ∪ ReadModel_applied_event_ids m |}.
Definition note_gap (r : SequenceRange) (m : ReadModel) : ReadModel := {|
  ReadModel_mission_id := ReadModel_mission_id m; ReadModel_route_id := ReadModel_route_id m;
  ReadModel_route_state := ReadModel_route_state m;
  ReadModel_route_version := ReadModel_route_version m;
  ReadModel_contract_version := ReadModel_contract_version m;
  ReadModel_evidence_matrix := ReadModel_evidence_matrix m;
  ReadModel_incomplete := true;
  ReadModel_missing_sequences := ReadModel_missing_sequences m ++ [r];
  ReadModel_compatibility_warnings := ReadModel_compatibility_warnings m;
  ReadModel_applied_event_ids := ReadModel_applied_event_ids m |}.

(** The [match &event.kind] of [reduce], on the model already marked. *)
Definition reduce_kind (event : EventEnvelope) (next : ReadModel)
    : result ProjectionError ReadModel :=
  match EventEnvelope_kind event with
  | MissionCreated => Ok next
  | ContractUpdated =>
      v ← rm_number (EventEnvelope_payload event) "version" event;
      Ok (with_contract_version v next)
  | RouteCreated => Ok (with_route (EventEnvelope_route_id event) Draft 0%Z next)
  | RouteStateChanged =>
      state ← rm_string (EventEnvelope_payload event) "state" event;
      st ← ok_or (MalformedPayload (EventEnvelope_event_id event) "unknown route state")
             (parse_state state);
      v ← rm_number (EventEnvelope_payload event) "version" event;
      Ok (with_route (EventEnvelope_route_id event) st v next)
  | EvidenceRecorded =>
      entry ← map_err (MalformedPayload (EventEnvelope_event_id event))
                (from_value (EventEnvelope_payload event));
      Ok (push_entry entry next)
  | UnknownKind kind => Ok (push_warning ("unknown event kind: " +:+ kind) next)
  | AgentMessage => Ok (push_warning "agent message cannot verify evidence" next)
  | _ => Ok next
  end.

Definition reduce (current : ReadModel) (event : EventEnvelope)
    : result ProjectionError ReadModel :=
  if negb (has_valid_payload_hash event)
  then Err (PayloadHashMismatch (EventEnvelope_event_id event))
  else if match ReadModel_mission_id current with
          | Some mission_id => bool_decide (mission_id ≠ EventEnvelope_mission_id event)
          | None => false end
  then Err (MissionMismatch (EventEnvelope_event_id event))
  else if bool_decide (EventEnvelope_event_id event ∈ ReadModel_applied_event_ids current)
  then Ok current
  else reduce_kind event (mark_applied event current).

(** One iteration of [replay]'s loop. *)
Definition replay_step (st : ReadModel * u64 * gset u64) (event : EventEnvelope)
    : result ProjectionError (ReadModel * u64 * gset u64) :=
  let '(model, expected_sequence, seen_sequences) := st in
  let seq := EventEnvelope_sequence event in
  let fresh := negb (bool_decide (seq ∈ seen_sequences)) in
  let seen_sequences := {[ seq ]} ∪ seen_sequences in
  let applied := bool_decide (EventEnvelope_event_id event ∈ ReadModel_applied_event_ids model) in
  if negb fresh && negb applied then Err (SequenceConflict seq)
  else if applied then Ok (model, expected_sequence, seen_sequences)
  else
    let model := if (expected_sequence <? seq)%Z
      then note_gap {| SequenceRange_start := expected_sequence;
                       SequenceRange_end := (seq - 1)%Z |} model
      else model in
    model ← reduce model event;
    Ok (model, saturating_add u64_max seq 1, seen_sequences).

Fixpoint replay_loop (st : ReadModel * u64 * gset u64) (events : list EventEnvelope)
    : result ProjectionError (ReadModel * u64 * gset u64) :=
  match events with
  | [] => Ok st
  | event :: rest => st ← replay_step st event; replay_loop st rest
  end.

Definition by_sequence (a b : EventEnvelope) : bool :=
  (EventEnvelope_sequence a <=? EventEnvelope_sequence b)%Z.

Definition replay (events : list EventEnvelope) : result ProjectionError ReadModel :=
  st ← replay_loop (ReadModel_default, 1%Z, ∅) (sort_by by_sequence events);
  Ok st.1.1.

(** ** [reduce] *)

(** What every successful [reduce_kind] leaves alone. *)
Lemma reduce_kind_frame e m m' :
  reduce_kind e m = Ok m' →
  ReadModel_mission_id m' = ReadModel_mission_id m ∧
  ReadModel_applied_event_ids m' = ReadModel_applied_event_ids m ∧
  ReadModel_missing_sequences m' = ReadModel_missing_sequences m ∧
  ReadModel_incomplete m' = ReadModel_incomplete m.
Proof.
  unfold reduce_kind. destruct (EventEnvelope_kind e); intros Hr; bind_inv Hr;
    by injection Hr as <-.
Qed.

Lemma reduce_frame m e m' :
  reduce m e = Ok m' →
  has_valid_payload_hash e = true ∧
  ReadModel_mission_id m' =
    (if bool_decide (EventEnvelope_event_id e ∈ ReadModel_applied_event_ids m)
     then ReadModel_mission_id m else Some (EventEnvelope_mission_id e)) ∧
  (∀ mid, ReadModel_mission_id m = Some mid → mid = EventEnvelope_mission_id e) ∧
  ReadModel_applied_event_ids m' =
    {[ EventEnvelope_event_id e ]} ∪ ReadModel_applied_event_ids m ∧
  ReadModel_missing_sequences m' = ReadModel_missing_sequences m ∧
  ReadModel_incomplete m' = ReadModel_incomplete m.
Proof.
  unfold reduce. intros Hr. destruct (has_valid_payload_hash e); [|done]. simpl in Hr.
  destruct (match ReadModel_mission_id m with Some _ => _ | None => _ end) eqn:Hmid; [done|].
  assert (∀ mid, ReadModel_mission_id m = Some mid → mid = EventEnvelope_mission_id e).
  { intros mid Hm. rewrite Hm in Hmid. by guards. }
  destruct (bool_decide _) eqn:Hin; guards.
  - injection Hr as <-. repeat split; try done. set_solver.
  - apply reduce_kind_frame in Hr as (Hm&Ha&Hs&Hi). simpl in *. done.
Qed.

Lemma reduce_applied m e :
  has_valid_payload_hash e = true →
  ReadModel_mission_id m = Some (EventEnvelope_mission_id e) →
  EventEnvelope_event_id e ∈ ReadModel_applied_event_ids m → reduce m e = Ok m.
Proof.
  intros Hh Hm Hin. unfold reduce. rewrite Hh, Hm. simpl.
  rewrite bool_decide_eq_false_2 by auto. by rewrite bool_decide_eq_true_2.
Qed.

(** ** [replay]: the loop *)

Lemma by_sequence_total x y : by_sequence x y = true ∨ by_sequence y x = true.
Proof. unfold by_sequence. rewrite !Z.leb_le. lia. Qed.
Lemma by_sequence_trans x y z :
  by_sequence x y = true → by_sequence y z = true → by_sequence x z = true.
Proof. unfold by_sequence. rewrite !Z.leb_le. lia. Qed.

Definition model_of (st : ReadModel * u64 * gset u64) : ReadModel := st.1.1.
Definition expected_of (st : ReadModel * u64 * gset u64) : u64 := st.1.2.
Definition seen_of (st : ReadModel * u64 * gset u64) : gset u64 := st.2.

(** The two ways one iteration can succeed. *)
Lemma replay_step_ok st e st' :
  replay_step st e = Ok st' →
  seen_of st' = {[ EventEnvelope_sequence e ]} ∪ seen_of st ∧
  EventEnvelope_event_id e ∈ ReadModel_applied_event_ids (model_of st') ∧
  ((EventEnvelope_event_id e ∈ ReadModel_applied_event_ids (model_of st) ∧
    model_of st' = model_of st ∧ expected_of st' = expected_of st) ∨
   ((EventEnvelope_event_id e ∉ ReadModel_applied_event_ids (model_of st)) ∧
    (EventEnvelope_sequence e ∉ seen_of st) ∧
    expected_of st' = saturating_add u64_max (EventEnvelope_sequence e) 1 ∧
    reduce (if (expected_of st <? EventEnvelope_sequence e)%Z
      then note_gap {| SequenceRange_start := expected_of st;
                       SequenceRange_end := (EventEnvelope_sequence e - 1)%Z |} (model_of st)
      else model_of st) e = Ok (model_of st'))).
Proof.
  destruct st as [[m x] seen]. unfold replay_step, model_of, expected_of, seen_of. simpl.
  destruct (bool_decide (_ ∈ ReadModel_applied_event_ids m)) eqn:Happ;
    destruct (bool_decide (_ ∈ seen)) eqn:Hseen; simpl; guards;
    intros Hs; try discriminate Hs; 
    try (injection Hs as <-; simpl; split_and!; [done|done|by left]).
  apply result_bind_Ok in Hs as (m'&Hr&Hs). injection Hs as <-. simpl.
  split; [done|]. pose proof (reduce_frame _ _ _ Hr) as (_&_&_&Ha&_).
  split; [rewrite Ha; set_solver|]. auto.
Qed.

(** Re-delivering the event just processed is a no-op. *)
Lemma replay_step_repeat st e :
  EventEnvelope_event_id e ∈ ReadModel_applied_event_ids (model_of st) →
  EventEnvelope_sequence e ∈ seen_of st → replay_step st e = Ok st.
Proof.
  destruct st as [[m x] seen]. unfold replay_step, model_of, seen_of. simpl. intros Ha Hs.
  rewrite (bool_decide_eq_true_2 _ Ha), (bool_decide_eq_true_2 _ Hs). simpl.
  do 2 f_equal. set_solver.
Qed.

(** Dropping events that repeat their predecessor's sequence number. *)
Fixpoint dedup_from (prev : option u64) (l : list EventEnvelope) : list EventEnvelope :=
  match l with
  | [] => []
  | e :: r =>
      if bool_decide (prev = Some (EventEnvelope_sequence e)) then dedup_from prev r
      else e :: dedup_from (Some (EventEnvelope_sequence e)) r
  end.

Lemma replay_loop_dedup l : ∀ st prev,
  (∀ e, e ∈ l → prev = Some (EventEnvelope_sequence e) →
    EventEnvelope_event_id e ∈ ReadModel_applied_event_ids (model_of st) ∧
    EventEnvelope_sequence e ∈ seen_of st) →
  (∀ x y, x ∈ l → y ∈ l → EventEnvelope_sequence x = EventEnvelope_sequence y → x = y) →
  replay_loop st (dedup_from prev l) = replay_loop st l.
Proof.
  induction l as [|e l IH]; intros st prev Hprev Hinj; [done|]. simpl.
  case_bool_decide as Hp.
  - destruct (Hprev e) as [Ha Hs]; [by left|done|].
    rewrite (replay_step_repeat _ _ Ha Hs). simpl. unfold mbind, result_bind. simpl.
    apply IH; [intros; apply Hprev; [by right|done]|].
    intros; apply Hinj; [by right..|done].
  - simpl. unfold mbind, result_bind.
    destruct (replay_step st e) as [st'|] eqn:Hs; [|done].
    apply replay_step_ok in Hs as (Hseen&Ha&_). apply IH.
    + intros e' He' [= He]. assert (e = e') as <- by (apply Hinj; [by left|by right|done]).
      split; [done|]. rewrite Hseen. set_solver.
    + intros; apply Hinj; [by right..|done].
Qed.

Lemma dedup_from_subset l : ∀ prev e, e ∈ dedup_from prev l → e ∈ l.
Proof.
  induction l as [|x l IH]; intros prev e; simpl; [done|]. case_bool_decide.
  - intros He. right. by eapply IH.
  - rewrite !elem_of_cons. intros [->|He]; [by left|right; by eapply IH].
Qed.
Lemma dedup_from_complete l : ∀ prev e,
  (∀ x y, x ∈ l → y ∈ l → EventEnvelope_sequence x = EventEnvelope_sequence y → x = y) →
  e ∈ l → prev ≠ Some (EventEnvelope_sequence e) → e ∈ dedup_from prev l.
Proof.
  induction l as [|x l IH]; intros prev e Hinj He Hp; simpl; [done|].
  assert (∀ a b, a ∈ l → b ∈ l → EventEnvelope_sequence a = EventEnvelope_sequence b → a = b)
    by (intros; apply Hinj; [by right..|done]).
  case_bool_decide as Hb.
  - apply elem_of_cons in He as [->|He]; [done|]. by apply IH.
  - destruct (decide (EventEnvelope_sequence x = EventEnvelope_sequence e)) as [Heq|Hne].
    + apply elem_of_cons. left. symmetry. apply Hinj; [by left|done|done].
    + right. apply elem_of_cons in He as [->|He]; [done|]. apply IH; [done|done|congruence].
Qed.

Definition strictly_after (a b : EventEnvelope) : Prop :=
  (EventEnvelope_sequence a < EventEnvelope_sequence b)%Z.

Lemma dedup_from_sorted l : ∀ prev,
  StronglySorted by_sequence l →
  (∀ p e, prev = Some p → e ∈ l → (p ≤ EventEnvelope_sequence e)%Z) →
  StronglySorted strictly_after (dedup_from prev l) ∧
  ∀ p e, prev = Some p → e ∈ dedup_from prev l → (p < EventEnvelope_sequence e)%Z.
Proof.
  induction l as [|x l IH]; intros prev Hl Hp; simpl; [split; [constructor|set_solver]|].
  apply StronglySorted_inv in Hl as [Hl Hx].
  assert (∀ e, e ∈ l → (EventEnvelope_sequence x ≤ EventEnvelope_sequence e)%Z) as Hx'.
  { intros e He. rewrite list.Forall_forall in Hx. specialize (Hx e He). apply Is_true_eq_true in Hx.
    unfold by_sequence in Hx. by guards. }
  case_bool_decide as Hb.
  - apply IH; [done|]. intros p e -> He. apply (Hp p e); [done|by right].
  - destruct (IH (Some (EventEnvelope_sequence x)) Hl) as [Hs Hlt].
    { intros p e [= <-] He. by apply Hx'. }
    assert (∀ e, e ∈ dedup_from (Some (EventEnvelope_sequence x)) l → strictly_after x e) as Hxs.
    { intros e He. by apply (Hlt _ e eq_refl). }
    split; [constructor; [done|by apply list.Forall_forall]|].
    intros p e -> He. pose proof (Hp p x eq_refl ltac:(by left)) as Hpx.
    assert (p ≠ EventEnvelope_sequence x) by congruence.
    apply elem_of_cons in He as [->|He]; [lia|].
    specialize (Hxs e He). unfold strictly_after in Hxs. lia.
Qed.

Lemma strictly_sorted_nodup l : StronglySorted strictly_after l → NoDup l.
Proof.
  induction 1 as [|x l Hl IH Hx]; constructor; [|done].
  intros Hin. rewrite list.Forall_forall in Hx. specialize (Hx x Hin). unfold strictly_after in Hx. lia.
Qed.
Lemma strictly_sorted_weaken l :
  StronglySorted strictly_after l → StronglySorted by_sequence l.
Proof.
  induction 1 as [|x l Hl IH Hx]; constructor; [done|]. eapply list.Forall_impl; [exact Hx|].
  unfold strictly_after, by_sequence. intros y Hy. apply Is_true_eq_left, Z.leb_le. lia.
Qed.

(** The stream [replay] really processes: sorted, one event per sequence. *)
Definition canonical (events : list EventEnvelope) : list EventEnvelope :=
  dedup_from None (sort_by by_sequence events).

Definition sequence_determines (events : list EventEnvelope) : Prop :=
  ∀ x y, x ∈ events → y ∈ events →
    EventEnvelope_sequence x = EventEnvelope_sequence y → x = y.

Lemma canonical_sorted events : StronglySorted strictly_after (canonical events).
Proof.
  apply dedup_from_sorted; [|done].
  apply sort_by_sorted; [apply by_sequence_total|apply by_sequence_trans].
Qed.
Lemma canonical_elem events e :
  sequence_determines events → e ∈ canonical events ↔ e ∈ events.
Proof.
  intros Hd. unfold canonical. rewrite <-(sort_by_elem by_sequence e events). split.
  - apply dedup_from_subset.
  - intros He. apply dedup_from_complete; [|done|done].
    intros x y. rewrite !sort_by_elem. apply Hd.
Qed.
Lemma canonical_unique events events' :
  sequence_determines events → sequence_determines events' →
  (∀ e, e ∈ events ↔ e ∈ events') → canonical events = canonical events'.
Proof.
  intros Hd Hd' Hsame.
  pose proof (canonical_sorted events) as Hs. pose proof (canonical_sorted events') as Hs'.
  assert (canonical events ≡ₚ canonical events') as Hp.
  { apply NoDup_Permutation; [by apply strictly_sorted_nodup..|].
    intros e. rewrite !canonical_elem by done. apply Hsame. }
  rewrite <-(sort_by_sorted_id by_sequence (canonical events)) by by apply strictly_sorted_weaken.
  rewrite <-(sort_by_sorted_id by_sequence (canonical events')) by by apply strictly_sorted_weaken.
  apply sort_by_unique; [apply by_sequence_total|apply by_sequence_trans| |done].
  intros x y Hx Hy Hxy Hyx. unfold by_sequence in *. guards.
  rewrite canonical_elem in Hx, Hy by exact Hd. apply Hd; [done|done|lia].
Qed.
Lemma replay_canonical events :
  sequence_determines events →
  replay events = (st ← replay_loop (ReadModel_default, 1%Z, ∅) (canonical events); Ok st.1.1).
Proof.
  intros Hd. unfold replay, canonical. rewrite replay_loop_dedup; [done|done|].
  intros x y. rewrite !sort_by_elem. apply Hd.
Qed.

(** ** [replay]: what the finished projection records *)

Definition covered (m : ReadModel) (n : Z) : Prop :=
  ∃ r, r ∈ ReadModel_missing_sequences m ∧ (SequenceRange_start r ≤ n ≤ SequenceRange_end r)%Z.
Definition sequences_of (events : list EventEnvelope) : list u64 :=
  EventEnvelope_sequence <$> events.
Definition ids_of (events : list EventEnvelope) : list EventId :=
  EventEnvelope_event_id <$> events.

(** Well-formed input: sequences are [u64]s, and an event identifier always
    comes with the same sequence number. *)
Definition well_numbered (events : list EventEnvelope) : Prop :=
  (∀ e, e ∈ events → is_u64 (EventEnvelope_sequence e)) ∧
  (∀ x y, x ∈ events → y ∈ events →
    EventEnvelope_event_id x = EventEnvelope_event_id y →
    EventEnvelope_sequence x = EventEnvelope_sequence y).

(** The loop invariant after the events [done]. *)
Record replay_inv (done : list EventEnvelope) (st : ReadModel * u64 * gset u64) : Prop := {
  inv_seen : seen_of st = list_to_set (sequences_of done);
  inv_applied : ReadModel_applied_event_ids (model_of st) = list_to_set (ids_of done);
  inv_expected_pos : (1 ≤ expected_of st)%Z;
  inv_expected_above : ∀ e, e ∈ done →
    (EventEnvelope_sequence e < expected_of st)%Z ∨ EventEnvelope_sequence e = u64_max;
  inv_expected_tight : expected_of st = 1%Z ∨
    ∃ e, e ∈ done ∧ (expected_of st ≤ EventEnvelope_sequence e + 1)%Z;
  inv_covered : ∀ n, covered (model_of st) n ↔
    ((1 ≤ n)%Z ∧ (∃ e, e ∈ done ∧ (n < EventEnvelope_sequence e)%Z) ∧ n ∉ sequences_of done);
  inv_incomplete : ReadModel_incomplete (model_of st) = true ↔ ∃ n, covered (model_of st) n;
  inv_intact : ∀ e, e ∈ done → ∃ e', e' ∈ done ∧
    EventEnvelope_event_id e' = EventEnvelope_event_id e ∧
    has_valid_payload_hash e' = true ∧
    ReadModel_mission_id (model_of st) = Some (EventEnvelope_mission_id e');
}.

Lemma covered_note_gap r m n :
  covered (note_gap r m) n ↔
  covered m n ∨ (SequenceRange_start r ≤ n ≤ SequenceRange_end r)%Z.
Proof. unfold covered. simpl. set_solver. Qed.
Lemma covered_ext m m' n :
  ReadModel_missing_sequences m' = ReadModel_missing_sequences m → covered m' n ↔ covered m n.
Proof. unfold covered. by intros ->. Qed.

Lemma replay_inv_init : replay_inv [] (ReadModel_default, 1%Z, ∅).
Proof.
  split; unfold covered; simpl; first [set_solver|lia].
Qed.

Section inv_step.
Context (done : list EventEnvelope) (e : EventEnvelope) (st st' : ReadModel * u64 * gset u64).
Context (Hinv : replay_inv done st) (Hstep : replay_step st e = Ok st').
Context (Hsorted : ∀ d, d ∈ done → (EventEnvelope_sequence d ≤ EventEnvelope_sequence e)%Z).
Context (Hwell : well_numbered (done ++ [e])).

Lemma replay_inv_repeat :
  EventEnvelope_event_id e ∈ ReadModel_applied_event_ids (model_of st) →
  model_of st' = model_of st → expected_of st' = expected_of st →
  seen_of st' = {[ EventEnvelope_sequence e ]} ∪ seen_of st →
  replay_inv (done ++ [e]) st'.
Proof.
  intros Ha Hm Hx Hs. destruct Hinv as [I1 I2 I3 I4 I5 I6 I7 I8].
  rewrite I2, elem_of_list_to_set in Ha. unfold ids_of in Ha.
  apply list_elem_of_fmap in Ha as (d&Hid&Hd).
  assert (EventEnvelope_sequence e = EventEnvelope_sequence d) as Hseq.
  { apply Hwell; [set_solver..|done]. }
  assert (∀ n, n ∈ sequences_of (done ++ [e]) ↔ n ∈ sequences_of done) as Hsq.
  { intros n. unfold sequences_of. rewrite fmap_app, elem_of_app. simpl.
    rewrite list_elem_of_singleton, Hseq. split; [intros [?| ->]|]; [done| |by left].
    by apply list_elem_of_fmap_2. }
  split; rewrite ?Hm, ?Hx.
  - rewrite Hs, I1. apply set_eq. intros n. rewrite elem_of_union, !elem_of_list_to_set, Hsq.
    rewrite elem_of_singleton, Hseq. split; [intros [->|?]|by right]; [|done].
    by apply list_elem_of_fmap_2.
  - rewrite I2. unfold ids_of. apply set_eq. intros n. rewrite !elem_of_list_to_set.
    rewrite fmap_app, elem_of_app. split; [by left|]. simpl. rewrite list_elem_of_singleton, Hid.
    intros [?| ->]; [done|]. by apply list_elem_of_fmap_2.
  - done.
  - intros x. rewrite elem_of_app, list_elem_of_singleton. intros [?| ->]; [auto|].
    rewrite Hseq. auto.
  - destruct I5 as [?|(x&?&?)]; [by left|right; set_solver].
  - intros n. rewrite I6, Hsq. split; intros (?&(x&Hin&?)&?); split_and!; try done.
    + exists x. set_solver.
    + apply elem_of_app in Hin as [?|Hin]; [by exists x|].
      apply list_elem_of_singleton in Hin as ->. exists d. by rewrite <-Hseq.
  - done.
  - intros x. rewrite elem_of_app, list_elem_of_singleton. intros [Hin| ->].
    + destruct (I8 x Hin) as (y&?&?). exists y. set_solver.
    + destruct (I8 d Hd) as (y&?&?&?). exists y. rewrite Hid. set_solver.
Qed.

Definition gapped : ReadModel :=
  if (expected_of st <? EventEnvelope_sequence e)%Z
  then note_gap {| SequenceRange_start := expected_of st;
                   SequenceRange_end := (EventEnvelope_sequence e - 1)%Z |} (model_of st)
  else model_of st.

Lemma fresh_above d :
  EventEnvelope_sequence e ∉ seen_of st → d ∈ done →
  (EventEnvelope_sequence d < EventEnvelope_sequence e)%Z.
Proof.
  intros Hs Hd. rewrite (inv_seen _ _ Hinv), elem_of_list_to_set in Hs.
  assert (EventEnvelope_sequence d ∈ sequences_of done) by by apply list_elem_of_fmap_2.
  specialize (Hsorted d Hd).
  destruct (decide (EventEnvelope_sequence d = EventEnvelope_sequence e)); [congruence|lia].
Qed.

Lemma fresh_below d :
  EventEnvelope_sequence e ∉ seen_of st → d ∈ done →
  (EventEnvelope_sequence d < expected_of st)%Z.
Proof.
  intros Hs Hd. pose proof (fresh_above d Hs Hd) as Hlt.
  destruct (inv_expected_above _ _ Hinv d Hd) as [?|?]; [done|].
  destruct Hwell as [Hu _]. assert (is_u64 (EventEnvelope_sequence e)) as He.
  { apply Hu. set_solver. }
  unfold is_u64 in He. lia.
Qed.

Lemma gapped_covered n :
  EventEnvelope_sequence e ∉ seen_of st →
  covered gapped n ↔
    ((1 ≤ n)%Z ∧ (∃ x, x ∈ done ++ [e] ∧ (n < EventEnvelope_sequence x)%Z) ∧
     n ∉ sequences_of (done ++ [e])).
Proof.
  intros Hs. pose proof (fresh_above) as Hab. pose proof (fresh_below) as Hbe.
  assert (covered gapped n ↔ covered (model_of st) n ∨
    (expected_of st ≤ n < EventEnvelope_sequence e)%Z) as ->.
  { unfold gapped. destruct (_ <? _)%Z eqn:Hlt; guards.
    - rewrite covered_note_gap. simpl. intuition lia.
    - intuition lia. }
  rewrite (inv_covered _ _ Hinv). pose proof (inv_expected_pos _ _ Hinv) as Hpos.
  unfold sequences_of. rewrite fmap_app. split.
  - intros [(Hn&(x&Hx&Hlt)&Hni)|[Hge Hlt]].
    + split_and!; [done|exists x; set_solver|].
      specialize (Hab x Hs Hx). rewrite elem_of_app. simpl.
      rewrite list_elem_of_singleton. intros [?|?]; [done|lia].
    + split_and!; [lia|exists e; set_solver|].
      rewrite elem_of_app, list_elem_of_fmap. simpl. rewrite list_elem_of_singleton.
      intros [(x&->&Hx)|?]; [|lia]. specialize (Hbe x Hs Hx). lia.
  - intros (Hn&(x&Hx&Hlt)&Hni). rewrite elem_of_app in Hni. simpl in Hni.
    assert (n < EventEnvelope_sequence e)%Z.
    { apply elem_of_app in Hx as [Hx|Hx]; [specialize (Hab x Hs Hx); lia|].
      by apply list_elem_of_singleton in Hx as ->. }
    destruct (decide (expected_of st ≤ n)%Z); [right; lia|left].
    split_and!; [done| |set_solver].
    destruct (inv_expected_tight _ _ Hinv) as [?|(y&Hy&Hle)]; [lia|]. exists y. split; [done|].
    assert (n ≠ EventEnvelope_sequence y); [|lia].
    intros ->. apply Hni. left. by apply list_elem_of_fmap_2.
Qed.

Lemma gapped_incomplete :
  ReadModel_incomplete gapped = true ↔ ∃ n, covered gapped n.
Proof.
  unfold gapped. destruct (_ <? _)%Z eqn:Hlt; guards; [|apply (inv_incomplete _ _ Hinv)].
  simpl. split; [intros _|done]. exists (expected_of st). rewrite covered_note_gap. simpl.
  right. lia.
Qed.
Lemma gapped_frame :
  ReadModel_mission_id gapped = ReadModel_mission_id (model_of st) ∧
  ReadModel_applied_event_ids gapped = ReadModel_applied_event_ids (model_of st).
Proof. unfold gapped. by destruct (_ <? _)%Z. Qed.

Lemma replay_inv_fresh :
  EventEnvelope_sequence e ∉ seen_of st →
  EventEnvelope_event_id e ∉ ReadModel_applied_event_ids (model_of st) →
  expected_of st' = saturating_add u64_max (EventEnvelope_sequence e) 1 →
  seen_of st' = {[ EventEnvelope_sequence e ]} ∪ seen_of st →
  reduce gapped e = Ok (model_of st') →
  replay_inv (done ++ [e]) st'.
Proof.
  intros Hs Hni Hx Hseen Hr. destruct gapped_frame as [Gm Ga].
  apply reduce_frame in Hr as (Rh&Rm&Rsame&Ra&Rmiss&Rinc).
  rewrite Ga in Rm, Ra. rewrite bool_decide_eq_false_2 in Rm by done. rewrite Gm in Rsame.
  destruct Hwell as [Hu _]. assert (is_u64 (EventEnvelope_sequence e)) as He.
  { apply Hu. set_solver. }
  unfold is_u64 in He. unfold saturating_add in Hx.
  split.
  - rewrite Hseen, (inv_seen _ _ Hinv). unfold sequences_of. rewrite fmap_app. set_solver.
  - rewrite Ra, (inv_applied _ _ Hinv). unfold ids_of. rewrite fmap_app. set_solver.
  - rewrite Hx. unfold u64_max in *. lia.
  - intros x. rewrite elem_of_app, list_elem_of_singleton, Hx. intros [Hin| ->]; [|lia].
    pose proof (fresh_above x Hs Hin). lia.
  - right. exists e. split; [set_solver|]. rewrite Hx. lia.
  - intros n. rewrite (covered_ext gapped) by done. by apply gapped_covered.
  - rewrite Rinc, gapped_incomplete.
    split; intros [n Hn]; exists n; by apply (covered_ext _ _ n Rmiss).
  - intros x. rewrite elem_of_app, list_elem_of_singleton. intros [Hin| ->].
    + destruct (inv_intact _ _ Hinv x Hin) as (y&?&?&?&Hy). exists y.
      rewrite Rm, (Rsame _ Hy). set_solver.
    + exists e. set_solver.
Qed.

Lemma replay_inv_step : replay_inv (done ++ [e]) st'.
Proof.
  destruct (replay_step_ok _ _ _ Hstep) as (Hseen&_&[(?&?&?)|(?&?&?&?)]).
  - by apply replay_inv_repeat.
  - by apply replay_inv_fresh.
Qed.
End inv_step.

Lemma replay_inv_loop l : ∀ done st st',
  replay_inv done st → well_numbered (done ++ l) → StronglySorted by_sequence (done ++ l) →
  replay_loop st l = Ok st' → replay_inv (done ++ l) st'.
Proof.
  induction l as [|e l IH]; intros done st st' Hinv Hw Hs Hl; simpl in Hl.
  { injection Hl as <-. by rewrite app_nil_r. }
  apply result_bind_Ok in Hl as (st1&Hstep&Hl).
  replace (done ++ e :: l) with ((done ++ [e]) ++ l) in * by (by rewrite <-app_assoc).
  eapply IH; [|done..|exact Hl].
  eapply replay_inv_step; [exact Hinv|exact Hstep| |].
  - intros d Hd. rewrite <-app_assoc in Hs.
    assert (by_sequence d e) as Hde.
    { eapply (StronglySorted_app_1_elem_of by_sequence); [exact Hs|done|set_solver]. }
    apply Is_true_eq_true in Hde. unfold by_sequence in Hde. by guards.
  - destruct Hw as [Hw1 Hw2]. split; [intros; apply Hw1; set_solver|].
    intros; apply Hw2; set_solver.
Qed.

Lemma replay_invariant events m :
  well_numbered events → replay events = Ok m →
  ∃ st, m = model_of st ∧ replay_inv (sort_by by_sequence events) st.
Proof.
  intros [Hw1 Hw2] Hr. unfold replay in Hr. apply result_bind_Ok in Hr as (st&Hl&Hr).
  injection Hr as <-. exists st. split; [done|].
  apply (replay_inv_loop _ [] _ _ replay_inv_init); [|by apply sort_by_sorted;
    [apply by_sequence_total|apply by_sequence_trans]|done].
  split.
  - intros e He. by apply Hw1, (sort_by_elem by_sequence).
  - intros x y Hx Hy. by apply Hw2; apply (sort_by_elem by_sequence).
Qed.

(** ** Properties *)

(** C28: replaying a well-numbered history yields exact bookkeeping.  Every
    event of the history is recorded as applied and nothing else is; a
    sequence number is reported missing exactly when it lies between 1 and
    the highest sequence and no event carries it; the projection is flagged
    incomplete exactly when something is missing; and every event was vouched
    for by an event with its identifier, a valid payload hash and the
    projection's mission. *)
Theorem replay_bookkeeping (events : list EventEnvelope) (m : ReadModel) :
  well_numbered events → replay events = Ok m →
  ReadModel_applied_event_ids m = list_to_set (ids_of events) ∧
  (∀ n, covered m n ↔ (1 ≤ n)%Z ∧ (∃ e, e ∈ events ∧ (n < EventEnvelope_sequence e)%Z) ∧
    n ∉ sequences_of events) ∧
  (ReadModel_incomplete m = true ↔ ∃ n, covered m n) ∧
  (∀ e, e ∈ events → ∃ e', e' ∈ events ∧
    EventEnvelope_event_id e' = EventEnvelope_event_id e ∧
    has_valid_payload_hash e' = true ∧
    ReadModel_mission_id m = Some (EventEnvelope_mission_id e')).
Proof.
  intros Hw Hr. destruct (replay_invariant _ _ Hw Hr) as (st&->&[_ I2 _ _ _ I6 I7 I8]).
  pose proof (λ e, sort_by_elem by_sequence e events) as Hel.
  split_and!.
  - rewrite I2. unfold ids_of. by rewrite (sort_by_perm by_sequence events).
  - intros n. rewrite I6. unfold sequences_of. rewrite (sort_by_perm by_sequence events).
    setoid_rewrite Hel. done.
  - done.
  - intros e He. destruct (I8 e) as (e'&He'&?); [by apply Hel|]. exists e'.
    by rewrite <-Hel.
Qed.

(** The projection is a function of the set of events: histories with the
    same members, in any order and with any number of re-deliveries, project
    to the same model or fail with the same error, provided a sequence number
    names one event. *)
Theorem replay_order_independent (events events' : list EventEnvelope) :
  sequence_determines events → sequence_determines events' →
  (∀ e, e ∈ events ↔ e ∈ events') →
  replay events = replay events'.
Proof.
  intros Hd Hd' Hsame. rewrite !replay_canonical by done. by rewrite (canonical_unique events events').
Qed.

(** [reduce] is idempotent per event: once an event is applied, applying
    it again changes nothing. *)
Lemma reduce_idempotent (m m' : ReadModel) (e : EventEnvelope) :
  (EventEnvelope_event_id e ∈ ReadModel_applied_event_ids m →
    ReadModel_mission_id m = Some (EventEnvelope_mission_id e)) →
  reduce m e = Ok m' → reduce m' e = Ok m'.
Proof.
  intros Hin Hr. apply reduce_frame in Hr as (Hh&Hm&_&Ha&_). apply reduce_applied; [done| |].
  - rewrite Hm. case_bool_decide; auto.
  - rewrite Ha. set_solver.
Qed.
End read_model.

(** ** Concrete histories *)
Module ReadModelExamples.
Import Json.

Definition kind_text (k : EvidenceKind) : string :=
  match k with
  | KTest => "test" | KBuild => "build" | KScreenshot => "screenshot" | KDiff => "diff"
  | KUserAcceptance => "user_acceptance"
  end.
Definition text_kind (s : string) : option EvidenceKind :=
  find (λ k, str_eqb (kind_text k) s) [KTest; KBuild; KScreenshot; KDiff; KUserAcceptance].
#[export] Instance json_serde_EvidenceEntry : Serde EvidenceEntry := {
  to_value e := JArr [JStr (EvidenceEntry_id e); JStr (kind_text (EvidenceEntry_kind e));
    JStr (EvidenceEntry_summary e); JBool (EvidenceEntry_verified e);
    JArr (JStr <$> EvidenceEntry_source_event_ids e)];
  from_value v := match v with
    | JArr [JStr i; JStr k; JStr s; JBool b; l] =>
        from_opt (k' ← text_kind k; l' ← json_to_strs l;
          Some {| EvidenceEntry_id := i; EvidenceEntry_kind := k'; EvidenceEntry_summary := s;
                  EvidenceEntry_verified := b; EvidenceEntry_source_event_ids := l' |})
    | _ => Err "invalid type" end;
}.
#[export] Instance json_serde_EvidenceEntry_laws : SerdeLaws EvidenceEntry.
Proof. intros [i [] s b l]; simpl; by rewrite mapM_fmap_Some. Qed.

Definition ex_event (id : N) (seq : u64) (k : EventKind) (p : json) : EventEnvelope :=
  EventEnvelope_new id 7%N 8%N seq k p.
Definition ex_contract : json := json_object [("version", JNum 3)].
Definition ex_history : list EventEnvelope :=
  [ex_event 4 6 AgentMessage JNull; ex_event 1 1 MissionCreated JNull;
   ex_event 2 2 ContractUpdated ex_contract].
Definition ex_redelivered : list EventEnvelope :=
  [ex_event 1 1 MissionCreated JNull; ex_event 2 2 ContractUpdated ex_contract;
   ex_event 1 1 MissionCreated JNull; ex_event 4 6 AgentMessage JNull].
Definition ex_model : ReadModel := default ReadModel_default (result_ok (replay ex_history)).

Lemma ex_history_members e :
  e ∈ ex_history ↔ e = ex_event 4 6 AgentMessage JNull ∨ e = ex_event 1 1 MissionCreated JNull ∨
    e = ex_event 2 2 ContractUpdated ex_contract.
Proof. unfold ex_history. set_solver. Qed.
Lemma ex_redelivered_members e : e ∈ ex_redelivered ↔ e ∈ ex_history.
Proof. rewrite ex_history_members. unfold ex_redelivered. set_solver. Qed.
Lemma ex_well_numbered : well_numbered ex_history.
Proof.
  split; [intros e|intros x y]; rewrite !ex_history_members.
  - intros [-> | [-> | ->]]; unfold is_u64, u64_max; simpl; lia.
  - intros [-> | [-> | ->]] [-> | [-> | ->]]; simpl; done.
Qed.
Lemma ex_sequence_determines : sequence_determines ex_history.
Proof.
  intros x y. rewrite !ex_history_members. intros [-> | [-> | ->]] [-> | [-> | ->]]; simpl; done.
Qed.

Lemma replay_bookkeeping_witness :
  ReadModel_applied_event_ids ex_model = list_to_set [4; 1; 2]%N ∧ covered ex_model 4%Z.
Proof.
  destruct (replay_bookkeeping ex_history ex_model ex_well_numbered) as (Ha&Hc&_).
  - vm_compute. reflexivity.
  - split; [exact Ha|]. apply Hc. split; [done|]. split.
    + exists (ex_event 4 6 AgentMessage JNull). split; [by left|]. done.
    + change (4%Z ∉ [6; 1; 2]%Z). rewrite !elem_of_cons, elem_of_nil. lia.
Defined.

Lemma replay_order_independent_witness :
  replay ex_redelivered = Ok ex_model.
Proof.
  rewrite (replay_order_independent ex_redelivered ex_history).
  - vm_compute. reflexivity.
  - intros x y Hx Hy. apply ex_redelivered_members in Hx, Hy.
    by apply ex_sequence_determines.
  - apply ex_sequence_determines.
  - apply ex_redelivered_members.
Defined.

Lemma reduce_idempotent_witness :
  reduce ex_model (ex_event 4 6 AgentMessage JNull) = Ok ex_model.
Proof.
  apply (reduce_idempotent ex_model).
  - intros _. reflexivity.
  - vm_compute. reflexivity.
Defined.
End ReadModelExamples.
