(* ===== verification/Ordering.v ===== *)
(** * Comparators ([Ord::cmp] and [Ordering::then_with])

    Rust's [cmp] functions as [comparison]-valued functions, their laws, and
    lexicographic composition, so that every [sort_by] of the program sorts
    by a total preorder. *)

From S2P Require Import Prelude.
From Stdlib Require Import ZArith Lia Ascii.
From stdpp Require Import sorting prelude strings.

Class CmpOrder {A} (cmp : A → A → comparison) : Prop := {
  cmp_opp x y : cmp y x = CompOpp (cmp x y);
  cmp_lt_trans x y z : cmp x y = Lt → cmp y z = Lt → cmp x z = Lt;
  cmp_eq_l x y z : cmp x y = Eq → cmp x z = cmp y z;
}.

Definition cmp_le {A} (cmp : A → A → comparison) (x y : A) : bool :=
  match cmp x y with Gt => false | _ => true end.

Section laws.
Context {A} (cmp : A → A → comparison) `{!CmpOrder cmp}.

Lemma cmp_refl x : cmp x x = Eq.
Proof. pose proof (cmp_opp x x) as H. by destruct (cmp x x). Qed.
Lemma cmp_le_total x y : cmp_le cmp x y = true ∨ cmp_le cmp y x = true.
Proof. unfold cmp_le. rewrite (cmp_opp x y). destruct (cmp x y); auto. Qed.
Lemma cmp_le_trans x y z :
  cmp_le cmp x y = true → cmp_le cmp y z = true → cmp_le cmp x z = true.
Proof.
  unfold cmp_le. destruct (cmp x y) eqn:Hxy; [|..|done].
  - by rewrite (cmp_eq_l x y z Hxy).
  - destruct (cmp y z) eqn:Hyz; [|..|done]; intros _ _.
    + assert (cmp z y = Eq) as Hzy by (by rewrite (cmp_opp y z), Hyz).
      rewrite (cmp_opp z x), (cmp_eq_l z y x Hzy), (cmp_opp x y), Hxy. done.
    + by rewrite (cmp_lt_trans x y z).
Qed.
Lemma cmp_le_antisym x y : cmp_le cmp x y = true → cmp_le cmp y x = true → cmp x y = Eq.
Proof. unfold cmp_le. rewrite (cmp_opp x y). by destruct (cmp x y). Qed.
End laws.

(** [left.then_with(|| right)]. *)
Definition then_with (left right : comparison) : comparison :=
  match left with Eq => right | c => c end.

#[export] Instance cmp_then {A} (c1 c2 : A → A → comparison) :
  CmpOrder c1 → CmpOrder c2 → CmpOrder (λ x y, then_with (c1 x y) (c2 x y)).
Proof.
  intros H1 H2. split.
  - intros x y. rewrite (cmp_opp (cmp := c1) x y), (cmp_opp (cmp := c2) x y).
    by destruct (c1 x y).
  - intros x y z Hxy Hyz.
    destruct (c1 x y) eqn:E1; simpl in Hxy; [|..|done].
    + rewrite (cmp_eq_l (cmp := c1) x y z E1). destruct (c1 y z); simpl in *; try done.
      by apply (cmp_lt_trans (cmp := c2) x y z).
    + destruct (c1 y z) eqn:E2; simpl in Hyz; [|..|done].
      * assert (c1 z y = Eq) as E3 by (by rewrite (cmp_opp (cmp := c1) y z), E2).
        rewrite (cmp_opp (cmp := c1) z x), (cmp_eq_l (cmp := c1) z y x E3),
          (cmp_opp (cmp := c1) x y), E1. done.
      * by rewrite (cmp_lt_trans (cmp := c1) x y z).
  - intros x y z Hxy. destruct (c1 x y) eqn:E1; simpl in Hxy; [|done..].
    by rewrite (cmp_eq_l (cmp := c1) x y z E1), (cmp_eq_l (cmp := c2) x y z Hxy).
Qed.

(** Comparing a key, and comparing in reverse. *)
#[export] Instance cmp_on {A B} (f : A → B) (cmp : B → B → comparison) :
  CmpOrder cmp → CmpOrder (λ x y, cmp (f x) (f y)).
Proof. intros H. split; intros; [apply cmp_opp|by eapply cmp_lt_trans|by apply cmp_eq_l]. Qed.
#[export] Instance cmp_reverse {A} (cmp : A → A → comparison) :
  CmpOrder cmp → CmpOrder (λ x y, cmp y x).
Proof.
  intros H. split; intros x y; [apply cmp_opp| |].
  - intros z Hxy Hyz. by apply (cmp_lt_trans z y x).
  - intros z Hxy. rewrite (cmp_opp x z), (cmp_opp y z).
    rewrite (cmp_eq_l x y z); [done|]. by rewrite (cmp_opp y x), Hxy.
Qed.

#[export] Instance Z_cmp : CmpOrder Z.compare.
Proof.
  split; intros x y; [apply Z.compare_antisym| |].
  - intros z. rewrite !Z.compare_lt_iff. lia.
  - intros z. rewrite Z.compare_eq_iff. by intros ->.
Qed.

(** [str::cmp]: lexicographic on bytes. *)
Fixpoint str_cmp (a b : string) : comparison :=
  match a, b with
  | EmptyString, EmptyString => Eq
  | EmptyString, String _ _ => Lt
  | String _ _, EmptyString => Gt
  | String x a, String y b => then_with (N.compare (N_of_ascii x) (N_of_ascii y)) (str_cmp a b)
  end.
Lemma str_cmp_eq a : ∀ b, str_cmp a b = Eq ↔ a = b.
Proof.
  induction a as [|x a IH]; intros [|y b]; simpl; try done.
  destruct (N.compare _ _) eqn:Hc; simpl.
  - apply N.compare_eq_iff in Hc. rewrite IH. split; [|by intros [=]].
    intros ->. f_equal. by rewrite <-(ascii_N_embedding x), Hc, ascii_N_embedding.
  - split; [done|]. intros [= -> _]. by rewrite N.compare_refl in Hc.
  - split; [done|]. intros [= -> _]. by rewrite N.compare_refl in Hc.
Qed.
#[export] Instance str_cmp_order : CmpOrder str_cmp.
Proof.
  split.
  - induction x as [|x a IH]; intros [|y b]; simpl; try done.
    rewrite (N.compare_antisym (N_of_ascii x)), IH. by destruct (N.compare _ _).
  - induction x as [|x a IH]; intros [|y b] [|z c]; simpl; try done.
    destruct (N.compare (N_of_ascii x) (N_of_ascii y)) eqn:E1; simpl; [|..|done];
      destruct (N.compare (N_of_ascii y) (N_of_ascii z)) eqn:E2; simpl; try done;
      rewrite ?N.compare_eq_iff, ?N.compare_lt_iff in *.
    + rewrite (proj2 (N.compare_eq_iff _ _)) by congruence. simpl. apply IH.
    + rewrite (proj2 (N.compare_lt_iff _ _)) by congruence. done.
    + rewrite (proj2 (N.compare_lt_iff _ _)) by congruence. done.
    + rewrite (proj2 (N.compare_lt_iff _ _)) by lia. done.
  - intros x y z Hxy. apply str_cmp_eq in Hxy. by subst.
Qed.

(** Sorting with a comparator. *)
Definition sort_cmp {A} (cmp : A → A → comparison) : list A → list A := sort_by (cmp_le cmp).
Lemma sort_cmp_unique {A} (cmp : A → A → comparison) `{!CmpOrder cmp} l k :
  (∀ x y, x ∈ l → y ∈ l → cmp x y = Eq → x = y) → l ≡ₚ k → sort_cmp cmp l = sort_cmp cmp k.
Proof.
  intros Hinj. apply sort_by_unique; [apply (cmp_le_total cmp)|apply (cmp_le_trans cmp)|].
  intros x y Hx Hy Hxy Hyx. apply Hinj; [done..|]. by apply cmp_le_antisym.
Qed.
Lemma sort_cmp_sorted {A} (cmp : A → A → comparison) `{!CmpOrder cmp} l :
  StronglySorted (cmp_le cmp) (sort_cmp cmp l).
Proof. apply sort_by_sorted; [apply (cmp_le_total cmp)|apply (cmp_le_trans cmp)]. Qed.
Lemma sublist_sorted {A} (R : A → A → Prop) l k :
  sublist l k → StronglySorted R k → StronglySorted R l.
Proof.
  induction 1 as [|x l k Hlk IH|x l k Hlk IH]; [done|..];
    intros [Hs Hx]%StronglySorted_inv; [|by apply IH].
  constructor; [by apply IH|]. rewrite Forall_forall in *. intros y Hy.
  apply Hx. by eapply elem_of_sublist.
Qed.
