(* ===== verification/PolicyEngine.v ===== *)
(** * Policy decisions ([crates/policy/src/action.rs], [crates/policy/src/engine.rs])

    The classification of an agent's intended action and the pure decision
    function [evaluate]. *)

From S2P Require Import Prelude Contract.
From stdpp Require Import prelude strings.

Inductive ActionClass :=
| ARead | AWrite | ATest | ABuild | ADependencyInstall | ANetworkAccess | ACredentialAccess
| AContractChange | AProviderChange | AGitPush | AGitMerge | ADeploy | APermanentDelete
| AUnknown.
#[export] Instance ActionClass_eq_dec : EqDecision ActionClass.
Proof. solve_decision. Defined.

Definition is_assisted_low_risk (c : ActionClass) : bool :=
  match c with ARead | AWrite | ATest | ABuild => true | _ => false end.
Definition always_requires_user (c : ActionClass) : bool :=
  match c with
  | ACredentialAccess | AContractChange | AProviderChange | AGitPush | AGitMerge | ADeploy
  | APermanentDelete => true
  | _ => false
  end.

Inductive IntentOrigin :=
| OriginSupervisor | AdapterStructured | TerminalText | RepositoryContent | WebContent
| McpContent | OriginMemory | ToolOutput.
#[export] Instance IntentOrigin_eq_dec : EqDecision IntentOrigin.
Proof. solve_decision. Defined.

Definition is_trusted (o : IntentOrigin) : bool :=
  match o with OriginSupervisor | AdapterStructured => true | _ => false end.

Inductive Deviation := DeviationNone | Suspected | DeviationConfirmed.
#[export] Instance Deviation_eq_dec : EqDecision Deviation.
Proof. solve_decision. Defined.

Record ActionEvidence := {
  ActionEvidence_event_id : string;
  ActionEvidence_action_digest : string;
}.
#[export] Instance ActionEvidence_eq_dec : EqDecision ActionEvidence.
Proof. solve_decision. Defined.

Definition ActionEvidence_is_complete (self : ActionEvidence) : bool :=
  negb (blank (ActionEvidence_event_id self)) && negb (blank (ActionEvidence_action_digest self)).

Record ActionIntent := {
  ActionIntent_class : ActionClass;
  ActionIntent_origin : IntentOrigin;
  ActionIntent_planned : bool;
  ActionIntent_within_allowed_paths : bool;
  ActionIntent_deviation : Deviation;
  ActionIntent_evidence : ActionEvidence;
}.

Record PolicyContext := {
  PolicyContext_driving_mode : DrivingMode;
  PolicyContext_autopilot_allowed_actions : list ActionClass;
}.

Inductive ReasonCode :=
| MissingActionEvidence | UntrustedIntentSource | UnknownAction | OutsideAllowedPaths
| ConfirmedContractDeviation | SuspectedContractDeviation | ManualApprovalRequired
| AssistedApprovalRequired | OutsideAutopilotEnvelope | UserBoundaryRequired.
#[export] Instance ReasonCode_eq_dec : EqDecision ReasonCode.
Proof. solve_decision. Defined.

Inductive PolicyDecision :=
| Allow
| RequireApproval (reason_code : ReasonCode) (action_evidence : ActionEvidence)
| RequireUserJudgment (reason_code : ReasonCode) (action_evidence : ActionEvidence)
| DenyAndPause (contract_clause_id : string) (reason_code : ReasonCode)
    (action_evidence : ActionEvidence).
#[export] Instance PolicyDecision_eq_dec : EqDecision PolicyDecision.
Proof. solve_decision. Defined.

Definition approval (reason_code : ReasonCode) (intent : ActionIntent) : PolicyDecision :=
  RequireApproval reason_code (ActionIntent_evidence intent).
Definition deny (contract_clause_id : string) (reason_code : ReasonCode)
    (intent : ActionIntent) : PolicyDecision :=
  DenyAndPause contract_clause_id reason_code (ActionIntent_evidence intent).

Definition evaluate (context : PolicyContext) (intent : ActionIntent) : PolicyDecision :=
  if negb (ActionEvidence_is_complete (ActionIntent_evidence intent))
  then deny "action_evidence_required" MissingActionEvidence intent
  else if negb (is_trusted (ActionIntent_origin intent))
  then deny "trusted_intent_source" UntrustedIntentSource intent
  else if bool_decide (ActionIntent_class intent = AUnknown)
  then deny "known_action_required" UnknownAction intent
  else if negb (ActionIntent_within_allowed_paths intent)
  then deny "allowed_paths" OutsideAllowedPaths intent
  else match ActionIntent_deviation intent with
  | DeviationConfirmed => deny "goal_and_non_goals" ConfirmedContractDeviation intent
  | Suspected => RequireUserJudgment SuspectedContractDeviation (ActionIntent_evidence intent)
  | DeviationNone =>
      if always_requires_user (ActionIntent_class intent)
      then approval UserBoundaryRequired intent
      else match PolicyContext_driving_mode context with
      | Manual =>
          if bool_decide (ActionIntent_class intent ≠ ARead)
          then approval ManualApprovalRequired intent else Allow
      | Assisted =>
          if negb (ActionIntent_planned intent)
             || negb (is_assisted_low_risk (ActionIntent_class intent))
          then approval AssistedApprovalRequired intent else Allow
      | Autopilot =>
          if negb (ActionIntent_planned intent)
             || negb (bool_decide (ActionIntent_class intent ∈
                        PolicyContext_autopilot_allowed_actions context))
          then approval OutsideAutopilotEnvelope intent else Allow
      end
  end.

(** ** Specification

    The checks [evaluate] makes before it looks at the driving mode, and what
    each mode lets through unasked. *)
Definition sound_intent (i : ActionIntent) : Prop :=
  ActionEvidence_is_complete (ActionIntent_evidence i) = true ∧
  is_trusted (ActionIntent_origin i) = true ∧
  ActionIntent_class i ≠ AUnknown ∧
  ActionIntent_within_allowed_paths i = true.

Definition mode_permits (ctx : PolicyContext) (i : ActionIntent) : Prop :=
  match PolicyContext_driving_mode ctx with
  | Manual => ActionIntent_class i = ARead
  | Assisted => ActionIntent_planned i = true ∧ is_assisted_low_risk (ActionIntent_class i) = true
  | Autopilot => ActionIntent_planned i = true ∧
      ActionIntent_class i ∈ PolicyContext_autopilot_allowed_actions ctx
  end.

Definition is_denial (d : PolicyDecision) : Prop :=
  match d with DenyAndPause _ _ _ => True | _ => False end.

Definition decision_evidence (d : PolicyDecision) : option ActionEvidence :=
  match d with
  | Allow => None
  | RequireApproval _ e | RequireUserJudgment _ e | DenyAndPause _ _ e => Some e
  end.

Ltac evaluate_cases :=
  unfold evaluate, sound_intent, mode_permits, approval, deny;
  repeat (case_match || case_bool_decide); guards; simpl;
  rewrite ?orb_true_iff, ?negb_true_iff, ?bool_decide_eq_false, ?bool_decide_eq_true in *;
  intuition congruence.

(** C8: [evaluate] allows an action without asking exactly when the intent is
    evidenced, comes from a trusted origin, is of a known class inside the
    allowed paths, deviates from nothing, is not one of the classes reserved
    for the user, and the driving mode permits it. *)
Theorem evaluate_allows_exactly (ctx : PolicyContext) (i : ActionIntent) :
  evaluate ctx i = Allow ↔
    sound_intent i ∧ ActionIntent_deviation i = DeviationNone ∧
    always_requires_user (ActionIntent_class i) = false ∧ mode_permits ctx i.
Proof. evaluate_cases. Qed.

(** Denial is decided before the driving mode is consulted, so no mode
    and no autopilot list can turn it into anything weaker: an action is
    denied and the mission paused exactly when the intent is unsound or its
    deviation is confirmed.  Every decision other than [Allow] carries the
    intent's own evidence, and a class reserved for the user is never
    allowed unasked. *)
Theorem evaluate_denies_exactly (ctx : PolicyContext) (i : ActionIntent) :
  (is_denial (evaluate ctx i) ↔
    ¬ sound_intent i ∨ ActionIntent_deviation i = DeviationConfirmed) ∧
  (evaluate ctx i ≠ Allow →
    decision_evidence (evaluate ctx i) = Some (ActionIntent_evidence i)) ∧
  (always_requires_user (ActionIntent_class i) = true → evaluate ctx i ≠ Allow).
Proof. split_and!; evaluate_cases. Qed.
