(* ===== verification/Approval.v ===== *)
(** * Approval requests ([crates/policy/src/approval.rs])

    An approval is requested by the supervisor, resolved once by the user and
    then spent, revoked or left to expire.  The file models every method of
    [ApprovalRequest] and proves, by induction over arbitrary sequences of
    calls, that an authorization is always backed by a user's decision. *)

From S2P Require Import Prelude Extern Ids PolicyEngine.
From Stdlib Require Import ZArith Lia.
From stdpp Require Import prelude strings.

Inductive ApprovalState :=
| Pending | Approved | Denied | StateExpired | Revoked | Consumed.
#[export] Instance ApprovalState_eq_dec : EqDecision ApprovalState.
Proof. solve_decision. Defined.

Inductive ApprovalActor := ActorUser | ActorSupervisor | ActorAgent.
#[export] Instance ApprovalActor_eq_dec : EqDecision ApprovalActor.
Proof. solve_decision. Defined.

Inductive ApprovalAction := Approve | Deny.
#[export] Instance ApprovalAction_eq_dec : EqDecision ApprovalAction.
Proof. solve_decision. Defined.

Inductive ApprovalScope := Once | RouteActionClass (class : ActionClass).
#[export] Instance ApprovalScope_eq_dec : EqDecision ApprovalScope.
Proof. solve_decision. Defined.

Record ApprovalSubject := {
  ApprovalSubject_mission_id : MissionId;
  ApprovalSubject_route_id : RouteId;
  ApprovalSubject_action_digest : string;
  ApprovalSubject_action_class : ActionClass;
  ApprovalSubject_contract_version : u64;
  ApprovalSubject_loadout_fingerprint : string;
}.
#[export] Instance ApprovalSubject_eq_dec : EqDecision ApprovalSubject.
Proof. solve_decision. Defined.

Record ApprovalResolution := {
  ApprovalResolution_approval_id : string;
  ApprovalResolution_expected_revision : u64;
  ApprovalResolution_actor : ApprovalActor;
  ApprovalResolution_decision : ApprovalAction;
  ApprovalResolution_subject : ApprovalSubject;
  ApprovalResolution_now_ms : u64;
}.

Record ApprovalRequest := {
  ApprovalRequest_id : string;
  ApprovalRequest_subject : ApprovalSubject;
  ApprovalRequest_scope : ApprovalScope;
  ApprovalRequest_requested_by : ApprovalActor;
  ApprovalRequest_resolved_by : option ApprovalActor;
  ApprovalRequest_expires_at_ms : u64;
  ApprovalRequest_state : ApprovalState;
  ApprovalRequest_revision : u64;
}.
#[export] Instance ApprovalRequest_eq_dec : EqDecision ApprovalRequest.
Proof. solve_decision. Defined.

Inductive ApprovalError :=
| ForbiddenActor | InvalidRequest | ApprovalMismatch
| RevisionConflict (expected actual : u64)
| NotPending | ErrExpired | ContextMismatch | NotApproved | NotRevocable.
#[export] Instance ApprovalError_eq_dec : EqDecision ApprovalError.
Proof. solve_decision. Defined.

Definition ApprovalRequest_new (id : string) (subject : ApprovalSubject)
    (scope : ApprovalScope) (requested_by : ApprovalActor) (expires_at_ms : u64)
    : result ApprovalError ApprovalRequest :=
  if bool_decide (requested_by ≠ ActorSupervisor) then Err ForbiddenActor
  else if blank id || blank (ApprovalSubject_action_digest subject)
          || blank (ApprovalSubject_loadout_fingerprint subject)
  then Err InvalidRequest
  else Ok {|
    ApprovalRequest_id := id;
    ApprovalRequest_subject := subject;
    ApprovalRequest_scope := scope;
    ApprovalRequest_requested_by := requested_by;
    ApprovalRequest_resolved_by := None;
    ApprovalRequest_expires_at_ms := expires_at_ms;
    ApprovalRequest_state := Pending;
    ApprovalRequest_revision := 0%Z |}.

Definition ApprovalRequest_transition (state : ApprovalState) (actor : option ApprovalActor)
    (self : ApprovalRequest) : ApprovalRequest := {|
  ApprovalRequest_id := ApprovalRequest_id self;
  ApprovalRequest_subject := ApprovalRequest_subject self;
  ApprovalRequest_scope := ApprovalRequest_scope self;
  ApprovalRequest_requested_by := ApprovalRequest_requested_by self;
  ApprovalRequest_resolved_by := actor;
  ApprovalRequest_expires_at_ms := ApprovalRequest_expires_at_ms self;
  ApprovalRequest_state := state;
  ApprovalRequest_revision := wrapping_add64 (ApprovalRequest_revision self) 1 |}.

Definition with_scope (scope : ApprovalScope) (self : ApprovalRequest) : ApprovalRequest := {|
  ApprovalRequest_id := ApprovalRequest_id self;
  ApprovalRequest_subject := ApprovalRequest_subject self;
  ApprovalRequest_scope := scope;
  ApprovalRequest_requested_by := ApprovalRequest_requested_by self;
  ApprovalRequest_resolved_by := ApprovalRequest_resolved_by self;
  ApprovalRequest_expires_at_ms := ApprovalRequest_expires_at_ms self;
  ApprovalRequest_state := ApprovalRequest_state self;
  ApprovalRequest_revision := ApprovalRequest_revision self |}.

Definition ApprovalRequest_set_scope (scope : ApprovalScope)
    : stm ApprovalRequest ApprovalError unit := λ self,
  if bool_decide (ApprovalRequest_state self ≠ Pending) then (self, Err NotPending)
  else (with_scope scope self, Ok tt).

Definition matches_authority_context (self : ApprovalRequest) (subject : ApprovalSubject) : bool :=
  let own := ApprovalRequest_subject self in
  bool_decide (ApprovalSubject_mission_id own = ApprovalSubject_mission_id subject)
  && bool_decide (ApprovalSubject_route_id own = ApprovalSubject_route_id subject)
  && bool_decide (ApprovalSubject_contract_version own = ApprovalSubject_contract_version subject)
  && bool_decide (ApprovalSubject_loadout_fingerprint own
                  = ApprovalSubject_loadout_fingerprint subject)
  && bool_decide (ApprovalSubject_action_class own = ApprovalSubject_action_class subject).

Definition ApprovalRequest_resolve (resolution : ApprovalResolution)
    : stm ApprovalRequest ApprovalError unit := λ self,
  if bool_decide (ApprovalResolution_approval_id resolution ≠ ApprovalRequest_id self)
  then (self, Err ApprovalMismatch)
  else if bool_decide (ApprovalResolution_expected_revision resolution
                       ≠ ApprovalRequest_revision self)
  then (self, Err (RevisionConflict (ApprovalResolution_expected_revision resolution)
                                    (ApprovalRequest_revision self)))
  else if bool_decide (ApprovalResolution_actor resolution ≠ ActorUser)
  then (self, Err ForbiddenActor)
  else if bool_decide (ApprovalRequest_state self ≠ Pending)
  then (self, Err NotPending)
  else if (ApprovalRequest_expires_at_ms self <=? ApprovalResolution_now_ms resolution)%Z
  then (ApprovalRequest_transition StateExpired None self, Err ErrExpired)
  else if negb (matches_authority_context self (ApprovalResolution_subject resolution))
          || bool_decide (ApprovalSubject_action_digest (ApprovalResolution_subject resolution)
                          ≠ ApprovalSubject_action_digest (ApprovalRequest_subject self))
  then (self, Err ContextMismatch)
  else
    let state := match ApprovalResolution_decision resolution with
                 | Approve => Approved | Deny => Denied end in
    (ApprovalRequest_transition state (Some (ApprovalResolution_actor resolution)) self, Ok tt).

Definition ApprovalRequest_authorize (subject : ApprovalSubject) (now_ms : u64)
    : stm ApprovalRequest ApprovalError unit := λ self,
  if bool_decide (ApprovalRequest_state self ≠ Approved) then (self, Err NotApproved)
  else if (ApprovalRequest_expires_at_ms self <=? now_ms)%Z
  then (ApprovalRequest_transition StateExpired (ApprovalRequest_resolved_by self) self,
        Err ErrExpired)
  else if negb (matches_authority_context self subject) then (self, Err ContextMismatch)
  else match ApprovalRequest_scope self with
  | Once =>
      if bool_decide (ApprovalSubject_action_digest subject
                      ≠ ApprovalSubject_action_digest (ApprovalRequest_subject self))
      then (self, Err ContextMismatch)
      else (ApprovalRequest_transition Consumed (ApprovalRequest_resolved_by self) self, Ok tt)
  | RouteActionClass class =>
      if bool_decide (ApprovalSubject_action_class subject = class) then (self, Ok tt)
      else (self, Err ContextMismatch)
  end.

Definition is_revocable (s : ApprovalState) : bool :=
  match s with Pending | Approved => true | _ => false end.

Definition ApprovalRequest_revoke (actor : ApprovalActor)
    : stm ApprovalRequest ApprovalError unit := λ self,
  if bool_decide (actor ≠ ActorUser) then (self, Err ForbiddenActor)
  else if negb (is_revocable (ApprovalRequest_state self)) then (self, Err NotRevocable)
  else (ApprovalRequest_transition Revoked (Some actor) self, Ok tt).

Definition ApprovalRequest_revoke_for_loadout_change
    : stm ApprovalRequest ApprovalError unit := λ self,
  if negb (is_revocable (ApprovalRequest_state self)) then (self, Err NotRevocable)
  else (ApprovalRequest_transition Revoked (Some ActorSupervisor) self, Ok tt).

Definition ApprovalRequest_expire (now_ms : u64) (self : ApprovalRequest)
    : ApprovalRequest * bool :=
  if is_revocable (ApprovalRequest_state self)
     && (ApprovalRequest_expires_at_ms self <=? now_ms)%Z
  then (ApprovalRequest_transition StateExpired (ApprovalRequest_resolved_by self) self, true)
  else (self, false).

(** ** Histories of calls

    The methods a request exposes, as one labelled step; [true] means the
    call returned [Ok] (for [expire], that it expired the request). *)
Inductive approval_call :=
| CallSetScope (scope : ApprovalScope)
| CallResolve (resolution : ApprovalResolution)
| CallAuthorize (subject : ApprovalSubject) (now_ms : u64)
| CallRevoke (actor : ApprovalActor)
| CallRevokeForLoadoutChange
| CallExpire (now_ms : u64).

Definition approval_step (c : approval_call) (r : ApprovalRequest) : ApprovalRequest * bool :=
  match c with
  | CallSetScope s => let '(r', o) := ApprovalRequest_set_scope s r in (r', is_ok o)
  | CallResolve x => let '(r', o) := ApprovalRequest_resolve x r in (r', is_ok o)
  | CallAuthorize s n => let '(r', o) := ApprovalRequest_authorize s n r in (r', is_ok o)
  | CallRevoke a => let '(r', o) := ApprovalRequest_revoke a r in (r', is_ok o)
  | CallRevokeForLoadoutChange =>
      let '(r', o) := ApprovalRequest_revoke_for_loadout_change r in (r', is_ok o)
  | CallExpire n => ApprovalRequest_expire n r
  end.

(** [approval_run r0 h r]: the calls of [h], latest first with their outcomes,
    lead from [r0] to [r]. *)
Inductive approval_run (r0 : ApprovalRequest)
    : list (approval_call * bool) → ApprovalRequest → Prop :=
| run_nil : approval_run r0 [] r0
| run_call h r c r' o :
    approval_run r0 h r → approval_step c r = (r', o) → approval_run r0 ((c, o) :: h) r'.
#[export] Hint Constructors approval_run : mission.

Ltac approval_cases :=
  unfold approval_step, ApprovalRequest_set_scope, ApprovalRequest_resolve,
    ApprovalRequest_authorize, ApprovalRequest_revoke,
    ApprovalRequest_revoke_for_loadout_change, ApprovalRequest_expire in *;
  repeat (case_match || case_bool_decide; simplify_eq/=); guards.

(** What a run can never change, and what is tied to the state. *)
Record approval_inv (r0 r : ApprovalRequest) : Prop := {
  ai_id : ApprovalRequest_id r = ApprovalRequest_id r0;
  ai_subject : ApprovalRequest_subject r = ApprovalRequest_subject r0;
  ai_expires : ApprovalRequest_expires_at_ms r = ApprovalRequest_expires_at_ms r0;
  ai_requested : ApprovalRequest_requested_by r = ActorSupervisor;
  ai_resolved : match ApprovalRequest_state r with
    | Pending => ApprovalRequest_resolved_by r = None
    | Approved | Denied | Consumed => ApprovalRequest_resolved_by r = Some ActorUser
    | Revoked => ApprovalRequest_resolved_by r = Some ActorUser ∨
                 ApprovalRequest_resolved_by r = Some ActorSupervisor
    | StateExpired => ApprovalRequest_resolved_by r = None ∨
                      ApprovalRequest_resolved_by r = Some ActorUser
    end;
  ai_revision : match ApprovalRequest_state r with
    | Pending => ApprovalRequest_revision r = 0%Z
    | Approved | Denied => ApprovalRequest_revision r = 1%Z
    | Consumed => ApprovalRequest_revision r = 2%Z
    | Revoked | StateExpired => (1 ≤ ApprovalRequest_revision r ≤ 2)%Z
    end;
}.

Lemma approval_inv_new id subj sc by_ ex r :
  ApprovalRequest_new id subj sc by_ ex = Ok r → approval_inv r r.
Proof.
  unfold ApprovalRequest_new. repeat case_match; guards; intros; simplify_eq/=.
  by split.
Qed.

Lemma wrapping_succ_0 : wrapping_add64 0 1 = 1%Z.
Proof. done. Qed.
Lemma wrapping_succ_1 : wrapping_add64 1 1 = 2%Z.
Proof. done. Qed.

Lemma approval_inv_step r0 r c r' o :
  approval_inv r0 r → approval_step c r = (r', o) → approval_inv r0 r'.
Proof.
  intros [I1 I2 I3 I4 I5 I6] Hs. destruct (ApprovalRequest_state r) eqn:Hst;
    destruct c; approval_cases; rewrite ?Hst in *; simpl in *; try congruence;
    split; simpl; rewrite ?Hst; try done;
    rewrite ?I6, ?I5, ?wrapping_succ_0, ?wrapping_succ_1; first [lia|naive_solver congruence].
Qed.

Lemma approval_run_inv r0 h r : approval_inv r0 r0 → approval_run r0 h r → approval_inv r0 r.
Proof. intros H0. induction 1; eauto using approval_inv_step. Qed.

(** ** Provenance of an authorization *)

(** The calls that end an approval's life without spending it. *)
Definition withdraws (c : approval_call) : bool :=
  match c with CallRevoke _ | CallRevokeForLoadoutChange | CallExpire _ => true | _ => false end.
Definition is_resolve (c : approval_call) : bool :=
  match c with CallResolve _ => true | _ => false end.
Definition is_authorize (c : approval_call) : bool :=
  match c with CallAuthorize _ _ => true | _ => false end.

(** The calls of a kind that succeeded in a history. *)
Definition succeeded (f : approval_call → bool) (h : list (approval_call * bool)) : nat :=
  length (filter (λ p, f p.1 && p.2 = true) h).

Lemma succeeded_cons f c o h :
  succeeded f ((c, o) :: h) = (if f c && o then 1 else 0) + succeeded f h.
Proof. unfold succeeded. rewrite filter_cons. simpl. by destruct (f c && o). Qed.

Lemma authority_subject r s :
  matches_authority_context r s = true →
  ApprovalSubject_action_digest s = ApprovalSubject_action_digest (ApprovalRequest_subject r) →
  s = ApprovalRequest_subject r.
Proof.
  unfold matches_authority_context. intros Hm Hd. guards.
  destruct s, (ApprovalRequest_subject r); simpl in *. congruence.
Qed.

(** A user's approval of exactly the requested subject, in time. *)
Definition user_approved (r0 : ApprovalRequest) (h : list (approval_call * bool)) : Prop :=
  ∃ x, (CallResolve x, true) ∈ h ∧
    ApprovalResolution_actor x = ActorUser ∧ ApprovalResolution_decision x = Approve ∧
    ApprovalResolution_subject x = ApprovalRequest_subject r0 ∧
    (ApprovalResolution_now_ms x < ApprovalRequest_expires_at_ms r0)%Z.

Definition provenance (r0 : ApprovalRequest) (h : list (approval_call * bool))
    (r : ApprovalRequest) : Prop :=
  succeeded is_resolve h ≤ 1 ∧
  match ApprovalRequest_state r with
  | Pending => succeeded is_resolve h = 0 ∧ succeeded withdraws h = 0 ∧
               succeeded is_authorize h = 0
  | Approved => user_approved r0 h ∧ succeeded withdraws h = 0 ∧
                (ApprovalRequest_scope r = Once → succeeded is_authorize h = 0)
  | _ => True
  end.

Lemma user_approved_cons r0 h p : user_approved r0 h → user_approved r0 (p :: h).
Proof. intros (x&?&?). exists x. split; [by right|done]. Qed.

Lemma provenance_step r0 h r c r' o :
  approval_inv r0 r → provenance r0 h r → approval_step c r = (r', o) →
  provenance r0 ((c, o) :: h) r'.
Proof.
  intros [_ Isub Iexp _ _ _] [Hres Hst] Hs. unfold provenance. rewrite !succeeded_cons.
  destruct (ApprovalRequest_state r) eqn:Hr; destruct c; approval_cases;
    rewrite ?Hr in *; simpl in *; try congruence; destruct_and?;
    split_and!; try done; try lia; eauto using user_approved_cons; try naive_solver lia.
  2, 3: intros Hsc; rewrite Hsc in *; first [done|by auto].
  eexists. split; [by left|]. split_and!; try done; [|congruence].
  rewrite <-Isub. by apply authority_subject.
Qed.

Lemma approval_run_provenance r0 h r :
  approval_inv r0 r0 → ApprovalRequest_state r0 = Pending →
  approval_run r0 h r → provenance r0 h r.
Proof.
  intros H0 Hp. induction 1 as [|h r c r' o Hrun IH Hs].
  - unfold provenance. rewrite Hp. unfold succeeded. simpl. lia.
  - eapply provenance_step; [|done|done]. by eapply approval_run_inv.
Qed.

Lemma new_pending id subj sc by_ ex r :
  ApprovalRequest_new id subj sc by_ ex = Ok r → ApprovalRequest_state r = Pending.
Proof. unfold ApprovalRequest_new. repeat case_match; intros; by simplify_eq/=. Qed.

(** C1: whatever calls a request has seen, an authorization it grants was
    decided by the user: an earlier resolution by the user approved exactly
    the subject the supervisor asked about, before it expired, and nothing
    withdrew it since; the authorized action agrees with that subject in
    mission, route, contract version, loadout and action class and happens
    before the expiry.  A single-use approval also demands the very action
    digest and has authorized nothing before. *)
Theorem authorization_backed_by_user id subject scope requested_by expires r0 h r action now r' :
  ApprovalRequest_new id subject scope requested_by expires = Ok r0 →
  approval_run r0 h r →
  ApprovalRequest_authorize action now r = (r', Ok tt) →
  user_approved r0 h ∧ succeeded withdraws h = 0 ∧
  matches_authority_context r0 action = true ∧
  (now < ApprovalRequest_expires_at_ms r0)%Z ∧
  match ApprovalRequest_scope r with
  | Once => action = ApprovalRequest_subject r0 ∧ succeeded is_authorize h = 0 ∧
            ApprovalRequest_state r' = Consumed
  | RouteActionClass class => ApprovalSubject_action_class action = class ∧ r' = r
  end.
Proof.
  intros Hnew Hrun Ha. pose proof (approval_inv_new _ _ _ _ _ _ Hnew) as H0.
  pose proof (approval_run_inv _ _ _ H0 Hrun) as [_ Isub Iexp _ _ _].
  destruct (approval_run_provenance _ _ _ H0 (new_pending _ _ _ _ _ _ Hnew) Hrun) as [_ Hp].
  assert (∀ s, matches_authority_context r s = matches_authority_context r0 s) as Hctx.
  { intros s. unfold matches_authority_context. by rewrite Isub. }
  unfold ApprovalRequest_authorize in Ha.
  destruct (bool_decide _) eqn:Hst; [done|]. destruct (_ <=? _)%Z eqn:Hnow; [done|].
  destruct (negb _) eqn:Hm; [done|]. guards. rewrite Hst in Hp. destruct Hp as (?&?&Honce).
  rewrite <-Hctx, <-Iexp. do 4 (split; [done|]).
  destruct (ApprovalRequest_scope r) as [|class]; destruct (bool_decide _) eqn:Hd; simplify_eq/=;
    guards; [|done].
  split_and!; [|by apply Honce|done]. rewrite <-Isub. by apply authority_subject.
Qed.

(** The life of a request.  It never changes identity, subject, expiry or
    requester; it is resolved at most once; once it is denied, expired,
    revoked or consumed no call changes it or succeeds on it; and its revision
    counts its state changes, at most two, so the [u64] increment never
    wraps. *)
Theorem approval_lifecycle id subject scope requested_by expires r0 h r :
  ApprovalRequest_new id subject scope requested_by expires = Ok r0 →
  approval_run r0 h r →
  approval_inv r0 r ∧
  succeeded is_resolve h ≤ 1 ∧
  (0 ≤ ApprovalRequest_revision r ≤ 2)%Z ∧
  (is_revocable (ApprovalRequest_state r) = false →
    ∀ c, approval_step c r = (r, false)) ∧
  (∀ c r' o, approval_step c r = (r', o) →
    ApprovalRequest_state r' ≠ ApprovalRequest_state r →
    ApprovalRequest_revision r' = (ApprovalRequest_revision r + 1)%Z).
Proof.
  intros Hnew Hrun. pose proof (approval_inv_new _ _ _ _ _ _ Hnew) as H0.
  pose proof (approval_run_inv _ _ _ H0 Hrun) as Hinv.
  pose proof (approval_run_provenance _ _ _ H0 (new_pending _ _ _ _ _ _ Hnew) Hrun) as [Hone _].
  assert (0 ≤ ApprovalRequest_revision r ≤ 2)%Z as Hrev.
  { destruct Hinv as [_ _ _ _ _ Hr]. destruct (ApprovalRequest_state r); lia. }
  split_and!; try done; try lia.
  - intros Hterm c. destruct (ApprovalRequest_state r) eqn:Hst; try done;
      destruct c; approval_cases; rewrite ?Hst in *; simpl in *; congruence.
  - intros c r' o Hs Hne. assert (ApprovalRequest_revision r' = wrapping_add64
      (ApprovalRequest_revision r) 1) as ->.
    { destruct c; approval_cases; simpl in *; congruence. }
    apply wrapping_add64_small. unfold u64_max. lia.
Qed.

(** ** A concrete life *)
Definition ex_subject : ApprovalSubject := {|
  ApprovalSubject_mission_id := 1%N; ApprovalSubject_route_id := 2%N;
  ApprovalSubject_action_digest := "d"; ApprovalSubject_action_class := AGitPush;
  ApprovalSubject_contract_version := 1%Z; ApprovalSubject_loadout_fingerprint := "f" |}.
Definition ex_request : ApprovalRequest := {|
  ApprovalRequest_id := "a"; ApprovalRequest_subject := ex_subject;
  ApprovalRequest_scope := Once; ApprovalRequest_requested_by := ActorSupervisor;
  ApprovalRequest_resolved_by := None; ApprovalRequest_expires_at_ms := 100%Z;
  ApprovalRequest_state := Pending; ApprovalRequest_revision := 0%Z |}.
Definition ex_resolution : ApprovalResolution := {|
  ApprovalResolution_approval_id := "a"; ApprovalResolution_expected_revision := 0%Z;
  ApprovalResolution_actor := ActorUser; ApprovalResolution_decision := Approve;
  ApprovalResolution_subject := ex_subject; ApprovalResolution_now_ms := 5%Z |}.
Definition ex_approved : ApprovalRequest :=
  ApprovalRequest_transition Approved (Some ActorUser) ex_request.
Lemma ex_approved_run : approval_run ex_request [(CallResolve ex_resolution, true)] ex_approved.
Proof. eapply run_call; [apply run_nil|reflexivity]. Qed.

Lemma authorization_backed_by_user_witness :
  user_approved ex_request [(CallResolve ex_resolution, true)].
Proof.
  apply (authorization_backed_by_user "a" ex_subject Once ActorSupervisor 100%Z ex_request
    [(CallResolve ex_resolution, true)] ex_approved ex_subject 50%Z
    (ApprovalRequest_transition Consumed (Some ActorUser) ex_approved));
    [reflexivity|apply ex_approved_run|reflexivity].
Defined.
Lemma approval_lifecycle_witness :
  (0 ≤ ApprovalRequest_revision ex_approved ≤ 2)%Z.
Proof.
  apply (approval_lifecycle "a" ex_subject Once ActorSupervisor 100%Z ex_request
    [(CallResolve ex_resolution, true)] ex_approved); [reflexivity|apply ex_approved_run].
Defined.
