(* ===== verification/Budget.v ===== *)
(** * Mission budgets ([crates/policy/src/budget.rs])

    [BudgetTracker] keeps the usage records of a mission, a saturating
    running total per dimension, and the set of dimensions already warned
    about.  The abstract specification is the exact (unbounded) usage read off
    the records; the tracker's projection refines it, and the signals it
    raises at a safe boundary are characterised in terms of it. *)

From S2P Require Import Prelude Approval.
From Stdlib Require Import ZArith Lia.
From stdpp Require Import prelude gmap.

Inductive BudgetDimension :=
| Tokens | MoneyMicros | WallClock | ChangedLines | ChangedFiles | ModelCalls.
#[export] Instance BudgetDimension_eq_dec : EqDecision BudgetDimension.
Proof. solve_decision. Defined.

Definition BudgetDimension_ALL : list BudgetDimension :=
  [Tokens; MoneyMicros; WallClock; ChangedLines; ChangedFiles; ModelCalls].

#[export] Instance BudgetDimension_countable : Countable BudgetDimension.
Proof.
  refine (inj_countable'
    (λ d, match d with Tokens => 0 | MoneyMicros => 1 | WallClock => 2 | ChangedLines => 3
          | ChangedFiles => 4 | ModelCalls => 5 end)
    (λ n, match n with 0 => Tokens | 1 => MoneyMicros | 2 => WallClock | 3 => ChangedLines
          | 4 => ChangedFiles | _ => ModelCalls end) _).
  by intros [].
Defined.

(** [std::time::Duration] and [as_millis().min(u64::MAX) as u64]. *)
Record Duration := { Duration_secs : u64; Duration_nanos : u32 }.
Definition as_millis (d : Duration) : Z := (Duration_secs d * 1000 + Duration_nanos d / 1000000)%Z.
Definition as_millis_u64 (d : Duration) : u64 := Z.min (as_millis d) u64_max.

Record BudgetLimits := {
  BudgetLimits_tokens : u64;
  BudgetLimits_money_micros : u64;
  BudgetLimits_wall_clock : Duration;
  BudgetLimits_changed_lines : u64;
  BudgetLimits_changed_files : u64;
  BudgetLimits_model_calls : u64;
}.

Definition BudgetLimits_value (self : BudgetLimits) (dimension : BudgetDimension) : u64 :=
  match dimension with
  | Tokens => BudgetLimits_tokens self
  | MoneyMicros => BudgetLimits_money_micros self
  | WallClock => as_millis_u64 (BudgetLimits_wall_clock self)
  | ChangedLines => BudgetLimits_changed_lines self
  | ChangedFiles => BudgetLimits_changed_files self
  | ModelCalls => BudgetLimits_model_calls self
  end.

Inductive UnknownUsagePolicy := UnknownRequireApproval | UnknownPause.

Record UsageSample := { UsageSample_values : gmap BudgetDimension u64 }.
Definition UsageSample_default : UsageSample := {| UsageSample_values := ∅ |}.
Definition UsageSample_with (self : UsageSample) (dimension : BudgetDimension) (value : u64)
    : UsageSample := {| UsageSample_values := <[dimension := value]> (UsageSample_values self) |}.
Definition UsageSample_one (dimension : BudgetDimension) (value : u64) : UsageSample :=
  UsageSample_with UsageSample_default dimension value.
Definition UsageSample_tokens (value : u64) : UsageSample := UsageSample_one Tokens value.
Definition UsageSample_money_micros (value : u64) : UsageSample :=
  UsageSample_one MoneyMicros value.
Definition UsageSample_wall_clock (value : Duration) : UsageSample :=
  UsageSample_one WallClock (as_millis_u64 value).
Definition UsageSample_changed_lines (value : u64) : UsageSample :=
  UsageSample_one ChangedLines value.
Definition UsageSample_changed_files (value : u64) : UsageSample :=
  UsageSample_one ChangedFiles value.
Definition UsageSample_model_calls (value : u64) : UsageSample :=
  UsageSample_one ModelCalls value.

Inductive UsageRecord :=
| Sample (sample : UsageSample)
| UnknownUsage (dimension : BudgetDimension)
| Correction (dimension : BudgetDimension) (corrected_total : u64).

Inductive BudgetSignal :=
| Warning (dimension : BudgetDimension)
| SignalRequireApproval (dimension : BudgetDimension)
| PauseAtSafeBoundary (dimension : BudgetDimension).
#[export] Instance BudgetSignal_eq_dec : EqDecision BudgetSignal.
Proof. solve_decision. Defined.

Inductive Projection := Known (total : u64) | ProjectionUnknown.

Record BudgetTracker := {
  BudgetTracker_contract_version : u64;
  BudgetTracker_limits : BudgetLimits;
  BudgetTracker_unknown_policy : UnknownUsagePolicy;
  BudgetTracker_records : list UsageRecord;
  BudgetTracker_projection : gmap BudgetDimension Projection;
  BudgetTracker_warned : gset BudgetDimension;
}.

Definition BudgetTracker_new (contract_version : u64) (limits : BudgetLimits)
    (unknown_policy : UnknownUsagePolicy) : BudgetTracker := {|
  BudgetTracker_contract_version := contract_version;
  BudgetTracker_limits := limits;
  BudgetTracker_unknown_policy := unknown_policy;
  BudgetTracker_records := [];
  BudgetTracker_projection := list_to_map ((λ d, (d, Known 0)) <$> BudgetDimension_ALL);
  BudgetTracker_warned := ∅ |}.

(** One entry of the [BTreeMap] of a sample; the map is walked in key order,
    the order of [BudgetDimension_ALL]. *)
Definition record_increment (sample : UsageSample) (projection : gmap BudgetDimension Projection)
    (dimension : BudgetDimension) : gmap BudgetDimension Projection :=
  match UsageSample_values sample !! dimension with
  | None => projection
  | Some increment =>
      match projection !! dimension with
      | Some (Known total) =>
          <[dimension := Known (saturating_add u64_max total increment)]> projection
      | _ => projection
      end
  end.

Definition BudgetTracker_record (record : UsageRecord) (self : BudgetTracker) : BudgetTracker := {|
  BudgetTracker_contract_version := BudgetTracker_contract_version self;
  BudgetTracker_limits := BudgetTracker_limits self;
  BudgetTracker_unknown_policy := BudgetTracker_unknown_policy self;
  BudgetTracker_records := BudgetTracker_records self ++ [record];
  BudgetTracker_projection :=
    match record with
    | Sample sample =>
        foldl (record_increment sample) (BudgetTracker_projection self) BudgetDimension_ALL
    | UnknownUsage dimension =>
        <[dimension := ProjectionUnknown]> (BudgetTracker_projection self)
    | Correction dimension corrected_total =>
        <[dimension := Known corrected_total]> (BudgetTracker_projection self)
    end;
  BudgetTracker_warned := BudgetTracker_warned self |}.

(** The loop body of [evaluate_safe_boundary]: the signal for one dimension
    and the warned set afterwards. *)
Definition evaluate_dimension (self : BudgetTracker) (warned : gset BudgetDimension)
    (dimension : BudgetDimension) : gset BudgetDimension * list BudgetSignal :=
  match BudgetTracker_projection self !! dimension with
  | Some ProjectionUnknown =>
      (warned, [match BudgetTracker_unknown_policy self with
        | UnknownRequireApproval => SignalRequireApproval dimension
        | UnknownPause => PauseAtSafeBoundary dimension end])
  | Some (Known used) =>
      let limit := BudgetLimits_value (BudgetTracker_limits self) dimension in
      if (limit =? 0)%Z || (limit <=? used)%Z
      then (warned, [PauseAtSafeBoundary dimension])
      else if (saturating_mul u64_max limit 4 <=? saturating_mul u64_max used 5)%Z
      then ({[ dimension ]} ∪ warned,
            if bool_decide (dimension ∈ warned) then [] else [Warning dimension])
      else (warned, [])
  | None => (warned, [PauseAtSafeBoundary dimension])
  end.

Fixpoint evaluate_loop (self : BudgetTracker) (warned : gset BudgetDimension)
    (dimensions : list BudgetDimension) : gset BudgetDimension * list BudgetSignal :=
  match dimensions with
  | [] => (warned, [])
  | d :: rest =>
      let '(warned, s) := evaluate_dimension self warned d in
      let '(warned, signals) := evaluate_loop self warned rest in
      (warned, s ++ signals)
  end.

Definition with_warned (warned : gset BudgetDimension) (self : BudgetTracker) : BudgetTracker := {|
  BudgetTracker_contract_version := BudgetTracker_contract_version self;
  BudgetTracker_limits := BudgetTracker_limits self;
  BudgetTracker_unknown_policy := BudgetTracker_unknown_policy self;
  BudgetTracker_records := BudgetTracker_records self;
  BudgetTracker_projection := BudgetTracker_projection self;
  BudgetTracker_warned := warned |}.

Definition evaluate_safe_boundary (self : BudgetTracker) : BudgetTracker * list BudgetSignal :=
  let '(warned, signals) :=
    evaluate_loop self (BudgetTracker_warned self) BudgetDimension_ALL in
  (with_warned warned self, signals).

Record BudgetChange := {
  BudgetChange_actor : ApprovalActor;
  BudgetChange_contract_version : u64;
  BudgetChange_limits : BudgetLimits;
}.
Inductive BudgetChangeError := BudgetForbiddenActor | ContractVersionNotAdvanced.

Definition replace_limits (change : BudgetChange) : stm BudgetTracker BudgetChangeError unit :=
  λ self,
  if bool_decide (BudgetChange_actor change ≠ ActorUser) then (self, Err BudgetForbiddenActor)
  else if (BudgetChange_contract_version change <=? BudgetTracker_contract_version self)%Z
  then (self, Err ContractVersionNotAdvanced)
  else ({|
    BudgetTracker_contract_version := BudgetChange_contract_version change;
    BudgetTracker_limits := BudgetChange_limits change;
    BudgetTracker_unknown_policy := BudgetTracker_unknown_policy self;
    BudgetTracker_records := BudgetTracker_records self;
    BudgetTracker_projection := BudgetTracker_projection self;
    BudgetTracker_warned := ∅ |}, Ok tt).

(** ** Exact usage *)

Definition usage_step (d : BudgetDimension) (u : option Z) (r : UsageRecord) : option Z :=
  match r with
  | Sample s => (λ t, (t + default 0 (UsageSample_values s !! d))%Z) <$> u
  | UnknownUsage d' => if decide (d = d') then None else u
  | Correction d' t => if decide (d = d') then Some t else u
  end.
Definition usage (d : BudgetDimension) (records : list UsageRecord) : option Z :=
  foldl (usage_step d) (Some 0%Z) records.

Definition record_wf (r : UsageRecord) : Prop :=
  match r with
  | Sample s => ∀ d v, UsageSample_values s !! d = Some v → is_u64 v
  | UnknownUsage _ => True
  | Correction _ t => is_u64 t
  end.
Definition limits_wf (l : BudgetLimits) : Prop := ∀ d, is_u64 (BudgetLimits_value l d).

(** [clamp] relates exact usage to the stored projection. *)
Definition clamp (u : option Z) : Projection :=
  match u with Some t => Known (Z.min u64_max t) | None => ProjectionUnknown end.

Inductive budget_call :=
| CallRecord (r : UsageRecord)
| CallEvaluate
| CallReplaceLimits (c : BudgetChange).

Definition budget_step (c : budget_call) (t : BudgetTracker) : BudgetTracker :=
  match c with
  | CallRecord r => BudgetTracker_record r t
  | CallEvaluate => (evaluate_safe_boundary t).1
  | CallReplaceLimits c => (replace_limits c t).1
  end.
Definition budget_call_wf (c : budget_call) : Prop :=
  match c with
  | CallRecord r => record_wf r
  | CallEvaluate => True
  | CallReplaceLimits c => limits_wf (BudgetChange_limits c)
  end.
Definition budget_run (t : BudgetTracker) (calls : list budget_call) : BudgetTracker :=
  foldl (λ t c, budget_step c t) t calls.
Definition records_of (calls : list budget_call) : list UsageRecord :=
  omap (λ c, match c with CallRecord r => Some r | _ => None end) calls.

Lemma record_increment_lookup s p d d' :
  record_increment s p d !! d' =
    if decide (d = d') then
      match p !! d with
      | Some (Known t) => Some (Known (match UsageSample_values s !! d with
          | Some v => saturating_add u64_max t v | None => t end))
      | o => o end
    else p !! d'.
Proof.
  unfold record_increment. destruct (decide (d = d')) as [<-|Hne].
  - destruct (UsageSample_values s !! d) as [v|]; destruct (p !! d) as [[t|]|] eqn:Hp; try done.
    by rewrite lookup_insert_eq.
  - repeat case_match; try done. by rewrite lookup_insert_ne.
Qed.

Lemma record_sample_lookup s p d :
  foldl (record_increment s) p BudgetDimension_ALL !! d = record_increment s p d !! d.
Proof.
  simpl. rewrite !record_increment_lookup. by destruct d.
Qed.

Lemma clamp_sample u v :
  (∀ t, u = Some t → (0 ≤ t)%Z) → is_u64 v →
  match clamp u with
  | Known t => Known (saturating_add u64_max t v) | p => p end
  = clamp ((λ t, (t + v)%Z) <$> u).
Proof.
  destruct u as [t|]; simpl; [|done]. intros Ht [Hv _]. specialize (Ht t eq_refl).
  unfold saturating_add. f_equal. lia.
Qed.

(** The invariant of a tracker that has seen [records]. *)
Record budget_inv (records : list UsageRecord) (t : BudgetTracker) : Prop := {
  bi_records : BudgetTracker_records t = records;
  bi_projection : ∀ d, BudgetTracker_projection t !! d = Some (clamp (usage d records));
  bi_usage : ∀ d u, usage d records = Some u → (0 ≤ u)%Z;
  bi_limits : limits_wf (BudgetTracker_limits t);
}.

Lemma budget_inv_new v l p : limits_wf l → budget_inv [] (BudgetTracker_new v l p).
Proof. split; try done. - by intros []. - by intros d u [= <-]. Qed.

Lemma usage_snoc d records r : usage d (records ++ [r]) = usage_step d (usage d records) r.
Proof. unfold usage. by rewrite foldl_app. Qed.

Lemma budget_inv_record records t r :
  record_wf r → budget_inv records t → budget_inv (records ++ [r]) (BudgetTracker_record r t).
Proof.
  intros Hr [I1 I2 I3 I4]. split; simpl; [by rewrite I1| | |done].
  - intros d. rewrite usage_snoc. destruct r as [s|d'|d' x]; simpl in *.
    + etransitivity; [apply record_sample_lookup|].
      rewrite record_increment_lookup, decide_True, I2 by done.
      destruct (UsageSample_values s !! d) as [v|] eqn:Hv; simpl.
      * rewrite <-clamp_sample by eauto. by destruct (clamp _).
      * destruct (usage d records); simpl; [|done]. by rewrite Z.add_0_r.
    + case_decide as Hd; [subst; by rewrite lookup_insert_eq|by rewrite lookup_insert_ne].
    + case_decide as Hd; [subst; rewrite lookup_insert_eq|by rewrite lookup_insert_ne].
      simpl. do 2 f_equal. unfold is_u64 in Hr. lia.
  - intros d u. rewrite usage_snoc. destruct r as [s|d'|d' x]; simpl in *.
    + destruct (usage d records) as [w|] eqn:Hw; simpl; [|done]. intros [= <-].
      specialize (I3 d w Hw). destruct (UsageSample_values s !! d) as [v|] eqn:Hv; simpl; [|lia].
      specialize (Hr d v Hv). unfold is_u64 in Hr. lia.
    + case_decide; [done|eauto].
    + unfold is_u64 in Hr. case_decide; [intros [= <-]; lia|eauto].
Qed.

Lemma budget_inv_step c records t :
  budget_call_wf c → budget_inv records t →
  budget_inv (records ++ records_of [c]) (budget_step c t).
Proof.
  intros Hc Ht. destruct c as [r| |c]; simpl in *.
  - by apply budget_inv_record.
  - rewrite app_nil_r. destruct Ht. unfold evaluate_safe_boundary. by destruct (evaluate_loop _ _ _).
  - rewrite app_nil_r. destruct Ht. unfold replace_limits. by repeat case_match.
Qed.

Lemma budget_run_snoc t calls c : budget_run t (calls ++ [c]) = budget_step c (budget_run t calls).
Proof. unfold budget_run. by rewrite foldl_app. Qed.

Lemma budget_run_inv v l p calls :
  limits_wf l → Forall budget_call_wf calls →
  budget_inv (records_of calls) (budget_run (BudgetTracker_new v l p) calls).
Proof.
  intros Hl. induction calls as [|c calls IH] using rev_ind; intros Hf.
  - by apply budget_inv_new.
  - apply Forall_app in Hf as [Hf Hc]. apply Forall_inv in Hc.
    rewrite budget_run_snoc. unfold records_of. rewrite omap_app.
    apply (budget_inv_step c (records_of calls)); [done|by apply IH].
Qed.

(** ** Signals *)

(** What each dimension signals, from the exact usage. *)
Definition over_limit (t : BudgetTracker) (d : BudgetDimension) (u : Z) : Prop :=
  BudgetLimits_value (BudgetTracker_limits t) d = 0%Z ∨
  (BudgetLimits_value (BudgetTracker_limits t) d ≤ u)%Z.

Lemma evaluate_dimension_self t w d :
  ∀ w' s, evaluate_dimension t w d = (w', s) →
  (∀ d', d' ≠ d → d' ∈ w' ↔ d' ∈ w) ∧ (d ∈ w → d ∈ w') ∧
  (∀ d', Warning d' ∈ s → d' = d ∧ d ∈ w' ∧ d ∉ w) ∧
  (∀ d', PauseAtSafeBoundary d' ∈ s → d' = d).
Proof.
  intros w' s. unfold evaluate_dimension.
  repeat (case_match || case_bool_decide); intros [= <- <-]; set_solver.
Qed.

(** The signal a dimension gets depends on the warned set only at that
    dimension, so the loop is the concatenation of the bodies. *)
Lemma evaluate_dimension_local t w w' d :
  (d ∈ w ↔ d ∈ w') → (evaluate_dimension t w d).2 = (evaluate_dimension t w' d).2.
Proof.
  intros Hw. unfold evaluate_dimension. repeat case_match; try done;
    guards; naive_solver.
Qed.

Lemma evaluate_loop_elem t s ds : ∀ w, NoDup ds →
  s ∈ (evaluate_loop t w ds).2 ↔ ∃ d, d ∈ ds ∧ s ∈ (evaluate_dimension t w d).2.
Proof.
  induction ds as [|d ds IH]; intros w Hnd; simpl; [set_solver|].
  apply NoDup_cons in Hnd as [Hd Hnd].
  destruct (evaluate_dimension t w d) as [w1 s1] eqn:He.
  specialize (IH w1 Hnd). destruct (evaluate_loop t w1 ds) as [w2 s2]. simpl in *.
  destruct (evaluate_dimension_self _ _ _ _ _ He) as (Hother&_).
  assert (∀ d', d' ∈ ds → (evaluate_dimension t w1 d').2 = (evaluate_dimension t w d').2) as Hloc.
  { intros d' Hd'. apply evaluate_dimension_local, Hother. set_solver. }
  rewrite elem_of_app, IH. setoid_rewrite elem_of_cons. split.
  - intros [Hs|(d'&Hd'&Hs)]; [exists d; rewrite He; auto|]. exists d'. rewrite <-Hloc; auto.
  - intros (d'&[->|Hd']&Hs); [left; by rewrite He in Hs|]. right. exists d'. rewrite Hloc; auto.
Qed.

Lemma BudgetDimension_ALL_nodup : NoDup BudgetDimension_ALL.
Proof. by apply (bool_decide_unpack _). Qed.
Lemma BudgetDimension_ALL_all d : d ∈ BudgetDimension_ALL.
Proof. unfold BudgetDimension_ALL. destruct d; set_solver. Qed.

Lemma evaluate_signal t s :
  s ∈ (evaluate_safe_boundary t).2 ↔
    ∃ d, s ∈ (evaluate_dimension t (BudgetTracker_warned t) d).2.
Proof.
  unfold evaluate_safe_boundary.
  pose proof (evaluate_loop_elem t s BudgetDimension_ALL (BudgetTracker_warned t)
    BudgetDimension_ALL_nodup) as He.
  destruct (evaluate_loop _ _ _) as [w sg]. simpl in *. rewrite He.
  split; intros [d Hd]; exists d; [by destruct Hd|split; [apply BudgetDimension_ALL_all|done]].
Qed.

Lemma evaluate_loop_warned t ds : ∀ w w' s, evaluate_loop t w ds = (w', s) →
  w ⊆ w' ∧ ∀ d, Warning d ∈ s → d ∈ w'.
Proof.
  induction ds as [|d ds IH]; intros w w' s; simpl; [intros [= <- <-]; set_solver|].
  destruct (evaluate_dimension t w d) as [w1 s1] eqn:He.
  destruct (evaluate_loop t w1 ds) as [w2 s2] eqn:Hl. intros [= <- <-].
  destruct (evaluate_dimension_self _ _ _ _ _ He) as (Hother&Hself&Hw&_).
  destruct (IH _ _ _ Hl) as [Hsub Hin].
  assert (w ⊆ w1) by (intros d' ?; destruct (decide (d' = d)) as [->|]; [auto|by apply Hother]).
  split; [set_solver|]. intros d'. rewrite elem_of_app. intros [Hd|Hd]; [|auto].
  destruct (Hw d' Hd) as (->&?&_). set_solver.
Qed.

Lemma warned_signal t d :
  Warning d ∈ (evaluate_safe_boundary t).2 → d ∈ BudgetTracker_warned (evaluate_safe_boundary t).1.
Proof.
  unfold evaluate_safe_boundary. destruct (evaluate_loop _ _ _) as [w s] eqn:Hl. simpl.
  apply (evaluate_loop_warned _ _ _ _ _ Hl).
Qed.
Lemma warned_step c t :
  (∀ ch, c ≠ CallReplaceLimits ch) →
  BudgetTracker_warned t ⊆ BudgetTracker_warned (budget_step c t).
Proof.
  intros Hc. destruct c as [r| |ch]; simpl; [done| |by destruct (Hc ch)].
  unfold evaluate_safe_boundary. destruct (evaluate_loop _ _ _) as [w s] eqn:Hl. simpl.
  apply (evaluate_loop_warned _ _ _ _ _ Hl).
Qed.
Lemma warned_run t calls :
  (∀ ch, CallReplaceLimits ch ∉ calls) →
  BudgetTracker_warned t ⊆ BudgetTracker_warned (budget_run t calls).
Proof.
  induction calls as [|c calls IH] using rev_ind; intros Hc; [done|].
  rewrite budget_run_snoc. etransitivity; [apply IH; set_solver|].
  apply warned_step. set_solver.
Qed.
Lemma warned_silent t d : d ∈ BudgetTracker_warned t → Warning d ∉ (evaluate_safe_boundary t).2.
Proof.
  rewrite evaluate_signal. intros Hd [d' Hd'].
  destruct (evaluate_dimension t _ d') as [w s] eqn:He. simpl in Hd'.
  destruct (evaluate_dimension_self _ _ _ _ _ He) as (_&_&Hw&_).
  destruct (Hw d Hd') as (->&_&?). done.
Qed.

(** The signals of a tracker in the invariant, dimension by dimension. *)
Section signals.
Context (records : list UsageRecord) (t : BudgetTracker) (Ht : budget_inv records t).
Let limit d := BudgetLimits_value (BudgetTracker_limits t) d.

Lemma dimension_unknown d w :
  usage d records = None →
  (evaluate_dimension t w d).2 = [match BudgetTracker_unknown_policy t with
    | UnknownRequireApproval => SignalRequireApproval d | UnknownPause => PauseAtSafeBoundary d end].
Proof. intros Hu. unfold evaluate_dimension. by rewrite (bi_projection _ _ Ht), Hu. Qed.

Lemma dimension_over d w u :
  usage d records = Some u → over_limit t d u →
  (evaluate_dimension t w d).2 = [PauseAtSafeBoundary d].
Proof.
  intros Hu Ho. unfold evaluate_dimension. rewrite (bi_projection _ _ Ht), Hu. simpl.
  pose proof (bi_limits _ _ Ht d) as Hl. unfold is_u64, over_limit in *.
  destruct (_ || _) eqn:Hb; [done|]. guards. lia.
Qed.

Lemma dimension_under d w u :
  usage d records = Some u → ¬ over_limit t d u →
  (evaluate_dimension t w d).2 =
    if (saturating_mul u64_max (limit d) 4 <=? saturating_mul u64_max u 5)%Z
    then (if bool_decide (d ∈ w) then [] else [Warning d]) else [].
Proof.
  intros Hu Ho. unfold evaluate_dimension. rewrite (bi_projection _ _ Ht), Hu. simpl.
  pose proof (bi_limits _ _ Ht d) as Hl. unfold is_u64, over_limit, limit in *.
  destruct (_ || _) eqn:Hb.
  { exfalso. apply Ho. apply orb_true_iff in Hb as [?|?]; guards; lia. }
  guards. rewrite (Z.min_r u64_max u) by lia. by destruct (_ <=? _)%Z.
Qed.

Lemma signal_of_dimension s d :
  s ∈ (evaluate_safe_boundary t).2 →
  s = Warning d ∨ s = SignalRequireApproval d ∨ s = PauseAtSafeBoundary d →
  s ∈ (evaluate_dimension t (BudgetTracker_warned t) d).2.
Proof.
  rewrite evaluate_signal. intros [d' Hd'] Hs.
  destruct (usage d' records) as [u|] eqn:Hu.
  - destruct (decide (limit d' = 0 ∨ limit d' ≤ u)%Z) as [Ho|Ho].
    + assert (d' = d) as ->; [|done]. rewrite (dimension_over _ _ u) in Hd' by done.
      apply list_elem_of_singleton in Hd'. naive_solver.
    + assert (d' = d) as ->; [|done]. rewrite (dimension_under _ _ u) in Hd' by done.
      repeat case_match; rewrite ?list_elem_of_singleton, ?elem_of_nil in Hd'; naive_solver.
  - assert (d' = d) as ->; [|done]. rewrite dimension_unknown in Hd' by done.
    apply list_elem_of_singleton in Hd'. case_match; naive_solver.
Qed.
End signals.

(** C29: the signals raised at a safe boundary, in terms of the exact usage of
    the records so far, however many records saturated the stored totals: a
    dimension pauses the mission exactly when its limit is zero or reached, or
    its usage is unknown under the pausing policy; it asks for approval
    exactly when its usage is unknown under the other policy; below the limit
    it warns no later than at 80% (unless it has warned already), and no
    earlier when four times the limit fits in a [u64]. *)
Theorem budget_signals_exact version limits policy calls d :
  limits_wf limits → Forall budget_call_wf calls →
  let t := budget_run (BudgetTracker_new version limits policy) calls in
  let limit := BudgetLimits_value (BudgetTracker_limits t) d in
  let signals := (evaluate_safe_boundary t).2 in
  match usage d (records_of calls) with
  | None =>
      (PauseAtSafeBoundary d ∈ signals ↔ BudgetTracker_unknown_policy t = UnknownPause) ∧
      (SignalRequireApproval d ∈ signals ↔
        BudgetTracker_unknown_policy t = UnknownRequireApproval) ∧
      Warning d ∉ signals
  | Some u =>
      (PauseAtSafeBoundary d ∈ signals ↔ limit = 0%Z ∨ (limit ≤ u)%Z) ∧
      (SignalRequireApproval d ∉ signals) ∧
      (Warning d ∈ signals → (0 < limit)%Z ∧ (u < limit)%Z ∧ (d ∉ BudgetTracker_warned t) ∧
        ((4 * limit ≤ u64_max)%Z → (4 * limit ≤ 5 * u)%Z)) ∧
      ((0 < limit)%Z → (u < limit)%Z → (4 * limit ≤ 5 * u)%Z →
        Warning d ∈ signals ∨ d ∈ BudgetTracker_warned t)
  end.
Proof.
  intros Hl Hc t limit signals.
  pose proof (budget_run_inv version limits policy calls Hl Hc) as Ht. fold t in Ht.
  assert (∀ s, s = Warning d ∨ s = SignalRequireApproval d ∨ s = PauseAtSafeBoundary d →
    s ∈ signals ↔ s ∈ (evaluate_dimension t (BudgetTracker_warned t) d).2) as Hsig.
  { intros s Hs. split; [intros; by eapply signal_of_dimension|].
    intros Hd. apply evaluate_signal. by exists d. }
  pose proof (bi_limits _ _ Ht d) as [Hlim _]. fold limit in Hlim.
  destruct (usage d (records_of calls)) as [u|] eqn:Hu; rewrite !Hsig by auto.
  - pose proof (bi_usage _ _ Ht d u Hu) as Hpos.
    destruct (decide (limit = 0 ∨ limit ≤ u)%Z) as [Ho|Ho].
    + rewrite (dimension_over _ _ Ht _ _ u) by done. rewrite !list_elem_of_singleton.
      naive_solver lia.
    + rewrite (dimension_under _ _ Ht _ _ u) by done. fold limit.
      assert (0 < limit ∧ u < limit)%Z as [??] by lia. unfold saturating_mul.
      destruct (_ <=? _)%Z eqn:H80; guards; [case_bool_decide|];
        rewrite ?list_elem_of_singleton, ?elem_of_nil; split_and!; try done; naive_solver lia.
  - rewrite (dimension_unknown _ _ Ht) by done. rewrite !list_elem_of_singleton.
    destruct (BudgetTracker_unknown_policy t); naive_solver.
Qed.

(** A dimension warns once per set of limits: after an evaluation that
    warned about it, no later evaluation warns about it again until the
    limits are replaced. *)
Theorem budget_warns_once t d calls :
  Warning d ∈ (evaluate_safe_boundary t).2 →
  (∀ ch, CallReplaceLimits ch ∉ calls) →
  Warning d ∉ (evaluate_safe_boundary (budget_run (evaluate_safe_boundary t).1 calls)).2.
Proof.
  intros Hw Hc. apply warned_silent, (warned_run _ _ Hc), warned_signal, Hw.
Qed.

Lemma limits_step c t :
  let t' := budget_step c t in
  (BudgetTracker_contract_version t' = BudgetTracker_contract_version t ∧
   BudgetTracker_limits t' = BudgetTracker_limits t) ∨
  (∃ ch, c = CallReplaceLimits ch ∧ BudgetChange_actor ch = ActorUser ∧
    (BudgetTracker_contract_version t < BudgetChange_contract_version ch)%Z ∧
    BudgetTracker_contract_version t' = BudgetChange_contract_version ch ∧
    BudgetTracker_limits t' = BudgetChange_limits ch).
Proof.
  destruct c as [r| |ch]; simpl.
  - by left.
  - left. unfold evaluate_safe_boundary. by destruct (evaluate_loop _ _ _).
  - unfold replace_limits. repeat case_match; guards; simpl; [by left..|right]. by exists ch.
Qed.

(** Only the user moves the limits: after any calls the limits and their
    contract version are either the initial ones or those of one change made
    by the user, whose version is newer than the initial one and than that of
    every accepted change before it. *)
Lemma budget_limits_user_controlled t calls :
  let t' := budget_run t calls in
  (BudgetTracker_contract_version t' = BudgetTracker_contract_version t ∧
   BudgetTracker_limits t' = BudgetTracker_limits t) ∨
  ∃ before ch after, calls = before ++ CallReplaceLimits ch :: after ∧
    BudgetChange_actor ch = ActorUser ∧
    (BudgetTracker_contract_version t ≤
      BudgetTracker_contract_version (budget_run t before) < BudgetChange_contract_version ch)%Z ∧
    BudgetTracker_contract_version t' = BudgetChange_contract_version ch ∧
    BudgetTracker_limits t' = BudgetChange_limits ch.
Proof.
  simpl. induction calls as [|c calls IH] using rev_ind; [by left|]. rewrite budget_run_snoc.
  assert (BudgetTracker_contract_version t ≤
    BudgetTracker_contract_version (budget_run t calls))%Z as Hmono.
  { destruct IH as [[-> _]|(b&ch&a&_&_&?&->&_)]; lia. }
  destruct (limits_step c (budget_run t calls)) as [[-> ->]|(ch&->&?&?&->&->)].
  - destruct IH as [?|(b&ch&a&->&?&?&?&?)]; [by left|right].
    exists b, ch, (a ++ [c]). rewrite <-app_assoc. auto.
  - right. exists calls, ch, []. auto with lia.
Qed.

(** ** Concrete trackers *)
Definition ex_limits (n : Z) : BudgetLimits := {|
  BudgetLimits_tokens := n; BudgetLimits_money_micros := n;
  BudgetLimits_wall_clock := {| Duration_secs := n; Duration_nanos := 0%Z |};
  BudgetLimits_changed_lines := n; BudgetLimits_changed_files := n;
  BudgetLimits_model_calls := n |}.
Definition ex_calls : list budget_call :=
  [CallRecord (Sample (UsageSample_tokens u64_max)); CallRecord (Correction Tokens 80%Z)].
Lemma ex_limits_wf : limits_wf (ex_limits 100).
Proof. intros []; by vm_compute. Qed.
Lemma ex_calls_wf : Forall budget_call_wf ex_calls.
Proof.
  apply Forall_cons. split; [|apply Forall_singleton; by vm_compute]. intros d v Hv.
  unfold UsageSample_tokens, UsageSample_one, UsageSample_with in Hv. simpl in Hv.
  apply lookup_insert_Some in Hv as [[_ <-]|[_ Hv]]; [unfold is_u64, u64_max; lia|].
  by rewrite lookup_empty in Hv.
Qed.

Lemma budget_signals_exact_witness :
  usage Tokens (records_of ex_calls) = Some 80%Z ∧
  Warning Tokens ∈ (evaluate_safe_boundary
    (budget_run (BudgetTracker_new 1%Z (ex_limits 100) UnknownPause) ex_calls)).2.
Proof.
  split; [reflexivity|].
  destruct (budget_signals_exact 1%Z (ex_limits 100) UnknownPause ex_calls Tokens
    ex_limits_wf ex_calls_wf) as (_&_&_&Hw).
  destruct (Hw eq_refl eq_refl) as [?|Hin]; [by vm_compute|done|].
  apply (bool_decide_eq_true_2 _) in Hin. discriminate Hin.
Defined.

Lemma budget_warns_once_witness :
  Warning Tokens ∉ (evaluate_safe_boundary (budget_run (evaluate_safe_boundary
    (budget_run (BudgetTracker_new 1%Z (ex_limits 100) UnknownPause) ex_calls)).1
    [CallRecord (Sample (UsageSample_tokens 5%Z))])).2.
Proof.
  apply budget_warns_once.
  - apply (bool_decide_eq_true_1 _). reflexivity.
  - intros ch. rewrite list_elem_of_singleton. discriminate.
Defined.
