(* ===== verification/Envelope.v ===== *)
(** * Flight envelopes ([crates/policy/src/envelope.rs])

    The bindings an agent is launched with, and the check made before every
    model request. *)

From S2P Require Import Prelude PolicyEngine Budget.
From stdpp Require Import prelude strings.

Record FlightIdentity := {
  FlightIdentity_provider : string;
  FlightIdentity_model : string;
  FlightIdentity_loadout_fingerprint : string;
}.
#[export] Instance FlightIdentity_eq_dec : EqDecision FlightIdentity.
Proof. solve_decision. Defined.

Inductive EnvelopeDecision := EnvelopeAllow | PauseIdentityChanged.

Record FlightEnvelope := {
  FlightEnvelope_allowed_action_classes : list ActionClass;
  FlightEnvelope_path_roots : list string;
  FlightEnvelope_network_allowlist : list string;
  FlightEnvelope_dependency_sources : list string;
  FlightEnvelope_identity : FlightIdentity;
  FlightEnvelope_budget : BudgetLimits;
}.

Inductive EnvelopeError := Incomplete.

Definition FlightEnvelope_new (allowed_action_classes : list ActionClass)
    (path_roots network_allowlist dependency_sources : list string)
    (identity : FlightIdentity) (budget : BudgetLimits) : result EnvelopeError FlightEnvelope :=
  if is_empty allowed_action_classes
     || existsb blank path_roots
     || is_empty path_roots
     || blank (FlightIdentity_provider identity)
     || blank (FlightIdentity_model identity)
     || blank (FlightIdentity_loadout_fingerprint identity)
  then Err Incomplete
  else Ok {|
    FlightEnvelope_allowed_action_classes := allowed_action_classes;
    FlightEnvelope_path_roots := path_roots;
    FlightEnvelope_network_allowlist := network_allowlist;
    FlightEnvelope_dependency_sources := dependency_sources;
    FlightEnvelope_identity := identity;
    FlightEnvelope_budget := budget |}.

Definition allows_action (self : FlightEnvelope) (action : ActionClass) : bool :=
  bool_decide (action ∈ FlightEnvelope_allowed_action_classes self).

Definition check_before_model_request (self : FlightEnvelope) (current : FlightIdentity)
    : EnvelopeDecision :=
  if bool_decide (FlightEnvelope_identity self = current) then EnvelopeAllow
  else PauseIdentityChanged.

(** An envelope that can be built binds a provider, a model and a loadout
    that are not blank, at least one action class and only non-blank path
    roots; and it admits a model request exactly for the identity it was
    built with, so a change of provider, model or loadout fingerprint always
    pauses. *)
Theorem envelope_binds_identity classes roots net deps identity budget env :
  FlightEnvelope_new classes roots net deps identity budget = Ok env →
  (∀ current, check_before_model_request env current = EnvelopeAllow ↔
    FlightIdentity_provider current = FlightIdentity_provider identity ∧
    FlightIdentity_model current = FlightIdentity_model identity ∧
    FlightIdentity_loadout_fingerprint current = FlightIdentity_loadout_fingerprint identity) ∧
  (∀ a, allows_action env a = true ↔ a ∈ classes) ∧
  classes ≠ [] ∧ roots ≠ [] ∧ (∀ r, r ∈ roots → blank r = false) ∧
  blank (FlightIdentity_provider identity) = false ∧
  blank (FlightIdentity_model identity) = false ∧
  blank (FlightIdentity_loadout_fingerprint identity) = false.
Proof.
  unfold FlightEnvelope_new. destruct (_ || _) eqn:Hb; [done|]. intros [= <-]. guards.
  split_and!; try done.
  - intros current. unfold check_before_model_request. simpl.
    case_bool_decide as Hi; [by subst|]. split; [done|]. intros (?&?&?).
    destruct Hi. destruct current, identity; simpl in *; congruence.
  - intros a. unfold allows_action. by rewrite bool_decide_eq_true.
  - by destruct classes.
  - by destruct roots.
  - intros r Hr. destruct (blank r) eqn:Hbl; [|done].
    assert (existsb blank roots = true); [|congruence].
    apply existsb_exists. exists r. by rewrite <-list_elem_of_In.
Qed.

Definition ex_identity : FlightIdentity := {|
  FlightIdentity_provider := "codex"; FlightIdentity_model := "m";
  FlightIdentity_loadout_fingerprint := "f" |}.
Definition ex_envelope : FlightEnvelope := {|
  FlightEnvelope_allowed_action_classes := [ARead]; FlightEnvelope_path_roots := ["/w"];
  FlightEnvelope_network_allowlist := []; FlightEnvelope_dependency_sources := [];
  FlightEnvelope_identity := ex_identity; FlightEnvelope_budget := ex_limits 1 |}.
Lemma envelope_binds_identity_witness : allows_action ex_envelope ARead = true.
Proof.
  apply (envelope_binds_identity [ARead] ["/w"] [] [] ex_identity (ex_limits 1) ex_envelope);
    [reflexivity|by left].
Defined.
