(* ===== verification/ResourceBudget.v ===== *)
(** * Machine resource limits ([crates/supervisor/src/resource_budget.rs])

    Throttling and pausing decisions from observed memory, processor and disk
    use. *)

From S2P Require Import Prelude.
From Stdlib Require Import ZArith Lia.
From stdpp Require Import prelude strings pretty.

Definition THROTTLE_PERCENT : u64 := 80%Z.

Record ObservedResources := {
  ObservedResources_memory_bytes : u64;
  ObservedResources_cpu_percent : u8;
}.

Inductive ResourceDecision :=
| Proceed
| Throttle (reason : string)
| ResourcePause (reason : string).

Record ResourcePressure := {
  ResourcePressure_memory_bytes : u64;
  ResourcePressure_cpu_percent : u8;
  ResourcePressure_disk_bytes : u64;
}.

Record ResourceBudget := {
  ResourceBudget_memory_limit_bytes : u64;
  ResourceBudget_cpu_limit_percent : u8;
  ResourceBudget_disk_limit_bytes : option u64;
}.

Inductive ResourceBudgetError := InvalidLimit.

Definition ResourceBudget_new (memory_limit_bytes : u64) (cpu_limit_percent : u8)
    : result ResourceBudgetError ResourceBudget :=
  if (memory_limit_bytes =? 0)%Z
     || negb ((1 <=? cpu_limit_percent)%Z && (cpu_limit_percent <=? 100)%Z)
  then Err InvalidLimit
  else Ok {|
    ResourceBudget_memory_limit_bytes := memory_limit_bytes;
    ResourceBudget_cpu_limit_percent := cpu_limit_percent;
    ResourceBudget_disk_limit_bytes := None |}.

Definition with_disk_limit (disk_limit_bytes : u64) (self : ResourceBudget)
    : result ResourceBudgetError ResourceBudget :=
  if (disk_limit_bytes =? 0)%Z then Err InvalidLimit
  else Ok {|
    ResourceBudget_memory_limit_bytes := ResourceBudget_memory_limit_bytes self;
    ResourceBudget_cpu_limit_percent := ResourceBudget_cpu_limit_percent self;
    ResourceBudget_disk_limit_bytes := Some disk_limit_bytes |}.

(** The two [format!] calls differ only in their prefix. *)
Definition pressure_text (prefix : string) (self : ResourceBudget) (observed : ResourcePressure)
    : string :=
  prefix +:+ ": memory " +:+ pretty (ResourcePressure_memory_bytes observed)
  +:+ "/" +:+ pretty (ResourceBudget_memory_limit_bytes self)
  +:+ ", cpu " +:+ pretty (ResourcePressure_cpu_percent observed)
  +:+ "/" +:+ pretty (ResourceBudget_cpu_limit_percent self)
  +:+ "%, disk " +:+ pretty (ResourcePressure_disk_bytes observed)
  +:+ "/" +:+ pretty (default 0%Z (ResourceBudget_disk_limit_bytes self)).

Definition option_is_some_and {A} (o : option A) (f : A → bool) : bool :=
  match o with Some a => f a | None => false end.

Definition evaluate_pressure (self : ResourceBudget) (observed : ResourcePressure)
    : ResourceDecision :=
  let mul := saturating_mul u64_max in
  let disk_critical := option_is_some_and (ResourceBudget_disk_limit_bytes self)
    (λ limit, (limit <=? ResourcePressure_disk_bytes observed)%Z) in
  let disk_throttle := option_is_some_and (ResourceBudget_disk_limit_bytes self)
    (λ limit, (mul limit THROTTLE_PERCENT <=? mul (ResourcePressure_disk_bytes observed) 100)%Z) in
  if (ResourceBudget_memory_limit_bytes self <=? ResourcePressure_memory_bytes observed)%Z
     || (ResourceBudget_cpu_limit_percent self <=? ResourcePressure_cpu_percent observed)%Z
     || disk_critical
  then ResourcePause (pressure_text "resource limit reached" self observed)
  else if (mul (ResourceBudget_memory_limit_bytes self) THROTTLE_PERCENT
             <=? mul (ResourcePressure_memory_bytes observed) 100)%Z
          || (mul (ResourceBudget_cpu_limit_percent self) THROTTLE_PERCENT
             <=? mul (ResourcePressure_cpu_percent observed) 100)%Z
          || disk_throttle
  then Throttle (pressure_text "resource pressure" self observed)
  else Proceed.

Definition ResourceBudget_evaluate (self : ResourceBudget) (observed : ObservedResources)
    : ResourceDecision :=
  evaluate_pressure self {|
    ResourcePressure_memory_bytes := ObservedResources_memory_bytes observed;
    ResourcePressure_cpu_percent := ObservedResources_cpu_percent observed;
    ResourcePressure_disk_bytes := 0%Z |}.

(** ** Specification: the three resources as (used, limit) pairs *)
Definition pairs (b : ResourceBudget) (o : ResourcePressure) : list (Z * Z) :=
  [(ResourcePressure_memory_bytes o, ResourceBudget_memory_limit_bytes b);
   (ResourcePressure_cpu_percent o, ResourceBudget_cpu_limit_percent b)] ++
  match ResourceBudget_disk_limit_bytes b with
  | Some l => [(ResourcePressure_disk_bytes o, l)] | None => [] end.

Definition pressure_wf (b : ResourceBudget) (o : ResourcePressure) : Prop :=
  ∀ u l, (u, l) ∈ pairs b o → is_u64 u ∧ is_u64 l.

Definition saturated (p : Z * Z) : bool :=
  (saturating_mul u64_max p.2 THROTTLE_PERCENT <=? saturating_mul u64_max p.1 100)%Z.

Lemma evaluate_pressure_pairs b o :
  evaluate_pressure b o =
    if existsb (λ p, (p.2 <=? p.1)%Z) (pairs b o)
    then ResourcePause (pressure_text "resource limit reached" b o)
    else if existsb saturated (pairs b o)
    then Throttle (pressure_text "resource pressure" b o) else Proceed.
Proof.
  unfold evaluate_pressure, pairs, saturated.
  destruct (ResourceBudget_disk_limit_bytes b); simpl; by rewrite ?orb_false_r, ?orb_assoc.
Qed.

(** The mission is paused exactly when some resource has reached its
    limit; below the limits it is throttled no later than when some resource
    reaches 80% of its limit, and no earlier when a hundred times that limit
    fits in a [u64]: the saturating products never hide pressure. *)
Theorem resource_decision_exact b o :
  pressure_wf b o →
  ((∃ r, evaluate_pressure b o = ResourcePause r) ↔ ∃ u l, (u, l) ∈ pairs b o ∧ (l ≤ u)%Z) ∧
  (evaluate_pressure b o = Proceed →
    ∀ u l, (u, l) ∈ pairs b o → (100 * u < 80 * l)%Z) ∧
  ((∀ u l, (u, l) ∈ pairs b o → (100 * l ≤ u64_max)%Z ∧ (100 * u < 80 * l)%Z) →
    evaluate_pressure b o = Proceed).
Proof.
  intros Hwf. rewrite evaluate_pressure_pairs.
  assert (∀ f, existsb f (pairs b o) = true ↔ ∃ u l, (u, l) ∈ pairs b o ∧ f (u, l) = true) as Hex.
  { intros f. rewrite existsb_exists. setoid_rewrite list_elem_of_In.
    split; [intros ([u l]&?&?); eauto|intros (u&l&?&?); eauto]. }
  split_and!.
  - destruct (existsb _ _) eqn:He; [|destruct (existsb saturated _)].
    + split; [intros _|eauto]. apply Hex in He as (u&l&?&?). guards. eauto.
    + split; [by intros [? [=]]|]. intros (u&l&Hin&?). apply not_true_iff_false in He.
      destruct He. apply Hex. exists u, l. split; [done|]. by apply Z.leb_le.
    + split; [by intros [? [=]]|]. intros (u&l&Hin&?). apply not_true_iff_false in He.
      destruct He. apply Hex. exists u, l. split; [done|]. by apply Z.leb_le.
  - destruct (existsb _ _) eqn:He; [done|]. destruct (existsb saturated _) eqn:Hs; [done|].
    intros _ u l Hin. apply not_true_iff_false in Hs, He. destruct (Hwf u l Hin) as [Hu Hl].
    apply Z.nle_gt. intros Hle. apply Hs, Hex. exists u, l. split; [done|].
    unfold saturated, saturating_mul, THROTTLE_PERCENT. simpl. apply Z.leb_le. lia.
  - intros Hall. assert (existsb (λ p, (p.2 <=? p.1)%Z) (pairs b o) = false) as ->.
    { apply not_true_iff_false. intros (u&l&Hin&Hle)%Hex. guards.
      destruct (Hwf u l Hin) as [[Hu _] _]. destruct (Hall u l Hin). simpl in *. lia. }
    assert (existsb saturated (pairs b o) = false) as ->; [|done].
    apply not_true_iff_false. intros (u&l&Hin&Hle)%Hex. unfold saturated in Hle. simpl in Hle.
    guards. destruct (Hwf u l Hin) as [[Hu _] _]. destruct (Hall u l Hin).
    unfold saturating_mul, THROTTLE_PERCENT in Hle. lia.
Qed.

Definition ex_budget : ResourceBudget := {|
  ResourceBudget_memory_limit_bytes := 1000%Z; ResourceBudget_cpu_limit_percent := 90%Z;
  ResourceBudget_disk_limit_bytes := Some 500%Z |}.
Definition ex_pressure : ResourcePressure := {|
  ResourcePressure_memory_bytes := 10%Z; ResourcePressure_cpu_percent := 5%Z;
  ResourcePressure_disk_bytes := 500%Z |}.
Lemma resource_decision_exact_witness : ∃ r, evaluate_pressure ex_budget ex_pressure = ResourcePause r.
Proof.
  apply (resource_decision_exact ex_budget ex_pressure).
  - intros u l Hin. unfold pairs in Hin. simpl in Hin. rewrite !elem_of_cons, elem_of_nil in Hin.
    unfold is_u64, u64_max. destruct Hin as [[= -> ->]|[[= -> ->]|[[= -> ->]|[]]]]; lia.
  - exists 500%Z, 500%Z. split; [|lia]. unfold pairs. simpl. by right; right; left.
Defined.
