(* ===== verification/Scheduler.v ===== *)
(** * The weighted mission scheduler ([crates/supervisor/src/scheduler.rs])

    [MissionScheduler] keeps a FIFO of authorized actions per mission, at most
    [max_active] active missions, and a round-robin schedule in which a
    foreground mission has three slots and a background mission one. *)

From S2P Require Import Prelude Extern Ids ResourceBudget.
From Stdlib Require Import ZArith Lia.
From stdpp Require Import prelude gmap strings.

Definition FOREGROUND_WEIGHT : usize := 3.
Definition BACKGROUND_WEIGHT : usize := 1.

Inductive SchedulerError :=
| InvalidConcurrency | MissionAlreadyRegistered | MissionNotRegistered | ActionNotApproved
| MissionCompleted.
#[export] Instance SchedulerError_eq_dec : EqDecision SchedulerError.
Proof. solve_decision. Defined.

Record SchedulerConfig := { SchedulerConfig_max_active : usize }.
Definition SchedulerConfig_new (max_active : usize) : result SchedulerError SchedulerConfig :=
  if negb ((1 <=? max_active) && (max_active <=? 5)) then Err InvalidConcurrency
  else Ok {| SchedulerConfig_max_active := max_active |}.
Definition SchedulerConfig_default : SchedulerConfig := {| SchedulerConfig_max_active := 3 |}.

Inductive ActionAuthorization := PolicyAllowed | AuthApprovalConsumed | AuthDenied.
#[export] Instance ActionAuthorization_eq_dec : EqDecision ActionAuthorization.
Proof. solve_decision. Defined.

Inductive MissionScheduleState := SQueued | SActive | SPaused | SCompleted.
#[export] Instance MissionScheduleState_eq_dec : EqDecision MissionScheduleState.
Proof. solve_decision. Defined.

Record ScheduledAction := {
  ScheduledAction_mission_id : MissionId;
  ScheduledAction_action_id : string;
  ScheduledAction_cwd : string;
  ScheduledAction_env : gmap string string;
  ScheduledAction_stdout_channel : string;
}.

Record MissionQueue := {
  MissionQueue_state : MissionScheduleState;
  MissionQueue_foreground : bool;
  MissionQueue_actions : list ScheduledAction;
  MissionQueue_resource_reason : option string;
}.

Record MissionScheduler := {
  MissionScheduler_config : SchedulerConfig;
  MissionScheduler_missions : gmap MissionId MissionQueue;
  MissionScheduler_registration_order : list MissionId;
  MissionScheduler_schedule : list MissionId;
  MissionScheduler_cursor : usize;
}.

Definition MissionScheduler_new (config : SchedulerConfig)
    : result SchedulerError MissionScheduler :=
  _ ← SchedulerConfig_new (SchedulerConfig_max_active config);
  Ok {|
    MissionScheduler_config := config;
    MissionScheduler_missions := ∅;
    MissionScheduler_registration_order := [];
    MissionScheduler_schedule := [];
    MissionScheduler_cursor := 0 |}.

(** Assignments to the fields the methods write. *)
Definition with_missions (missions : gmap MissionId MissionQueue) (self : MissionScheduler)
    : MissionScheduler := {|
  MissionScheduler_config := MissionScheduler_config self;
  MissionScheduler_missions := missions;
  MissionScheduler_registration_order := MissionScheduler_registration_order self;
  MissionScheduler_schedule := MissionScheduler_schedule self;
  MissionScheduler_cursor := MissionScheduler_cursor self |}.
Definition queue_with_state (state : MissionScheduleState) (q : MissionQueue) : MissionQueue := {|
  MissionQueue_state := state;
  MissionQueue_foreground := MissionQueue_foreground q;
  MissionQueue_actions := MissionQueue_actions q;
  MissionQueue_resource_reason := MissionQueue_resource_reason q |}.
Definition queue_with_actions (actions : list ScheduledAction) (q : MissionQueue)
    : MissionQueue := {|
  MissionQueue_state := MissionQueue_state q;
  MissionQueue_foreground := MissionQueue_foreground q;
  MissionQueue_actions := actions;
  MissionQueue_resource_reason := MissionQueue_resource_reason q |}.
Definition queue_with_reason (reason : option string) (q : MissionQueue) : MissionQueue := {|
  MissionQueue_state := MissionQueue_state q;
  MissionQueue_foreground := MissionQueue_foreground q;
  MissionQueue_actions := MissionQueue_actions q;
  MissionQueue_resource_reason := reason |}.

Definition scheduler_register (mission_id : MissionId) (foreground : bool)
    : stm MissionScheduler SchedulerError unit := λ self,
  match MissionScheduler_missions self !! mission_id with
  | Some _ => (self, Err MissionAlreadyRegistered)
  | None => ({|
      MissionScheduler_config := MissionScheduler_config self;
      MissionScheduler_missions :=
        <[mission_id := {|
          MissionQueue_state := SQueued; MissionQueue_foreground := foreground;
          MissionQueue_actions := []; MissionQueue_resource_reason := None |}]>
        (MissionScheduler_missions self);
      MissionScheduler_registration_order :=
        MissionScheduler_registration_order self ++ [mission_id];
      MissionScheduler_schedule := MissionScheduler_schedule self;
      MissionScheduler_cursor := MissionScheduler_cursor self |}, Ok tt)
  end.

Definition scheduler_enqueue (action : ScheduledAction) (authorization : ActionAuthorization)
    : stm MissionScheduler SchedulerError unit := λ self,
  if bool_decide (authorization = AuthDenied) then (self, Err ActionNotApproved)
  else match MissionScheduler_missions self !! ScheduledAction_mission_id action with
  | None => (self, Err MissionNotRegistered)
  | Some mission =>
      if bool_decide (MissionQueue_state mission = SCompleted) then (self, Err MissionCompleted)
      else (with_missions
              (<[ScheduledAction_mission_id action :=
                  queue_with_actions (MissionQueue_actions mission ++ [action]) mission]>
                (MissionScheduler_missions self)) self, Ok tt)
  end.

Definition active_count (self : MissionScheduler) : usize :=
  size (filter (λ p, MissionQueue_state p.2 = SActive) (MissionScheduler_missions self)).

(** The expansion of the active missions into slots. *)
Definition slots (missions : gmap MissionId MissionQueue) (mission_id : MissionId)
    : list MissionId :=
  match missions !! mission_id with
  | None => []
  | Some mission =>
      if bool_decide (MissionQueue_state mission ≠ SActive) then []
      else replicate (if MissionQueue_foreground mission then FOREGROUND_WEIGHT
                      else BACKGROUND_WEIGHT) mission_id
  end.
Definition rebuild_schedule (self : MissionScheduler) : MissionScheduler := {|
  MissionScheduler_config := MissionScheduler_config self;
  MissionScheduler_missions := MissionScheduler_missions self;
  MissionScheduler_registration_order := MissionScheduler_registration_order self;
  MissionScheduler_schedule :=
    MissionScheduler_registration_order self ≫= slots (MissionScheduler_missions self);
  MissionScheduler_cursor := 0 |}.

(** The loop of [activate_ready]. *)
Fixpoint activate_loop (order : list MissionId) (available : usize)
    (missions : gmap MissionId MissionQueue) : gmap MissionId MissionQueue :=
  match order with
  | [] => missions
  | mission_id :: rest =>
      match missions !! mission_id with
      | None => activate_loop rest available missions
      | Some mission =>
          if (0 <? available) && bool_decide (MissionQueue_state mission = SQueued)
             && negb (is_empty (MissionQueue_actions mission))
          then activate_loop rest (available - 1)
                 (<[mission_id := queue_with_state SActive mission]> missions)
          else activate_loop rest available missions
      end
  end.
Definition activate_ready (self : MissionScheduler) : MissionScheduler :=
  let available := SchedulerConfig_max_active (MissionScheduler_config self) - active_count self in
  if available =? 0 then self
  else rebuild_schedule
    (with_missions (activate_loop (MissionScheduler_registration_order self) available
                      (MissionScheduler_missions self)) self).

Definition scheduler_pause (mission_id : MissionId) (_reason : string)
    : stm MissionScheduler SchedulerError unit := λ self,
  match MissionScheduler_missions self !! mission_id with
  | None => (self, Err MissionNotRegistered)
  | Some mission =>
      if bool_decide (MissionQueue_state mission = SCompleted) then (self, Err MissionCompleted)
      else (activate_ready (rebuild_schedule (with_missions
              (<[mission_id := queue_with_state SPaused mission]>
                (MissionScheduler_missions self)) self)), Ok tt)
  end.

Definition scheduler_complete (mission_id : MissionId)
    : stm MissionScheduler SchedulerError unit := λ self,
  match MissionScheduler_missions self !! mission_id with
  | None => (self, Err MissionNotRegistered)
  | Some mission =>
      (activate_ready (rebuild_schedule (with_missions
         (<[mission_id := queue_with_state SCompleted mission]>
           (MissionScheduler_missions self)) self)), Ok tt)
  end.

Definition set_resource_reason (mission_id : MissionId) (reason : option string)
    : stm MissionScheduler SchedulerError unit := λ self,
  match MissionScheduler_missions self !! mission_id with
  | None => (self, Err MissionNotRegistered)
  | Some mission => (with_missions (<[mission_id := queue_with_reason reason mission]>
                       (MissionScheduler_missions self)) self, Ok tt)
  end.

Definition apply_resource_decision (mission_id : MissionId) (decision : ResourceDecision)
    : stm MissionScheduler SchedulerError unit :=
  match decision with
  | Proceed => set_resource_reason mission_id None
  | Throttle reason => set_resource_reason mission_id (Some reason)
  | ResourcePause reason =>
      _ ← set_resource_reason mission_id (Some reason);
      scheduler_pause mission_id reason
  end.

(** [Iterator::next].  The outer [option] of the outcome is [None] when
    [self.schedule[self.cursor]] is out of bounds (a panic). *)
Fixpoint next_loop (n : nat) (self : MissionScheduler)
    : MissionScheduler * option (option ScheduledAction) :=
  match n with
  | 0 => (self, Some None)
  | S n =>
      match MissionScheduler_schedule self !! MissionScheduler_cursor self with
      | None => (self, None)
      | Some mission_id =>
          let self := {|
            MissionScheduler_config := MissionScheduler_config self;
            MissionScheduler_missions := MissionScheduler_missions self;
            MissionScheduler_registration_order := MissionScheduler_registration_order self;
            MissionScheduler_schedule := MissionScheduler_schedule self;
            MissionScheduler_cursor :=
              (MissionScheduler_cursor self + 1) mod length (MissionScheduler_schedule self) |} in
          match MissionScheduler_missions self !! mission_id with
          | None => (self, Some None)
          | Some mission =>
              if bool_decide (MissionQueue_state mission = SActive) then
                match MissionQueue_actions mission with
                | action :: rest =>
                    (with_missions (<[mission_id := queue_with_actions rest mission]>
                       (MissionScheduler_missions self)) self, Some (Some action))
                | [] => next_loop n self
                end
              else next_loop n self
          end
      end
  end.
Definition scheduler_next (self : MissionScheduler)
    : MissionScheduler * option (option ScheduledAction) :=
  next_loop (length (MissionScheduler_schedule self)) self.

(** ** Invariant *)

(** The invariant has a part about the missions and a part about the derived
    schedule. *)
Record scheduler_core (s : MissionScheduler) : Prop := {
  sc_config : 1 ≤ SchedulerConfig_max_active (MissionScheduler_config s) ≤ 5;
  sc_order : NoDup (MissionScheduler_registration_order s);
  sc_registered : ∀ m, m ∈ MissionScheduler_registration_order s ↔
    is_Some (MissionScheduler_missions s !! m);
  sc_bound : active_count s ≤ SchedulerConfig_max_active (MissionScheduler_config s);
  sc_owner : ∀ m q a, MissionScheduler_missions s !! m = Some q →
    a ∈ MissionQueue_actions q → ScheduledAction_mission_id a = m;
}.
Record scheduler_wf (s : MissionScheduler) : Prop := {
  sw_core : scheduler_core s;
  sw_schedule : MissionScheduler_schedule s =
    MissionScheduler_registration_order s ≫= slots (MissionScheduler_missions s);
  sw_cursor : MissionScheduler_cursor s < length (MissionScheduler_schedule s) ∨
    (MissionScheduler_schedule s = [] ∧ MissionScheduler_cursor s = 0);
}.

(** ** Counting active missions *)

Definition active_of (M : gmap MissionId MissionQueue) : nat :=
  size (filter (λ p, MissionQueue_state p.2 = SActive) M).
Definition active_bit (q : MissionQueue) : nat :=
  if bool_decide (MissionQueue_state q = SActive) then 1 else 0.

Lemma active_insert_fresh M m q :
  M !! m = None → active_of (<[m:=q]> M) = active_of M + active_bit q.
Proof.
  intros Hm. unfold active_of, active_bit. case_bool_decide as Hq.
  - rewrite map_filter_insert_True by done. rewrite map_size_insert_None; [lia|].
    apply map_lookup_filter_None. by left.
  - rewrite map_filter_insert_False by done. rewrite delete_id by done. lia.
Qed.
Lemma active_insert M m q q' :
  M !! m = Some q →
  active_of (<[m:=q']> M) + active_bit q = active_of M + active_bit q'.
Proof.
  intros Hm. rewrite <-(insert_delete_id M m q Hm) at 2. rewrite <-(insert_delete_eq M m q').
  rewrite !active_insert_fresh by apply lookup_delete_eq. lia.
Qed.

(** ** Activation *)

Definition activated (q q' : MissionQueue) : Prop :=
  q' = q ∨ (MissionQueue_state q = SQueued ∧ q' = queue_with_state SActive q).

Definition ready (q : MissionQueue) : bool :=
  bool_decide (MissionQueue_state q = SQueued) && negb (is_empty (MissionQueue_actions q)).

(** One iteration of the loop either skips the mission or activates it. *)
Lemma activate_loop_cons m order available M :
  (∃ q, M !! m = Some q ∧ 0 < available ∧ ready q = true ∧
    activate_loop (m :: order) available M =
    activate_loop order (available - 1) (<[m:=queue_with_state SActive q]> M)) ∨
  ((available = 0 ∨ ∀ q, M !! m = Some q → ready q = false) ∧
   activate_loop (m :: order) available M = activate_loop order available M).
Proof.
  simpl. destruct (M !! m) as [q|] eqn:Hm; [|right; split; [by right|done]].
  destruct (_ && _) eqn:Hc.
  - left. exists q. guards. apply Nat.ltb_lt in H. unfold ready. rewrite H0, H1.
    rewrite bool_decide_eq_true_2 by done. auto.
  - right. split; [|done]. destruct available as [|n]; [by left|right].
    intros q' [= <-]. by rewrite <-andb_assoc in Hc.
Qed.
Lemma ready_queued q : ready q = true → MissionQueue_state q = SQueued.
Proof. unfold ready. intros. by guards. Qed.
Lemma active_activate M m q :
  M !! m = Some q → ready q = true →
  active_of (<[m:=queue_with_state SActive q]> M) = active_of M + 1.
Proof.
  intros Hm Hq. pose proof (active_insert M m q (queue_with_state SActive q) Hm) as H.
  unfold active_bit in H. rewrite (ready_queued q Hq) in H. simpl in H. lia.
Qed.

Lemma activate_loop_activated order : ∀ available M m,
  option_Forall2 activated (M !! m) (activate_loop order available M !! m).
Proof.
  induction order as [|m0 order IH]; intros available M m.
  { simpl. destruct (M !! m); constructor. by left. }
  destruct (activate_loop_cons m0 order available M) as [(q&Hq&_&Hr&->)|[_ ->]]; [|apply IH].
  specialize (IH (available - 1) (<[m0:=queue_with_state SActive q]> M) m).
  destruct (decide (m = m0)) as [->|Hne]; [|by rewrite lookup_insert_ne in IH].
  rewrite lookup_insert_eq in IH. rewrite Hq. inversion IH as [?? Hact|]; subst. constructor.
  right. split; [by apply ready_queued|]. by destruct Hact as [->|[? _]].
Qed.

Lemma activate_loop_count order : ∀ available M,
  active_of M ≤ active_of (activate_loop order available M) ≤ active_of M + available.
Proof.
  induction order as [|m0 order IH]; intros available M; [simpl; lia|].
  destruct (activate_loop_cons m0 order available M) as [(q&Hq&?&Hr&->)|[_ ->]]; [|apply IH].
  pose proof (IH (available - 1) (<[m0:=queue_with_state SActive q]> M)).
  rewrite (active_activate _ _ _ Hq Hr) in *. lia.
Qed.

(** The loop stops short of the available slots only when nothing is ready. *)
Lemma activate_loop_full order : ∀ available M,
  active_of (activate_loop order available M) = active_of M + available ∨
  ∀ m q, m ∈ order → activate_loop order available M !! m = Some q → ready q = false.
Proof.
  induction order as [|m0 order IH]; intros available M; [right; set_solver|].
  pose proof (activate_loop_activated (m0 :: order) available M m0) as Hact.
  destruct (activate_loop_cons m0 order available M) as [(q&Hq&?&Hr&Heq)|[Hskip Heq]];
    rewrite Heq in *.
  - destruct (IH (available - 1) (<[m0:=queue_with_state SActive q]> M)) as [Hf|Hf].
    { left. rewrite Hf, (active_activate _ _ _ Hq Hr). lia. }
    right. intros m q' [->|Hin]%elem_of_cons Hq'; [|by eapply Hf].
    pose proof (activate_loop_activated order (available - 1)
      (<[m0:=queue_with_state SActive q]> M) m0) as Hlast.
    rewrite lookup_insert_eq, Hq' in Hlast. inversion Hlast as [?? [->|[? _]]|]; by subst.
  - destruct (IH available M) as [Hf|Hf]; [by left|].
    destruct Hskip as [->|Hskip]; [left; pose proof (activate_loop_count order 0 M); lia|right].
    intros m q' [->|Hin]%elem_of_cons Hq'; [|by eapply Hf]. rewrite Hq' in Hact.
    inversion Hact as [?? [->|[? ->]]|]; subst; [by apply Hskip|done].
Qed.

(** ** Preservation *)

Lemma rebuild_wf s : scheduler_core s → scheduler_wf (rebuild_schedule s).
Proof.
  intros Hs. split; [by destruct Hs|done|]. simpl.
  destruct (_ ≫= _); simpl; [by right|left; lia].
Qed.

(** Replacing one mission's queue, without activating it. *)
Lemma update_core s m q q' :
  scheduler_core s → MissionScheduler_missions s !! m = Some q →
  active_bit q' ≤ active_bit q →
  (∀ a, a ∈ MissionQueue_actions q' → ScheduledAction_mission_id a = m) →
  scheduler_core (with_missions (<[m:=q']> (MissionScheduler_missions s)) s).
Proof.
  intros [I1 I2 I3 I4 I5] Hm Hbit Hown. split; simpl; try done.
  - intros x. rewrite I3. destruct (decide (x = m)) as [->|Hne].
    + rewrite lookup_insert_eq, Hm. by split; eauto.
    + by rewrite lookup_insert_ne.
  - pose proof (active_insert _ m q q' Hm). unfold active_count in *. simpl.
    unfold active_of in *. lia.
  - intros x y a Hx Ha. destruct (decide (x = m)) as [->|Hne].
    + rewrite lookup_insert_eq in Hx. simplify_eq. auto.
    + rewrite lookup_insert_ne in Hx by done. eauto.
Qed.

(** The slots of a schedule depend on states and weights only. *)
Lemma slots_update M m q q' (order : list MissionId) :
  M !! m = Some q → MissionQueue_state q' = MissionQueue_state q →
  MissionQueue_foreground q' = MissionQueue_foreground q →
  order ≫= slots (<[m:=q']> M) = order ≫= slots M.
Proof.
  intros Hm Hst Hfg. apply list_bind_ext; [|done]. intros x. unfold slots.
  destruct (decide (x = m)) as [->|Hne]; [|by rewrite lookup_insert_ne].
  by rewrite lookup_insert_eq, Hm, Hst, Hfg.
Qed.
Lemma update_wf s m q q' :
  scheduler_wf s → MissionScheduler_missions s !! m = Some q →
  MissionQueue_state q' = MissionQueue_state q →
  MissionQueue_foreground q' = MissionQueue_foreground q →
  (∀ a, a ∈ MissionQueue_actions q' → ScheduledAction_mission_id a = m) →
  scheduler_wf (with_missions (<[m:=q']> (MissionScheduler_missions s)) s).
Proof.
  intros [Hc Hs Hcur] Hm Hst Hfg Hown. split; [|simpl; by erewrite slots_update|done].
  eapply update_core; [done..| |done]. unfold active_bit. by rewrite Hst.
Qed.

Lemma activate_ready_wf s : scheduler_wf s → scheduler_wf (activate_ready s).
Proof.
  intros Hwf. unfold activate_ready. destruct (_ =? 0) eqn:Hav; [done|].
  apply Nat.eqb_neq in Hav. destruct Hwf as [[I1 I2 I3 I4 I5] _ _]. apply rebuild_wf.
  remember (SchedulerConfig_max_active (MissionScheduler_config s) - active_count s) as n eqn:Hn.
  set (order := MissionScheduler_registration_order s).
  pose proof (activate_loop_activated order n (MissionScheduler_missions s)) as Hrel.
  split; simpl; try done.
  - intros x. rewrite I3. specialize (Hrel x).
    destruct Hrel as [?? _|]; [split; eauto|done].
  - pose proof (activate_loop_count order n (MissionScheduler_missions s)) as Hc.
    unfold active_count in *. simpl. unfold active_of in Hc. lia.
  - intros x q a Hq Ha. specialize (Hrel x). rewrite Hq in Hrel.
    inversion Hrel as [q0 ? Hact Hq0|]; subst. apply (I5 x q0 a); [done|].
    by destruct Hact as [->|[_ ->]].
Qed.

(** ** [next] *)

Lemma slots_elem M m x :
  x ∈ slots M m ↔ x = m ∧ ∃ q, M !! m = Some q ∧ MissionQueue_state q = SActive.
Proof.
  unfold slots. destruct (M !! m) as [q|]; [|set_solver].
  case_bool_decide as Hst; [set_solver|].
  rewrite elem_of_replicate. destruct (MissionQueue_foreground q); naive_solver.
Qed.
Lemma schedule_elem s m :
  scheduler_wf s →
  m ∈ MissionScheduler_schedule s ↔
    ∃ q, MissionScheduler_missions s !! m = Some q ∧ MissionQueue_state q = SActive.
Proof.
  intros [[_ _ Hreg _ _] -> _]. rewrite list_elem_of_bind. split.
  - intros (x&Hx&_). apply slots_elem in Hx as [-> ?]. done.
  - intros (q&Hq&Hst). exists m. split; [apply slots_elem; eauto|apply Hreg; eauto].
Qed.

(** The mission whose slot is [i] places after the cursor. *)
Definition slot_at (s : MissionScheduler) (i : nat) : option MissionId :=
  MissionScheduler_schedule s !!
    ((MissionScheduler_cursor s + i) mod length (MissionScheduler_schedule s)).
Definition advance (i : nat) (s : MissionScheduler) : MissionScheduler := {|
  MissionScheduler_config := MissionScheduler_config s;
  MissionScheduler_missions := MissionScheduler_missions s;
  MissionScheduler_registration_order := MissionScheduler_registration_order s;
  MissionScheduler_schedule := MissionScheduler_schedule s;
  MissionScheduler_cursor :=
    (MissionScheduler_cursor s + i) mod length (MissionScheduler_schedule s) |}.

Lemma advance_wf i s :
  scheduler_wf s → MissionScheduler_schedule s ≠ [] → scheduler_wf (advance i s).
Proof.
  intros [[] Hs Hcur] Hne. split; [by split|done|]. simpl. left. apply Nat.mod_upper_bound.
  by destruct (MissionScheduler_schedule s).
Qed.
Lemma advance_advance i j s :
  advance i (advance j s) = advance (j + i) s.
Proof.
  unfold advance. simpl. f_equal. rewrite Nat.Div0.add_mod_idemp_l. f_equal. lia.
Qed.
Lemma slot_at_advance i j s : slot_at (advance j s) i = slot_at s (j + i).
Proof.
  unfold slot_at, advance. simpl. rewrite Nat.Div0.add_mod_idemp_l. do 2 f_equal. lia.
Qed.
Lemma advance_0 s : scheduler_wf s → advance 0 s = s.
Proof.
  intros [_ _ Hcur]. unfold advance. rewrite Nat.add_0_r. destruct s; simpl in *. f_equal.
  destruct Hcur as [?|[-> ->]]; [by apply Nat.mod_small|done].
Qed.
Lemma slot_at_0 s :
  scheduler_wf s → MissionScheduler_schedule s !! MissionScheduler_cursor s = slot_at s 0.
Proof.
  unfold slot_at. intros [_ _ [Hlt|[-> ->]]]; [|done]. by rewrite Nat.add_0_r, Nat.mod_small.
Qed.
Lemma slot_at_active s i m :
  scheduler_wf s → slot_at s i = Some m →
  ∃ q, MissionScheduler_missions s !! m = Some q ∧ MissionQueue_state q = SActive.
Proof. intros Hwf Hs. apply schedule_elem; [done|]. by eapply list_elem_of_lookup_2. Qed.
Lemma slot_at_some s i :
  scheduler_wf s → MissionScheduler_schedule s ≠ [] → is_Some (slot_at s i).
Proof.
  intros _ Hne. apply lookup_lt_is_Some, Nat.mod_upper_bound. by destruct (MissionScheduler_schedule s).
Qed.

(** Every slot is visited within one turn. *)
Lemma slot_at_covers s m :
  scheduler_wf s → m ∈ MissionScheduler_schedule s →
  ∃ i, i < length (MissionScheduler_schedule s) ∧ slot_at s i = Some m.
Proof.
  intros [_ _ Hcur] [k Hk]%list_elem_of_lookup_1. pose proof (lookup_lt_Some _ _ _ Hk) as Hlt.
  set (L := length (MissionScheduler_schedule s)) in *. set (c := MissionScheduler_cursor s) in *.
  assert (c < L) as Hc by (destruct Hcur as [?|[He _]]; [done|subst L; rewrite He in Hlt; simpl in Hlt; lia]).
  exists (if c <=? k then k - c else L + k - c). destruct (c <=? k) eqn:Hle.
  - apply Nat.leb_le in Hle. split; [lia|]. unfold slot_at. fold c L.
    replace (c + (k - c)) with k by lia. by rewrite Nat.mod_small.
  - apply Nat.leb_gt in Hle. split; [lia|]. unfold slot_at. fold c L.
    replace (c + (L + k - c)) with (k + 1 * L) by lia.
    by rewrite Nat.Div0.mod_add, Nat.mod_small.
Qed.

Definition queue_of (s : MissionScheduler) (m : MissionId) : list ScheduledAction :=
  match MissionScheduler_missions s !! m with Some q => MissionQueue_actions q | None => [] end.

(** [pop m s]: the head of [m]'s queue removed. *)
Definition pop (m : MissionId) (s : MissionScheduler) : MissionScheduler :=
  match MissionScheduler_missions s !! m with
  | Some q => with_missions (<[m := queue_with_actions (tail (MissionQueue_actions q)) q]>
                (MissionScheduler_missions s)) s
  | None => s
  end.

Lemma next_loop_spec n : ∀ s, scheduler_wf s → MissionScheduler_schedule s ≠ [] →
  (∃ i m a, i < n ∧ slot_at s i = Some m ∧ head (queue_of s m) = Some a ∧
    (∀ j x, j < i → slot_at s j = Some x → queue_of s x = []) ∧
    next_loop n s = (pop m (advance (i + 1) s), Some (Some a))) ∨
  ((∀ j x, j < n → slot_at s j = Some x → queue_of s x = []) ∧
    next_loop n s = (advance n s, Some None)).
Proof.
  induction n as [|n IH]; intros s Hwf Hne.
  { right. simpl. split; [lia|by rewrite advance_0]. }
  destruct (slot_at_some s 0 Hwf Hne) as [m Hm]. simpl. rewrite (slot_at_0 s Hwf), Hm.
  destruct (slot_at_active s 0 m Hwf Hm) as (q&Hq&Hst). rewrite Hq.
  rewrite bool_decide_eq_true_2 by done. fold (advance 1 s).
  destruct (MissionQueue_actions q) as [|a rest] eqn:Ha.
  - destruct (IH (advance 1 s) (advance_wf 1 s Hwf Hne) Hne)
      as [(i&x&b&Hi&Hx&Hb&Hskip&Hn)|(Hskip&Hn)].
    + left. exists (S i), x, b. rewrite slot_at_advance in Hx.
      split_and!; [lia|done|done| |].
      * intros [|j] y Hj Hy; [|apply (Hskip j); [lia|by rewrite slot_at_advance]].
        unfold queue_of. by simplify_eq; rewrite Hq.
      * rewrite Hn, advance_advance. done.
    + right. split; [|by rewrite Hn, advance_advance].
      intros [|j] y Hj Hy; [|apply (Hskip j); [lia|by rewrite slot_at_advance]].
      unfold queue_of. by simplify_eq; rewrite Hq.
  - left. exists 0, m, a. split_and!; [lia|done| |lia|].
    + unfold queue_of. by rewrite Hq, Ha.
    + unfold pop. simpl. by rewrite Hq, Ha.
Qed.

Lemma queue_head s m a :
  head (queue_of s m) = Some a →
  ∃ q, MissionScheduler_missions s !! m = Some q ∧ MissionQueue_actions q = a :: tail (queue_of s m).
Proof.
  unfold queue_of. destruct (MissionScheduler_missions s !! m) as [q|]; [|done].
  destruct (MissionQueue_actions q) as [|b r] eqn:Ha; [done|]. intros [= ->]. eauto.
Qed.
Lemma pop_wf s m : scheduler_wf s → scheduler_wf (pop m s).
Proof.
  intros Hwf. unfold pop. destruct (_ !! m) as [q|] eqn:Hq; [|done].
  apply (update_wf _ _ q); [done..|]. simpl. intros a Ha.
  destruct Hwf as [[_ _ _ _ Hown] _ _]. apply (Hown m q a Hq).
  destruct (MissionQueue_actions q); [done|by right].
Qed.
Lemma pop_queue s m x : queue_of (pop m s) x = if decide (x = m) then tail (queue_of s m) else queue_of s x.
Proof.
  unfold pop. destruct (_ !! m) as [q|] eqn:Hq.
  - unfold queue_of. simpl. case_decide as Hx.
    + subst. by rewrite lookup_insert_eq, Hq.
    + by rewrite lookup_insert_ne.
  - case_decide; [subst|done]. unfold queue_of. by rewrite Hq.
Qed.

(** What one call to [next] does: no index is out of bounds; the action
    dispatched is the head of an active mission's queue; and nothing is
    dispatched only when no active mission has an action. *)
Lemma next_spec s s' r :
  scheduler_wf s → scheduler_next s = (s', r) →
  scheduler_wf s' ∧
  ((∃ m q a i, r = Some (Some a) ∧ MissionScheduler_missions s !! m = Some q ∧
      MissionQueue_state q = SActive ∧ head (MissionQueue_actions q) = Some a ∧
      ScheduledAction_mission_id a = m ∧ s' = pop m (advance i s)) ∨
   (r = Some None ∧ (∃ i, s' = advance i s) ∧
    ∀ m q, MissionScheduler_missions s !! m = Some q → MissionQueue_state q = SActive →
      MissionQueue_actions q = [])).
Proof.
  intros Hwf. unfold scheduler_next. pose proof Hwf as [[_ _ _ _ Hown] _ _].
  destruct (decide (MissionScheduler_schedule s = [])) as [He|Hne].
  - rewrite He. simpl. intros [= <- <-]. split; [done|right]. split; [done|].
    split; [exists 0; by rewrite advance_0|]. intros m q Hq Hst.
    assert (m ∈ MissionScheduler_schedule s) as Hin by (apply schedule_elem; eauto).
    rewrite He in Hin. by apply elem_of_nil in Hin.
  - destruct (next_loop_spec (length (MissionScheduler_schedule s)) s Hwf Hne)
      as [(i&m&a&Hi&Hm&Ha&_&->)|(Hall&->)]; intros [= <- <-].
    + split; [by apply pop_wf, advance_wf|]. left.
      destruct (slot_at_active s i m Hwf Hm) as (q&Hq&Hst).
      assert (head (MissionQueue_actions q) = Some a) as Hh
        by (unfold queue_of in Ha; by rewrite Hq in Ha).
      exists m, q, a, (i + 1). split_and!; try done. apply (Hown m q a Hq).
      destruct (MissionQueue_actions q); simpl in Hh; simplify_eq. by left.
    + split; [by apply advance_wf|]. right. split; [done|]. split; [eauto|].
      intros m q Hq Hst. destruct (slot_at_covers s m Hwf) as (i&Hi&Hs).
      { apply schedule_elem; eauto. }
      specialize (Hall i m Hi Hs). unfold queue_of in Hall. by rewrite Hq in Hall.
Qed.

(** ** Histories *)

Inductive scheduler_call :=
| SRegister (mission_id : MissionId) (foreground : bool)
| SEnqueue (action : ScheduledAction) (authorization : ActionAuthorization)
| SActivateReady
| SPause (mission_id : MissionId) (reason : string)
| SComplete (mission_id : MissionId)
| SResource (mission_id : MissionId) (decision : ResourceDecision)
| SNext.

(** A step also reports the action it accepted and the action it dispatched. *)
Definition scheduler_step (c : scheduler_call) (s : MissionScheduler)
    : MissionScheduler * list ScheduledAction * list ScheduledAction :=
  match c with
  | SRegister m f => ((scheduler_register m f s).1, [], [])
  | SEnqueue a auth =>
      let '(s', r) := scheduler_enqueue a auth s in (s', if is_ok r then [a] else [], [])
  | SActivateReady => (activate_ready s, [], [])
  | SPause m r => ((scheduler_pause m r s).1, [], [])
  | SComplete m => ((scheduler_complete m s).1, [], [])
  | SResource m d => ((apply_resource_decision m d s).1, [], [])
  | SNext =>
      let '(s', r) := scheduler_next s in
      (s', [], match r with Some (Some a) => [a] | _ => [] end)
  end.

(** [scheduler_run s0 accepted dispatched s]. *)
Inductive scheduler_run (s0 : MissionScheduler)
    : list ScheduledAction → list ScheduledAction → MissionScheduler → Prop :=
| srun_nil : scheduler_run s0 [] [] s0
| srun_call acc disp s c s' a d :
    scheduler_run s0 acc disp s → scheduler_step c s = (s', a, d) →
    scheduler_run s0 (acc ++ a) (disp ++ d) s'.

Lemma new_wf cfg s : MissionScheduler_new cfg = Ok s → scheduler_wf s.
Proof.
  unfold MissionScheduler_new. intros H. bind_inv H. injection H as <-.
  unfold SchedulerConfig_new in H0. destruct (negb _) eqn:Hc; [done|]. guards.
  apply Nat.leb_le in H, H1. split; simpl; [|done|by right]. split; simpl; try done.
  - constructor.
  - intros m. rewrite lookup_empty, is_Some_alt. set_solver.
  - unfold active_count. simpl. rewrite map_filter_empty, map_size_empty. lia.
Qed.

Lemma update_state_wf s m q st :
  scheduler_wf s → MissionScheduler_missions s !! m = Some q → st ≠ SActive →
  scheduler_wf (rebuild_schedule (with_missions
    (<[m := queue_with_state st q]> (MissionScheduler_missions s)) s)).
Proof.
  intros Hwf Hq Hst. pose proof (sw_core _ Hwf) as Hc. apply rebuild_wf.
  apply (update_core _ _ q); [done..| |].
  - unfold active_bit. simpl. rewrite (bool_decide_eq_false_2 (st = _)) by done. lia.
  - intros a. apply (sc_owner _ Hc m q a Hq).
Qed.
Lemma update_reason_wf s m q r :
  scheduler_wf s → MissionScheduler_missions s !! m = Some q →
  scheduler_wf (with_missions (<[m := queue_with_reason r q]> (MissionScheduler_missions s)) s).
Proof.
  intros Hwf Hq. apply (update_wf _ _ q); [done..|]. intros a.
  apply (sc_owner _ (sw_core _ Hwf) m q a Hq).
Qed.

Lemma register_wf s m f : scheduler_wf s → scheduler_wf (scheduler_register m f s).1.
Proof.
  intros Hwf. unfold scheduler_register. destruct (_ !! m) as [q|] eqn:Hm; [done|]. simpl.
  destruct Hwf as [[I1 I2 I3 I4 I5] Hs Hcur].
  assert (m ∉ MissionScheduler_registration_order s) as Hfresh.
  { intros [q Hq]%I3. congruence. }
  split; [split|..]; simpl; try done.
  - apply NoDup_app. split_and!; [done|set_solver|apply NoDup_singleton].
  - intros x. rewrite elem_of_app, list_elem_of_singleton, I3.
    destruct (decide (x = m)) as [->|Hne]; [rewrite lookup_insert_eq; split; eauto|].
    rewrite lookup_insert_ne by done. naive_solver.
  - pose proof (active_insert_fresh _ m {| MissionQueue_state := SQueued;
      MissionQueue_foreground := f; MissionQueue_actions := [];
      MissionQueue_resource_reason := None |} Hm) as Hc.
    unfold active_count in *. simpl. unfold active_of in Hc. rewrite Hc.
    unfold active_bit. simpl. lia.
  - intros x q a. destruct (decide (x = m)) as [->|Hne].
    + rewrite lookup_insert_eq. intros [= <-]. simpl. by intros ?%elem_of_nil.
    + rewrite lookup_insert_ne by done. apply I5.
  - rewrite bind_app, Hs. simpl. unfold slots at 3. rewrite lookup_insert_eq. simpl.
    rewrite !app_nil_r. apply bind_ext_elem. intros x Hx. unfold slots.
    rewrite lookup_insert_ne; [done|]. by intros <-.
Qed.
Lemma enqueue_wf s a auth : scheduler_wf s → scheduler_wf (scheduler_enqueue a auth s).1.
Proof.
  intros Hwf. unfold scheduler_enqueue. case_bool_decide; [done|].
  destruct (_ !! _) as [q|] eqn:Hm; [|done]. case_bool_decide; [done|]. simpl.
  apply (update_wf _ _ q); [done..|]. simpl. intros b. rewrite elem_of_app, list_elem_of_singleton.
  intros [Hb| ->]; [|done]. by apply (sc_owner _ (sw_core _ Hwf) _ q b).
Qed.
Lemma pause_wf s m r : scheduler_wf s → scheduler_wf (scheduler_pause m r s).1.
Proof.
  intros Hwf. unfold scheduler_pause. destruct (_ !! m) as [q|] eqn:Hm; [|done].
  case_bool_decide; [done|]. by apply activate_ready_wf, update_state_wf.
Qed.
Lemma complete_wf s m : scheduler_wf s → scheduler_wf (scheduler_complete m s).1.
Proof.
  intros Hwf. unfold scheduler_complete. destruct (_ !! m) as [q|] eqn:Hm; [|done].
  by apply activate_ready_wf, update_state_wf.
Qed.
Lemma reason_wf s m r : scheduler_wf s → scheduler_wf (set_resource_reason m r s).1.
Proof.
  intros Hwf. unfold set_resource_reason. destruct (_ !! m) as [q|] eqn:Hm; [|done].
  by apply update_reason_wf.
Qed.
Lemma resource_wf s m d : scheduler_wf s → scheduler_wf (apply_resource_decision m d s).1.
Proof.
  intros Hwf. destruct d as [|r|r]; simpl; [by apply reason_wf..|].
  unfold mbind, stm_bind. pose proof (reason_wf s m (Some r) Hwf) as Hr.
  destruct (set_resource_reason m (Some r) s) as [s' [[]|e]]; [|done]. by apply pause_wf.
Qed.
#[export] Hint Resolve register_wf enqueue_wf activate_ready_wf pause_wf complete_wf resource_wf
  : mission.

Lemma step_wf c s s' a d : scheduler_wf s → scheduler_step c s = (s', a, d) → scheduler_wf s'.
Proof.
  intros Hwf. destruct c; simpl; try (intros [= <- <- <-]; by auto with mission).
  - pose proof (enqueue_wf s action authorization Hwf) as He.
    destruct (scheduler_enqueue _ _ _). by intros [= <- <- <-].
  - destruct (scheduler_next s) as [s1 r] eqn:Hn. intros [= <- <- <-].
    by apply (next_spec _ _ _ Hwf Hn).
Qed.
Lemma run_wf s0 acc disp s : scheduler_wf s0 → scheduler_run s0 acc disp s → scheduler_wf s.
Proof. intros H0. induction 1; eauto using step_wf. Qed.

(** ** Conservation of actions *)

Definition of_mission (m : MissionId) (l : list ScheduledAction) : list ScheduledAction :=
  filter (λ a, ScheduledAction_mission_id a = m) l.
Lemma of_mission_app m l k : of_mission m (l ++ k) = of_mission m l ++ of_mission m k.
Proof. apply filter_app. Qed.

Lemma queue_update_state s m q st x :
  MissionScheduler_missions s !! m = Some q →
  queue_of (with_missions (<[m := queue_with_state st q]> (MissionScheduler_missions s)) s) x
  = queue_of s x.
Proof.
  intros Hq. unfold queue_of. simpl. destruct (decide (x = m)) as [->|];
    [by rewrite lookup_insert_eq, Hq|by rewrite lookup_insert_ne].
Qed.
Lemma queue_rebuild s x : queue_of (rebuild_schedule s) x = queue_of s x.
Proof. done. Qed.
Lemma queue_activate s x : queue_of (activate_ready s) x = queue_of s x.
Proof.
  unfold activate_ready. destruct (_ =? 0); [done|]. unfold queue_of. simpl.
  destruct (activate_loop_activated (MissionScheduler_registration_order s)
    (SchedulerConfig_max_active (MissionScheduler_config s) - active_count s)
    (MissionScheduler_missions s) x) as [?? [->|[_ ->]]|]; done.
Qed.
Lemma queue_register s m f x : queue_of (scheduler_register m f s).1 x = queue_of s x.
Proof.
  unfold scheduler_register. destruct (_ !! m) as [q|] eqn:Hm; [done|]. unfold queue_of. simpl.
  destruct (decide (x = m)) as [->|]; [by rewrite lookup_insert_eq, Hm|by rewrite lookup_insert_ne].
Qed.
Lemma queue_pause s m r x : queue_of (scheduler_pause m r s).1 x = queue_of s x.
Proof.
  unfold scheduler_pause. destruct (_ !! m) as [q|] eqn:Hm; [|done]. case_bool_decide; [done|].
  simpl. by rewrite queue_activate, queue_rebuild, queue_update_state.
Qed.
Lemma queue_complete s m x : queue_of (scheduler_complete m s).1 x = queue_of s x.
Proof.
  unfold scheduler_complete. destruct (_ !! m) as [q|] eqn:Hm; [|done].
  simpl. by rewrite queue_activate, queue_rebuild, queue_update_state.
Qed.
Lemma queue_reason s m r x : queue_of (set_resource_reason m r s).1 x = queue_of s x.
Proof.
  unfold set_resource_reason. destruct (_ !! m) as [q|] eqn:Hm; [|done].
  unfold queue_of. simpl. destruct (decide (x = m)) as [->|];
    [by rewrite lookup_insert_eq, Hm|by rewrite lookup_insert_ne].
Qed.
Lemma queue_resource s m d x : queue_of (apply_resource_decision m d s).1 x = queue_of s x.
Proof.
  destruct d as [|r|r]; simpl; [apply queue_reason..|]. unfold mbind, stm_bind.
  pose proof (queue_reason s m (Some r) x) as Hr.
  destruct (set_resource_reason m (Some r) s) as [s' [[]|e]]; simpl in Hr; [|done].
  by rewrite queue_pause.
Qed.
Lemma queue_enqueue s a auth s' r x :
  scheduler_enqueue a auth s = (s', r) →
  queue_of s' x = queue_of s x ++ of_mission x (if is_ok r then [a] else []).
Proof.
  unfold scheduler_enqueue. case_bool_decide; [intros [= <- <-]; by rewrite app_nil_r|].
  destruct (_ !! _) as [q|] eqn:Hm; [|intros [= <- <-]; by rewrite app_nil_r].
  case_bool_decide; [intros [= <- <-]; by rewrite app_nil_r|]. intros [= <- <-].
  unfold queue_of, of_mission. simpl. rewrite filter_cons, filter_nil.
  case_decide as Hx; [subst; by rewrite lookup_insert_eq, Hm|].
  by rewrite lookup_insert_ne, app_nil_r by done.
Qed.
Lemma queue_next s s' r x :
  scheduler_wf s → scheduler_next s = (s', r) →
  queue_of s x = of_mission x (match r with Some (Some a) => [a] | _ => [] end) ++ queue_of s' x.
Proof.
  intros Hwf Hn. destruct (next_spec _ _ _ Hwf Hn) as [_ [(m&q&a&i&->&Hq&_&Ha&Hid&->)|(->&[i ->]&_)]].
  - unfold of_mission. rewrite filter_cons, filter_nil, Hid, pop_queue.
    unfold queue_of. simpl. destruct (decide (m = x)) as [->|Hne].
    + rewrite decide_True, Hq by done. by destruct (MissionQueue_actions q); simplify_eq/=.
    + by rewrite decide_False by done.
  - done.
Qed.

(** No action is lost, duplicated, reordered within its mission or
    invented: along any sequence of calls, the actions of a mission that were
    accepted are exactly those dispatched, in the same order, followed by
    those still queued; and only authorized actions are accepted. *)
Theorem scheduler_conserves_actions cfg s0 accepted dispatched s :
  MissionScheduler_new cfg = Ok s0 → scheduler_run s0 accepted dispatched s →
  (∀ m, of_mission m accepted = of_mission m dispatched ++ queue_of s m) ∧
  (∀ a, (scheduler_enqueue a AuthDenied s).2 = Err ActionNotApproved).
Proof.
  intros Hnew Hrun. split; [|done]. pose proof (new_wf _ _ Hnew) as Hwf0.
  induction Hrun as [|acc disp s c s' a d Hrun IH Hs]; intros m.
  - unfold MissionScheduler_new in Hnew. bind_inv Hnew. injection Hnew as <-.
    unfold queue_of. simpl. by rewrite lookup_empty.
  - rewrite !of_mission_app, IH. pose proof (run_wf _ _ _ _ Hwf0 Hrun) as Hwf.
    destruct c; simpl in Hs; [| | | | | |]; simplify_eq; rewrite ?app_nil_r.
    + by rewrite queue_register.
    + destruct (scheduler_enqueue action authorization s) as [s1 r] eqn:He. simplify_eq.
      rewrite app_nil_r, (queue_enqueue _ _ _ _ _ m He). by rewrite app_assoc.
    + by rewrite queue_activate.
    + by rewrite queue_pause.
    + by rewrite queue_complete.
    + by rewrite queue_resource.
    + destruct (scheduler_next s) as [s1 r] eqn:Hn. simplify_eq.
      by rewrite app_nil_r, (queue_next _ _ _ m Hwf Hn), app_assoc.
Qed.

(** C7: in every reachable scheduler at most [max_active] missions (between 1
    and 5) are active, the schedule is exactly three slots per active
    foreground and one per active background mission in registration order,
    the cursor is inside it, so [next] never indexes out of bounds; [next]
    yields an action exactly when some active mission has one queued, and the
    action is the head of the queue of an active mission. *)
Theorem scheduler_safe_and_live cfg s0 accepted dispatched s s' r :
  MissionScheduler_new cfg = Ok s0 → scheduler_run s0 accepted dispatched s →
  scheduler_next s = (s', r) →
  scheduler_wf s ∧
  (r = Some None ↔ ∀ m q, MissionScheduler_missions s !! m = Some q →
    MissionQueue_state q = SActive → MissionQueue_actions q = []) ∧
  (r ≠ Some None → ∃ m q a, r = Some (Some a) ∧ MissionScheduler_missions s !! m = Some q ∧
    MissionQueue_state q = SActive ∧ head (MissionQueue_actions q) = Some a ∧
    ScheduledAction_mission_id a = m).
Proof.
  intros Hnew Hrun Hn. pose proof (run_wf _ _ _ _ (new_wf _ _ Hnew) Hrun) as Hwf.
  split; [done|].
  destruct (next_spec _ _ _ Hwf Hn) as [_ [(m&q&a&i&->&Hq&Hst&Ha&Hid&_)|(->&_&Hall)]].
  - split; [|intros _; by exists m, q, a]. split; [done|]. intros Hall.
    rewrite (Hall m q Hq Hst) in Ha. done.
  - done.
Qed.

(** ** Weighted fairness *)

Definition weight (s : MissionScheduler) (m : MissionId) : nat :=
  length (slots (MissionScheduler_missions s) m).
Definition count (m : MissionId) (l : list MissionId) : nat := length (filter (m =.) l).

Fixpoint next_n (n : nat) (s : MissionScheduler) : MissionScheduler * list ScheduledAction :=
  match n with
  | 0 => (s, [])
  | S n =>
      let '(s, r) := scheduler_next s in
      let '(s', l) := next_n n s in
      (s', match r with Some (Some a) => a :: l | _ => l end)
  end.

(** When the slot under the cursor has work, [next] takes it. *)
Lemma next_head s m a :
  scheduler_wf s → slot_at s 0 = Some m → head (queue_of s m) = Some a →
  scheduler_next s = (pop m (advance 1 s), Some (Some a)).
Proof.
  intros Hwf Hm Ha. assert (MissionScheduler_schedule s ≠ []) as Hne.
  { intros He. unfold slot_at in Hm. rewrite He in Hm. done. }
  unfold scheduler_next.
  destruct (next_loop_spec (length (MissionScheduler_schedule s)) s Hwf Hne)
    as [(i&x&b&_&Hx&Hb&Hskip&->)|(Hall&_)].
  - destruct i as [|i]; [by simplify_eq|]. rewrite (Hskip 0 m) in Ha; [done|lia|done].
  - rewrite (Hall 0 m) in Ha; [done| |done].
    destruct (MissionScheduler_schedule s); [done|simpl; lia].
Qed.

Lemma pop_slot_at m s i : slot_at (pop m s) i = slot_at s i.
Proof. unfold pop. by destruct (_ !! m). Qed.

(** The next [length ws] dispatches follow the slots [ws] ahead of the cursor,
    as long as every mission has enough work for its slots. *)
Lemma next_n_follows ws : ∀ s, scheduler_wf s →
  (∀ i, i < length ws → slot_at s i = ws !! i) →
  (∀ m, count m ws ≤ length (queue_of s m)) →
  ScheduledAction_mission_id <$> (next_n (length ws) s).2 = ws.
Proof.
  induction ws as [|w ws IH]; intros s Hwf Hslots Hwork; [done|].
  pose proof (Hslots 0 ltac:(simpl; lia)) as Hw. simpl in Hw.
  assert (MissionScheduler_schedule s ≠ []) as Hne.
  { intros He. unfold slot_at in Hw. rewrite He in Hw. done. }
  pose proof (Hwork w) as Hww. unfold count in Hww. rewrite filter_cons_True in Hww by done.
  destruct (queue_of s w) as [|a rest] eqn:Hq; [simpl in Hww; lia|].
  cbn [length next_n]. rewrite (next_head s w a Hwf Hw) by (by rewrite Hq).
  specialize (IH (pop w (advance 1 s)) (pop_wf _ _ (advance_wf 1 s Hwf Hne))).
  destruct (next_n (length ws) (pop w (advance 1 s))) as [s' l]. simpl in *.
  assert (ScheduledAction_mission_id a = w) as ->.
  { destruct (queue_head s w a) as (q&Hmq&Hqa); [by rewrite Hq|].
    apply (sc_owner _ (sw_core _ Hwf) w q a Hmq). rewrite Hqa. by left. }
  f_equal. apply IH.
  - intros i Hi. rewrite pop_slot_at, slot_at_advance. apply (Hslots (S i)). simpl. lia.
  - intros m. rewrite pop_queue. specialize (Hwork m). unfold count in *.
    change (queue_of (advance 1 s)) with (queue_of s).
    destruct (decide (m = w)) as [->|Hmw].
    + rewrite filter_cons_True in Hwork by done. rewrite Hq in *. simpl in *. lia.
    + by rewrite filter_cons_False in Hwork by done.
Qed.

(** One turn of the schedule from the cursor. *)
Definition turn (s : MissionScheduler) : list MissionId :=
  drop (MissionScheduler_cursor s) (MissionScheduler_schedule s)
  ++ take (MissionScheduler_cursor s) (MissionScheduler_schedule s).

Lemma turn_slots s i :
  scheduler_wf s → i < length (turn s) → slot_at s i = turn s !! i.
Proof.
  intros Hwf. destruct Hwf as [_ _ Hcur]. unfold turn, slot_at.
  set (l := MissionScheduler_schedule s) in *. set (c := MissionScheduler_cursor s) in *.
  rewrite length_app, length_drop, length_take. intros Hi.
  assert (c < length l) as Hc by (destruct Hcur as [?|[-> _]]; [done|simpl in *; lia]).
  destruct (decide (i < length l - c)) as [Hlt|Hge].
  - rewrite lookup_app_l by (rewrite length_drop; lia). rewrite lookup_drop, Nat.mod_small by lia.
    done.
  - rewrite lookup_app_r by (rewrite length_drop; lia). rewrite length_drop.
    rewrite lookup_take_lt by lia. f_equal.
    replace (c + i) with ((i - (length l - c)) + 1 * length l) by lia.
    rewrite Nat.Div0.mod_add, Nat.mod_small; lia.
Qed.

Lemma count_none m l : m ∉ l → count m l = 0.
Proof.
  unfold count. induction l as [|x l IH]; intros Hm; [done|].
  rewrite filter_cons_False by set_solver. apply IH. set_solver.
Qed.
Lemma count_slots M m : count m (slots M m) = length (slots M m).
Proof.
  unfold slots. destruct (M !! m) as [q|]; [|done]. case_bool_decide; [done|].
  unfold count, FOREGROUND_WEIGHT, BACKGROUND_WEIGHT.
  destruct (MissionQueue_foreground q); cbn [replicate]; by rewrite !filter_cons_True by done.
Qed.
Lemma count_app m l k : count m (l ++ k) = count m l + count m k.
Proof. unfold count. by rewrite filter_app, length_app. Qed.

Lemma count_bind_slots M m order :
  NoDup order → count m (order ≫= slots M) = if decide (m ∈ order) then length (slots M m) else 0.
Proof.
  induction order as [|x order IH]; intros Hnd; [done|].
  apply NoDup_cons in Hnd as [Hx Hnd]. csimpl. rewrite count_app, IH by done.
  destruct (decide (x = m)) as [->|Hne].
  - rewrite (decide_True (P := m ∈ m :: order)) by (by left).
    rewrite (decide_False (P := m ∈ order)) by done. rewrite Nat.add_0_r. apply count_slots.
  - rewrite count_none by (intros [? _]%slots_elem; congruence).
    destruct (decide (m ∈ order)); [rewrite decide_True by (by right)|
      rewrite decide_False by (intros [?|?]%elem_of_cons; congruence)]; done.
Qed.

(** One turn is weighted fair.  From any reachable scheduler in which
    every active mission has enough actions queued for its slots, as many
    calls to [next] as the schedule has slots dispatch exactly three actions
    of each active foreground mission, one of each active background mission
    and none of any other, in slot order. *)
Theorem scheduler_weighted_turn cfg s0 accepted dispatched s :
  MissionScheduler_new cfg = Ok s0 → scheduler_run s0 accepted dispatched s →
  (∀ m, weight s m ≤ length (queue_of s m)) →
  let out := (next_n (length (MissionScheduler_schedule s)) s).2 in
  ScheduledAction_mission_id <$> out = turn s ∧
  ∀ m, length (of_mission m out) =
    match MissionScheduler_missions s !! m with
    | Some q => if bool_decide (MissionQueue_state q = SActive)
                then (if MissionQueue_foreground q then 3 else 1) else 0
    | None => 0
    end.
Proof.
  intros Hnew Hrun Hwork out. pose proof (run_wf _ _ _ _ (new_wf _ _ Hnew) Hrun) as Hwf.
  assert (length (MissionScheduler_schedule s) = length (turn s)) as Hlen.
  { unfold turn. rewrite length_app, length_drop, length_take.
    destruct Hwf as [_ _ [?|[-> _]]]; simpl; lia. }
  assert (∀ m, count m (turn s) = weight s m) as Hcount.
  { intros m. unfold turn. transitivity (count m (MissionScheduler_schedule s)).
    - by rewrite count_app, Nat.add_comm, <-count_app, take_drop.
    - destruct Hwf as [[_ Hnd Hreg _ _] -> _]. rewrite count_bind_slots by done.
      unfold weight. case_decide as Hin; [done|]. unfold slots.
      destruct (_ !! m) eqn:Hm; [|done]. destruct Hin. apply Hreg. eauto. }
  assert (ScheduledAction_mission_id <$> out = turn s) as Hout.
  { subst out. rewrite Hlen. apply next_n_follows; [done| |].
    - intros i. by apply turn_slots.
    - intros m. rewrite Hcount. apply Hwork. }
  split; [done|]. intros m. transitivity (count m (ScheduledAction_mission_id <$> out)).
  - unfold of_mission, count. clear. induction out as [|a l IH]; [done|]. csimpl.
    rewrite !filter_cons. repeat case_decide; simpl; congruence.
  - rewrite Hout, Hcount. unfold weight, slots. destruct (_ !! m) as [q|]; [|done].
    case_bool_decide; case_bool_decide; try done. rewrite length_replicate.
    by destruct (MissionQueue_foreground q).
Qed.

(** Activation leaves no slot idle: after [activate_ready] on a reachable
    scheduler either [max_active] missions are active or no queued mission
    has an action. *)
Theorem activation_work_conserving cfg s0 accepted dispatched s :
  MissionScheduler_new cfg = Ok s0 → scheduler_run s0 accepted dispatched s →
  active_count (activate_ready s) = SchedulerConfig_max_active (MissionScheduler_config s) ∨
  ∀ m q, MissionScheduler_missions (activate_ready s) !! m = Some q →
    MissionQueue_state q = SQueued → MissionQueue_actions q = [].
Proof.
  intros Hnew Hrun. pose proof (run_wf _ _ _ _ (new_wf _ _ Hnew) Hrun) as [[_ _ Hreg Hb _] _ _].
  unfold activate_ready. destruct (_ =? 0) eqn:Hav; [apply Nat.eqb_eq in Hav; left; lia|].
  apply Nat.eqb_neq in Hav.
  destruct (activate_loop_full (MissionScheduler_registration_order s)
    (SchedulerConfig_max_active (MissionScheduler_config s) - active_count s)
    (MissionScheduler_missions s)) as [Hf|Hf].
  - left. unfold active_count in *. simpl. unfold active_of in Hf. lia.
  - right. simpl. intros m q Hq Hst. assert (m ∈ MissionScheduler_registration_order s) as Hin.
    { apply Hreg. pose proof (activate_loop_activated (MissionScheduler_registration_order s)
        (SchedulerConfig_max_active (MissionScheduler_config s) - active_count s)
        (MissionScheduler_missions s) m) as Hr. rewrite Hq in Hr. inversion Hr. eauto. }
    specialize (Hf m q Hin Hq). unfold ready in Hf. rewrite Hst in Hf. simpl in Hf.
    by destruct (MissionQueue_actions q).
Qed.

(** ** A concrete run: a foreground and a background mission *)
Definition ex_action (m : MissionId) (id : string) : ScheduledAction := {|
  ScheduledAction_mission_id := m; ScheduledAction_action_id := id;
  ScheduledAction_cwd := "/w"; ScheduledAction_env := ∅;
  ScheduledAction_stdout_channel := "out" |}.
Definition ex_fg : list ScheduledAction := [ex_action 1 "a"; ex_action 1 "b"; ex_action 1 "c"].
Definition ex_bg : list ScheduledAction := [ex_action 2 "d"].
Definition ex_empty : MissionScheduler := {|
  MissionScheduler_config := SchedulerConfig_default; MissionScheduler_missions := ∅;
  MissionScheduler_registration_order := []; MissionScheduler_schedule := [];
  MissionScheduler_cursor := 0 |}.
Definition ex_sched_calls : list scheduler_call :=
  [SRegister 1%N true; SRegister 2%N false] ++
  ((λ a, SEnqueue a PolicyAllowed) <$> ex_fg ++ ex_bg) ++ [SActivateReady].
(** Runs computed by folding the step function. *)
Definition run_calls (s0 : MissionScheduler) (calls : list scheduler_call)
    : MissionScheduler * list ScheduledAction * list ScheduledAction :=
  foldl (λ st c, let '(s', a, d) := scheduler_step c st.1.1 in
                 (s', st.1.2 ++ a, st.2 ++ d)) (s0, [], []) calls.
Lemma run_calls_run s0 calls :
  scheduler_run s0 (run_calls s0 calls).1.2 (run_calls s0 calls).2 (run_calls s0 calls).1.1.
Proof.
  induction calls as [|c calls IH] using rev_ind; [apply srun_nil|].
  unfold run_calls. rewrite foldl_app. simpl. fold (run_calls s0 calls).
  destruct (scheduler_step c _) as [[s' a] d] eqn:Hs. simpl. by eapply srun_call.
Qed.

Definition ex_loaded : MissionScheduler := (run_calls ex_empty ex_sched_calls).1.1.
Lemma ex_sched_run : scheduler_run ex_empty (ex_fg ++ ex_bg) [] ex_loaded.
Proof. exact (run_calls_run ex_empty ex_sched_calls). Qed.

Lemma scheduler_conserves_actions_witness : queue_of ex_loaded 1%N = ex_fg.
Proof.
  destruct (scheduler_conserves_actions SchedulerConfig_default ex_empty (ex_fg ++ ex_bg) []
    ex_loaded eq_refl ex_sched_run) as [H _].
  specialize (H 1%N). simpl in H. symmetry. exact H.
Defined.
Lemma scheduler_safe_and_live_witness :
  (scheduler_next ex_loaded).2 ≠ Some None ∧ scheduler_wf ex_loaded.
Proof.
  split; [by vm_compute|].
  apply (scheduler_safe_and_live SchedulerConfig_default ex_empty (ex_fg ++ ex_bg) [] ex_loaded
    (scheduler_next ex_loaded).1 (scheduler_next ex_loaded).2);
    [reflexivity|apply ex_sched_run|apply surjective_pairing].
Defined.
Lemma ex_enough m : weight ex_loaded m ≤ length (queue_of ex_loaded m).
Proof.
  assert (map_Forall (λ m q, weight ex_loaded m ≤ length (MissionQueue_actions q))
    (MissionScheduler_missions ex_loaded)) as Hall.
  { apply (bool_decide_eq_true_1 _). vm_compute. reflexivity. }
  unfold queue_of. destruct (MissionScheduler_missions ex_loaded !! m) as [q|] eqn:Hq.
  - by apply (Hall m q).
  - unfold weight, slots. by rewrite Hq.
Qed.
Lemma scheduler_weighted_turn_witness :
  ScheduledAction_mission_id <$> (next_n 4 ex_loaded).2 = [1; 1; 1; 2]%N.
Proof.
  exact (proj1 (scheduler_weighted_turn SchedulerConfig_default ex_empty (ex_fg ++ ex_bg) []
    ex_loaded eq_refl ex_sched_run ex_enough)).
Defined.
Lemma activation_work_conserving_witness :
  active_count (activate_ready ex_loaded) = 2 ∧
  ∀ m q, MissionScheduler_missions (activate_ready ex_loaded) !! m = Some q →
    MissionQueue_state q = SQueued → MissionQueue_actions q = [].
Proof.
  split; [vm_compute; reflexivity|].
  destruct (activation_work_conserving SchedulerConfig_default ex_empty (ex_fg ++ ex_bg) []
    ex_loaded eq_refl ex_sched_run) as [H|H]; [vm_compute in H; discriminate H|exact H].
Defined.
