(* ===== verification/Command.v ===== *)
(** * Protocol vocabulary ([crates/protocol/src/command.rs])

    The commands, actors, error codes and request records exchanged between
    the user interface and the supervisor. *)

From S2P Require Import Prelude Extern.
From stdpp Require Import prelude strings.

Inductive IpcCommand :=
| CmdHandshake | CmdCreateMission | CmdUpdateMissionContract | CmdLaunchRoute
| CmdRequestSafePause | CmdForceTerminate | CmdResolveApproval | CmdSubscribeMission
| CmdReviewMemory | CmdBuildContextPack | CmdBuildRecoveryPackage | CmdVerifyRecovery
| CmdResolveRecovery | CmdHandoffProvider.
#[export] Instance IpcCommand_eq_dec : EqDecision IpcCommand.
Proof. solve_decision. Defined.

Inductive ContinuityErrorCode :=
| ProviderUnavailable | ProviderNotSelected | LoadoutMismatch | MemorySourceRequired
| ContextPackBudgetExceeded | RecoveryTampered | RecoverySequenceInvalid
| RecoveryPackageRequired | RecoveryPackageInvalid | CodeRecoveryNotRequired
| RecoveryDecisionRequired | RecoveryVerifyFailed | RecoveryResolutionFailed
| PendingApprovalMismatch | PermissionExpansion | UnsupportedCommand.
#[export] Instance ContinuityErrorCode_eq_dec : EqDecision ContinuityErrorCode.
Proof. solve_decision. Defined.

Definition ContinuityErrorCode_as_str (self : ContinuityErrorCode) : string :=
  match self with
  | ProviderUnavailable => "PROVIDER_UNAVAILABLE"
  | ProviderNotSelected => "PROVIDER_NOT_SELECTED"
  | LoadoutMismatch => "LOADOUT_MISMATCH"
  | MemorySourceRequired => "MEMORY_SOURCE_REQUIRED"
  | ContextPackBudgetExceeded => "CONTEXTPACK_BUDGET_EXCEEDED"
  | RecoveryTampered => "RECOVERY_TAMPERED"
  | RecoverySequenceInvalid => "RECOVERY_SEQUENCE_INVALID"
  | RecoveryPackageRequired => "RECOVERY_PACKAGE_REQUIRED"
  | RecoveryPackageInvalid => "RECOVERY_PACKAGE_INVALID"
  | CodeRecoveryNotRequired => "RECOVERY_NOT_REQUIRED"
  | RecoveryDecisionRequired => "RECOVERY_DECISION_REQUIRED"
  | RecoveryVerifyFailed => "RECOVERY_VERIFY_FAILED"
  | RecoveryResolutionFailed => "RECOVERY_RESOLUTION_FAILED"
  | PendingApprovalMismatch => "PENDING_APPROVAL_MISMATCH"
  | PermissionExpansion => "PERMISSION_EXPANSION"
  | UnsupportedCommand => "UNSUPPORTED_COMMAND"
  end.

(** A wire error code names one error. *)
#[export] Instance ContinuityErrorCode_as_str_inj : Inj (=) (=) ContinuityErrorCode_as_str.
Proof. by intros [] []. Qed.

Inductive Actor := ProtoUser | ProtoRenderer | ProtoSupervisor | ProtoAgent.
#[export] Instance Actor_eq_dec : EqDecision Actor.
Proof. solve_decision. Defined.

Inductive ApprovalDecision := DecisionApprove | DecisionDeny | DecisionRevoke.
#[export] Instance ApprovalDecision_eq_dec : EqDecision ApprovalDecision.
Proof. solve_decision. Defined.

Inductive ApprovalGrantScope := GrantOnce | GrantRouteActionClass.
#[export] Instance ApprovalGrantScope_eq_dec : EqDecision ApprovalGrantScope.
Proof. solve_decision. Defined.

Record ResolveApproval := {
  ResolveApproval_approval_id : string;
  ResolveApproval_expected_revision : u64;
  ResolveApproval_decision : ApprovalDecision;
  ResolveApproval_mission_id : string;
  ResolveApproval_route_id : string;
  ResolveApproval_contract_version : u64;
  ResolveApproval_loadout_fingerprint : string;
  ResolveApproval_action_digest : string;
  ResolveApproval_now_ms : u64;
  ResolveApproval_scope : option ApprovalGrantScope;
}.

Record ReviewMemoryRequest := {
  ReviewMemoryRequest_mission_id : string;
  ReviewMemoryRequest_candidate_ids : list string;
  ReviewMemoryRequest_expected_revision : u64;
}.
Record ContextPackRequest := {
  ContextPackRequest_mission_id : string;
  ContextPackRequest_route_id : string;
  ContextPackRequest_max_tokens : u32;
  ContextPackRequest_expected_sequence : u64;
}.
Record BuildRecoveryPackageRequest := {
  BuildRecoveryPackageRequest_mission_id : string;
  BuildRecoveryPackageRequest_route_id : string;
  BuildRecoveryPackageRequest_contract_version : u64;
  BuildRecoveryPackageRequest_checkpoint_id : string;
  BuildRecoveryPackageRequest_ledger_sequence : u64;
  BuildRecoveryPackageRequest_loadout_fingerprint : string;
  BuildRecoveryPackageRequest_context_pack_hash : string;
  BuildRecoveryPackageRequest_pending_approval_hash : option string;
}.
Record ProviderHandoffRequest := {
  ProviderHandoffRequest_mission_id : string;
  ProviderHandoffRequest_route_id : string;
  ProviderHandoffRequest_target_provider : string;
  ProviderHandoffRequest_context_pack_hash : string;
  ProviderHandoffRequest_pending_approval_hash : option string;
}.
Record RequestEnvelope := {
  RequestEnvelope_request_id : string;
  RequestEnvelope_expected_revision : option u64;
  RequestEnvelope_actor : Actor;
  RequestEnvelope_command : IpcCommand;
}.

Definition allowlisted : list IpcCommand :=
  [CmdHandshake; CmdCreateMission; CmdUpdateMissionContract; CmdLaunchRoute;
   CmdRequestSafePause; CmdForceTerminate; CmdResolveApproval; CmdSubscribeMission;
   CmdReviewMemory; CmdBuildContextPack; CmdBuildRecoveryPackage; CmdVerifyRecovery;
   CmdResolveRecovery; CmdHandoffProvider].

(** The allowlist is the whole enumeration, each command once. *)
Lemma allowlisted_complete c : c ∈ allowlisted.
Proof. unfold allowlisted. destruct c; set_solver. Qed.
Lemma allowlisted_nodup : NoDup allowlisted.
Proof. by apply (bool_decide_unpack _). Qed.
