(* ===== verification/AdapterCore.v ===== *)
(** * Agent adapters ([crates/adapter-core/src/capability.rs],
    [crates/adapter-core/src/adapter.rs])

    Providers, capability reports, loadout snapshots, the events an agent
    emits and the control handle of a running agent. *)

From S2P Require Import Prelude Extern Ids Event.
From Stdlib Require Import ZArith.
From stdpp Require Import prelude strings.

Inductive ProviderId := Codex | Claude | OpenCode | ZCode.
#[export] Instance ProviderId_eq_dec : EqDecision ProviderId.
Proof. solve_decision. Defined.
Definition ProviderId_ALL : list ProviderId := [Codex; Claude; OpenCode; ZCode].
Definition ProviderId_as_str (self : ProviderId) : string :=
  match self with
  | Codex => "codex" | Claude => "claude" | OpenCode => "opencode" | ZCode => "zcode"
  end.
Definition ProviderId_from_str (value : string) : result string ProviderId :=
  if str_eqb value "codex" then Ok Codex
  else if str_eqb value "claude" then Ok Claude
  else if str_eqb value "opencode" then Ok OpenCode
  else if str_eqb value "zcode" then Ok ZCode
  else Err "unknown provider".

Lemma ProviderId_roundtrip p : ProviderId_from_str (ProviderId_as_str p) = Ok p.
Proof. by destruct p. Qed.
Lemma ProviderId_parse_print s p : ProviderId_from_str s = Ok p → ProviderId_as_str p = s.
Proof.
  unfold ProviderId_from_str. repeat (case_match; guards; [intros [= <-]; by subst|]). done.
Qed.

Inductive InstallState := Installed | Missing | DetectedNotRunnable | InstallUnknown.
#[export] Instance InstallState_eq_dec : EqDecision InstallState.
Proof. solve_decision. Defined.

Record Capability := {
  Capability_structured_events : bool;
  Capability_resume : bool;
  Capability_approval : bool;
  Capability_safe_pause : bool;
  Capability_terminal_fallback : bool;
}.
Record AgentCapabilityReport := {
  AgentCapabilityReport_provider : ProviderId;
  AgentCapabilityReport_agent : string;
  AgentCapabilityReport_version : option string;
  AgentCapabilityReport_install_state : InstallState;
  AgentCapabilityReport_capability : Capability;
  AgentCapabilityReport_unavailable_reason : option string;
  AgentCapabilityReport_executable_hash : option string;
  AgentCapabilityReport_configuration_source : option string;
}.
Definition is_available (self : AgentCapabilityReport) : bool :=
  bool_decide (AgentCapabilityReport_install_state self = Installed)
  && bool_decide (AgentCapabilityReport_unavailable_reason self = None)
  && Capability_structured_events (AgentCapabilityReport_capability self).

Record LoadoutSnapshot := {
  LoadoutSnapshot_provider : ProviderId;
  LoadoutSnapshot_model : option string;
  LoadoutSnapshot_config_fingerprint : string;
  LoadoutSnapshot_hooks_fingerprint : string;
  LoadoutSnapshot_skills_fingerprint : string;
  LoadoutSnapshot_plugins_fingerprint : string;
  LoadoutSnapshot_mcp_fingerprint : string;
}.
Definition fingerprint_material (self : LoadoutSnapshot) : list string :=
  [ProviderId_as_str (LoadoutSnapshot_provider self);
   default "" (LoadoutSnapshot_model self);
   LoadoutSnapshot_config_fingerprint self;
   LoadoutSnapshot_hooks_fingerprint self;
   LoadoutSnapshot_skills_fingerprint self;
   LoadoutSnapshot_plugins_fingerprint self;
   LoadoutSnapshot_mcp_fingerprint self].

Section agent_event.
Context `{SerdeJson, Sha256}.

Record AgentEvent := {
  AgentEvent_event_id : EventId;
  AgentEvent_agent_run_id : option string;
  AgentEvent_event_kind : EventKind;
  AgentEvent_payload : Value;
  AgentEvent_requires_safe_pause : bool;
  AgentEvent_raw_evidence : option Value;
}.

Definition with_run_and_evidence (agent_run_id : option string) (raw_evidence : option Value)
    (e : EventEnvelope) : EventEnvelope := {|
  EventEnvelope_event_id := EventEnvelope_event_id e;
  EventEnvelope_schema_version := EventEnvelope_schema_version e;
  EventEnvelope_mission_id := EventEnvelope_mission_id e;
  EventEnvelope_route_id := EventEnvelope_route_id e;
  EventEnvelope_agent_run_id := agent_run_id;
  EventEnvelope_sequence := EventEnvelope_sequence e;
  EventEnvelope_occurred_at := EventEnvelope_occurred_at e;
  EventEnvelope_source := EventEnvelope_source e;
  EventEnvelope_confidence := EventEnvelope_confidence e;
  EventEnvelope_kind := EventEnvelope_kind e;
  EventEnvelope_payload := EventEnvelope_payload e;
  EventEnvelope_raw_evidence := raw_evidence;
  EventEnvelope_payload_hash := EventEnvelope_payload_hash e;
  EventEnvelope_correlation_id := EventEnvelope_correlation_id e;
  EventEnvelope_causation_id := EventEnvelope_causation_id e;
  EventEnvelope_links := EventEnvelope_links e |}.

Definition into_envelope (self : AgentEvent) (mission_id : MissionId) (route_id : RouteId)
    (sequence : u64) : EventEnvelope :=
  with_run_and_evidence (AgentEvent_agent_run_id self) (AgentEvent_raw_evidence self)
    (EventEnvelope_new (AgentEvent_event_id self) mission_id route_id sequence
       (AgentEvent_event_kind self) (AgentEvent_payload self)).

Lemma into_envelope_valid e m r s : has_valid_payload_hash (into_envelope e m r s) = true.
Proof. apply String.eqb_refl. Qed.
End agent_event.
Arguments AgentEvent {_}.

(** ** The control handle of a running agent

    [command_tx] is the sending half of the run's command channel:
    [Some open] says whether the run still receives; what was sent is kept in
    order. *)
Inductive AdapterError :=
| Unavailable (message : string) | AdapterProtocol (message : string) | AdapterTimeout
| AlreadyPaused | AlreadyTerminated | Unsupported.
#[export] Instance AdapterError_eq_dec : EqDecision AdapterError.
Proof. solve_decision. Defined.

Section handle.
Context `{SerdeJson}.

Inductive AgentControl :=
| ControlSafePause (reason : string)
| ControlTerminate
| RespondToServerRequest (request_id : Value) (decision : string).
Record AgentHandle := {
  AgentHandle_run_id : string;
  AgentHandle_paused : bool;
  AgentHandle_terminated : bool;
  AgentHandle_command_tx : option bool;
  AgentHandle_sent : list AgentControl;
}.

Definition AgentHandle_detached (run_id : string) : AgentHandle := {|
  AgentHandle_run_id := run_id; AgentHandle_paused := false; AgentHandle_terminated := false;
  AgentHandle_command_tx := None; AgentHandle_sent := [] |}.
Definition AgentHandle_with_control (run_id : string) : AgentHandle := {|
  AgentHandle_run_id := run_id; AgentHandle_paused := false; AgentHandle_terminated := false;
  AgentHandle_command_tx := Some true; AgentHandle_sent := [] |}.

Definition handle_send (c : AgentControl) : stm AgentHandle AdapterError unit := λ h,
  match AgentHandle_command_tx h with
  | Some true => ({|
      AgentHandle_run_id := AgentHandle_run_id h; AgentHandle_paused := AgentHandle_paused h;
      AgentHandle_terminated := AgentHandle_terminated h;
      AgentHandle_command_tx := AgentHandle_command_tx h;
      AgentHandle_sent := AgentHandle_sent h ++ [c] |}, Ok tt)
  | _ => (h, Err (Unavailable "agent run ended"))
  end.
Definition AgentHandle_request_safe_pause : stm AgentHandle AdapterError unit := λ h,
  match AgentHandle_command_tx h with
  | Some _ => handle_send (ControlSafePause "handle request") h
  | None =>
      if AgentHandle_terminated h then (h, Err AlreadyTerminated)
      else if AgentHandle_paused h then (h, Err AlreadyPaused)
      else ({|
        AgentHandle_run_id := AgentHandle_run_id h; AgentHandle_paused := true;
        AgentHandle_terminated := AgentHandle_terminated h;
        AgentHandle_command_tx := None; AgentHandle_sent := AgentHandle_sent h |}, Ok tt)
  end.
Definition AgentHandle_terminate_owned_tree : stm AgentHandle AdapterError unit := λ h,
  match AgentHandle_command_tx h with
  | Some _ => handle_send ControlTerminate h
  | None =>
      if AgentHandle_terminated h then (h, Err AlreadyTerminated)
      else ({|
        AgentHandle_run_id := AgentHandle_run_id h; AgentHandle_paused := AgentHandle_paused h;
        AgentHandle_terminated := true;
        AgentHandle_command_tx := None; AgentHandle_sent := AgentHandle_sent h |}, Ok tt)
  end.

(** A detached handle pauses once and terminates once; termination closes the
    pause as well. *)
Lemma detached_terminates_once h h' :
  AgentHandle_command_tx h = None →
  AgentHandle_terminate_owned_tree h = (h', Ok tt) →
  (AgentHandle_terminate_owned_tree h').2 = Err AlreadyTerminated ∧
  (AgentHandle_request_safe_pause h').2 = Err AlreadyTerminated.
Proof.
  intros Hd. unfold AgentHandle_terminate_owned_tree, AgentHandle_request_safe_pause.
  rewrite Hd. case_match; [done|]. by intros [= <-].
Qed.
End handle.
