(* ===== verification/LoadoutMonitor.v ===== *)
(** * The loadout monitor ([crates/supervisor/src/loadout_monitor.rs])

    A mission's loadout is frozen as one string, the fields of the snapshot
    joined by U+001F, and compared before every model request. *)

From S2P Require Import Prelude Extern Ids Event AdapterCore.
From Stdlib Require Import ZArith Lia Ascii.
From stdpp Require Import prelude gmap strings.

Record LoadoutChange := {
  LoadoutChange_previous_fingerprint : string;
  LoadoutChange_next_fingerprint : string;
}.

Record LoadoutMonitor := { LoadoutMonitor_frozen : gmap string string }.
Definition LoadoutMonitor_default : LoadoutMonitor := {| LoadoutMonitor_frozen := ∅ |}.

Definition unit_separator : ascii := ascii_of_N 31.

Definition fingerprint (snapshot : LoadoutSnapshot) : result string string :=
  if str_eqb (ProviderId_as_str (LoadoutSnapshot_provider snapshot)) ""
     || existsb (λ value, (4096 <? str_len value)%Z) (fingerprint_material snapshot)
  then Err "LOADOUT_INVALID"
  else Ok (str_join (String unit_separator "") (fingerprint_material snapshot)).

Section monitor.
Context `{UuidText}.

Definition monitor_insert (mission_id : MissionId) (fp : string) (self : LoadoutMonitor)
    : LoadoutMonitor :=
  {| LoadoutMonitor_frozen := <[uuid_to_string mission_id := fp]> (LoadoutMonitor_frozen self) |}.

Definition LoadoutMonitor_freeze (mission_id : MissionId) (snapshot : LoadoutSnapshot)
    : stm LoadoutMonitor string string := λ self,
  match fingerprint snapshot with
  | Err e => (self, Err e)
  | Ok fp => (monitor_insert mission_id fp self, Ok fp)
  end.

Definition invalid_fingerprint (fp : string) : bool := blank fp || (32768 <? str_len fp)%Z.

Definition LoadoutMonitor_freeze_fingerprint (mission_id : MissionId) (fp : string)
    : stm LoadoutMonitor string unit := λ self,
  if invalid_fingerprint fp then (self, Err "LOADOUT_INVALID")
  else (monitor_insert mission_id fp self, Ok tt).

Definition compare_frozen (self : LoadoutMonitor) (mission_id : MissionId) (next : string)
    : result string (option LoadoutChange) :=
  previous ← ok_or "LOADOUT_NOT_FROZEN"
    (LoadoutMonitor_frozen self !! uuid_to_string mission_id);
  if str_eqb previous next then Ok None
  else Ok (Some {| LoadoutChange_previous_fingerprint := previous;
                   LoadoutChange_next_fingerprint := next |}).

Definition LoadoutMonitor_check_before_model_request (self : LoadoutMonitor)
    (mission_id : MissionId) (snapshot : LoadoutSnapshot) : result string (option LoadoutChange) :=
  next ← fingerprint snapshot;
  compare_frozen self mission_id next.

Definition update_after_change (mission_id : MissionId) (snapshot : LoadoutSnapshot)
    : stm LoadoutMonitor string unit := λ self,
  match fingerprint snapshot with
  | Err e => (self, Err e)
  | Ok fp => (monitor_insert mission_id fp self, Ok tt)
  end.

Definition check_fingerprint (self : LoadoutMonitor) (mission_id : MissionId) (next : string)
    : result string (option LoadoutChange) :=
  if invalid_fingerprint next then Err "LOADOUT_INVALID"
  else compare_frozen self mission_id next.
End monitor.

(** ** Joining is injective on fields without the separator *)
Fixpoint has_char (c : ascii) (s : string) : bool :=
  match s with EmptyString => false | String d r => Ascii.eqb d c || has_char c r end.

Lemma split_at_char c (s s' r r' : string) :
  has_char c s = false → has_char c s' = false →
  s +:+ String c r = s' +:+ String c r' → s = s' ∧ r = r'.
Proof.
  revert s'. induction s as [|d s IH]; intros [|d' s'] Hs Hs' Heq; simpl in *.
  - by injection Heq as ->.
  - injection Heq as <- _. by rewrite Ascii.eqb_refl in Hs'.
  - injection Heq as -> _. by rewrite Ascii.eqb_refl in Hs.
  - injection Heq as <- Heq. guards. destruct (IH s') as [-> ->]; auto.
Qed.

Lemma str_join_inj c (l k : list string) :
  length l = length k →
  Forall (λ s, has_char c s = false) l → Forall (λ s, has_char c s = false) k →
  str_join (String c "") l = str_join (String c "") k → l = k.
Proof.
  revert k. induction l as [|x l IH]; intros [|y k] Hlen Hl Hk Heq; try done.
  apply Forall_cons in Hl as [Hx Hl]. apply Forall_cons in Hk as [Hy Hk].
  destruct l as [|x2 l], k as [|y2 k]; try done; [by simpl in Heq; subst|].
  apply split_at_char in Heq as [-> Heq]; [|done..]. f_equal. apply IH; [simpl in *; lia|done..].
Qed.

Lemma fingerprint_joined s fp :
  fingerprint s = Ok fp → fp = str_join (String unit_separator "") (fingerprint_material s).
Proof. unfold fingerprint. case_match; [done|]. by intros ?%(inj Ok). Qed.

(** The monitor as its clients see it. *)
Definition separator_free (s : LoadoutSnapshot) : Prop :=
  Forall (λ f, has_char unit_separator f = false) (fingerprint_material s).

(** After a loadout is frozen for a mission, the check before a model
    request reports no change exactly when every field of the presented
    loadout that enters the fingerprint is unchanged (an absent model counts
    as an empty one), provided no field contains the separator; other
    missions' frozen loadouts are not affected by freezing this one. *)
Theorem loadout_change_detected `{UuidTextLaws} m mission frozen current m' fp :
  separator_free frozen → separator_free current →
  LoadoutMonitor_freeze mission frozen m = (m', Ok fp) →
  is_ok (fingerprint current) = true →
  (LoadoutMonitor_check_before_model_request m' mission current = Ok None ↔
    fingerprint_material current = fingerprint_material frozen) ∧
  (∀ other, other ≠ mission →
    LoadoutMonitor_check_before_model_request m' other current =
    LoadoutMonitor_check_before_model_request m other current).
Proof.
  intros Hf Hc Hfreeze Hok. unfold LoadoutMonitor_freeze in Hfreeze.
  destruct (fingerprint frozen) as [ff|] eqn:Hff; [|done]. injection Hfreeze as <- <-.
  unfold LoadoutMonitor_check_before_model_request.
  destruct (fingerprint current) as [fc|] eqn:Hfc; [|done]. simpl.
  unfold compare_frozen, monitor_insert. simpl. split.
  - rewrite lookup_insert_eq. simpl. apply fingerprint_joined in Hff, Hfc. case_match; guards.
    + split; [|done]. intros _. symmetry. eapply (str_join_inj unit_separator); [done..|congruence].
    + split; [done|]. intros Hm. rewrite Hm in Hfc. congruence.
  - intros other Hne. rewrite lookup_insert_ne; [done|]. by intros ?%(inj _).
Qed.

Definition ex_snapshot (config : string) : LoadoutSnapshot := {|
  LoadoutSnapshot_provider := Claude; LoadoutSnapshot_model := None;
  LoadoutSnapshot_config_fingerprint := config; LoadoutSnapshot_hooks_fingerprint := "h";
  LoadoutSnapshot_skills_fingerprint := "s"; LoadoutSnapshot_plugins_fingerprint := "p";
  LoadoutSnapshot_mcp_fingerprint := "m" |}.
Lemma loadout_change_detected_witness :
  LoadoutMonitor_check_before_model_request (H := Json.json_uuid)
    (LoadoutMonitor_freeze (H := Json.json_uuid) 1%N (ex_snapshot "v1") LoadoutMonitor_default).1
    1%N (ex_snapshot "v2") ≠ Ok None.
Proof.
  pose proof (loadout_change_detected (H := Json.json_uuid) (H0 := Json.json_uuid_laws) LoadoutMonitor_default 1%N
    (ex_snapshot "v1") (ex_snapshot "v2")
    (LoadoutMonitor_freeze (H := Json.json_uuid) 1%N (ex_snapshot "v1") LoadoutMonitor_default).1
    (str_join (String unit_separator "") (fingerprint_material (ex_snapshot "v1")))) as Hd.
  destruct Hd as [Hd _].
  - repeat constructor.
  - repeat constructor.
  - reflexivity.
  - reflexivity.
  - intros H. apply Hd in H. discriminate H.
Defined.
