(* ===== verification/ProcessTree.v ===== *)
(** * Owned process trees ([crates/supervisor/src/process_tree.rs])

    The set of processes a mission owns.  What the operating system answers
    to a termination request (the result of [TerminateJobObject] on Windows,
    success elsewhere) is an argument. *)

From S2P Require Import Prelude.
From Stdlib Require Import ZArith Lia.
From stdpp Require Import prelude gmap strings.

Record OwnedProcessTree := {
  OwnedProcessTree_root_pid : option u32;
  OwnedProcessTree_pids : gset Z;
}.
Definition OwnedProcessTree_new : OwnedProcessTree :=
  {| OwnedProcessTree_root_pid := None; OwnedProcessTree_pids := ∅ |}.

Definition process_register (pid : u32) (self : OwnedProcessTree) : OwnedProcessTree := {|
  OwnedProcessTree_root_pid :=
    match OwnedProcessTree_root_pid self with None => Some pid | r => r end;
  OwnedProcessTree_pids :=
    if (pid =? 0)%Z then OwnedProcessTree_pids self
    else {[ pid ]} ∪ OwnedProcessTree_pids self |}.
Definition process_owns (self : OwnedProcessTree) (pid : u32) : bool :=
  bool_decide (pid ∈ OwnedProcessTree_pids self).

Definition process_terminate (os : result string unit)
    : stm OwnedProcessTree string unit := λ self,
  match OwnedProcessTree_root_pid self with
  | None => (self, Ok tt)
  | Some _ =>
      match os with
      | Err e => (self, Err e)
      | Ok _ => ({| OwnedProcessTree_root_pid := OwnedProcessTree_root_pid self;
                    OwnedProcessTree_pids := ∅ |}, Ok tt)
      end
  end.

(** Ownership is exactly registration; only a termination the system
    confirmed gives it up. *)
Lemma owns_register pid pid' t :
  process_owns (process_register pid t) pid' =
    (bool_decide (pid' = pid) && negb (pid =? 0)%Z) || process_owns t pid'.
Proof.
  unfold process_owns, process_register. simpl. destruct (pid =? 0)%Z eqn:H0; guards.
  - by rewrite andb_false_r.
  - rewrite andb_true_r. repeat case_bool_decide; set_solver.
Qed.
Lemma terminate_failure_keeps_ownership os t t' e :
  process_terminate os t = (t', Err e) → t' = t.
Proof. unfold process_terminate. repeat case_match; intros; by simplify_eq. Qed.
