(* ===== verification/Pause.v ===== *)
(** * Pausing and terminating a mission ([crates/supervisor/src/pause.rs])

    A safe pause is requested first; only a paused (or pausing) mission can be
    offered for forced termination, which needs the confirmation token that
    the offer carries. *)

From S2P Require Import Prelude Extern Ids Event.
From Stdlib Require Import ZArith Lia.
From stdpp Require Import prelude strings pretty.

Inductive PauseState :=
| PRunning
| PRequested (reason : string)
| PAcknowledged
| PPaused (reason : string)
| PTimedOut
| PForceAvailable (confirmation_token : string)
| PTerminated.
#[export] Instance PauseState_eq_dec : EqDecision PauseState.
Proof. solve_decision. Defined.

Record PauseTransition := {
  PauseTransition_from : PauseState;
  PauseTransition_to : PauseState;
  PauseTransition_confirmation_token : option string;
}.

Inductive PauseError := AlreadyRequested | InvalidState | InvalidConfirmationToken.
#[export] Instance PauseError_eq_dec : EqDecision PauseError.
Proof. solve_decision. Defined.

Record PauseController := {
  PauseController_state : PauseState;
  PauseController_token_counter : u64;
}.
Definition PauseController_default : PauseController :=
  {| PauseController_state := PRunning; PauseController_token_counter := 0%Z |}.
Definition with_pause_state (s : PauseState) (c : PauseController) : PauseController :=
  {| PauseController_state := s;
     PauseController_token_counter := PauseController_token_counter c |}.

Section from_events.
Context `{SerdeJson}.

(** One event of [from_events]; the kind is matched by its text. *)
Definition pause_event (state : PauseState) (event : EventEnvelope) : PauseState :=
  let kind := EventKind_as_str (EventEnvelope_kind event) in
  if str_eqb kind "pause_requested" then
    PRequested (default "pause requested"
      (Value_get (EventEnvelope_payload event) "reason" ≫= Value_as_str))
  else if str_eqb kind "pause_acknowledged" then PAcknowledged
  else if str_eqb kind "pause_timed_out" then PTimedOut
  else if str_eqb kind "force_terminated" then PTerminated
  else state.

Definition PauseController_from_events (events : list EventEnvelope) : PauseController :=
  with_pause_state (foldl pause_event PRunning events) PauseController_default.
End from_events.

Definition pause_transition (from to : PauseState) (token : option string) : PauseTransition :=
  {| PauseTransition_from := from; PauseTransition_to := to;
     PauseTransition_confirmation_token := token |}.

Definition pause_request (reason : string) : stm PauseController PauseError PauseTransition :=
  λ self,
  let from := PauseController_state self in
  match from with
  | PRunning =>
      (with_pause_state (PRequested reason) self,
       Ok (pause_transition from (PRequested reason) None))
  | PRequested _ | PAcknowledged => (self, Err AlreadyRequested)
  | _ => (self, Err InvalidState)
  end.

Definition pause_acknowledge : stm PauseController PauseError PauseTransition := λ self,
  let from := PauseController_state self in
  match from with
  | PRequested reason =>
      (with_pause_state (PPaused reason) self, Ok (pause_transition from (PPaused reason) None))
  | _ => (self, Err InvalidState)
  end.

Definition force_termination_token : stm PauseController PauseError PauseTransition := λ self,
  let from := PauseController_state self in
  match from with
  | PForceAvailable confirmation_token =>
      (self, Ok (pause_transition from from (Some confirmation_token)))
  | PRequested _ | PAcknowledged | PPaused _ | PTimedOut =>
      let counter := wrapping_add64 (PauseController_token_counter self) 1 in
      let token := "pause-force-" +:+ pretty counter in
      ({| PauseController_state := PForceAvailable token;
          PauseController_token_counter := counter |},
       Ok (pause_transition from (PForceAvailable token) (Some token)))
  | _ => (self, Err InvalidState)
  end.
Definition pause_timeout : stm PauseController PauseError PauseTransition :=
  force_termination_token.

Definition pause_force_terminate (token : string)
    : stm PauseController PauseError PauseTransition := λ self,
  let from := PauseController_state self in
  match from with
  | PForceAvailable confirmation_token =>
      if negb (str_eqb confirmation_token token) then (self, Err InvalidConfirmationToken)
      else (with_pause_state PTerminated self, Ok (pause_transition from PTerminated None))
  | _ => (self, Err InvalidState)
  end.

Definition pause_can_force_terminate (self : PauseController) (token : string) : bool :=
  match PauseController_state self with
  | PForceAvailable confirmation_token => str_eqb confirmation_token token
  | _ => false
  end.

(** ** Histories *)
Inductive pause_call :=
| PcRequest (reason : string) | PcAcknowledge | PcTimeout | PcForceToken
| PcForceTerminate (token : string).

Definition pause_step (c : pause_call)
    : PauseController → PauseController * result PauseError PauseTransition :=
  match c with
  | PcRequest reason => pause_request reason
  | PcAcknowledge => pause_acknowledge
  | PcTimeout => pause_timeout
  | PcForceToken => force_termination_token
  | PcForceTerminate token => pause_force_terminate token
  end.

(** Latest call first; a call is recorded with the transition it returned. *)
Inductive pause_run (c0 : PauseController)
    : list (pause_call * option PauseTransition) → PauseController → Prop :=
| prun_nil : pause_run c0 [] c0
| prun_call h c call c' r :
    pause_run c0 h c → pause_step call c = (c', r) →
    pause_run c0 ((call, result_ok r) :: h) c'.

Definition issued (token : string) (h : list (pause_call * option PauseTransition)) : Prop :=
  ∃ call t, (call, Some t) ∈ h ∧ (call = PcTimeout ∨ call = PcForceToken) ∧
    PauseTransition_confirmation_token t = Some token.
Definition requested (h : list (pause_call * option PauseTransition)) : Prop :=
  ∃ reason t, (PcRequest reason, Some t) ∈ h.
Definition first_token : string := "pause-force-1".

Definition pause_inv (c0 : PauseController) (h : list (pause_call * option PauseTransition))
    (c : PauseController) : Prop :=
  (PauseController_state c ≠ PRunning → PauseController_state c0 ≠ PRunning ∨ requested h) ∧
  match PauseController_state c with
  | PForceAvailable token => token = first_token ∧ issued token h
  | PTerminated => PauseController_state c0 = PTerminated ∨
      ∃ token t h1 h2, h = h1 ++ (PcForceTerminate token, Some t) :: h2 ∧ issued token h2
  | _ => PauseController_token_counter c = 0%Z
  end.

Lemma issued_cons token p h : issued token h → issued token (p :: h).
Proof. intros (call&t&?&?). exists call, t. split; [by right|done]. Qed.
Lemma requested_cons p h : requested h → requested (p :: h).
Proof. intros (r&t&?). exists r, t. by right. Qed.

Definition terminated_by (c0 : PauseController) (h : list (pause_call * option PauseTransition))
    : Prop :=
  PauseController_state c0 = PTerminated ∨
  ∃ token t h1 h2, h = h1 ++ (PcForceTerminate token, Some t) :: h2 ∧ issued token h2.
Lemma terminated_cons c0 p h : terminated_by c0 h → terminated_by c0 (p :: h).
Proof.
  intros [?|(tk&t&h1&h2&->&?)]; [by left|right; by exists tk, t, (p :: h1), h2].
Qed.
Lemma issued_new token call from h :
  call = PcTimeout ∨ call = PcForceToken →
  issued token ((call, Some (pause_transition from (PForceAvailable token) (Some token))) :: h).
Proof. intros Hc. exists call, (pause_transition from (PForceAvailable token) (Some token)). split; [by left|done]. Qed.

Lemma pause_inv_step c0 h c call c' r :
  pause_inv c0 h c → pause_step call c = (c', r) →
  pause_inv c0 ((call, result_ok r) :: h) c'.
Proof.
  intros [Hreq Hst] Hs. split.
  - assert (∀ o, PauseController_state c0 ≠ PRunning ∨ requested h →
      PauseController_state c0 ≠ PRunning ∨ requested ((call, o) :: h)) as Hmono.
    { intros o [?|?]; [by left|right; by apply requested_cons]. }
    destruct (decide (PauseController_state c = PRunning)) as [Hrun|]; [|by auto].
    intros Hne. destruct call; simpl in Hs;
      unfold pause_request, pause_acknowledge, pause_timeout, force_termination_token,
        pause_force_terminate in Hs; rewrite Hrun in Hs; simplify_eq/=; try done.
    right. eexists _, _. by left.
  - destruct c as [st n]. simpl in Hst.
    destruct call; simpl in Hs;
      unfold pause_request, pause_acknowledge, pause_timeout, force_termination_token,
        pause_force_terminate in Hs; simpl in Hs;
      destruct st; repeat case_match; simplify_eq/=; guards; try done;
      try (by apply (terminated_cons c0));
      try (split; [by apply Hst|by apply issued_cons, Hst]);
      try (split; [done|by apply issued_new; auto]).
    right. destruct Hst as [_ Hi]. subst. eexists _, _, [], h. split; [done|exact Hi].
Qed.

Lemma pause_run_inv c0 h c :
  PauseController_token_counter c0 = 0%Z →
  (∀ token, PauseController_state c0 ≠ PForceAvailable token) →
  pause_run c0 h c → pause_inv c0 h c.
Proof.
  intros H0 Hnf. induction 1; [|by eapply pause_inv_step].
  split; [by left|]. destruct (PauseController_state c0) eqn:He; try done; [|by left].
  by destruct (Hnf confirmation_token).
Qed.

Section theorems.
Context `{SerdeJson}.

Lemma pause_event_not_forced st e token :
  st ≠ PForceAvailable token → pause_event st e ≠ PForceAvailable token.
Proof. unfold pause_event. repeat case_match; done. Qed.
Lemma from_events_not_forced events token :
  PauseController_state (PauseController_from_events events) ≠ PForceAvailable token.
Proof.
  simpl. assert (PRunning ≠ PForceAvailable token) as H0 by done. revert H0.
  generalize PRunning. induction events as [|e events IH]; intros st H0; simpl; [done|].
  by apply IH, pause_event_not_forced.
Qed.

(** Forced termination is always confirmed.  In a controller restored
    from any events and driven by any calls, a mission that was not already
    terminated becomes terminated only by a call that presented a token which
    an earlier call had handed out; a token is on offer only after a pause
    was requested, is the same on every request and is the only one that
    terminates; and a terminated mission accepts no further call. *)
Theorem termination_is_confirmed (events : list EventEnvelope) h c :
  pause_run (PauseController_from_events events) h c →
  (PauseController_state c = PTerminated →
    terminated_by (PauseController_from_events events) h) ∧
  (PauseController_state c ≠ PRunning →
    PauseController_state (PauseController_from_events events) ≠ PRunning ∨ requested h) ∧
  (∀ token, PauseController_state c = PForceAvailable token →
    token = first_token ∧ issued token h ∧
    (force_termination_token c).1 = c ∧
    ∀ token', is_ok (pause_force_terminate token' c).2 = true ↔ token' = token) ∧
  (PauseController_state c = PTerminated →
    ∀ call, pause_step call c = (c, Err InvalidState)).
Proof.
  intros Hrun. destruct (pause_run_inv (PauseController_from_events events) h c
    eq_refl (from_events_not_forced events) Hrun)
    as [Hreq Hst].
  split_and!; [|done| |].
  - intros He. by rewrite He in Hst.
  - intros token He. rewrite He in Hst. destruct Hst as [-> Hi].
    unfold force_termination_token, pause_force_terminate. rewrite He. split_and!; try done.
    intros token'. destruct (str_eqb _ _) eqn:Heq; guards; simpl; naive_solver.
  - intros He call. destruct call; simpl; unfold pause_request, pause_acknowledge,
      pause_timeout, force_termination_token, pause_force_terminate; by rewrite He.
Qed.
End theorems.

Definition ex_pause_calls : list (pause_call * option PauseTransition) :=
  [(PcForceToken, Some (pause_transition (PRequested "r") (PForceAvailable first_token)
      (Some first_token)));
   (PcRequest "r", Some (pause_transition PRunning (PRequested "r") None))].
Lemma ex_pause_run :
  pause_run (PauseController_from_events (H := Json.json_serde) []) ex_pause_calls
    {| PauseController_state := PForceAvailable first_token;
       PauseController_token_counter := 1%Z |}.
Proof.
  eapply (prun_call _ _ _ PcForceToken _
    (Ok (pause_transition (PRequested "r") (PForceAvailable first_token) (Some first_token)))).
  - eapply (prun_call _ _ _ (PcRequest "r") _ (Ok (pause_transition PRunning (PRequested "r") None))).
    + apply prun_nil.
    + reflexivity.
  - reflexivity.
Qed.
Lemma termination_is_confirmed_witness : issued first_token ex_pause_calls.
Proof.
  destruct (termination_is_confirmed (H := Json.json_serde) [] ex_pause_calls _ ex_pause_run)
    as (_&_&Ht&_).
  apply (Ht first_token). reflexivity.
Defined.
