(* ===== verification/MissionActor.v ===== *)
(** * The mission actor ([crates/supervisor/src/mission_actor.rs])

    One actor owns one mission: it appends every decision to the mission's
    ledger before acting on it and is rebuilt from the ledger after a crash.
    The ledger is an interface ([ActorLedger], the Rust trait); the identity
    of new events ([EventId::new]) is drawn from a supply indexed by the
    actor's own counter; what the operating system answers when a process
    tree is terminated is an argument of the call that asks for it. *)

From S2P Require Import Prelude Extern Ids Event PolicyEngine Approval Budget Envelope.
From S2P Require Import Command AdapterCore ProcessTree Pause.
From Stdlib Require Import ZArith Lia.
From stdpp Require Import prelude gmap strings pretty.

(** ** The ledger interface *)
Class ActorLedger `{SerdeJson} (L : Type) : Type := {
  append_event : EventEnvelope → L → L * result string unit;
  replay_after : L → MissionId → u64 → list EventEnvelope;
}.

(** The provided method [latest_sequence]. *)
Definition latest_sequence `{ActorLedger L} (l : L) (mission_id : MissionId) : u64 :=
  foldr Z.max 0%Z (EventEnvelope_sequence <$> replay_after l mission_id 0%Z).

(** What a ledger promises its actor: the events of a mission are the ones
    appended, in order; a failed append leaves them alone. *)
Class ActorLedgerLaws `{ActorLedger L} : Type := {
  history : L → MissionId → list EventEnvelope;
  replay_after_history l m n :
    replay_after l m n = filter (λ e, (n < EventEnvelope_sequence e)%Z) (history l m);
  append_ok e l l' :
    append_event e l = (l', Ok tt) →
    history l' (EventEnvelope_mission_id e) = history l (EventEnvelope_mission_id e) ++ [e];
  append_err e l l' err m :
    append_event e l = (l', Err err) → history l' m = history l m;
}.
Arguments ActorLedgerLaws {_} L {_}.

(** [impl ActorLedger for Vec<EventEnvelope>]. *)
#[export] Instance vec_ledger `{SerdeJson} : ActorLedger (list EventEnvelope) := {
  append_event e l := (l ++ [e], Ok tt);
  replay_after l _ n := filter (λ e, (n < EventEnvelope_sequence e)%Z) l;
}.
#[export] Instance vec_ledger_laws `{SerdeJson} : ActorLedgerLaws (list EventEnvelope).
Proof. by refine {| history := λ l _, l |}; intros; simplify_eq/=. Defined.

Inductive ActorError :=
| ActorLedgerError (message : string)
| ActorPauseError (error : PauseError)
| ActorApprovalError (error : ApprovalError)
| MissingApprovalRequest | ApprovalBindingMismatch | InvalidApprovalSubject
| RecoveryNotRequired | RecoveryDecisionInvalid.
#[export] Instance ActorError_eq_dec : EqDecision ActorError.
Proof. solve_decision. Defined.

Inductive DispatchGate := GateReady | GateWaitingForApproval (id : string) | GatePaused.

Record MissionActor (L : Type) := {
  MissionActor_mission_id : MissionId;
  MissionActor_route_id : RouteId;
  MissionActor_ledger : L;
  MissionActor_sequence : u64;
  MissionActor_pause : PauseController;
  MissionActor_process_tree : OwnedProcessTree;
  MissionActor_ui_connected : bool;
  MissionActor_requires_recovery : bool;
  MissionActor_approvals : gmap string ApprovalRequest;
  MissionActor_ids_drawn : nat;
}.
Arguments MissionActor_mission_id {L}. Arguments MissionActor_route_id {L}.
Arguments MissionActor_ledger {L}. Arguments MissionActor_sequence {L}.
Arguments MissionActor_pause {L}. Arguments MissionActor_process_tree {L}.
Arguments MissionActor_ui_connected {L}. Arguments MissionActor_requires_recovery {L}.
Arguments MissionActor_approvals {L}. Arguments MissionActor_ids_drawn {L}.

Definition protocol_actor (actor : Actor) : ApprovalActor :=
  match actor with
  | ProtoUser => ActorUser
  | ProtoSupervisor => ActorSupervisor
  | ProtoAgent | ProtoRenderer => ActorAgent
  end.

Section actor.
Context `{SerdeJson, Sha256, UuidText, !ActorLedger L}.
Context `{!Serde ApprovalRequest, !Serde ActionClass}.
Context `{!DebugFmt PauseState, !DebugFmt BudgetDimension, !DebugFmt ActionClass}.
Context `{!HashOrder ApprovalRequest}.
Context (event_ids : nat → EventId).

Abbreviation actor := (MissionActor L).
Abbreviation act A := (stm actor ActorError A).

(** *** Assignments *)
Definition set_pause (p : PauseController) (a : actor) : actor := {|
  MissionActor_mission_id := MissionActor_mission_id a; MissionActor_route_id := MissionActor_route_id a;
  MissionActor_ledger := MissionActor_ledger a; MissionActor_sequence := MissionActor_sequence a;
  MissionActor_pause := p; MissionActor_process_tree := MissionActor_process_tree a;
  MissionActor_ui_connected := MissionActor_ui_connected a;
  MissionActor_requires_recovery := MissionActor_requires_recovery a;
  MissionActor_approvals := MissionActor_approvals a;
  MissionActor_ids_drawn := MissionActor_ids_drawn a |}.
Definition set_process_tree (t : OwnedProcessTree) (a : actor) : actor := {|
  MissionActor_mission_id := MissionActor_mission_id a; MissionActor_route_id := MissionActor_route_id a;
  MissionActor_ledger := MissionActor_ledger a; MissionActor_sequence := MissionActor_sequence a;
  MissionActor_pause := MissionActor_pause a; MissionActor_process_tree := t;
  MissionActor_ui_connected := MissionActor_ui_connected a;
  MissionActor_requires_recovery := MissionActor_requires_recovery a;
  MissionActor_approvals := MissionActor_approvals a;
  MissionActor_ids_drawn := MissionActor_ids_drawn a |}.
Definition set_ui (connected : bool) (a : actor) : actor := {|
  MissionActor_mission_id := MissionActor_mission_id a; MissionActor_route_id := MissionActor_route_id a;
  MissionActor_ledger := MissionActor_ledger a; MissionActor_sequence := MissionActor_sequence a;
  MissionActor_pause := MissionActor_pause a; MissionActor_process_tree := MissionActor_process_tree a;
  MissionActor_ui_connected := connected;
  MissionActor_requires_recovery := MissionActor_requires_recovery a;
  MissionActor_approvals := MissionActor_approvals a;
  MissionActor_ids_drawn := MissionActor_ids_drawn a |}.
Definition insert_approval (id : string) (r : ApprovalRequest) (a : actor) : actor := {|
  MissionActor_mission_id := MissionActor_mission_id a; MissionActor_route_id := MissionActor_route_id a;
  MissionActor_ledger := MissionActor_ledger a; MissionActor_sequence := MissionActor_sequence a;
  MissionActor_pause := MissionActor_pause a; MissionActor_process_tree := MissionActor_process_tree a;
  MissionActor_ui_connected := MissionActor_ui_connected a;
  MissionActor_requires_recovery := MissionActor_requires_recovery a;
  MissionActor_approvals := <[id := r]> (MissionActor_approvals a);
  MissionActor_ids_drawn := MissionActor_ids_drawn a |}.
Definition appended (l : L) (requires_recovery : bool) (sequence : u64) (a : actor) : actor := {|
  MissionActor_mission_id := MissionActor_mission_id a; MissionActor_route_id := MissionActor_route_id a;
  MissionActor_ledger := l; MissionActor_sequence := sequence;
  MissionActor_pause := MissionActor_pause a; MissionActor_process_tree := MissionActor_process_tree a;
  MissionActor_ui_connected := MissionActor_ui_connected a;
  MissionActor_requires_recovery := requires_recovery;
  MissionActor_approvals := MissionActor_approvals a;
  MissionActor_ids_drawn := MissionActor_ids_drawn a |}.
Definition draw_id (a : actor) : actor := {|
  MissionActor_mission_id := MissionActor_mission_id a; MissionActor_route_id := MissionActor_route_id a;
  MissionActor_ledger := MissionActor_ledger a; MissionActor_sequence := MissionActor_sequence a;
  MissionActor_pause := MissionActor_pause a; MissionActor_process_tree := MissionActor_process_tree a;
  MissionActor_ui_connected := MissionActor_ui_connected a;
  MissionActor_requires_recovery := MissionActor_requires_recovery a;
  MissionActor_approvals := MissionActor_approvals a;
  MissionActor_ids_drawn := S (MissionActor_ids_drawn a) |}.

(** *** Replay *)

(** One event of [recovery_required], also the [match] of [append_envelope]. *)
Definition recovery_event (active : bool) (event : EventEnvelope) : bool :=
  match EventEnvelope_kind event with
  | AgentRunStarted => true
  | AgentRunCompleted =>
      if bool_decide (Value_get (EventEnvelope_payload event) "status" ≫= Value_as_str
                      ≠ Some "interrupted") then false else active
  | AgentRunAborted | RecoveryContinued | RecoveryAbandoned => false
  | UnknownKind kind => if str_eqb kind "force_terminated" then false else active
  | _ => active
  end.
Definition recovery_required (events : list EventEnvelope) : bool :=
  foldl recovery_event false events.

Definition is_approval_event (k : EventKind) : bool :=
  match k with
  | ApprovalRequested | ApprovalResolved | ApprovalRevoked | ApprovalExpired
  | ApprovalConsumed => true
  | _ => false
  end.
Definition approval_of_event (event : EventEnvelope) : result string ApprovalRequest :=
  approval ← ok_or ("approval event at sequence " +:+ pretty (EventEnvelope_sequence event)
                    +:+ " is missing approval payload")
               (Value_get (EventEnvelope_payload event) "approval");
  map_err (λ error, "approval event at sequence " +:+ pretty (EventEnvelope_sequence event)
                    +:+ " is invalid: " +:+ error)
    (from_value approval).

(** [.filter(..).map(..).collect::<Result<HashMap<..>, _>>()]: later entries
    replace earlier ones with the same identifier; the first error wins. *)
Fixpoint collect_approvals (acc : gmap string ApprovalRequest) (events : list EventEnvelope)
    : result string (gmap string ApprovalRequest) :=
  match events with
  | [] => Ok acc
  | event :: rest =>
      if is_approval_event (EventEnvelope_kind event) then
        approval ← approval_of_event event;
        collect_approvals (<[ApprovalRequest_id approval := approval]> acc) rest
      else collect_approvals acc rest
  end.
Definition replay_approvals (events : list EventEnvelope)
    : result string (gmap string ApprovalRequest) := collect_approvals ∅ events.

Definition is_running (p : PauseController) : bool :=
  match PauseController_state p with PRunning => true | _ => false end.

Definition MissionActor_try_new (mission_id : MissionId) (route_id : RouteId) (ledger : L)
    : result string actor :=
  let sequence := latest_sequence ledger mission_id in
  let replayed := replay_after ledger mission_id 0%Z in
  let pause := PauseController_from_events replayed in
  approvals ← replay_approvals replayed;
  let requires_recovery := recovery_required replayed in
  let ui_connected := is_running pause && negb requires_recovery in
  Ok {|
    MissionActor_mission_id := mission_id;
    MissionActor_route_id := route_id;
    MissionActor_ledger := ledger;
    MissionActor_sequence := sequence;
    MissionActor_pause := pause;
    MissionActor_process_tree := OwnedProcessTree_new;
    MissionActor_ui_connected := ui_connected;
    MissionActor_requires_recovery := requires_recovery;
    MissionActor_approvals := approvals;
    MissionActor_ids_drawn := 0 |}.

(** *** Appending *)

Definition append_envelope (event : EventEnvelope) : act unit := λ self,
  let '(ledger, r) := append_event event (MissionActor_ledger self) in
  match r with
  | Err error => (appended ledger (MissionActor_requires_recovery self)
                    (MissionActor_sequence self) self, Err (ActorLedgerError error))
  | Ok _ => (appended ledger (recovery_event (MissionActor_requires_recovery self) event)
               (EventEnvelope_sequence event) self, Ok tt)
  end.

Definition actor_append (kind : EventKind) (payload : Value) : act unit := λ self,
  let next := wrapping_add64 (MissionActor_sequence self) 1 in
  let event := EventEnvelope_new (event_ids (MissionActor_ids_drawn self))
    (MissionActor_mission_id self) (MissionActor_route_id self) next kind payload in
  append_envelope event (draw_id self).

Definition zoom_pause {A} (m : stm PauseController PauseError A) : act A :=
  stm_zoom MissionActor_pause set_pause ActorPauseError m.

Definition actor_request_safe_pause (reason : string) : act unit :=
  transition ← zoom_pause (pause_request reason);
  actor_append PauseRequested
    (json_object [("reason", Value_String reason);
                  ("state", Value_String (debug_fmt (PauseTransition_to transition)))]).

Definition actor_acknowledge_pause : act unit :=
  transition ← zoom_pause pause_acknowledge;
  actor_append (UnknownKind "pause_acknowledged")
    (json_object [("state", Value_String (debug_fmt (PauseTransition_to transition)))]).

Definition record_force_token_transition (transition : PauseTransition) : act string :=
  token ← stm_lift (ok_or (ActorPauseError InvalidState)
                      (PauseTransition_confirmation_token transition));
  _ ← (if bool_decide (PauseTransition_from transition ≠ PauseTransition_to transition) then
         actor_append (UnknownKind "pause_timed_out")
           (json_object [("state", Value_String (debug_fmt (PauseTransition_to transition)));
                         ("force_token", Value_String "[REDACTED:confirmation_token]")])
       else mret tt);
  mret token.

Definition actor_pause_timeout : act string :=
  transition ← zoom_pause pause_timeout;
  record_force_token_transition transition.

Definition request_force_termination : act string :=
  self ← stm_get;
  _ ← (if is_running (MissionActor_pause self)
       then actor_request_safe_pause "user requested force termination" else mret tt);
  transition ← zoom_pause force_termination_token;
  record_force_token_transition transition.

(** [os] is the operating system's answer to the termination request. *)
Definition actor_force_terminate (os : result string unit) (token : string) : act unit := λ self,
  if negb (pause_can_force_terminate (MissionActor_pause self) token)
  then (self, Err (ActorPauseError InvalidConfirmationToken))
  else
    let '(tree, r) := process_terminate os (MissionActor_process_tree self) in
    let self := set_process_tree tree self in
    match r with
    | Err message =>
        let '(self, _) := actor_append (UnknownKind "termination_failed")
          (json_object [("reason", Value_String message); ("state", Value_String "degraded");
                        ("degraded", Value_Bool true)]) self in
        (self, Err (ActorLedgerError ("termination failed: " +:+ message)))
    | Ok _ =>
        (transition ← zoom_pause (pause_force_terminate token);
         actor_append (UnknownKind "force_terminated")
           (json_object [("state", Value_String (debug_fmt (PauseTransition_to transition)))])) self
    end.

Definition set_ui_connected (connected : bool) : act unit :=
  _ ← stm_modify (set_ui connected);
  self ← stm_get;
  if negb connected && is_running (MissionActor_pause self)
  then actor_request_safe_pause "ui disconnected" else mret tt.

(** *** Approvals *)

Definition approval_event_payload (request : ApprovalRequest) : Value :=
  let subject := ApprovalRequest_subject request in
  let scope := match ApprovalRequest_scope request with
    | Once => "once" | RouteActionClass _ => "route_action_class" end in
  json_object
    [("approval", to_value request);
     ("approval_id", Value_String (ApprovalRequest_id request));
     ("action", Value_String (debug_fmt (ApprovalSubject_action_class subject)));
     ("action_class", to_value (ApprovalSubject_action_class subject));
     ("action_digest", Value_String (ApprovalSubject_action_digest subject));
     ("scope", Value_String scope);
     ("expires_at_ms", Value_U64 (ApprovalRequest_expires_at_ms request));
     ("expected_revision", Value_U64 (ApprovalRequest_revision request));
     ("contract_version", Value_U64 (ApprovalSubject_contract_version subject));
     ("loadout_fingerprint", Value_String (ApprovalSubject_loadout_fingerprint subject))].

Definition gate_action (context : PolicyContext) (intent : ActionIntent)
    (request : option ApprovalRequest) : act DispatchGate :=
  match evaluate context intent with
  | Allow => mret GateReady
  | RequireApproval _ action_evidence =>
      request ← stm_lift (ok_or MissingApprovalRequest request);
      self ← stm_get;
      let subject := ApprovalRequest_subject request in
      if bool_decide (ApprovalSubject_mission_id subject ≠ MissionActor_mission_id self)
         || bool_decide (ApprovalSubject_route_id subject ≠ MissionActor_route_id self)
         || bool_decide (ApprovalSubject_action_digest subject
                         ≠ ActionEvidence_action_digest action_evidence)
         || bool_decide (ApprovalSubject_action_class subject ≠ ActionIntent_class intent)
      then stm_throw ApprovalBindingMismatch
      else
        _ ← actor_append ApprovalRequested (approval_event_payload request);
        _ ← stm_modify (insert_approval (ApprovalRequest_id request) request);
        mret (GateWaitingForApproval (ApprovalRequest_id request))
  | RequireUserJudgment _ _ | DenyAndPause _ _ _ =>
      _ ← actor_request_safe_pause "policy denied action dispatch";
      mret GatePaused
  end.

Definition approval_payload (r : ApprovalRequest) : Value :=
  json_object [("approval", to_value r)].

(** What [resolve_approval] makes of the stored request: the resolved or
    revoked request and the kind of the event that records it. *)
Definition resolved_request (approval_actor : ApprovalActor) (command : ResolveApproval)
    (subject : ApprovalSubject) (current : ApprovalRequest)
    : result ActorError (ApprovalRequest * EventKind) :=
  let class := ApprovalSubject_action_class (ApprovalRequest_subject current) in
  let resolve decision next :=
    match ApprovalRequest_resolve {|
        ApprovalResolution_approval_id := ResolveApproval_approval_id command;
        ApprovalResolution_expected_revision := ResolveApproval_expected_revision command;
        ApprovalResolution_actor := approval_actor;
        ApprovalResolution_decision := decision;
        ApprovalResolution_subject := subject;
        ApprovalResolution_now_ms := ResolveApproval_now_ms command |} next with
    | (next, Ok _) => Ok (next, ApprovalResolved)
    | (_, Err e) => Err (ActorApprovalError e)
    end in
  match ResolveApproval_decision command with
  | DecisionApprove =>
      let scope := match ResolveApproval_scope command with
        | Some GrantRouteActionClass => RouteActionClass class
        | Some GrantOnce | None => Once end in
      match ApprovalRequest_set_scope scope current with
      | (next, Ok _) => resolve Approve next
      | (_, Err e) => Err (ActorApprovalError e)
      end
  | DecisionDeny => resolve Deny current
  | DecisionRevoke =>
      if bool_decide (ResolveApproval_expected_revision command ≠ ApprovalRequest_revision current)
      then Err (ActorApprovalError (RevisionConflict (ResolveApproval_expected_revision command)
                                                     (ApprovalRequest_revision current)))
      else match ApprovalRequest_revoke approval_actor current with
      | (next, Ok _) => Ok (next, ApprovalRevoked)
      | (_, Err e) => Err (ActorApprovalError e)
      end
  end.

Definition resolve_approval (actor_ : Actor) (command : ResolveApproval) : act ApprovalState :=
  self ← stm_get;
  current ← stm_lift (ok_or InvalidApprovalSubject
    (MissionActor_approvals self !! ResolveApproval_approval_id command));
  mission_id ← stm_lift (ok_or InvalidApprovalSubject
    (uuid_parse_str (ResolveApproval_mission_id command)));
  route_id ← stm_lift (ok_or InvalidApprovalSubject
    (uuid_parse_str (ResolveApproval_route_id command)));
  let subject := {|
    ApprovalSubject_mission_id := mission_id;
    ApprovalSubject_route_id := route_id;
    ApprovalSubject_action_digest := ResolveApproval_action_digest command;
    ApprovalSubject_action_class :=
      ApprovalSubject_action_class (ApprovalRequest_subject current);
    ApprovalSubject_contract_version := ResolveApproval_contract_version command;
    ApprovalSubject_loadout_fingerprint := ResolveApproval_loadout_fingerprint command |} in
  next ← stm_lift (resolved_request (protocol_actor actor_) command subject current);
  _ ← actor_append next.2 (approval_payload next.1);
  _ ← stm_modify (insert_approval (ResolveApproval_approval_id command) next.1);
  mret (ApprovalRequest_state next.1).

Definition authorize_approved_action (approval_id : string) (subject : ApprovalSubject)
    (now_ms : u64) : act unit :=
  self ← stm_get;
  current ← stm_lift (ok_or InvalidApprovalSubject
    (MissionActor_approvals self !! approval_id));
  let '(next, r) := ApprovalRequest_authorize subject now_ms current in
  _ ← stm_lift (map_err ActorApprovalError r);
  _ ← (if bool_decide (ApprovalRequest_state current ≠ ApprovalRequest_state next)
       then actor_append ApprovalConsumed (approval_payload next) else mret tt);
  stm_modify (insert_approval approval_id next).

(** *** Budget, envelope and loadout *)

Definition budget_signal_event (signal : BudgetSignal) : EventKind * BudgetDimension * bool :=
  match signal with
  | Warning dimension => (BudgetWarning, dimension, false)
  | SignalRequireApproval dimension => (BudgetApprovalRequired, dimension, false)
  | PauseAtSafeBoundary dimension => (BudgetExceeded, dimension, true)
  end.
Fixpoint append_signals (signals : list BudgetSignal) (pause : bool) : act bool :=
  match signals with
  | [] => mret pause
  | signal :: rest =>
      let '(kind, dimension, p) := budget_signal_event signal in
      _ ← actor_append kind (json_object [("dimension", Value_String (debug_fmt dimension))]);
      append_signals rest (pause || p)
  end.
Definition apply_budget_signals (signals : list BudgetSignal) : act bool :=
  pause ← append_signals signals false;
  _ ← (if pause : bool then actor_request_safe_pause "mission budget reached at safe boundary"
       else mret tt);
  mret pause.

Definition check_flight_identity (envelope : FlightEnvelope) (current : FlightIdentity)
    : act EnvelopeDecision :=
  let decision := check_before_model_request envelope current in
  _ ← match decision with
      | PauseIdentityChanged =>
          _ ← actor_append FlightEnvelopeChanged (json_object
            [("provider", Value_String (FlightIdentity_provider current));
             ("model", Value_String (FlightIdentity_model current));
             ("loadout_fingerprint",
               Value_String (FlightIdentity_loadout_fingerprint current))]);
          actor_request_safe_pause "flight envelope identity changed"
      | EnvelopeAllow => mret tt
      end;
  mret decision.

Fixpoint revoke_all (ids : list string) : act unit :=
  match ids with
  | [] => mret tt
  | approval_id :: rest =>
      self ← stm_get;
      current ← stm_lift (ok_or InvalidApprovalSubject
        (MissionActor_approvals self !! approval_id));
      let '(next, r) := ApprovalRequest_revoke_for_loadout_change current in
      _ ← stm_lift (map_err ActorApprovalError r);
      _ ← actor_append ApprovalRevoked
        (json_object [("approval", to_value next); ("reason", Value_String "loadout_changed")]);
      _ ← stm_modify (insert_approval approval_id next);
      revoke_all rest
  end.
Definition check_loadout_change (previous_fingerprint next_fingerprint : string) : act bool :=
  if blank previous_fingerprint || blank next_fingerprint
     || str_eqb previous_fingerprint next_fingerprint
  then mret false
  else
    self ← stm_get;
    let approval_ids := ApprovalRequest_id <$>
      filter (λ r, is_revocable (ApprovalRequest_state r) = true)
        (hash_values (MissionActor_approvals self)) in
    _ ← revoke_all approval_ids;
    _ ← actor_append LoadoutChanged (json_object
      [("previous_fingerprint", Value_String previous_fingerprint);
       ("next_fingerprint", Value_String next_fingerprint)]);
    _ ← actor_request_safe_pause "provider loadout changed";
    mret true.

(** *** Events from the agent and from the service *)

Definition approval_from_agent_event (event : AgentEvent) (mission_id : MissionId)
    (route_id : RouteId) : option ApprovalRequest :=
  payload ← Value_as_object (AgentEvent_payload event);
  id ← match (payload : gmap string Value) !! "approval_id" ≫= Value_as_str with
       | Some id => Some id
       | None => to_vec <$> (payload !! "server_request_id")
       end;
  let action_digest := default "protocol-request" (payload !! "action_digest" ≫= Value_as_str) in
  let contract_version := default 1%Z (payload !! "contract_version" ≫= Value_as_u64) in
  let loadout_fingerprint :=
    default "protocol" (payload !! "loadout_fingerprint" ≫= Value_as_str) in
  result_ok (ApprovalRequest_new id {|
      ApprovalSubject_mission_id := mission_id;
      ApprovalSubject_route_id := route_id;
      ApprovalSubject_action_digest := action_digest;
      ApprovalSubject_action_class := AWrite;
      ApprovalSubject_contract_version := contract_version;
      ApprovalSubject_loadout_fingerprint := loadout_fingerprint |}
    Once ActorSupervisor u64_max).

Definition with_payload (payload : Value) (hash : string) (e : EventEnvelope) : EventEnvelope := {|
  EventEnvelope_event_id := EventEnvelope_event_id e;
  EventEnvelope_schema_version := EventEnvelope_schema_version e;
  EventEnvelope_mission_id := EventEnvelope_mission_id e;
  EventEnvelope_route_id := EventEnvelope_route_id e;
  EventEnvelope_agent_run_id := EventEnvelope_agent_run_id e;
  EventEnvelope_sequence := EventEnvelope_sequence e;
  EventEnvelope_occurred_at := EventEnvelope_occurred_at e;
  EventEnvelope_source := EventEnvelope_source e;
  EventEnvelope_confidence := EventEnvelope_confidence e;
  EventEnvelope_kind := EventEnvelope_kind e;
  EventEnvelope_payload := payload;
  EventEnvelope_raw_evidence := EventEnvelope_raw_evidence e;
  EventEnvelope_payload_hash := hash;
  EventEnvelope_correlation_id := EventEnvelope_correlation_id e;
  EventEnvelope_causation_id := EventEnvelope_causation_id e;
  EventEnvelope_links := EventEnvelope_links e |}.
Definition with_source (source : EventSource) (confidence : EventConfidence) (e : EventEnvelope)
    : EventEnvelope := {|
  EventEnvelope_event_id := EventEnvelope_event_id e;
  EventEnvelope_schema_version := EventEnvelope_schema_version e;
  EventEnvelope_mission_id := EventEnvelope_mission_id e;
  EventEnvelope_route_id := EventEnvelope_route_id e;
  EventEnvelope_agent_run_id := EventEnvelope_agent_run_id e;
  EventEnvelope_sequence := EventEnvelope_sequence e;
  EventEnvelope_occurred_at := EventEnvelope_occurred_at e;
  EventEnvelope_source := source;
  EventEnvelope_confidence := confidence;
  EventEnvelope_kind := EventEnvelope_kind e;
  EventEnvelope_payload := EventEnvelope_payload e;
  EventEnvelope_raw_evidence := EventEnvelope_raw_evidence e;
  EventEnvelope_payload_hash := EventEnvelope_payload_hash e;
  EventEnvelope_correlation_id := EventEnvelope_correlation_id e;
  EventEnvelope_causation_id := EventEnvelope_causation_id e;
  EventEnvelope_links := EventEnvelope_links e |}.

(** The three [payload.insert] calls. *)
Definition bind_approval (approval : ApprovalRequest) (payload : Value) : Value :=
  match Value_as_object payload with
  | Some m => Value_Object
      (<["expected_revision" := Value_U64 (ApprovalRequest_revision approval)]>
       (<["approval_id" := Value_String (ApprovalRequest_id approval)]>
        (<["approval" := to_value approval]> m)))
  | None => payload
  end.

Definition record_agent_event (event : AgentEvent) : act unit :=
  self ← stm_get;
  let approval :=
    if bool_decide (AgentEvent_event_kind event = ApprovalRequested)
    then approval_from_agent_event event (MissionActor_mission_id self)
           (MissionActor_route_id self)
    else None in
  let next := wrapping_add64 (MissionActor_sequence self) 1 in
  let envelope := into_envelope event (MissionActor_mission_id self)
    (MissionActor_route_id self) next in
  let envelope := match approval with
    | Some approval =>
        let payload := bind_approval approval (EventEnvelope_payload envelope) in
        with_payload payload (payload_hash payload) envelope
    | None => envelope
    end in
  _ ← append_envelope (with_source SourceAgent Observed envelope);
  match approval with
  | Some approval => stm_modify (insert_approval (ApprovalRequest_id approval) approval)
  | None => mret tt
  end.

Definition record_event (kind : EventKind) (payload : Value) : act unit :=
  actor_append kind payload.

Definition resolve_recovery (decision : string) (manifest : Value) : act unit :=
  self ← stm_get;
  if negb (MissionActor_requires_recovery self) then stm_throw RecoveryNotRequired
  else
    kind ← stm_lift (if str_eqb decision "continue" then Ok RecoveryContinued
                     else if str_eqb decision "abandon" then Ok RecoveryAbandoned
                     else Err RecoveryDecisionInvalid);
    actor_append kind (json_object [("decision", Value_String decision);
                                    ("manifest", manifest)]).
End actor.
