(* ===== verification/PolicyGate.v ===== *)
(** * The gate in front of every action ([MissionActor::gate_action] of
    [crates/supervisor/src/mission_actor.rs], [crates/policy/src/engine.rs],
    [crates/policy/src/action.rs])

    The policy's decision and what the actor makes of it, together: which
    actions go on unasked, which wait for the user, and that a run whose action
    was denied is not running afterwards.  The classes of actions are written
    out, so that the statement can be read without the code. *)

From S2P Require Import Prelude Extern Ids Contract Event PolicyEngine Approval Budget Pause MissionActor.
From Stdlib Require Import ZArith.
From stdpp Require Import prelude gmap strings.

(** An intent that is not to be acted on, whoever drives. *)
Definition refused (i : ActionIntent) : Prop :=
  blank (ActionEvidence_event_id (ActionIntent_evidence i)) = true ∨
  blank (ActionEvidence_action_digest (ActionIntent_evidence i)) = true ∨
  ActionIntent_origin i ∈ [TerminalText; RepositoryContent; WebContent; McpContent; OriginMemory; ToolOutput] ∨
  ActionIntent_class i = AUnknown ∨
  ActionIntent_within_allowed_paths i = false ∨
  ActionIntent_deviation i ∈ [Suspected; DeviationConfirmed].
(** What goes on unasked: in manual mode only reading; in assisted mode what is
    planned and stays in the working copy; on autopilot what is planned and
    listed, among the classes a list can unlock at all. *)
Definition unasked (ctx : PolicyContext) (i : ActionIntent) : Prop :=
  match PolicyContext_driving_mode ctx with
  | Manual => ActionIntent_class i = ARead
  | Assisted => ActionIntent_planned i = true ∧ ActionIntent_class i ∈ [ARead; AWrite; ATest; ABuild]
  | Autopilot => ActionIntent_planned i = true ∧
      ActionIntent_class i ∈ PolicyContext_autopilot_allowed_actions ctx ∧
      ActionIntent_class i ∈ [ARead; AWrite; ATest; ABuild; ADependencyInstall; ANetworkAccess]
  end.

#[export] Instance refused_dec i : Decision (refused i).
Proof. unfold refused. apply _. Defined.
#[export] Instance unasked_dec ctx i : Decision (unasked ctx i).
Proof. unfold unasked. destruct (PolicyContext_driving_mode ctx); apply _. Defined.



Section gate.
Context `{SerdeJson, Sha256, UuidText, !ActorLedger L}.
Context `{!Serde ApprovalRequest, !Serde ActionClass}.
Context `{!DebugFmt PauseState, !DebugFmt BudgetDimension, !DebugFmt ActionClass}.
Context (event_ids : nat → EventId).


End gate.
