(* ===== verification/ActorRecovery.v ===== *)
(** * Crash recovery of the mission actor

    The actor's promise: what it holds in memory is what its ledger says.
    [durable] states it; every method preserves it as long as appends
    succeed; so the actor rebuilt from the ledger after a crash agrees with
    the one that was lost, up to the information a pause state keeps only in
    memory. *)

From S2P Require Import Prelude Extern Ids Event PolicyEngine Approval Budget Envelope.
From S2P Require Import Command AdapterCore ProcessTree Pause MissionActor.
From Stdlib Require Import ZArith Lia.
From stdpp Require Import prelude gmap strings pretty.

(** The pause state a restart sees: a live pause loses its reason, an open
    termination offer loses its token. *)
Definition recovered (s : PauseState) : PauseState :=
  match s with
  | PPaused _ => PAcknowledged
  | PForceAvailable _ => PTimedOut
  | s => s
  end.

Section recovery.
Context `{SerdeJson, Sha256, UuidText, !ActorLedger L}.
Context `{!Serde ApprovalRequest, !Serde ActionClass}.
Context `{!DebugFmt PauseState, !DebugFmt BudgetDimension, !DebugFmt ActionClass}.
Context `{!HashOrder ApprovalRequest}.
Context `{!SerdeJsonLaws, !SerdeLaws ApprovalRequest, !ActorLedgerLaws L}.
Context `{!HashOrderLaws ApprovalRequest}.
Context (event_ids : nat → EventId).
(** The ledger accepts every event. *)
Context (reliable : ∀ e (l : L), (append_event e l).2 = Ok tt).

Abbreviation actor := (MissionActor L).

Definition events_of (a : actor) : list EventEnvelope :=
  history (MissionActor_ledger a) (MissionActor_mission_id a).

Record durable (a : actor) : Prop := {
  d_approvals : replay_approvals (events_of a) = Ok (MissionActor_approvals a);
  d_recovery : recovery_required (events_of a) = MissionActor_requires_recovery a;
  d_pause : foldl pause_event PRunning (events_of a) =
    recovered (PauseController_state (MissionActor_pause a));
  d_sequence : ∀ e, e ∈ events_of a →
    (0 < EventEnvelope_sequence e ≤ MissionActor_sequence a)%Z;
  d_latest : MissionActor_sequence a = 0%Z ∨
    ∃ e, e ∈ events_of a ∧ EventEnvelope_sequence e = MissionActor_sequence a;
  d_keys : ∀ k r, MissionActor_approvals a !! k = Some r → ApprovalRequest_id r = k;
}.

(** Sequence numbers and the length of the history advance together. *)
Definition durable_from (off : Z) (a : actor) : Prop :=
  durable a ∧ (0 ≤ MissionActor_sequence a)%Z ∧
  MissionActor_sequence a = (off + Z.of_nat (length (events_of a)))%Z.

(** [keeps off a a']: going from [a] to [a'] keeps the promise, provided the
    sequence numbers used fit in a [u64]. *)
Definition keeps (off : Z) (a a' : actor) : Prop :=
  length (events_of a) ≤ length (events_of a') ∧
  MissionActor_mission_id a' = MissionActor_mission_id a ∧
  (durable_from off a → (off + Z.of_nat (length (events_of a')) ≤ u64_max)%Z →
   durable_from off a').

#[export] Instance keeps_preorder off : PreOrder (keeps off).
Proof.
  split; [by intros a|]. intros a b c (L1&M1&K1) (L2&M2&K2).
  split; [lia|]. split; [congruence|]. intros Ha Hc. apply K2; [|done]. apply K1; [done|lia].
Qed.

(** *** Appending one event *)

Definition next_event (kind : EventKind) (payload : Value) (a : actor) : EventEnvelope :=
  EventEnvelope_new (event_ids (MissionActor_ids_drawn a)) (MissionActor_mission_id a)
    (MissionActor_route_id a) (wrapping_add64 (MissionActor_sequence a) 1) kind payload.

Definition after_append (e : EventEnvelope) (a : actor) : actor :=
  appended (append_event e (MissionActor_ledger a)).1
    (recovery_event (MissionActor_requires_recovery a) e) (EventEnvelope_sequence e) a.

Lemma append_envelope_run e (a : actor) : append_envelope e a = (after_append e a, Ok tt).
Proof.
  unfold append_envelope, after_append. pose proof (reliable e (MissionActor_ledger a)) as Hr.
  destruct (append_event e (MissionActor_ledger a)) as [l r]. simpl in *. by subst.
Qed.
Lemma actor_append_run k p (a : actor) :
  actor_append event_ids k p a = (after_append (next_event k p a) (draw_id a), Ok tt).
Proof. apply append_envelope_run. Qed.

Lemma after_append_events e (a : actor) :
  EventEnvelope_mission_id e = MissionActor_mission_id a →
  events_of (after_append e a) = events_of a ++ [e].
Proof.
  intros Hm. unfold events_of. simpl. rewrite <-Hm. apply append_ok.
  pose proof (reliable e (MissionActor_ledger a)) as Hr.
  destruct (append_event e (MissionActor_ledger a)) as [l r]. simpl in *. by subst.
Qed.

Lemma collect_approvals_app acc l k :
  collect_approvals acc (l ++ k) = (m ← collect_approvals acc l; collect_approvals m k).
Proof.
  revert acc. induction l as [|e l IH]; intros acc; simpl; [done|].
  destruct (is_approval_event _); [|done].
  destruct (approval_of_event e); simpl; [apply IH|done].
Qed.

(** How the three projections absorb one more event. *)
Lemma replay_approvals_snoc l e m :
  replay_approvals l = Ok m →
  replay_approvals (l ++ [e]) =
    if is_approval_event (EventEnvelope_kind e)
    then r ← approval_of_event e; Ok (<[ApprovalRequest_id r := r]> m) else Ok m.
Proof.
  unfold replay_approvals. intros Hl. rewrite collect_approvals_app, Hl. simpl. by case_match.
Qed.
Lemma recovery_required_snoc l e :
  recovery_required (l ++ [e]) = recovery_event (recovery_required l) e.
Proof. unfold recovery_required. by rewrite foldl_app. Qed.

(** The general preservation step: [a'] is [a] with event [e] appended and
    the memory updated as a replay of [e] would. *)
Lemma keeps_append off (a a' : actor) e :
  MissionActor_mission_id a' = MissionActor_mission_id a →
  events_of a' = events_of a ++ [e] →
  EventEnvelope_sequence e = wrapping_add64 (MissionActor_sequence a) 1 →
  MissionActor_sequence a' = EventEnvelope_sequence e →
  MissionActor_requires_recovery a' = recovery_event (MissionActor_requires_recovery a) e →
  recovered (PauseController_state (MissionActor_pause a')) =
    pause_event (recovered (PauseController_state (MissionActor_pause a))) e →
  (durable a → if is_approval_event (EventEnvelope_kind e)
   then ∃ r, approval_of_event e = Ok r ∧
     MissionActor_approvals a' = <[ApprovalRequest_id r := r]> (MissionActor_approvals a)
   else MissionActor_approvals a' = MissionActor_approvals a) →
  keeps off a a'.
Proof.
  intros Hm He Hse Hs Hr Hp Ha0. unfold keeps, durable_from. rewrite He, length_app. simpl.
  split; [lia|]. split; [done|]. intros (Hd&Hpos&Hoff) Hbound.
  specialize (Ha0 Hd) as Ha. clear Ha0. destruct Hd as [D1 D2 D3 D4 D5 D6].
  rewrite wrapping_add64_small in Hse by (unfold u64_max in *; lia).
  assert (MissionActor_sequence a' = MissionActor_sequence a + 1)%Z as Hseq by lia.
  split; [|split; simpl in *; lia]. split; rewrite ?He.
  - rewrite (replay_approvals_snoc _ _ _ D1). case_match; [|by rewrite Ha].
    destruct Ha as (r&Hok&->). by rewrite Hok.
  - by rewrite recovery_required_snoc, D2.
  - by rewrite foldl_app, D3.
  - intros x. rewrite elem_of_app, list_elem_of_singleton. intros [Hx| ->]; [|lia].
    specialize (D4 x Hx). lia.
  - right. exists e. split; [set_solver|done].
  - case_match; [|by rewrite Ha]. destruct Ha as (r&_&->). intros k x Hk.
    apply lookup_insert_Some in Hk as [[<- <-]|[_ Hk]]; [done|by apply D6].
Qed.

(** Kinds that touch neither the approvals nor the pause state on replay. *)
Definition neutral_kind (k : EventKind) : bool :=
  negb (is_approval_event k)
  && negb (existsb (str_eqb (EventKind_as_str k))
       ["pause_requested"; "pause_acknowledged"; "pause_timed_out"; "force_terminated"]).

Lemma neutral_pause st e :
  neutral_kind (EventEnvelope_kind e) = true → pause_event st e = st.
Proof.
  unfold neutral_kind, pause_event. simpl. intros Hn.
  repeat case_match; simpl in Hn; rewrite ?andb_false_r in Hn; try done.
Qed.
Lemma neutral_approval k : neutral_kind k = true → is_approval_event k = false.
Proof. unfold neutral_kind. intros. by guards. Qed.

Lemma keeps_neutral off e (a : actor) :
  neutral_kind (EventEnvelope_kind e) = true →
  EventEnvelope_mission_id e = MissionActor_mission_id a →
  EventEnvelope_sequence e = wrapping_add64 (MissionActor_sequence a) 1 →
  keeps off a (after_append e a).
Proof.
  intros Hn Hm Hs. apply (keeps_append off a _ e); try done.
  - by apply after_append_events.
  - by rewrite neutral_pause.
  - by rewrite neutral_approval.
Qed.
(** The other fields do not matter. *)
Lemma keeps_same off (a a' : actor) :
  MissionActor_mission_id a' = MissionActor_mission_id a →
  MissionActor_ledger a' = MissionActor_ledger a →
  MissionActor_sequence a' = MissionActor_sequence a →
  MissionActor_pause a' = MissionActor_pause a →
  MissionActor_requires_recovery a' = MissionActor_requires_recovery a →
  MissionActor_approvals a' = MissionActor_approvals a → keeps off a a'.
Proof.
  intros E1 E2 E3 E4 E5 E6. unfold keeps, durable_from.
  assert (events_of a' = events_of a) as Ee by (unfold events_of; by rewrite E1, E2).
  rewrite Ee, E3. split; [done|]. split; [done|]. intros ([D1 D2 D3 D4 D5 D6]&?&?) _.
  split; [|done]. by split; rewrite ?Ee, ?E3, ?E4, ?E5, ?E6.
Qed.
Lemma keeps_draw off a : keeps off a (draw_id a).
Proof. by apply keeps_same. Qed.
Lemma keeps_actor_append off k p (a a' : actor) r :
  neutral_kind k = true → actor_append event_ids k p a = (a', r) → keeps off a a'.
Proof.
  intros Hn. rewrite actor_append_run. intros [= <- <-].
  etransitivity; [apply keeps_draw|]. by apply keeps_neutral.
Qed.

(** *** The two compound steps *)

(** A pause transition recorded by the event appended right after it. *)
Lemma keeps_pause_append off (a a' : actor) p' k payload r :
  is_approval_event k = false →
  recovered (PauseController_state p') =
    pause_event (recovered (PauseController_state (MissionActor_pause a)))
      (next_event k payload (set_pause p' a)) →
  actor_append event_ids k payload (set_pause p' a) = (a', r) → keeps off a a'.
Proof.
  intros Hk Hp. rewrite actor_append_run. intros [= <- <-].
  apply (keeps_append off a _ (next_event k payload (set_pause p' a))); try done.
  - by rewrite after_append_events.
  - simpl. by rewrite Hk.
Qed.

(** An approval event followed by the insertion it announces. *)
Lemma keeps_approval_event off (a : actor) e key req :
  (durable a → ApprovalRequest_id req = key) →
  is_approval_event (EventEnvelope_kind e) = true →
  Value_get (EventEnvelope_payload e) "approval" = Some (to_value req) →
  EventEnvelope_mission_id e = MissionActor_mission_id a →
  EventEnvelope_sequence e = wrapping_add64 (MissionActor_sequence a) 1 →
  keeps off a (insert_approval key req (after_append e a)).
Proof.
  intros Hkey Hk Hv Hm Hs. apply (keeps_append off a _ e); try done.
  - change (events_of (after_append e a) = events_of a ++ [e]). by apply after_append_events.
  - simpl. unfold pause_event. by destruct (EventEnvelope_kind e).
  - intros Hd. rewrite Hk. exists req. split; [|by rewrite <-(Hkey Hd)]. unfold approval_of_event. rewrite Hv. simpl.
    by rewrite from_to_value.
Qed.
Lemma keeps_approval_append off (a : actor) k payload key req :
  (durable a → ApprovalRequest_id req = key) →
  is_approval_event k = true → Value_get payload "approval" = Some (to_value req) →
  keeps off a (insert_approval key req
    (after_append (next_event k payload a) (draw_id a))).
Proof.
  intros Hkey Hk Hv. etransitivity; [apply (keeps_draw off)|].
  apply keeps_approval_event; try done. intros [D1 D2 D3 D4 D5 D6]. apply Hkey. by split.
Qed.

Lemma json_first k v l : Value_get (json_object ((k, v) :: l)) k = Some v.
Proof. unfold json_object. rewrite get_Object. simpl. apply lookup_insert_eq. Qed.

Ltac act_simpl :=
  unfold mbind, stm_bind, mret, stm_ret, stm_get, stm_modify, stm_lift, stm_throw in *;
  simpl in *.

(** *** Every method keeps the promise *)

Lemma keeps_request_safe_pause off reason (a a' : actor) r :
  actor_request_safe_pause event_ids reason a = (a', r) → keeps off a a'.
Proof.
  unfold actor_request_safe_pause, zoom_pause, stm_zoom. act_simpl. unfold pause_request.
  destruct (PauseController_state (MissionActor_pause a)) eqn:Hst; simpl;
    try (intros [= <- <-]; by destruct a).
  intros Hap. eapply (keeps_pause_append off a); [| |exact Hap]; [done|].
  simpl. unfold pause_event. simpl. rewrite json_first. simpl. by rewrite as_str_String.
Qed.

Lemma keeps_acknowledge_pause off (a a' : actor) r :
  actor_acknowledge_pause event_ids a = (a', r) → keeps off a a'.
Proof.
  unfold actor_acknowledge_pause, zoom_pause, stm_zoom. act_simpl. unfold pause_acknowledge.
  destruct (PauseController_state (MissionActor_pause a)) eqn:Hst; simpl;
    try (intros [= <- <-]; by destruct a).
  intros Hap. eapply (keeps_pause_append off a); [| |exact Hap]; done.
Qed.

Lemma keeps_force_token off (a a' : actor) r :
  (transition ← zoom_pause force_termination_token;
   record_force_token_transition event_ids transition) a = (a', r) → keeps off a a'.
Proof.
  unfold zoom_pause, stm_zoom, record_force_token_transition. act_simpl.
  unfold force_termination_token.
  destruct (PauseController_state (MissionActor_pause a)) eqn:Hst; simpl;
    try (intros [= <- <-]; by destruct a).
  all: rewrite ?(bool_decide_eq_true_2 (_ ≠ _)) by done; simpl.
  5: rewrite (bool_decide_eq_false_2 (_ ≠ _)) by auto; simpl; intros [= <- <-]; by destruct a.
  all: intros Hap; destruct (actor_append _ _ _ _) as [a1 r1] eqn:Ha1;
    destruct r1; simplify_eq;
    (eapply (keeps_pause_append off a); [| |exact Ha1]; done).
Qed.

Lemma keeps_force_terminate off os token (a a' : actor) r :
  actor_force_terminate event_ids os token a = (a', r) → keeps off a a'.
Proof.
  unfold actor_force_terminate. destruct (negb _) eqn:Hcan; [by intros [= <- <-]|].
  destruct (process_terminate os _) as [tree [u|msg]].
  - unfold zoom_pause, stm_zoom. act_simpl. unfold pause_force_terminate.
    unfold pause_can_force_terminate in Hcan. simpl.
    destruct (PauseController_state (MissionActor_pause a)) eqn:Hst; simpl in *; try done.
    destruct (str_eqb _ _); [|done]. simpl. intros Hap.
    transitivity (set_process_tree tree a); [by apply keeps_same|].
    eapply (keeps_pause_append off (set_process_tree tree a)); [| |exact Hap]; done.
  - destruct (actor_append _ _ _ _) as [a1 r1] eqn:Ha1. intros [= <- <-].
    transitivity (set_process_tree tree a); [by apply keeps_same|].
    eapply keeps_actor_append; [|exact Ha1]. done.
Qed.

Lemma keeps_request_force_termination off (a a' : actor) r :
  request_force_termination event_ids a = (a', r) → keeps off a a'.
Proof.
  unfold request_force_termination. act_simpl. destruct (is_running _).
  - destruct (actor_request_safe_pause _ _ a) as [a1 [u|e]] eqn:Hp.
    + intros Ht. transitivity a1; [by eapply keeps_request_safe_pause|].
      eapply keeps_force_token. exact Ht.
    + intros [= <- <-]. by eapply keeps_request_safe_pause.
  - intros Ht. eapply keeps_force_token. exact Ht.
Qed.

Lemma keeps_set_ui_connected off c (a a' : actor) r :
  set_ui_connected event_ids c a = (a', r) → keeps off a a'.
Proof.
  unfold set_ui_connected. act_simpl. transitivity (set_ui c a); [by apply keeps_same|].
  destruct (negb c && _); [by eapply keeps_request_safe_pause|by simplify_eq].
Qed.

Lemma keeps_gate_action off ctx intent req (a a' : actor) r :
  gate_action event_ids ctx intent req a = (a', r) → keeps off a a'.
Proof.
  unfold gate_action. destruct (evaluate ctx intent) as [|rc ev|rc ev|cl rc ev]; act_simpl.
  - by intros [= <- <-].
  - destruct req as [req|]; simpl; [|by intros [= <- <-]].
    destruct (_ || _); [by intros [= <- <-]|]. rewrite actor_append_run. intros [= <- <-].
    apply keeps_approval_append; [done|done|]. apply json_first.
  - destruct (actor_request_safe_pause _ _ a) as [a1 [u|e]] eqn:Hp; intros [= <- <-];
      by eapply keeps_request_safe_pause.
  - destruct (actor_request_safe_pause _ _ a) as [a1 [u|e]] eqn:Hp; intros [= <- <-];
      by eapply keeps_request_safe_pause.
Qed.

Lemma resolved_request_id who cmd subject current next k :
  resolved_request who cmd subject current = Ok (next, k) →
  ApprovalRequest_id next = ApprovalRequest_id current ∧ is_approval_event k = true.
Proof.
  unfold resolved_request, ApprovalRequest_resolve, ApprovalRequest_set_scope,
    ApprovalRequest_revoke. repeat case_match; intros; by simplify_eq/=.
Qed.

Lemma keeps_resolve_approval off who cmd (a a' : actor) r :
  resolve_approval event_ids who cmd a = (a', r) → keeps off a a'.
Proof.
  unfold resolve_approval. act_simpl.
  destruct (_ !! _) as [current|] eqn:Hcur; simpl; [|by intros [= <- <-]].
  destruct (uuid_parse_str _); simpl; [|by intros [= <- <-]].
  destruct (uuid_parse_str _); simpl; [|by intros [= <- <-]].
  destruct (resolved_request _ _ _ _) as [[next k]|] eqn:Hnext; simpl; [|by intros [= <- <-]].
  apply resolved_request_id in Hnext as [Hid Hk]. rewrite actor_append_run. simpl.
  intros [= <- <-]. apply keeps_approval_append; [|done|apply json_first].
  intros Hd. rewrite Hid. by apply (d_keys _ Hd).
Qed.

Lemma authorize_id subject now current next r :
  ApprovalRequest_authorize subject now current = (next, r) →
  ApprovalRequest_id next = ApprovalRequest_id current ∧
  (r = Ok tt → ApprovalRequest_state next = ApprovalRequest_state current → next = current).
Proof.
  unfold ApprovalRequest_authorize. repeat case_match; guards; intros; simplify_eq/=;
    split; try done. congruence.
Qed.

Lemma keeps_authorize off id subject now (a a' : actor) r :
  authorize_approved_action event_ids id subject now a = (a', r) → keeps off a a'.
Proof.
  unfold authorize_approved_action. act_simpl.
  destruct (_ !! _) as [current|] eqn:Hcur; simpl; [|by intros [= <- <-]].
  destruct (ApprovalRequest_authorize _ _ _) as [next o] eqn:Ha.
  apply authorize_id in Ha as [Hid Hsame]. destruct o as [[]|e]; simpl; [|by intros [= <- <-]].
  destruct (bool_decide _) eqn:Hch; guards.
  - rewrite actor_append_run. simpl. intros [= <- <-].
    apply keeps_approval_append; [|done|apply json_first].
    intros Hd. rewrite Hid. by apply (d_keys _ Hd).
  - intros [= <- <-]. apply keeps_same; try done. simpl.
    rewrite (Hsame eq_refl (eq_sym Hch)). by apply insert_id.
Qed.

Lemma keeps_append_signals off signals : ∀ pause (a a' : actor) r,
  append_signals event_ids signals pause a = (a', r) → keeps off a a'.
Proof.
  induction signals as [|s signals IH]; intros pause a a' r; simpl; [by intros [= <- <-]|].
  destruct (budget_signal_event s) as [[k d] p] eqn:Hs.
  assert (neutral_kind k = true) as Hn by (destruct s; simplify_eq/=; done).
  act_simpl. destruct (actor_append _ _ _ a) as [a1 [u|e]] eqn:Ha.
  - intros Hl. transitivity a1; [by eapply keeps_actor_append|by eapply IH].
  - intros [= <- <-]. by eapply keeps_actor_append.
Qed.
Lemma keeps_budget_signals off signals (a a' : actor) r :
  apply_budget_signals event_ids signals a = (a', r) → keeps off a a'.
Proof.
  unfold apply_budget_signals. act_simpl.
  destruct (append_signals _ _ _ a) as [a1 [p|e]] eqn:Ha; [|intros [= <- <-]; by eapply keeps_append_signals].
  intros Hr. transitivity a1; [by eapply keeps_append_signals|]. destruct p; [|by simplify_eq].
  destruct (actor_request_safe_pause _ _ a1) as [a2 [u|e]] eqn:Hp; simplify_eq;
    by eapply keeps_request_safe_pause.
Qed.

(** Close with the append recorded in the context, of a neutral kind. *)
Ltac by_append :=
  match goal with
  | H : actor_append _ _ _ _ = _ |- _ => eapply keeps_actor_append; [|exact H]; done
  end.

Lemma keeps_flight_identity off env cur (a a' : actor) r :
  check_flight_identity event_ids env cur a = (a', r) → keeps off a a'.
Proof.
  unfold check_flight_identity. act_simpl. destruct (check_before_model_request env cur).
  - by intros [= <- <-].
  - destruct (actor_append _ _ _ a) as [a1 [u|e]] eqn:Ha;
      [|intros [= <- <-]; by_append].
    intros Hr. transitivity a1; [by_append|].
    destruct (actor_request_safe_pause _ _ a1) as [a2 [u'|e]] eqn:Hp; simplify_eq;
      by eapply keeps_request_safe_pause.
Qed.

Lemma keeps_revoke_all off ids : ∀ (a a' : actor) r,
  revoke_all event_ids ids a = (a', r) → keeps off a a'.
Proof.
  induction ids as [|id ids IH]; intros a a' r; simpl; [by intros [= <- <-]|]. act_simpl.
  destruct (_ !! _) as [current|] eqn:Hcur; simpl; [|by intros [= <- <-]].
  unfold ApprovalRequest_revoke_for_loadout_change.
  destruct (is_revocable _); simpl; [|by intros [= <- <-]].
  rewrite actor_append_run. simpl. intros Hl. etransitivity; [|by eapply IH].
  apply keeps_approval_append; [|done|apply json_first].
  intros Hd. simpl. by apply (d_keys _ Hd).
Qed.
Lemma keeps_loadout_change off prev next (a a' : actor) r :
  check_loadout_change event_ids prev next a = (a', r) → keeps off a a'.
Proof.
  unfold check_loadout_change. destruct (_ || _); [by intros [= <- <-]|]. act_simpl.
  destruct (revoke_all _ _ a) as [a1 [u|e]] eqn:Hr1;
    [|intros [= <- <-]; by eapply keeps_revoke_all].
  intros Hr. transitivity a1; [by eapply keeps_revoke_all|].
  destruct (actor_append _ _ _ a1) as [a2 [u2|e]] eqn:Hr2;
    [|simplify_eq; by_append].
  transitivity a2; [by_append|].
  destruct (actor_request_safe_pause _ _ a2) as [a3 [u3|e]] eqn:Hr3; simplify_eq;
    by eapply keeps_request_safe_pause.
Qed.

Lemma keeps_resolve_recovery off decision manifest (a a' : actor) r :
  resolve_recovery event_ids decision manifest a = (a', r) → keeps off a a'.
Proof.
  unfold resolve_recovery. act_simpl. destruct (negb _); [by intros [= <- <-]|].
  destruct (str_eqb _ _); simpl; [intros Ha; by_append|].
  destruct (str_eqb _ _); simpl; [intros Ha; by_append|]. by intros [= <- <-].
Qed.

(** What an agent event must be for the promise to survive it: either it does
    not speak for the supervisor, or it is an approval request from which a
    request can be built. *)
Definition agent_event_ok (a : actor) (event : AgentEvent) : bool :=
  neutral_kind (AgentEvent_event_kind event)
  || (bool_decide (AgentEvent_event_kind event = ApprovalRequested)
      && bool_decide (is_Some (approval_from_agent_event event (MissionActor_mission_id a)
                                 (MissionActor_route_id a)))).

Lemma keeps_record_agent_event off event (a a' : actor) r :
  agent_event_ok a event = true →
  record_agent_event event a = (a', r) → keeps off a a'.
Proof.
  unfold agent_event_ok, record_agent_event. act_simpl. intros Hok.
  destruct (bool_decide (AgentEvent_event_kind event = ApprovalRequested)) eqn:Hk; guards.
  - rewrite Hk in Hok. simpl in Hok. guards. destruct Hok as [req Hreq]. rewrite Hreq.
    rewrite append_envelope_run. intros [= <- <-]. apply keeps_approval_event; try done.
    + simpl. by rewrite Hk.
    + simpl. unfold approval_from_agent_event in Hreq. unfold bind_approval.
      destruct (Value_as_object (AgentEvent_payload event)) as [m|] eqn:Hm; [|done].
      rewrite get_Object, !lookup_insert_ne by done. apply lookup_insert_eq.
  - rewrite andb_false_l, orb_false_r in Hok. rewrite append_envelope_run. intros [= <- <-].
    by apply keeps_neutral.
Qed.

(** *** Histories of calls *)
Inductive actor_call :=
| AcGate (context : PolicyContext) (intent : ActionIntent) (request : option ApprovalRequest)
| AcResolve (who : Actor) (command : ResolveApproval)
| AcAuthorize (approval_id : string) (subject : ApprovalSubject) (now_ms : u64)
| AcBudget (signals : list BudgetSignal)
| AcFlight (envelope : FlightEnvelope) (current : FlightIdentity)
| AcLoadout (previous next : string)
| AcAgentEvent (event : AgentEvent)
| AcRecord (kind : EventKind) (payload : Value)
| AcRecovery (decision : string) (manifest : Value)
| AcPause (reason : string) | AcAcknowledge | AcTimeout | AcForceRequest
| AcForceTerminate (os : result string unit) (token : string)
| AcUi (connected : bool)
| AcRegister (pid : u32).

Definition actor_step (c : actor_call) (a : actor) : actor :=
  match c with
  | AcGate ctx i r => (gate_action event_ids ctx i r a).1
  | AcResolve w cmd => (resolve_approval event_ids w cmd a).1
  | AcAuthorize id s n => (authorize_approved_action event_ids id s n a).1
  | AcBudget s => (apply_budget_signals event_ids s a).1
  | AcFlight e cur => (check_flight_identity event_ids e cur a).1
  | AcLoadout p n => (check_loadout_change event_ids p n a).1
  | AcAgentEvent e => (record_agent_event e a).1
  | AcRecord k p => (record_event event_ids k p a).1
  | AcRecovery d m => (resolve_recovery event_ids d m a).1
  | AcPause r => (actor_request_safe_pause event_ids r a).1
  | AcAcknowledge => (actor_acknowledge_pause event_ids a).1
  | AcTimeout => (actor_pause_timeout event_ids a).1
  | AcForceRequest => (request_force_termination event_ids a).1
  | AcForceTerminate os t => (actor_force_terminate event_ids os t a).1
  | AcUi c => (set_ui_connected event_ids c a).1
  | AcRegister pid => set_process_tree (process_register pid (MissionActor_process_tree a)) a
  end.

(** Events recorded on behalf of others must not speak for the supervisor. *)
Definition call_ok (a : actor) (c : actor_call) : bool :=
  match c with
  | AcAgentEvent e => agent_event_ok a e
  | AcRecord k _ => neutral_kind k
  | _ => true
  end.

Inductive actor_run (a0 : actor) : list actor_call → actor → Prop :=
| arun_nil : actor_run a0 [] a0
| arun_call calls a c :
    actor_run a0 calls a → call_ok a c = true → actor_run a0 (calls ++ [c]) (actor_step c a).

Lemma keeps_step off c (a : actor) : call_ok a c = true → keeps off a (actor_step c a).
Proof.
  intros Hok. destruct c; simpl in *;
    match goal with
    | |- keeps _ _ (fst ?x) => destruct x as [a' r] eqn:Hx; simpl
    | |- _ => by apply keeps_same
    end.
  - by eapply keeps_gate_action.
  - by eapply keeps_resolve_approval.
  - by eapply keeps_authorize.
  - by eapply keeps_budget_signals.
  - by eapply keeps_flight_identity.
  - by eapply keeps_loadout_change.
  - by eapply keeps_record_agent_event.
  - by eapply keeps_actor_append.
  - by eapply keeps_resolve_recovery.
  - by eapply keeps_request_safe_pause.
  - by eapply keeps_acknowledge_pause.
  - eapply keeps_force_token. exact Hx.
  - by eapply keeps_request_force_termination.
  - by eapply keeps_force_terminate.
  - by eapply keeps_set_ui_connected.
Qed.
Lemma keeps_run off a0 calls a : actor_run a0 calls a → keeps off a0 a.
Proof.
  induction 1 as [|calls a c Hrun IH Hok]; [done|]. etransitivity; [done|]. by apply keeps_step.
Qed.

(** *** Rebuilding *)

Lemma max_sequence_bound (l : list EventEnvelope) n :
  (∀ e, e ∈ l → (0 < EventEnvelope_sequence e ≤ n)%Z) →
  n = 0%Z ∨ (∃ e, e ∈ l ∧ EventEnvelope_sequence e = n) →
  (0 ≤ n)%Z → foldr Z.max 0%Z (EventEnvelope_sequence <$> l) = n.
Proof.
  intros Hb Hmax Hn.
  assert (0 ≤ foldr Z.max 0 (EventEnvelope_sequence <$> l) ≤ n)%Z as Hle.
  { clear Hmax. induction l as [|e l IH]; csimpl; [lia|].
    specialize (IH ltac:(intros; apply Hb; by right)). specialize (Hb e ltac:(by left)). lia. }
  destruct Hmax as [->|(e&He&<-)]; [lia|].
  assert (EventEnvelope_sequence e ≤ foldr Z.max 0 (EventEnvelope_sequence <$> l))%Z; [|lia].
  clear -He. induction He as [l|e x l He IH]; csimpl; lia.
Qed.

Lemma filter_positive (l : list EventEnvelope) :
  (∀ e, e ∈ l → (0 < EventEnvelope_sequence e)%Z) →
  filter (λ e, (0 < EventEnvelope_sequence e)%Z) l = l.
Proof.
  induction l as [|e l IH]; intros Hp; [done|].
  rewrite filter_cons_True by (apply Hp; by left). f_equal. apply IH. intros; apply Hp; by right.
Qed.

Lemma pause_event_recovered st e : recovered st = st → recovered (pause_event st e) = pause_event st e.
Proof. unfold pause_event. by repeat case_match. Qed.
Lemma from_events_recovered l : ∀ st, recovered st = st →
  recovered (foldl pause_event st l) = foldl pause_event st l.
Proof.
  induction l as [|e l IH]; intros st Hst; simpl; [done|]. by apply IH, pause_event_recovered.
Qed.

Lemma collect_approvals_keys events : ∀ acc m,
  (∀ k r, acc !! k = Some r → ApprovalRequest_id r = k) →
  collect_approvals acc events = Ok m → ∀ k r, m !! k = Some r → ApprovalRequest_id r = k.
Proof.
  induction events as [|e events IH]; intros acc m Hacc Hm; simpl in Hm; [by simplify_eq|].
  destruct (is_approval_event _); [|by eapply IH].
  bind_inv Hm. eapply IH; [|exact Hm]. intros k r Hk.
  apply lookup_insert_Some in Hk as [[<- <-]|[_ Hk]]; auto.
Qed.

(** A freshly rebuilt actor keeps the promise. *)
Lemma try_new_durable mid rid (l : L) a :
  (∀ e, e ∈ history l mid → (0 < EventEnvelope_sequence e)%Z) →
  MissionActor_try_new mid rid l = Ok a →
  durable_from (MissionActor_sequence a - Z.of_nat (length (events_of a))) a.
Proof.
  intros Hpos Ha. unfold MissionActor_try_new in Ha. bind_inv Ha. injection Ha as <-.
  unfold latest_sequence in *. rewrite replay_after_history, filter_positive in * by done.
  assert (∀ l : list EventEnvelope, (0 ≤ foldr Z.max 0 (EventEnvelope_sequence <$> l))%Z ∧
    (∀ e, e ∈ l → EventEnvelope_sequence e ≤ foldr Z.max 0 (EventEnvelope_sequence <$> l))%Z ∧
    (foldr Z.max 0 (EventEnvelope_sequence <$> l) = 0%Z ∨
     ∃ e, e ∈ l ∧ EventEnvelope_sequence e = foldr Z.max 0 (EventEnvelope_sequence <$> l)))%Z as Hmax.
  { clear. induction l as [|e l (IH1&IH2&IH3)]; csimpl; [split_and!; [lia|set_solver|by left]|].
    split_and!; [lia| |].
    - intros x [->|Hx]%elem_of_cons; [lia|]. specialize (IH2 x Hx). lia.
    - destruct (Z.max_spec (EventEnvelope_sequence e)
        (foldr Z.max 0 (EventEnvelope_sequence <$> l))%Z) as [[_ ->]|[_ ->]].
      + destruct IH3 as [->|(x&?&?)]; [by left|right; set_solver].
      + right. exists e. split; [by left|done]. }
  destruct (Hmax (history l mid)) as (M1&M2&M3).
  split; [|split; [done|simpl; lia]]. split; unfold events_of; simpl; try done.
  - by rewrite from_events_recovered.
  - intros e He. specialize (M2 e He). specialize (Hpos e He). lia.
  - intros k r Hk. eapply collect_approvals_keys; [|done|done]. set_solver.
Qed.

(** Rebuilding from the ledger of an actor that keeps the promise. *)
Lemma durable_try_new rid (a : actor) off :
  durable_from off a →
  ∃ a', MissionActor_try_new (MissionActor_mission_id a) rid (MissionActor_ledger a) = Ok a' ∧
    MissionActor_sequence a' = MissionActor_sequence a ∧
    MissionActor_approvals a' = MissionActor_approvals a ∧
    MissionActor_requires_recovery a' = MissionActor_requires_recovery a ∧
    PauseController_state (MissionActor_pause a') =
      recovered (PauseController_state (MissionActor_pause a)).
Proof.
  intros ([D1 D2 D3 D4 D5 D6]&Hpos&_). unfold MissionActor_try_new, latest_sequence.
  rewrite replay_after_history, filter_positive; [|intros e He; by apply D4].
  change (history (MissionActor_ledger a) (MissionActor_mission_id a)) with (events_of a).
  rewrite D1. simpl. eexists. split; [done|]. simpl. split_and!; try done.
  by apply max_sequence_bound.
Qed.

(** Crash recovery.  Take an actor rebuilt from a ledger, drive it with
    any calls (events recorded on behalf of agents or of the service must not
    use the kinds reserved for the supervisor's own bookkeeping), and stop it
    anywhere.  As long as the ledger accepted the events and the sequence
    numbers stayed within [u64], the actor rebuilt from the ledger has the
    same sequence number, the same approvals and the same need for recovery,
    and its pause state is the lost one, less a pause's reason and an open
    termination offer's token. *)
Theorem crash_recovery mid rid (l0 : L) a0 calls a :
  (∀ e, e ∈ history l0 mid → (0 < EventEnvelope_sequence e)%Z) →
  MissionActor_try_new mid rid l0 = Ok a0 →
  actor_run a0 calls a →
  (MissionActor_sequence a0 + Z.of_nat (length (events_of a) - length (events_of a0))
    ≤ u64_max)%Z →
  ∃ a', MissionActor_try_new mid rid (MissionActor_ledger a) = Ok a' ∧
    MissionActor_sequence a' = MissionActor_sequence a ∧
    MissionActor_approvals a' = MissionActor_approvals a ∧
    MissionActor_requires_recovery a' = MissionActor_requires_recovery a ∧
    PauseController_state (MissionActor_pause a') =
      recovered (PauseController_state (MissionActor_pause a)).
Proof.
  intros Hpos Hnew Hrun Hbound.
  assert (MissionActor_mission_id a0 = mid) as Hmid.
  { unfold MissionActor_try_new in Hnew. bind_inv Hnew. by injection Hnew as <-. }
  pose proof (try_new_durable _ _ _ _ Hpos Hnew) as H0'.
  destruct (keeps_run (MissionActor_sequence a0 - Z.of_nat (length (events_of a0))) _ _ _ Hrun)
    as (Hlen&Hm&Hkeep).
  rewrite <-Hmid, <-Hm. eapply durable_try_new, Hkeep; [exact H0'|lia].
Qed.

(** The restriction is needed.  An agent event of the approval-request
    kind from which no approval can be built is appended as it is; the ledger
    it leaves behind can no longer be rebuilt into an actor at all. *)
Theorem unbindable_agent_approval_blocks_restart (a : actor) event rid off :
  durable_from off a → (MissionActor_sequence a < u64_max)%Z →
  AgentEvent_event_kind event = ApprovalRequested →
  approval_from_agent_event event (MissionActor_mission_id a) (MissionActor_route_id a) = None →
  Value_get (AgentEvent_payload event) "approval" = None →
  ∃ a' err, record_agent_event event a = (a', Ok tt) ∧
    MissionActor_try_new (MissionActor_mission_id a) rid (MissionActor_ledger a') = Err err.
Proof.
  intros ([D1 D2 D3 D4 D5 D6]&Hpos&_) Hmax Hk Hnone Hget. unfold record_agent_event. act_simpl.
  rewrite Hk, bool_decide_eq_true_2, Hnone by done. rewrite append_envelope_run. simpl.
  eexists _, _. split; [done|]. unfold MissionActor_try_new.
  set (e := with_source _ _ _).
  assert (history (MissionActor_ledger (after_append e a)) (MissionActor_mission_id a)
    = events_of a ++ [e]) as He by exact (after_append_events e a eq_refl).
  rewrite replay_after_history, He, filter_positive.
  - unfold replay_approvals. rewrite collect_approvals_app.
    unfold replay_approvals in D1. rewrite D1. simpl. rewrite Hk. simpl.
    unfold approval_of_event. simpl. by rewrite Hget.
  - intros x. rewrite elem_of_app, list_elem_of_singleton. intros [Hx| ->]; [by apply D4|].
    simpl. rewrite wrapping_add64_small; lia.
Qed.
End recovery.

(** ** A concrete mission on the in-memory ledger *)
Module RecoveryExamples.
Import Json.

(** Derived serialisation of approval requests, field by field. *)
Definition class_num (c : ActionClass) : Z :=
  match c with
  | ARead => 0 | AWrite => 1 | ATest => 2 | ABuild => 3 | ADependencyInstall => 4
  | ANetworkAccess => 5 | ACredentialAccess => 6 | AContractChange => 7 | AProviderChange => 8
  | AGitPush => 9 | AGitMerge => 10 | ADeploy => 11 | APermanentDelete => 12 | AUnknown => 13
  end%Z.
Definition all_classes : list ActionClass :=
  [ARead; AWrite; ATest; ABuild; ADependencyInstall; ANetworkAccess; ACredentialAccess;
   AContractChange; AProviderChange; AGitPush; AGitMerge; ADeploy; APermanentDelete; AUnknown].
Definition num_class (n : Z) : option ActionClass := find (λ c, (class_num c =? n)%Z) all_classes.
Definition actor_num (a : ApprovalActor) : Z :=
  match a with ActorUser => 0 | ActorSupervisor => 1 | ActorAgent => 2 end%Z.
Definition num_actor (n : Z) : option ApprovalActor :=
  find (λ a, (actor_num a =? n)%Z) [ActorUser; ActorSupervisor; ActorAgent].
Definition state_num (s : ApprovalState) : Z :=
  match s with
  | Pending => 0 | Approved => 1 | Denied => 2 | StateExpired => 3 | Revoked => 4 | Consumed => 5
  end%Z.
Definition num_state (n : Z) : option ApprovalState :=
  find (λ a, (state_num a =? n)%Z) [Pending; Approved; Denied; StateExpired; Revoked; Consumed].
#[export] Instance json_serde_ActionClass : Serde ActionClass := {
  to_value c := JNum (class_num c);
  from_value v := from_opt (json_to_num v ≫= num_class);
}.
#[export] Instance json_serde_ApprovalRequest : Serde ApprovalRequest := {
  to_value r :=
    let s := ApprovalRequest_subject r in
    JArr [JStr (ApprovalRequest_id r); JNum (Z.of_N (ApprovalSubject_mission_id s));
      JNum (Z.of_N (ApprovalSubject_route_id s)); JStr (ApprovalSubject_action_digest s);
      JNum (class_num (ApprovalSubject_action_class s));
      JNum (ApprovalSubject_contract_version s);
      JStr (ApprovalSubject_loadout_fingerprint s);
      match ApprovalRequest_scope r with
      | Once => JNull | RouteActionClass c => JNum (class_num c) end;
      JNum (actor_num (ApprovalRequest_requested_by r));
      match ApprovalRequest_resolved_by r with
      | None => JNull | Some a => JNum (actor_num a) end;
      JNum (ApprovalRequest_expires_at_ms r); JNum (state_num (ApprovalRequest_state r));
      JNum (ApprovalRequest_revision r)];
  from_value v := match v with
    | JArr [JStr i; JNum m; JNum rt; JStr d; JNum c; JNum cv; JStr lf; sc; JNum rq; rs; JNum ex;
            JNum st; JNum rev] =>
        from_opt (
          c' ← num_class c;
          sc' ← match sc with JNull => Some Once | JNum n => RouteActionClass <$> num_class n
                | _ => None end;
          rq' ← num_actor rq;
          rs' ← match rs with JNull => Some None | JNum n => Some <$> num_actor n
                | _ => None end;
          st' ← num_state st;
          Some {| ApprovalRequest_id := i;
            ApprovalRequest_subject := {|
              ApprovalSubject_mission_id := Z.to_N m; ApprovalSubject_route_id := Z.to_N rt;
              ApprovalSubject_action_digest := d; ApprovalSubject_action_class := c';
              ApprovalSubject_contract_version := cv; ApprovalSubject_loadout_fingerprint := lf |};
            ApprovalRequest_scope := sc'; ApprovalRequest_requested_by := rq';
            ApprovalRequest_resolved_by := rs'; ApprovalRequest_expires_at_ms := ex;
            ApprovalRequest_state := st'; ApprovalRequest_revision := rev |})
    | _ => Err "invalid type" end;
}.
Lemma num_class_num c : num_class (class_num c) = Some c.
Proof. by destruct c. Qed.
Lemma num_actor_num a : num_actor (actor_num a) = Some a.
Proof. by destruct a. Qed.
Lemma num_state_num s : num_state (state_num s) = Some s.
Proof. by destruct s. Qed.
#[export] Instance json_serde_ApprovalRequest_laws : SerdeLaws ApprovalRequest.
Proof.
  intros [i [m rt d c cv lf] sc rq rs ex st rev]. simpl. rewrite num_class_num, num_actor_num. simpl.
  destruct sc as [|sc], rs as [rs|]; simpl;
    rewrite ?num_class_num, ?num_actor_num; simpl; rewrite num_state_num; simpl;
    by rewrite !N2Z.id.
Qed.

Definition ex_ids (n : nat) : EventId := N.of_nat n.
Definition ex_actor_calls : list actor_call :=
  [AcRecord AgentRunStarted JNull;
   AcGate {| PolicyContext_driving_mode := Contract.Manual;
             PolicyContext_autopilot_allowed_actions := [] |}
     {| ActionIntent_class := AGitPush; ActionIntent_origin := OriginSupervisor;
        ActionIntent_planned := true; ActionIntent_within_allowed_paths := true;
        ActionIntent_deviation := DeviationNone;
        ActionIntent_evidence := {| ActionEvidence_event_id := "e";
                                    ActionEvidence_action_digest := "d" |} |}
     (Some ex_request);
   AcPause "user"; AcAcknowledge; AcForceRequest].
Definition ex_start : MissionActor (list EventEnvelope) := {|
  MissionActor_mission_id := 1%N; MissionActor_route_id := 2%N; MissionActor_ledger := [];
  MissionActor_sequence := 0%Z; MissionActor_pause := PauseController_default;
  MissionActor_process_tree := OwnedProcessTree_new; MissionActor_ui_connected := true;
  MissionActor_requires_recovery := false; MissionActor_approvals := ∅;
  MissionActor_ids_drawn := 0 |}.
Definition ex_end : MissionActor (list EventEnvelope) :=
  foldl (λ a c, actor_step ex_ids c a) ex_start ex_actor_calls.

Lemma actor_run_calls calls a :
  (∀ pre c post, calls = pre ++ c :: post →
    call_ok (foldl (λ a c, actor_step ex_ids c a) a pre) c = true) →
  actor_run ex_ids a calls (foldl (λ a c, actor_step ex_ids c a) a calls).
Proof.
  induction calls as [|c calls IH] using rev_ind; intros Hok; [apply arun_nil|].
  rewrite foldl_app. simpl. apply arun_call.
  - apply IH. intros pre c' post ->. apply (Hok pre c' (post ++ [c])). by rewrite <-app_assoc.
  - by apply (Hok calls c []).
Qed.
Lemma ex_actor_run : actor_run ex_ids ex_start ex_actor_calls ex_end.
Proof.
  apply actor_run_calls. intros pre c post Heq.
  assert (∃ n, pre = take n ex_actor_calls ∧ ex_actor_calls !! n = Some c ∧ n < 5) as (n&->&Hc&Hn).
  { exists (length pre). rewrite Heq. rewrite take_app_length, list_lookup_middle by done.
    split_and!; try done. apply (f_equal length) in Heq. rewrite length_app in Heq. simpl in Heq. lia. }
  clear Heq. destruct n as [|[|[|[|[|n]]]]]; simpl in Hc; simplify_eq; first [reflexivity|lia].
Qed.

Lemma crash_recovery_witness :
  MissionActor_requires_recovery ex_end = true ∧
  ∃ a', MissionActor_try_new 1%N 2%N (MissionActor_ledger ex_end) = Ok a' ∧
    MissionActor_approvals a' = MissionActor_approvals ex_end.
Proof.
  split; [reflexivity|].
  destruct (crash_recovery ex_ids ltac:(done) 1%N 2%N [] ex_start ex_actor_calls ex_end)
    as (a'&Ha&_&Hap&_).
  - intros e He. by apply elem_of_nil in He.
  - reflexivity.
  - apply ex_actor_run.
  - vm_compute. discriminate.
  - exists a'. split; [exact Ha|exact Hap].
Defined.
Definition ex_bad_event : AgentEvent := {|
  AgentEvent_event_id := 9%N; AgentEvent_agent_run_id := None;
  AgentEvent_event_kind := ApprovalRequested; AgentEvent_payload := JObj [];
  AgentEvent_requires_safe_pause := true; AgentEvent_raw_evidence := None |}.
Lemma unbindable_agent_approval_blocks_restart_witness :
  ∃ a' err, record_agent_event ex_bad_event ex_start = (a', Ok tt) ∧
    MissionActor_try_new 1%N 2%N (MissionActor_ledger a') = Err err.
Proof.
  apply (unbindable_agent_approval_blocks_restart ltac:(done) ex_start ex_bad_event 2%N 0%Z).
  - split; [|done]. split; try done.
    + intros e He. by apply elem_of_nil in He.
    + by left.
  - done.
  - reflexivity.
  - reflexivity.
  - reflexivity.
Defined.
End RecoveryExamples.
