(* ===== verification/ActorLockstep.v ===== *)
(** * The actor never reads its ledger back while it runs

    The actor on the [Vec] ledger, which accepts everything, is the abstract
    actor: its ledger is the list of the events it emits.  An actor on any
    other ledger runs in lockstep with it, answer for answer, as long as that
    ledger accepts those events in that order.  What a mission does is then
    settled without the ledger, and what a ledger must do for it is to accept
    and keep a list of events. *)

From S2P Require Import Prelude Extern Ids Event PolicyEngine Approval Budget Envelope.
From S2P Require Import Command AdapterCore ProcessTree Pause MissionActor ActorRecovery.
From Stdlib Require Import ZArith Lia.
From stdpp Require Import prelude gmap strings pretty.

(** The actor [a] with another ledger. *)
Definition on_ledger {L1 L2} (l : L2) (a : MissionActor L1) : MissionActor L2 := {|
  MissionActor_mission_id := MissionActor_mission_id a; MissionActor_route_id := MissionActor_route_id a;
  MissionActor_ledger := l; MissionActor_sequence := MissionActor_sequence a;
  MissionActor_pause := MissionActor_pause a; MissionActor_process_tree := MissionActor_process_tree a;
  MissionActor_ui_connected := MissionActor_ui_connected a;
  MissionActor_requires_recovery := MissionActor_requires_recovery a;
  MissionActor_approvals := MissionActor_approvals a;
  MissionActor_ids_drawn := MissionActor_ids_drawn a |}.

Lemma with_own_ledger {L} (a : MissionActor L) : on_ledger (MissionActor_ledger a) a = a.
Proof. by destruct a. Qed.
Lemma on_ledger_twice {L1 L2 L3} (l : L3) (k : L2) (a : MissionActor L1) :
  on_ledger l (on_ledger k a) = on_ledger l a.
Proof. done. Qed.

(** A ledger that takes the events one after the other without an error. *)
Inductive accepts `{ActorLedger L} : L → list EventEnvelope → L → Prop :=
| accepts_nil l : accepts l [] l
| accepts_cons l e l1 es l2 :
    append_event e l = (l1, Ok tt) → accepts l1 es l2 → accepts l (e :: es) l2.

Lemma accepts_app `{ActorLedger L} (l l2 : L) es1 es2 :
  accepts l (es1 ++ es2) l2 ↔ ∃ l1, accepts l es1 l1 ∧ accepts l1 es2 l2.
Proof.
  split.
  - revert l. induction es1 as [|e es1 IH]; intros l Ha; simpl in Ha.
    + exists l. split; [constructor|done].
    + inversion_clear Ha as [|? ? m ? ? He Hm]. destruct (IH _ Hm) as (l1&H1&H2).
      exists l1. split; [|done]. by econstructor.
  - intros (l1&Ha&Hb). induction Ha as [|l e l1 es l1' He Ha IH]; [done|]. simpl.
    econstructor; [done|auto].
Qed.
Lemma accepts_vec `{SerdeJson} (l : list EventEnvelope) es : accepts l es (l ++ es).
Proof.
  revert l. induction es as [|e es IH]; intros l; [rewrite app_nil_r; constructor|].
  econstructor; [done|]. by rewrite (cons_middle e l es), app_assoc.
Qed.

(** Events of the mission [m] numbered one after the other from [s], the last
    of them [s'] (the counter wraps like the code's). *)
Inductive follows `{SerdeJson} (m : MissionId) : u64 → list EventEnvelope → u64 → Prop :=
| follows_nil s : follows m s [] s
| follows_cons s e es s' :
    EventEnvelope_mission_id e = m → EventEnvelope_sequence e = wrapping_add64 s 1 →
    follows m (EventEnvelope_sequence e) es s' → follows m s (e :: es) s'.
Lemma follows_app `{SerdeJson} m s es1 s1 es2 s2 :
  follows m s es1 s1 → follows m s1 es2 s2 → follows m s (es1 ++ es2) s2.
Proof. induction 1; simpl; [done|]. intros. constructor; auto. Qed.

Section lockstep.
Context `{SerdeJson, Sha256, UuidText, !ActorLedger L, !Inhabited L}.
Context `{!Serde ApprovalRequest, !Serde ActionClass}.
Context `{!DebugFmt PauseState, !DebugFmt BudgetDimension, !DebugFmt ActionClass}.
Context `{!HashOrder ApprovalRequest}.
Context (event_ids : nat → EventId).

Abbreviation spec := (MissionActor (list EventEnvelope)).
Abbreviation actor := (MissionActor L).

(** From [a] to [a'] the list of events grew by [es]. *)
Definition grew (a : spec) (es : list EventEnvelope) (a' : spec) : Prop :=
  MissionActor_ledger a' = MissionActor_ledger a ++ es ∧
  MissionActor_mission_id a' = MissionActor_mission_id a ∧
  follows (MissionActor_mission_id a) (MissionActor_sequence a) es (MissionActor_sequence a').
Lemma grew_nothing (a a' : spec) :
  MissionActor_ledger a' = MissionActor_ledger a →
  MissionActor_mission_id a' = MissionActor_mission_id a →
  MissionActor_sequence a' = MissionActor_sequence a → grew a [] a'.
Proof. intros El Em Es. split; [by rewrite app_nil_r|]. split; [done|]. rewrite Es. constructor. Qed.
Lemma grew_trans (a b c : spec) es1 es2 : grew a es1 b → grew b es2 c → grew a (es1 ++ es2) c.
Proof.
  intros (L1&M1&F1) (L2&M2&F2). split; [by rewrite L2, L1, app_assoc|]. split; [congruence|].
  rewrite M1 in F2. by eapply follows_app.
Qed.
Lemma grew_unique (a b : spec) es1 es2 : grew a es1 b → grew a es2 b → es1 = es2.
Proof. intros (L1&_) (L2&_). rewrite L1 in L2. by apply app_inv_head in L2. Qed.

(** [m] does on the ledger [L] what [m'] does on the list of events: the list
    grows by some events, numbered one after the other, and where the ledger
    accepts them the states agree and so do the answers. *)
Definition lockstep {A} (m' : stm spec ActorError A) (m : stm actor ActorError A) : Prop :=
  ∀ a, ∃ es, grew a es (m' a).1 ∧
    ∀ l l2, accepts l es l2 → m (on_ledger l a) = (on_ledger l2 (m' a).1, (m' a).2).

Lemma lockstep_quiet {A} (m' : stm spec ActorError A) (m : stm actor ActorError A) :
  (∀ a, grew a [] (m' a).1) →
  (∀ a l, m (on_ledger l a) = (on_ledger l (m' a).1, (m' a).2)) → lockstep m' m.
Proof. intros Hl Hm a. exists []. split; [done|]. inversion_clear 1. apply Hm. Qed.
Lemma lockstep_ret {A} (x : A) : lockstep (mret x) (mret x).
Proof. apply lockstep_quiet; [|done]. intros a. by apply grew_nothing. Qed.
Lemma lockstep_lift {A} (r : result ActorError A) : lockstep (stm_lift r) (stm_lift r).
Proof. apply lockstep_quiet; [|done]. intros a. by apply grew_nothing. Qed.
Lemma lockstep_throw {A} (e : ActorError) : lockstep (A := A) (stm_throw e) (stm_throw e).
Proof. apply lockstep_quiet; [|done]. intros a. by apply grew_nothing. Qed.
Lemma lockstep_modify f' f :
  (∀ a, grew a [] (f' a)) →
  (∀ a l, f (on_ledger l a) = on_ledger l (f' a)) → lockstep (stm_modify f') (stm_modify f).
Proof. intros Hl Hf. apply lockstep_quiet; [done|]. intros a l. unfold stm_modify. by rewrite Hf. Qed.
Lemma lockstep_zoom {A} (m : stm PauseController PauseError A) :
  lockstep (zoom_pause m) (zoom_pause m).
Proof.
  apply lockstep_quiet; intros; unfold zoom_pause, stm_zoom; simpl; destruct (m _); [|done].
  by apply grew_nothing.
Qed.

(** Two computations in sequence, the second known only where it starts. *)
Lemma lockstep_bind_at {A B} (m' : stm spec ActorError A) m
    (k' : A → stm spec ActorError B) (k : A → stm actor ActorError B) a es1 :
  grew a es1 (m' a).1 →
  (∀ l l2, accepts l es1 l2 → m (on_ledger l a) = (on_ledger l2 (m' a).1, (m' a).2)) →
  (∀ x, lockstep (k' x) (k x)) →
  ∃ es, grew a es ((m' ≫= k') a).1 ∧ ∀ l l2, accepts l es l2 →
    (m ≫= k) (on_ledger l a) = (on_ledger l2 ((m' ≫= k') a).1, ((m' ≫= k') a).2).
Proof.
  intros He1 Hrun Hk. unfold mbind, stm_bind.
  destruct (m' a) as [a1 [x|err]] eqn:Ha1; simpl in *.
  - destruct (Hk x a1) as (es2&He2&Hrun2). exists (es1 ++ es2).
    split; [by eapply grew_trans|]. intros l l2 (l1&Hacc1&Hacc2)%accepts_app.
    rewrite (Hrun l l1) by done. by apply Hrun2.
  - exists es1. split; [done|]. intros l l2 Hacc. by rewrite (Hrun l l2).
Qed.
Lemma lockstep_bind {A B} m' m (k' : A → stm spec ActorError B) (k : A → stm actor ActorError B) :
  lockstep m' m → (∀ x, lockstep (k' x) (k x)) → lockstep (m' ≫= k') (m ≫= k).
Proof. intros Hm Hk a. destruct (Hm a) as (es1&He1&Hrun). by eapply lockstep_bind_at. Qed.
(** What is read of the actor is not its ledger. *)
Lemma lockstep_get {B} (k' : spec → stm spec ActorError B) (k : actor → stm actor ActorError B) :
  (∀ a l, lockstep (k' a) (k (on_ledger l a))) → lockstep (stm_get ≫= k') (stm_get ≫= k).
Proof.
  intros Hk a. unfold mbind, stm_bind, stm_get.
  destruct (Hk a inhabitant a) as (es&Hes&_). exists es. split; [done|]. intros l l2 Hacc.
  destruct (Hk a l a) as (es'&Hes'&Hrun). rewrite (grew_unique _ _ _ _ Hes Hes') in Hacc.
  by apply Hrun.
Qed.

Lemma lockstep_append_envelope e (a : spec) :
  EventEnvelope_mission_id e = MissionActor_mission_id a →
  EventEnvelope_sequence e = wrapping_add64 (MissionActor_sequence a) 1 →
  grew a [e] (append_envelope e a).1 ∧
  ∀ (l l2 : L), accepts l [e] l2 →
    append_envelope e (on_ledger l a) =
      (on_ledger l2 (append_envelope e a).1, (append_envelope e a).2).
Proof.
  intros Hm Hs. split.
  - split; [done|]. split; [done|]. simpl. by repeat constructor.
  - intros l l2 Hacc. inversion_clear Hacc as [|? ? l1 ? ? He Hn].
    inversion Hn; subst. unfold append_envelope. simpl. by rewrite He.
Qed.
Lemma lockstep_append k p : lockstep (actor_append event_ids k p) (actor_append event_ids k p).
Proof.
  intros a. exists [next_event event_ids k p a].
  exact (lockstep_append_envelope (next_event event_ids k p a) (draw_id a) eq_refl eq_refl).
Qed.

Create HintDb lockstep discriminated.
Hint Resolve lockstep_ret lockstep_lift lockstep_throw lockstep_zoom lockstep_append : lockstep.
Hint Extern 1 (lockstep (stm_modify _) (stm_modify _)) =>
  apply lockstep_modify; [intros; by apply grew_nothing|done] : lockstep.

(** Both sides have the same shape: follow it. *)
Ltac lock :=
  repeat match goal with
  | |- lockstep (stm_get ≫= _) _ => apply lockstep_get; intros ? ?; cbn -[mbind mret]
  | |- lockstep (_ ≫= _) _ => apply lockstep_bind; [|intros ?]
  | |- lockstep (match ?x with _ => _ end) _ => destruct x
  | |- _ => solve [auto with lockstep]
  end.

Lemma lockstep_request_safe_pause reason :
  lockstep (actor_request_safe_pause event_ids reason) (actor_request_safe_pause event_ids reason).
Proof. unfold actor_request_safe_pause. lock. Qed.
Hint Resolve lockstep_request_safe_pause : lockstep.
Lemma lockstep_acknowledge :
  lockstep (actor_acknowledge_pause event_ids) (actor_acknowledge_pause event_ids).
Proof. unfold actor_acknowledge_pause. lock. Qed.
Lemma lockstep_force_token t :
  lockstep (record_force_token_transition event_ids t) (record_force_token_transition event_ids t).
Proof. unfold record_force_token_transition. lock. Qed.
Hint Resolve lockstep_force_token : lockstep.
Lemma lockstep_timeout :
  lockstep (actor_pause_timeout event_ids) (actor_pause_timeout event_ids).
Proof. unfold actor_pause_timeout. lock. Qed.
Lemma lockstep_request_force :
  lockstep (request_force_termination event_ids) (request_force_termination event_ids).
Proof. unfold request_force_termination. lock. Qed.
Lemma lockstep_set_ui c :
  lockstep (set_ui_connected event_ids c) (set_ui_connected event_ids c).
Proof. unfold set_ui_connected. lock. Qed.
Lemma lockstep_gate c i r : lockstep (gate_action event_ids c i r) (gate_action event_ids c i r).
Proof. unfold gate_action. lock. Qed.
Lemma lockstep_resolve w c :
  lockstep (resolve_approval event_ids w c) (resolve_approval event_ids w c).
Proof. unfold resolve_approval. lock. Qed.
Lemma lockstep_authorize i s n :
  lockstep (authorize_approved_action event_ids i s n) (authorize_approved_action event_ids i s n).
Proof. unfold authorize_approved_action. lock. Qed.
Lemma lockstep_signals l : ∀ p,
  lockstep (append_signals event_ids l p) (append_signals event_ids l p).
Proof. induction l as [|s l IH]; intros p; simpl; lock. Qed.
Hint Resolve lockstep_signals : lockstep.
Lemma lockstep_budget l :
  lockstep (apply_budget_signals event_ids l) (apply_budget_signals event_ids l).
Proof. unfold apply_budget_signals. lock. Qed.
Lemma lockstep_flight e c :
  lockstep (check_flight_identity event_ids e c) (check_flight_identity event_ids e c).
Proof. unfold check_flight_identity. lock. Qed.
Lemma lockstep_revoke_all ids : lockstep (revoke_all event_ids ids) (revoke_all event_ids ids).
Proof. induction ids as [|i ids IH]; simpl; lock. Qed.
Hint Resolve lockstep_revoke_all : lockstep.
Lemma lockstep_loadout p n :
  lockstep (check_loadout_change event_ids p n) (check_loadout_change event_ids p n).
Proof. unfold check_loadout_change. lock. Qed.
Lemma lockstep_agent_event e : lockstep (record_agent_event e) (record_agent_event e).
Proof.
  intros a. unfold record_agent_event.
  assert (∀ L' B (k : MissionActor L' → stm (MissionActor L') ActorError B) x,
    (stm_get ≫= k) x = k x x) as Hget by done.
  setoid_rewrite Hget. cbn [on_ledger MissionActor_mission_id MissionActor_route_id MissionActor_sequence].
  eapply lockstep_bind_at.
  1: apply lockstep_append_envelope; simpl; by destruct (if bool_decide _ then _ else _).
  - apply lockstep_append_envelope; simpl; by destruct (if bool_decide _ then _ else _).
  - intros x. lock.
Qed.
Lemma lockstep_recovery d m :
  lockstep (resolve_recovery event_ids d m) (resolve_recovery event_ids d m).
Proof. unfold resolve_recovery. lock. Qed.
Lemma lockstep_force_terminate os t :
  lockstep (actor_force_terminate event_ids os t) (actor_force_terminate event_ids os t).
Proof.
  intros a. unfold actor_force_terminate.
  cbn [on_ledger MissionActor_pause MissionActor_process_tree].
  destruct (negb _); [exact (lockstep_throw (A := unit) _ a)|].
  destruct (process_terminate os _) as [tree [u|msg]].
  - exact (lockstep_bind _ _ _ _ (lockstep_zoom (pause_force_terminate t))
      (λ x, lockstep_append (UnknownKind "force_terminated") _) (set_process_tree tree a)).
  - destruct (lockstep_append (UnknownKind "termination_failed")
      (json_object [("reason", Value_String msg); ("state", Value_String "degraded");
                    ("degraded", Value_Bool true)]) (set_process_tree tree a)) as (es&Hg&Hrun).
    exists es. destruct (actor_append _ _ _ (set_process_tree tree a)) as [a1 r1]. simpl in *.
    split; [done|]. intros l l2 Hacc.
    change (set_process_tree tree (on_ledger l a)) with (on_ledger l (set_process_tree tree a)).
    by rewrite (Hrun l l2).
Qed.

(** *** Histories *)
Lemma step_lockstep c (a : spec) :
  ∃ es, grew a es (actor_step event_ids c a) ∧
    ∀ (l l2 : L), accepts l es l2 →
      actor_step event_ids c (on_ledger l a) = on_ledger l2 (actor_step event_ids c a).
Proof.
  assert (∀ A (m' : stm spec ActorError A) (m : stm actor ActorError A), lockstep m' m →
    ∃ es, grew a es (m' a).1 ∧
      ∀ l l2, accepts l es l2 → (m (on_ledger l a)).1 = on_ledger l2 (m' a).1) as Hlock.
  { intros A m' m Hm. destruct (Hm a) as (es&Hg&Hrun). exists es. split; [done|].
    intros l l2 Hacc. by rewrite (Hrun l l2). }
  destruct c; cbn [actor_step]; try apply Hlock.
  - apply lockstep_gate.
  - apply lockstep_resolve.
  - apply lockstep_authorize.
  - apply lockstep_budget.
  - apply lockstep_flight.
  - apply lockstep_loadout.
  - apply lockstep_agent_event.
  - apply lockstep_append.
  - apply lockstep_recovery.
  - apply lockstep_request_safe_pause.
  - apply lockstep_acknowledge.
  - apply lockstep_timeout.
  - apply lockstep_request_force.
  - apply lockstep_force_terminate.
  - apply lockstep_set_ui.
  - exists []. split; [by apply grew_nothing|]. by inversion_clear 1.
Qed.
End lockstep.

Section histories.
Context `{SerdeJson, Sha256, UuidText}.
Context `{!Serde ApprovalRequest, !Serde ActionClass}.
Context `{!DebugFmt PauseState, !DebugFmt BudgetDimension, !DebugFmt ActionClass}.
Context `{!HashOrder ApprovalRequest}.
Context (event_ids : nat → EventId).

Definition run_actor_calls `{!ActorLedger L} (calls : list actor_call) (a : MissionActor L)
    : MissionActor L := foldl (λ a c, actor_step event_ids c a) a calls.

(** The events the calls append, found without a ledger. *)
Definition emitted {L} (calls : list actor_call) (a : MissionActor L) : list EventEnvelope :=
  MissionActor_ledger (run_actor_calls calls (on_ledger [] a)).

Lemma run_lockstep `{!ActorLedger L, !Inhabited L} calls (a : MissionActor (list EventEnvelope)) :
  ∃ es, grew a es (run_actor_calls calls a) ∧
    ∀ (l l2 : L), accepts l es l2 →
      run_actor_calls calls (on_ledger l a) = on_ledger l2 (run_actor_calls calls a).
Proof.
  revert a. induction calls as [|c calls IH]; intros a; simpl.
  { exists []. split; [by apply grew_nothing|]. by inversion_clear 1. }
  destruct (step_lockstep (L := L) event_ids c a) as (es1&He1&Hrun1).
  destruct (IH (actor_step event_ids c a)) as (es2&He2&Hrun2).
  exists (es1 ++ es2). split; [by eapply grew_trans|].
  intros l l2 (l1&Hacc1&Hacc2)%accepts_app. rewrite (Hrun1 l l1) by done. by apply Hrun2.
Qed.

(** The actor on a ledger that accepts the events it emits does what the
    actor does on the list of them. *)
Lemma actor_refines_list `{!ActorLedger L, !Inhabited L} calls (a : MissionActor L) (l2 : L) :
  accepts (MissionActor_ledger a) (emitted calls a) l2 →
  run_actor_calls calls a = on_ledger l2 (run_actor_calls calls (on_ledger [] a)) ∧
  follows (MissionActor_mission_id a) (MissionActor_sequence a) (emitted calls a)
    (MissionActor_sequence (run_actor_calls calls a)).
Proof.
  intros Hacc. destruct (run_lockstep calls (on_ledger [] a)) as (es&(He&_&Hf)&Hrun).
  assert (emitted calls a = es) as Hes by exact He. rewrite Hes in *.
  specialize (Hrun _ _ Hacc). rewrite on_ledger_twice, with_own_ledger in Hrun.
  split; [done|]. by rewrite Hrun.
Qed.

Lemma actor_run_calls_eq `{!ActorLedger L} (a0 a : MissionActor L) calls :
  actor_run event_ids a0 calls a → a = run_actor_calls calls a0.
Proof.
  induction 1 as [|calls a c _ IH _]; [done|]. unfold run_actor_calls in *. rewrite foldl_app. simpl.
  by rewrite <-IH.
Qed.

(** A run on the ledger [L] is a run on the list of events. *)
Lemma actor_run_spec `{!ActorLedger L, !Inhabited L} (a0 a : MissionActor L) calls es0 :
  actor_run event_ids a0 calls a →
  ∀ l2, accepts (MissionActor_ledger a0) (emitted calls a0) l2 →
  MissionActor_ledger a = l2 ∧
  actor_run event_ids (on_ledger es0 a0) calls (on_ledger (es0 ++ emitted calls a0) a).
Proof.
  induction 1 as [|calls a c Hrun IH Hok]; intros l2 Hacc.
  { inversion Hacc. split; [done|]. unfold emitted. simpl. rewrite app_nil_r. constructor. }
  set (b := run_actor_calls calls (on_ledger [] a0)).
  destruct (step_lockstep (L := L) event_ids c b) as (es&He&Hstep).
  destruct (step_lockstep (L := list EventEnvelope) event_ids c b) as (es'&He'&Hstep').
  rewrite <-(grew_unique _ _ _ _ He He') in Hstep'.
  assert (emitted (calls ++ [c]) a0 = emitted calls a0 ++ es) as Hem.
  { unfold emitted, run_actor_calls. rewrite foldl_app. apply He. }
  rewrite Hem in *. apply accepts_app in Hacc as (l1&Hacc1&Hacc2).
  destruct (IH _ Hacc1) as (Hl&Hspec).
  pose proof (proj1 (actor_refines_list _ _ _ Hacc1)) as Ha.
  rewrite <-(actor_run_calls_eq _ _ _ Hrun) in Ha. fold b in Ha.
  assert (actor_step event_ids c a = on_ledger l2 (actor_step event_ids c b)) as Hac.
  { rewrite Ha. by apply Hstep. }
  split; [by rewrite Hac|].
  assert (actor_step event_ids c (on_ledger (es0 ++ emitted calls a0) a) =
    on_ledger (es0 ++ emitted calls a0 ++ es) (actor_step event_ids c a)) as <-.
  { rewrite Hac, Ha, !on_ledger_twice. apply Hstep'. rewrite app_assoc. apply accepts_vec. }
  constructor; [done|]. by destruct c.
Qed.

(** The condition of a run, computed. *)
Fixpoint calls_ok `{!ActorLedger L} (calls : list actor_call) (a : MissionActor L) : bool :=
  match calls with
  | [] => true
  | c :: calls => call_ok a c && calls_ok calls (actor_step event_ids c a)
  end.
Lemma calls_ok_run `{!ActorLedger L} (a0 : MissionActor L) calls :
  calls_ok calls a0 = true → actor_run event_ids a0 calls (run_actor_calls calls a0).
Proof.
  assert (∀ pre a, actor_run event_ids a0 pre a → calls_ok calls a = true →
    actor_run event_ids a0 (pre ++ calls) (run_actor_calls calls a)) as Hgen.
  { induction calls as [|c calls IH]; intros pre a Hrun; simpl; [by rewrite app_nil_r|].
    intros [Hc Hcs]%andb_true_iff. rewrite cons_middle, app_assoc. apply IH; [|done].
    by constructor. }
  apply (Hgen []). constructor.
Qed.
End histories.
