(* ===== verification/EventPipeline.v ===== *)
(** * The event pipeline ([crates/supervisor/src/event_pipeline.rs])

    Append first, project second, publish last.  The ledger is the interface
    [AppendOnlyLedger]; a subscriber is the sending half of a channel, which
    fails once the receiver is gone. *)

From S2P Require Import Prelude Extern Ids Evidence Route Event ReadModel.
From Stdlib Require Import ZArith Lia.
From stdpp Require Import sorting prelude gmap strings.

Class AppendOnlyLedger `{SerdeJson} (L : Type) : Type := {
  ledger_append : EventEnvelope → L → L * result string unit;
  ledger_replay : L → MissionId → result string (list EventEnvelope);
}.
(** What the pipeline relies on: the events appended for a mission are
    replayed, in order; a failed append adds nothing. *)
Class AppendOnlyLedgerLaws `{AppendOnlyLedger L} : Prop := {
  replay_append e l l' es :
    ledger_append e l = (l', Ok tt) →
    ledger_replay l (EventEnvelope_mission_id e) = Ok es →
    ledger_replay l' (EventEnvelope_mission_id e) = Ok (es ++ [e]);
  replay_append_err e l l' err m :
    ledger_append e l = (l', Err err) → ledger_replay l' m = ledger_replay l m;
}.
Arguments AppendOnlyLedgerLaws {_} L {_}.

Record Subscriber := { Subscriber_alive : bool; Subscriber_inbox : list ReadModel }.
(** [sender.send(model)]. *)
Definition sender_send (m : ReadModel) (s : Subscriber) : Subscriber * bool :=
  if Subscriber_alive s
  then ({| Subscriber_alive := true; Subscriber_inbox := Subscriber_inbox s ++ [m] |}, true)
  else (s, false).

Inductive PipelineStatus := PipelineRunning | PipelinePaused (reason : string).

Inductive PipelineError :=
| PipelineLedger (message : string)
| PipelineProjection (error : ProjectionError)
| PipelineErrPaused (reason : string).

Record EventPipeline (L : Type) := {
  EventPipeline_ledger : L;
  EventPipeline_model : ReadModel;
  EventPipeline_status : PipelineStatus;
  EventPipeline_subscribers : list Subscriber;
}.
Arguments EventPipeline_ledger {L}. Arguments EventPipeline_model {L}.
Arguments EventPipeline_status {L}. Arguments EventPipeline_subscribers {L}.

Section pipeline.
Context `{SerdeJson, Sha256, !Serde EvidenceEntry, !AppendOnlyLedger L}.
(** [ProjectionError]'s [Display]. *)
Context (projection_error_text : ProjectionError → string).

Definition pipeline_recover (ledger : L) (mission_id : MissionId)
    : result PipelineError (EventPipeline L) :=
  events ← map_err PipelineLedger (ledger_replay ledger mission_id);
  model ← map_err PipelineProjection (replay events);
  Ok {|
    EventPipeline_ledger := ledger;
    EventPipeline_model := model;
    EventPipeline_status := PipelineRunning;
    EventPipeline_subscribers := [] |}.

Definition pipeline_with_empty (ledger : L) : EventPipeline L := {|
  EventPipeline_ledger := ledger;
  EventPipeline_model := ReadModel_default;
  EventPipeline_status := PipelineRunning;
  EventPipeline_subscribers := [] |}.

(** [self.subscribers.retain(|s| s.send(model).is_ok())]. *)
Definition publish (model : ReadModel) (subscribers : list Subscriber) : list Subscriber :=
  omap (λ s, let '(s', ok) := sender_send model s in if ok : bool then Some s' else None)
    subscribers.

Definition pipeline_append (event : EventEnvelope)
    : stm (EventPipeline L) PipelineError ReadModel := λ self,
  match EventPipeline_status self with
  | PipelinePaused reason => (self, Err (PipelineErrPaused reason))
  | PipelineRunning =>
      let '(ledger, r) := ledger_append event (EventPipeline_ledger self) in
      match r with
      | Err reason => ({|
          EventPipeline_ledger := ledger;
          EventPipeline_model := EventPipeline_model self;
          EventPipeline_status := PipelinePaused reason;
          EventPipeline_subscribers := EventPipeline_subscribers self |},
          Err (PipelineLedger reason))
      | Ok _ =>
          match reduce (EventPipeline_model self) event with
          | Err error => ({|
              EventPipeline_ledger := ledger;
              EventPipeline_model := EventPipeline_model self;
              EventPipeline_status := PipelinePaused (projection_error_text error);
              EventPipeline_subscribers := EventPipeline_subscribers self |},
              Err (PipelineProjection error))
          | Ok next => ({|
              EventPipeline_ledger := ledger;
              EventPipeline_model := next;
              EventPipeline_status := PipelineRunning;
              EventPipeline_subscribers := publish next (EventPipeline_subscribers self) |},
              Ok next)
          end
      end
  end.

Definition pipeline_subscribe (sender : Subscriber) (self : EventPipeline L) : EventPipeline L := {|
  EventPipeline_ledger := EventPipeline_ledger self;
  EventPipeline_model := EventPipeline_model self;
  EventPipeline_status := EventPipeline_status self;
  EventPipeline_subscribers :=
    EventPipeline_subscribers self ++ [(sender_send (EventPipeline_model self) sender).1] |}.

(** ** Incremental and batch projection agree *)

Fixpoint reduce_all (m : ReadModel) (events : list EventEnvelope)
    : result ProjectionError ReadModel :=
  match events with
  | [] => Ok m
  | e :: rest => m' ← reduce m e; reduce_all m' rest
  end.
Lemma reduce_all_snoc m events e :
  reduce_all m (events ++ [e]) = (m' ← reduce_all m events; reduce m' e).
Proof.
  revert m. induction events as [|x events IH]; intros m; simpl.
  - unfold mbind, result_bind. by destruct (reduce m e).
  - unfold mbind, result_bind in *. destruct (reduce m x); [apply IH|done].
Qed.

(** Consecutive sequence numbers from [n + 1], each event with its own id. *)
Definition consecutive (n : Z) (events : list EventEnvelope) : Prop :=
  ∀ i e, events !! i = Some e → EventEnvelope_sequence e = (n + 1 + Z.of_nat i)%Z.

Lemma consecutive_cons n e events :
  consecutive n (e :: events) → EventEnvelope_sequence e = (n + 1)%Z ∧ consecutive (n + 1) events.
Proof.
  intros Hc. split; [rewrite (Hc 0 e eq_refl); lia|].
  intros i x Hx. rewrite (Hc (S i) x Hx). lia.
Qed.

Lemma replay_loop_consecutive events : ∀ n m seen,
  consecutive n events → (n + Z.of_nat (length events) < u64_max)%Z →
  NoDup (ids_of events) →
  (∀ e, e ∈ events → EventEnvelope_event_id e ∉ ReadModel_applied_event_ids m) →
  (∀ s, s ∈ seen → (s ≤ n)%Z) →
  (st ← replay_loop (m, (n + 1)%Z, seen) events; Ok st.1.1) = reduce_all m events.
Proof.
  induction events as [|e events IH]; intros n m seen Hc Hmax Hnd Hfresh Hseen; [done|].
  apply consecutive_cons in Hc as [Hseq Hc]. simpl.
  assert (EventEnvelope_sequence e ∉ seen) as Hns.
  { intros Hin. specialize (Hseen _ Hin). lia. }
  rewrite (bool_decide_eq_false_2 (EventEnvelope_sequence e ∈ seen)) by done.
  rewrite (bool_decide_eq_false_2 (EventEnvelope_event_id e ∈ _)) by (apply Hfresh; by left).
  simpl. rewrite Hseq, Z.ltb_irrefl. unfold mbind, result_bind.
  destruct (reduce m e) as [m'|] eqn:Hr; [|done].
  replace (saturating_add u64_max (n + 1) 1) with (n + 1 + 1)%Z
    by (unfold saturating_add; simpl in Hmax; lia).
  apply NoDup_cons in Hnd as [Hid Hnd]. apply (IH (n + 1)%Z); [done|simpl in Hmax; lia|done| |].
  - intros x Hx. pose proof (reduce_frame _ _ _ Hr) as (_&_&_&Ha&_). rewrite Ha.
    apply not_elem_of_union. split; [|apply Hfresh; by right].
    apply not_elem_of_singleton. intros Heq. apply Hid. rewrite <-Heq.
    by apply list_elem_of_fmap_2.
  - intros s [->%elem_of_singleton|Hs]%elem_of_union; [lia|]. specialize (Hseen s Hs). lia.
Qed.

Lemma consecutive_sorted n events :
  consecutive n events → sort_by by_sequence events = events.
Proof.
  intros Hc. apply sort_by_sorted_id. revert n Hc.
  induction events as [|e events IH]; intros n Hc; [constructor|].
  apply consecutive_cons in Hc as [Hs Hc]. constructor; [by eapply IH|].
  apply list.Forall_forall. intros x [i Hi]%list_elem_of_lookup_1.
  apply Is_true_eq_left, Z.leb_le. rewrite Hs, (Hc i x Hi). lia.
Qed.

Lemma replay_consecutive events :
  consecutive 0 events → (Z.of_nat (length events) < u64_max)%Z → NoDup (ids_of events) →
  replay events = reduce_all ReadModel_default events.
Proof.
  intros Hc Hmax Hnd. unfold replay. rewrite (consecutive_sorted 0) by done.
  apply (replay_loop_consecutive events 0); [done|lia|done|set_solver|set_solver].
Qed.

(** ** Runs of the pipeline *)
Context `{!AppendOnlyLedgerLaws L}.

Definition pipeline_run (p : EventPipeline L) (events : list EventEnvelope) : EventPipeline L :=
  foldl (λ p e, (pipeline_append e p).1) p events.

Definition is_pipeline_running (s : PipelineStatus) : bool :=
  match s with PipelineRunning => true | _ => false end.

(** [applied] is what the model shows, [logged] what the ledger holds. *)
Definition pipeline_inv (mid : MissionId) (events applied logged : list EventEnvelope)
    (p : EventPipeline L) : Prop :=
  applied `prefix_of` logged ∧ logged `prefix_of` events ∧ length logged ≤ length applied + 1 ∧
  ledger_replay (EventPipeline_ledger p) mid = Ok logged ∧
  reduce_all ReadModel_default applied = Ok (EventPipeline_model p) ∧
  (is_pipeline_running (EventPipeline_status p) = true → applied = events ∧ logged = events).

Lemma pipeline_inv_step mid events applied logged p e :
  EventEnvelope_mission_id e = mid →
  pipeline_inv mid events applied logged p →
  ∃ applied' logged', pipeline_inv mid (events ++ [e]) applied' logged' (pipeline_append e p).1.
Proof.
  intros Hm (P1&P2&P3&P4&P5&P6). unfold pipeline_append.
  destruct (EventPipeline_status p) as [|reason] eqn:Hst.
  - destruct (P6 eq_refl) as [-> ->].
    destruct (ledger_append e (EventPipeline_ledger p)) as [l' [[]|err]] eqn:Ha.
    + rewrite <-Hm in P4. pose proof (replay_append _ _ _ _ Ha P4) as Hl.
      destruct (reduce (EventPipeline_model p) e) as [m'|err] eqn:Hr.
      * exists (events ++ [e]), (events ++ [e]). unfold pipeline_inv. simpl.
        rewrite <-Hm. split_and!; try done. { lia. }
        rewrite reduce_all_snoc, P5. simpl. exact Hr.
      * exists events, (events ++ [e]). unfold pipeline_inv. simpl. rewrite <-Hm.
        split_and!; try done; [by apply prefix_app_r|]. rewrite length_app. simpl. lia.
    + exists events, events. unfold pipeline_inv. simpl.
      split_and!; try done; [by apply prefix_app_r|].
      by rewrite (replay_append_err _ _ _ _ mid Ha).
  - exists applied, logged. unfold pipeline_inv. simpl. rewrite Hst.
    split_and!; try done. by apply prefix_app_r.
Qed.

Lemma pipeline_run_inv mid l0 events :
  ledger_replay l0 mid = Ok [] → Forall (λ e, EventEnvelope_mission_id e = mid) events →
  ∃ applied logged,
    pipeline_inv mid events applied logged (pipeline_run (pipeline_with_empty l0) events).
Proof.
  intros H0'. induction events as [|e events IH] using rev_ind; intros Hf.
  - exists [], []. unfold pipeline_inv. simpl. by split_and!; try lia.
  - apply Forall_app in Hf as [Hf He]. apply Forall_inv in He.
    destruct (IH Hf) as (a&l&Hinv). unfold pipeline_run. rewrite foldl_app. simpl.
    by eapply pipeline_inv_step.
Qed.

(** Append first, project second.  Whatever happens while events of a
    mission go through a fresh pipeline, the model is the projection of a
    prefix of what the ledger holds, lagging by at most the one event that
    stopped the pipeline.  While the pipeline runs, model and ledger have the
    whole stream, and when the stream is consecutively numbered with distinct
    ids, a pipeline recovered from the ledger starts with exactly the live
    model.  Once it is paused, an append changes nothing. *)
Theorem pipeline_recovers_live_model mid (l0 : L) events :
  ledger_replay l0 mid = Ok [] → Forall (λ e, EventEnvelope_mission_id e = mid) events →
  let p := pipeline_run (pipeline_with_empty l0) events in
  (∃ applied logged, pipeline_inv mid events applied logged p) ∧
  (is_pipeline_running (EventPipeline_status p) = true →
    consecutive 0 events → (Z.of_nat (length events) < u64_max)%Z → NoDup (ids_of events) →
    ∃ p', pipeline_recover (EventPipeline_ledger p) mid = Ok p' ∧
      EventPipeline_model p' = EventPipeline_model p) ∧
  (is_pipeline_running (EventPipeline_status p) = false →
    ∀ e, (pipeline_append e p).1 = p ∧ is_ok (pipeline_append e p).2 = false).
Proof.
  intros H0' Hf p. pose proof (pipeline_run_inv mid l0 events H0' Hf) as Hinv.
  split; [done|]. destruct Hinv as (applied&logged&(P1&P2&P3&P4&P5&P6)). fold p in P4, P5, P6.
  split.
  - intros Hrun Hc Hmax Hnd. destruct (P6 Hrun) as [-> ->].
    unfold pipeline_recover. rewrite P4. simpl. rewrite replay_consecutive, P5 by done. simpl.
    by eexists.
  - intros Hst e. unfold pipeline_append. by destruct (EventPipeline_status p).
Qed.
End pipeline.

(** ** An in-memory ledger *)
Module PipelineExamples.
Import Json ReadModelExamples.
#[export] Instance list_ledger : AppendOnlyLedger (list EventEnvelope) := {
  ledger_append e l := (l ++ [e], Ok tt);
  ledger_replay l m := Ok (filter (λ e, EventEnvelope_mission_id e = m) l);
}.
#[export] Instance list_ledger_laws : AppendOnlyLedgerLaws (list EventEnvelope).
Proof.
  split; simpl; [|done]. intros e l l' es [= <-] Hes%(inj Ok). subst es. f_equal.
  rewrite filter_app. f_equal. by rewrite filter_cons_True.
Qed.
Definition ex_stream : list EventEnvelope :=
  [ex_event 1 1 MissionCreated JNull; ex_event 2 2 ContractUpdated ex_contract].

Lemma pipeline_recovers_live_model_witness :
  ∃ p', pipeline_recover
      (EventPipeline_ledger (pipeline_run (λ _, "") (pipeline_with_empty []) ex_stream)) 7%N = Ok p' ∧
    ReadModel_contract_version (EventPipeline_model p') = 3%Z.
Proof.
  destruct (pipeline_recovers_live_model (λ _, "") 7%N [] ex_stream) as (_&Hr&_).
  - reflexivity.
  - repeat constructor.
  - destruct Hr as (p'&Hp&Hm).
    + reflexivity.
    + intros [|[|[|i]]] e He; simpl in He; simplify_eq; done.
    + vm_compute. reflexivity.
    + apply (bool_decide_eq_true_1 _). reflexivity.
    + exists p'. split; [exact Hp|]. rewrite Hm. reflexivity.
Defined.
End PipelineExamples.
