(* ===== verification/Frame.v ===== *)
(** * Length-prefixed JSON frames ([crates/protocol/src/frame.rs])

    A frame is a little-endian [u32] length followed by that many bytes of
    JSON.  A reader is the byte sequence it will deliver; a writer is the byte
    sequence written so far. *)

From S2P Require Import Prelude Extern.
From Stdlib Require Import ZArith Lia Ascii.
From stdpp Require Import prelude strings.

Definition MAX_FRAME_SIZE : Z := (1024 * 1024)%Z.

Inductive FrameError := FrameTooLarge | InvalidUtf8 | InvalidJson | FrameIo.

(** [serde_json::to_vec] and [serde_json::from_str] at a type [T]. *)
Class SerdeText (T : Type) : Type := {
  to_text : T → option string;
  from_text : string → option T;
}.

(** ** Bytes *)
Definition str_bytes (s : string) : list u8 :=
  (λ c, Z.of_N (N_of_ascii c)) <$> String.list_ascii_of_string s.
Definition bytes_str (l : list u8) : string :=
  String.string_of_list_ascii ((λ b, ascii_of_N (Z.to_N b)) <$> l).

Definition u32_le_bytes (n : u32) : list u8 :=
  [n mod 256; (n / 256) mod 256; (n / 65536) mod 256; (n / 16777216) mod 256]%Z.
Definition u32_from_le_bytes (b : list u8) : u32 :=
  match b with
  | [b0; b1; b2; b3] => (b0 + 256 * b1 + 65536 * b2 + 16777216 * b3)%Z
  | _ => 0%Z
  end.

(** [std::str::from_utf8]: well-formed UTF-8 byte sequences. *)
Definition between (lo hi b : Z) : bool := (lo <=? b)%Z && (b <=? hi)%Z.
Definition continuation (b : Z) : bool := between 128 191 b.
Fixpoint utf8_valid (l : list u8) : bool :=
  match l with
  | [] => true
  | b0 :: r0 =>
      if between 0 127 b0 then utf8_valid r0 else
      match r0 with
      | [] => false
      | b1 :: r1 =>
          if between 194 223 b0 then continuation b1 && utf8_valid r1 else
          match r1 with
          | [] => false
          | b2 :: r2 =>
              if between 224 239 b0 then
                (if (b0 =? 224)%Z then between 160 191 b1
                 else if (b0 =? 237)%Z then between 128 159 b1 else continuation b1)
                && continuation b2 && utf8_valid r2
              else
              match r2 with
              | [] => false
              | b3 :: r3 =>
                  between 240 244 b0
                  && (if (b0 =? 240)%Z then between 144 191 b1
                      else if (b0 =? 244)%Z then between 128 143 b1 else continuation b1)
                  && continuation b2 && continuation b3 && utf8_valid r3
              end
          end
      end
  end.
Definition from_utf8 (l : list u8) : option string :=
  if utf8_valid l then Some (bytes_str l) else None.

(** [reader.read_exact] for [n] bytes: what is read and what remains. *)
Definition read_exact (n : nat) (reader : list u8) : option (list u8 * list u8) :=
  if (n <=? length reader)%nat then Some (take n reader, drop n reader) else None.

Section frames.
Context `{SerdeText T}.

Definition read_frame (reader : list u8) : list u8 * result FrameError T :=
  match read_exact 4 reader with
  | None => ([], Err FrameIo)
  | Some (length_bytes, reader) =>
      let len := u32_from_le_bytes length_bytes in
      if (MAX_FRAME_SIZE <? len)%Z then (reader, Err FrameTooLarge)
      else match read_exact (Z.to_nat len) reader with
      | None => ([], Err FrameIo)
      | Some (payload, reader) =>
          match from_utf8 payload with
          | None => (reader, Err InvalidUtf8)
          | Some json => (reader, ok_or InvalidJson (from_text json))
          end
      end
  end.

Definition write_frame (value : T) (writer : list u8) : list u8 * result FrameError unit :=
  match to_text value with
  | None => (writer, Err InvalidJson)
  | Some payload =>
      let bytes := str_bytes payload in
      if (MAX_FRAME_SIZE <? Z.of_nat (length bytes))%Z then (writer, Err FrameTooLarge)
      else (writer ++ u32_le_bytes (Z.of_nat (length bytes)) ++ bytes, Ok tt)
  end.

(** Reading frames until the input is used up (the loop of a connection). *)
Fixpoint read_frames (n : nat) (reader : list u8) : list u8 * result FrameError (list T) :=
  match n with
  | 0 => (reader, Ok [])
  | S n =>
      match read_frame reader with
      | (reader, Err e) => (reader, Err e)
      | (reader, Ok v) =>
          match read_frames n reader with
          | (reader, Err e) => (reader, Err e)
          | (reader, Ok l) => (reader, Ok (v :: l))
          end
      end
  end.
Fixpoint write_frames (values : list T) (writer : list u8) : list u8 * result FrameError unit :=
  match values with
  | [] => (writer, Ok tt)
  | v :: rest =>
      match write_frame v writer with
      | (writer, Err e) => (writer, Err e)
      | (writer, Ok _) => write_frames rest writer
      end
  end.
End frames.

(** ** Lemmas *)
Lemma u32_le_roundtrip n : is_u32 n → u32_from_le_bytes (u32_le_bytes n) = n.
Proof.
  unfold is_u32, u32_max, u32_le_bytes, u32_from_le_bytes. intros Hn.
  replace (n / 65536)%Z with (n / 256 / 256)%Z by (by rewrite Z.div_div by lia).
  replace (n / 16777216)%Z with (n / 256 / 256 / 256)%Z by (by rewrite !Z.div_div by lia).
  pose proof (Z.div_mod n 256). pose proof (Z.div_mod (n / 256) 256).
  pose proof (Z.div_mod (n / 256 / 256) 256).
  rewrite (Z.mod_small (n / 256 / 256 / 256)); [lia|]. rewrite !Z.div_div by lia.
  split; [apply Z.div_pos; lia|apply Z.div_lt_upper_bound; lia].
Qed.
Lemma bytes_str_bytes s : bytes_str (str_bytes s) = s.
Proof.
  unfold bytes_str, str_bytes. rewrite <-list_fmap_compose.
  rewrite <-(String.string_of_list_ascii_of_string s) at 2. f_equal.
  rewrite <-(list_fmap_id (String.list_ascii_of_string s)) at 2. apply list_fmap_ext.
  intros _ c _. simpl. by rewrite N2Z.id, ascii_N_embedding.
Qed.
Lemma read_exact_app n l k : length l = n → read_exact n (l ++ k) = Some (l, k).
Proof.
  intros <-. unfold read_exact. rewrite length_app, (proj2 (Nat.leb_le _ _)) by lia.
  by rewrite take_app_length, drop_app_length.
Qed.

(** What the JSON library promises at [T]: its output is a Rust string (valid
    UTF-8) and parses back to the value. *)
Class SerdeTextLaws `{SerdeText T} : Prop := {
  to_text_utf8 v s : to_text v = Some s → utf8_valid (str_bytes s) = true;
  from_to_text v s : to_text v = Some s → from_text s = Some v;
}.
Arguments SerdeTextLaws T {_}.

(** What the text of a message is read back as, its frame is read back as. *)
Lemma write_frame_read_back `{SerdeText T} (v v' : T) w w' :
  (∀ s, to_text v = Some s → utf8_valid (str_bytes s) = true ∧ from_text s = Some v') →
  write_frame v w = (w', Ok tt) →
  ∃ frame, w' = w ++ frame ∧ (Z.of_nat (length frame) ≤ 4 + MAX_FRAME_SIZE)%Z ∧
    ∀ rest, read_frame (frame ++ rest) = (rest, Ok v').
Proof.
  intros Hback. unfold write_frame. destruct (to_text v) as [s|] eqn:Hs; [|done].
  destruct (_ <? _)%Z eqn:Hlen; [done|]. intros [= <-]. apply Z.ltb_ge in Hlen.
  exists (u32_le_bytes (Z.of_nat (length (str_bytes s))) ++ str_bytes s).
  split; [done|]. split; [rewrite length_app; simpl; lia|]. intros rest.
  assert (Z.of_nat (length (str_bytes s)) ≤ 1048576)%Z as Hle.
  { unfold MAX_FRAME_SIZE in Hlen. lia. }
  rewrite <-app_assoc. unfold read_frame. rewrite (read_exact_app 4) by done.
  rewrite u32_le_roundtrip by (unfold is_u32, u32_max; lia).
  rewrite (proj2 (Z.ltb_ge _ _)) by done. rewrite Nat2Z.id, read_exact_app by done.
  destruct (Hback s eq_refl) as [Hu Hf]. unfold from_utf8. by rewrite Hu, bytes_str_bytes, Hf.
Qed.

Section roundtrip.
Context `{SerdeText T, !SerdeTextLaws T}.

Lemma write_frame_appends (v : T) w w' :
  write_frame v w = (w', Ok tt) →
  ∃ frame, w' = w ++ frame ∧ (Z.of_nat (length frame) ≤ 4 + MAX_FRAME_SIZE)%Z ∧
    ∀ rest, read_frame (frame ++ rest) = (rest, Ok v).
Proof.
  apply write_frame_read_back. intros s Hs. split; [by eapply to_text_utf8|by apply from_to_text].
Qed.

(** Framing loses nothing: if writing a sequence of messages succeeds,
    reading as many frames from what was written, followed by anything,
    returns exactly those messages and leaves exactly what followed; and no
    frame occupies more than the length prefix and one MiB. *)
Theorem frames_roundtrip (values : list T) w rest :
  write_frames values [] = (w, Ok tt) →
  read_frames (length values) (w ++ rest) = (rest, Ok values) ∧
  (Z.of_nat (length w) ≤ Z.of_nat (length values) * (4 + MAX_FRAME_SIZE))%Z.
Proof.
  intros Hw.
  assert (∀ w0 w1, write_frames values w0 = (w1, Ok tt) → ∃ out, w1 = w0 ++ out ∧
    (Z.of_nat (length out) ≤ Z.of_nat (length values) * (4 + MAX_FRAME_SIZE))%Z ∧
    ∀ rest, read_frames (length values) (out ++ rest) = (rest, Ok values)) as Hall.
  { clear w rest Hw. induction values as [|v values IH]; intros w0 w1; simpl.
    - intros [= <-]. exists []. by rewrite app_nil_r.
    - destruct (write_frame v w0) as [w2 [[]|e]] eqn:Hv; [|done]. intros Hws.
      destruct (write_frame_appends _ _ _ Hv) as (f&->&Hlf&Hf).
      destruct (IH _ _ Hws) as (out&->&Hlo&Hout). exists (f ++ out).
      split; [by rewrite app_assoc|]. split; [rewrite length_app; lia|].
      intros rest. by rewrite <-app_assoc, Hf, Hout. }
  destruct (Hall [] w Hw) as (out&->&Hlen&Hread). simpl. split; [apply Hread|done].
Qed.

(** Writing a message and then others, seen by the reader. *)
Lemma write_frames_read (v : T) values w w' :
  write_frames (v :: values) w = (w', Ok tt) →
  ∃ frame rest, w' = w ++ frame ++ rest ∧ write_frames values [] = (rest, Ok tt) ∧
    ∀ k, read_frame (frame ++ k) = (k, Ok v).
Proof.
  assert (∀ values w0 w1 w2, write_frames values w0 = (w1, Ok tt) → ∃ rest,
    w1 = w0 ++ rest ∧ write_frames values w2 = (w2 ++ rest, Ok tt)) as Hshift.
  { clear. intros vs. induction vs as [|v vs IH]; intros w0 w1 w2; simpl.
    - intros [= <-]. exists []. by rewrite !app_nil_r.
    - unfold write_frame. destruct (to_text v) as [text|]; [|done].
      destruct (MAX_FRAME_SIZE <? _)%Z; [done|]. intros Hw.
      edestruct (IH _ _ (w2 ++ u32_le_bytes (Z.of_nat (length (str_bytes text))) ++ str_bytes text) Hw)
        as (rest&->&Hr). rewrite Hr. eexists. rewrite <-!app_assoc. by split. }
  simpl. destruct (write_frame v w) as [w1 [[]|e]] eqn:Hv; [|done]. intros Hw.
  destruct (write_frame_appends _ _ _ Hv) as (frame&->&_&Hread).
  destruct (Hshift _ _ _ [] Hw) as (rest&->&Hr). exists frame, rest.
  split; [by rewrite app_assoc|done].
Qed.

(** Whatever bytes arrive, a frame that is accepted announced at most one
    MiB, is well-formed UTF-8, and exactly its announced bytes were taken
    from the input. *)
Lemma read_frame_bounded (input : list u8) rest (v : T) :
  read_frame input = (rest, Ok v) →
  ∃ header payload, input = header ++ payload ++ rest ∧ length header = 4 ∧
    length payload = Z.to_nat (u32_from_le_bytes header) ∧
    (Z.of_nat (length payload) ≤ MAX_FRAME_SIZE)%Z ∧
    utf8_valid payload = true.
Proof.
  unfold read_frame, read_exact.
  destruct (4 <=? length input) eqn:H4; [|done]. apply Nat.leb_le in H4.
  destruct (MAX_FRAME_SIZE <? _)%Z eqn:Hmax; [done|]. apply Z.ltb_ge in Hmax.
  remember (Z.to_nat (u32_from_le_bytes (take 4 input))) as len eqn:Elen. set (tl := drop 4 input).
  destruct (len <=? length tl) eqn:Hl; [|done]. apply Nat.leb_le in Hl.
  unfold from_utf8. destruct (utf8_valid _) eqn:Hu; [|done]. intros [= <- _].
  exists (take 4 input), (take len tl).
  assert (length (take len tl) = len) as Hlen by (rewrite length_take; lia).
  rewrite Hlen. split_and!; try done; [|rewrite length_take; lia|unfold MAX_FRAME_SIZE in *; lia].
  rewrite (take_drop len tl). unfold tl. by rewrite take_drop.
Qed.
End roundtrip.

Module FrameExamples.
(** Messages that are their own text. *)
#[export] Instance ascii_text : SerdeText string := {
  to_text s := if utf8_valid (str_bytes s) then Some s else None;
  from_text s := Some s;
}.
#[export] Instance ascii_text_laws : SerdeTextLaws string.
Proof. split; simpl; intros v s; case_match; [by intros [= <-]|done|by intros [= <-]|done]. Qed.
Lemma frames_roundtrip_witness :
  read_frames 2 (write_frames ["ping"; "{}"] []).1 = ([], Ok ["ping"; "{}"]).
Proof.
  pose proof (frames_roundtrip ["ping"; "{}"] (write_frames ["ping"; "{}"] []).1 []) as H.
  rewrite app_nil_r in H. apply H. vm_compute. reflexivity.
Defined.
Lemma read_frame_bounded_witness :
  ∃ header payload, [2; 0; 0; 0; 123; 125; 7]%Z = header ++ payload ++ [7]%Z ∧
    length payload = Z.to_nat (u32_from_le_bytes header).
Proof.
  destruct (read_frame_bounded (T := string) [2; 0; 0; 0; 123; 125; 7]%Z [7]%Z "{}")
    as (h&p&?&?&?&_); [vm_compute; reflexivity|]. exists h, p. split; assumption.
Defined.
End FrameExamples.
