(* ===== verification/Handshake.v ===== *)
(** * Authenticated handshake ([crates/protocol/src/handshake.rs])

    A client proves knowledge of the installation secret with an HMAC over
    its identity, a fresh nonce and the versions it speaks; the verifier
    remembers recent nonces to refuse replays.  HMAC-SHA-256 is third-party
    code (a parameter); instants are nanoseconds on the monotonic clock. *)

From S2P Require Import Prelude Extern Frame.
From Stdlib Require Import ZArith Lia.
From stdpp Require Import sorting prelude strings.

Definition PROTOCOL_VERSION : u32 := 1%Z.
Definition NONCE_BYTES : usize := 32.
Definition NONCE_TTL : Z := (10 * 60 * 1000000000)%Z.
Definition MAX_CACHED_NONCES : Z := 4096%Z.

(** [HmacSha256::new_from_slice] ([None]: invalid key length) and the tag of
    everything fed to [update]. *)
Class HmacSha256 : Type := hmac_sha256 : list u8 → option (list u8 → list u8).

Record Handshake := {
  Handshake_install_id : string;
  Handshake_protocol_versions : list u32;
  Handshake_nonce : list u8;
  Handshake_proof : list u8;
}.
Record HandshakeAccepted := { HandshakeAccepted_protocol_version : u32 }.

Inductive ProtocolErrorCode :=
| AuthFailed | ReplayedNonce | CodeFrameTooLarge | IncompatibleProtocol | InvalidFrame.
#[export] Instance ProtocolErrorCode_eq_dec : EqDecision ProtocolErrorCode.
Proof. solve_decision. Defined.

(** [(len as u32).to_le_bytes()] truncates the length to 32 bits. *)
Definition len_le_bytes (n : nat) : list u8 := u32_le_bytes (Z.of_nat n mod 4294967296).

(** The bytes [update_proof] feeds to the MAC. *)
Definition update_proof (install_id : string) (nonce : list u8) (protocol_versions : list u32)
    : list u8 :=
  str_bytes "mission-control-handshake-v1" ++ [0%Z] ++
  len_le_bytes (length (str_bytes install_id)) ++ str_bytes install_id ++
  len_le_bytes (length nonce) ++ nonce ++
  len_le_bytes (length protocol_versions) ++
  (protocol_versions ≫= u32_le_bytes).

Record HandshakeVerifier := {
  HandshakeVerifier_expected_install_id : string;
  HandshakeVerifier_nonces : list (list u8 * Z);
}.
Definition HandshakeVerifier_new (expected_install_id : string) : HandshakeVerifier := {|
  HandshakeVerifier_expected_install_id := expected_install_id;
  HandshakeVerifier_nonces := [] |}.

Definition expired (now inserted : Z) : bool := (NONCE_TTL <=? Z.max 0 (now - inserted))%Z.
Fixpoint pop_expired (now : Z) (nonces : list (list u8 * Z)) : list (list u8 * Z) :=
  match nonces with
  | (_, inserted) :: rest => if expired now inserted then pop_expired now rest else nonces
  | [] => []
  end.
Definition remove_expired (now : Z) (self : HandshakeVerifier) : HandshakeVerifier := {|
  HandshakeVerifier_expected_install_id := HandshakeVerifier_expected_install_id self;
  HandshakeVerifier_nonces := pop_expired now (HandshakeVerifier_nonces self) |}.

Section verifier.
Context `{HmacSha256}.

Definition handshake_proof (secret : list u8) (install_id : string) (nonce : list u8)
    (protocol_versions : list u32) : option (list u8) :=
  mac ← hmac_sha256 secret;
  Some (mac (update_proof install_id nonce protocol_versions)).

(** [secret] is what the secret provider answers during the call. *)
Definition verify_at (secret : option (list u8)) (handshake : Handshake) (now : Z)
    : stm HandshakeVerifier ProtocolErrorCode HandshakeAccepted := λ self,
  let self := remove_expired now self in
  if negb (bool_decide (PROTOCOL_VERSION ∈ Handshake_protocol_versions handshake))
  then (self, Err IncompatibleProtocol)
  else if bool_decide (Handshake_install_id handshake
                       ≠ HandshakeVerifier_expected_install_id self)
  then (self, Err AuthFailed)
  else if negb (length (Handshake_nonce handshake) =? NONCE_BYTES)%nat
  then (self, Err AuthFailed)
  else if existsb (λ p, bool_decide (p.1 = Handshake_nonce handshake))
            (HandshakeVerifier_nonces self)
  then (self, Err ReplayedNonce)
  else if (Z.of_nat (length (HandshakeVerifier_nonces self)) =? MAX_CACHED_NONCES)%Z
  then (self, Err AuthFailed)
  else match secret ≫= hmac_sha256 with
  | None => (self, Err AuthFailed)
  | Some mac =>
      if negb (bool_decide (Handshake_proof handshake =
           mac (update_proof (Handshake_install_id handshake) (Handshake_nonce handshake)
                  (Handshake_protocol_versions handshake))))
      then (self, Err AuthFailed)
      else ({|
        HandshakeVerifier_expected_install_id := HandshakeVerifier_expected_install_id self;
        HandshakeVerifier_nonces :=
          HandshakeVerifier_nonces self ++ [(Handshake_nonce handshake, now)] |},
        Ok {| HandshakeAccepted_protocol_version := PROTOCOL_VERSION |})
  end.

(** ** Histories: the handshakes accepted so far, latest first, under a clock
    that never goes back *)
Inductive verifier_run (install_id : string)
    : list (list u8 * Z) → Z → HandshakeVerifier → Prop :=
| vrun_nil t : verifier_run install_id [] t (HandshakeVerifier_new install_id)
| vrun_step acc t v secret h now v' r :
    verifier_run install_id acc t v → (t ≤ now)%Z →
    verify_at secret h now v = (v', r) →
    verifier_run install_id
      (match r with Ok _ => [(Handshake_nonce h, now)] | Err _ => [] end ++ acc) now v'.

(** The cache is ordered by time and holds every accepted nonce that has not
    expired. *)
Record verifier_inv (acc : list (list u8 * Z)) (t : Z) (v : HandshakeVerifier) : Prop := {
  vi_bound : (Z.of_nat (length (HandshakeVerifier_nonces v)) ≤ MAX_CACHED_NONCES)%Z;
  vi_sorted : StronglySorted (λ p q, (p.2 ≤ q.2)%Z) (HandshakeVerifier_nonces v);
  vi_past : ∀ p, p ∈ HandshakeVerifier_nonces v → (p.2 ≤ t)%Z;
  vi_live : ∀ p, p ∈ acc → (t - p.2 < NONCE_TTL)%Z → p ∈ HandshakeVerifier_nonces v;
  vi_acc_past : ∀ p, p ∈ acc → (p.2 ≤ t)%Z;
}.

Lemma pop_expired_spec now l :
  StronglySorted (λ p q, (p.2 ≤ q.2)%Z) l →
  StronglySorted (λ p q, (p.2 ≤ q.2)%Z) (pop_expired now l) ∧
  length (pop_expired now l) ≤ length l ∧
  (∀ p, p ∈ pop_expired now l → p ∈ l) ∧
  (∀ p, p ∈ l → (now - p.2 < NONCE_TTL)%Z → p ∈ pop_expired now l).
Proof.
  induction l as [|[n i] l IH]; intros Hs; simpl; [done|].
  apply StronglySorted_inv in Hs as [Hs Hh]. rewrite list.Forall_forall in Hh. simpl in Hh.
  destruct (expired now i) eqn:He; unfold expired, NONCE_TTL in *; guards.
  - destruct (IH Hs) as (I1&I2&I3&I4). split_and!; [done|lia|set_solver|].
    intros p [->|Hp]%elem_of_cons Hlive; [simpl in *; lia|by apply I4].
  - split_and!; [|done..]. constructor; [done|]. by apply list.Forall_forall.
Qed.

Lemma verifier_inv_step acc t v secret h now v' r :
  verifier_inv acc t v → (t ≤ now)%Z → verify_at secret h now v = (v', r) →
  verifier_inv (match r with Ok _ => [(Handshake_nonce h, now)] | Err _ => [] end ++ acc) now v'.
Proof.
  intros [B S P Lv A] Hnow Hv.
  destruct (pop_expired_spec now _ S) as (S'&B'&Sub&Keep).
  assert (verifier_inv acc now (remove_expired now v)) as Hr.
  { split; simpl; [lia|done| | |].
    - intros p Hp. specialize (P p (Sub p Hp)). lia.
    - intros p Hp Hlive. apply Keep; [|done]. apply Lv; [done|lia].
    - intros p Hp. specialize (A p Hp). lia. }
  unfold verify_at in Hv. destruct Hr as [B2 S2 P2 Lv2 A2].
  do 5 (case_match; simplify_eq/=; [by split|]).
  case_match; simplify_eq/=; [|by split]. case_match; simplify_eq/=; [by split|]. guards.
  split; simpl.
  - rewrite length_app. simpl in *. lia.
  - apply StronglySorted_app_2; [|done|by repeat constructor].
    intros p q Hp ->%list_elem_of_singleton. simpl. by apply P2.
  - intros p [Hp| ->%list_elem_of_singleton]%elem_of_app; [by apply P2|done].
  - intros p [->|Hp]%elem_of_cons Hlive; [apply elem_of_app; right; by left|].
    apply elem_of_app. left. by apply Lv2.
  - intros p [->|Hp]%elem_of_cons; [done|by apply A2].
Qed.
Lemma verifier_run_inv install_id acc t v :
  verifier_run install_id acc t v → verifier_inv acc t v.
Proof.
  induction 1; [|by eapply verifier_inv_step].
  split; simpl; try (by intros p ?%elem_of_nil); [done|constructor].
Qed.

(** A nonce is not accepted again before it expires. *)
Lemma accepted_nonce_fresh acc t v secret h now v' ok :
  verifier_inv acc t v → (t ≤ now)%Z → verify_at secret h now v = (v', Ok ok) →
  ∀ t0, (Handshake_nonce h, t0) ∈ acc → (NONCE_TTL ≤ now - t0)%Z.
Proof.
  intros Hinv Hnow Hv t0 Hin. apply Z.nlt_ge. intros Hlt.
  destruct (pop_expired_spec now _ (vi_sorted _ _ _ Hinv)) as (_&_&_&Keep).
  assert ((Handshake_nonce h, t0) ∈ pop_expired now (HandshakeVerifier_nonces v)) as Hc.
  { apply Keep; [|done]. apply (vi_live _ _ _ Hinv); [done|]. simpl in *. lia. }
  unfold verify_at in Hv. simpl in Hv. do 3 (case_match; [done|]). case_match; [done|].
  match goal with E : existsb _ _ = false |- _ => apply not_true_iff_false in E; apply E end.
  apply existsb_exists. exists (Handshake_nonce h, t0). rewrite <-list_elem_of_In.
  split; [done|]. by rewrite bool_decide_eq_true_2.
Qed.

(** An accepted handshake offered the protocol version, named this
    installation, carried a nonce of 32 bytes and an HMAC of its own contents
    under the installation secret; and the same nonce is never accepted twice
    within the ten-minute window, whatever else the verifier saw, while its
    cache never exceeds 4096 entries. *)
Theorem nonce_replay_refused install_id acc t v secret h now v' ok :
  verifier_run install_id acc t v → (t ≤ now)%Z →
  verify_at secret h now v = (v', Ok ok) →
  (∀ t0, (Handshake_nonce h, t0) ∈ acc → (NONCE_TTL ≤ now - t0)%Z) ∧
  PROTOCOL_VERSION ∈ Handshake_protocol_versions h ∧
  Handshake_install_id h = HandshakeVerifier_expected_install_id v ∧
  length (Handshake_nonce h) = NONCE_BYTES ∧
  (∃ key, secret = Some key ∧ handshake_proof key (Handshake_install_id h)
    (Handshake_nonce h) (Handshake_protocol_versions h) = Some (Handshake_proof h)) ∧
  (Z.of_nat (length (HandshakeVerifier_nonces v')) ≤ MAX_CACHED_NONCES)%Z.
Proof.
  intros Hrun Hnow Hv. pose proof (verifier_run_inv _ _ _ _ Hrun) as Hinv.
  pose proof (verifier_inv_step _ _ _ _ _ _ _ _ Hinv Hnow Hv) as [B' _ _ _ _].
  pose proof (accepted_nonce_fresh _ _ _ _ _ _ _ _ Hinv Hnow Hv) as Hfresh.
  unfold verify_at in Hv. simpl in Hv.
  do 5 (case_match; simplify_eq/=). case_match; simplify_eq/=. case_match; simplify_eq/=. guards.
  split_and!; try done.
  - by apply Nat.eqb_eq.
  - match goal with E : _ ≫= hmac_sha256 = Some _ |- _ =>
      apply bind_Some in E as (key&->&Hk) end.
    exists key. split; [done|]. unfold handshake_proof. rewrite Hk. simpl. congruence.
Qed.
End verifier.

(** ** The MAC input determines the handshake *)

Lemma len_le_bytes_inj n m :
  (Z.of_nat n ≤ u32_max)%Z → (Z.of_nat m ≤ u32_max)%Z → len_le_bytes n = len_le_bytes m → n = m.
Proof.
  unfold len_le_bytes, u32_max. intros Hn Hm. rewrite !Z.mod_small by lia. intros Heq.
  apply (f_equal u32_from_le_bytes) in Heq.
  rewrite !u32_le_roundtrip in Heq by (unfold is_u32, u32_max; lia). lia.
Qed.
(** A length-prefixed field is delimited. *)
Lemma prefixed_inj (l k r r' : list u8) :
  (Z.of_nat (length l) ≤ u32_max)%Z → (Z.of_nat (length k) ≤ u32_max)%Z →
  len_le_bytes (length l) ++ l ++ r = len_le_bytes (length k) ++ k ++ r' → l = k ∧ r = r'.
Proof.
  intros Hl Hk Heq. apply app_inj_1 in Heq as [Hlen Heq]; [|done].
  apply len_le_bytes_inj in Hlen; [|done..]. by apply app_inj_1 in Heq.
Qed.
Lemma versions_inj (vs ws : list u32) :
  Forall is_u32 vs → Forall is_u32 ws → length vs = length ws →
  vs ≫= u32_le_bytes = ws ≫= u32_le_bytes → vs = ws.
Proof.
  revert ws. induction vs as [|v vs IH]; intros [|w ws] Hv Hw Hlen Heq; try done.
  apply list.Forall_cons in Hv as [Hv Hvs]. apply list.Forall_cons in Hw as [Hw Hws].
  rewrite !bind_cons in Heq. apply app_inj_1 in Heq as [Hh Heq]; [|done].
  apply (f_equal u32_from_le_bytes) in Hh. rewrite !u32_le_roundtrip in Hh by done. subst.
  f_equal. apply IH; [done|done|simpl in Hlen; lia|done].
Qed.
Lemma str_bytes_inj s s' : str_bytes s = str_bytes s' → s = s'.
Proof. intros Heq. by rewrite <-(bytes_str_bytes s), Heq, bytes_str_bytes. Qed.

(** The proof covers the whole handshake unambiguously: two handshakes
    whose fields fit 32-bit lengths feed the same bytes to the MAC only if
    they have the same installation, nonce and version list, so a proof for
    one is never a proof for another. *)
Theorem proof_binds_transcript id id' nonce nonce' vs vs' :
  (str_len id ≤ u32_max)%Z → (str_len id' ≤ u32_max)%Z →
  (Z.of_nat (length nonce) ≤ u32_max)%Z → (Z.of_nat (length nonce') ≤ u32_max)%Z →
  (Z.of_nat (length vs) ≤ u32_max)%Z → (Z.of_nat (length vs') ≤ u32_max)%Z →
  Forall is_u32 vs → Forall is_u32 vs' →
  update_proof id nonce vs = update_proof id' nonce' vs' →
  id = id' ∧ nonce = nonce' ∧ vs = vs'.
Proof.
  intros Hi Hi' Hn Hn' Hv Hv' Fv Fv' Heq. unfold update_proof in Heq.
  apply app_inj_1 in Heq as [_ Heq]; [|done]. apply app_inj_1 in Heq as [_ Heq]; [|done].
  assert (∀ s, Z.of_nat (length (str_bytes s)) = str_len s) as Hsl.
  { intros s. unfold str_bytes, str_len. rewrite length_fmap. f_equal.
    induction s as [|c s IH]; simpl; [done|by rewrite IH]. }
  apply prefixed_inj in Heq as [Hid Heq]; [|by rewrite Hsl..].
  apply prefixed_inj in Heq as [Hnc Heq]; [|done..].
  apply app_inj_1 in Heq as [Hlv Heq]; [|done].
  apply len_le_bytes_inj in Hlv; [|done..].
  split_and!; [by apply str_bytes_inj|done|by apply versions_inj].
Qed.

Module HandshakeExamples.
(** A toy MAC: the key followed by the message. *)
#[export] Instance toy_hmac : HmacSha256 := λ key, Some (λ m, key ++ m).
Definition ex_nonce : list u8 := replicate 32 7%Z.
Definition ex_handshake : Handshake := {|
  Handshake_install_id := "i"; Handshake_protocol_versions := [1%Z];
  Handshake_nonce := ex_nonce;
  Handshake_proof := [9%Z] ++ update_proof "i" ex_nonce [1%Z] |}.
Definition ex_verifier : HandshakeVerifier := {|
  HandshakeVerifier_expected_install_id := "i"; HandshakeVerifier_nonces := [(ex_nonce, 5%Z)] |}.
Lemma ex_verifier_run : verifier_run "i" [(ex_nonce, 5%Z)] 5%Z ex_verifier.
Proof.
  eapply (vrun_step "i" [] 0%Z _ (Some [9%Z]) ex_handshake 5%Z _
    (Ok {| HandshakeAccepted_protocol_version := 1%Z |})); [apply vrun_nil|done|].
  vm_compute. reflexivity.
Qed.
Lemma nonce_replay_refused_witness : (NONCE_TTL ≤ (NONCE_TTL + 5) - 5)%Z.
Proof.
  apply (nonce_replay_refused "i" [(ex_nonce, 5%Z)] 5%Z ex_verifier (Some [9%Z]) ex_handshake
    (NONCE_TTL + 5)%Z
    {| HandshakeVerifier_expected_install_id := "i";
       HandshakeVerifier_nonces := [(ex_nonce, (NONCE_TTL + 5)%Z)] |}
    {| HandshakeAccepted_protocol_version := 1%Z |}).
  - apply ex_verifier_run.
  - done.
  - vm_compute. reflexivity.
  - by left.
Defined.
Lemma proof_binds_transcript_witness :
  update_proof "i" ex_nonce [1%Z] ≠ update_proof "i" ex_nonce [1%Z; 2%Z].
Proof.
  intros Heq. destruct (proof_binds_transcript "i" "i" ex_nonce ex_nonce [1%Z] [1%Z; 2%Z])
    as (_&_&Hv); [unfold str_len, u32_max; simpl; lia..| | |exact Heq|discriminate Hv];
    repeat constructor; unfold is_u32, u32_max; lia.
Defined.
End HandshakeExamples.
