(* ===== verification/Memory.v ===== *)
(** * Memory items, extraction and review ([crates/memory/src])

    [item.rs]: a memory item and the candidate an event yields;
    [extract.rs]: candidates of an event stream; [lifecycle.rs]: the store of
    items with its append-only history, whose every state-changing review is
    a user's.  [EventId::new] is a supply indexed by the number of mutations
    the store has recorded. *)

From S2P Require Import Prelude Extern Ids Event.
From Stdlib Require Import ZArith Lia.
From stdpp Require Import prelude gmap strings.

(** ** [item.rs] *)
Inductive MemoryKind :=
| MKConfirmedDecision | MKConstraint | MKFact | MKPreference | MKRisk | MKInference.
#[export] Instance MemoryKind_eq_dec : EqDecision MemoryKind.
Proof. solve_decision. Defined.
Inductive MemoryScope := ScopeMission | ScopeRoute.
#[export] Instance MemoryScope_eq_dec : EqDecision MemoryScope.
Proof. solve_decision. Defined.
Inductive MemoryFreshness := Fresh | Stale | FreshnessUnknown.
#[export] Instance MemoryFreshness_eq_dec : EqDecision MemoryFreshness.
Proof. solve_decision. Defined.
Inductive MemoryStatus := MCandidate | MConfirmed | MDeferred | MInvalidated | MRejected.
#[export] Instance MemoryStatus_eq_dec : EqDecision MemoryStatus.
Proof. solve_decision. Defined.
Inductive MemoryAuthor := AuthorUser | AuthorSupervisor | AuthorAgent | AuthorSystem.
#[export] Instance MemoryAuthor_eq_dec : EqDecision MemoryAuthor.
Proof. solve_decision. Defined.

Record MemoryItem := {
  MemoryItem_id : string;
  MemoryItem_mission_id : MissionId;
  MemoryItem_route_id : RouteId;
  MemoryItem_kind : MemoryKind;
  MemoryItem_content : string;
  MemoryItem_source_event_ids : list EventId;
  MemoryItem_scope : MemoryScope;
  MemoryItem_freshness : MemoryFreshness;
  MemoryItem_version : u64;
  MemoryItem_status : MemoryStatus;
  MemoryItem_author : MemoryAuthor;
}.
#[export] Instance MemoryItem_eq_dec : EqDecision MemoryItem.
Proof. solve_decision. Defined.

Inductive MemoryError :=
| SourceRequired | InvalidItem | UnsupportedSource | InferenceCannotBeConfirmed
| MemoryForbiddenActor | MemoryNotFound | MemoryDuplicateId | MemoryInvalidTransition.
#[export] Instance MemoryError_eq_dec : EqDecision MemoryError.
Proof. solve_decision. Defined.

Definition MemoryItem_validate (self : MemoryItem) : result MemoryError unit :=
  if blank (MemoryItem_id self) || (512 <? str_len (MemoryItem_id self))%Z
     || blank (MemoryItem_content self) then Err InvalidItem
  else if is_empty (MemoryItem_source_event_ids self) then Err SourceRequired
  else if (MemoryItem_version self =? 0)%Z then Err InvalidItem
  else Ok tt.

Definition author_for (source : EventSource) : MemoryAuthor :=
  match source with
  | SourceUser => AuthorUser
  | SourceSupervisor => AuthorSupervisor
  | SourceAgent => AuthorAgent
  | SourceSystem => AuthorSystem
  end.

Inductive MemoryAction :=
| ActCreated | ActConfirmed | ActEdited | ActNarrowed | ActDeferred | ActInvalidated
| ActRejected.
#[export] Instance MemoryAction_eq_dec : EqDecision MemoryAction.
Proof. solve_decision. Defined.

Section memory.
Context `{SerdeJson, Sha256, UuidText}.

Fixpoint content_field (payload : Value) (fields : list string) : option string :=
  match fields with
  | [] => None
  | field :: fields =>
      match Value_get payload field ≫= Value_as_str with
      | Some value => if negb (blank value) then Some value else content_field payload fields
      | None => content_field payload fields
      end
  end.
Definition content_from_payload (payload : Value) : result MemoryError string :=
  match content_field payload ["summary"; "goal"; "decision"; "preference"; "reason"] with
  | Some value => Ok value
  | None => Ok (to_vec payload)
  end.

Definition kind_for (event : EventEnvelope) : result MemoryError MemoryKind :=
  if bool_decide (EventEnvelope_confidence event = Inferred) then Ok MKInference else
  match EventEnvelope_kind event with
  | ContractUpdated => Ok MKConstraint
  | ApprovalResolved => Ok MKConfirmedDecision
  | EvidenceRecorded => Ok MKFact
  | UnknownKind _ =>
      if bool_decide (EventEnvelope_source event = SourceUser) then Ok MKPreference
      else Err UnsupportedSource
  | _ => Err UnsupportedSource
  end.

Definition MemoryItem_from_event (event : EventEnvelope) : result MemoryError MemoryItem :=
  content ← content_from_payload (EventEnvelope_payload event);
  kind ← kind_for event;
  let item := {|
    MemoryItem_id := "memory:" +:+ uuid_to_string (EventEnvelope_event_id event);
    MemoryItem_mission_id := EventEnvelope_mission_id event;
    MemoryItem_route_id := EventEnvelope_route_id event;
    MemoryItem_kind := kind;
    MemoryItem_content := content;
    MemoryItem_source_event_ids := [EventEnvelope_event_id event];
    MemoryItem_scope :=
      if bool_decide (EventEnvelope_kind event = ContractUpdated) then ScopeMission
      else ScopeRoute;
    MemoryItem_freshness := Fresh;
    MemoryItem_version := 1;
    MemoryItem_status := MCandidate;
    MemoryItem_author := author_for (EventEnvelope_source event) |} in
  _ ← MemoryItem_validate item;
  Ok item.

(** ** [extract.rs] *)
Definition eligible (event : EventEnvelope) : bool :=
  match EventEnvelope_kind event with
  | ContractUpdated | ApprovalResolved | EvidenceRecorded => true
  | _ => false
  end || bool_decide (EventEnvelope_source event = SourceUser).

(** [.filter(eligible).filter(|e| seen.insert(e.event_id))]. *)
Fixpoint unseen (seen : gset EventId) (events : list EventEnvelope) : list EventEnvelope :=
  match events with
  | [] => []
  | event :: events =>
      if eligible event then
        if bool_decide (EventEnvelope_event_id event ∈ seen) then unseen seen events
        else event :: unseen ({[EventEnvelope_event_id event]} ∪ seen) events
      else unseen seen events
  end.
Definition extract_candidates (events : list EventEnvelope)
    : result MemoryError (list MemoryItem) :=
  mapM MemoryItem_from_event (unseen ∅ events).

(** ** [lifecycle.rs] *)
Context `{!Serde MemoryAction, !Serde MemoryItem}.
Context (event_ids : nat → EventId).

Record MemoryMutation := {
  MemoryMutation_action : MemoryAction;
  MemoryMutation_actor : MemoryAuthor;
  MemoryMutation_item : MemoryItem;
  MemoryMutation_event : EventEnvelope;
}.
Record MemoryStore := {
  MemoryStore_items : gmap string MemoryItem;
  MemoryStore_history : list MemoryMutation;
  MemoryStore_next_sequence : u64;
}.
Definition MemoryStore_default : MemoryStore :=
  {| MemoryStore_items := ∅; MemoryStore_history := []; MemoryStore_next_sequence := 0 |}.

Definition mutation_event (event_id : EventId) (sequence : u64) (action : MemoryAction)
    (actor : MemoryAuthor) (item : MemoryItem) : EventEnvelope :=
  let event := EventEnvelope_new event_id (MemoryItem_mission_id item)
    (MemoryItem_route_id item) sequence MemoryItemChanged
    (json_object [("action", to_value action); ("item", to_value item)]) in {|
  EventEnvelope_event_id := EventEnvelope_event_id event;
  EventEnvelope_schema_version := EventEnvelope_schema_version event;
  EventEnvelope_mission_id := EventEnvelope_mission_id event;
  EventEnvelope_route_id := EventEnvelope_route_id event;
  EventEnvelope_agent_run_id := EventEnvelope_agent_run_id event;
  EventEnvelope_sequence := EventEnvelope_sequence event;
  EventEnvelope_occurred_at := EventEnvelope_occurred_at event;
  EventEnvelope_source :=
    if bool_decide (actor = AuthorUser) then SourceUser else SourceSupervisor;
  EventEnvelope_confidence :=
    if bool_decide (MemoryItem_status item = MConfirmed) then Confirmed else Observed;
  EventEnvelope_kind := EventEnvelope_kind event;
  EventEnvelope_payload := EventEnvelope_payload event;
  EventEnvelope_raw_evidence := EventEnvelope_raw_evidence event;
  EventEnvelope_payload_hash := EventEnvelope_payload_hash event;
  EventEnvelope_correlation_id := EventEnvelope_correlation_id event;
  EventEnvelope_causation_id := EventEnvelope_causation_id event;
  EventEnvelope_links := {| EventLinks_parent_event_id := None;
    EventLinks_source_event_ids := MemoryItem_source_event_ids item |};
|}.

Definition append_mutation (action : MemoryAction) (actor : MemoryAuthor) (item : MemoryItem)
    (self : MemoryStore) : MemoryStore :=
  let sequence := saturating_add u64_max (MemoryStore_next_sequence self) 1 in {|
  MemoryStore_items := MemoryStore_items self;
  MemoryStore_history := MemoryStore_history self ++ [{|
    MemoryMutation_action := action;
    MemoryMutation_actor := actor;
    MemoryMutation_item := item;
    MemoryMutation_event :=
      mutation_event (event_ids (length (MemoryStore_history self))) sequence action actor item |}];
  MemoryStore_next_sequence := sequence |}.

Definition items_insert (id : string) (item : MemoryItem) (self : MemoryStore) : MemoryStore := {|
  MemoryStore_items := <[id := item]> (MemoryStore_items self);
  MemoryStore_history := MemoryStore_history self;
  MemoryStore_next_sequence := MemoryStore_next_sequence self |}.

Abbreviation mem A := (stm MemoryStore MemoryError A).

Definition memory_insert (item : MemoryItem) : mem unit :=
  _ ← stm_lift (MemoryItem_validate item);
  if bool_decide (MemoryItem_status item ≠ MCandidate)
  then stm_throw MemoryInvalidTransition else
  self ← stm_get;
  match MemoryStore_items self !! MemoryItem_id item with
  | Some _ => stm_throw MemoryDuplicateId
  | None =>
      _ ← stm_modify (items_insert (MemoryItem_id item) item);
      stm_modify (append_mutation ActCreated (MemoryItem_author item) item)
  end.

Definition memory_get (id : string) (self : MemoryStore) : option MemoryItem :=
  MemoryStore_items self !! id.

Definition next_item (content : option string) (status : MemoryStatus) (version : u64)
    (actor : MemoryAuthor) (current : MemoryItem) : MemoryItem := {|
  MemoryItem_id := MemoryItem_id current;
  MemoryItem_mission_id := MemoryItem_mission_id current;
  MemoryItem_route_id := MemoryItem_route_id current;
  MemoryItem_kind := MemoryItem_kind current;
  MemoryItem_content := default (MemoryItem_content current) content;
  MemoryItem_source_event_ids := MemoryItem_source_event_ids current;
  MemoryItem_scope := MemoryItem_scope current;
  MemoryItem_freshness := MemoryItem_freshness current;
  MemoryItem_version := version;
  MemoryItem_status := status;
  MemoryItem_author := actor |}.

Definition memory_mutate (id : string) (actor : MemoryAuthor) (action : MemoryAction)
    (status : MemoryStatus) (content : option string)
    (validate : MemoryItem → result MemoryError unit) : mem MemoryItem :=
  if bool_decide (actor ≠ AuthorUser) then stm_throw MemoryForbiddenActor else
  self ← stm_get;
  current ← stm_lift (ok_or MemoryNotFound (MemoryStore_items self !! id));
  _ ← stm_lift (validate current);
  version ← stm_lift (ok_or InvalidItem (checked_add64 (MemoryItem_version current) 1));
  let next := next_item content status version actor current in
  _ ← stm_lift (MemoryItem_validate next);
  _ ← stm_modify (items_insert id next);
  _ ← stm_modify (append_mutation action actor next);
  mret next.

Definition status_in (allowed : list MemoryStatus) (item : MemoryItem)
    : result MemoryError unit :=
  if bool_decide (MemoryItem_status item ∈ allowed) then Ok tt else Err MemoryInvalidTransition.

Definition status_not_in (refused : list MemoryStatus) (item : MemoryItem)
    : result MemoryError unit :=
  if bool_decide (MemoryItem_status item ∈ refused) then Err MemoryInvalidTransition else Ok tt.

Definition memory_confirm (id : string) (actor : MemoryAuthor) : mem MemoryItem :=
  memory_mutate id actor ActConfirmed MConfirmed None (λ item,
    if bool_decide (MemoryItem_kind item = MKInference) then Err InferenceCannotBeConfirmed
    else status_in [MCandidate; MDeferred] item).
Definition mutate_with_content (id : string) (actor : MemoryAuthor) (action : MemoryAction)
    (content : string) : mem MemoryItem :=
  if blank content then stm_throw InvalidItem else
  memory_mutate id actor action MCandidate (Some content)
    (status_not_in [MInvalidated; MRejected]).
Definition memory_edit (id : string) (actor : MemoryAuthor) (content : string) : mem MemoryItem :=
  mutate_with_content id actor ActEdited content.
Definition memory_narrow (id : string) (actor : MemoryAuthor) (content : string)
    : mem MemoryItem :=
  mutate_with_content id actor ActNarrowed content.
Definition memory_defer (id : string) (actor : MemoryAuthor) : mem MemoryItem :=
  memory_mutate id actor ActDeferred MDeferred None (status_in [MCandidate; MConfirmed]).
Definition memory_invalidate (id : string) (actor : MemoryAuthor) : mem MemoryItem :=
  memory_mutate id actor ActInvalidated MInvalidated None
    (status_not_in [MInvalidated; MRejected]).
Definition memory_reject (id : string) (actor : MemoryAuthor) : mem MemoryItem :=
  memory_mutate id actor ActRejected MRejected None (status_in [MCandidate; MDeferred]).

(** ** Runs of the store *)
Inductive memory_op :=
| OpInsert (item : MemoryItem)
| OpConfirm (id : string) (actor : MemoryAuthor)
| OpEdit (id : string) (actor : MemoryAuthor) (content : string)
| OpNarrow (id : string) (actor : MemoryAuthor) (content : string)
| OpDefer (id : string) (actor : MemoryAuthor)
| OpInvalidate (id : string) (actor : MemoryAuthor)
| OpReject (id : string) (actor : MemoryAuthor).

Definition memory_exec (op : memory_op) : mem (option MemoryItem) :=
  match op with
  | OpInsert item => _ ← memory_insert item; mret None
  | OpConfirm id actor => it ← memory_confirm id actor; mret (Some it)
  | OpEdit id actor content => it ← memory_edit id actor content; mret (Some it)
  | OpNarrow id actor content => it ← memory_narrow id actor content; mret (Some it)
  | OpDefer id actor => it ← memory_defer id actor; mret (Some it)
  | OpInvalidate id actor => it ← memory_invalidate id actor; mret (Some it)
  | OpReject id actor => it ← memory_reject id actor; mret (Some it)
  end.
Definition memory_run (ops : list memory_op) : MemoryStore :=
  foldl (λ s op, (memory_exec op s).1) MemoryStore_default ops.

(** *** What a review may do to one item: the abstract state machine *)
Definition open_status (s : MemoryStatus) : Prop := s ≠ MInvalidated ∧ s ≠ MRejected.
Inductive reviewed (it : MemoryItem) : MemoryAction → MemoryItem → Prop :=
| reviewed_confirm :
    MemoryItem_kind it ≠ MKInference →
    MemoryItem_status it = MCandidate ∨ MemoryItem_status it = MDeferred →
    reviewed it ActConfirmed
      (next_item None MConfirmed (MemoryItem_version it + 1) AuthorUser it)
| reviewed_content action content :
    action = ActEdited ∨ action = ActNarrowed →
    open_status (MemoryItem_status it) →
    reviewed it action
      (next_item (Some content) MCandidate (MemoryItem_version it + 1) AuthorUser it)
| reviewed_defer :
    MemoryItem_status it = MCandidate ∨ MemoryItem_status it = MConfirmed →
    reviewed it ActDeferred
      (next_item None MDeferred (MemoryItem_version it + 1) AuthorUser it)
| reviewed_invalidate :
    open_status (MemoryItem_status it) →
    reviewed it ActInvalidated
      (next_item None MInvalidated (MemoryItem_version it + 1) AuthorUser it)
| reviewed_reject :
    MemoryItem_status it = MCandidate ∨ MemoryItem_status it = MDeferred →
    reviewed it ActRejected
      (next_item None MRejected (MemoryItem_version it + 1) AuthorUser it).

(** The mutations of one item, first to last, and the item they end in. *)
Inductive trail : list MemoryMutation → MemoryItem → Prop :=
| trail_created mu :
    MemoryMutation_action mu = ActCreated →
    MemoryMutation_actor mu = MemoryItem_author (MemoryMutation_item mu) →
    MemoryItem_status (MemoryMutation_item mu) = MCandidate →
    trail [mu] (MemoryMutation_item mu)
| trail_review l it mu :
    trail l it →
    reviewed it (MemoryMutation_action mu) (MemoryMutation_item mu) →
    MemoryMutation_actor mu = AuthorUser →
    trail (l ++ [mu]) (MemoryMutation_item mu).

Definition same_origin (a b : MemoryItem) : Prop :=
  MemoryItem_id a = MemoryItem_id b ∧
  MemoryItem_mission_id a = MemoryItem_mission_id b ∧
  MemoryItem_route_id a = MemoryItem_route_id b ∧
  MemoryItem_kind a = MemoryItem_kind b ∧
  MemoryItem_scope a = MemoryItem_scope b ∧
  MemoryItem_source_event_ids a = MemoryItem_source_event_ids b.

Lemma reviewed_next it action it' :
  reviewed it action it' →
  open_status (MemoryItem_status it) ∧ action ≠ ActCreated ∧ same_origin it it' ∧
  MemoryItem_version it' = (MemoryItem_version it + 1)%Z ∧
  MemoryItem_author it' = AuthorUser ∧
  (MemoryItem_status it' = MConfirmed → action = ActConfirmed ∧ MemoryItem_kind it' ≠ MKInference).
Proof.
  intros Hr. unfold same_origin.
  destruct Hr as [Hk Hs|a c Ha Hs|Hs|Hs|Hs]; unfold open_status in *; simpl;
    intuition congruence.
Qed.

Lemma trail_shape l it :
  trail l it →
  ∃ created reviews, l = created :: reviews ∧
    MemoryMutation_action created = ActCreated ∧
    MemoryMutation_actor created = MemoryItem_author (MemoryMutation_item created) ∧
    MemoryItem_status (MemoryMutation_item created) = MCandidate ∧
    Forall (λ mu, MemoryMutation_actor mu = AuthorUser ∧
                  MemoryMutation_action mu ≠ ActCreated) reviews ∧
    same_origin (MemoryMutation_item created) it ∧
    MemoryItem_version it =
      (MemoryItem_version (MemoryMutation_item created) + Z.of_nat (length reviews))%Z ∧
    MemoryMutation_item <$> last l = Some it ∧
    (MemoryItem_status it = MConfirmed →
      MemoryMutation_action <$> last reviews = Some ActConfirmed ∧
      MemoryItem_kind it ≠ MKInference).
Proof.
  induction 1 as [mu Ha Hau Hs|l it mu Hl (c&rs&->&Ha&Hau&Hs&Hrs&Ho&Hv&Hla&Hc) Hr Hact].
  - exists mu, []. rewrite Hs. repeat split; try done. simpl. lia.
  - apply reviewed_next in Hr as (Hop&Hna&Ho'&Hv'&_&Hc'). exists c, (rs ++ [mu]).
    repeat match goal with |- _ ∧ _ => split end; try done.
    + apply Forall_app. by repeat constructor.
    + unfold same_origin in *. intuition congruence.
    + rewrite Hv', Hv, length_app. simpl. lia.
    + change (c :: rs ++ [mu]) with ((c :: rs) ++ [mu]). by rewrite last_snoc.
    + rewrite last_snoc. simpl. intros Hst. destruct (Hc' Hst) as [-> ?]. done.
Qed.

(** *** Every call either fails and changes nothing, or is one recorded step *)
Definition reviewed_store (action : MemoryAction) (id : string) (next : MemoryItem)
    (s : MemoryStore) : MemoryStore :=
  append_mutation action AuthorUser next (items_insert id next s).

Lemma mutate_cases id actor action status content validate s s' r :
  memory_mutate id actor action status content validate s = (s', r) →
  (s' = s ∧ is_ok r = false) ∨
  (∃ it next, actor = AuthorUser ∧ MemoryStore_items s !! id = Some it ∧
    validate it = Ok tt ∧ r = Ok next ∧ MemoryItem_validate next = Ok tt ∧
    next = next_item content status (MemoryItem_version it + 1) AuthorUser it ∧
    s' = reviewed_store action id next s).
Proof.
  unfold memory_mutate, stm_throw, stm_get, stm_lift, stm_modify, mret, stm_ret, mbind, stm_bind.
  case_bool_decide as Hact; [intros [= <- <-]; by left|subst actor].
  destruct (MemoryStore_items s !! id) as [it|] eqn:Hit; simpl; [|intros [= <- <-]; by left].
  destruct (validate it) as [[]|e] eqn:Hv; [|intros [= <- <-]; by left].
  unfold checked_add64. destruct (_ <=? _)%Z; simpl; [|intros [= <- <-]; by left].
  destruct (MemoryItem_validate _) as [[]|e] eqn:Hn; [|intros [= <- <-]; by left].
  intros [= <- <-]. right. eexists it, _. by split_and!.
Qed.

Lemma status_in_ok allowed it : status_in allowed it = Ok tt ↔ MemoryItem_status it ∈ allowed.
Proof. unfold status_in. by case_bool_decide. Qed.
Lemma status_not_in_ok it :
  status_not_in [MInvalidated; MRejected] it = Ok tt ↔ open_status (MemoryItem_status it).
Proof. unfold status_not_in, open_status. case_bool_decide; set_solver. Qed.

Inductive memory_outcome (s : MemoryStore) : MemoryStore → Prop :=
| outcome_created it :
    MemoryItem_validate it = Ok tt → MemoryItem_status it = MCandidate →
    MemoryStore_items s !! MemoryItem_id it = None →
    memory_outcome s (append_mutation ActCreated (MemoryItem_author it) it
      (items_insert (MemoryItem_id it) it s))
| outcome_reviewed id it action next :
    MemoryStore_items s !! id = Some it → reviewed it action next →
    MemoryItem_validate next = Ok tt →
    memory_outcome s (reviewed_store action id next s).

Lemma insert_cases item s s' r :
  memory_insert item s = (s', r) →
  (s' = s ∧ is_ok r = false) ∨ (is_ok r = true ∧ memory_outcome s s').
Proof.
  unfold memory_insert, stm_throw, stm_get, stm_lift, stm_modify, mbind, stm_bind.
  destruct (MemoryItem_validate item) as [[]|e] eqn:Hv; [|intros [= <- <-]; by left].
  case_bool_decide as Hs; [intros [= <- <-]; by left|].
  destruct (_ !! _) eqn:Hi; intros [= <- <-]; [by left|]. right. split; [done|].
  by apply outcome_created.
Qed.

Lemma exec_cases op s s' r :
  memory_exec op s = (s', r) →
  (s' = s ∧ is_ok r = false) ∨ (is_ok r = true ∧ memory_outcome s s').
Proof.
  destruct op; simpl; unfold memory_confirm, memory_edit, memory_narrow, memory_defer,
    memory_invalidate, memory_reject, mutate_with_content;
    unfold mret, stm_ret, mbind, stm_bind;
    try (destruct (blank content); [by intros [= <- <-]; left|]);
    match goal with |- context [match ?m s with _ => _ end] => destruct (m s) as [s1 r1] eqn:Hm end.
  { apply insert_cases in Hm as [[-> Hr]|[Hr Ho]]; destruct r1; try done; intros [= <- <-]; auto. }
  all: apply mutate_cases in Hm as
    [[-> Hr]|(it&next&->&Hit&Hv&->&Hn&Hnext&->)];
    [destruct r1; [done|]; intros [= <- <-]; by left|].
  all: intros [= <- <-]; right; split; [done|]; apply outcome_reviewed with it; [done| |done].
  all: subst next; rewrite ?status_in_ok, ?status_not_in_ok in Hv.
  - case_bool_decide; [done|]. apply status_in_ok in Hv. constructor; set_solver.
  - constructor; auto.
  - constructor; auto.
  - constructor. set_solver.
  - by constructor.
  - constructor. set_solver.
Qed.

(** *** The store's invariant *)
Definition about (id : string) (s : MemoryStore) : list MemoryMutation :=
  filter (λ mu, MemoryItem_id (MemoryMutation_item mu) = id) (MemoryStore_history s).

Record item_inv (s : MemoryStore) (id : string) (it : MemoryItem) : Prop := {
  item_inv_id : MemoryItem_id it = id;
  item_inv_valid : MemoryItem_validate it = Ok tt;
  item_inv_trail : trail (about id s) it;
}.
Record store_inv (s : MemoryStore) : Prop := {
  store_inv_some id it : MemoryStore_items s !! id = Some it → item_inv s id it;
  store_inv_none id : MemoryStore_items s !! id = None → about id s = [];
  store_inv_events i mu : MemoryStore_history s !! i = Some mu →
    MemoryMutation_event mu = mutation_event (event_ids i) (Z.min u64_max (Z.of_nat i + 1))
      (MemoryMutation_action mu) (MemoryMutation_actor mu) (MemoryMutation_item mu);
  store_inv_sequence :
    MemoryStore_next_sequence s = Z.min u64_max (Z.of_nat (length (MemoryStore_history s)));
}.

Definition recorded (s : MemoryStore) (action : MemoryAction) (actor : MemoryAuthor)
    (it : MemoryItem) : MemoryMutation := {|
  MemoryMutation_action := action; MemoryMutation_actor := actor; MemoryMutation_item := it;
  MemoryMutation_event := mutation_event (event_ids (length (MemoryStore_history s)))
    (saturating_add u64_max (MemoryStore_next_sequence s) 1) action actor it |}.

(** The store after [items.insert] and [append_mutation]. *)
Definition stored (action : MemoryAction) (actor : MemoryAuthor) (it : MemoryItem)
    (s : MemoryStore) : MemoryStore :=
  append_mutation action actor it (items_insert (MemoryItem_id it) it s).

Lemma about_stored action actor it s id :
  about id (stored action actor it s) =
    about id s ++ (if decide (MemoryItem_id it = id) then [recorded s action actor it] else []).
Proof. unfold about. simpl. rewrite filter_app, filter_cons, filter_nil. done. Qed.

Lemma stored_inv action actor it s :
  store_inv s → MemoryItem_validate it = Ok tt →
  trail (about (MemoryItem_id it) s ++ [recorded s action actor it]) it →
  store_inv (stored action actor it s).
Proof.
  intros [Hs Hn He Hq] Hv Ht. split.
  - intros id x. simpl. destruct (decide (MemoryItem_id it = id)) as [<-|Hne].
    + rewrite lookup_insert_eq. intros [= <-]. split; [done..|].
      by rewrite about_stored, decide_True.
    + rewrite lookup_insert_ne by done. intros Hx. destruct (Hs id x Hx).
      split; [done..|]. by rewrite about_stored, decide_False, app_nil_r.
  - intros id. simpl. destruct (decide (MemoryItem_id it = id)) as [<-|Hne].
    + by rewrite lookup_insert_eq.
    + rewrite lookup_insert_ne by done. intros Hx.
      by rewrite about_stored, decide_False, app_nil_r, Hn.
  - intros i mu. simpl. rewrite lookup_app.
    destruct (MemoryStore_history s !! i) as [mu'|] eqn:Hi; [intros [= <-]; by apply He|].
    apply lookup_ge_None in Hi. intros Hmu. apply list_lookup_singleton_Some in Hmu as [Hi0 <-].
    simpl. rewrite Hq. unfold saturating_add. replace i with (length (MemoryStore_history s)) by lia.
    f_equal. unfold u64_max. lia.
  - simpl. rewrite Hq, length_app. unfold saturating_add, u64_max. simpl. lia.
Qed.

Lemma default_inv : store_inv MemoryStore_default.
Proof. split; [done|done|intros i mu; simpl; by rewrite lookup_nil|done]. Qed.

Lemma outcome_inv s s' : store_inv s → memory_outcome s s' → store_inv s'.
Proof.
  intros Hinv [it Hv Hst Hi|id it action next Hi Hr Hv].
  - apply stored_inv; [done..|]. rewrite (store_inv_none s Hinv _ Hi). simpl.
    by apply (trail_created (recorded s ActCreated (MemoryItem_author it) it)).
  - destruct (store_inv_some s Hinv _ _ Hi) as [Hid Hvi Ht].
    pose proof (reviewed_next _ _ _ Hr) as (_&_&(Ho&_)&_).
    assert (id = MemoryItem_id next) as -> by congruence.
    apply stored_inv; [done..|].
    by apply (trail_review _ it (recorded s action AuthorUser next)).
Qed.

Lemma run_invariant (P : MemoryStore → Prop) ops :
  P MemoryStore_default → (∀ s s', P s → memory_outcome s s' → P s') → P (memory_run ops).
Proof.
  intros H0' Hstep. induction ops as [|op ops IH] using rev_ind; [done|].
  unfold memory_run. rewrite foldl_snoc. fold (memory_run ops).
  destruct (memory_exec op (memory_run ops)) as [s' r] eqn:Hex.
  apply exec_cases in Hex as [[-> _]|[_ Ho]]; [done|by eapply Hstep].
Qed.
Lemma run_inv ops : store_inv (memory_run ops).
Proof. apply run_invariant; [apply default_inv|apply outcome_inv]. Qed.

(** C27: whatever calls are made on a memory store, every item in it has a
    complete trail in the history: it was created as a candidate, everything
    after that was a user's review following the review state machine, its
    sources, kind, scope and mission never changed, its version counts the
    reviews, and it is the item of its last mutation; it is confirmed only if
    its last review was a confirmation, and then it is not an inference; and
    a call that returns an error leaves the store as it was. *)
Theorem memory_review_trail (ops : list memory_op) :
  let s := memory_run ops in
  (∀ id it, memory_get id s = Some it →
    ∃ created reviews,
      about id s = created :: reviews ∧
      trail (created :: reviews) it ∧
      MemoryMutation_action created = ActCreated ∧
      MemoryItem_status (MemoryMutation_item created) = MCandidate ∧
      Forall (λ mu, MemoryMutation_actor mu = AuthorUser ∧
                    MemoryMutation_action mu ≠ ActCreated) reviews ∧
      same_origin (MemoryMutation_item created) it ∧
      MemoryItem_version it =
        (MemoryItem_version (MemoryMutation_item created) + Z.of_nat (length reviews))%Z ∧
      (MemoryItem_status it = MConfirmed →
        MemoryMutation_action <$> last reviews = Some ActConfirmed ∧
        MemoryItem_kind it ≠ MKInference)) ∧
  (∀ op, is_ok (memory_exec op s).2 = false → (memory_exec op s).1 = s).
Proof.
  intros s. pose proof (run_inv ops) as Hinv. split.
  - intros id it Hit. destruct (store_inv_some _ Hinv _ _ Hit) as [_ _ Ht].
    destruct (trail_shape _ _ Ht) as (c&rs&Habout&?&_&?&?&?&?&_&?).
    exists c, rs. fold s in Habout, Ht. rewrite Habout in Ht. by split_and!.
  - intros op. destruct (memory_exec op s) as [s' r] eqn:Hex.
    apply exec_cases in Hex as [[-> _]|[Hok _]]; simpl; [done|congruence].
Qed.

(** *** Rebuilding the items from the recorded events *)
Definition replay_item (items : gmap string MemoryItem) (event : EventEnvelope)
    : gmap string MemoryItem :=
  match Value_get (EventEnvelope_payload event) "item" ≫= λ v, result_ok (from_value v) with
  | Some it => <[MemoryItem_id it := it]> items
  | None => items
  end.
Definition replay_items (events : list EventEnvelope) : gmap string MemoryItem :=
  foldl replay_item ∅ events.

Section replay.
Context `{!SerdeJsonLaws, !SerdeLaws MemoryItem}.

Lemma replay_mutation_event items eid n action actor it :
  replay_item items (mutation_event eid n action actor it) = <[MemoryItem_id it := it]> items.
Proof.
  unfold replay_item, mutation_event. simpl. unfold json_object. rewrite get_Object. simpl.
  rewrite lookup_insert_ne by done. rewrite lookup_insert_eq. simpl. by rewrite from_to_value.
Qed.

Lemma stored_replays action actor it s :
  replay_items (MemoryMutation_event <$> MemoryStore_history s) = MemoryStore_items s →
  replay_items (MemoryMutation_event <$> MemoryStore_history (stored action actor it s)) =
    MemoryStore_items (stored action actor it s).
Proof.
  unfold replay_items. intros IH. simpl. rewrite fmap_app, foldl_app, IH. simpl.
  apply replay_mutation_event.
Qed.

Lemma run_replays ops :
  replay_items (MemoryMutation_event <$> MemoryStore_history (memory_run ops)) =
    MemoryStore_items (memory_run ops).
Proof.
  cut (store_inv (memory_run ops) ∧
    replay_items (MemoryMutation_event <$> MemoryStore_history (memory_run ops)) =
      MemoryStore_items (memory_run ops)); [by intros []|].
  apply (run_invariant (λ s, store_inv s ∧
    replay_items (MemoryMutation_event <$> MemoryStore_history s) = MemoryStore_items s)).
  - split; [apply default_inv|done].
  - intros s s' [Hinv IH] Ho. split; [by eapply outcome_inv|].
    destruct Ho as [it Hv Hst Hi|id it action next Hi Hr Hv]; [by apply stored_replays|].
    destruct (store_inv_some s Hinv _ _ Hi) as [Hid _ _].
    pose proof (reviewed_next _ _ _ Hr) as (_&_&(Ho&_)&_).
    assert (id = MemoryItem_id next) as -> by congruence. by apply stored_replays.
Qed.

(** The events a memory store emits carry its whole state: applying the
    items of their payloads in order rebuilds exactly the items of the store;
    the events are numbered consecutively from one (until the 64-bit counter
    saturates), hash to their recorded digest, link to the item's sources and
    are attributed to the user exactly when the user made the change. *)
Theorem memory_history_replays (ops : list memory_op) :
  let s := memory_run ops in
  replay_items (MemoryMutation_event <$> MemoryStore_history s) = MemoryStore_items s ∧
  (∀ i mu, MemoryStore_history s !! i = Some mu →
    let e := MemoryMutation_event mu in
    EventEnvelope_sequence e = Z.min u64_max (Z.of_nat i + 1) ∧
    EventEnvelope_kind e = MemoryItemChanged ∧
    has_valid_payload_hash e = true ∧
    EventLinks_source_event_ids (EventEnvelope_links e) =
      MemoryItem_source_event_ids (MemoryMutation_item mu) ∧
    (EventEnvelope_source e = SourceUser ↔ MemoryMutation_actor mu = AuthorUser)).
Proof.
  intros s. split; [apply run_replays|]. intros i mu Hmu e.
  pose proof (store_inv_events _ (run_inv ops) i mu Hmu) as He. fold e in He. rewrite He.
  split_and!; simpl; try done; [apply String.eqb_refl|by case_bool_decide].
Qed.
End replay.

(** ** Extraction *)
Lemma content_total payload : ∃ c, content_from_payload payload = Ok c.
Proof. unfold content_from_payload. case_match; eauto. Qed.

Lemma from_event_Ok e it :
  MemoryItem_from_event e = Ok it →
  MemoryItem_id it = "memory:" +:+ uuid_to_string (EventEnvelope_event_id e) ∧
  MemoryItem_source_event_ids it = [EventEnvelope_event_id e] ∧
  MemoryItem_status it = MCandidate ∧ MemoryItem_version it = 1%Z ∧
  MemoryItem_author it = author_for (EventEnvelope_source e) ∧
  (MemoryItem_kind it = MKInference ↔ EventEnvelope_confidence e = Inferred) ∧
  MemoryItem_validate it = Ok tt.
Proof.
  unfold MemoryItem_from_event. intros Hit. bind_inv Hit.
  destruct x1. simplify_eq/=. split_and!; try done. unfold kind_for in H3.
  destruct (bool_decide_reflect (EventEnvelope_confidence e = Inferred)); [by simplify_eq|]. repeat case_match; simplify_eq; by split.
Qed.

Lemma unseen_elem e seen events :
  e ∈ unseen seen events →
  e ∈ events ∧ eligible e = true ∧ EventEnvelope_event_id e ∉ seen.
Proof.
  revert seen. induction events as [|x events IH]; intros seen; simpl; [set_solver|].
  destruct (eligible x) eqn:Hx; [|set_solver].
  case_bool_decide as Hin; [set_solver|].
  rewrite elem_of_cons. intros [-> | (?&?&?)%IH]; set_solver.
Qed.
Lemma unseen_complete e seen events :
  e ∈ events → eligible e = true →
  EventEnvelope_event_id e ∈ seen ∨
  EventEnvelope_event_id e ∈ EventEnvelope_event_id <$> unseen seen events.
Proof.
  revert seen. induction events as [|x events IH]; intros seen; simpl; [set_solver|].
  rewrite elem_of_cons. intros [<- | He] Hel; [rewrite Hel|destruct (eligible x)].
  - case_bool_decide; [by left|]. right. rewrite fmap_cons. by left.
  - case_bool_decide; [by apply IH|]. rewrite fmap_cons, elem_of_cons.
    destruct (IH ({[EventEnvelope_event_id x]} ∪ seen) He Hel); set_solver.
  - by apply IH.
Qed.
Lemma unseen_NoDup seen events : NoDup (EventEnvelope_event_id <$> unseen seen events).
Proof.
  revert seen. induction events as [|x events IH]; intros seen; simpl; [constructor|].
  destruct (eligible x); [|done]. case_bool_decide; [done|]. rewrite fmap_cons.
  constructor; [|done]. intros (y&Hy&Hin)%list_elem_of_fmap.
  apply unseen_elem in Hin as (_&_&Hn). set_solver.
Qed.

Lemma insert_succeeds it s :
  MemoryItem_validate it = Ok tt → MemoryItem_status it = MCandidate →
  MemoryStore_items s !! MemoryItem_id it = None →
  memory_exec (OpInsert it) s = (stored ActCreated (MemoryItem_author it) it s, Ok None).
Proof.
  intros Hv Hs Hn. simpl. unfold memory_insert, mret, stm_ret, mbind, stm_bind, stm_lift, stm_get.
  rewrite Hv, Hs. simpl. by rewrite Hn.
Qed.

Lemma load_candidates items :
  NoDup (MemoryItem_id <$> items) →
  Forall (λ it, MemoryItem_validate it = Ok tt ∧ MemoryItem_status it = MCandidate) items →
  MemoryStore_items (memory_run (OpInsert <$> items)) =
    list_to_map ((λ it, (MemoryItem_id it, it)) <$> items).
Proof.
  induction items as [|it items IH] using rev_ind; intros Hnd Hall; [done|].
  rewrite fmap_app in Hnd. apply NoDup_app in Hnd as (Hnd&Hdis&_).
  apply Forall_app in Hall as [Hall [[Hv Hs] _]%Forall_cons].
  assert (MemoryItem_id it ∉ ((λ x, (MemoryItem_id x, x)) <$> items).*1) as Hnew.
  { rewrite <-list_fmap_compose. intros Hin. apply (Hdis _ Hin). by left. }
  specialize (IH Hnd Hall). unfold memory_run. rewrite !fmap_app, foldl_app.
  fold (memory_run (OpInsert <$> items)). cbn [foldl fmap list_fmap].
  rewrite (insert_succeeds it) by (try done; rewrite IH; by apply not_elem_of_list_to_map_1).
  simpl. rewrite IH. symmetry. by apply list_to_map_snoc.
Qed.

(** Candidates extracted from an event stream keep their provenance:
    every eligible event has a candidate naming it as its source, every
    candidate comes from an eligible event, unreviewed, at version one, and
    marked as an inference exactly when the event was inferred; no two share
    an identifier however often an event is repeated, so loading them into an
    empty store keeps them all. *)
Theorem extraction_keeps_provenance `{!UuidTextLaws} (events : list EventEnvelope) items :
  extract_candidates events = Ok items →
  (∀ e, e ∈ events → eligible e = true →
    ∃ it, it ∈ items ∧ MemoryItem_source_event_ids it = [EventEnvelope_event_id e]) ∧
  (∀ it, it ∈ items → ∃ e, e ∈ events ∧ eligible e = true ∧
    MemoryItem_source_event_ids it = [EventEnvelope_event_id e] ∧
    MemoryItem_status it = MCandidate ∧ MemoryItem_version it = 1%Z ∧
    MemoryItem_author it = author_for (EventEnvelope_source e) ∧
    (MemoryItem_kind it = MKInference ↔ EventEnvelope_confidence e = Inferred)) ∧
  NoDup (MemoryItem_id <$> items) ∧
  MemoryStore_items (memory_run (OpInsert <$> items)) =
    list_to_map ((λ it, (MemoryItem_id it, it)) <$> items).
Proof.
  intros Hx. apply mapM_Ok in Hx.
  assert (Hit : ∀ it, it ∈ items → ∃ e, e ∈ unseen ∅ events ∧ MemoryItem_from_event e = Ok it).
  { intros it (i&Hi)%list_elem_of_lookup_1. apply (Forall2_lookup_r _ _ _ _ _ Hx) in Hi
      as (e&He&Hf). exists e. split; [by eapply list_elem_of_lookup_2|done]. }
  assert (Hid : MemoryItem_id <$> items =
    (λ u, "memory:" +:+ uuid_to_string u) <$> (EventEnvelope_event_id <$> unseen ∅ events)).
  { clear Hit. induction Hx as [|e it l k Hf _ IH]; [done|]. rewrite !fmap_cons, IH.
    by apply from_event_Ok in Hf as (->&_). }
  assert (Hnd : NoDup (MemoryItem_id <$> items)).
  { rewrite Hid. apply NoDup_fmap_2; [|apply unseen_NoDup]. intros u v Huv.
    simplify_eq/=. done. }
  split_and!; [| |done|].
  - intros e He Hel. destruct (unseen_complete e ∅ events He Hel) as [?|Hin]; [set_solver|].
    apply list_elem_of_fmap in Hin as (e'&Heq&Hin).
    apply list_elem_of_lookup_1 in Hin as [i Hi].
    apply (Forall2_lookup_l _ _ _ _ _ Hx) in Hi as (it&Hl&Hf). exists it.
    split; [by eapply list_elem_of_lookup_2|]. rewrite Heq. by apply from_event_Ok in Hf as (_&?&_).
  - intros it (e&He&Hf)%Hit. exists e. apply unseen_elem in He as (?&?&_).
    apply from_event_Ok in Hf as (_&?&?&?&?&?&_). done.
  - apply load_candidates; [done|]. apply Forall_forall. intros it (e&_&Hf)%Hit.
    apply from_event_Ok in Hf. naive_solver.
Qed.

(** The store's own review events stop extraction: they are eligible
    because the user is their source, but no memory kind is defined for them,
    so a stream that holds one (and no other event under its identifier)
    yields no candidates at all. *)
Theorem reviews_block_extraction (ops : list memory_op) mu (events : list EventEnvelope) :
  mu ∈ MemoryStore_history (memory_run ops) →
  MemoryMutation_actor mu = AuthorUser →
  MemoryMutation_event mu ∈ events →
  (∀ e, e ∈ events →
    EventEnvelope_event_id e = EventEnvelope_event_id (MemoryMutation_event mu) →
    e = MemoryMutation_event mu) →
  MemoryItem_from_event (MemoryMutation_event mu) = Err UnsupportedSource ∧
  is_ok (extract_candidates events) = false.
Proof.
  intros (i&Hi)%list_elem_of_lookup_1 Hu Hin Hone.
  pose proof (store_inv_events _ (run_inv ops) i mu Hi) as He. rewrite Hu in He.
  assert (Hf : MemoryItem_from_event (MemoryMutation_event mu) = Err UnsupportedSource).
  { rewrite He. unfold MemoryItem_from_event.
    destruct (content_total (EventEnvelope_payload (mutation_event (event_ids i)
      (Z.min u64_max (Z.of_nat i + 1)) (MemoryMutation_action mu) AuthorUser
      (MemoryMutation_item mu)))) as [c ->]. cbn [mbind result_bind].
    unfold kind_for, mutation_event. cbn. by destruct (MemoryItem_status _). }
  split; [done|]. apply mapM_fails with (MemoryMutation_event mu); [|by rewrite Hf].
  destruct (unseen_complete _ ∅ events Hin) as [?|Hid]; [by rewrite He|set_solver|].
  apply list_elem_of_fmap in Hid as (e&Heq&Hin').
  pose proof (unseen_elem _ _ _ Hin') as (He'&_). by rewrite <-(Hone e).
Qed.
End memory.

(** ** Concrete runs *)
Module MemoryExamples.
Import Json.

Definition kind_num (k : MemoryKind) : Z :=
  match k with
  | MKConfirmedDecision => 0 | MKConstraint => 1 | MKFact => 2 | MKPreference => 3
  | MKRisk => 4 | MKInference => 5
  end.
Definition freshness_num (f : MemoryFreshness) : Z :=
  match f with Fresh => 0 | Stale => 1 | FreshnessUnknown => 2 end.
Definition status_num (s : MemoryStatus) : Z :=
  match s with
  | MCandidate => 0 | MConfirmed => 1 | MDeferred => 2 | MInvalidated => 3 | MRejected => 4
  end.
Definition author_num (a : MemoryAuthor) : Z :=
  match a with
  | AuthorUser => 0 | AuthorSupervisor => 1 | AuthorAgent => 2 | AuthorSystem => 3
  end.
Definition action_num (a : MemoryAction) : Z :=
  match a with
  | ActCreated => 0 | ActConfirmed => 1 | ActEdited => 2 | ActNarrowed => 3
  | ActDeferred => 4 | ActInvalidated => 5 | ActRejected => 6
  end.
Definition of_num {A} (num : A → Z) (l : list A) (n : Z) : option A :=
  find (λ a, Z.eqb (num a) n) l.

#[export] Instance json_serde_MemoryAction : Serde MemoryAction := {
  to_value a := JNum (action_num a);
  from_value v := match v with
    | JNum n => from_opt (of_num action_num [ActCreated; ActConfirmed; ActEdited; ActNarrowed;
        ActDeferred; ActInvalidated; ActRejected] n)
    | _ => Err "invalid type" end;
}.
#[export] Instance json_serde_MemoryItem : Serde MemoryItem := {
  to_value i := JArr [JStr (MemoryItem_id i); JNum (Z.of_N (MemoryItem_mission_id i));
    JNum (Z.of_N (MemoryItem_route_id i)); JNum (kind_num (MemoryItem_kind i));
    JStr (MemoryItem_content i);
    JArr ((λ u, JNum (Z.of_N u)) <$> MemoryItem_source_event_ids i);
    JBool (bool_decide (MemoryItem_scope i = ScopeMission));
    JNum (freshness_num (MemoryItem_freshness i)); JNum (MemoryItem_version i);
    JNum (status_num (MemoryItem_status i)); JNum (author_num (MemoryItem_author i))];
  from_value v := match v with
    | JArr [JStr id; JNum m; JNum r; JNum k; JStr c; JArr l; JBool sc; JNum f; JNum ver;
            JNum st; JNum au] => from_opt (
        k ← of_num kind_num [MKConfirmedDecision; MKConstraint; MKFact; MKPreference;
              MKRisk; MKInference] k;
        l ← mapM (λ v, Z.to_N <$> json_to_num v) l;
        f ← of_num freshness_num [Fresh; Stale; FreshnessUnknown] f;
        st ← of_num status_num [MCandidate; MConfirmed; MDeferred; MInvalidated; MRejected] st;
        au ← of_num author_num [AuthorUser; AuthorSupervisor; AuthorAgent; AuthorSystem] au;
        Some {| MemoryItem_id := id; MemoryItem_mission_id := Z.to_N m;
          MemoryItem_route_id := Z.to_N r; MemoryItem_kind := k; MemoryItem_content := c;
          MemoryItem_source_event_ids := l;
          MemoryItem_scope := if sc : bool then ScopeMission else ScopeRoute;
          MemoryItem_freshness := f; MemoryItem_version := ver; MemoryItem_status := st;
          MemoryItem_author := au |})
    | _ => Err "invalid type" end;
}.
#[export] Instance json_serde_MemoryItem_laws : SerdeLaws MemoryItem.
Proof.
  intros [id m r k c l sc f ver st au].
  assert (Hl : mapM (λ v, Z.to_N <$> json_to_num v) ((λ u, JNum (Z.of_N u)) <$> l) = Some l).
  { apply mapM_fmap_Some. intros u. simpl. by rewrite N2Z.id. }
  by destruct k, sc, f, st, au; simpl; rewrite Hl; simpl; rewrite !N2Z.id.
Qed.

Definition mem_ids (n : nat) : EventId := N.of_nat (100 + n).
Definition mem_contract : EventEnvelope :=
  EventEnvelope_new 1%N 7%N 8%N 1 ContractUpdated
    (json_object [("goal", JStr "ship recovery")]).
Definition mem_evidence : EventEnvelope :=
  EventEnvelope_new 2%N 7%N 8%N 2 EvidenceRecorded
    (json_object [("summary", JStr "tests pass")]).
Definition mem_stream : list EventEnvelope := [mem_contract; mem_evidence; mem_contract].
Definition mem_candidates : list MemoryItem := default [] (result_ok (extract_candidates mem_stream)).
Definition mem_ops : list memory_op :=
  (OpInsert <$> mem_candidates) ++
  [OpConfirm ("memory:" +:+ uuid_to_string 1%N) AuthorAgent;
   OpConfirm ("memory:" +:+ uuid_to_string 1%N) AuthorUser;
   OpReject ("memory:" +:+ uuid_to_string 2%N) AuthorUser].
Definition mem_store : MemoryStore := memory_run mem_ids mem_ops.

Lemma memory_history_replays_witness :
  length (MemoryStore_history mem_store) = 4 ∧
  replay_items (MemoryMutation_event <$> MemoryStore_history mem_store) =
    MemoryStore_items mem_store.
Proof. split; [by vm_compute|]. apply (memory_history_replays mem_ids mem_ops). Defined.

Lemma memory_review_trail_witness :
  ∃ it, memory_get ("memory:" +:+ uuid_to_string 1%N) mem_store = Some it ∧
    MemoryItem_status it = MConfirmed ∧ MemoryItem_kind it ≠ MKInference.
Proof.
  destruct (memory_review_trail mem_ids mem_ops) as [Ht _].
  destruct (memory_get ("memory:" +:+ uuid_to_string 1%N) mem_store) as [it|] eqn:Hit;
    [|by vm_compute in Hit].
  destruct (Ht _ _ Hit) as (c&rs&_&_&_&_&_&_&_&Hc). exists it.
  assert (MemoryItem_status it = MConfirmed) as Hs
    by (vm_compute in Hit; injection Hit as <-; reflexivity).
  split_and!; [done|done|by apply Hc].
Defined.

Lemma extraction_keeps_provenance_witness :
  length mem_candidates = 2 ∧ NoDup (MemoryItem_id <$> mem_candidates).
Proof.
  split; [by vm_compute|].
  apply (extraction_keeps_provenance mem_ids mem_stream mem_candidates).
  vm_compute. reflexivity.
Defined.

Definition mem_review : MemoryMutation := 
  default {| MemoryMutation_action := ActCreated; MemoryMutation_actor := AuthorSystem;
             MemoryMutation_item := {| MemoryItem_id := ""; MemoryItem_mission_id := 0%N;
               MemoryItem_route_id := 0%N; MemoryItem_kind := MKFact; MemoryItem_content := "";
               MemoryItem_source_event_ids := []; MemoryItem_scope := ScopeRoute;
               MemoryItem_freshness := Fresh; MemoryItem_version := 0;
               MemoryItem_status := MCandidate; MemoryItem_author := AuthorSystem |};
             MemoryMutation_event := mem_contract |}
    (MemoryStore_history mem_store !! 2).
Lemma reviews_block_extraction_witness :
  is_ok (extract_candidates mem_stream) = true ∧
  is_ok (extract_candidates (mem_stream ++ [MemoryMutation_event mem_review])) = false.
Proof.
  split; [by vm_compute|].
  apply (reviews_block_extraction mem_ids mem_ops mem_review).
  - apply (list_elem_of_lookup_2 _ 2). unfold mem_review.
    destruct (lookup_lt_is_Some_2 (MemoryStore_history mem_store) 2) as [mu Hmu];
      [vm_compute; lia|]. by rewrite Hmu.
  - vm_compute. reflexivity.
  - apply elem_of_app. right. by left.
  - intros e [He|He]%elem_of_app.
    + intros Hid. exfalso. revert Hid.
      repeat (apply elem_of_cons in He as [-> |He]; [vm_compute; discriminate|]). by apply elem_of_nil in He.
    + by apply list_elem_of_singleton in He.
Defined.
End MemoryExamples.
