(* ===== verification/ContextPack.v ===== *)
(** * Context packs ([crates/memory/src/context_pack.rs])

    What a model request may carry: candidates in priority order, taken
    greedily while their estimated tokens fit the budget. *)

From S2P Require Import Prelude Extern Ids Event Ordering Frame Memory.
From Stdlib Require Import ZArith Lia.
From stdpp Require Import sorting prelude gmap strings.

Inductive ContextKind :=
| CtxContract | CtxRouteCheckpoint | CtxApproval | CtxBlocker | CtxRisk | CtxEvidence
| CtxConfirmedMemory.
#[export] Instance ContextKind_eq_dec : EqDecision ContextKind.
Proof. solve_decision. Defined.

Definition ContextKind_priority (self : ContextKind) : u8 :=
  match self with
  | CtxContract => 0
  | CtxRouteCheckpoint => 1
  | CtxApproval | CtxBlocker | CtxRisk => 2
  | CtxEvidence => 3
  | CtxConfirmedMemory => 4
  end.

Record ContextCandidate := {
  ContextCandidate_id : string;
  ContextCandidate_kind : ContextKind;
  ContextCandidate_content : string;
  ContextCandidate_source_event_ids : list EventId;
  ContextCandidate_version : u64;
}.
Record ContextItem := {
  ContextItem_id : string;
  ContextItem_kind : ContextKind;
  ContextItem_content : string;
  ContextItem_source_event_ids : list EventId;
  ContextItem_version : u64;
  ContextItem_token_estimate : u32;
}.
Inductive ExclusionReason := ExcludedByBudget.
Record ExcludedContext := {
  ExcludedContext_id : string;
  ExcludedContext_reason : ExclusionReason;
}.
Record ContextPack := {
  ContextPack_mission_id : MissionId;
  ContextPack_route_id : RouteId;
  ContextPack_max_tokens : u32;
  ContextPack_items : list ContextItem;
  ContextPack_excluded : list ExcludedContext;
  ContextPack_hash : string;
}.
Inductive ContextPackError := BudgetInvalid | InvalidCandidate | UnconfirmedMemory.
#[export] Instance ContextPackError_eq_dec : EqDecision ContextPackError.
Proof. solve_decision. Defined.

Definition ContextCandidate_validate (self : ContextCandidate) : result ContextPackError unit :=
  if blank (ContextCandidate_id self) || (512 <? str_len (ContextCandidate_id self))%Z
     || blank (ContextCandidate_content self)
     || is_empty (ContextCandidate_source_event_ids self)
     || (ContextCandidate_version self =? 0)%Z
  then Err InvalidCandidate else Ok tt.

Definition ContextCandidate_new (id : string) (kind : ContextKind) (content : string)
    (source_event_ids : list EventId) (version : u64)
    : result ContextPackError ContextCandidate :=
  if bool_decide (kind = CtxConfirmedMemory) then Err UnconfirmedMemory else
  let candidate := {| ContextCandidate_id := id; ContextCandidate_kind := kind;
    ContextCandidate_content := content; ContextCandidate_source_event_ids := source_event_ids;
    ContextCandidate_version := version |} in
  _ ← ContextCandidate_validate candidate;
  Ok candidate.

Definition ContextCandidate_from_memory (item : MemoryItem)
    : result ContextPackError ContextCandidate :=
  if bool_decide (MemoryItem_status item ≠ MConfirmed) then Err UnconfirmedMemory else
  let candidate := {| ContextCandidate_id := MemoryItem_id item;
    ContextCandidate_kind := CtxConfirmedMemory;
    ContextCandidate_content := MemoryItem_content item;
    ContextCandidate_source_event_ids := MemoryItem_source_event_ids item;
    ContextCandidate_version := MemoryItem_version item |} in
  _ ← ContextCandidate_validate candidate;
  Ok candidate.

(** [content.chars().count().div_ceil(4).max(1) as u32]. *)
Definition estimate_tokens (content : string) : u32 :=
  (Z.max 1 ((Z.of_nat (chars_count content) + 3) / 4) mod (u32_max + 1))%Z.

(** The comparator of [build_context_pack]. *)
Definition candidate_cmp (left right : ContextCandidate) : comparison :=
  then_with (then_with
    (Z.compare (ContextKind_priority (ContextCandidate_kind left))
               (ContextKind_priority (ContextCandidate_kind right)))
    (str_cmp (ContextCandidate_id left) (ContextCandidate_id right)))
    (Z.compare (ContextCandidate_version left) (ContextCandidate_version right)).

Definition context_item (candidate : ContextCandidate) : ContextItem := {|
  ContextItem_id := ContextCandidate_id candidate;
  ContextItem_kind := ContextCandidate_kind candidate;
  ContextItem_content := ContextCandidate_content candidate;
  ContextItem_source_event_ids := ContextCandidate_source_event_ids candidate;
  ContextItem_version := ContextCandidate_version candidate;
  ContextItem_token_estimate := estimate_tokens (ContextCandidate_content candidate) |}.
Definition excluded_context (candidate : ContextCandidate) : ExcludedContext := {|
  ExcludedContext_id := ContextCandidate_id candidate;
  ExcludedContext_reason := ExcludedByBudget |}.

(** The selection loop: [used] is what the items pushed so far take. *)
Fixpoint select_loop (max_tokens used : u32) (ordered : list ContextCandidate)
    : list ContextItem * list ExcludedContext :=
  match ordered with
  | [] => ([], [])
  | candidate :: ordered =>
      let token_estimate := estimate_tokens (ContextCandidate_content candidate) in
      if (saturating_add u32_max used token_estimate <=? max_tokens)%Z then
        let '(items, excluded) :=
          select_loop max_tokens (saturating_add u32_max used token_estimate) ordered in
        (context_item candidate :: items, excluded)
      else
        let '(items, excluded) := select_loop max_tokens used ordered in
        (items, excluded_context candidate :: excluded)
  end.

Section pack.
Context `{Sha256, !SerdeText (MissionId * RouteId * u32 * list ContextItem * list ExcludedContext)}.

Definition pack_digest (pack : ContextPack) : result ContextPackError string :=
  bytes ← ok_or InvalidCandidate (to_text (ContextPack_mission_id pack,
    ContextPack_route_id pack, ContextPack_max_tokens pack, ContextPack_items pack,
    ContextPack_excluded pack));
  Ok (sha256_hex bytes).

Definition build_context_pack (mission_id : MissionId) (route_id : RouteId)
    (max_tokens : u32) (candidates : list ContextCandidate)
    : result ContextPackError ContextPack :=
  if (max_tokens =? 0)%Z then Err BudgetInvalid else
  _ ← mapM ContextCandidate_validate candidates;
  let ordered := sort_cmp candidate_cmp candidates in
  let '(items, excluded) := select_loop max_tokens 0 ordered in
  let pack hash := {| ContextPack_mission_id := mission_id; ContextPack_route_id := route_id;
    ContextPack_max_tokens := max_tokens; ContextPack_items := items;
    ContextPack_excluded := excluded; ContextPack_hash := hash |} in
  hash ← pack_digest (pack "");
  Ok (pack hash).

(** ** Selection *)
#[export] Instance candidate_cmp_order : CmpOrder candidate_cmp.
Proof.
  apply (cmp_then (λ l r, then_with (Z.compare (ContextKind_priority (ContextCandidate_kind l))
                             (ContextKind_priority (ContextCandidate_kind r)))
                  (str_cmp (ContextCandidate_id l) (ContextCandidate_id r)))).
  - apply (cmp_then (λ l r, Z.compare (ContextKind_priority (ContextCandidate_kind l))
                             (ContextKind_priority (ContextCandidate_kind r))));
      [apply (cmp_on (λ c, ContextKind_priority (ContextCandidate_kind c)))
      |apply (cmp_on ContextCandidate_id)]; apply _.
  - apply (cmp_on ContextCandidate_version), _.
Qed.

Definition tokens (c : ContextCandidate) : Z := estimate_tokens (ContextCandidate_content c).
Definition total_tokens (l : list ContextCandidate) : Z := foldr Z.add 0%Z (tokens <$> l).
(** Tokens of the candidates of [kept] that rank no later than [c]. *)
Definition ranked_tokens (c : ContextCandidate) (kept : list ContextCandidate) : Z :=
  total_tokens (filter (λ k, cmp_le candidate_cmp k c = true) kept).

Lemma tokens_range c : (0 ≤ tokens c ≤ u32_max)%Z.
Proof.
  unfold tokens, estimate_tokens, u32_max.
  match goal with |- context [(?a mod ?b)%Z] => pose proof (Z.mod_pos_bound a b ltac:(lia)) end.
  lia.
Qed.
Lemma total_tokens_app l k : total_tokens (l ++ k) = (total_tokens l + total_tokens k)%Z.
Proof. induction l as [|c l IH]; csimpl; [done|]. unfold total_tokens in *. csimpl. rewrite IH. lia. Qed.
Lemma total_tokens_nonneg l : (0 ≤ total_tokens l)%Z.
Proof.
  induction l as [|c l IH]; [done|]. unfold total_tokens in *. csimpl.
  pose proof (tokens_range c). lia.
Qed.

(** What the loop selects from a sorted list, [used] being the tokens of the
    candidates already kept, all of which rank first. *)
Lemma select_loop_spec max l : ∀ used,
  (0 ≤ used ≤ max)%Z → (max < u32_max)%Z → StronglySorted (cmp_le candidate_cmp) l →
  ∃ kept dropped,
    select_loop max used l = (context_item <$> kept, excluded_context <$> dropped) ∧
    kept ++ dropped ≡ₚ l ∧ sublist kept l ∧
    (used + total_tokens kept ≤ max)%Z ∧
    ∀ c, c ∈ dropped → (max < used + ranked_tokens c kept + tokens c)%Z.
Proof.
  induction l as [|c l IH]; intros used Hused Hmax Hs; simpl.
  { exists [], []. split_and!; [done..|constructor|unfold total_tokens; simpl; lia|set_solver]. }
  apply StronglySorted_inv in Hs as [Hs Hc]. pose proof (tokens_range c) as Ht.
  fold (tokens c). unfold saturating_add.
  destruct (_ <=? _)%Z eqn:Hle; guards.
  - assert (used + tokens c ≤ max)%Z as Hfit by lia.
    replace (Z.min u32_max (used + tokens c)) with (used + tokens c)%Z by lia.
    destruct (IH (used + tokens c)%Z ltac:(lia) Hmax Hs) as (kept&dropped&Heq&Hp&Hsub&Hsum&Hd).
    rewrite Heq. exists (c :: kept), dropped. split_and!; try done.
    + simpl. by f_equiv.
    + by constructor.
    + unfold total_tokens in *. csimpl. lia.
    + intros d Hin. specialize (Hd d Hin).
      assert (d ∈ l) as Hdl by (rewrite <-Hp; set_solver).
      rewrite Forall_forall in Hc. specialize (Hc d Hdl).
      unfold ranked_tokens. rewrite filter_cons_True by (by apply Is_true_eq_true).
      unfold ranked_tokens, total_tokens in *. csimpl. lia.
  - destruct (IH used Hused Hmax Hs) as (kept&dropped&Heq&Hp&Hsub&Hsum&Hd).
    rewrite Heq. exists kept, (c :: dropped). split_and!; try done.
    + rewrite <-Permutation_middle. by f_equiv.
    + by constructor.
    + intros d [-> | Hin]%elem_of_cons; [|by apply Hd].
      pose proof (total_tokens_nonneg (filter (λ k, cmp_le candidate_cmp k c = true) kept)).
      unfold ranked_tokens. lia.
Qed.

(** At [u32::MAX] the saturating sum never exceeds the budget. *)
Lemma select_loop_all l : ∀ used, select_loop u32_max used l = (context_item <$> l, []).
Proof.
  induction l as [|c l IH]; intros used; [done|]. simpl.
  rewrite (proj2 (Z.leb_le _ _)) by (unfold saturating_add; lia). by rewrite IH.
Qed.

(** C32: a context pack with a budget below [u32::MAX] respects it and is a
    greedy selection in priority order: the candidates split into those kept,
    listed by priority, identifier and version and together within the budget,
    and those excluded, none of which would have fitted beside the kept
    candidates that rank no later.  With a budget of [u32::MAX], where the sum
    of the tokens saturates, every candidate is kept, whatever they sum up to.
    If no two different candidates agree in priority, identifier and version,
    the pack does not depend on the order they are given in (those that do are
    taken in the order given, as the sort is stable). *)
Theorem context_pack_within_budget mission_id route_id max candidates pack :
  (0 ≤ max ≤ u32_max)%Z →
  build_context_pack mission_id route_id max candidates = Ok pack →
  (∃ kept dropped,
    ContextPack_items pack = context_item <$> kept ∧
    ContextPack_excluded pack = excluded_context <$> dropped ∧
    kept ++ dropped ≡ₚ candidates ∧
    StronglySorted (cmp_le candidate_cmp) kept ∧
    ((max < u32_max)%Z → (total_tokens kept ≤ max)%Z ∧
      ∀ c, c ∈ dropped → (max < ranked_tokens c kept + tokens c)%Z) ∧
    (max = u32_max → dropped = [])) ∧
  (∀ candidates', candidates' ≡ₚ candidates →
    (∀ x y, x ∈ candidates → y ∈ candidates → candidate_cmp x y = Eq → x = y) →
    build_context_pack mission_id route_id max candidates' = Ok pack).
Proof.
  intros [Hm0 Hm]. unfold build_context_pack. destruct (max =? 0)%Z; [done|].
  rewrite result_bind_Ok. intros (us&Hus&Hb). apply mapM_Ok in Hus. split.
  - destruct (decide (max = u32_max)) as [->|Hne].
    { rewrite select_loop_all in Hb. bind_inv Hb. simplify_eq/=.
      exists (sort_cmp candidate_cmp candidates), []. split_and!; try done; [|apply (sort_cmp_sorted candidate_cmp)].
      rewrite app_nil_r. apply sort_by_perm. }
    destruct (select_loop_spec max (sort_cmp candidate_cmp candidates) 0) as
      (kept&dropped&Hsel&Hp&Hsub&Hsum&Hd); [lia|lia|apply (sort_cmp_sorted candidate_cmp)|].
    rewrite Hsel in Hb. bind_inv Hb. simplify_eq/=. exists kept, dropped. split_and!; try done.
    + rewrite Hp. apply sort_by_perm.
    + eapply sublist_sorted; [exact Hsub|]. apply (sort_cmp_sorted candidate_cmp).
  - intros candidates' Hperm Hinj.
    rewrite (sort_cmp_unique candidate_cmp candidates' candidates); [|intros x y; rewrite !Hperm; apply Hinj|done].
    apply result_bind_Ok.
    assert (∃ us', mapM ContextCandidate_validate candidates' = Ok us') as [us' Hus'].
    { exists (replicate (length candidates') tt). apply mapM_Ok, Forall2_replicate_r; [done|].
      apply Forall_forall. intros c Hc. rewrite Hperm in Hc.
      apply list_elem_of_lookup_1 in Hc as [i Hi].
      by destruct (Forall2_lookup_l _ _ _ _ _ Hus Hi) as ([]&_&?). }
    by exists us'.
Qed.

(** ** Memory in a pack *)
Lemma candidate_new_kind id kind content src version c :
  ContextCandidate_new id kind content src version = Ok c →
  ContextCandidate_kind c ≠ CtxConfirmedMemory.
Proof.
  unfold ContextCandidate_new. case_bool_decide; [done|]. rewrite result_bind_Ok.
  by intros (_&_&[= <-]).
Qed.
Lemma candidate_from_memory_Ok it c :
  ContextCandidate_from_memory it = Ok c →
  MemoryItem_status it = MConfirmed ∧ ContextCandidate_id c = MemoryItem_id it ∧
  ContextCandidate_content c = MemoryItem_content it ∧
  ContextCandidate_source_event_ids c = MemoryItem_source_event_ids it.
Proof.
  unfold ContextCandidate_from_memory. case_bool_decide; [done|]. rewrite result_bind_Ok.
  by intros (_&_&[= <-]).
Qed.
Lemma select_loop_items max l : ∀ used i,
  i ∈ (select_loop max used l).1 → ∃ c, c ∈ l ∧ i = context_item c.
Proof.
  induction l as [|c l IH]; intros used i; simpl; [set_solver|].
  case_match; destruct (select_loop _ _ l) as [its exs] eqn:Hl; simpl.
  - intros [-> | Hi]%elem_of_cons; [exists c; set_solver|].
    destruct (IH (saturating_add u32_max used
      (estimate_tokens (ContextCandidate_content c))) i) as (d&?&?); [by rewrite Hl|set_solver].
  - intros Hi. destruct (IH used i) as (d&?&?); [by rewrite Hl|set_solver].
Qed.

Context `{SerdeJson, UuidText, !Serde MemoryAction, !Serde MemoryItem}.
Context (event_ids : nat → EventId).

(** How the candidates of a pack are made: by [ContextCandidate::new], or
    from an item of a memory store. *)
Definition candidate_source (ops : list memory_op) (c : ContextCandidate) : Prop :=
  (∃ id kind content src version, ContextCandidate_new id kind content src version = Ok c) ∨
  (∃ id it, memory_get id (memory_run event_ids ops) = Some it ∧
    ContextCandidate_from_memory it = Ok c).

(** Memory that reaches a model was confirmed by the user: when the
    candidates of a context pack come from the constructors and from a memory
    store, every memory entry of the pack carries the content and sources of
    an item of the store whose last change is a confirmation recorded by the
    user, and that item is not an inference. *)
Theorem context_memory_was_confirmed ops mission_id route_id max candidates pack item :
  (∀ c, c ∈ candidates → candidate_source ops c) →
  build_context_pack mission_id route_id max candidates = Ok pack →
  item ∈ ContextPack_items pack →
  ContextItem_kind item = CtxConfirmedMemory →
  ∃ it mu, let s := memory_run event_ids ops in
    memory_get (ContextItem_id item) s = Some it ∧
    ContextItem_content item = MemoryItem_content it ∧
    ContextItem_source_event_ids item = MemoryItem_source_event_ids it ∧
    MemoryItem_kind it ≠ MKInference ∧
    last (about (ContextItem_id item) s) = Some mu ∧
    MemoryMutation_item mu = it ∧
    MemoryMutation_action mu = ActConfirmed ∧ MemoryMutation_actor mu = AuthorUser.
Proof.
  intros Hsrc Hb Hi Hk.
  assert (∃ c, c ∈ candidates ∧ item = context_item c) as (c&Hc&->).
  { unfold build_context_pack in Hb. destruct (max =? 0)%Z; [done|].
    rewrite result_bind_Ok in Hb. destruct Hb as (_&_&Hb).
    destruct (select_loop _ _ _) as [its exs] eqn:Hsel. bind_inv Hb. simplify_eq/=.
    destruct (select_loop_items max (sort_cmp candidate_cmp candidates) 0 item) as (c&Hc&->);
      [by rewrite Hsel|]. exists c. split; [|done]. by apply sort_by_elem in Hc. }
  destruct (Hsrc c Hc) as [(id&k&co&src&v&Hn)|(id&it&Hit&Hm)].
  { by apply candidate_new_kind in Hn. }
  apply candidate_from_memory_Ok in Hm as (Hst&Hid&Hco&Hso).
  destruct (store_inv_some _ _ (run_inv event_ids ops) _ _ Hit) as [Hid' _ Ht].
  destruct (trail_shape _ _ Ht) as (cr&rs&Habout&_&_&_&Hrs&_&_&Hlast&Hconf).
  destruct (Hconf Hst) as [Hact Hki]. simpl. rewrite Hid, Hid'.
  destruct (last rs) as [mu|] eqn:Hl; simplify_eq/=.
  assert (last (cr :: rs) = Some mu) as Hl' by (rewrite last_cons, Hl; done).
  rewrite Habout, Hl' in Hlast. simplify_eq/=. exists (MemoryMutation_item mu), mu.
  rewrite Habout. split_and!; try done.
  apply last_Some in Hl as [rs' ->]. apply Forall_app in Hrs as [_ Hmu].
  apply Forall_cons in Hmu as [[? _] _]. done.
Qed.
End pack.

(** ** Concrete packs *)
Module PackExamples.
Import Json MemoryExamples.

#[export] Instance example_pack_text :
  SerdeText (MissionId * RouteId * u32 * list ContextItem * list ExcludedContext) := {
  to_text '(m, r, x, items, excluded) :=
    Some (str_join "," ((ContextItem_id <$> items) ++ (ExcludedContext_id <$> excluded)));
  from_text _ := None;
}.

Definition pk_goal : ContextCandidate := {|
  ContextCandidate_id := "goal"; ContextCandidate_kind := CtxContract;
  ContextCandidate_content := "ship"; ContextCandidate_source_event_ids := [1%N];
  ContextCandidate_version := 1 |}.
Definition pk_log : ContextCandidate := {|
  ContextCandidate_id := "log"; ContextCandidate_kind := CtxEvidence;
  ContextCandidate_content := "a long build log"; ContextCandidate_source_event_ids := [2%N];
  ContextCandidate_version := 1 |}.
Definition pk_memory_id : string := "memory:" +:+ uuid_to_string 1%N.
Definition pk_memory : ContextCandidate := {|
  ContextCandidate_id := pk_memory_id; ContextCandidate_kind := CtxConfirmedMemory;
  ContextCandidate_content := "ship recovery"; ContextCandidate_source_event_ids := [1%N];
  ContextCandidate_version := 2 |}.
Definition pk_candidates : list ContextCandidate := [pk_log; pk_memory; pk_goal].
Definition pk_pack : ContextPack := {|
  ContextPack_mission_id := 7%N; ContextPack_route_id := 8%N; ContextPack_max_tokens := 5;
  ContextPack_items := [context_item pk_goal; context_item pk_log];
  ContextPack_excluded := [excluded_context pk_memory];
  ContextPack_hash := sha256_hex ("goal,log," +:+ pk_memory_id) |}.
Definition pk_pack_wide : ContextPack := {|
  ContextPack_mission_id := 7%N; ContextPack_route_id := 8%N; ContextPack_max_tokens := 9;
  ContextPack_items := [context_item pk_goal; context_item pk_log; context_item pk_memory];
  ContextPack_excluded := [];
  ContextPack_hash := sha256_hex ("goal,log," +:+ pk_memory_id) |}.

Lemma context_pack_within_budget_witness :
  build_context_pack 7%N 8%N 5 pk_candidates = Ok pk_pack ∧
  build_context_pack 7%N 8%N 5 [pk_goal; pk_memory; pk_log] = Ok pk_pack.
Proof.
  assert (build_context_pack 7%N 8%N 5 pk_candidates = Ok pk_pack) as Hb by (by vm_compute).
  split; [done|].
  apply (context_pack_within_budget 7%N 8%N 5 pk_candidates pk_pack); [done|done| |].
  - exact (reverse_Permutation pk_candidates).
  - unfold pk_candidates. intros x y.
    rewrite !elem_of_cons. intros [-> | [-> | [-> | []%elem_of_nil]]]
      [-> | [-> | [-> | []%elem_of_nil]]]; vm_compute; done.
Defined.

Lemma context_memory_was_confirmed_witness :
  ∃ it, memory_get pk_memory_id mem_store = Some it ∧
    MemoryItem_content it = "ship recovery" ∧ MemoryItem_kind it ≠ MKInference.
Proof.
  destruct (context_memory_was_confirmed mem_ids mem_ops 7%N 8%N 9 pk_candidates pk_pack_wide
    (context_item pk_memory)) as (it&mu&Hit&Hc&_&Hk&_).
  - unfold pk_candidates. intros c.
    rewrite !elem_of_cons. intros [-> | [-> | [-> | []%elem_of_nil]]].
    + left. exists "log", CtxEvidence, "a long build log", [2%N], 1%Z. reflexivity.
    + right. exists pk_memory_id. eexists. split; [vm_compute; reflexivity|reflexivity].
    + left. exists "goal", CtxContract, "ship", [1%N], 1%Z. reflexivity.
  - vm_compute. reflexivity.
  - simpl. by right; right; left.
  - reflexivity.
  - exists it. split_and!; [done|by rewrite <-Hc|done].
Defined.
End PackExamples.
