(* ===== verification/Recall.v ===== *)
(** * Recall of confirmed memory ([crates/memory/src/recall.rs])

    Term matching over the confirmed items a route may see, ranked and cut to
    a limit. *)

From S2P Require Import Prelude Extern Ids Ordering Memory.
From Stdlib Require Import ZArith Lia.
From stdpp Require Import sorting prelude strings.

Record RecallEvidence := {
  RecallEvidence_id : string;
  RecallEvidence_content : string;
  RecallEvidence_source_event_ids : list EventId;
  RecallEvidence_scope : MemoryScope;
  RecallEvidence_freshness : MemoryFreshness;
  RecallEvidence_version : u64;
  RecallEvidence_score : u32;
  RecallEvidence_matched_terms : list string;
}.

(** [Vec::dedup]: runs of equal neighbours become one element. *)
Fixpoint dedup (l : list string) : list string :=
  match l with
  | x :: (y :: _) as r => if str_eqb x y then dedup r else x :: dedup r
  | _ => l
  end.

Definition query_terms (query : string) : list string :=
  dedup (sort_cmp str_cmp
    (filter (λ term, (2 <=? str_len term)%Z = true)
      (to_ascii_lowercase <$> split_whitespace query))).

(** [content.split_whitespace().any(|word| word.contains(term))]. *)
Definition term_occurs (content term : string) : bool :=
  existsb (λ word, str_contains word term) (split_whitespace content).

Definition recall_visible (mission_id : MissionId) (route_id : RouteId) (item : MemoryItem)
    : bool :=
  bool_decide (MemoryItem_status item = MConfirmed)
  && bool_decide (MemoryItem_mission_id item = mission_id)
  && (bool_decide (MemoryItem_scope item = ScopeMission)
      || bool_decide (MemoryItem_route_id item = route_id)).

Definition recall_evidence (terms : list string) (item : MemoryItem) : RecallEvidence :=
  let content := to_ascii_lowercase (MemoryItem_content item) in
  let matched_terms := filter (λ term, term_occurs content term = true) terms in {|
  RecallEvidence_id := MemoryItem_id item;
  RecallEvidence_content := MemoryItem_content item;
  RecallEvidence_source_event_ids := MemoryItem_source_event_ids item;
  RecallEvidence_scope := MemoryItem_scope item;
  RecallEvidence_freshness := MemoryItem_freshness item;
  RecallEvidence_version := MemoryItem_version item;
  RecallEvidence_score := (Z.of_nat (length matched_terms) mod (u32_max + 1))%Z;
  RecallEvidence_matched_terms := matched_terms |}.

Definition recall_cmp (left right : RecallEvidence) : comparison :=
  then_with (then_with
    (Z.compare (RecallEvidence_score right) (RecallEvidence_score left))
    (str_cmp (RecallEvidence_id left) (RecallEvidence_id right)))
    (Z.compare (RecallEvidence_version left) (RecallEvidence_version right)).

Definition recall_matches (items : list MemoryItem) (mission_id : MissionId)
    (route_id : RouteId) (terms : list string) : list RecallEvidence :=
  filter (λ ev, is_empty terms || (0 <? RecallEvidence_score ev)%Z = true)
    (recall_evidence terms <$>
      filter (λ item, recall_visible mission_id route_id item = true) items).

Definition recall_confirmed (items : list MemoryItem) (mission_id : MissionId)
    (route_id : RouteId) (query : string) (limit : usize) : list RecallEvidence :=
  if (limit =? 0)%nat then [] else
  take limit (sort_cmp recall_cmp
    (recall_matches items mission_id route_id (query_terms query))).

(** ** Query terms *)
Lemma dedup_cons2 x y l :
  dedup (x :: y :: l) = if str_eqb x y then dedup (y :: l) else x :: dedup (y :: l).
Proof. done. Qed.
Lemma dedup_elem x l : x ∈ dedup l ↔ x ∈ l.
Proof.
  induction l as [|y [|z l] IH]; [done|done|]. rewrite dedup_cons2.
  destruct (str_eqb y z) eqn:Hyz.
  - guards. subst. rewrite IH. set_solver.
  - rewrite elem_of_cons, IH. set_solver.
Qed.
Lemma dedup_NoDup l : StronglySorted (cmp_le str_cmp) l → NoDup (dedup l).
Proof.
  induction l as [|y [|z l] IH]; intros Hs; [constructor|apply NoDup_singleton|].
  apply StronglySorted_inv in Hs as [Hs Hy]. rewrite dedup_cons2.
  destruct (str_eqb y z) eqn:Hyz; [by apply IH|]. guards.
  constructor; [|by apply IH]. rewrite dedup_elem. intros Hin.
  apply StronglySorted_inv in Hs as [_ Hz]. apply Forall_cons in Hy as [Hyz' _].
  apply elem_of_cons in Hin as [-> | Hin]; [done|].
  rewrite Forall_forall in Hz. specialize (Hz y Hin).
  apply Hyz, str_cmp_eq, (cmp_le_antisym str_cmp); by apply Is_true_eq_true.
Qed.
Lemma query_terms_NoDup query : NoDup (query_terms query).
Proof. apply dedup_NoDup, (sort_cmp_sorted str_cmp). Qed.

(** ** Ranking *)
#[export] Instance recall_cmp_order : CmpOrder recall_cmp.
Proof.
  apply (cmp_then (λ l r, then_with
    (Z.compare (RecallEvidence_score r) (RecallEvidence_score l))
    (str_cmp (RecallEvidence_id l) (RecallEvidence_id r)))).
  - apply (cmp_then (λ l r, Z.compare (RecallEvidence_score r) (RecallEvidence_score l))).
    + apply (cmp_reverse (λ l r, Z.compare (RecallEvidence_score l) (RecallEvidence_score r))),
        (cmp_on RecallEvidence_score), _.
    + apply (cmp_on RecallEvidence_id), _.
  - apply (cmp_on RecallEvidence_version), _.
Qed.

(** The first [n] of a sorted list are the least, as many as there are. *)
Lemma take_least {A} (R : A → A → Prop) n l x :
  StronglySorted R l → x ∈ l →
  x ∈ take n l ∨ (length (take n l) = n ∧ ∀ y, y ∈ take n l → R y x).
Proof.
  intros Hs Hx. destruct (decide (length l ≤ n)) as [Hn|Hn]; [left; by rewrite take_ge|].
  rewrite <-(take_drop n l) in Hx, Hs. apply elem_of_app in Hx as [Hx|Hx]; [by left|right].
  split; [rewrite length_take; lia|]. intros y Hy. clear Hn.
  induction (take n l) as [|z t IH]; [by apply elem_of_nil in Hy|]. simpl in Hs.
  apply StronglySorted_inv in Hs as [Hs Hz]. apply elem_of_cons in Hy as [-> | Hy].
  - rewrite Forall_forall in Hz. apply Hz, elem_of_app. by right.
  - by apply IH.
Qed.

Lemma recall_matches_elem items mission_id route_id terms ev :
  ev ∈ recall_matches items mission_id route_id terms ↔
  ∃ item, item ∈ items ∧ recall_visible mission_id route_id item = true ∧
    ev = recall_evidence terms item ∧
    (is_empty terms || (0 <? RecallEvidence_score ev)%Z) = true.
Proof.
  unfold recall_matches. rewrite list_elem_of_filter, list_elem_of_fmap.
  setoid_rewrite list_elem_of_filter. naive_solver.
Qed.

(** Recall returns the best matches among what may be shown: at most
    [limit] entries in descending score, each from a confirmed item of the
    mission that is mission-wide or belongs to the route, reporting exactly
    the query terms its text contains, without repetition (at least one when
    the query has any); and a matching item is left out only when [limit]
    entries that rank no later were returned. *)
Theorem recall_is_top_matches items mission_id route_id query limit :
  let result := recall_confirmed items mission_id route_id query limit in
  let terms := query_terms query in
  length result ≤ limit ∧
  StronglySorted (cmp_le recall_cmp) result ∧
  (∀ ev, ev ∈ result → ∃ item, item ∈ items ∧
    MemoryItem_status item = MConfirmed ∧ MemoryItem_mission_id item = mission_id ∧
    (MemoryItem_scope item = ScopeMission ∨ MemoryItem_route_id item = route_id) ∧
    ev = recall_evidence terms item ∧
    NoDup (RecallEvidence_matched_terms ev) ∧
    (∀ t, t ∈ RecallEvidence_matched_terms ev ↔
      t ∈ terms ∧ term_occurs (to_ascii_lowercase (MemoryItem_content item)) t = true) ∧
    (terms = [] ∨ RecallEvidence_matched_terms ev ≠ [])) ∧
  (∀ item, item ∈ items → recall_visible mission_id route_id item = true →
    let ev := recall_evidence terms item in
    terms = [] ∨ (0 < RecallEvidence_score ev)%Z →
    ev ∈ result ∨
    (length result = limit ∧ ∀ r, r ∈ result → cmp_le recall_cmp r ev = true)).
Proof.
  intros result terms.
  assert (Hr : result = take limit (sort_cmp recall_cmp
    (recall_matches items mission_id route_id terms))).
  { unfold result, recall_confirmed. destruct (limit =? 0)%nat eqn:Hl; [|done].
    apply Nat.eqb_eq in Hl as ->. by rewrite take_0. }
  pose proof (sort_cmp_sorted recall_cmp (recall_matches items mission_id route_id terms)) as Hs.
  rewrite Hr. clear Hr result. split_and!.
  - rewrite length_take. lia.
  - eapply sublist_sorted; [apply sublist_take|done].
  - intros ev Hev.
    assert (ev ∈ recall_matches items mission_id route_id terms) as Hm.
    { apply sort_by_elem with (le := cmp_le recall_cmp).
      eapply elem_of_sublist; [exact Hev|apply sublist_take]. }
    apply recall_matches_elem in Hm as (item&Hin&Hv&->&Hsc).
    unfold recall_visible in Hv. exists item. guards.
    split_and!; try done.
    + match goal with H : bool_decide _ || _ = true |- _ => apply orb_true_iff in H as [?|?]; guards; auto end.
    + simpl. apply NoDup_filter, query_terms_NoDup.
    + intros t. simpl. rewrite list_elem_of_filter. naive_solver.
    + destruct terms as [|t ts]; [by left|right]. intros He.
      cbn [is_empty orb] in Hsc. unfold recall_evidence in Hsc, He.
      cbn in Hsc, He. rewrite He in Hsc. done.
  - intros item Hin Hv ev Hsc.
    destruct (take_least _ limit _ (recall_evidence terms item) Hs) as [?|[??]]; [|by left|right].
    + apply sort_by_elem, recall_matches_elem. exists item. split_and!; try done.
      apply orb_true_iff. destruct Hsc as [Ht|Hsc]; [left; by rewrite Ht|right]. by apply Z.ltb_lt.
    + split; [done|]. intros r Hr. by apply Is_true_eq_true; auto.
Qed.
