(* ===== verification/BlobStore.v ===== *)
(** * The encrypted blob store ([crates/ledger/src/blob_store.rs])

    Content-addressed files, encrypted, beside a reference-count table.  The
    store's state is what its methods change through the file system and the
    database: the blob files by content hash, the rows of [blob_refs] and of
    [mission_blob_refs].  The cipher ([aes_gcm] under the derived key), the
    random source of nonces and whether the database enforces foreign keys
    are parameters; file and database calls fail only where the state makes
    them. *)

From S2P Require Import Prelude Extern Ids Ordering Frame.
From Stdlib Require Import ZArith Lia.
From stdpp Require Import prelude functions gmap strings.

(** ** [aes_gcm::Aes256Gcm] under one key, with associated data *)
Class Aead : Type := {
  aead_encrypt : list u8 → string → list u8 → option (list u8);
  aead_decrypt : list u8 → string → list u8 → option (list u8);
}.
Class AeadLaws `{Aead} : Prop := {
  aead_decrypt_encrypt nonce aad msg c :
    aead_encrypt nonce aad msg = Some c → aead_decrypt nonce aad c = Some msg;
  (* messages over 2^36 bytes are refused; the tag is 16 bytes *)
  aead_encrypt_length nonce aad msg c :
    aead_encrypt nonce aad msg = Some c → (Z.of_nat (length c) ≤ 2 ^ 36 + 16)%Z;
}.

(** [u64::to_le_bytes] and [u64::from_le_bytes]. *)
Fixpoint le_bytes (n : nat) (x : Z) : list u8 :=
  match n with O => [] | S n => (x mod 256)%Z :: le_bytes n (x / 256) end.
Fixpoint from_le_bytes (l : list u8) : Z :=
  match l with [] => 0 | b :: l => (b + 256 * from_le_bytes l)%Z end.

Definition MAGIC : list u8 := str_bytes "MCBLOB01".
Definition BLOB_VERSION : u8 := 1%Z.
Definition NONCE_LEN : nat := 12.
Definition HEADER_LEN : nat := 8 + 1 + NONCE_LEN + 8.

Record BlobRef := {
  BlobRef_hash : string;
  BlobRef_size : u64;
  BlobRef_media_type : string;
}.
#[export] Instance BlobRef_eq_dec : EqDecision BlobRef.
Proof. solve_decision. Defined.

Inductive BlobStoreError :=
| LedgerNotInitialized | IntegrityFailed | InvalidReference | BlobEncryption | BlobIo
| BlobDatabase.
#[export] Instance BlobStoreError_eq_dec : EqDecision BlobStoreError.
Proof. solve_decision. Defined.

(** A row of [blob_refs], without its key. *)
Record BlobRow := {
  BlobRow_size : u64;
  BlobRow_media_type : string;
  BlobRow_ref_count : Z;
}.
Record EncryptedBlobStore := {
  BlobStore_files : gmap string (list u8);
  BlobStore_rows : gmap string BlobRow;
  BlobStore_attached : gmap (MissionId * string) (u64 * string);
  BlobStore_nonces_drawn : nat;
}.
Definition BlobStore_empty : EncryptedBlobStore := {|
  BlobStore_files := ∅; BlobStore_rows := ∅; BlobStore_attached := ∅;
  BlobStore_nonces_drawn := 0 |}.

Definition is_ascii_hexdigit (c : Ascii.ascii) : bool :=
  byte_in 48 57 c || byte_in 65 70 c || byte_in 97 102 c.
Definition validate_hash (hash : string) : result BlobStoreError unit :=
  if negb (str_len hash =? 64)%Z
     || negb (forallb is_ascii_hexdigit (String.list_ascii_of_string hash))
  then Err InvalidReference else Ok tt.

Section blobs.
Context `{Sha256, Aead}.
Context (nonces : nat → option (list u8)) (foreign_keys : bool).

Abbreviation blob A := (stm EncryptedBlobStore BlobStoreError A).

Definition blob_digest (bytes : list u8) : string := sha256_hex (bytes_str bytes).

(** [write_encrypted]: the bytes of the file it creates. *)
Definition encrypt_blob (nonce : option (list u8)) (plaintext : list u8) (hash : string)
    : result BlobStoreError (list u8) :=
  nonce ← ok_or BlobEncryption nonce;
  ciphertext ← ok_or BlobEncryption (aead_encrypt nonce hash plaintext);
  Ok (MAGIC ++ [BLOB_VERSION] ++ nonce ++ le_bytes 8 (Z.of_nat (length ciphertext))
      ++ ciphertext).

(** [decrypt_blob]: slices of the encoded file; the length sum is on
    [usize]. *)
Definition decrypt_blob (encoded : list u8) (hash : string) : result BlobStoreError (list u8) :=
  if (length encoded <? HEADER_LEN)%nat || negb (bool_decide (take 8 encoded = MAGIC))
     || negb (bool_decide (encoded !! 8 = Some BLOB_VERSION))
  then Err IntegrityFailed else
  let nonce := take NONCE_LEN (drop 9 encoded) in
  let len := from_le_bytes (take 8 (drop 21 encoded)) in
  if negb (Z.of_nat (length encoded) =? wrapping_add64 (Z.of_nat HEADER_LEN) len)%Z
  then Err IntegrityFailed
  else ok_or IntegrityFailed (aead_decrypt nonce hash (drop HEADER_LEN encoded)).

Definition set_files (files : gmap string (list u8)) (s : EncryptedBlobStore) := {|
  BlobStore_files := files; BlobStore_rows := BlobStore_rows s;
  BlobStore_attached := BlobStore_attached s;
  BlobStore_nonces_drawn := BlobStore_nonces_drawn s |}.
Definition set_rows (rows : gmap string BlobRow) (s : EncryptedBlobStore) := {|
  BlobStore_files := BlobStore_files s; BlobStore_rows := rows;
  BlobStore_attached := BlobStore_attached s;
  BlobStore_nonces_drawn := BlobStore_nonces_drawn s |}.
Definition set_attached (attached : gmap (MissionId * string) (u64 * string))
    (s : EncryptedBlobStore) := {|
  BlobStore_files := BlobStore_files s; BlobStore_rows := BlobStore_rows s;
  BlobStore_attached := attached; BlobStore_nonces_drawn := BlobStore_nonces_drawn s |}.
Definition draw_nonce (s : EncryptedBlobStore) := {|
  BlobStore_files := BlobStore_files s; BlobStore_rows := BlobStore_rows s;
  BlobStore_attached := BlobStore_attached s;
  BlobStore_nonces_drawn := S (BlobStore_nonces_drawn s) |}.

(** The part of [put] that writes the file: a file that exists is kept. *)
Definition put_file (plaintext : list u8) (hash : string) : blob unit :=
  self ← stm_get;
  match BlobStore_files self !! hash with
  | Some _ => mret tt
  | None =>
      _ ← stm_modify draw_nonce;
      encoded ← stm_lift (encrypt_blob (nonces (BlobStore_nonces_drawn self)) plaintext hash);
      stm_modify (λ s, set_files (<[hash := encoded]> (BlobStore_files s)) s)
  end.

(** [INSERT OR IGNORE INTO blob_refs]. *)
Definition insert_or_ignore (hash : string) (row : BlobRow) (rows : gmap string BlobRow) :=
  match rows !! hash with Some _ => rows | None => <[hash := row]> rows end.

Definition blob_put (plaintext : list u8) (media_type : string) : blob BlobRef :=
  let hash := blob_digest plaintext in
  let reference := {| BlobRef_hash := hash; BlobRef_size := Z.of_nat (length plaintext);
                      BlobRef_media_type := media_type |} in
  _ ← stm_lift (validate_hash hash);
  _ ← put_file plaintext hash;
  _ ← stm_modify (λ s, set_rows (insert_or_ignore hash {|
        BlobRow_size := BlobRef_size reference; BlobRow_media_type := media_type;
        BlobRow_ref_count := 0 |} (BlobStore_rows s)) s);
  mret reference.

Definition blob_read (reference : BlobRef) (self : EncryptedBlobStore)
    : result BlobStoreError (list u8) :=
  _ ← validate_hash (BlobRef_hash reference);
  encoded ← ok_or BlobIo (BlobStore_files self !! BlobRef_hash reference);
  plaintext ← decrypt_blob encoded (BlobRef_hash reference);
  if negb (Z.of_nat (length plaintext) =? BlobRef_size reference)%Z
     || negb (str_eqb (blob_digest plaintext) (BlobRef_hash reference))
  then Err IntegrityFailed else Ok plaintext.

(** [WHERE blob_hash = ?1 AND size = ?2 AND media_type = ?3]. *)
Definition row_of (reference : BlobRef) (rows : gmap string BlobRow) : option BlobRow :=
  row ← rows !! BlobRef_hash reference;
  if bool_decide (BlobRow_size row = BlobRef_size reference)
     && bool_decide (BlobRow_media_type row = BlobRef_media_type reference)
  then Some row else None.
(** [UPDATE blob_refs SET ref_count = f(ref_count) WHERE blob_hash = ?1]. *)
Definition update_count (f : Z → Z) (hash : string) (s : EncryptedBlobStore) :=
  set_rows (alter (λ row, {| BlobRow_size := BlobRow_size row;
    BlobRow_media_type := BlobRow_media_type row;
    BlobRow_ref_count := f (BlobRow_ref_count row) |}) hash (BlobStore_rows s)) s.

Definition blob_retain (reference : BlobRef) : blob unit :=
  _ ← stm_lift (validate_hash (BlobRef_hash reference));
  self ← stm_get;
  match row_of reference (BlobStore_rows self) with
  | None => stm_throw InvalidReference
  | Some _ => stm_modify (update_count (λ n, n + 1)%Z (BlobRef_hash reference))
  end.

Definition retain_for_mission (mission_id : MissionId) (reference : BlobRef) : blob unit :=
  _ ← stm_lift (validate_hash (BlobRef_hash reference));
  self ← stm_get;
  match row_of reference (BlobStore_rows self) with
  | None => stm_throw InvalidReference
  | Some _ =>
      match BlobStore_attached self !! (mission_id, BlobRef_hash reference) with
      | Some _ => mret tt
      | None =>
          _ ← stm_modify (λ s, set_attached (<[(mission_id, BlobRef_hash reference) :=
                (BlobRef_size reference, BlobRef_media_type reference)]> (BlobStore_attached s)) s);
          stm_modify (update_count (λ n, n + 1)%Z (BlobRef_hash reference))
      end
  end.

(** [SELECT .. WHERE mission_id = ?1 ORDER BY blob_hash]. *)
Definition mission_references (mission_id : MissionId) (self : EncryptedBlobStore)
    : list BlobRef :=
  sort_cmp (λ l r, str_cmp (BlobRef_hash l) (BlobRef_hash r))
    ((λ p, {| BlobRef_hash := p.1.2; BlobRef_size := p.2.1; BlobRef_media_type := p.2.2 |}) <$>
      filter (λ p, p.1.1 = mission_id) (map_to_list (BlobStore_attached self))).

Definition release_for_mission (mission_id : MissionId) (reference : BlobRef) : blob bool :=
  _ ← stm_lift (validate_hash (BlobRef_hash reference));
  self ← stm_get;
  if bool_decide (BlobStore_attached self !! (mission_id, BlobRef_hash reference) =
                  Some (BlobRef_size reference, BlobRef_media_type reference)) then
    _ ← stm_modify (λ s, set_attached
          (delete (mission_id, BlobRef_hash reference) (BlobStore_attached s)) s);
    _ ← stm_modify (update_count (λ n, Z.max (n - 1) 0) (BlobRef_hash reference));
    mret true
  else mret false.

Definition blob_release (reference : BlobRef) : blob bool :=
  _ ← stm_lift (validate_hash (BlobRef_hash reference));
  self ← stm_get;
  match row_of reference (BlobStore_rows self) with
  | None => stm_throw InvalidReference
  | Some row =>
      if (BlobRow_ref_count row =? 0)%Z then mret false else
      _ ← stm_modify (update_count (λ n, n - 1)%Z (BlobRef_hash reference));
      mret (BlobRow_ref_count row =? 1)%Z
  end.

(** The [FOREIGN KEY .. ON DELETE RESTRICT] of [mission_blob_refs]. *)
Definition still_attached (hash : string) (self : EncryptedBlobStore) : bool :=
  existsb (λ p, str_eqb p.1.2 hash) (map_to_list (BlobStore_attached self)).

Definition delete_if_unreferenced (reference : BlobRef) : blob bool :=
  _ ← stm_lift (validate_hash (BlobRef_hash reference));
  self ← stm_get;
  if negb (bool_decide (BlobRow_ref_count <$> row_of reference (BlobStore_rows self) = Some 0%Z))
  then mret false else
  _ ← stm_modify (λ s, set_files (delete (BlobRef_hash reference) (BlobStore_files s)) s);
  if foreign_keys && still_attached (BlobRef_hash reference) self then stm_throw BlobDatabase else
  _ ← stm_modify (λ s, set_rows (delete (BlobRef_hash reference) (BlobStore_rows s)) s);
  mret true.

(** [recovery_report]'s [missing_blob_files]: rows whose file is gone. *)
Definition missing_blob_files (self : EncryptedBlobStore) : list string :=
  filter (λ hash, BlobStore_files self !! hash = None ∧ validate_hash hash = Ok tt)
    (map_to_list (BlobStore_rows self)).*1.

(** ** The file format *)
Lemma le_bytes_length n x : length (le_bytes n x) = n.
Proof. revert x. induction n as [|n IH]; intros x; simpl; [done|by rewrite IH]. Qed.
Lemma from_le_le_bytes n : ∀ x, (0 ≤ x < 256 ^ Z.of_nat n)%Z → from_le_bytes (le_bytes n x) = x.
Proof.
  induction n as [|n IH]; intros x Hx; [simpl in *; lia|].
  cbn [le_bytes from_le_bytes]. rewrite IH.
  - pose proof (Z.div_mod x 256). lia.
  - rewrite Nat2Z.inj_succ, Z.pow_succ_r in Hx by lia.
    split; [apply Z.div_pos; lia|apply Z.div_lt_upper_bound; lia].
Qed.

Context `{!AeadLaws}.
Context (nonces_len : ∀ i n, nonces i = Some n → length n = NONCE_LEN).

Lemma decrypt_encrypt_blob i plaintext hash encoded :
  encrypt_blob (nonces i) plaintext hash = Ok encoded →
  decrypt_blob encoded hash = Ok plaintext.
Proof.
  unfold encrypt_blob. destruct (nonces i) as [nonce|] eqn:Hn; simpl; [|done].
  apply nonces_len in Hn.
  destruct (aead_encrypt nonce hash plaintext) as [c|] eqn:Hc; simpl; [|done]. intros [= <-].
  pose proof (aead_encrypt_length _ _ _ _ Hc) as Hl.
  apply aead_decrypt_encrypt in Hc.
  set (enc := MAGIC ++ BLOB_VERSION :: nonce ++ le_bytes 8 (Z.of_nat (length c)) ++ c).
  change (decrypt_blob enc hash = Ok plaintext).
  assert (Hlen : length enc = HEADER_LEN + length c).
  { unfold enc, HEADER_LEN. rewrite length_app. simpl.
    rewrite !length_app, Hn. simpl. lia. }
  assert (Hnonce : take NONCE_LEN (drop 9 enc) = nonce).
  { unfold enc. change (drop 9 (MAGIC ++ BLOB_VERSION :: ?r)) with r.
    by apply take_app_length'. }
  assert (Htail : drop 21 enc = le_bytes 8 (Z.of_nat (length c)) ++ c).
  { change 21 with (9 + 12). rewrite <-drop_drop.
    unfold enc. change (drop 9 (MAGIC ++ BLOB_VERSION :: ?r)) with r.
    by apply drop_app_length'. }
  assert (Hbody : drop HEADER_LEN enc = c).
  { change HEADER_LEN with (21 + 8). rewrite <-drop_drop, Htail.
    by apply drop_app_length'; rewrite le_bytes_length. }
  unfold decrypt_blob. rewrite Hlen, Hnonce, Htail, Hbody.
  rewrite (take_app_length' _ _ 8) by (by rewrite le_bytes_length).
  rewrite from_le_le_bytes by (change (256 ^ Z.of_nat 8)%Z with 18446744073709551616%Z; lia).
  rewrite wrapping_add64_small by (unfold u64_max, HEADER_LEN; simpl; lia).
  rewrite (proj2 (Nat.ltb_ge _ _)) by lia. simpl orb.
  rewrite (proj2 (Z.eqb_eq _ _)) by lia. cbn [negb]. by rewrite Hc.
Qed.

(** ** References keep blobs alive

    A blob is referenced by the missions it is attached to and by the holders
    that called [retain] and have not called [release].  [blob_reach s holds]
    are the stores that calls can produce when nobody releases what it does
    not hold; [holds] counts the holders of each hash. *)
Definition attachments (hash : string) (s : EncryptedBlobStore) : nat :=
  size (filter (λ p, p.1.2 = hash) (BlobStore_attached s)).

Definition hold (f : nat → nat) (hash : string) (ok : bool) (holds : string → nat)
    : string → nat :=
  if ok then <[hash := f (holds hash)]> holds else holds.

Inductive blob_reach : EncryptedBlobStore → (string → nat) → Prop :=
| reach_empty : blob_reach BlobStore_empty (λ _, 0)
| reach_put s holds p m :
    blob_reach s holds → blob_reach (blob_put p m s).1 holds
| reach_retain s holds r :
    blob_reach s holds →
    blob_reach (blob_retain r s).1 (hold S (BlobRef_hash r) (is_ok (blob_retain r s).2) holds)
| reach_release s holds r :
    blob_reach s holds → 0 < holds (BlobRef_hash r) →
    blob_reach (blob_release r s).1 (hold pred (BlobRef_hash r) (is_ok (blob_release r s).2) holds)
| reach_attach s holds m r :
    blob_reach s holds → blob_reach (retain_for_mission m r s).1 holds
| reach_detach s holds m r :
    blob_reach s holds → blob_reach (release_for_mission m r s).1 holds
| reach_delete s holds r :
    blob_reach s holds → blob_reach (delete_if_unreferenced r s).1 holds.

Definition stored_blob (s : EncryptedBlobStore) (hash : string) (row : BlobRow) : Prop :=
  validate_hash hash = Ok tt ∧
  ∃ encoded plaintext, BlobStore_files s !! hash = Some encoded ∧
    decrypt_blob encoded hash = Ok plaintext ∧ blob_digest plaintext = hash ∧
    BlobRow_size row = Z.of_nat (length plaintext).

Record blob_inv (s : EncryptedBlobStore) (holds : string → nat) : Prop := {
  blob_inv_row h row : BlobStore_rows s !! h = Some row →
    stored_blob s h row ∧
    BlobRow_ref_count row = Z.of_nat (attachments h s + holds h);
  blob_inv_none h : BlobStore_rows s !! h = None →
    BlobStore_files s !! h = None ∧ attachments h s = 0 ∧ holds h = 0;
  blob_inv_attached m h sz md : BlobStore_attached s !! (m, h) = Some (sz, md) →
    ∃ row, BlobStore_rows s !! h = Some row ∧ BlobRow_size row = sz ∧
      BlobRow_media_type row = md;
}.

Lemma blob_inv_empty : blob_inv BlobStore_empty (λ _, 0).
Proof.
  split; simpl; [by intros ?? [=]| |intros ????; by rewrite lookup_empty].
  intros h _. split_and!; [done|unfold attachments; simpl|done].
  by rewrite map_filter_empty, map_size_empty.
Qed.

Lemma row_of_Some r rows row :
  row_of r rows = Some row →
  rows !! BlobRef_hash r = Some row ∧ BlobRow_size row = BlobRef_size r ∧
  BlobRow_media_type row = BlobRef_media_type r.
Proof.
  unfold row_of. destruct (_ !! _) as [row'|] eqn:Hr; simpl; [|done].
  destruct (_ && _) eqn:Hb; [|done]. intros [= <-]. guards. done.
Qed.

(** A changed count, with the attachments it accounts for. *)
Lemma blob_inv_count s holds A f h s' holds' row :
  blob_inv s holds → BlobStore_rows s !! h = Some row →
  s' = update_count f h (set_attached A s) →
  f (BlobRow_ref_count row) = Z.of_nat (attachments h (set_attached A s) + holds' h) →
  (∀ k, k ≠ h → holds' k = holds k ∧ attachments k (set_attached A s) = attachments k s) →
  (∀ m k v, A !! (m, k) = Some v →
    BlobStore_attached s !! (m, k) = Some v ∨
    (k = h ∧ v = (BlobRow_size row, BlobRow_media_type row))) →
  blob_inv s' holds'.
Proof.
  intros [Hrow Hnone Hatt] Hh -> Hf Hk HA. split.
  - intros k rowk. simpl. destruct (decide (h = k)) as [<-|Hne].
    + rewrite lookup_alter_eq, Hh. intros [= <-]. destruct (Hrow _ _ Hh) as [Hst _].
      by split.
    + rewrite lookup_alter_ne by done. intros Hkr. destruct (Hrow _ _ Hkr) as [Hst Hc].
      split; [done|]. destruct (Hk k) as [-> Hak]; [done|].
      rewrite Hc. do 2 f_equal. by symmetry.
  - intros k. simpl. destruct (decide (h = k)) as [<-|Hne].
    + by rewrite lookup_alter_eq, Hh.
    + rewrite lookup_alter_ne by done. intros Hkr. destruct (Hnone _ Hkr) as (?&Ha&?).
      destruct (Hk k) as [-> Hak]; [done|]. split_and!; [done| |done]. by etrans.
  - intros m k sz md. simpl. intros Ha.
    assert (∃ rowk, BlobStore_rows s !! k = Some rowk ∧ BlobRow_size rowk = sz ∧
      BlobRow_media_type rowk = md) as (rowk&Hrk&Hs&Hm).
    { destruct (HA _ _ _ Ha) as [Hs|[-> [= -> ->]]]; [by eapply Hatt|by exists row]. }
    destruct (decide (h = k)) as [<-|Hne].
    + rewrite lookup_alter_eq, Hrk. eexists. by split_and!.
    + rewrite lookup_alter_ne by done. by exists rowk.
Qed.

Lemma attachments_attach s m h v k :
  BlobStore_attached s !! (m, h) = None →
  attachments k (set_attached (<[(m, h) := v]> (BlobStore_attached s)) s) =
    (if decide (h = k) then 1 else 0) + attachments k s.
Proof.
  intros Hn. unfold attachments. simpl. destruct (decide (h = k)) as [<-|Hne].
  - rewrite map_filter_insert_True by done. rewrite map_size_insert_None; [done|].
    apply map_lookup_filter_None. by left.
  - rewrite map_filter_insert_False by done. by rewrite delete_id.
Qed.
Lemma attachments_detach s m h v k :
  BlobStore_attached s !! (m, h) = Some v →
  attachments k s =
    (if decide (h = k) then 1 else 0) +
    attachments k (set_attached (delete (m, h) (BlobStore_attached s)) s).
Proof.
  intros Hs.
  pose proof (attachments_attach (set_attached (delete (m, h) (BlobStore_attached s)) s)
    m h v k) as Ha.
  simpl in Ha. rewrite <-Ha by apply lookup_delete_eq.
  unfold attachments. simpl. by rewrite insert_delete_id.
Qed.

Lemma set_attached_same s : set_attached (BlobStore_attached s) s = s.
Proof. by destruct s. Qed.

Lemma hold_other f h b holds k : k ≠ h → hold f h b holds k = holds k.
Proof. intros Hk. unfold hold. destruct b; [|done]. by rewrite fn_lookup_insert_ne. Qed.

Ltac blob_step :=
  unfold mret, stm_ret, mbind, stm_bind, stm_lift, stm_get, stm_throw, stm_modify;
  simpl; destruct (validate_hash _) as [[]|] eqn:?; simpl; [|done].

Lemma retain_inv s holds r :
  blob_inv s holds →
  blob_inv (blob_retain r s).1 (hold S (BlobRef_hash r) (is_ok (blob_retain r s).2) holds).
Proof.
  intros Hinv. unfold blob_retain. blob_step.
  destruct (row_of r _) as [row|] eqn:Hrow; simpl; [|done].
  apply row_of_Some in Hrow as (Hr&_&_).
  eapply (blob_inv_count s holds (BlobStore_attached s)); [done|exact Hr| | | |].
  - by rewrite set_attached_same.
  - rewrite set_attached_same. unfold hold. rewrite fn_lookup_insert.
    destruct (blob_inv_row _ _ Hinv _ _ Hr) as [_ ->]. lia.
  - intros k Hk. by rewrite set_attached_same, fn_lookup_insert_ne.
  - by left.
Qed.

Lemma release_inv s holds r :
  blob_inv s holds → 0 < holds (BlobRef_hash r) →
  blob_inv (blob_release r s).1 (hold pred (BlobRef_hash r) (is_ok (blob_release r s).2) holds).
Proof.
  intros Hinv Hpos. unfold blob_release. blob_step.
  destruct (row_of r _) as [row|] eqn:Hrow; simpl; [|done].
  apply row_of_Some in Hrow as (Hr&_&_). destruct (blob_inv_row _ _ Hinv _ _ Hr) as [_ Hc].
  destruct (_ =? 0)%Z eqn:H0'; guards; [lia|]. simpl.
  eapply (blob_inv_count s holds (BlobStore_attached s)); [done|exact Hr| | | |].
  - by rewrite set_attached_same.
  - rewrite set_attached_same. unfold hold. rewrite fn_lookup_insert, Hc. lia.
  - intros k Hk. by rewrite set_attached_same, fn_lookup_insert_ne.
  - by left.
Qed.

Lemma attach_inv s holds m r :
  blob_inv s holds → blob_inv (retain_for_mission m r s).1 holds.
Proof.
  intros Hinv. unfold retain_for_mission. blob_step.
  destruct (row_of r _) as [row|] eqn:Hrow; simpl; [|done].
  apply row_of_Some in Hrow as (Hr&Hsz&Hmd). destruct (blob_inv_row _ _ Hinv _ _ Hr) as [_ Hc].
  destruct (BlobStore_attached s !! _) eqn:Ha; simpl; [done|].
  eapply (blob_inv_count s holds); [done|exact Hr|reflexivity| | |].
  - rewrite attachments_attach, decide_True by done. rewrite Hc. lia.
  - intros k Hk. split; [done|]. by rewrite attachments_attach, decide_False.
  - intros m' k v. rewrite lookup_insert_Some. intros [[[= <- <-] <-]|[_ Hv]]; [right|by left].
    by rewrite Hsz, Hmd.
Qed.

Lemma detach_inv s holds m r :
  blob_inv s holds → blob_inv (release_for_mission m r s).1 holds.
Proof.
  intros Hinv. unfold release_for_mission. blob_step.
  case_bool_decide as Ha; simpl; [|done].
  destruct (blob_inv_attached _ _ Hinv _ _ _ _ Ha) as (row&Hr&Hsz&Hmd).
  destruct (blob_inv_row _ _ Hinv _ _ Hr) as [_ Hc].
  pose proof (attachments_detach s m _ _ (BlobRef_hash r) Ha) as Hd.
  rewrite decide_True in Hd by done.
  eapply (blob_inv_count s holds); [done|exact Hr|reflexivity| | |].
  - rewrite Hc, Hd. lia.
  - intros k Hk. split; [done|]. rewrite (attachments_detach s m _ _ k Ha).
    by rewrite decide_False.
  - intros m' k v Hv. left. by apply lookup_delete_Some in Hv as [_ ?].
Qed.

(** What [put] does: it fails and at most draws a nonce, or the blob was
    there already and nothing changes, or the file and its row are added. *)
Lemma put_cases s p m s' res :
  blob_put p m s = (s', res) →
  let h := blob_digest p in
  let row := {| BlobRow_size := Z.of_nat (length p); BlobRow_media_type := m;
                BlobRow_ref_count := 0 |} in
  ((∃ e, res = Err e) ∧ (s' = s ∨ s' = draw_nonce s)) ∨
  (res = Ok {| BlobRef_hash := h; BlobRef_size := Z.of_nat (length p);
               BlobRef_media_type := m |} ∧ validate_hash h = Ok tt ∧
   ((is_Some (BlobStore_files s !! h) ∧
     s' = set_rows (insert_or_ignore h row (BlobStore_rows s)) s) ∨
    (∃ encoded, BlobStore_files s !! h = None ∧ decrypt_blob encoded h = Ok p ∧
      s' = set_rows (insert_or_ignore h row (BlobStore_rows s))
             (set_files (<[h := encoded]> (BlobStore_files s)) (draw_nonce s))))).
Proof.
  intros Hput h row.
  unfold blob_put, put_file, mret, stm_ret, mbind, stm_bind, stm_lift, stm_get, stm_modify in Hput.
  fold h in Hput.
  destruct (validate_hash h) as [[]|e]; [|simplify_eq; left; eauto].
  destruct (BlobStore_files s !! h) as [enc|] eqn:Hf.
  - injection Hput as <- <-. right. split_and!; [done..|]. left. eauto.
  - destruct (encrypt_blob _ p h) as [enc|e] eqn:He; simplify_eq; [|left; eauto].
    right. split_and!; [done..|]. right. exists enc. split_and!; [done| |done].
    by apply decrypt_encrypt_blob in He.
Qed.

Lemma insert_or_ignore_Some h row rows x :
  rows !! h = Some x → insert_or_ignore h row rows = rows.
Proof. unfold insert_or_ignore. by intros ->. Qed.
Lemma set_rows_same s : set_rows (BlobStore_rows s) s = s.
Proof. by destruct s. Qed.

Lemma blob_inv_draw s holds : blob_inv s holds → blob_inv (draw_nonce s) holds.
Proof. intros [Hr Hn Ha]. by split. Qed.

Lemma put_inv s holds p m : blob_inv s holds → blob_inv (blob_put p m s).1 holds.
Proof.
  intros Hinv. destruct (blob_put p m s) as [s' res] eqn:Hput.
  apply put_cases in Hput as [[_ [-> | ->]]|(_&Hv&[[Hf ->]|(enc&Hf&Hd&->)])]; simpl.
  - done.
  - by apply blob_inv_draw.
  - destruct (BlobStore_rows s !! blob_digest p) as [row|] eqn:Hr.
    + by rewrite (insert_or_ignore_Some _ _ _ row), set_rows_same by done.
    + apply (blob_inv_none _ _ Hinv) in Hr as (Hf'&_). rewrite Hf' in Hf. by destruct Hf.
  - set (h := blob_digest p) in *. assert (BlobStore_rows s !! h = None) as Hr.
    { destruct (BlobStore_rows s !! h) as [row|] eqn:Hr; [|done].
      destruct (blob_inv_row _ _ Hinv _ _ Hr) as [(_&?&?&?&_) _]. congruence. }
    destruct Hinv as [Hrow Hnone Hatt]. destruct (Hnone _ Hr) as (_&Ha0&Hh0).
    unfold insert_or_ignore. rewrite Hr. split; simpl.
    + intros k row. destruct (decide (h = k)) as [<-|Hne].
      * rewrite lookup_insert_eq. intros [= <-]. split; [|simpl; unfold attachments in *; simpl; lia].
        split; [done|]. exists enc, p. split_and!; try done. simpl. apply lookup_insert_eq.
      * rewrite lookup_insert_ne by done. intros Hk. destruct (Hrow _ _ Hk) as [(Hvk&e&q&Hfk&Hq) Hc].
        split; [|done]. split; [done|]. exists e, q. simpl. by rewrite lookup_insert_ne.
    + intros k. destruct (decide (h = k)) as [<-|Hne]; [by rewrite lookup_insert_eq|].
      rewrite !lookup_insert_ne by done. apply Hnone.
    + intros m' k sz md Ha. destruct (Hatt _ _ _ _ Ha) as (row&Hk&Hrest). exists row.
      rewrite lookup_insert_ne; [done|]. intros ->. congruence.
Qed.

Lemma attached_counts s m h v : BlobStore_attached s !! (m, h) = Some v → 0 < attachments h s.
Proof. intros Ha. rewrite (attachments_detach s m h v h Ha), decide_True by done. lia. Qed.

Lemma delete_inv s holds r : blob_inv s holds → blob_inv (delete_if_unreferenced r s).1 holds.
Proof.
  intros Hinv. unfold delete_if_unreferenced. blob_step. set (h := BlobRef_hash r).
  case_bool_decide as Hz; simpl; [|done].
  destruct (row_of r _) as [row|] eqn:Hrow; simplify_eq/=.
  apply row_of_Some in Hrow as (Hr&_&_). fold h in Hr.
  destruct (blob_inv_row _ _ Hinv _ _ Hr) as [_ Hc].
  assert (Hn : ∀ m v, BlobStore_attached s !! (m, h) ≠ Some v).
  { intros m v Ha. apply attached_counts in Ha. lia. }
  assert (still_attached h s = false) as ->.
  { apply not_true_iff_false. unfold still_attached. rewrite existsb_exists.
    intros ([[m k] v]&Hin&Hk). simpl in Hk. guards. subst.
    apply list_elem_of_In, elem_of_map_to_list in Hin. by eapply Hn. }
  rewrite andb_false_r. simpl. destruct Hinv as [Hrows Hnone Hatt]. split; simpl.
  - intros k rowk [Hne Hk]%lookup_delete_Some. destruct (Hrows _ _ Hk) as [(Hv&e&q&Hf&Hq) Hck].
    split; [|done]. split; [done|]. exists e, q. simpl. by rewrite lookup_delete_ne.
  - intros k. destruct (decide (h = k)) as [<-|Hne].
    + rewrite !lookup_delete_eq. intros _. unfold attachments in *. simpl. split_and!; [done|lia..].
    + rewrite !lookup_delete_ne by done. apply Hnone.
  - intros m k sz md Ha. destruct (Hatt _ _ _ _ Ha) as (rowk&Hk&Hrest). exists rowk.
    rewrite lookup_delete_ne; [done|]. intros <-. by eapply Hn.
Qed.

Lemma reach_inv s holds : blob_reach s holds → blob_inv s holds.
Proof.
  induction 1; [apply blob_inv_empty|by apply put_inv|by apply retain_inv|
    by apply release_inv|by apply attach_inv|by apply detach_inv|by apply delete_inv].
Qed.

Lemma stored_blob_read s h row :
  stored_blob s h row →
  ∃ p, blob_read {| BlobRef_hash := h; BlobRef_size := BlobRow_size row;
         BlobRef_media_type := BlobRow_media_type row |} s = Ok p ∧ blob_digest p = h.
Proof.
  intros (Hv&e&p&Hf&Hd&Hh&Hs). exists p. split; [|done]. unfold blob_read. simpl.
  rewrite Hv, Hf. simpl. rewrite Hd. simpl. rewrite Hs, Hh.
  by rewrite Z.eqb_refl, (proj2 (String.eqb_eq _ _)).
Qed.

(** C16: a blob that anyone still references is never lost: in every store
    reached by [put], [retain], [release] of what is held, attaching to and
    detaching from missions, and [delete_if_unreferenced], in any order, the
    reference count of a blob is the number of its mission attachments plus
    its holders, an attached or held blob can be read back with the content
    its hash names, no row lacks its file, and only a blob nobody references
    is deleted. *)
Theorem referenced_blobs_survive s holds :
  blob_reach s holds →
  (∀ h row, BlobStore_rows s !! h = Some row →
    BlobRow_ref_count row = Z.of_nat (attachments h s + holds h)) ∧
  (∀ m h sz md, BlobStore_attached s !! (m, h) = Some (sz, md) →
    ∃ p, blob_read {| BlobRef_hash := h; BlobRef_size := sz; BlobRef_media_type := md |} s = Ok p ∧
      blob_digest p = h) ∧
  (∀ h, 0 < holds h → ∃ row p, BlobStore_rows s !! h = Some row ∧
    blob_read {| BlobRef_hash := h; BlobRef_size := BlobRow_size row;
      BlobRef_media_type := BlobRow_media_type row |} s = Ok p ∧ blob_digest p = h) ∧
  missing_blob_files s = [] ∧
  (∀ r, (delete_if_unreferenced r s).2 = Ok true →
    attachments (BlobRef_hash r) s = 0 ∧ holds (BlobRef_hash r) = 0).
Proof.
  intros Hinv%reach_inv. split_and!.
  - intros h row Hr. by destruct (blob_inv_row _ _ Hinv _ _ Hr).
  - intros m h sz md Ha. destruct (blob_inv_attached _ _ Hinv _ _ _ _ Ha) as (row&Hr&<-&<-).
    destruct (blob_inv_row _ _ Hinv _ _ Hr) as [Hst _]. by apply stored_blob_read.
  - intros h Hh. destruct (BlobStore_rows s !! h) as [row|] eqn:Hr.
    + destruct (blob_inv_row _ _ Hinv _ _ Hr) as [Hst _].
      destruct (stored_blob_read _ _ _ Hst) as (p&?&?). by exists row, p.
    + destruct (blob_inv_none _ _ Hinv _ Hr) as (_&_&?). lia.
  - destruct (missing_blob_files s) as [|h l] eqn:Hm; [done|].
    assert (h ∈ missing_blob_files s) as Hin by (rewrite Hm; by left).
    unfold missing_blob_files in Hin. apply list_elem_of_filter in Hin as [[Hf _] Hin].
    apply list_elem_of_fmap in Hin as ([h' row]&->&Hin). apply elem_of_map_to_list in Hin.
    destruct (blob_inv_row _ _ Hinv _ _ Hin) as [(_&e&p&Hf'&_) _]. simpl in Hf. congruence.
  - intros r. unfold delete_if_unreferenced. blob_step.
    case_bool_decide as Hz; simpl; [|done]. intros _.
    destruct (row_of r _) as [row|] eqn:Hrow; simplify_eq/=.
    apply row_of_Some in Hrow as (Hr&_&_).
    destruct (blob_inv_row _ _ Hinv _ _ Hr) as [_ Hc]. lia.
Qed.

(** ** Content addressing *)

(** No intact file of the store holds other bytes under the digest of [p]. *)
Definition no_collision (p : list u8) (s : EncryptedBlobStore) : Prop :=
  ∀ encoded, BlobStore_files s !! blob_digest p = Some encoded →
    decrypt_blob encoded (blob_digest p) = Ok p.

Lemma blob_read_Ok r s p :
  blob_read r s = Ok p →
  blob_digest p = BlobRef_hash r ∧ Z.of_nat (length p) = BlobRef_size r.
Proof.
  unfold blob_read. intros Hr. bind_inv Hr. destruct (_ || _) eqn:Hb; simplify_eq/=. by guards.
Qed.

Lemma blob_put_reads p m s s' r :
  blob_put p m s = (s', Ok r) → no_collision p s → blob_read r s' = Ok p.
Proof.
  intros Hput Hnc.
  apply put_cases in Hput as [[[e [=]] _]|([= ->]&Hv&Hs')].
  assert (∃ enc, BlobStore_files s' !! blob_digest p = Some enc ∧
    decrypt_blob enc (blob_digest p) = Ok p) as (enc&Hf&Hd).
  { destruct Hs' as [[[enc Hf] ->]|(enc&_&Hd&->)]; simpl.
    - exists enc. split; [done|by apply Hnc].
    - exists enc. split; [apply lookup_insert_eq|done]. }
  unfold blob_read. simpl. rewrite Hv, Hf. simpl. rewrite Hd. simpl.
  by rewrite Z.eqb_refl, (proj2 (String.eqb_eq _ _)).
Qed.

Lemma blob_put_keeps p m s s' res r q :
  blob_put p m s = (s', res) → blob_read r s = Ok q → blob_read r s' = Ok q.
Proof.
  intros Hput. unfold blob_read. intros Hr. bind_inv Hr.
  apply put_cases in Hput as [[_ [-> | ->]]|(_&_&[[_ ->]|(enc&Hf&_&->)])]; simpl;
    try (by rewrite H2, H3; simpl; rewrite H4).
  rewrite H2. simpl. destruct (decide (blob_digest p = BlobRef_hash r)) as [He|Hne].
  - rewrite He in Hf. by rewrite Hf in H3.
  - rewrite lookup_insert_ne by done. rewrite H3. simpl. by rewrite H4.
Qed.

(** What is stored is read back, and nothing else is: the reference
    [put] returns reads back the bytes that were put (unless the store
    already holds different bytes with the same digest); a [put] never
    disturbs what another reference reads; and whatever has happened to the
    files, a read that succeeds returns bytes of the referenced digest and
    length. *)
Theorem blob_content_addressed p m s s' r :
  blob_put p m s = (s', Ok r) →
  no_collision p s →
  blob_read r s' = Ok p ∧
  (∀ r' q, blob_read r' s = Ok q → blob_read r' s' = Ok q) ∧
  (∀ tampered r' q, blob_read r' tampered = Ok q →
    blob_digest q = BlobRef_hash r' ∧ Z.of_nat (length q) = BlobRef_size r').
Proof.
  intros Hput Hnc. split_and!; [by eapply blob_put_reads|..].
  - intros r' q. by eapply blob_put_keeps.
  - intros t r' q. apply blob_read_Ok.
Qed.
End blobs.

(** ** A concrete store *)
Module BlobExamples.
Import Json.

(** A cipher that masks the bytes with the first byte of the nonce, and a
    digest of thirty-two equal bytes. *)
#[export] Instance mask_aead : Aead := {
  aead_encrypt nonce _ msg :=
    if (Z.of_nat (length msg) <=? 2 ^ 36)%Z
    then Some ((λ b, Z.lxor b (hd 0%Z nonce)) <$> msg) else None;
  aead_decrypt nonce _ c := Some ((λ b, Z.lxor b (hd 0%Z nonce)) <$> c);
}.
#[export] Instance mask_aead_laws : AeadLaws.
Proof.
  split; intros nonce aad msg c; simpl; case_match; try done; intros [= <-]; guards.
  - f_equal. rewrite <-list_fmap_compose. rewrite <-(list_fmap_id msg) at 2.
    apply list_fmap_ext. intros i b _. simpl. by rewrite Z.lxor_assoc, Z.lxor_nilpotent, Z.lxor_0_r.
  - rewrite length_fmap. lia.
Qed.
Definition sum_sha256 : Sha256 := λ s,
  replicate 32 (foldr Z.add 0%Z (str_bytes s) mod 256)%Z.
Definition bs_nonces (i : nat) : option (list u8) := Some (replicate 12 (Z.of_nat (S i) mod 256)%Z).
Lemma bs_nonces_len i n : bs_nonces i = Some n → length n = NONCE_LEN.
Proof. by intros [= <-]. Qed.
#[local] Existing Instance sum_sha256.

Definition bs_text : list u8 := str_bytes "checkpoint".
Definition bs_ref : BlobRef := {| BlobRef_hash := blob_digest bs_text; BlobRef_size := 10;
  BlobRef_media_type := "text/plain" |}.
Definition bs_put : EncryptedBlobStore :=
  (blob_put bs_nonces bs_text "text/plain" BlobStore_empty).1.
Definition bs_attached : EncryptedBlobStore := (retain_for_mission 7%N bs_ref bs_put).1.

Lemma bs_reach : blob_reach bs_nonces true bs_attached (λ _, 0).
Proof. apply reach_attach, reach_put, reach_empty. Qed.

Lemma referenced_blobs_survive_witness :
  BlobStore_attached bs_attached !! (7%N, BlobRef_hash bs_ref) = Some (10%Z, "text/plain") ∧
  ∃ p, blob_read bs_ref bs_attached = Ok p ∧ blob_digest p = BlobRef_hash bs_ref.
Proof.
  split; [by vm_compute|].
  destruct (referenced_blobs_survive bs_nonces true bs_nonces_len bs_attached (λ _, 0) bs_reach)
    as (_&Ha&_).
  apply (Ha 7%N). by vm_compute.
Defined.

Lemma blob_content_addressed_witness :
  blob_read bs_ref bs_put = Ok bs_text.
Proof.
  apply (blob_content_addressed bs_nonces bs_nonces_len bs_text "text/plain" BlobStore_empty bs_put).
  - vm_compute. reflexivity.
  - intros encoded He. by vm_compute in He.
Defined.
End BlobExamples.
