(* ===== verification/Redaction.v ===== *)
(** * Redaction of event payloads ([crates/ledger/src/redaction.rs])

    Before a payload is stored, the values of sensitive fields and the secrets
    found in its texts are replaced by markers.  The [regex] crate is a
    parameter: what matters of a pattern is how it splits a text into matches
    and the text between them. *)

From S2P Require Import Prelude Extern Ordering.
From Stdlib Require Import ZArith Lia Ascii.
From stdpp Require Import sorting prelude gmap strings.

(** [regex::Regex]: [regex_split] is the text before each match with the
    match, and the text after the last one ([replace_all] keeps the former
    and replaces the latter). *)
Class RegexCrate : Type := {
  Regex : Type;
  Regex_new : string → Regex;
  regex_split : Regex → string → list (string * string) * string;
}.

Definition DEFAULT_MAX_BYTES : Z := (1024 * 1024)%Z.
Definition DEFAULT_MAX_DEPTH : nat := 32.

Record RedactionAudit := {
  RedactionAudit_replacement_count : usize;
  RedactionAudit_categories : list string;
}.
Definition RedactionAudit_default : RedactionAudit :=
  {| RedactionAudit_replacement_count := 0; RedactionAudit_categories := [] |}.

Inductive RedactionError := LimitExceeded | RedactionInvalidInput.
#[export] Instance RedactionError_eq_dec : EqDecision RedactionError.
Proof. solve_decision. Defined.

Record Redactor := { Redactor_max_bytes : Z; Redactor_max_depth : nat }.
Definition Redactor_default : Redactor :=
  {| Redactor_max_bytes := DEFAULT_MAX_BYTES; Redactor_max_depth := DEFAULT_MAX_DEPTH |}.
Definition Redactor_new (max_bytes : Z) (max_depth : nat) : Redactor :=
  {| Redactor_max_bytes := max_bytes; Redactor_max_depth := max_depth |}.

(** ** Field names *)

(** The loop of [normalize_key]: [previous_lowercase] is the last character's
    class. *)
Fixpoint normalize_loop (previous_lowercase : bool) (key : string) : string :=
  match key with
  | EmptyString => EmptyString
  | String c key =>
      if byte_in 65 90 c then
        let rest := String (lower_byte c) (normalize_loop false key) in
        if previous_lowercase then String "_"%char rest else rest
      else String (lower_byte c) (normalize_loop (byte_in 97 122 c || byte_in 48 57 c) key)
  end.
Definition truncate_last (s : string) : string := String.substring 0 (String.length s - 1) s.
Fixpoint strip_plural (plurals : list string) (normalized : string) : string :=
  match plurals with
  | [] => normalized
  | plural :: plurals =>
      if ends_with normalized plural then truncate_last normalized
      else strip_plural plurals normalized
  end.
Definition normalize_key (key : string) : string :=
  strip_plural ["tokens"; "secrets"; "passwords"; "authorizations"; "cookies"; "api_keys";
    "apikeys"; "private_keys"; "credentials"] (normalize_loop false key).

Definition is_sensitive_field (key : string) : bool :=
  let key := normalize_key key in
  existsb (λ needle, str_eqb key needle || ends_with key ("_" +:+ needle))
    ["token"; "secret"; "password"; "authorization"; "cookie"; "api_key"; "apikey";
     "private_key"; "credential"].

Definition field_category (key : string) : string :=
  let key := normalize_key key in
  if str_contains key "password" then "password"
  else if str_contains key "token" then "token"
  else if str_contains key "private" then "private_key"
  else if str_contains key "cookie" then "cookie"
  else if str_contains key "authorization" then "authorization"
  else "secret_field".

Section redaction.
Context `{SerdeJson, Sha256, RegexCrate}.

Record RedactionResult := {
  RedactionResult_value : Value;
  RedactionResult_audit : RedactionAudit;
}.

Definition patterns : list (Regex * string) := [
  (Regex_new "-----BEGIN [^-]+-----[\s\S]+?-----END [^-]+-----", "private_key");
  (Regex_new "(?i)https?://[^/\s:@]+:[^/\s@]+@[^\s/]+", "url_userinfo");
  (Regex_new "(?i)(?:cookie|set-cookie):\s*[^\r\n]+", "cookie");
  (Regex_new "(?i)bearer\s+[A-Za-z0-9._~+/-]+=*", "bearer");
  (Regex_new "(?i)basic\s+[A-Za-z0-9+/=]+", "basic");
  (Regex_new "sk-ant-[A-Za-z0-9_-]{16,}", "anthropic_key");
  (Regex_new "sk-[A-Za-z0-9_-]{16,}", "openai_key");
  (Regex_new "gh[pousr]_[A-Za-z0-9]{20,}", "github_token");
  (Regex_new "AKIA[0-9A-Z]{16}", "aws_key");
  (Regex_new "(?i)(?:OPENAI|ANTHROPIC|AWS|GITHUB)[A-Z0-9_]*\s*=\s*[^\s,;]+", "env_secret")].

(** The text of a marker, and the audit entry it makes. *)
Definition mark (category secret : string) : string :=
  "[REDACTED:" +:+ category +:+ ":" +:+ hex_bytes (take 6 (sha256_digest secret)) +:+ "]".
Definition marker (category secret : string) (audit : RedactionAudit)
    : RedactionAudit * string :=
  ({| RedactionAudit_replacement_count := S (RedactionAudit_replacement_count audit);
      RedactionAudit_categories :=
        if existsb (str_eqb category) (RedactionAudit_categories audit)
        then RedactionAudit_categories audit
        else RedactionAudit_categories audit ++ [category] |},
   mark category secret).

(** [pattern.replace_all(&output, |captures| marker(..))]. *)
Fixpoint replace_matches (category : string) (matches : list (string * string)) (tail : string)
    (audit : RedactionAudit) : RedactionAudit * string :=
  match matches with
  | [] => (audit, tail)
  | (before, found) :: matches =>
      let '(audit, m) := marker category found audit in
      let '(audit, rest) := replace_matches category matches tail audit in
      (audit, before +:+ m +:+ rest)
  end.
Fixpoint redact_patterns (patterns : list (Regex * string)) (output : string)
    (audit : RedactionAudit) : RedactionAudit * string :=
  match patterns with
  | [] => (audit, output)
  | (pattern, category) :: patterns =>
      let '(matches, tail) := regex_split pattern output in
      let '(audit, output) := replace_matches category matches tail audit in
      redact_patterns patterns output audit
  end.
Definition redact_text (text : string) (audit : RedactionAudit) : RedactionAudit * string :=
  redact_patterns patterns text audit.

Abbreviation red A := (stm RedactionAudit RedactionError A).

(** A [Map]'s entries in key order. *)
Definition entries (object : gmap string Value) : list (string * Value) :=
  sort_cmp (λ l r, str_cmp l.1 r.1) (map_to_list object).

Fixpoint redact_object (rec : Value → red Value) (object : list (string * Value))
    (output : gmap string Value) : red (gmap string Value) :=
  match object with
  | [] => mret output
  | (key, value) :: object =>
      value ← (if is_sensitive_field key
               then λ audit, let '(audit, m) := marker (field_category key) (to_vec value) audit in
                             (audit, Ok (Value_String m))
               else rec value);
      redact_object rec object (<[key := value]> output)
  end.

(** [levels] is [max_depth + 1 - depth]: no level is left exactly when
    [depth > max_depth]. *)
Fixpoint redact_value (levels : nat) (value : Value) : red Value :=
  match levels with
  | O => stm_throw LimitExceeded
  | S levels =>
      match Value_as_object value with
      | Some object =>
          output ← redact_object (redact_value levels) (entries object) ∅;
          mret (Value_Object output)
      | None =>
          match Value_as_array value with
          | Some values => values ← mapM (redact_value levels) values; mret (Value_Array values)
          | None =>
              match Value_as_str value with
              | Some text => λ audit, let '(audit, output) := redact_text text audit in
                                      (audit, Ok (Value_String output))
              | None => mret value
              end
          end
      end
  end.

Definition redact_event (self : Redactor) (value : Value)
    : result RedactionError RedactionResult :=
  if (Redactor_max_bytes self <? str_len (to_vec value))%Z then Err LimitExceeded else
  let '(audit, r) := redact_value (S (Redactor_max_depth self)) value RedactionAudit_default in
  value ← r;
  if (Redactor_max_bytes self <? str_len (to_vec value))%Z then Err LimitExceeded else
  Ok {| RedactionResult_value := value; RedactionResult_audit := audit |}.

(** ** What redaction produces *)
Inductive redacted_from : Value → Value → Prop :=
| redacted_object v w m m' :
    Value_as_object v = Some m → Value_as_object w = Some m' →
    (∀ k, m !! k = None → m' !! k = None) →
    (∀ k x, m !! k = Some x → ∃ y, m' !! k = Some y ∧
      ((is_sensitive_field k = true ∧ y = Value_String (mark (field_category k) (to_vec x))) ∨
       (is_sensitive_field k = false ∧ redacted_from x y))) →
    redacted_from v w
| redacted_array v w l l' :
    Value_as_object v = None → Value_as_array v = Some l →
    Value_as_object w = None → Value_as_array w = Some l' →
    Forall2 redacted_from l l' → redacted_from v w
| redacted_string v s :
    Value_as_object v = None → Value_as_array v = None → Value_as_str v = Some s →
    redacted_from v (Value_String (redact_text s RedactionAudit_default).2)
| redacted_other v :
    Value_as_object v = None → Value_as_array v = None → Value_as_str v = None →
    redacted_from v v.

Lemma entries_NoDup m : NoDup (entries m).*1.
Proof.
  unfold entries, sort_cmp. rewrite sort_by_perm. apply NoDup_fst_map_to_list.
Qed.
Lemma entries_elem m k x : (k, x) ∈ entries m ↔ m !! k = Some x.
Proof. unfold entries, sort_cmp. by rewrite sort_by_elem, elem_of_map_to_list. Qed.

Lemma redact_object_spec rec (P : Value → Value → Prop) l : ∀ out a a' out',
  (∀ v b b' w, rec v b = (b', Ok w) → P v w) → NoDup l.*1 →
  redact_object rec l out a = (a', Ok out') →
  (∀ k, k ∉ l.*1 → out' !! k = out !! k) ∧
  (∀ k x, (k, x) ∈ l → ∃ y, out' !! k = Some y ∧
    ((is_sensitive_field k = true ∧ y = Value_String (mark (field_category k) (to_vec x))) ∨
     (is_sensitive_field k = false ∧ P x y))).
Proof.
  induction l as [|[k x] l IH]; intros out a a' out' Hrec Hnd Hr; simpl in *.
  { injection Hr as <- <-. split; [done|]. intros k x []%elem_of_nil. }
  apply NoDup_cons in Hnd as [Hk Hnd].
  unfold mbind, stm_bind in Hr.
  assert (∃ b y, redact_object rec l (<[k := y]> out) b = (a', Ok out') ∧
    ((is_sensitive_field k = true ∧ y = Value_String (mark (field_category k) (to_vec x))) ∨
     (is_sensitive_field k = false ∧ P x y))) as (b&y&Hr'&Hy).
  { destruct (is_sensitive_field k) eqn:Hs; simpl in Hr.
    - eexists _, _. split; [exact Hr|]. by left.
    - destruct (rec x a) as [b [y|e]] eqn:Hx; [|done]. exists b, y. split; [done|].
      right. split; [done|]. by eapply Hrec. }
  destruct (IH _ _ _ _ Hrec Hnd Hr') as [Hout Hin]. split.
  - intros k' Hk'. rewrite Hout by set_solver. rewrite lookup_insert_ne by set_solver. done.
  - intros k' x' [[= -> ->] | Hin']%elem_of_cons; [|by apply Hin].
    exists y. split; [|done]. rewrite Hout by done. apply lookup_insert_eq.
Qed.

Lemma mapM_stm_Ok {S E A B} (f : A → stm S E B) l : ∀ s s' k,
  mapM f l s = (s', Ok k) → Forall2 (λ x y, ∃ t t', f x t = (t', Ok y)) l k.
Proof.
  induction l as [|x l IH]; intros s s' k; simpl.
  - intros [= _ <-]. constructor.
  - unfold mbind, stm_bind, mret, stm_ret. destruct (f x s) as [t [y|e]] eqn:Hx; [|done].
    destruct (mapM f l t) as [t' [k'|e]] eqn:Hl; [|done]. intros [= _ <-].
    constructor; [by eexists _, _|by eapply IH].
Qed.

(** The audit is only written. *)
Lemma replace_matches_audit category matches tail : ∀ a b,
  (replace_matches category matches tail a).2 = (replace_matches category matches tail b).2.
Proof.
  induction matches as [|[before found] matches IH]; intros a b; [done|]. simpl.
  match goal with |- (let '(_, _) := replace_matches _ _ _ ?x in _).2 =
    (let '(_, _) := replace_matches _ _ _ ?y in _).2 => specialize (IH x y);
    destruct (replace_matches _ _ _ x), (replace_matches _ _ _ y) end.
  simpl in *. congruence.
Qed.
Lemma redact_patterns_audit ps : ∀ text a b,
  (redact_patterns ps text a).2 = (redact_patterns ps text b).2.
Proof.
  induction ps as [|[p category] ps IH]; intros text a b; [done|]. simpl.
  destruct (regex_split p text) as [matches tail].
  pose proof (replace_matches_audit category matches tail a b) as Hm.
  destruct (replace_matches category matches tail a) as [a1 t1],
    (replace_matches category matches tail b) as [b1 t2]. simpl in Hm. subst. apply IH.
Qed.
Lemma redact_text_audit text a b : (redact_text text a).2 = (redact_text text b).2.
Proof. apply redact_patterns_audit. Qed.

Context `{!SerdeJsonLaws}.

Lemma redact_value_spec levels : ∀ v a a' w,
  redact_value levels v a = (a', Ok w) → redacted_from v w.
Proof.
  induction levels as [|levels IH]; intros v a a' w Hr; [done|]. simpl in Hr.
  destruct (Value_as_object v) as [m|] eqn:Ho.
  - unfold mbind, stm_bind, mret, stm_ret in Hr.
    destruct (redact_object _ _ _ _) as [b [out|e]] eqn:Hobj; [|done].
    injection Hr as <- <-.
    apply (redact_object_spec _ redacted_from) in Hobj as [Hnone Hsome];
      [|exact IH|apply entries_NoDup].
    apply redacted_object with m out; [done|apply as_object_Object| |].
    + intros k Hk. rewrite Hnone; [apply lookup_empty|].
      intros ([k' x]&->&Hin)%list_elem_of_fmap. apply entries_elem in Hin. simpl in Hk. congruence.
    + intros k x Hk. apply Hsome. by apply entries_elem.
  - destruct (Value_as_array v) as [l|] eqn:Ha.
    + unfold mbind, stm_bind, mret, stm_ret in Hr.
      destruct (mapM (redact_value levels) l a) as [b [l'|e]] eqn:Hm; [|done]. injection Hr as <- <-.
      apply mapM_stm_Ok in Hm.
      apply redacted_array with l l'; [done|done|apply as_object_Array|apply as_array_Array|].
      eapply Forall2_impl; [exact Hm|]. intros x y (t&t'&Hx). by eapply IH.
    + destruct (Value_as_str v) as [s|] eqn:Hs.
      * destruct (redact_text s a) as [b o] eqn:Ht. injection Hr as <- <-.
        replace o with ((redact_text s RedactionAudit_default).2)
          by (by rewrite (redact_text_audit s RedactionAudit_default a), Ht). by apply redacted_string.
      * injection Hr as <- <-. by apply redacted_other.
Qed.

(** The values inside a value. *)
Inductive reaches (v : Value) : Value → Prop :=
| reach_here : reaches v v
| reach_key w m k x :
    reaches v w → Value_as_object w = Some m → m !! k = Some x → reaches v x
| reach_index w l i x :
    reaches v w → Value_as_array w = Some l → l !! i = Some x → reaches v x.

Lemma redacted_reaches v r w :
  redacted_from v r → reaches r w →
  (∃ v', reaches v v' ∧ redacted_from v' w) ∨ (∃ c s, w = Value_String (mark c s)).
Proof.
  intros Hr. induction 1 as [|w m k x _ IH Hm Hk|w l i x _ IH Hl Hi].
  - left. exists v. split; [constructor|done].
  - destruct IH as [(v'&Hv'&Hw)|(c&s&->)]; [|by rewrite as_object_String in Hm].
    destruct Hw as [v' w m1 m2 H1' H2' Hnone Hsome|v' w l l' _ _ Ho _ _|v' s _ _ _|v' Ho _ _].
    + rewrite Hm in H2'. injection H2' as <-.
      destruct (m1 !! k) as [x1|] eqn:Hk1; [|apply Hnone in Hk1; congruence].
      destruct (Hsome _ _ Hk1) as (y&Hy&[[_ Hys]|[_ Hxy]]); simplify_eq; [right; eauto|].
      left. exists x1. split; [by eapply reach_key|done].
    + congruence.
    + by rewrite as_object_String in Hm.
    + congruence.
  - destruct IH as [(v'&Hv'&Hw)|(c&s&->)]; [|by rewrite as_array_String in Hl].
    destruct Hw as [v' w m1 m2 _ H2' _ _|v' w l1 l2 Ho1 Ha1 Ho2 Ha2 Hf|v' s _ _ _|v' _ Ha _].
    + apply as_array_object in H2'. congruence.
    + rewrite Hl in Ha2. injection Ha2 as <-.
      destruct (Forall2_lookup_r _ _ _ _ _ Hf Hi) as (x1&Hx1&Hx).
      left. exists x1. split; [by eapply reach_index|done].
    + by rewrite as_array_String in Hl.
    + congruence.
Qed.

Lemma redacted_from_object v w m' :
  redacted_from v w → Value_as_object w = Some m' →
  ∃ m, Value_as_object v = Some m ∧ (∀ k, m !! k = None → m' !! k = None) ∧
    (∀ k x, m !! k = Some x → ∃ y, m' !! k = Some y ∧
      ((is_sensitive_field k = true ∧ y = Value_String (mark (field_category k) (to_vec x))) ∨
       (is_sensitive_field k = false ∧ redacted_from x y))).
Proof.
  intros [v0 w0 m m1 Hv Hw Hnone Hsome|v0 w0 l l' _ _ Ho _ _|v0 s _ _ _|v0 Ho _ _] Hm'.
  - rewrite Hm' in Hw. injection Hw as <-. by exists m.
  - congruence.
  - by rewrite as_object_String in Hm'.
  - congruence.
Qed.

(** *** Places in a value *)
Inductive place := Key (key : string) | Index (index : nat).
Definition inside (v : Value) (p : place) : option Value :=
  match p with
  | Key key => Value_as_object v ≫= λ m, m !! key
  | Index index => Value_as_array v ≫= λ l, l !! index
  end.
Fixpoint at_path (v : Value) (path : list place) : option Value :=
  match path with
  | [] => Some v
  | p :: path => inside v p ≫= λ x, at_path x path
  end.
Lemma at_path_app path path' : ∀ v, at_path v (path ++ path') = at_path v path ≫= λ x, at_path x path'.
Proof. induction path as [|p path IH]; intros v; simpl; [done|]. destruct (inside v p); [apply IH|done]. Qed.
(** A path no step of which is a sensitive field. *)
Definition open_path (path : list place) : Prop :=
  ∀ key, Key key ∈ path → is_sensitive_field key = false.

Lemma open_cons p path : open_path (p :: path) ↔
  (∀ key, p = Key key → is_sensitive_field key = false) ∧ open_path path.
Proof. unfold open_path. setoid_rewrite elem_of_cons. naive_solver. Qed.
Lemma open_pathb path :
  forallb (λ p, match p with Key key => negb (is_sensitive_field key) | Index _ => true end) path = true →
  open_path path.
Proof.
  intros Hp key Hk. rewrite forallb_forall in Hp. apply list_elem_of_In, Hp in Hk. by apply negb_true_iff.
Qed.
(** One step, from the input and from the output. *)
Lemma redacted_inside v w p x : redacted_from v w → inside v p = Some x →
  (∀ key, p = Key key → is_sensitive_field key = false) → ∃ y, inside w p = Some y ∧ redacted_from x y.
Proof.
  intros [v' w' m m' Hm Hm' _ Hsome|v' w' l l' Ho Ha _ Ha' Hf|v' s Ho Ha _|v' Ho Ha _] Hx Hp.
  - destruct p as [key|i]; simpl in *.
    + rewrite Hm in Hx. simpl in Hx. destruct (Hsome _ _ Hx) as (y&Hy&[[Hs _]|[_ Hr]]).
      { rewrite (Hp key eq_refl) in Hs. done. }
      exists y. by rewrite Hm'.
    + by rewrite (as_array_object _ _ Hm) in Hx.
  - destruct p as [key|i]; simpl in *; [by rewrite Ho in Hx|]. rewrite Ha in Hx. simpl in Hx.
    destruct (Forall2_lookup_l _ _ _ _ _ Hf Hx) as (y&Hy&Hr). exists y. by rewrite Ha'.
  - destruct p; simpl in Hx; [by rewrite Ho in Hx|by rewrite Ha in Hx].
  - destruct p; simpl in Hx; [by rewrite Ho in Hx|by rewrite Ha in Hx].
Qed.
Lemma redacted_outside v w p y : redacted_from v w → inside w p = Some y →
  ∃ x, inside v p = Some x ∧
    (((∀ key, p = Key key → is_sensitive_field key = false) ∧ redacted_from x y) ∨
     ∃ key, p = Key key ∧ is_sensitive_field key = true ∧
       y = Value_String (mark (field_category key) (to_vec x))).
Proof.
  intros [v' w' m m' Hm Hm' Hnone Hsome|v' w' l l' Ho Ha Ho' Ha' Hf|v' s Ho Ha _|v' Ho Ha _] Hy.
  - destruct p as [key|i]; simpl in *; [|by rewrite (as_array_object _ _ Hm') in Hy].
    rewrite Hm' in Hy. simpl in Hy. rewrite Hm. simpl.
    destruct (m !! key) as [x|] eqn:Hx; [|apply Hnone in Hx; congruence]. exists x. split; [done|].
    destruct (Hsome _ _ Hx) as (y'&Hy'&[[Hs ->]|[Hs Hr]]); simplify_eq; [right; eauto|left].
    split; [by intros ? [= <-]|done].
  - destruct p as [key|i]; simpl in *; [by rewrite Ho' in Hy|]. rewrite Ha' in Hy. simpl in Hy.
    destruct (Forall2_lookup_r _ _ _ _ _ Hf Hy) as (x&Hx&Hr). exists x. rewrite Ha. split; [done|by left].
  - destruct p; simpl in Hy; [by rewrite as_object_String in Hy|by rewrite as_array_String in Hy].
  - destruct p; simpl in Hy; [by rewrite Ho in Hy|by rewrite Ha in Hy].
Qed.
Lemma redacted_at path : ∀ v w x, redacted_from v w → at_path v path = Some x → open_path path →
  ∃ y, at_path w path = Some y ∧ redacted_from x y.
Proof.
  induction path as [|p path IH]; intros v w x Hr Hx Hp; simpl in *; [simplify_eq; eauto|].
  apply open_cons in Hp as [Hp Hpath]. destruct (inside v p) as [v1|] eqn:Hv; [|done]. simpl in Hx.
  destruct (redacted_inside _ _ _ _ Hr Hv Hp) as (w1&->&Hr1). simpl. by eapply IH.
Qed.
Lemma redacted_from_where path : ∀ v w y, redacted_from v w → at_path w path = Some y →
  ∃ x, at_path v path = Some x ∧
    (open_path path ∨ ∃ before key, path = before ++ [Key key] ∧ open_path before ∧
       is_sensitive_field key = true ∧ y = Value_String (mark (field_category key) (to_vec x))).
Proof.
  induction path as [|p path IH]; intros v w y Hr Hy; simpl in *.
  { exists v. split; [done|]. left. intros key Hk. by apply not_elem_of_nil in Hk. }
  destruct (inside w p) as [w1|] eqn:Hw; [|done]. simpl in Hy.
  destruct (redacted_outside _ _ _ _ Hr Hw) as (v1&->&[[Hp Hr1]|(key&->&Hs&->)]); simpl.
  - destruct (IH _ _ _ Hr1 Hy) as (x&Hx&[Ho|(before&key&->&Hb&Hs&Hm)]); exists x; (split; [done|]).
    + left. by apply open_cons.
    + right. exists (p :: before), key. split_and!; [done|by apply open_cons|done|done].
  - destruct path as [|p' path]; simpl in Hy.
    + simplify_eq. exists v1. split; [done|]. right. exists [], key. split_and!; try done.
      intros k Hk. by apply not_elem_of_nil in Hk.
    + destruct p'; simpl in Hy; [by rewrite as_object_String in Hy|by rewrite as_array_String in Hy].
Qed.

(** C15: redaction is complete and conservative.  Conservative: at every place
    of the input that is not inside a sensitive field the output has what the
    input has: an object with the same keys, in which each sensitive one holds
    the marker of its own value; an array of the same length; a text with the
    secret patterns replaced; and any other value itself.  Complete: the output
    has nothing at any other place, so at whatever depth a sensitive field
    holds the marker of its category and of the digest of its value, and
    nothing below it is left.  The result fits the size limit. *)
Theorem redaction_hides_sensitive_fields (self : Redactor) v res :
  redact_event self v = Ok res →
  let out := RedactionResult_value res in
  (∀ path x, at_path v path = Some x → open_path path →
    ∃ y, at_path out path = Some y ∧
      match Value_as_object x, Value_as_array x, Value_as_str x with
      | Some m, _, _ => ∃ m', Value_as_object y = Some m' ∧
          (∀ k, is_Some (m' !! k) ↔ is_Some (m !! k)) ∧
          ∀ k z, m !! k = Some z → is_sensitive_field k = true →
            m' !! k = Some (Value_String (mark (field_category k) (to_vec z)))
      | None, Some l, _ => ∃ l', Value_as_array y = Some l' ∧ length l' = length l
      | None, None, Some s => y = Value_String (redact_text s RedactionAudit_default).2
      | None, None, None => y = x
      end) ∧
  (∀ path y, at_path out path = Some y → ∃ x, at_path v path = Some x ∧
    (open_path path ∨ ∃ before key, path = before ++ [Key key] ∧ open_path before ∧
       is_sensitive_field key = true ∧ y = Value_String (mark (field_category key) (to_vec x)))) ∧
  (str_len (to_vec out) ≤ Redactor_max_bytes self)%Z.
Proof.
  unfold redact_event. case_match; [done|].
  destruct (redact_value _ v _) as [audit r] eqn:Hv. intros Hr. bind_inv Hr. subst r.
  destruct (_ <? _)%Z eqn:Hsz in Hr; [done|]. injection Hr as <-. guards. simpl.
  apply redact_value_spec in Hv. split_and!; [|intros path y; by apply redacted_from_where|lia].
  intros path z0 Hx Hp. destruct (redacted_at _ _ _ _ Hv Hx Hp) as (y&Hy&Hr). exists y. split; [done|].
  destruct Hr as [v' w m m' Hm Hm' Hnone Hsome|v' w l l' Ho Ha _ Ha' Hf|v' s Ho Ha Hs|v' Ho Ha Hs].
  - rewrite Hm. exists m'. split_and!; [done| |].
    + intros k. split.
      * intros [z Hz]. destruct (m !! k) eqn:Hk; [eauto|]. apply Hnone in Hk. congruence.
      * intros [z Hz]. destruct (Hsome _ _ Hz) as (z'&Hz'&_). eauto.
    + intros k z Hz Hk. destruct (Hsome _ _ Hz) as (z'&Hz'&[[_ ->]|[? _]]); [done|congruence].
  - rewrite Ho, Ha. exists l'. split; [done|]. symmetry. by eapply Forall2_length.
  - by rewrite Ho, Ha, Hs.
  - by rewrite Ho, Ha, Hs.
Qed.
End redaction.

(** ** A concrete payload *)
Module RedactionExamples.
Import Json.

(** A [regex] crate whose patterns are literal texts, matched at the start. *)
#[export] Instance prefix_regex : RegexCrate := {
  Regex := string;
  Regex_new s := s;
  regex_split r s :=
    if String.prefix r s && negb (str_eqb r "")
    then ([("", r)], String.substring (String.length r) (String.length s - String.length r) s)
    else ([], s);
}.

Definition rd_payload : @Value json_serde :=
  json_object [("budget", json_object [("tokens", JNum 5); ("modelCalls", JNum 2)]);
               ("goal", JStr "ship")].
(** The token budget of a payload, read as a number. *)
Definition budget_tokens (v : @Value json_serde) : option Z :=
  Value_get v "budget" ≫= λ b, Value_get b "tokens" ≫= Value_as_u64.

Definition rd_two : @Value json_serde := JNum 2.
Definition rd_five : @Value json_serde := JNum 5.
Lemma redaction_hides_sensitive_fields_witness :
  budget_tokens rd_payload = Some 5%Z ∧
  ∃ res, redact_event Redactor_default rd_payload = Ok res ∧
    at_path (RedactionResult_value res) [Key "budget"; Key "modelCalls"] = Some rd_two ∧
    at_path (RedactionResult_value res) [Key "budget"; Key "tokens"] =
      Some (Value_String (mark "token" (to_vec rd_five))).
Proof.
  split; [by vm_compute|].
  destruct (redact_event Redactor_default rd_payload) as [res|e] eqn:Hr.
  2: { exfalso. assert (is_ok (redact_event Redactor_default rd_payload) = true) as Hok
      by (vm_compute; reflexivity). rewrite Hr in Hok. discriminate. }
  exists res. split; [done|].
  destruct (redaction_hides_sensitive_fields Redactor_default rd_payload res Hr) as (Hkeep&_&_). clear Hr. split.
  - destruct (Hkeep [Key "budget"; Key "modelCalls"] rd_two) as (y&Hy&Hv);
      [reflexivity| |].
    { apply open_pathb. vm_compute. reflexivity. }
    simpl in Hv. by rewrite Hy, Hv.
  - destruct (Hkeep [Key "budget"] (json_object [("tokens", rd_five); ("modelCalls", rd_two)]))
      as (y&Hy&m'&Hm&_&Hs); [reflexivity| |].
    { apply open_pathb. vm_compute. reflexivity. }
    change [Key "budget"; Key "tokens"] with ([Key "budget"] ++ [Key "tokens"]).
    rewrite at_path_app, Hy. cbn [mbind option_bind at_path]. unfold inside. rewrite Hm.
    cbn [mbind option_bind]. rewrite (Hs "tokens" rd_five eq_refl eq_refl). reflexivity.
Defined.
End RedactionExamples.
