(* ===== verification/CivilDate.v ===== *)
(** * UTC timestamps of the ledger ([utc_now_rfc3339] in [crates/ledger/src/delete.rs])

    The ledger converts seconds since the Unix epoch to a calendar date by
    hand.  The reference is the calendar itself: [next_day], the rule by which
    one Gregorian date follows another, iterated from 1 January 1970. *)

From S2P Require Import Prelude Extern Ids.
From Stdlib Require Import ZArith Lia Ascii.
From stdpp Require Import prelude strings pretty.
#[local] Open Scope Z_scope.

(** ** The code *)
Record civil := { civil_year : Z; civil_month : Z; civil_day : Z }.

(** The civil date conversion; [/] on [i64] truncates. *)
Definition civil_from_days (days : Z) : civil :=
  let z := days + 719468 in
  let era := Z.quot (if 0 <=? z then z else z - 146096) 146097 in
  let doe := z - era * 146097 in
  let yoe := Z.quot (doe - Z.quot doe 1460 + Z.quot doe 36524 - Z.quot doe 146096) 365 in
  let year := yoe + era * 400 in
  let doy := doe - (365 * yoe + Z.quot yoe 4 - Z.quot yoe 100) in
  let month_part := Z.quot (5 * doy + 2) 153 in
  let day := doy - Z.quot (153 * month_part + 2) 5 + 1 in
  let month := month_part + (if month_part <? 10 then 3 else -9) in
  {| civil_year := year + (if month <=? 2 then 1 else 0); civil_month := month;
     civil_day := day |}.

(** [{n:0width}] of a number that is not negative. *)
Fixpoint zeros (n : nat) : string :=
  match n with O => "" | S n => String "0"%char (zeros n) end.
Definition pad (width : nat) (n : Z) : string :=
  let digits := pretty n in zeros (width - String.length digits) +:+ digits.

(** [utc_now_rfc3339], given the seconds since the epoch the clock answers. *)
Definition utc_rfc3339 (seconds : u64) : string :=
  let days := seconds / 86400 in
  let day_seconds := seconds mod 86400 in
  let hour := day_seconds / 3600 in
  let minute := (day_seconds mod 3600) / 60 in
  let second := day_seconds mod 60 in
  let date := civil_from_days days in
  pad 4 (civil_year date) +:+ "-" +:+ pad 2 (civil_month date) +:+ "-" +:+ pad 2 (civil_day date)
    +:+ "T" +:+ pad 2 hour +:+ ":" +:+ pad 2 minute +:+ ":" +:+ pad 2 second +:+ "Z".

(** ** The calendar *)
Definition is_leap (y : Z) : bool :=
  (y mod 4 =? 0) && (negb (y mod 100 =? 0) || (y mod 400 =? 0)).
Definition month_length (y m : Z) : Z :=
  if m =? 2 then (if is_leap y then 29 else 28)
  else if existsb (Z.eqb m) [4; 6; 9; 11] then 30 else 31.
Definition next_day (d : civil) : civil :=
  if civil_day d <? month_length (civil_year d) (civil_month d)
  then {| civil_year := civil_year d; civil_month := civil_month d; civil_day := civil_day d + 1 |}
  else if civil_month d <? 12
  then {| civil_year := civil_year d; civil_month := civil_month d + 1; civil_day := 1 |}
  else {| civil_year := civil_year d + 1; civil_month := 1; civil_day := 1 |}.
Definition epoch : civil := {| civil_year := 1970; civil_month := 1; civil_day := 1 |}.
(** A date of the calendar. *)
Definition valid_date (d : civil) : Prop :=
  1 ≤ civil_month d ≤ 12 ∧ 1 ≤ civil_day d ≤ month_length (civil_year d) (civil_month d).

(** The conversion on a non-negative day, with floor division and without
    the four centuries the calendar repeats in. *)
Definition shift_years (n : Z) (d : civil) : civil :=
  {| civil_year := civil_year d + n; civil_month := civil_month d; civil_day := civil_day d |}.
Definition civil_eqb (a b : civil) : bool :=
  (civil_year a =? civil_year b) && (civil_month a =? civil_month b)
  && (civil_day a =? civil_day b).
Lemma civil_eqb_eq a b : civil_eqb a b = true → a = b.
Proof.
  unfold civil_eqb. intros H. guards. destruct a, b; simpl in *. congruence.
Qed.

Lemma is_leap_shift y k : is_leap (y + 400 * k) = is_leap y.
Proof.
  unfold is_leap.
  replace ((y + 400 * k) mod 4) with (y mod 4)
    by (replace (400 * k) with (100 * k * 4) by lia; by rewrite Z.mod_add).
  replace ((y + 400 * k) mod 100) with (y mod 100)
    by (replace (400 * k) with (4 * k * 100) by lia; by rewrite Z.mod_add).
  replace ((y + 400 * k) mod 400) with (y mod 400)
    by (replace (400 * k) with (k * 400) by lia; by rewrite Z.mod_add).
  done.
Qed.
Lemma month_length_shift y k m : month_length (y + 400 * k) m = month_length y m.
Proof. unfold month_length. by rewrite is_leap_shift. Qed.
Lemma next_day_shift k d : next_day (shift_years (400 * k) d) = shift_years (400 * k) (next_day d).
Proof.
  unfold next_day, shift_years. simpl. rewrite month_length_shift.
  repeat case_match; simpl; try done. f_equal. lia.
Qed.

(** Day [doe] of era zero, which starts on 1 March of the year 0. *)
Definition era_day (doe : Z) : civil := civil_from_days (doe - 719468).
Lemma civil_era n : 0 ≤ n + 719468 →
  civil_from_days n =
    shift_years (400 * ((n + 719468) / 146097)) (era_day ((n + 719468) mod 146097)).
Proof.
  intros Hn. set (z := n + 719468) in *.
  pose proof (Z.mod_pos_bound z 146097) as Hm. pose proof (Z.div_mod z 146097) as Hd.
  unfold era_day, civil_from_days, shift_years. fold z.
  replace (z mod 146097 - 719468 + 719468) with (z mod 146097) by lia.
  rewrite (proj2 (Z.leb_le 0 z)), (proj2 (Z.leb_le 0 (z mod 146097))) by lia.
  rewrite (Z.quot_small (z mod 146097) 146097) by lia.
  rewrite (Z.quot_div_nonneg z 146097) by lia.
  replace (z - z / 146097 * 146097) with (z mod 146097) by lia.
  replace (z mod 146097 - 0 * 146097) with (z mod 146097) by lia.
  simpl. f_equal. lia.
Qed.

(** The whole era, day by day: a finite computation. *)
Fixpoint check_days (fuel : nat) (doe : Z) (d : civil) : bool :=
  match fuel with
  | O => true
  | S fuel => let d' := era_day (doe + 1) in civil_eqb d' (next_day d) && check_days fuel (doe + 1) d'
  end.
Lemma check_days_correct fuel : ∀ doe, check_days fuel doe (era_day doe) = true →
  ∀ k, doe ≤ k < doe + Z.of_nat fuel → era_day (k + 1) = next_day (era_day k).
Proof.
  induction fuel as [|fuel IH]; intros doe Hc k Hk; [lia|]. simpl in Hc.
  apply andb_true_iff in Hc as [He Hc]. destruct (decide (k = doe)) as [->|Hne].
  - by apply civil_eqb_eq.
  - apply (IH (doe + 1)); [done|lia].
Qed.
Lemma era_days k : 0 ≤ k < 146096 → era_day (k + 1) = next_day (era_day k).
Proof.
  intros Hk. apply (check_days_correct (Z.to_nat 146096) 0); [by vm_compute|].
  rewrite Z2Nat.id; lia.
Qed.

Lemma civil_next n : 0 ≤ n + 719468 → civil_from_days (n + 1) = next_day (civil_from_days n).
Proof.
  intros Hn. rewrite (civil_era n), next_day_shift, (civil_era (n + 1)) by lia.
  pose proof (Z.mod_pos_bound (n + 719468) 146097 ltac:(lia)) as Hm.
  pose proof (Z.div_mod (n + 719468) 146097 ltac:(lia)) as Hd.
  set (q := (n + 719468) / 146097) in *. set (r := (n + 719468) mod 146097) in *.
  destruct (decide (r = 146096)) as [Hr|Hr].
  - rewrite <-(Z.div_unique (n + 1 + 719468) 146097 (q + 1) 0) by lia.
    rewrite <-(Z.mod_unique (n + 1 + 719468) 146097 (q + 1) 0) by lia.
    rewrite Hr. replace (next_day (era_day 146096)) with (shift_years 400 (era_day 0))
      by (by vm_compute).
    unfold shift_years. simpl. f_equal. lia.
  - rewrite <-(Z.div_unique (n + 1 + 719468) 146097 q (r + 1)) by lia.
    rewrite <-(Z.mod_unique (n + 1 + 719468) 146097 q (r + 1)) by lia.
    by rewrite era_days by lia.
Qed.

Lemma civil_days_iter n : civil_from_days (Z.of_nat n) = Nat.iter n next_day epoch.
Proof.
  induction n as [|n IH]; [by vm_compute|].
  rewrite Nat2Z.inj_succ, <-Z.add_1_r, civil_next by lia. by rewrite IH.
Qed.
Lemma next_day_valid d : valid_date d → valid_date (next_day d).
Proof.
  intros [Hm Hd]. unfold valid_date, next_day.
  destruct (_ <? _) eqn:H1; guards; simpl; [lia|].
  assert (∀ y m, 28 ≤ month_length y m) as Hl by (intros; unfold month_length; repeat case_match; lia).
  destruct (_ <? 12) eqn:H2; guards; simpl; (split; [lia|]);
    match goal with |- context[month_length ?y ?m] => specialize (Hl y m) end; lia.
Qed.
Lemma iter_valid n : valid_date (Nat.iter n next_day epoch).
Proof.
  induction n as [|n IH]; simpl; [|by apply next_day_valid].
  unfold valid_date. simpl. split; [lia|]. by vm_compute.
Qed.

(** ** The text *)
Lemma zeros_length n : String.length (zeros n) = n.
Proof. induction n as [|n IH]; simpl; [done|by rewrite IH]. Qed.
Lemma string_app_length (a b : string) :
  String.length (a +:+ b) = (String.length a + String.length b)%nat.
Proof. induction a as [|c a IH]; simpl; [done|]. by rewrite IH. Qed.
Lemma pad_length width n : (width ≤ String.length (pad width n))%nat.
Proof. unfold pad. rewrite string_app_length, zeros_length. lia. Qed.
Lemma contains_app a b c : str_contains b c = true → str_contains (a +:+ b) c = true.
Proof. intros Hb. induction a as [|x a IH]; simpl; [done|]. rewrite IH. apply orb_true_r. Qed.
Lemma ends_with_app_l a b c : ends_with b c = true → ends_with (a +:+ b) c = true.
Proof. intros Hb. induction a as [|x a IH]; simpl; [done|]. rewrite IH. apply orb_true_r. Qed.
Lemma rfc3339_parses y mo d h mi s :
  let text := pad 4 y +:+ "-" +:+ pad 2 mo +:+ "-" +:+ pad 2 d +:+ "T" +:+ pad 2 h +:+ ":"
    +:+ pad 2 mi +:+ ":" +:+ pad 2 s +:+ "Z" in
  Timestamp_parse text = Ok {| Timestamp_as_str := text |}.
Proof.
  intros text. unfold Timestamp_parse.
  assert (20 ≤ str_len text) as Hlen.
  { unfold str_len, text. rewrite !string_app_length. simpl String.length.
    pose proof (pad_length 4 y). pose proof (pad_length 2 mo). pose proof (pad_length 2 d).
    pose proof (pad_length 2 h). pose proof (pad_length 2 mi). pose proof (pad_length 2 s). lia. }
  rewrite (proj2 (Z.ltb_ge _ _)) by done.
  assert (str_contains text "T" = true) as ->.
  { unfold text. do 5 apply contains_app. simpl. by destruct (pad 2 h +:+ _). }
  assert (ends_with text "Z" = true) as ->; [|done].
  unfold text. do 11 apply ends_with_app_l. done.
Qed.

(** The ledger's timestamps are right: the date they show is the one
    the Gregorian calendar reaches from 1 January 1970 by counting days one
    by one (month lengths and leap years included), the time of day is the
    remainder, and the text is one [Timestamp::parse] accepts. *)
Theorem utc_timestamp_correct (seconds : u64) :
  is_u64 seconds →
  let date := Nat.iter (Z.to_nat (seconds / 86400)) next_day epoch in
  ∃ h m s, valid_date date ∧ 0 ≤ h < 24 ∧ 0 ≤ m < 60 ∧ 0 ≤ s < 60 ∧
    seconds = seconds / 86400 * 86400 + h * 3600 + m * 60 + s ∧
    utc_rfc3339 seconds =
      pad 4 (civil_year date) +:+ "-" +:+ pad 2 (civil_month date) +:+ "-" +:+ pad 2 (civil_day date)
        +:+ "T" +:+ pad 2 h +:+ ":" +:+ pad 2 m +:+ ":" +:+ pad 2 s +:+ "Z" ∧
    Timestamp_parse (utc_rfc3339 seconds) = Ok {| Timestamp_as_str := utc_rfc3339 seconds |}.
Proof.
  intros [Hs _] date. exists (seconds mod 86400 / 3600), (seconds mod 86400 mod 3600 / 60),
    (seconds mod 86400 mod 60).
  pose proof (Z.div_pos seconds 86400 Hs ltac:(lia)) as Hd.
  split_and!; [apply iter_valid|Z.to_euclidean_division_equations; lia..| |apply rfc3339_parses].
  unfold utc_rfc3339, date. by rewrite <-civil_days_iter, Z2Nat.id by done.
Qed.

Module CivilExamples.
Lemma utc_timestamp_correct_witness :
  utc_rfc3339 1709210096 = "2024-02-29T12:34:56Z" ∧
  ∃ h m s, 1709210096 = 1709210096 / 86400 * 86400 + h * 3600 + m * 60 + s.
Proof.
  split; [by vm_compute|].
  destruct (utc_timestamp_correct 1709210096) as (h&m&s&_&_&_&_&He&_); [unfold is_u64, u64_max; lia|].
  exact (ex_intro _ h (ex_intro _ m (ex_intro _ s He))).
Defined.
End CivilExamples.
