(* ===== verification/Ledger.v ===== *)
(** * The encrypted event ledger ([crates/ledger/src/sqlcipher.rs])

    Rows of the [events] table, in insertion order, with the columns the
    statements read and write; the other tables of the database belong to
    [Lifecycle].  Payloads are redacted before they are stored.  The parser
    [serde_json::from_str] is a parameter, and so is the answer of SQLite's
    [PRAGMA quick_check]; opening a database (keys, files, migrations) is
    input/output and not modelled. *)

From S2P Require Import Prelude Extern Ids Event Ordering Memory BlobStore Redaction.
From Stdlib Require Import ZArith Lia.
From stdpp Require Import sorting prelude gmap strings pretty.

(** [serde_json::from_str::<Value>], its error as the text it displays. *)
Class JsonParse `{SerdeJson} : Type := value_from_str : string → result string Value.

Definition i64_max : Z := 9223372036854775807.

Inductive LedgerError :=
| KeyMismatch | KeyUnavailable | MigrationFailedReadOnly | RedactionLimitExceeded
| DuplicateConflict | SequenceViolation | LedgerDatabase | LedgerIo
| InvalidPayload (message : string)
| LedgerIntegrityFailed (message : string).
#[export] Instance LedgerError_eq_dec : EqDecision LedgerError.
Proof. solve_decision. Defined.

Record LedgerIntegrityReport := {
  LedgerIntegrityReport_event_count : u64;
  LedgerIntegrityReport_last_committed_sequence : u64;
  LedgerIntegrityReport_recovery_required : bool;
  LedgerIntegrityReport_reason : option string;
}.

(** A row of [events]. *)
Record EventRow := {
  EventRow_mission_id : string;
  EventRow_route_id : string;
  EventRow_sequence : Z;
  EventRow_event_id : string;
  EventRow_schema_version : Z;
  EventRow_kind : string;
  EventRow_occurred_at : string;
  EventRow_payload : string;
  EventRow_raw_evidence : option string;
  EventRow_payload_hash : string;
}.
#[export] Instance EventRow_eq_dec : EqDecision EventRow.
Proof. solve_decision. Defined.

(** Rows of [mission_lifecycle] and [lifecycle_audit]. *)
Record LifecycleRow := {
  LifecycleRow_archived : bool;
  LifecycleRow_deleted : bool;
  LifecycleRow_archived_at : option string;
  LifecycleRow_archive_plan_hash : option string;
}.
Record AuditRow := {
  AuditRow_receipt_id : string;
  AuditRow_operation : string;
  AuditRow_mission_id : string;
  AuditRow_plan_hash : string;
  AuditRow_created_at : string;
  AuditRow_receipt_json : string;
}.

Record EncryptedLedger := {
  EncryptedLedger_redactor : Redactor;
  EncryptedLedger_events : list EventRow;
  EncryptedLedger_blob_refs : gmap string BlobRow;
  EncryptedLedger_mission_blob_refs : gmap (MissionId * string) (u64 * string);
  EncryptedLedger_lifecycle : gmap string LifecycleRow;
  EncryptedLedger_audit : list AuditRow;
}.
(** What [open] leaves of a new database. *)
Definition EncryptedLedger_new : EncryptedLedger := {|
  EncryptedLedger_redactor := Redactor_default; EncryptedLedger_events := [];
  EncryptedLedger_blob_refs := ∅; EncryptedLedger_mission_blob_refs := ∅;
  EncryptedLedger_lifecycle := ∅; EncryptedLedger_audit := [] |}.
Definition set_events (rows : list EventRow) (self : EncryptedLedger) : EncryptedLedger := {|
  EncryptedLedger_redactor := EncryptedLedger_redactor self; EncryptedLedger_events := rows;
  EncryptedLedger_blob_refs := EncryptedLedger_blob_refs self;
  EncryptedLedger_mission_blob_refs := EncryptedLedger_mission_blob_refs self;
  EncryptedLedger_lifecycle := EncryptedLedger_lifecycle self;
  EncryptedLedger_audit := EncryptedLedger_audit self |}.

Definition by_mission (mission : string) (rows : list EventRow) : list EventRow :=
  filter (λ row, EventRow_mission_id row = mission) rows.
(** [ORDER BY sequence]. *)
Definition order_by_sequence (rows : list EventRow) : list EventRow :=
  sort_cmp (λ l r, Z.compare (EventRow_sequence l) (EventRow_sequence r)) rows.
(** [ORDER BY mission_id, sequence]. *)
Definition row_cmp (l r : EventRow) : comparison :=
  then_with (str_cmp (EventRow_mission_id l) (EventRow_mission_id r))
            (Z.compare (EventRow_sequence l) (EventRow_sequence r)).
(** [SELECT sequence .. ORDER BY sequence DESC LIMIT 1]. *)
Definition last_sequence (mission : string) (rows : list EventRow) : option Z :=
  EventRow_sequence <$> last (order_by_sequence (by_mission mission rows)).

Section ledger.
Context `{SerdeJson, Sha256, UuidText, RegexCrate, !JsonParse}.

Record PreparedEvent := {
  PreparedEvent_event : EventEnvelope;
  PreparedEvent_sequence : Z;
  PreparedEvent_payload : string;
  PreparedEvent_raw_evidence : option string;
  PreparedEvent_payload_hash : string;
}.

Definition persisted_payload_hash (payload : Value) : string := sha256_hex (to_vec payload).

Definition redact (redactor : Redactor) (value : Value) : result LedgerError Value :=
  match redact_event redactor value with
  | Ok redacted => Ok (RedactionResult_value redacted)
  | Err _ => Err RedactionLimitExceeded
  end.

(** The part of [append], and the loop body of [append_batch], that comes
    before the transaction. *)
Definition prepare_event (redactor : Redactor) (event : EventEnvelope)
    : result LedgerError PreparedEvent :=
  if negb (has_valid_payload_hash event)
  then Err (InvalidPayload "event payload hash does not match payload") else
  sequence ← (if (EventEnvelope_sequence event <=? i64_max)%Z
              then Ok (EventEnvelope_sequence event) else Err SequenceViolation);
  redacted ← redact redactor (EventEnvelope_payload event);
  raw_evidence ← (match EventEnvelope_raw_evidence event with
                  | None => Ok None
                  | Some value => r ← redact redactor value; Ok (Some (to_vec r))
                  end);
  Ok {| PreparedEvent_event := event; PreparedEvent_sequence := sequence;
        PreparedEvent_payload := to_vec redacted; PreparedEvent_raw_evidence := raw_evidence;
        PreparedEvent_payload_hash := persisted_payload_hash redacted |}.

Definition prepared_row (p : PreparedEvent) : EventRow :=
  let event := PreparedEvent_event p in {|
  EventRow_mission_id := uuid_to_string (EventEnvelope_mission_id event);
  EventRow_route_id := uuid_to_string (EventEnvelope_route_id event);
  EventRow_sequence := PreparedEvent_sequence p;
  EventRow_event_id := uuid_to_string (EventEnvelope_event_id event);
  EventRow_schema_version := EventEnvelope_schema_version event;
  EventRow_kind := EventKind_as_str (EventEnvelope_kind event);
  EventRow_occurred_at := Timestamp_as_str (EventEnvelope_occurred_at event);
  EventRow_payload := PreparedEvent_payload p;
  EventRow_raw_evidence := PreparedEvent_raw_evidence p;
  EventRow_payload_hash := PreparedEvent_payload_hash p |}.

(** [SELECT .. FROM events WHERE event_id = ?1]. *)
Definition find_event (event_id : string) (rows : list EventRow) : option EventRow :=
  find (λ row, str_eqb (EventRow_event_id row) event_id) rows.
(** The eight columns compared with a row that has the same event id. *)
Definition equivalent_row (existing row : EventRow) : bool :=
  str_eqb (EventRow_mission_id existing) (EventRow_mission_id row)
  && (EventRow_sequence existing =? EventRow_sequence row)%Z
  && str_eqb (EventRow_payload_hash existing) (EventRow_payload_hash row)
  && bool_decide (EventRow_raw_evidence existing = EventRow_raw_evidence row)
  && (EventRow_schema_version existing =? EventRow_schema_version row)%Z
  && str_eqb (EventRow_route_id existing) (EventRow_route_id row)
  && str_eqb (EventRow_kind existing) (EventRow_kind row)
  && str_eqb (EventRow_occurred_at existing) (EventRow_occurred_at row).

(** The statements of one event inside the transaction. *)
Definition insert_prepared (p : PreparedEvent) (rows : list EventRow)
    : result LedgerError (list EventRow) :=
  let row := prepared_row p in
  let last := last_sequence (EventRow_mission_id row) rows in
  match find_event (EventRow_event_id row) rows with
  | Some existing => if equivalent_row existing row then Ok rows else Err DuplicateConflict
  | None =>
      if match last with
         | None => negb (EventRow_sequence row =? 1)%Z
         | Some previous => negb (EventRow_sequence row =? previous + 1)%Z
         end
      then Err SequenceViolation else Ok (rows ++ [row])
  end.

Definition encrypted_append (event : EventEnvelope) : stm EncryptedLedger LedgerError unit := λ self,
  match p ← prepare_event (EncryptedLedger_redactor self) event;
        insert_prepared p (EncryptedLedger_events self) with
  | Ok rows => (set_events rows self, Ok tt)
  | Err error => (self, Err error)
  end.

(** The transaction of [append_batch]. *)
Fixpoint insert_all (prepared : list PreparedEvent) (rows : list EventRow)
    : result LedgerError (list EventRow) :=
  match prepared with
  | [] => Ok rows
  | item :: prepared => rows ← insert_prepared item rows; insert_all prepared rows
  end.
Definition append_batch (events : list EventEnvelope) : stm EncryptedLedger LedgerError unit := λ self,
  if is_empty events then (self, Ok tt) else
  match prepared ← mapM (prepare_event (EncryptedLedger_redactor self)) events;
        insert_all prepared (EncryptedLedger_events self) with
  | Ok rows => (set_events rows self, Ok tt)
  | Err error => (self, Err error)
  end.

(** [replay]: the row type's [as u64] cast is the identity on the sequences
    the table holds. *)
Definition ledger_replay_rows (mission_id : string) (self : EncryptedLedger)
    : list (u64 * string * string) :=
  (λ row, ((EventRow_sequence row mod (u64_max + 1))%Z, EventRow_kind row, EventRow_payload row)) <$>
    order_by_sequence (by_mission mission_id (EncryptedLedger_events self)).

Definition decode_row (mission_id : MissionId) (row : EventRow) : result LedgerError EventEnvelope :=
  payload ← map_err (λ _, LedgerDatabase) (value_from_str (EventRow_payload row));
  event_id ← ok_or LedgerDatabase (uuid_parse_str (EventRow_event_id row));
  route_id ← ok_or LedgerDatabase (uuid_parse_str (EventRow_route_id row));
  sequence ← (if (0 <=? EventRow_sequence row)%Z then Ok (EventRow_sequence row)
              else Err LedgerDatabase);
  let event := EventEnvelope_new event_id mission_id route_id sequence
                 (EventKind_visit_str (EventRow_kind row)) payload in
  schema_version ← (if (0 <=? EventRow_schema_version row)%Z
                       && (EventRow_schema_version row <=? 65535)%Z
                    then Ok (EventRow_schema_version row) else Err LedgerDatabase);
  occurred_at ← map_err (λ _, LedgerDatabase) (Timestamp_parse (EventRow_occurred_at row));
  raw_evidence ← (match EventRow_raw_evidence row with
                  | None => Ok None
                  | Some value => v ← map_err (λ _, LedgerDatabase) (value_from_str value); Ok (Some v)
                  end);
  Ok {| EventEnvelope_event_id := EventEnvelope_event_id event;
        EventEnvelope_schema_version := schema_version;
        EventEnvelope_mission_id := EventEnvelope_mission_id event;
        EventEnvelope_route_id := EventEnvelope_route_id event;
        EventEnvelope_agent_run_id := EventEnvelope_agent_run_id event;
        EventEnvelope_sequence := EventEnvelope_sequence event;
        EventEnvelope_occurred_at := occurred_at;
        EventEnvelope_source := EventEnvelope_source event;
        EventEnvelope_confidence := EventEnvelope_confidence event;
        EventEnvelope_kind := EventEnvelope_kind event;
        EventEnvelope_payload := EventEnvelope_payload event;
        EventEnvelope_raw_evidence := raw_evidence;
        EventEnvelope_payload_hash := EventRow_payload_hash row;
        EventEnvelope_correlation_id := EventEnvelope_correlation_id event;
        EventEnvelope_causation_id := EventEnvelope_causation_id event;
        EventEnvelope_links := EventEnvelope_links event |}.

Definition hash_mismatch (mission : string) (sequence : u64) : LedgerError :=
  LedgerIntegrityFailed ("payload hash mismatch for mission " +:+ mission +:+ " sequence "
    +:+ pretty sequence).
Fixpoint verify_hashes (mission_id : MissionId) (events : list EventEnvelope)
    : result LedgerError unit :=
  match events with
  | [] => Ok tt
  | event :: events =>
      if negb (has_valid_payload_hash event)
      then Err (hash_mismatch (uuid_to_string mission_id) (EventEnvelope_sequence event))
      else verify_hashes mission_id events
  end.
Definition replay_events (mission_id : MissionId) (self : EncryptedLedger)
    : result LedgerError (list EventEnvelope) :=
  events ← mapM (decode_row mission_id)
    (order_by_sequence (by_mission (uuid_to_string mission_id) (EncryptedLedger_events self)));
  _ ← verify_hashes mission_id events;
  Ok events.

(** [SELECT DISTINCT mission_id FROM events ORDER BY mission_id], parsed. *)
Definition mission_ids (self : EncryptedLedger) : result LedgerError (list MissionId) :=
  mapM (λ text, ok_or LedgerDatabase (uuid_parse_str text))
    (sort_cmp str_cmp (remove_dups (EventRow_mission_id <$> EncryptedLedger_events self))).

(** The loop of [integrity_report]. *)
Fixpoint integrity_loop (rows : list EventRow) (current_mission : string)
    (expected count last : u64) : result LedgerError LedgerIntegrityReport :=
  match rows with
  | [] => Ok {| LedgerIntegrityReport_event_count := count;
                LedgerIntegrityReport_last_committed_sequence := last;
                LedgerIntegrityReport_recovery_required := false;
                LedgerIntegrityReport_reason := None |}
  | row :: rows =>
      let mission := EventRow_mission_id row in
      let sequence := EventRow_sequence row in
      if negb (0 <=? sequence)%Z then Err (LedgerIntegrityFailed "negative sequence") else
      match value_from_str (EventRow_payload row) with
      | Err error => Err (LedgerIntegrityFailed ("invalid payload for mission " +:+ mission
                       +:+ " sequence " +:+ pretty sequence +:+ ": " +:+ error))
      | Ok payload =>
          if negb (str_eqb (persisted_payload_hash payload) (EventRow_payload_hash row))
          then Err (hash_mismatch mission sequence) else
          let expected := if negb (str_eqb mission current_mission) then 1%Z else expected in
          if negb (sequence =? expected)%Z
          then Err (LedgerIntegrityFailed ("sequence gap for mission at expected "
                 +:+ pretty expected +:+ ", found " +:+ pretty sequence)) else
          integrity_loop rows mission (saturating_add u64_max expected 1)
            (saturating_add u64_max count 1) (Z.max last sequence)
      end
  end.
Definition integrity_report (quick_check : string) (self : EncryptedLedger)
    : result LedgerError LedgerIntegrityReport :=
  if negb (str_eqb (to_ascii_lowercase quick_check) "ok")
  then Err (LedgerIntegrityFailed quick_check)
  else integrity_loop (sort_cmp row_cmp (EncryptedLedger_events self)) "" 1 0 0.

(** ** What is stored of an event *)

(** The event a stored row reads back as: the payload and the raw evidence
    redacted, the digest recomputed, and the columns the table does not have
    at their defaults. *)
Definition persisted (event : EventEnvelope) (payload : Value) (raw : option Value)
    : EventEnvelope := {|
  EventEnvelope_event_id := EventEnvelope_event_id event;
  EventEnvelope_schema_version := EventEnvelope_schema_version event;
  EventEnvelope_mission_id := EventEnvelope_mission_id event;
  EventEnvelope_route_id := EventEnvelope_route_id event;
  EventEnvelope_agent_run_id := None;
  EventEnvelope_sequence := EventEnvelope_sequence event;
  EventEnvelope_occurred_at := EventEnvelope_occurred_at event;
  EventEnvelope_source := SourceSupervisor;
  EventEnvelope_confidence := Observed;
  EventEnvelope_kind := EventKind_visit_str (EventKind_as_str (EventEnvelope_kind event));
  EventEnvelope_payload := payload;
  EventEnvelope_raw_evidence := raw;
  EventEnvelope_payload_hash := payload_hash payload;
  EventEnvelope_correlation_id := None;
  EventEnvelope_causation_id := None;
  EventEnvelope_links := EventLinks_default |}.

(** Events whose columns read back: the fields are in the range of their
    types, the timestamp is one its parser accepts, and the JSON text of what
    is stored parses back to the same value (as it does unless a number loses
    precision). *)
Record storable (redactor : Redactor) (event : EventEnvelope) : Prop := {
  storable_sequence : (0 ≤ EventEnvelope_sequence event)%Z;
  storable_version : (0 ≤ EventEnvelope_schema_version event ≤ 65535)%Z;
  storable_time : Timestamp_parse (Timestamp_as_str (EventEnvelope_occurred_at event)) =
    Ok (EventEnvelope_occurred_at event);
  storable_payload p : redact redactor (EventEnvelope_payload event) = Ok p →
    value_from_str (to_vec p) = Ok p;
  storable_raw v p : EventEnvelope_raw_evidence event = Some v → redact redactor v = Ok p →
    value_from_str (to_vec p) = Ok p;
}.

(** A row and the event it reads back as. *)
Record row_event (row : EventRow) (e : EventEnvelope) : Prop := {
  row_event_mission : EventRow_mission_id row = uuid_to_string (EventEnvelope_mission_id e);
  row_event_id : EventRow_event_id row = uuid_to_string (EventEnvelope_event_id e);
  row_event_sequence : EventRow_sequence row = EventEnvelope_sequence e;
  row_event_range : (EventRow_sequence row ≤ i64_max)%Z;
  row_event_decodes : decode_row (EventEnvelope_mission_id e) row = Ok e;
  row_event_hash : has_valid_payload_hash e = true;
  row_event_parses : value_from_str (EventRow_payload row) = Ok (EventEnvelope_payload e) ∧
    EventRow_payload_hash row = persisted_payload_hash (EventEnvelope_payload e);
}.

Context `{!UuidTextLaws}.

Lemma prepare_row redactor event p :
  storable redactor event → prepare_event redactor event = Ok p →
  ∃ payload raw, redact redactor (EventEnvelope_payload event) = Ok payload ∧
    match EventEnvelope_raw_evidence event with
    | None => raw = None
    | Some v => ∃ r, redact redactor v = Ok r ∧ raw = Some r
    end ∧
    row_event (prepared_row p) (persisted event payload raw).
Proof.
  intros [Hseq Hver Htime Hpay Hraw]. unfold prepare_event.
  destruct (negb _); [done|]. intros Hp.
  apply result_bind_Ok in Hp as (sq&Hsq&Hp). apply result_bind_Ok in Hp as (x0&Hpl&Hp).
  apply result_bind_Ok in Hp as (x1&Hre&Hp).
  destruct (_ <=? _)%Z eqn:Hle in Hsq; [|done]. injection Hsq as <-.
  injection Hp as <-. pose proof (Hpay _ Hpl) as Hparse.
  assert (∃ raw, match EventEnvelope_raw_evidence event with
    | None => raw = None
    | Some v => ∃ r, redact redactor v = Ok r ∧ raw = Some r end ∧
    match x1 with
    | None => Ok None
    | Some value => v ← map_err (λ _ : string, LedgerDatabase) (value_from_str value); Ok (Some v)
    end = Ok raw) as (raw&Hr1&Hr2).
  { destruct (EventEnvelope_raw_evidence event) as [v|] eqn:Hv; simpl in Hre.
    - apply result_bind_Ok in Hre as (x2&Hx2&[= <-]). exists (Some x2). split; [eauto|].
      by rewrite (Hraw v x2).
    - injection Hre as <-. by exists None. }
  guards. exists x0, raw. split_and!; [done|done|]. split; simpl; try done.
  - unfold decode_row. simpl. rewrite Hparse. simpl. rewrite !uuid_parse_to_string. simpl.
    rewrite (proj2 (Z.leb_le 0 _)) by lia. simpl.
    rewrite (proj2 (Z.leb_le 0 _)), (proj2 (Z.leb_le _ 65535)) by lia. simpl.
    rewrite Htime. cbn [map_err mbind result_bind]. rewrite Hr2. done.
  - apply String.eqb_refl.
Qed.

(** ** The invariant of the table *)

(** The rows of every mission are numbered from one without gaps, in the
    order they were inserted, and every row reads back. *)
Definition numbered (l : list EventRow) : Prop :=
  EventRow_sequence <$> l = Z.of_nat <$> seq 1 (length l).
Record rows_inv (rows : list EventRow) : Prop := {
  rows_inv_numbered m : numbered (by_mission m rows);
  rows_inv_event row : row ∈ rows → ∃ e, row_event row e;
}.

Lemma numbered_lookup l i row :
  numbered l → l !! i = Some row → EventRow_sequence row = Z.of_nat (S i).
Proof.
  intros Hn Hi. assert ((EventRow_sequence <$> l) !! i = Some (EventRow_sequence row)) as Hs
    by (by rewrite list_lookup_fmap, Hi).
  rewrite Hn, list_lookup_fmap in Hs.
  rewrite lookup_seq_lt in Hs by (by eapply lookup_lt_Some). by injection Hs as <-.
Qed.
Lemma numbered_snoc l row :
  numbered l → EventRow_sequence row = Z.of_nat (S (length l)) → numbered (l ++ [row]).
Proof.
  unfold numbered. intros Hn Hr. rewrite fmap_app, Hn, length_app, seq_app, fmap_app. simpl.
  by rewrite Hr.
Qed.
Lemma numbered_prefix l row : numbered (l ++ [row]) → numbered l.
Proof.
  unfold numbered. rewrite fmap_app, length_app, seq_app, fmap_app. intros Hn.
  apply app_inj_1 in Hn as [? _]; [done|]. by rewrite !length_fmap, length_seq.
Qed.
Lemma numbered_sorted l : numbered l →
  StronglySorted (cmp_le (λ a b, Z.compare (EventRow_sequence a) (EventRow_sequence b))) l.
Proof.
  induction l as [|row l IH] using rev_ind; intros Hn; [constructor|].
  apply StronglySorted_app_2; [|by eapply IH, numbered_prefix|repeat constructor].
  intros x y Hx Hy. apply list_elem_of_singleton in Hy as ->.
  apply list_elem_of_lookup_1 in Hx as [i Hi]. pose proof (lookup_lt_Some _ _ _ Hi) as Hlt.
  pose proof (numbered_lookup _ i x Hn (lookup_app_l_Some _ _ _ _ Hi)) as Hsx.
  pose proof (numbered_lookup _ (length l) row Hn (list_lookup_middle l [] row (length l) eq_refl)) as Hsr.
  unfold cmp_le. rewrite Hsx, Hsr. case_match; [done..|].
  match goal with E : (_ ?= _)%Z = Gt |- _ => apply Z.compare_gt_iff in E end. lia.
Qed.
Lemma numbered_ordered l : numbered l → order_by_sequence l = l.
Proof. intros Hn. by apply sort_by_sorted_id, numbered_sorted. Qed.

Lemma last_sequence_numbered m rows :
  numbered (by_mission m rows) →
  last_sequence m rows =
    match by_mission m rows with [] => None | l => Some (Z.of_nat (length l)) end.
Proof.
  intros Hn. unfold last_sequence. rewrite numbered_ordered by done.
  destruct (by_mission m rows) as [|r l] eqn:Hl using rev_ind; [done|].
  clear IHl. rewrite last_snoc. simpl.
  pose proof (numbered_lookup _ (length l) r Hn (list_lookup_middle l [] r (length l) eq_refl)) as ->.
  destruct l as [|r0 l]; simpl; [done|]. rewrite length_app. simpl. do 2 f_equal. lia.
Qed.

Lemma by_mission_snoc m rows row :
  by_mission m (rows ++ [row]) =
    by_mission m rows ++ (if decide (EventRow_mission_id row = m) then [row] else []).
Proof. unfold by_mission. by rewrite filter_app, filter_cons, filter_nil. Qed.

(** [insert_prepared] succeeds by recognising an equivalent row or by adding
    the next one of its mission. *)
Lemma insert_prepared_Ok p rows rows' :
  rows_inv rows → insert_prepared p rows = Ok rows' →
  let row := prepared_row p in
  (∃ existing, existing ∈ rows ∧ EventRow_event_id existing = EventRow_event_id row ∧
    equivalent_row existing row = true ∧ rows' = rows) ∨
  ((∀ r, r ∈ rows → EventRow_event_id r ≠ EventRow_event_id row) ∧
   EventRow_sequence row =
     Z.of_nat (S (length (by_mission (EventRow_mission_id row) rows))) ∧
   rows' = rows ++ [row]).
Proof.
  intros Hinv Hi row. unfold insert_prepared in Hi. fold row in Hi.
  destruct (find_event (EventRow_event_id row) rows) as [ex|] eqn:Hf.
  - left. destruct (equivalent_row ex row) eqn:Heq; [|done]. injection Hi as <-.
    unfold find_event in Hf. apply find_some in Hf as [Hin Hid]. guards.
    exists ex. split_and!; try done. by apply list_elem_of_In.
  - right. split.
    { intros r Hr Hid. apply list_elem_of_In in Hr.
      pose proof (find_none _ _ Hf r Hr) as Hn. simpl in Hn.
      rewrite Hid in Hn. unfold str_eqb in Hn. by rewrite String.eqb_refl in Hn. }
    rewrite last_sequence_numbered in Hi by apply Hinv.
    destruct (by_mission (EventRow_mission_id row) rows) as [|r l].
    + destruct (negb _) eqn:Hs; [done|]. guards. injection Hi as <-. by split.
    + destruct (negb _) eqn:Hs; [done|]. guards. injection Hi as <-. split; [|done].
      rewrite Hs. lia.
Qed.

Lemma insert_prepared_inv redactor event p rows rows' :
  storable redactor event → prepare_event redactor event = Ok p →
  rows_inv rows → insert_prepared p rows = Ok rows' → rows_inv rows'.
Proof.
  intros Hst Hp Hinv Hi.
  destruct (prepare_row _ _ _ Hst Hp) as (payload&raw&_&_&Hrow).
  apply insert_prepared_Ok in Hi as [(ex&_&_&_&->)|(_&Hseq&->)]; [done| |done].
  destruct Hinv as [Hn He]. split.
  - intros m. rewrite by_mission_snoc. case_decide as Hm; [|by rewrite app_nil_r].
    apply numbered_snoc; [done|]. by rewrite <-Hm.
  - intros row [Hr|Hr]%elem_of_app; [by apply He|].
    apply list_elem_of_singleton in Hr as ->. eauto.
Qed.

(** ** The append methods keep it *)
Lemma rows_inv_nil : rows_inv [].
Proof. split; [done|]. intros row []%elem_of_nil. Qed.

Lemma set_events_same s : set_events (EncryptedLedger_events s) s = s.
Proof. by destruct s. Qed.

Lemma encrypted_append_Ok e s s' :
  encrypted_append e s = (s', Ok tt) ↔
  ∃ p rows, prepare_event (EncryptedLedger_redactor s) e = Ok p ∧
    insert_prepared p (EncryptedLedger_events s) = Ok rows ∧ s' = set_events rows s.
Proof.
  unfold encrypted_append. destruct (prepare_event _ e) as [p|err]; simpl.
  - destruct (insert_prepared p _) as [rows|err] eqn:Hi.
    + split; [intros [= <-]; eauto|]. intros (p'&rows'&[= <-]&Hi'&->). congruence.
    + split; [done|]. intros (p'&rows'&[= <-]&Hi'&_). congruence.
  - split; [done|]. by intros (p&rows&?&_).
Qed.
Lemma encrypted_append_Err e s s' err : encrypted_append e s = (s', Err err) → s' = s.
Proof. unfold encrypted_append. case_match; [done|]. by intros [= <- _]. Qed.

Lemma encrypted_append_inv e s :
  storable (EncryptedLedger_redactor s) e → rows_inv (EncryptedLedger_events s) →
  rows_inv (EncryptedLedger_events (encrypted_append e s).1).
Proof.
  intros Hst Hinv. destruct (encrypted_append e s) as [s' [[]|err]] eqn:Ha; simpl.
  - apply encrypted_append_Ok in Ha as (p&rows&Hp&Hi&->). by eapply insert_prepared_inv.
  - apply encrypted_append_Err in Ha as ->. done.
Qed.

(** A batch is its events appended one by one, or nothing at all. *)
Fixpoint append_each (events : list EventEnvelope) (s : EncryptedLedger) : option EncryptedLedger :=
  match events with
  | [] => Some s
  | e :: events =>
      match encrypted_append e s with
      | (s', Ok _) => append_each events s'
      | (_, Err _) => None
      end
  end.

Lemma insert_all_each redactor events prepared : ∀ s rows,
  EncryptedLedger_redactor s = redactor →
  Forall2 (λ e p, prepare_event redactor e = Ok p) events prepared →
  insert_all prepared (EncryptedLedger_events s) = Ok rows ↔
  append_each events s = Some (set_events rows s).
Proof.
  intros s rows Hr Hf. revert s rows Hr.
  induction Hf as [|e p events prepared Hp Hf IH]; intros s rows Hr; simpl.
  - split; [intros [= <-]; by rewrite set_events_same|].
    intros [= Hs]. by rewrite Hs at 1.
  - unfold encrypted_append. rewrite Hr, Hp. simpl.
    destruct (insert_prepared p _) as [rows1|err]; simpl; [|by split].
    exact (IH (set_events rows1 s) rows Hr).
Qed.
Lemma append_each_prepares events : ∀ s s',
  append_each events s = Some s' →
  EncryptedLedger_redactor s' = EncryptedLedger_redactor s ∧
  ∃ prepared, Forall2 (λ e p, prepare_event (EncryptedLedger_redactor s) e = Ok p) events prepared.
Proof.
  induction events as [|e events IH]; intros s s'; simpl.
  - intros [= <-]. split; [done|]. exists []. constructor.
  - destruct (encrypted_append e s) as [s1 [[]|err]] eqn:Ha; [|done].
    apply encrypted_append_Ok in Ha as (p&rows&Hp&_&->). intros Hs.
    destruct (IH _ _ Hs) as [Hr (ps&Hps)]. simpl in *. split; [done|].
    exists (p :: ps). by constructor.
Qed.

Lemma append_each_events events : ∀ s s',
  append_each events s = Some s' → ∃ rows, s' = set_events rows s.
Proof.
  induction events as [|e events IH]; intros s s'; simpl.
  - intros [= <-]. exists (EncryptedLedger_events s). by rewrite set_events_same.
  - destruct (encrypted_append e s) as [s1 [[]|err]] eqn:Ha; [|done].
    apply encrypted_append_Ok in Ha as (p&rows&_&_&->). intros Hs.
    destruct (IH _ _ Hs) as [rows' ->]. by exists rows'.
Qed.

Lemma append_batch_each events s s' :
  append_batch events s = (s', Ok tt) ↔ append_each events s = Some s'.
Proof.
  unfold append_batch. destruct events as [|e0 events0]; [simpl; split; by intros [= <-]|].
  set (events := e0 :: events0). change (is_empty events) with false. cbn [is_empty].
  destruct (mapM _ events) as [prepared|err] eqn:Hm; cbn [mbind result_bind].
  - apply mapM_Ok in Hm.
    destruct (insert_all prepared _) as [rows|err] eqn:Hi.
    + pose proof (proj1 (insert_all_each _ _ _ s rows eq_refl Hm) Hi) as ->. split; by intros [= <-].
    + split; [done|]. intros Hs. destruct (append_each_events _ _ _ Hs) as [rows ->].
      apply (insert_all_each _ _ _ s rows eq_refl Hm) in Hs. congruence.
  - split; [done|]. intros Hs. destruct (append_each_prepares _ _ _ Hs) as [_ (ps&Hps)].
    apply mapM_Ok in Hps. congruence.
Qed.
Lemma append_batch_Err events s s' err : append_batch events s = (s', Err err) → s' = s.
Proof. unfold append_batch. case_match; [done|]. case_match; [done|]. by intros [= <- _]. Qed.

(** A batch is atomic and means what its events mean one by one: it
    succeeds exactly when appending them one after another does, with the
    same ledger, and otherwise nothing is stored. *)
Theorem append_batch_atomic events s :
  (∀ s', append_batch events s = (s', Ok tt) ↔ append_each events s = Some s') ∧
  (∀ s' err, append_batch events s = (s', Err err) → s' = s).
Proof. split; [apply append_batch_each|apply append_batch_Err]. Qed.

Lemma append_each_inv events : ∀ s s',
  Forall (storable (EncryptedLedger_redactor s)) events → rows_inv (EncryptedLedger_events s) →
  append_each events s = Some s' → rows_inv (EncryptedLedger_events s').
Proof.
  induction events as [|e events IH]; intros s s' Hst Hinv; simpl; [by intros [= <-]|].
  apply Forall_cons in Hst as [He Hst].
  destruct (encrypted_append e s) as [s1 [[]|err]] eqn:Ha; [|done].
  pose proof (encrypted_append_inv e s He Hinv) as Hinv1. rewrite Ha in Hinv1.
  apply IH; [|done]. apply encrypted_append_Ok in Ha as (p&rows&_&_&->). done.
Qed.

Lemma batch_inv events s :
  Forall (storable (EncryptedLedger_redactor s)) events → rows_inv (EncryptedLedger_events s) →
  rows_inv (EncryptedLedger_events (append_batch events s).1).
Proof.
  intros Hst Hinv. destruct (append_batch events s) as [s' [[]|err]] eqn:Hb; simpl.
  - apply append_batch_each in Hb. by eapply append_each_inv.
  - apply append_batch_Err in Hb as ->. done.
Qed.

(** ** Replay *)
Definition replay_rows (mid : MissionId) (rows : list EventRow) : result LedgerError (list EventEnvelope) :=
  events ← mapM (decode_row mid) (order_by_sequence (by_mission (uuid_to_string mid) rows));
  _ ← verify_hashes mid events;
  Ok events.

Lemma verify_hashes_Ok mid es :
  Forall (λ e, has_valid_payload_hash e = true) es → verify_hashes mid es = Ok tt.
Proof. induction 1 as [|e es He _ IH]; simpl; [done|]. by rewrite He. Qed.

Lemma by_mission_events mid rows :
  rows_inv rows →
  ∃ es, Forall2 row_event (by_mission (uuid_to_string mid) rows) es ∧
    replay_rows mid rows = Ok es.
Proof.
  intros Hinv.
  assert (∃ es, Forall2 (λ row e, row_event row e ∧ decode_row mid row = Ok e)
    (by_mission (uuid_to_string mid) rows) es) as (es&Hf).
  { assert (∀ row, row ∈ by_mission (uuid_to_string mid) rows →
      EventRow_mission_id row = uuid_to_string mid ∧ ∃ e, row_event row e) as Hrow.
    { intros row. unfold by_mission. rewrite list_elem_of_filter. intros [Hm Hin].
      split; [done|]. by apply Hinv. }
    induction (by_mission _ rows) as [|row l IH]; [by exists []|].
    destruct IH as (es&Hes); [intros r Hr; apply Hrow; by right|].
    destruct (Hrow row) as (Hm&e&He); [by left|]. exists (e :: es). constructor; [|done].
    split; [done|]. rewrite <-(row_event_decodes _ _ He). f_equal.
    apply (inj uuid_to_string). by rewrite <-(row_event_mission _ _ He). }
  exists es. split; [eapply Forall2_impl; [exact Hf|]; by intros ? ? []|].
  unfold replay_rows. rewrite numbered_ordered by apply Hinv.
  assert (mapM (decode_row mid) (by_mission (uuid_to_string mid) rows) = Ok es) as ->
    by (apply mapM_Ok; eapply Forall2_impl; [exact Hf|]; by intros ? ? []).
  simpl. rewrite verify_hashes_Ok; [done|].
  eapply Forall2_Forall_r; [exact Hf|]. apply Forall_forall. intros row _ e [He _]. apply He.
Qed.

Lemma replay_rows_snoc mid rows row e es :
  rows_inv rows → rows_inv (rows ++ [row]) → row_event row e →
  EventEnvelope_mission_id e = mid →
  replay_rows mid rows = Ok es → replay_rows mid (rows ++ [row]) = Ok (es ++ [e]).
Proof.
  intros Hinv Hinv' He Hm Hes. unfold replay_rows in *.
  rewrite numbered_ordered in Hes |- * by (apply Hinv || apply Hinv').
  rewrite by_mission_snoc, decide_True by (rewrite (row_event_mission _ _ He); congruence).
  apply result_bind_Ok in Hes as (es'&Hd&Hes). apply result_bind_Ok in Hes as ([]&Hv&[= ->]).
  apply mapM_Ok in Hd.
  assert (mapM (decode_row mid) (by_mission (uuid_to_string mid) rows ++ [row]) = Ok (es ++ [e])) as ->.
  { apply mapM_Ok, Forall2_app; [done|]. constructor; [|constructor].
    rewrite <-Hm. apply He. }
  cbn [mbind result_bind]. rewrite verify_hashes_Ok; [done|]. apply Forall_app. split.
  - clear -Hv. induction es as [|x es IH]; [constructor|]. simpl in Hv.
    destruct (has_valid_payload_hash x) eqn:Hx; [|done]. constructor; auto.
  - constructor; [apply He|constructor].
Qed.
Lemma replay_rows_other mid rows row :
  EventRow_mission_id row ≠ uuid_to_string mid →
  replay_rows mid (rows ++ [row]) = replay_rows mid rows.
Proof. intros Hne. unfold replay_rows. by rewrite by_mission_snoc, decide_False, app_nil_r. Qed.

Lemma events_numbered rows es mid :
  rows_inv rows → Forall2 row_event (by_mission (uuid_to_string mid) rows) es →
  EventEnvelope_sequence <$> es = Z.of_nat <$> seq 1 (length es).
Proof.
  intros Hinv Hf. rewrite <-(Forall2_length _ _ _ Hf), <-(rows_inv_numbered _ Hinv).
  induction Hf as [|row e rows' es Hr _ IH]; [done|]. csimpl. rewrite IH.
  by rewrite (row_event_sequence _ _ Hr).
Qed.

(** What an append that succeeds does to the mission's replay. *)
Lemma append_replays s e s' :
  rows_inv (EncryptedLedger_events s) → storable (EncryptedLedger_redactor s) e →
  encrypted_append e s = (s', Ok tt) →
  ∃ es, replay_events (EventEnvelope_mission_id e) s = Ok es ∧
    EventEnvelope_sequence <$> es = Z.of_nat <$> seq 1 (length es) ∧
    ((s' = s ∧ ∃ e0, e0 ∈ es ∧ EventEnvelope_event_id e0 = EventEnvelope_event_id e ∧
        EventEnvelope_sequence e0 = EventEnvelope_sequence e) ∨
     (∃ payload raw,
        redact (EncryptedLedger_redactor s) (EventEnvelope_payload e) = Ok payload ∧
        match EventEnvelope_raw_evidence e with
        | None => raw = None
        | Some v => ∃ r, redact (EncryptedLedger_redactor s) v = Ok r ∧ raw = Some r
        end ∧
        replay_events (EventEnvelope_mission_id e) s' = Ok (es ++ [persisted e payload raw]) ∧
        EventEnvelope_sequence e = Z.of_nat (S (length es)))) ∧
    (∀ m, m ≠ EventEnvelope_mission_id e → replay_events m s' = replay_events m s).
Proof.
  intros Hinv Hst (p&rows&Hp&Hi&->)%encrypted_append_Ok.
  pose proof (insert_prepared_inv _ _ _ _ _ Hst Hp Hinv Hi) as Hinv'.
  destruct (prepare_row _ _ _ Hst Hp) as (payload&raw&Hpay&Hraw&Hrow).
  destruct (by_mission_events (EventEnvelope_mission_id e) _ Hinv) as (es&Hf&Hes).
  exists es. split; [exact Hes|]. split; [exact (events_numbered _ _ _ Hinv Hf)|].
  apply insert_prepared_Ok in Hi as [(ex&Hin&Hid&Heq&->)|(_&Hseq&->)]; [| |done].
  - rewrite set_events_same. split; [left; split; [done|]|done].
    unfold equivalent_row in Heq. guards.
    assert (ex ∈ by_mission (uuid_to_string (EventEnvelope_mission_id e)) (EncryptedLedger_events s))
      as Hex.
    { apply list_elem_of_filter. split; [|done]. etrans; [eassumption|]. apply Hrow. }
    apply list_elem_of_lookup_1 in Hex as [i Hex].
    destruct (Forall2_lookup_l _ _ _ _ _ Hf Hex) as (e0&He0&Hre). exists e0.
    split_and!; [by eapply list_elem_of_lookup_2| |].
    + apply (inj uuid_to_string). rewrite <-(row_event_id _ _ Hre), Hid. apply Hrow.
    + rewrite <-(row_event_sequence _ _ Hre). etrans; [eassumption|]. apply Hrow.
  - split.
    + right. exists payload, raw. split_and!; [done|done| |].
      * exact (replay_rows_snoc _ _ _ _ _ Hinv Hinv' Hrow eq_refl Hes).
      * rewrite (row_event_mission _ _ Hrow) in Hseq. simpl in Hseq.
        rewrite <-(Forall2_length _ _ _ Hf), <-Hseq. symmetry. apply Hrow.
    + intros m Hm. apply (replay_rows_other m). rewrite (row_event_mission _ _ Hrow). simpl.
      intros He. by apply (inj uuid_to_string) in He.
Qed.

(** ** The integrity check *)
#[local] Instance row_cmp_order : CmpOrder row_cmp.
Proof.
  apply (cmp_then (λ l r, str_cmp (EventRow_mission_id l) (EventRow_mission_id r)));
    [apply (cmp_on EventRow_mission_id), _|apply (cmp_on EventRow_sequence), _].
Qed.

Lemma row_le_inv a b :
  cmp_le row_cmp a b = true →
  str_cmp (EventRow_mission_id a) (EventRow_mission_id b) = Lt ∨
  (EventRow_mission_id a = EventRow_mission_id b ∧
   (EventRow_sequence a ≤ EventRow_sequence b)%Z).
Proof.
  unfold cmp_le, row_cmp. destruct (str_cmp _ _) eqn:Hc; simpl; [|by left|done].
  apply str_cmp_eq in Hc. intros Hs. right. split; [done|].
  intros Hg. by rewrite Hg in Hs.
Qed.
Lemma row_le_same a b :
  cmp_le row_cmp a b = true → EventRow_mission_id a = EventRow_mission_id b →
  (EventRow_sequence a ≤ EventRow_sequence b)%Z.
Proof.
  intros [Hlt|[_ ?]]%row_le_inv He; [|done].
  by rewrite He, (cmp_refl str_cmp) in Hlt.
Qed.
Lemma row_le_between a b c :
  cmp_le row_cmp a b = true → cmp_le row_cmp b c = true →
  EventRow_mission_id a = EventRow_mission_id c → EventRow_mission_id b = EventRow_mission_id c.
Proof.
  intros [H1'|[-> _]]%row_le_inv [H2'|[-> _]]%row_le_inv He; try done.
  rewrite He in H1'. pose proof (cmp_lt_trans (cmp := str_cmp) _ _ _ H1' H2') as Hl.
  by rewrite (cmp_refl str_cmp) in Hl.
Qed.

(** What the loop needs of the ordered rows. *)
Definition row_key (r : EventRow) : string * Z := (EventRow_mission_id r, EventRow_sequence r).
Record scan_ok (l : list EventRow) : Prop := {
  scan_sorted : StronglySorted (cmp_le row_cmp) l;
  scan_keys : NoDup (row_key <$> l);
  scan_closed r : r ∈ l → (1 ≤ EventRow_sequence r)%Z ∧
    ∀ j, (1 ≤ j ≤ EventRow_sequence r)%Z →
      ∃ r', r' ∈ l ∧ EventRow_mission_id r' = EventRow_mission_id r ∧ EventRow_sequence r' = j;
  scan_event r : r ∈ l → ∃ e, row_event r e;
}.

Lemma scan_before l1 l2 (x y : EventRow) :
  StronglySorted (cmp_le row_cmp) (l1 ++ l2) → x ∈ l1 → y ∈ l2 → cmp_le row_cmp x y = true.
Proof.
  intros Hs Hx Hy. apply Is_true_eq_true.
  exact (StronglySorted_app_1_elem_of _ _ _ _ _ Hs Hx Hy).
Qed.
Lemma scan_next pre row post :
  scan_ok (pre ++ row :: post) →
  EventRow_sequence row =
    match last pre with
    | Some l => if decide (EventRow_mission_id row = EventRow_mission_id l)
                then (EventRow_sequence l + 1)%Z else 1%Z
    | None => 1%Z
    end.
Proof.
  intros [Hs Hk Hc _].
  assert (Hafter : ∀ r, r ∈ post → cmp_le row_cmp row r = true).
  { intros r Hr. apply Is_true_eq_true. apply StronglySorted_app_1_r in Hs.
    apply StronglySorted_inv in Hs as [_ Hf]. rewrite Forall_forall in Hf. by apply Hf. }
  assert (Hbefore : ∀ r, r ∈ pre → cmp_le row_cmp r row = true).
  { intros r Hr. apply (scan_before _ _ _ _ Hs Hr). by left. }
  destruct (Hc row) as [Hpos Hj]; [set_solver|].
  destruct (last pre) as [l|] eqn:Hl.
  2:{ apply last_None in Hl as ->. destruct (Hj 1%Z) as (r&Hr&Hm&Hr1); [lia|].
      apply elem_of_cons in Hr as [-> | Hr]; [done|].
      pose proof (row_le_same _ _ (Hafter r Hr) (eq_sym Hm)). lia. }
  apply last_Some in Hl as [pre' ->].
  assert (Hlast : ∀ r, r ∈ pre' ++ [l] → cmp_le row_cmp r l = true).
  { intros r [Hr|Hr]%elem_of_app.
    - rewrite <-app_assoc in Hs. apply (scan_before _ _ _ _ Hs Hr). by left.
    - apply list_elem_of_singleton in Hr as ->. unfold cmp_le. by rewrite (cmp_refl row_cmp). }
  pose proof (Hbefore l ltac:(set_solver)) as Hlr.
  case_decide as Hm.
  - pose proof (row_le_same _ _ Hlr (eq_sym Hm)) as Hle.
    assert (EventRow_sequence l ≠ EventRow_sequence row) as Hne.
    { intros He. rewrite fmap_app in Hk. apply NoDup_app in Hk as (_&Hk&_).
      apply (Hk (row_key l)); [apply list_elem_of_fmap_2; set_solver|].
      unfold row_key. rewrite <-Hm, He. csimpl. by left. }
    destruct (decide (EventRow_sequence row = EventRow_sequence l + 1)%Z) as [?|Hgap]; [done|].
    destruct (Hc l) as [Hl1 _]; [set_solver|].
    destruct (Hj (EventRow_sequence l + 1)%Z) as (r&Hr&Hmr&Hsr); [lia|].
    apply elem_of_app in Hr as [Hr|[-> | Hr]%elem_of_cons]; [|lia|].
    + pose proof (row_le_same _ _ (Hlast r Hr) ltac:(congruence)). lia.
    + pose proof (row_le_same _ _ (Hafter r Hr) (eq_sym Hmr)). lia.
  - destruct (Hj 1%Z) as (r&Hr&Hmr&Hsr); [lia|].
    apply elem_of_app in Hr as [Hr|[-> | Hr]%elem_of_cons]; [|done|].
    + exfalso. apply Hm. symmetry. exact (row_le_between _ _ _ (Hlast r Hr) Hlr Hmr).
    + pose proof (row_le_same _ _ (Hafter r Hr) (eq_sym Hmr)). lia.
Qed.

Lemma foldl_max_le l : ∀ acc, (acc ≤ foldl Z.max acc l)%Z.
Proof. induction l as [|x l IH]; intros acc; simpl; [lia|]. specialize (IH (Z.max acc x)). lia. Qed.
Lemma foldl_max_ge l : ∀ acc x, x ∈ l → (x ≤ foldl Z.max acc l)%Z.
Proof.
  induction l as [|y l IH]; intros acc x Hx; [by apply elem_of_nil in Hx|].
  apply elem_of_cons in Hx as [-> | Hx]; simpl; [|by apply IH].
  pose proof (foldl_max_le l (Z.max acc y)). lia.
Qed.
Lemma rows_keys_NoDup rows : (∀ m, numbered (by_mission m rows)) → NoDup (row_key <$> rows).
Proof.
  induction rows as [|row rows IH] using rev_ind; intros Hn; [constructor|].
  assert (∀ m, numbered (by_mission m rows)) as Hn'.
  { intros m. specialize (Hn m). rewrite by_mission_snoc in Hn.
    case_decide; [by eapply numbered_prefix|by rewrite app_nil_r in Hn]. }
  rewrite fmap_app. apply NoDup_app. split; [by apply IH|]. split; [|apply NoDup_singleton].
  intros k (r&->&Hr)%list_elem_of_fmap Hk. apply list_elem_of_singleton in Hk.
  injection Hk as Hm Hs. specialize (Hn (EventRow_mission_id row)).
  rewrite by_mission_snoc, decide_True in Hn by done.
  set (l := by_mission (EventRow_mission_id row) rows) in *.
  assert (r ∈ l) as [i Hi]%list_elem_of_lookup_1 by (by apply list_elem_of_filter).
  pose proof (lookup_lt_Some _ _ _ Hi).
  pose proof (numbered_lookup _ i r Hn (lookup_app_l_Some _ _ _ _ Hi)).
  pose proof (numbered_lookup _ (length l) row Hn (list_lookup_middle l [] row _ eq_refl)).
  lia.
Qed.
Lemma rows_inv_scan rows : rows_inv rows → scan_ok (sort_cmp row_cmp rows).
Proof.
  intros [Hn He]. pose proof (sort_by_perm (cmp_le row_cmp) rows) as Hp.
  fold (sort_cmp row_cmp rows) in Hp. split.
  - apply sort_cmp_sorted, _.
  - rewrite Hp. by apply rows_keys_NoDup.
  - intros r. rewrite Hp. intros Hr. specialize (Hn (EventRow_mission_id r)).
    assert (r ∈ by_mission (EventRow_mission_id r) rows) as [i Hi]%list_elem_of_lookup_1
      by (by apply list_elem_of_filter).
    pose proof (numbered_lookup _ _ _ Hn Hi) as ->. split; [lia|]. intros j Hj.
    pose proof (lookup_lt_Some _ _ _ Hi).
    destruct (lookup_lt_is_Some_2 (by_mission (EventRow_mission_id r) rows) (Z.to_nat j - 1)) as [r' Hr'];
      [lia|].
    exists r'. rewrite Hp. pose proof (numbered_lookup _ _ _ Hn Hr').
    apply list_elem_of_lookup_2, list_elem_of_filter in Hr' as [Hm Hr']. split_and!; [done..|lia].
  - intros r. rewrite Hp. apply He.
Qed.

Lemma integrity_loop_ok post : ∀ pre count last_,
  scan_ok (pre ++ post) → (0 ≤ count ≤ u64_max)%Z →
  integrity_loop post (default "" (EventRow_mission_id <$> last pre))
    (default 1%Z ((λ r, EventRow_sequence r + 1)%Z <$> last pre)) count last_ =
  Ok {| LedgerIntegrityReport_event_count := Z.min u64_max (count + Z.of_nat (length post));
        LedgerIntegrityReport_last_committed_sequence :=
          foldl Z.max last_ (EventRow_sequence <$> post);
        LedgerIntegrityReport_recovery_required := false;
        LedgerIntegrityReport_reason := None |}.
Proof.
  induction post as [|row post IH]; intros pre count last_ Hs Hc; simpl.
  { do 2 f_equal. lia. }
  destruct (scan_closed _ Hs row) as [Hpos _]; [set_solver|].
  destruct (scan_event _ Hs row) as [e He]; [set_solver|].
  rewrite (proj2 (Z.leb_le 0 _)) by lia. simpl.
  destruct (row_event_parses _ _ He) as [-> ->]. unfold str_eqb at 1. rewrite String.eqb_refl.
  pose proof (scan_next _ _ _ Hs) as Hnext. pose proof (row_event_range _ _ He) as Hmax.
  simpl. set (expected := if negb (str_eqb (EventRow_mission_id row) _) then 1%Z else _).
  assert (expected = EventRow_sequence row) as Hexp.
  { subst expected. rewrite Hnext. destruct (last pre) as [l|]; simpl; [|by destruct (negb _)].
    unfold str_eqb. destruct (String.eqb_spec (EventRow_mission_id row) (EventRow_mission_id l)).
    - by rewrite decide_True.
    - by rewrite decide_False. }
  rewrite Hexp, Z.eqb_refl. simpl.
  specialize (IH (pre ++ [row]) (saturating_add u64_max count 1) (Z.max last_ (EventRow_sequence row))).
  rewrite <-app_assoc, last_snoc in IH. simpl in IH.
  assert (saturating_add u64_max (EventRow_sequence row) 1 = (EventRow_sequence row + 1)%Z) as ->
    by (unfold saturating_add, u64_max, i64_max in *; lia).
  rewrite IH; [|done|apply saturating_add_range; unfold u64_max in *; lia].
  unfold saturating_add. do 2 f_equal. lia.
Qed.

(** On a table that keeps the invariant the check succeeds. *)
Lemma integrity_report_ok s check :
  rows_inv (EncryptedLedger_events s) → to_ascii_lowercase check = "ok" →
  ∃ report, integrity_report check s = Ok report ∧
    LedgerIntegrityReport_recovery_required report = false ∧
    LedgerIntegrityReport_event_count report =
      Z.min u64_max (Z.of_nat (length (EncryptedLedger_events s))) ∧
    ∀ row, row ∈ EncryptedLedger_events s →
      (EventRow_sequence row ≤ LedgerIntegrityReport_last_committed_sequence report)%Z.
Proof.
  intros Hinv%rows_inv_scan Hcheck. unfold integrity_report.
  rewrite Hcheck. simpl. eexists. split.
  { apply (integrity_loop_ok _ []); [done|]. unfold u64_max. lia. }
  pose proof (sort_by_perm (cmp_le row_cmp) (EncryptedLedger_events s)) as Hp.
  fold (sort_cmp row_cmp (EncryptedLedger_events s)) in Hp. simpl. split_and!; [done| |].
  - by rewrite Hp.
  - intros row Hr. rewrite <-Hp in Hr. clear -Hr.
    apply foldl_max_ge, list_elem_of_fmap_2, Hr.
Qed.

(** ** What replay forgets *)
Lemma decode_row_provenance mid row e :
  decode_row mid row = Ok e →
  EventEnvelope_confidence e = Observed ∧ EventEnvelope_source e = SourceSupervisor.
Proof.
  unfold decode_row. intros Hd.
  repeat (apply result_bind_Ok in Hd as (?&_&Hd)). repeat (case_match; [|done]).
  by injection Hd as <-.
Qed.

(** The provenance of an event does not survive storage: whatever was
    appended, no candidate extracted from a replayed history is marked as an
    inference and every one is authored by the supervisor, so a constraint an
    agent inferred comes back as an ordinary one. *)
Theorem replay_forgets_provenance mid s es items :
  replay_events mid s = Ok es → extract_candidates es = Ok items →
  ∀ it, it ∈ items →
    MemoryItem_kind it ≠ MKInference ∧ MemoryItem_author it = author_for SourceSupervisor.
Proof.
  intros Hr Hx it Hit. apply result_bind_Ok in Hr as (es'&Hm&Hr).
  apply result_bind_Ok in Hr as ([]&_&[= ->]).
  apply mapM_Ok in Hm. apply mapM_Ok in Hx.
  apply list_elem_of_lookup_1 in Hit as [i Hi].
  destruct (Forall2_lookup_r _ _ _ _ _ Hx Hi) as (e&He&Hfrom).
  assert (e ∈ es) as [j Hj]%list_elem_of_lookup_1.
  { apply list_elem_of_lookup_2 in He. by apply unseen_elem in He as [? _]. }
  destruct (Forall2_lookup_r _ _ _ _ _ Hm Hj) as (row&_&Hd).
  destruct (decode_row_provenance _ _ _ Hd) as [Hc Hs].
  destruct (from_event_Ok _ _ Hfrom) as (_&_&_&_&Ha&Hk&_). rewrite Hs in Ha.
  split; [|done]. rewrite Hk, Hc. done.
Qed.
End ledger.

(** ** Concrete ledgers *)
Module LedgerExamples.
Import Json RedactionExamples.

(** A parser that knows the texts of two values. *)
Definition known_values : list json := [JNull; json_object [("goal", JStr "ship")]].
#[export] Instance known_parse : JsonParse := λ text,
  match find (λ v, String.eqb (to_vec v) text) known_values with
  | Some v => Ok v
  | None => Err "expected value"
  end.

Definition lg_event (id : EventId) (sequence : u64) (kind : EventKind) (v : json)
    : EventEnvelope :=
  {| EventEnvelope_event_id := id; EventEnvelope_schema_version := 1;
     EventEnvelope_mission_id := 7%N; EventEnvelope_route_id := 8%N;
     EventEnvelope_agent_run_id := None; EventEnvelope_sequence := sequence;
     EventEnvelope_occurred_at := Timestamp_now; EventEnvelope_source := SourceAgent;
     EventEnvelope_confidence := Inferred; EventEnvelope_kind := kind;
     EventEnvelope_payload := v; EventEnvelope_raw_evidence := None;
     EventEnvelope_payload_hash := payload_hash v; EventEnvelope_correlation_id := None;
     EventEnvelope_causation_id := None; EventEnvelope_links := EventLinks_default |}.
Definition lg_first : EventEnvelope := lg_event 1%N 1 ContractUpdated (json_object [("goal", JStr "ship")]).
Definition lg_second : EventEnvelope := lg_event 2%N 2 EvidenceRecorded JNull.
Definition lg_empty : EncryptedLedger := EncryptedLedger_new.
Definition lg_one : EncryptedLedger := (encrypted_append lg_first lg_empty).1.

Lemma lg_storable id n k v :
  (0 ≤ n)%Z → redact Redactor_default v = Ok v → value_from_str (to_vec v) = Ok v →
  storable Redactor_default (lg_event id n k v).
Proof. intros Hn Hr Hp. split; simpl; [done|lia|done| |done]. intros p. rewrite Hr. by intros [= <-]. Qed.
Lemma lg_first_storable : storable Redactor_default lg_first.
Proof. by apply lg_storable; [|vm_compute|vm_compute]. Qed.
Lemma lg_second_storable : storable Redactor_default lg_second.
Proof. by apply lg_storable; [|vm_compute|vm_compute]. Qed.
Lemma append_batch_atomic_witness :
  is_ok (append_batch [lg_first; lg_second] lg_empty).2 = true ∧
  is_ok (append_batch [lg_first; lg_first; lg_event 3%N 3 EvidenceRecorded JNull] lg_empty).2 = false ∧
  (append_batch [lg_first; lg_first; lg_event 3%N 3 EvidenceRecorded JNull] lg_empty).1 = lg_empty.
Proof.
  split; [vm_compute; reflexivity|].
  assert (is_ok (append_batch [lg_first; lg_first; lg_event 3%N 3 EvidenceRecorded JNull] lg_empty).2
    = false) as Hno by (vm_compute; reflexivity).
  split; [exact Hno|].
  destruct (append_batch [lg_first; lg_first; lg_event 3%N 3 EvidenceRecorded JNull] lg_empty)
    as [s' [u|e]] eqn:Hb; [done|].
  exact (proj2 (append_batch_atomic _ lg_empty) s' e Hb).
Defined.

Definition lg_extracts (r : result LedgerError (list EventEnvelope)) : bool :=
  match r with
  | Ok es => match extract_candidates es with Ok (_ :: _) => true | _ => false end
  | Err _ => false
  end.
Lemma replay_forgets_provenance_witness :
  EventEnvelope_confidence lg_first = Inferred ∧
  ∃ (items : list MemoryItem) it, it ∈ items ∧ MemoryItem_kind it ≠ MKInference.
Proof.
  split; [reflexivity|].
  assert (lg_extracts (replay_events 7%N lg_one) = true) as Ht by (vm_compute; reflexivity).
  destruct (replay_events 7%N lg_one) as [es|] eqn:Hes; [|discriminate]. simpl in Ht.
  destruct (extract_candidates es) as [[|it items]|] eqn:Hx; [discriminate| |discriminate].
  exists (it :: items), it.
  assert (it ∈ it :: items) as Hin by apply list_elem_of_here. split; [exact Hin|].
  exact (proj1 (replay_forgets_provenance 7%N lg_one es (it :: items) Hes Hx it Hin)).
Defined.
End LedgerExamples.
