(* ===== verification/Lifecycle.v ===== *)
(** * Retention, archival, deletion and export of missions
    ([crates/ledger/src/retention.rs], [delete.rs], [export.rs])

    Operations on the tables of [Ledger]: how much a mission stores, what an
    archival or a deletion would change (a plan, identified by a digest), the
    application of a plan, and the redacted export of a history.  The clock
    and the identifier of an audit receipt are arguments; so is the order in
    which a [HashSet] is visited. *)

From S2P Require Import Prelude Extern Ids Event Ordering BlobStore Redaction CivilDate Ledger.
From Stdlib Require Import ZArith Lia.
From stdpp Require Import sorting prelude gmap strings pretty.

(** The order in which a [HashSet<String>] is visited. *)
Class HashSetOrder : Type := hash_elements : gset string → list string.
Class HashSetOrderLaws `{HashSetOrder} : Prop :=
  hash_elements_perm : ∀ X : gset string, hash_elements X ≡ₚ elements X.

(** ** Data *)
Record StorageBudget := {
  StorageBudget_project_limit_bytes : option u64;
  StorageBudget_global_limit_bytes : option u64;
}.
Record StorageUsage := {
  StorageUsage_mission_id : option string;
  StorageUsage_event_count : u64;
  StorageUsage_event_bytes : u64;
  StorageUsage_blob_bytes : u64;
  StorageUsage_total_bytes : u64;
}.
Definition StorageUsage_default : StorageUsage := {|
  StorageUsage_mission_id := None; StorageUsage_event_count := 0; StorageUsage_event_bytes := 0;
  StorageUsage_blob_bytes := 0; StorageUsage_total_bytes := 0 |}.
Record MissionStorage := {
  MissionStorage_mission_id : MissionId;
  MissionStorage_event_count : u64;
  MissionStorage_bytes : u64;
}.
Record RetentionPlan := {
  RetentionPlan_budget : StorageBudget;
  RetentionPlan_project_usage : StorageUsage;
  RetentionPlan_global_usage : StorageUsage;
  RetentionPlan_over_budget : bool;
  RetentionPlan_automatic_deletion : bool;
  RetentionPlan_candidate_missions : list MissionStorage;
  RetentionPlan_impact_hash : string;
}.
Record ArchivePlan := {
  ArchivePlan_mission_id : MissionId;
  ArchivePlan_event_count : u64;
  ArchivePlan_bytes : u64;
  ArchivePlan_impact_hash : string;
  ArchivePlan_created_at : string;
}.
Inductive LifecycleError :=
| LifecycleLedger (error : LedgerError) | LifecycleDatabase | MissionNotFound | PlanMismatch
| PlanAlreadyApplied | LifecycleRedaction.
Record BlobImpact := {
  BlobImpact_hash : string;
  BlobImpact_size : u64;
  BlobImpact_media_type : string;
  BlobImpact_ref_count : u64;
  BlobImpact_will_remove : bool;
}.
Record DeleteImpactPlan := {
  DeleteImpactPlan_mission_id : MissionId;
  DeleteImpactPlan_event_count : u64;
  DeleteImpactPlan_bytes : u64;
  DeleteImpactPlan_blob_refs : list BlobImpact;
  DeleteImpactPlan_impact_hash : string;
  DeleteImpactPlan_created_at : string;
}.

Section lifecycle.
Context `{SerdeJson, Sha256, UuidText, RegexCrate, !JsonParse, HashSetOrder}.

Record AuditReceipt := {
  AuditReceipt_receipt_id : string;
  AuditReceipt_operation : string;
  AuditReceipt_mission_id : string;
  AuditReceipt_plan_hash : string;
  AuditReceipt_created_at : string;
  AuditReceipt_impact : Value;
}.

(** ** The derived JSON forms *)
Definition opt_u64_value (o : option u64) : Value :=
  match o with Some n => Value_U64 n | None => Value_Null end.
Definition opt_str_value (o : option string) : Value :=
  match o with Some s => Value_String s | None => Value_Null end.
Definition mission_value (m : MissionId) : Value := Value_String (uuid_to_string m).
Definition StorageBudget_value (b : StorageBudget) : Value := json_object
  [("project_limit_bytes", opt_u64_value (StorageBudget_project_limit_bytes b));
   ("global_limit_bytes", opt_u64_value (StorageBudget_global_limit_bytes b))].
Definition StorageUsage_value (u : StorageUsage) : Value := json_object
  [("mission_id", opt_str_value (StorageUsage_mission_id u));
   ("event_count", Value_U64 (StorageUsage_event_count u));
   ("event_bytes", Value_U64 (StorageUsage_event_bytes u));
   ("blob_bytes", Value_U64 (StorageUsage_blob_bytes u));
   ("total_bytes", Value_U64 (StorageUsage_total_bytes u))].
Definition MissionStorage_value (m : MissionStorage) : Value := json_object
  [("mission_id", mission_value (MissionStorage_mission_id m));
   ("event_count", Value_U64 (MissionStorage_event_count m));
   ("bytes", Value_U64 (MissionStorage_bytes m))].
Definition ArchivePlan_fields (p : ArchivePlan) : gmap string Value := list_to_map
  [("mission_id", mission_value (ArchivePlan_mission_id p));
   ("event_count", Value_U64 (ArchivePlan_event_count p));
   ("bytes", Value_U64 (ArchivePlan_bytes p));
   ("impact_hash", Value_String (ArchivePlan_impact_hash p));
   ("created_at", Value_String (ArchivePlan_created_at p))].
Definition BlobImpact_value (b : BlobImpact) : Value := json_object
  [("hash", Value_String (BlobImpact_hash b)); ("size", Value_U64 (BlobImpact_size b));
   ("media_type", Value_String (BlobImpact_media_type b));
   ("ref_count", Value_U64 (BlobImpact_ref_count b));
   ("will_remove", Value_Bool (BlobImpact_will_remove b))].
Definition DeleteImpactPlan_fields (p : DeleteImpactPlan) : gmap string Value := list_to_map
  [("mission_id", mission_value (DeleteImpactPlan_mission_id p));
   ("event_count", Value_U64 (DeleteImpactPlan_event_count p));
   ("bytes", Value_U64 (DeleteImpactPlan_bytes p));
   ("blob_refs", Value_Array (BlobImpact_value <$> DeleteImpactPlan_blob_refs p));
   ("impact_hash", Value_String (DeleteImpactPlan_impact_hash p));
   ("created_at", Value_String (DeleteImpactPlan_created_at p))].
Definition AuditReceipt_value (r : AuditReceipt) : Value := json_object
  [("receipt_id", Value_String (AuditReceipt_receipt_id r));
   ("operation", Value_String (AuditReceipt_operation r));
   ("mission_id", Value_String (AuditReceipt_mission_id r));
   ("plan_hash", Value_String (AuditReceipt_plan_hash r));
   ("created_at", Value_String (AuditReceipt_created_at r));
   ("impact", AuditReceipt_impact r)].

Definition plan_hash (value : Value) : string := sha256_hex (to_vec value).
(** [receipt_id] is the fresh [Uuid::now_v7()], [now] the clock's seconds. *)
Definition audit_receipt (receipt_id : Uuid) (now : u64) (operation : string)
    (mission_id : MissionId) (hash : string) (impact : Value) : AuditReceipt := {|
  AuditReceipt_receipt_id := uuid_to_string receipt_id; AuditReceipt_operation := operation;
  AuditReceipt_mission_id := uuid_to_string mission_id; AuditReceipt_plan_hash := hash;
  AuditReceipt_created_at := utc_rfc3339 now; AuditReceipt_impact := impact |}.

(** ** [retention.rs] *)

(** SQLite's [length] of a text: its characters before the first NUL. *)
Fixpoint sql_length (s : string) : Z :=
  match s with
  | EmptyString => 0
  | String c r =>
      if Ascii.eqb c Ascii.zero then 0
      else ((if byte_in 128 191 c then 0 else 1) + sql_length r)%Z
  end.
(** SQLite's [sum] of integers: an overflow is an error of the statement. *)
Definition sql_sum (l : list Z) : result LedgerError Z :=
  let total := foldr Z.add 0%Z l in
  if (total <=? i64_max)%Z then Ok total else Err LedgerDatabase.
Definition u64_try_from (what : string) (n : Z) : result LedgerError u64 :=
  if (0 <=? n)%Z then Ok n else Err (LedgerIntegrityFailed what).

(** [length(payload) + length(coalesce(raw_evidence, ''))]. *)
Definition row_length (row : EventRow) : Z :=
  (sql_length (EventRow_payload row) + sql_length (default "" (EventRow_raw_evidence row)))%Z.

(** [blob_refs b JOIN mission_blob_refs m ON m.blob_hash = b.blob_hash WHERE
    m.mission_id = ?1 ORDER BY b.blob_hash]. *)
Definition mission_blobs (mission_id : MissionId) (self : EncryptedLedger)
    : list (string * BlobRow) :=
  sort_cmp (λ l r, str_cmp l.1 r.1)
    (omap (λ p, if decide (p.1.1 = mission_id)
                then (λ row, (p.1.2, row)) <$> EncryptedLedger_blob_refs self !! p.1.2
                else None)
      (map_to_list (EncryptedLedger_mission_blob_refs self))).

Definition storage_usage (mission_id : option MissionId) (self : EncryptedLedger)
    : result LedgerError StorageUsage :=
  let mission := uuid_to_string <$> mission_id in
  let rows := match mission with
              | Some mission => by_mission mission (EncryptedLedger_events self)
              | None => EncryptedLedger_events self
              end in
  event_bytes ← sql_sum (row_length <$> rows);
  blob_bytes ← (match mission_id with
    | Some mission => sql_sum ((λ p, BlobRow_size p.2) <$> mission_blobs mission self)
    | None => sql_sum (BlobRow_size <$>
                filter (λ row, (0 < BlobRow_ref_count row)%Z)
                  (map_to_list (EncryptedLedger_blob_refs self)).*2)
    end);
  event_count ← u64_try_from "negative event count" (Z.of_nat (length rows));
  event_bytes ← u64_try_from "negative event bytes" event_bytes;
  blob_bytes ← u64_try_from "negative blob bytes" blob_bytes;
  Ok {| StorageUsage_mission_id := mission; StorageUsage_event_count := event_count;
        StorageUsage_event_bytes := event_bytes; StorageUsage_blob_bytes := blob_bytes;
        StorageUsage_total_bytes := saturating_add u64_max event_bytes blob_bytes |}.

(** [SELECT mission_id, payload FROM events WHERE kind = 'mission_created']
    and the loop over it. *)
Fixpoint missions_loop (project_root : string) (rows : list EventRow) (missions : gset string)
    : result LedgerError (gset string) :=
  match rows with
  | [] => Ok missions
  | row :: rows =>
      match value_from_str (EventRow_payload row) with
      | Err error => Err (LedgerIntegrityFailed ("invalid mission_created payload: " +:+ error))
      | Ok payload =>
          missions_loop project_root rows
            (if bool_decide (Value_get payload "project_root" ≫= Value_as_str = Some project_root)
             then {[EventRow_mission_id row]} ∪ missions else missions)
      end
  end.
Definition missions_for_project (project_root : string) (self : EncryptedLedger)
    : result LedgerError (gset string) :=
  missions_loop project_root
    (filter (λ row, EventRow_kind row = "mission_created") (EncryptedLedger_events self)) ∅.

Definition add_usage (total item : StorageUsage) : StorageUsage := {|
  StorageUsage_mission_id := StorageUsage_mission_id total;
  StorageUsage_event_count :=
    saturating_add u64_max (StorageUsage_event_count total) (StorageUsage_event_count item);
  StorageUsage_event_bytes :=
    saturating_add u64_max (StorageUsage_event_bytes total) (StorageUsage_event_bytes item);
  StorageUsage_blob_bytes :=
    saturating_add u64_max (StorageUsage_blob_bytes total) (StorageUsage_blob_bytes item);
  StorageUsage_total_bytes :=
    saturating_add u64_max (StorageUsage_total_bytes total) (StorageUsage_total_bytes item) |}.
(** The text of the parser's own error is left out of the message. *)
Fixpoint fold_usage (self : EncryptedLedger) (missions : list string) (total : StorageUsage)
    : result LedgerError StorageUsage :=
  match missions with
  | [] => Ok total
  | mission :: missions =>
      mission_id ← ok_or (LedgerIntegrityFailed ("invalid mission id " +:+ mission))
        (uuid_parse_str mission);
      item ← storage_usage (Some mission_id) self;
      fold_usage self missions (add_usage total item)
  end.

(** [SELECT mission_id, count( * ), sum(..) FROM events GROUP BY mission_id
    ORDER BY mission_id], decoded. *)
Definition mission_storage (self : EncryptedLedger) (mission : string)
    : result LedgerError MissionStorage :=
  let rows := by_mission mission (EncryptedLedger_events self) in
  bytes ← sql_sum (row_length <$> rows);
  mission_id ← ok_or LedgerDatabase (uuid_parse_str mission);
  bytes ← (if (0 <=? bytes)%Z then Ok bytes else Err LedgerDatabase);
  Ok {| MissionStorage_mission_id := mission_id;
        MissionStorage_event_count := Z.of_nat (length rows); MissionStorage_bytes := bytes |}.
Definition all_missions (self : EncryptedLedger) : result LedgerError (list MissionStorage) :=
  mapM (mission_storage self)
    (sort_cmp str_cmp (remove_dups (EventRow_mission_id <$> EncryptedLedger_events self))).

Definition over (limit : option u64) (total : u64) : bool :=
  match limit with Some limit => (limit <? total)%Z | None => false end.

Definition retention_plan_for_project (budget : StorageBudget) (project_root : option string)
    (self : EncryptedLedger) : result LedgerError RetentionPlan :=
  global_usage ← storage_usage None self;
  project_missions ← (match project_root with
    | Some root => missions ← missions_for_project root self; Ok (Some missions)
    | None => Ok None
    end);
  project_usage ← (match project_missions with
    | Some missions => fold_usage self (hash_elements missions) StorageUsage_default
    | None => Ok global_usage
    end);
  missions ← all_missions self;
  let candidate_missions := List.filter (λ m : MissionStorage,
    match project_missions with
    | None => true
    | Some missions => bool_decide (uuid_to_string (MissionStorage_mission_id m) ∈ missions)
    end) missions in
  let project_over := over (StorageBudget_project_limit_bytes budget)
                        (StorageUsage_total_bytes project_usage) in
  let global_over := over (StorageBudget_global_limit_bytes budget)
                       (StorageUsage_total_bytes global_usage) in
  let material := json_object
    [("budget", StorageBudget_value budget); ("project_usage", StorageUsage_value project_usage);
     ("global_usage", StorageUsage_value global_usage);
     ("candidate_missions", Value_Array (MissionStorage_value <$> candidate_missions));
     ("project_root", Value_String (default "" project_root))] in
  Ok {| RetentionPlan_budget := budget; RetentionPlan_project_usage := project_usage;
        RetentionPlan_global_usage := global_usage;
        RetentionPlan_over_budget := project_over || global_over;
        RetentionPlan_automatic_deletion := false;
        RetentionPlan_candidate_missions := candidate_missions;
        RetentionPlan_impact_hash := plan_hash material |}.
Definition retention_plan (budget : StorageBudget) : EncryptedLedger → result LedgerError RetentionPlan :=
  retention_plan_for_project budget None.

(** The digest of a plan's JSON without [created_at]. *)
Definition material_hash (fields : gmap string Value) : string :=
  plan_hash (Value_Object (delete "created_at" fields)).

Definition archive_plan (now : u64) (mission_id : MissionId) (self : EncryptedLedger)
    : result LifecycleError ArchivePlan :=
  used ← map_err LifecycleLedger (storage_usage (Some mission_id) self);
  if (StorageUsage_event_count used =? 0)%Z then Err MissionNotFound else
  let plan hash := {|
    ArchivePlan_mission_id := mission_id;
    ArchivePlan_event_count := StorageUsage_event_count used;
    ArchivePlan_bytes := StorageUsage_total_bytes used;
    ArchivePlan_impact_hash := hash; ArchivePlan_created_at := utc_rfc3339 now |} in
  Ok (plan (material_hash (ArchivePlan_fields (plan "")))).

(** [SELECT receipt_id FROM lifecycle_audit WHERE operation = .. AND
    plan_hash = ?1]. *)
Definition already_applied (operation hash : string) (self : EncryptedLedger) : bool :=
  existsb (λ row, str_eqb (AuditRow_operation row) operation && str_eqb (AuditRow_plan_hash row) hash)
    (EncryptedLedger_audit self).
(** [INSERT INTO lifecycle_audit]: the primary key and the unique index on
    the operation and the plan's digest refuse a second row. *)
Definition audit_row (receipt : AuditReceipt) : AuditRow := {|
  AuditRow_receipt_id := AuditReceipt_receipt_id receipt;
  AuditRow_operation := AuditReceipt_operation receipt;
  AuditRow_mission_id := AuditReceipt_mission_id receipt;
  AuditRow_plan_hash := AuditReceipt_plan_hash receipt;
  AuditRow_created_at := AuditReceipt_created_at receipt;
  AuditRow_receipt_json := to_vec (AuditReceipt_value receipt) |}.
Definition insert_audit (receipt : AuditReceipt) (self : EncryptedLedger)
    : result LifecycleError EncryptedLedger :=
  if existsb (λ row, str_eqb (AuditRow_receipt_id row) (AuditReceipt_receipt_id receipt))
       (EncryptedLedger_audit self)
     || already_applied (AuditReceipt_operation receipt) (AuditReceipt_plan_hash receipt) self
  then Err LifecycleDatabase
  else Ok {|
    EncryptedLedger_redactor := EncryptedLedger_redactor self;
    EncryptedLedger_events := EncryptedLedger_events self;
    EncryptedLedger_blob_refs := EncryptedLedger_blob_refs self;
    EncryptedLedger_mission_blob_refs := EncryptedLedger_mission_blob_refs self;
    EncryptedLedger_lifecycle := EncryptedLedger_lifecycle self;
    EncryptedLedger_audit := EncryptedLedger_audit self ++ [audit_row receipt] |}.

Definition set_lifecycle (rows : gmap string LifecycleRow) (self : EncryptedLedger)
    : EncryptedLedger := {|
  EncryptedLedger_redactor := EncryptedLedger_redactor self;
  EncryptedLedger_events := EncryptedLedger_events self;
  EncryptedLedger_blob_refs := EncryptedLedger_blob_refs self;
  EncryptedLedger_mission_blob_refs := EncryptedLedger_mission_blob_refs self;
  EncryptedLedger_lifecycle := rows; EncryptedLedger_audit := EncryptedLedger_audit self |}.

Definition is_archived (mission_id : MissionId) (self : EncryptedLedger) : bool :=
  default false
    (LifecycleRow_archived <$> EncryptedLedger_lifecycle self !! uuid_to_string mission_id).

(** The upsert of [archive]. *)
Definition mark_archived (plan : ArchivePlan) (self : EncryptedLedger) : EncryptedLedger :=
  let mission := uuid_to_string (ArchivePlan_mission_id plan) in
  let deleted := default false (LifecycleRow_deleted <$> EncryptedLedger_lifecycle self !! mission) in
  set_lifecycle (<[mission := {|
    LifecycleRow_archived := true; LifecycleRow_deleted := deleted;
    LifecycleRow_archived_at := Some (ArchivePlan_created_at plan);
    LifecycleRow_archive_plan_hash := Some (ArchivePlan_impact_hash plan) |}]>
    (EncryptedLedger_lifecycle self)) self.

Definition archive (receipt_id : Uuid) (now : u64) (plan : ArchivePlan)
    : stm EncryptedLedger LifecycleError AuditReceipt := λ self,
  match
    current ← archive_plan now (ArchivePlan_mission_id plan) self;
    if negb (ArchivePlan_event_count current =? ArchivePlan_event_count plan)%Z
       || negb (ArchivePlan_bytes current =? ArchivePlan_bytes plan)%Z
       || negb (str_eqb (ArchivePlan_impact_hash current) (ArchivePlan_impact_hash plan))
    then Err PlanMismatch else
    if already_applied "archive" (ArchivePlan_impact_hash plan) self
    then Err PlanAlreadyApplied else
    if is_archived (ArchivePlan_mission_id plan) self then Err PlanAlreadyApplied else
    let receipt := audit_receipt receipt_id now "archive" (ArchivePlan_mission_id plan)
      (ArchivePlan_impact_hash plan) (Value_Object (ArchivePlan_fields plan)) in
    after ← insert_audit receipt (mark_archived plan self);
    Ok (after, receipt)
  with
  | Ok (after, receipt) => (after, Ok receipt)
  | Err error => (self, Err error)
  end.

(** ** [delete.rs] *)
Definition blob_impact (p : string * BlobRow) : result LifecycleError BlobImpact :=
  let '(hash, row) := p in
  size ← (if (0 <=? BlobRow_size row)%Z then Ok (BlobRow_size row) else Err LifecycleDatabase);
  ref_count ← (if (0 <=? BlobRow_ref_count row)%Z then Ok (BlobRow_ref_count row)
               else Err LifecycleDatabase);
  Ok {| BlobImpact_hash := hash; BlobImpact_size := size;
        BlobImpact_media_type := BlobRow_media_type row; BlobImpact_ref_count := ref_count;
        BlobImpact_will_remove := (BlobRow_ref_count row =? 1)%Z |}.

Definition delete_impact (now : u64) (mission_id : MissionId) (self : EncryptedLedger)
    : result LifecycleError DeleteImpactPlan :=
  used ← map_err LifecycleLedger (storage_usage (Some mission_id) self);
  if (StorageUsage_event_count used =? 0)%Z then Err MissionNotFound else
  blob_refs ← mapM blob_impact (mission_blobs mission_id self);
  let plan hash := {|
    DeleteImpactPlan_mission_id := mission_id;
    DeleteImpactPlan_event_count := StorageUsage_event_count used;
    DeleteImpactPlan_bytes := StorageUsage_total_bytes used;
    DeleteImpactPlan_blob_refs := blob_refs;
    DeleteImpactPlan_impact_hash := hash; DeleteImpactPlan_created_at := utc_rfc3339 now |} in
  Ok (plan (material_hash (DeleteImpactPlan_fields (plan "")))).

(** [UPDATE blob_refs SET ref_count = max(ref_count - 1, 0) WHERE blob_hash = ?1]. *)
Definition drop_reference (rows : gmap string BlobRow) (hash : string) : gmap string BlobRow :=
  alter (λ row, {| BlobRow_size := BlobRow_size row; BlobRow_media_type := BlobRow_media_type row;
                   BlobRow_ref_count := Z.max (BlobRow_ref_count row - 1) 0 |}) hash rows.

(** The statements of the deletion before its receipt. *)
Definition erase_mission (plan : DeleteImpactPlan) (self : EncryptedLedger) : EncryptedLedger :=
  let mission := uuid_to_string (DeleteImpactPlan_mission_id plan) in
  {| EncryptedLedger_redactor := EncryptedLedger_redactor self;
     EncryptedLedger_events :=
       filter (λ row, EventRow_mission_id row ≠ mission) (EncryptedLedger_events self);
     EncryptedLedger_blob_refs :=
       foldl (λ rows blob, drop_reference rows (BlobImpact_hash blob))
         (EncryptedLedger_blob_refs self) (DeleteImpactPlan_blob_refs plan);
     EncryptedLedger_mission_blob_refs :=
       filter (λ p, p.1.1 ≠ DeleteImpactPlan_mission_id plan)
         (EncryptedLedger_mission_blob_refs self);
     EncryptedLedger_lifecycle :=
       <[mission := match EncryptedLedger_lifecycle self !! mission with
          | Some row => {| LifecycleRow_archived := LifecycleRow_archived row;
              LifecycleRow_deleted := true;
              LifecycleRow_archived_at := LifecycleRow_archived_at row;
              LifecycleRow_archive_plan_hash := LifecycleRow_archive_plan_hash row |}
          | None => {| LifecycleRow_archived := false; LifecycleRow_deleted := true;
              LifecycleRow_archived_at := None; LifecycleRow_archive_plan_hash := None |}
          end]> (EncryptedLedger_lifecycle self);
     EncryptedLedger_audit := EncryptedLedger_audit self |}.

Definition delete_mission (receipt_id : Uuid) (now : u64) (plan : DeleteImpactPlan)
    : stm EncryptedLedger LifecycleError AuditReceipt := λ self,
  match
    if already_applied "delete" (DeleteImpactPlan_impact_hash plan) self
    then Err PlanAlreadyApplied else
    current ← delete_impact now (DeleteImpactPlan_mission_id plan) self;
    if negb (DeleteImpactPlan_event_count current =? DeleteImpactPlan_event_count plan)%Z
       || negb (DeleteImpactPlan_bytes current =? DeleteImpactPlan_bytes plan)%Z
       || negb (str_eqb (DeleteImpactPlan_impact_hash current) (DeleteImpactPlan_impact_hash plan))
    then Err PlanMismatch else
    let receipt := audit_receipt receipt_id now "delete" (DeleteImpactPlan_mission_id plan)
      (DeleteImpactPlan_impact_hash plan) (Value_Object (DeleteImpactPlan_fields plan)) in
    after ← insert_audit receipt (erase_mission plan self);
    Ok (after, receipt)
  with
  | Ok (after, receipt) => (after, Ok receipt)
  | Err error => (self, Err error)
  end.

(** ** [export.rs] *)
Record ExportPreview := {
  ExportPreview_mission_id : MissionId;
  ExportPreview_event_count : u64;
  ExportPreview_size_bytes : u64;
  ExportPreview_content_hash : string;
  ExportPreview_categories : list string;
  ExportPreview_contains_raw_provider_payload : bool;
}.
Record ExportArtifact := {
  ExportArtifact_bytes : string;
  ExportArtifact_size_bytes : u64;
  ExportArtifact_content_hash : string;
}.
(** [if !categories.iter().any(..) { categories.push(category) }]. *)
Fixpoint add_categories (found categories : list string) : list string :=
  match found with
  | [] => categories
  | category :: found =>
      add_categories found
        (if existsb (str_eqb category) categories then categories else categories ++ [category])
  end.
Definition export_entry (event : EventEnvelope) (payload : Value) : Value := json_object
  [("sequence", Value_U64 (EventEnvelope_sequence event));
   ("kind", Value_String (EventKind_as_str (EventEnvelope_kind event)));
   ("occurred_at", Value_String (Timestamp_as_str (EventEnvelope_occurred_at event)));
   ("payload", payload)].
(** The closure collected over the events, [categories] captured by it. *)
Fixpoint export_entries (events : list EventEnvelope) (categories : list string)
    : result LifecycleError (list Value * list string) :=
  match events with
  | [] => Ok ([], categories)
  | event :: events =>
      redacted ← map_err (λ _, LifecycleRedaction)
        (redact_event Redactor_default (EventEnvelope_payload event));
      let categories :=
        add_categories (RedactionAudit_categories (RedactionResult_audit redacted)) categories in
      rest ← export_entries events categories;
      Ok (export_entry event (RedactionResult_value redacted) :: rest.1, rest.2)
  end.
Definition export_value (mission_id : MissionId) (entries : list Value) : Value := json_object
  [("schema", Value_String "mission-export-v1"); ("mission_id", mission_value mission_id);
   ("events", Value_Array entries)].
Definition document (mission_id : MissionId) (ledger : EncryptedLedger)
    : result LifecycleError (string * list string) :=
  events ← map_err LifecycleLedger (replay_events mission_id ledger);
  entries ← export_entries events [];
  Ok (to_vec (export_value mission_id entries.1), entries.2).
Definition export_digest (bytes : string) : string := sha256_hex bytes.
Definition export_preview (mission_id : MissionId) (self : EncryptedLedger)
    : result LifecycleError ExportPreview :=
  doc ← document mission_id self;
  events ← map_err LifecycleLedger (replay_events mission_id self);
  Ok {| ExportPreview_mission_id := mission_id;
        ExportPreview_event_count := Z.of_nat (length events);
        ExportPreview_size_bytes := str_len doc.1;
        ExportPreview_content_hash := export_digest doc.1;
        ExportPreview_categories := doc.2;
        ExportPreview_contains_raw_provider_payload := false |}.
Definition materialize_export (mission_id : MissionId) (self : EncryptedLedger)
    : result LifecycleError ExportArtifact :=
  doc ← document mission_id self;
  Ok {| ExportArtifact_size_bytes := str_len doc.1;
        ExportArtifact_content_hash := export_digest doc.1; ExportArtifact_bytes := doc.1 |}.

(** ** Plans *)

(** [created_at] does not enter the digest. *)
Lemma archive_hash_ignores_time m n b h t t' :
  material_hash (ArchivePlan_fields {| ArchivePlan_mission_id := m; ArchivePlan_event_count := n;
    ArchivePlan_bytes := b; ArchivePlan_impact_hash := h; ArchivePlan_created_at := t |}) =
  material_hash (ArchivePlan_fields {| ArchivePlan_mission_id := m; ArchivePlan_event_count := n;
    ArchivePlan_bytes := b; ArchivePlan_impact_hash := h; ArchivePlan_created_at := t' |}).
Proof.
  unfold material_hash, ArchivePlan_fields. simpl.
  by rewrite !(delete_insert_ne _ "created_at") by done; rewrite !delete_insert_eq.
Qed.
Lemma delete_hash_ignores_time m n b l h t t' :
  material_hash (DeleteImpactPlan_fields {| DeleteImpactPlan_mission_id := m;
    DeleteImpactPlan_event_count := n; DeleteImpactPlan_bytes := b;
    DeleteImpactPlan_blob_refs := l; DeleteImpactPlan_impact_hash := h;
    DeleteImpactPlan_created_at := t |}) =
  material_hash (DeleteImpactPlan_fields {| DeleteImpactPlan_mission_id := m;
    DeleteImpactPlan_event_count := n; DeleteImpactPlan_bytes := b;
    DeleteImpactPlan_blob_refs := l; DeleteImpactPlan_impact_hash := h;
    DeleteImpactPlan_created_at := t' |}).
Proof.
  unfold material_hash, DeleteImpactPlan_fields. simpl.
  by rewrite !(delete_insert_ne _ "created_at") by done; rewrite !delete_insert_eq.
Qed.

(** Two plans that agree on everything but the time. *)
Definition same_archive (p q : ArchivePlan) : Prop :=
  ArchivePlan_mission_id p = ArchivePlan_mission_id q ∧
  ArchivePlan_event_count p = ArchivePlan_event_count q ∧
  ArchivePlan_bytes p = ArchivePlan_bytes q ∧
  ArchivePlan_impact_hash p = ArchivePlan_impact_hash q.
Lemma archive_plan_again now now' m s plan :
  archive_plan now m s = Ok plan →
  ArchivePlan_mission_id plan = m ∧
  ∃ plan', archive_plan now' m s = Ok plan' ∧ same_archive plan' plan.
Proof.
  unfold archive_plan. intros Hp. apply result_bind_Ok in Hp as (u&Hu&Hp). rewrite Hu. simpl.
  destruct (_ =? 0)%Z; [done|]. injection Hp as <-. split; [done|]. eexists. split; [done|].
  split_and!; [done..|]. apply archive_hash_ignores_time.
Qed.
Definition same_delete (p q : DeleteImpactPlan) : Prop :=
  DeleteImpactPlan_mission_id p = DeleteImpactPlan_mission_id q ∧
  DeleteImpactPlan_event_count p = DeleteImpactPlan_event_count q ∧
  DeleteImpactPlan_bytes p = DeleteImpactPlan_bytes q ∧
  DeleteImpactPlan_impact_hash p = DeleteImpactPlan_impact_hash q.
Lemma delete_impact_again now now' m s plan :
  delete_impact now m s = Ok plan →
  (DeleteImpactPlan_mission_id plan = m ∧
   mapM blob_impact (mission_blobs m s) = Ok (DeleteImpactPlan_blob_refs plan)) ∧
  ∃ plan', delete_impact now' m s = Ok plan' ∧ same_delete plan' plan.
Proof.
  unfold delete_impact. intros Hp. apply result_bind_Ok in Hp as (u&Hu&Hp). rewrite Hu. simpl.
  destruct (_ =? 0)%Z; [done|]. apply result_bind_Ok in Hp as (l&Hl&Hp). rewrite Hl. simpl.
  injection Hp as <-. split; [done|]. eexists. split; [done|].
  split_and!; [done..|]. apply delete_hash_ignores_time.
Qed.

(** ** Applying a plan *)
Definition fresh_receipt (id : Uuid) (s : EncryptedLedger) : Prop :=
  ∀ row, row ∈ EncryptedLedger_audit s → AuditRow_receipt_id row ≠ uuid_to_string id.
Lemma fresh_not_exists id s :
  fresh_receipt id s →
  existsb (λ row, str_eqb (AuditRow_receipt_id row) (uuid_to_string id)) (EncryptedLedger_audit s)
    = false.
Proof.
  intros Hf. apply not_true_iff_false. intros (row&Hin&He)%existsb_exists. guards.
  by apply (Hf row); [apply list_elem_of_In|].
Qed.
Lemma already_applied_last s row rest :
  EncryptedLedger_audit s = rest ++ [row] →
  already_applied (AuditRow_operation row) (AuditRow_plan_hash row) s = true.
Proof.
  intros Ha. unfold already_applied. rewrite Ha, existsb_app. simpl.
  unfold str_eqb. rewrite !String.eqb_refl. simpl. by rewrite orb_true_r.
Qed.

(** What [delete_mission] does with a plan that agrees with the current one,
    whatever blobs it lists. *)
Lemma delete_mission_accepts id now plan current s :
  delete_impact now (DeleteImpactPlan_mission_id plan) s = Ok current → same_delete current plan →
  already_applied "delete" (DeleteImpactPlan_impact_hash plan) s = false → fresh_receipt id s →
  ∃ r s', delete_mission id now plan s = (s', Ok r) ∧
    EncryptedLedger_audit s' = EncryptedLedger_audit s ++ [audit_row r] ∧
    AuditReceipt_operation r = "delete" ∧
    AuditReceipt_plan_hash r = DeleteImpactPlan_impact_hash plan ∧
    EncryptedLedger_events s' = EncryptedLedger_events (erase_mission plan s) ∧
    EncryptedLedger_blob_refs s' = EncryptedLedger_blob_refs (erase_mission plan s) ∧
    EncryptedLedger_mission_blob_refs s' =
      EncryptedLedger_mission_blob_refs (erase_mission plan s) ∧
    EncryptedLedger_lifecycle s' = EncryptedLedger_lifecycle (erase_mission plan s).
Proof.
  intros Hc (Hm&Hn&Hb&Hh) Ha Hf. unfold delete_mission. rewrite Ha, Hc. simpl.
  rewrite Hn, Hb, Hh, !Z.eqb_refl. unfold str_eqb at 1. rewrite String.eqb_refl. simpl.
  unfold insert_audit at 1. simpl. rewrite (fresh_not_exists id s Hf). simpl.
  unfold already_applied in *. simpl. rewrite Ha. simpl. eexists _, _. split; [reflexivity|].
  by split_and!.
Qed.

(** ** Export *)
Lemma add_categories_elem found c : ∀ categories,
  c ∈ add_categories found categories ↔ c ∈ categories ∨ c ∈ found.
Proof.
  induction found as [|x found IH]; intros cs; simpl; [set_solver|].
  rewrite IH, elem_of_cons. destruct (existsb (str_eqb x) cs) eqn:Hx.
  - apply existsb_exists in Hx as (y&Hy%list_elem_of_In&Hxy). guards. set_solver.
  - rewrite elem_of_app, list_elem_of_singleton. set_solver.
Qed.
Lemma add_categories_NoDup found : ∀ categories,
  NoDup categories → NoDup (add_categories found categories).
Proof.
  induction found as [|x found IH]; intros cs Hn; simpl; [done|]. apply IH.
  destruct (existsb (str_eqb x) cs) eqn:Hx; [done|]. apply NoDup_app.
  split_and!; [done| |apply NoDup_singleton]. intros y Hy ->%list_elem_of_singleton.
  apply not_true_iff_false in Hx. apply Hx, existsb_exists. exists x.
  split; [by apply list_elem_of_In|apply String.eqb_refl].
Qed.

Lemma export_entries_Ok events : ∀ categories entries found,
  export_entries events categories = Ok (entries, found) → NoDup categories →
  NoDup found ∧
  Forall2 (λ e v, ∃ res, redact_event Redactor_default (EventEnvelope_payload e) = Ok res ∧
    v = export_entry e (RedactionResult_value res) ∧
    ∀ c, c ∈ RedactionAudit_categories (RedactionResult_audit res) → c ∈ found) events entries ∧
  (∀ c, c ∈ categories → c ∈ found) ∧
  ∀ c, c ∈ found → c ∈ categories ∨
    ∃ e res, e ∈ events ∧ redact_event Redactor_default (EventEnvelope_payload e) = Ok res ∧
      c ∈ RedactionAudit_categories (RedactionResult_audit res).
Proof.
  induction events as [|e events IH]; intros cs entries found; simpl.
  { intros [= <- <-] Hn. split_and!; auto. }
  destruct (redact_event _ _) as [res|] eqn:Hres; simpl; [|done]. intros Hx Hn.
  apply result_bind_Ok in Hx as ([rest found']&Hr&Hx). injection Hx as <- <-.
  apply (add_categories_NoDup (RedactionAudit_categories (RedactionResult_audit res))) in Hn.
  destruct (IH _ _ _ Hr Hn) as (Hnd&Hf&Hin&Hout). split_and!; [done| | |].
  - constructor; [|done]. exists res. split_and!; [done..|]. intros c Hc.
    apply Hin, add_categories_elem. by right.
  - intros c Hc. apply Hin, add_categories_elem. by left.
  - intros c Hc. destruct (Hout c Hc) as [[?|?]%add_categories_elem|(e'&r'&?&?&?)].
    + by left.
    + right. exists e, res. split_and!; [by left|done..].
    + right. exists e', r'. split_and!; [by right|done..].
Qed.

(** The preview of an export describes the export: both succeed or fail
    alike; the size and the digest of the preview are those of the bytes, its
    count is the number of events in the document, every event appears in
    order with its payload redacted by the default rules, and the categories
    listed are exactly those the redactions found, once each. *)
Theorem export_preview_exact m s :
  match export_preview m s, materialize_export m s with
  | Ok p, Ok a =>
      ExportPreview_size_bytes p = ExportArtifact_size_bytes a ∧
      ExportPreview_content_hash p = ExportArtifact_content_hash a ∧
      ExportArtifact_content_hash a = sha256_hex (ExportArtifact_bytes a) ∧
      ExportArtifact_size_bytes a = str_len (ExportArtifact_bytes a) ∧
      ∃ events entries, replay_events m s = Ok events ∧
        ExportPreview_event_count p = Z.of_nat (length entries) ∧
        ExportArtifact_bytes a = to_vec (export_value m entries) ∧
        Forall2 (λ e v, ∃ res, redact_event Redactor_default (EventEnvelope_payload e) = Ok res ∧
          v = export_entry e (RedactionResult_value res)) events entries ∧
        NoDup (ExportPreview_categories p) ∧
        ∀ c, c ∈ ExportPreview_categories p ↔
          ∃ e res, e ∈ events ∧ redact_event Redactor_default (EventEnvelope_payload e) = Ok res ∧
            c ∈ RedactionAudit_categories (RedactionResult_audit res)
  | Err e, Err e' => e = e'
  | _, _ => False
  end.
Proof.
  unfold export_preview, materialize_export, document.
  destruct (replay_events m s) as [events|e]; simpl; [|done].
  destruct (export_entries events []) as [[entries found]|e] eqn:Hx; simpl; [|done].
  destruct (export_entries_Ok _ _ _ _ Hx (NoDup_nil_2)) as (Hn&Hf&_&Hout).
  split_and!; [done..|]. exists events, entries.
  split_and!; [done|by rewrite (Forall2_length _ _ _ Hf)|done| |done|].
  - eapply Forall2_impl; [exact Hf|]. intros e v (res&?&?&_). by exists res.
  - intros c. split.
    + intros [Hc|Hc]%Hout; [by apply elem_of_nil in Hc|done].
    + intros (e&res&He&Hres&Hc). apply list_elem_of_lookup_1 in He as [i Hi].
      destruct (Forall2_lookup_l _ _ _ _ _ Hf Hi) as (v&_&res'&Hres'&_&Hall).
      assert (res' = res) as -> by congruence.
      by apply Hall.
Qed.

(** ** Events *)
Lemma by_mission_erase m m' rows :
  by_mission m (filter (λ row, EventRow_mission_id row ≠ m') rows) =
    if decide (m = m') then [] else by_mission m rows.
Proof.
  unfold by_mission. case_decide as Hm.
  - subst. induction rows as [|row rows IH]; [done|]. rewrite filter_cons.
    case_decide; [|done]. rewrite filter_cons, decide_False by done. done.
  - rewrite list_filter_filter_l; [done|]. intros row. congruence.
Qed.
Lemma erase_rows_inv rows m :
  rows_inv rows → rows_inv (filter (λ row, EventRow_mission_id row ≠ m) rows).
Proof.
  intros [Hn He]. split.
  - intros m'. rewrite by_mission_erase. case_decide; [done|apply Hn].
  - intros row [_ Hr]%list_elem_of_filter. by apply He.
Qed.
Context `{!UuidTextLaws}.
Lemma replay_erased m m' s s' :
  EncryptedLedger_events s' =
    filter (λ row, EventRow_mission_id row ≠ uuid_to_string m') (EncryptedLedger_events s) →
  replay_events m s' = if decide (m = m') then Ok [] else replay_events m s.
Proof.
  intros Hs. unfold replay_events. rewrite Hs, by_mission_erase.
  case_decide as Hu; case_decide as Hm; try done; subst; [|done].
  by apply (inj uuid_to_string) in Hu.
Qed.

(** ** Blobs *)

(** The blob store that shares the ledger's database. *)
Definition blob_view (files : gmap string (list u8)) (n : nat) (s : EncryptedLedger)
    : EncryptedBlobStore := {|
  BlobStore_files := files; BlobStore_rows := EncryptedLedger_blob_refs s;
  BlobStore_attached := EncryptedLedger_mission_blob_refs s; BlobStore_nonces_drawn := n |}.

Lemma NoDup_omap_keys {K A B} (f : K * A → option (B * BlobRow)) (l : list (K * A)) :
  NoDup l.*1 → (∀ p q x y, f p = Some x → f q = Some y → x.1 = y.1 → p.1 = q.1) →
  NoDup (omap f l).*1.
Proof.
  intros Hn Hf. induction l as [|p l IH]; simpl; [constructor|].
  apply NoDup_cons in Hn as [Hp Hn]. destruct (f p) as [x|] eqn:Hx; simpl; [|by apply IH].
  apply NoDup_cons. split; [|by apply IH].
  intros (y&Hxy&Hy)%list_elem_of_fmap. apply list_elem_of_omap in Hy as (q&Hq&Hqy).
  apply Hp. rewrite (Hf p q x y); [|done..]. by apply list_elem_of_fmap_2.
Qed.
Lemma mission_blobs_elem m s p :
  p ∈ mission_blobs m s ↔
  is_Some (EncryptedLedger_mission_blob_refs s !! (m, p.1)) ∧
  EncryptedLedger_blob_refs s !! p.1 = Some p.2.
Proof.
  unfold mission_blobs, sort_cmp. rewrite sort_by_elem, list_elem_of_omap. split.
  - intros ([[m' h] v]&Hin&Hp). apply elem_of_map_to_list in Hin. simpl in Hp.
    case_decide as Hm; [|done]. subst. apply fmap_Some in Hp as (row&Hrow&->). simpl. eauto.
  - intros ([v Hv]&Hrow). exists ((m, p.1), v). rewrite elem_of_map_to_list. split; [done|].
    simpl. rewrite decide_True by done. rewrite Hrow. by destruct p.
Qed.
Lemma mission_blobs_NoDup m s : NoDup (mission_blobs m s).*1.
Proof.
  unfold mission_blobs, sort_cmp. rewrite sort_by_perm.
  apply NoDup_omap_keys; [apply NoDup_fst_map_to_list|].
  intros [[m1 h1] v1] [[m2 h2] v2] x y. simpl. intros Hx Hy.
  do 2 (case_decide; [|done]). apply fmap_Some in Hx as (?&_&->), Hy as (?&_&->).
  simpl. congruence.
Qed.
Lemma blob_impact_hashes l l' : mapM blob_impact l = Ok l' → BlobImpact_hash <$> l' = l.*1.
Proof.
  rewrite mapM_Ok. induction 1 as [|[h row] b l l' Hb _ IH]; [done|]. csimpl. rewrite IH. f_equal.
  unfold blob_impact in Hb. apply result_bind_Ok in Hb as (?&_&Hb).
  apply result_bind_Ok in Hb as (?&_&Hb). by injection Hb as <-.
Qed.

Section blobs.
Context `{!Aead}.
(** Removing a mission's attachments and dropping one reference for each is
    what releasing them one by one does to the counts. *)
Lemma drop_references_inv m holds files n hs : ∀ rows A,
  NoDup hs → (∀ h, h ∈ hs ↔ is_Some (A !! (m, h))) →
  blob_inv {| BlobStore_files := files; BlobStore_rows := rows; BlobStore_attached := A;
              BlobStore_nonces_drawn := n |} holds →
  blob_inv {| BlobStore_files := files; BlobStore_rows := foldl drop_reference rows hs;
              BlobStore_attached := filter (λ p, p.1.1 ≠ m) A;
              BlobStore_nonces_drawn := n |} holds.
Proof.
  induction hs as [|h hs IH]; intros rows A Hnd Hhs Hinv; simpl.
  { rewrite map_filter_id; [done|]. intros [m' h] v Hv Hm. simpl in Hm. subst.
    assert (h ∈ []) as []%elem_of_nil by (apply Hhs; eauto). }
  apply NoDup_cons in Hnd as [Hh Hnd]. assert (is_Some (A !! (m, h))) as [[sz md] Hv]
    by (apply Hhs; by left).
  set (s := {| BlobStore_files := files |}) in *.
  destruct (blob_inv_attached _ _ Hinv m h sz md Hv) as (row&Hr&Hsz&Hmd).
  destruct (blob_inv_row _ _ Hinv _ _ Hr) as [_ Hc].
  pose proof (λ k, attachments_detach s m h _ k Hv) as Hd.
  replace (filter (λ p, p.1.1 ≠ m) A) with (filter (λ p, p.1.1 ≠ m) (delete (m, h) A)).
  2:{ apply map_filter_delete_not. intros v _ Hm. by apply Hm. }
  apply IH; [done| |].
  - intros k. destruct (decide (k = h)) as [->|Hk].
    + rewrite lookup_delete_eq. split; [done|by intros []].
    + rewrite lookup_delete_ne by congruence. rewrite <-Hhs, elem_of_cons. naive_solver.
  - eapply (blob_inv_count s holds (delete (m, h) A)
      (λ n, Z.max (n - 1) 0) h _ holds row); [done|done|reflexivity| | |].
    + specialize (Hd h). rewrite decide_True in Hd by done. unfold set_attached in *. simpl in *. lia.
    + intros k Hk. split; [done|]. rewrite (Hd k), decide_False by done. done.
    + intros m' k v Hv'. left. by apply lookup_delete_Some in Hv' as [_ ?].
Qed.
Lemma erase_blob_inv files n holds m plan now s :
  blob_inv (blob_view files n s) holds → delete_impact now m s = Ok plan →
  blob_inv (blob_view files n (erase_mission plan s)) holds.
Proof.
  intros Hinv Hplan. destruct (delete_impact_again _ now _ _ _ Hplan) as [[Hm Hl] _].
  unfold blob_view. simpl. rewrite Hm.
  replace (foldl _ _ (DeleteImpactPlan_blob_refs plan))
    with (foldl drop_reference (EncryptedLedger_blob_refs s) (mission_blobs m s).*1).
  2:{ rewrite <-(blob_impact_hashes _ _ Hl). generalize (EncryptedLedger_blob_refs s). clear.
      induction (DeleteImpactPlan_blob_refs plan) as [|b l IH]; intros rows; [done|]. csimpl.
      apply IH. }
  apply drop_references_inv; [apply mission_blobs_NoDup| |done].
  intros h. rewrite list_elem_of_fmap. split.
  - by intros (p&->&[? _]%mission_blobs_elem).
  - intros [[sz md] Hv]. destruct (blob_inv_attached _ _ Hinv m h sz md Hv) as (row&Hr&_).
    exists (h, row). split; [done|]. by apply mission_blobs_elem.
Qed.

(** C17: deleting a mission by a current plan works and removes exactly that
    mission: whenever the plan was made, it applies once (unless it was
    applied before); the mission's history and its blob attachments are then
    gone, every other mission replays and keeps its attachments, the
    reference counts still equal what refers to each blob, the receipt is the
    newest audit row, and applying the plan again is refused for good. *)
Theorem delete_mission_exact id now planned m s plan files n holds :
  blob_inv (blob_view files n s) holds → delete_impact planned m s = Ok plan →
  already_applied "delete" (DeleteImpactPlan_impact_hash plan) s = false → fresh_receipt id s →
  ∃ r s', delete_mission id now plan s = (s', Ok r) ∧
    EncryptedLedger_audit s' = EncryptedLedger_audit s ++ [audit_row r] ∧
    replay_events m s' = Ok [] ∧
    (∀ m', m' ≠ m → replay_events m' s' = replay_events m' s) ∧
    (∀ m' h, EncryptedLedger_mission_blob_refs s' !! (m', h) =
      if decide (m' = m) then None else EncryptedLedger_mission_blob_refs s !! (m', h)) ∧
    blob_inv (blob_view files n s') holds ∧
    ∀ id' now', delete_mission id' now' plan s' = (s', Err PlanAlreadyApplied).
Proof.
  intros Hinv Hplan Hnew Hid.
  destruct (delete_impact_again _ now _ _ _ Hplan) as [[Hm _] (current&Hc&Hs)].
  rewrite <-Hm in Hc.
  destruct (delete_mission_accepts id now plan current s Hc Hs Hnew Hid)
    as (r&s'&Hd&Ha&Hop&Hh&He&Hb&Hmb&_).
  exists r, s'. simpl in He. rewrite Hm in He.
  split_and!; [done|done| | | | |].
  - by rewrite (replay_erased m m s s' He), decide_True.
  - intros m' Hne. by rewrite (replay_erased m' m s s' He), decide_False.
  - intros m' h. rewrite Hmb. simpl. rewrite Hm. rewrite map_lookup_filter.
    destruct (EncryptedLedger_mission_blob_refs s !! (m', h)); simpl; [|by case_decide].
    case_guard as Hg; case_decide; simpl in Hg; done.
  - unfold blob_view. rewrite Hb, Hmb. exact (erase_blob_inv _ _ _ _ _ _ _ Hinv Hplan).
  - intros id' now'. unfold delete_mission.
    pose proof (already_applied_last s' (audit_row r) _ Ha) as Happ. simpl in Happ.
    rewrite Hop, Hh in Happ. by rewrite Happ.
Qed.
End blobs.

(** C40: [delete_mission] compares the digest a plan carries, not the plan it
    stands for: a plan with the right digest and other blobs listed is
    applied, and the blobs it lists lose a reference, whoever holds them. *)
Theorem delete_trusts_listed_blobs id now m s plan listed :
  delete_impact now m s = Ok plan →
  already_applied "delete" (DeleteImpactPlan_impact_hash plan) s = false → fresh_receipt id s →
  ∃ r s', delete_mission id now {|
      DeleteImpactPlan_mission_id := m;
      DeleteImpactPlan_event_count := DeleteImpactPlan_event_count plan;
      DeleteImpactPlan_bytes := DeleteImpactPlan_bytes plan;
      DeleteImpactPlan_blob_refs := listed;
      DeleteImpactPlan_impact_hash := DeleteImpactPlan_impact_hash plan;
      DeleteImpactPlan_created_at := DeleteImpactPlan_created_at plan |} s = (s', Ok r) ∧
    EncryptedLedger_blob_refs s' =
      foldl (λ rows blob, drop_reference rows (BlobImpact_hash blob))
        (EncryptedLedger_blob_refs s) listed.
Proof.
  intros Hplan Hnew Hid. destruct (delete_impact_again _ now _ _ _ Hplan) as [[Hm _] _].
  set (forged := {| DeleteImpactPlan_mission_id := m |}).
  assert (same_delete plan forged) as Hs by (by split_and!).
  destruct (delete_mission_accepts id now forged plan s Hplan Hs Hnew Hid)
    as (r&s'&Hd&_&_&_&_&Hb&_).
  exists r, s'. split; [exact Hd|exact Hb].
Qed.

(** What [archive] does with a plan that agrees with the current one. *)
Lemma archive_accepts id now plan current s :
  archive_plan now (ArchivePlan_mission_id plan) s = Ok current → same_archive current plan →
  already_applied "archive" (ArchivePlan_impact_hash plan) s = false →
  is_archived (ArchivePlan_mission_id plan) s = false → fresh_receipt id s →
  ∃ r, archive id now plan s = ({|
      EncryptedLedger_redactor := EncryptedLedger_redactor s;
      EncryptedLedger_events := EncryptedLedger_events s;
      EncryptedLedger_blob_refs := EncryptedLedger_blob_refs s;
      EncryptedLedger_mission_blob_refs := EncryptedLedger_mission_blob_refs s;
      EncryptedLedger_lifecycle := EncryptedLedger_lifecycle (mark_archived plan s);
      EncryptedLedger_audit := EncryptedLedger_audit s ++ [audit_row r] |}, Ok r).
Proof.
  intros Hc (Hm&Hn&Hb&Hh) Ha Har Hf. unfold archive. rewrite Hc. simpl.
  rewrite Hn, Hb, Hh, !Z.eqb_refl. unfold str_eqb at 1. rewrite String.eqb_refl. simpl.
  rewrite Ha, Har. simpl. unfold insert_audit at 1. simpl. rewrite (fresh_not_exists id s Hf). simpl.
  unfold already_applied in *. simpl. rewrite Ha. by eexists.
Qed.
(** An archived mission cannot be archived again, whatever the plan. *)
Lemma archive_refused id now plan s :
  is_archived (ArchivePlan_mission_id plan) s = true →
  ∃ e, archive id now plan s = (s, Err e).
Proof.
  intros Har. unfold archive. destruct (archive_plan _ _ s) as [current|e]; simpl; [|eauto].
  destruct (_ || _); [eauto|]. destruct (already_applied _ _ s); [eauto|]. rewrite Har. eauto.
Qed.

(** Archiving by a current plan marks the mission and nothing else: it
    applies whenever the plan was made, the mission is archived from then on,
    every history, blob row and attachment is untouched, other missions keep
    their state, and no plan archives the mission a second time. *)
Theorem archive_marks_only id now planned m s plan :
  archive_plan planned m s = Ok plan →
  already_applied "archive" (ArchivePlan_impact_hash plan) s = false →
  is_archived m s = false → fresh_receipt id s →
  ∃ r s', archive id now plan s = (s', Ok r) ∧
    is_archived m s' = true ∧
    (∀ m', m' ≠ m → is_archived m' s' = is_archived m' s) ∧
    (∀ m', replay_events m' s' = replay_events m' s) ∧
    EncryptedLedger_blob_refs s' = EncryptedLedger_blob_refs s ∧
    EncryptedLedger_mission_blob_refs s' = EncryptedLedger_mission_blob_refs s ∧
    ∀ id' now' plan', ArchivePlan_mission_id plan' = m →
      ∃ e, archive id' now' plan' s' = (s', Err e).
Proof.
  intros Hplan Hnew Har Hid.
  destruct (archive_plan_again _ now _ _ _ Hplan) as [Hm (current&Hc&Hs)]. rewrite <-Hm in Hc, Har.
  destruct (archive_accepts id now plan current s Hc Hs Hnew Har Hid) as (r&Hr).
  eexists r, _. split; [exact Hr|].
  assert (is_archived m (archive id now plan s).1 = true) as Hyes.
  { rewrite Hr. unfold is_archived. simpl. rewrite Hm, lookup_insert_eq. done. }
  rewrite Hr in Hyes. split_and!; [exact Hyes| |done|done|done|].
  - intros m' Hne. unfold is_archived. simpl. rewrite Hm, lookup_insert_ne; [done|].
    intros He. by apply (inj uuid_to_string) in He.
  - intros id' now' plan' Hp. apply archive_refused. by rewrite Hp.
Qed.

(** ** Every history of operations *)
Inductive stored_reach : EncryptedLedger → Prop :=
| stored_new : stored_reach EncryptedLedger_new
| stored_append s e :
    stored_reach s → storable (EncryptedLedger_redactor s) e →
    stored_reach (encrypted_append e s).1
| stored_batch s es :
    stored_reach s → Forall (storable (EncryptedLedger_redactor s)) es →
    stored_reach (append_batch es s).1
| stored_archive s id now plan : stored_reach s → stored_reach (archive id now plan s).1
| stored_delete s id now plan : stored_reach s → stored_reach (delete_mission id now plan s).1.

Definition audit_key (row : AuditRow) : string * string :=
  (AuditRow_operation row, AuditRow_plan_hash row).
Record stored_inv (s : EncryptedLedger) : Prop := {
  stored_rows : rows_inv (EncryptedLedger_events s);
  stored_keys : NoDup (audit_key <$> EncryptedLedger_audit s);
  stored_receipts : NoDup (AuditRow_receipt_id <$> EncryptedLedger_audit s);
}.

Lemma insert_audit_inv r s s' :
  stored_inv s → insert_audit r s = Ok s' → stored_inv s'.
Proof.
  intros [Hr Hk Hi]. unfold insert_audit. destruct (_ || _) eqn:Hb; [done|]. intros [= <-].
  apply orb_false_iff in Hb as [Hid Hkey].
  assert (∀ {B} (f : AuditRow → B), NoDup (f <$> EncryptedLedger_audit s) →
    (∀ row, row ∈ EncryptedLedger_audit s → f row ≠ f (audit_row r)) →
    NoDup (f <$> EncryptedLedger_audit s ++ [audit_row r])) as Hnd.
  { intros B f Hn Hf. rewrite fmap_app. apply NoDup_app. split; [done|].
    split; [|apply NoDup_singleton]. intros x (row&->&Hin)%list_elem_of_fmap Hx.
    apply list_elem_of_singleton in Hx. by apply (Hf row Hin). }
  split; [done| |]; apply Hnd; try done; intros row Hin He.
  - apply not_true_iff_false in Hkey. apply Hkey. unfold already_applied.
    apply existsb_exists. exists row. split; [by apply list_elem_of_In|].
    injection He as -> ->. unfold str_eqb. by rewrite !String.eqb_refl.
  - apply not_true_iff_false in Hid. apply Hid. apply existsb_exists. exists row.
    split; [by apply list_elem_of_In|]. rewrite He. unfold str_eqb. apply String.eqb_refl.
Qed.
Lemma archive_inv id now plan s : stored_inv s → stored_inv (archive id now plan s).1.
Proof.
  intros Hs. unfold archive. destruct (archive_plan _ _ s) as [cur|e]; simpl; [|done].
  repeat (destruct (_ || _ : bool); [done|]) || idtac.
  destruct (already_applied _ _ s); [done|]. destruct (is_archived _ s); [done|]. simpl.
  destruct (insert_audit _ _) as [s'|e] eqn:Hi; [|done]. simpl.
  by eapply insert_audit_inv; [|exact Hi]; destruct Hs.
Qed.
Lemma delete_inv_stored id now plan s : stored_inv s → stored_inv (delete_mission id now plan s).1.
Proof.
  intros Hs. unfold delete_mission. destruct (already_applied _ _ s); [done|].
  destruct (delete_impact _ _ s) as [cur|e]; simpl; [|done].
  destruct (_ || _ : bool); [done|].
  destruct (insert_audit _ _) as [s'|e] eqn:Hi; [|done]. simpl.
  eapply insert_audit_inv; [|exact Hi]. destruct Hs as [Hr ? ?].
  split; [by apply erase_rows_inv|done..].
Qed.
Lemma stored_reach_inv s : stored_reach s → stored_inv s.
Proof.
  induction 1 as [|s e _ [Hr Hk Hi] He|s es _ [Hr Hk Hi] Hes|s id now plan _ IH|s id now plan _ IH].
  - split; [|constructor..]. split; [done|]. by intros row []%elem_of_nil.
  - pose proof (encrypted_append_inv e s He Hr) as Hr'. split; [done|..].
    all: unfold encrypted_append; by destruct (mbind _ _).
  - pose proof (batch_inv es s Hes Hr) as Hr'. split; [done|..].
    all: unfold append_batch; destruct (is_empty es); [done|]; by destruct (mbind _ _).
  - by apply archive_inv.
  - by apply delete_inv_stored.
Qed.

(** The integrity check never raises a false alarm: on every ledger that
    appends, archivals and deletions can produce, with the database engine's
    own check passing, [integrity_report] succeeds, counts the stored events
    (saturating), reports a sequence no event exceeds and asks for no
    recovery; and no two audit receipts share an identifier, or an operation
    and a plan. *)
Theorem integrity_no_false_alarm s check :
  stored_reach s → to_ascii_lowercase check = "ok" →
  (∃ report, integrity_report check s = Ok report ∧
    LedgerIntegrityReport_recovery_required report = false ∧
    LedgerIntegrityReport_event_count report =
      Z.min u64_max (Z.of_nat (length (EncryptedLedger_events s))) ∧
    ∀ row, row ∈ EncryptedLedger_events s →
      (EventRow_sequence row ≤ LedgerIntegrityReport_last_committed_sequence report)%Z) ∧
  NoDup (AuditRow_receipt_id <$> EncryptedLedger_audit s) ∧
  NoDup ((λ row, (AuditRow_operation row, AuditRow_plan_hash row)) <$> EncryptedLedger_audit s).
Proof.
  intros [Hr Hk Hi]%stored_reach_inv Hc. split; [by apply integrity_report_ok|]. by split.
Qed.

(** C6: what the ledger accepts it gives back: on every ledger that
    appends, archivals and deletions produce, after an append succeeds, the
    mission replays as before followed by the event as it is stored (payload
    and raw evidence redacted, fields the table does not keep at their
    defaults), unless the event was already there, in which case nothing
    changes; the mission's events are numbered from one without gaps, other
    missions replay as before, and a failed append changes nothing. *)
Theorem ledger_replays_appended s e s' :
  stored_reach s → storable (EncryptedLedger_redactor s) e →
  encrypted_append e s = (s', Ok tt) →
  ∃ es, replay_events (EventEnvelope_mission_id e) s = Ok es ∧
    EventEnvelope_sequence <$> es = Z.of_nat <$> seq 1 (length es) ∧
    ((s' = s ∧ ∃ e0, e0 ∈ es ∧ EventEnvelope_event_id e0 = EventEnvelope_event_id e ∧
        EventEnvelope_sequence e0 = EventEnvelope_sequence e) ∨
     (∃ payload raw,
        redact (EncryptedLedger_redactor s) (EventEnvelope_payload e) = Ok payload ∧
        match EventEnvelope_raw_evidence e with
        | None => raw = None
        | Some v => ∃ r, redact (EncryptedLedger_redactor s) v = Ok r ∧ raw = Some r
        end ∧
        replay_events (EventEnvelope_mission_id e) s' = Ok (es ++ [persisted e payload raw]) ∧
        EventEnvelope_sequence e = Z.of_nat (S (length es)))) ∧
    (∀ m, m ≠ EventEnvelope_mission_id e → replay_events m s' = replay_events m s).
Proof. intros [Hr _ _]%stored_reach_inv. by apply append_replays. Qed.

(** ** Retention *)
Lemma sum_by_mission (f : EventRow → Z) rows ms :
  NoDup ms → (∀ row, row ∈ rows → EventRow_mission_id row ∈ ms) →
  foldr Z.add 0%Z ((λ m, foldr Z.add 0%Z (f <$> by_mission m rows)) <$> ms) =
  foldr Z.add 0%Z (f <$> rows).
Proof.
  intros Hnd. induction rows as [|row rows IH]; intros Hin.
  { clear. induction ms as [|m ms IH]; [done|]. exact IH. }
  csimpl. rewrite <-IH by (intros r Hr; apply Hin; by right).
  assert (EventRow_mission_id row ∈ ms) as Hm by (apply Hin; by left). clear -Hnd Hm.
  induction ms as [|m ms IH]; [by apply elem_of_nil in Hm|]. apply NoDup_cons in Hnd as [Hn Hnd].
  csimpl. unfold by_mission at 1. rewrite filter_cons. apply elem_of_cons in Hm as [<-|Hm].
  - rewrite decide_True by done. csimpl. fold (by_mission (EventRow_mission_id row) rows).
    assert ((λ m, foldr Z.add 0%Z (f <$> by_mission m (row :: rows))) <$> ms =
            (λ m, foldr Z.add 0%Z (f <$> by_mission m rows)) <$> ms) as ->.
    { apply list_fmap_ext. intros i m Hi. unfold by_mission. rewrite filter_cons, decide_False; [done|].
      intros <-. apply Hn. by eapply list_elem_of_lookup_2. }
    lia.
  - rewrite decide_False by (intros <-; done). fold (by_mission m rows). rewrite IH by done. lia.
Qed.
Lemma length_as_sum {A} (l : list A) : Z.of_nat (length l) = foldr Z.add 0%Z ((λ _, 1%Z) <$> l).
Proof. induction l as [|x l IH]; csimpl; [done|]. rewrite <-IH. lia. Qed.
Lemma mission_storage_Ok s mission r :
  mission_storage s mission = Ok r →
  MissionStorage_event_count r =
    foldr Z.add 0%Z ((λ _, 1%Z) <$> by_mission mission (EncryptedLedger_events s)) ∧
  MissionStorage_bytes r =
    foldr Z.add 0%Z (row_length <$> by_mission mission (EncryptedLedger_events s)).
Proof.
  unfold mission_storage, sql_sum. intros Hr.
  apply result_bind_Ok in Hr as (b&Hb&Hr). destruct (_ <=? _)%Z in Hb; [|done]. injection Hb as <-.
  apply result_bind_Ok in Hr as (u&_&Hr). apply result_bind_Ok in Hr as (b&Hb&Hr).
  destruct (_ <=? _)%Z in Hb; [|done]. injection Hb as <-. injection Hr as <-. simpl.
  by rewrite length_as_sum.
Qed.

(** A retention plan never asks for automatic deletion, and over the
    whole ledger its candidates account for everything stored: the counts and
    sizes of the missions add up to the totals, and the plan is over budget
    exactly when a limit that is set is below the total. *)
Theorem retention_accounts_for_all budget s plan :
  retention_plan budget s = Ok plan →
  let total := RetentionPlan_global_usage plan in
  RetentionPlan_automatic_deletion plan = false ∧
  foldr Z.add 0%Z (MissionStorage_event_count <$> RetentionPlan_candidate_missions plan) =
    StorageUsage_event_count total ∧
  foldr Z.add 0%Z (MissionStorage_bytes <$> RetentionPlan_candidate_missions plan) =
    StorageUsage_event_bytes total ∧
  StorageUsage_event_count total = Z.of_nat (length (EncryptedLedger_events s)) ∧
  (RetentionPlan_over_budget plan = true ↔
    (∃ l, StorageBudget_project_limit_bytes budget = Some l ∧ l < StorageUsage_total_bytes total)%Z ∨
    (∃ l, StorageBudget_global_limit_bytes budget = Some l ∧ l < StorageUsage_total_bytes total)%Z).
Proof.
  unfold retention_plan, retention_plan_for_project. intros Hp.
  apply result_bind_Ok in Hp as (u&Hu&Hp). simpl in Hp.
  apply result_bind_Ok in Hp as (ms&Hms&Hp).
  assert (List.filter (λ _ : MissionStorage, true) ms = ms) as Hid
    by (clear; induction ms as [|x l IH]; simpl; congruence).
  rewrite Hid in Hp. injection Hp as <-. simpl.
  unfold storage_usage, sql_sum, u64_try_from in Hu. simpl in Hu.
  repeat (apply result_bind_Ok in Hu as (?&Hx&Hu); repeat (destruct (_ <=? _)%Z in Hx; [|done]);
          injection Hx as <-).
  injection Hu as <-. simpl.
  unfold all_missions in Hms. apply mapM_Ok in Hms.
  set (ids := sort_cmp _ _) in *.
  assert (NoDup ids ∧ ∀ row, row ∈ EncryptedLedger_events s → EventRow_mission_id row ∈ ids) as [Hnd Hin].
  { subst ids. unfold sort_cmp. split; [rewrite sort_by_perm; apply NoDup_remove_dups|].
    intros row Hr. rewrite sort_by_elem, elem_of_remove_dups. by apply list_elem_of_fmap_2. }
  assert (∀ g f, (∀ m r, mission_storage s m = Ok r →
      g r = foldr Z.add 0%Z (f <$> by_mission m (EncryptedLedger_events s))) →
    foldr Z.add 0%Z (g <$> ms) = foldr Z.add 0%Z (f <$> EncryptedLedger_events s)) as Hsum.
  { intros g f Hgf. rewrite <-(sum_by_mission f _ ids Hnd Hin). f_equal. clear -Hms Hgf.
    induction Hms as [|m r ids ms Hmr _ IH]; [done|]. csimpl. by rewrite IH, (Hgf _ _ Hmr). }
  split_and!; [done| | |done|].
  - rewrite length_as_sum. apply Hsum. intros m r Hr. by apply mission_storage_Ok in Hr as [-> _].
  - apply Hsum. intros m r Hr. by apply mission_storage_Ok in Hr as [_ ->].
  - rewrite orb_true_iff. unfold over.
    destruct (StorageBudget_project_limit_bytes budget), (StorageBudget_global_limit_bytes budget);
      rewrite ?Z.ltb_lt; naive_solver.
Qed.
End lifecycle.

(** ** Concrete missions *)
Module LifecycleExamples.
Import Json RedactionExamples LedgerExamples.
#[export] Instance elements_order : HashSetOrder := elements.
#[export] Instance elements_order_laws : HashSetOrderLaws.
Proof. intros X. reflexivity. Qed.

Lemma lg_one_reach : stored_reach lg_one.
Proof. apply (stored_append lg_empty); [constructor|apply lg_first_storable]. Qed.

Lemma ledger_replays_appended_witness :
  is_ok (encrypted_append lg_second lg_one).2 = true ∧
  ∃ es, replay_events 7%N lg_one = Ok es ∧
    EventEnvelope_sequence <$> es = Z.of_nat <$> seq 1 (length es).
Proof.
  assert (is_ok (encrypted_append lg_second lg_one).2 = true) as Hok by (vm_compute; reflexivity).
  split; [exact Hok|]. destruct (encrypted_append lg_second lg_one) as [s' [[]|e]] eqn:Ha; [|done].
  destruct (ledger_replays_appended lg_one lg_second s' lg_one_reach lg_second_storable Ha)
    as (es&Hes&Hseq&_). exact (ex_intro _ es (conj Hes Hseq)).
Defined.

Lemma integrity_no_false_alarm_witness :
  length (EncryptedLedger_events lg_one) = 1 ∧
  ∃ report, integrity_report "OK" lg_one = Ok report ∧
    LedgerIntegrityReport_event_count report = 1%Z.
Proof.
  assert (length (EncryptedLedger_events lg_one) = 1) as Hl by (vm_compute; reflexivity).
  split; [exact Hl|].
  destruct (integrity_no_false_alarm lg_one "OK" lg_one_reach eq_refl) as [(report&Hr&_&Hc&_) _].
  exists report. split; [exact Hr|]. rewrite Hc, Hl. reflexivity.
Defined.

(** A ledger with two missions' blobs: mission 7 holds "aa", mission 9 "bb". *)
Definition lc_row : BlobRow :=
  {| BlobRow_size := 3; BlobRow_media_type := "text/plain"; BlobRow_ref_count := 1 |}.
Definition lc_ledger : EncryptedLedger := {|
  EncryptedLedger_redactor := Redactor_default;
  EncryptedLedger_events := EncryptedLedger_events lg_one;
  EncryptedLedger_blob_refs := {[ "bb" := lc_row ]};
  EncryptedLedger_mission_blob_refs := {[ (9%N, "bb") := (3%Z, "text/plain") ]};
  EncryptedLedger_lifecycle := ∅; EncryptedLedger_audit := [] |}.
Definition lc_blob : BlobImpact := {| BlobImpact_hash := "bb"; BlobImpact_size := 3;
  BlobImpact_media_type := "text/plain"; BlobImpact_ref_count := 1; BlobImpact_will_remove := true |}.
Lemma lc_fresh id : fresh_receipt id lc_ledger.
Proof. by intros row []%elem_of_nil. Qed.

Lemma delete_trusts_listed_blobs_witness :
  ∃ rows, BlobRow_ref_count <$> (rows : gmap string BlobRow) !! "bb" = Some 0%Z ∧
    EncryptedLedger_mission_blob_refs lc_ledger !! (9%N, "bb") = Some (3%Z, "text/plain").
Proof.
  assert (is_ok (delete_impact 0 7%N lc_ledger) = true) as Hok by (vm_compute; reflexivity).
  destruct (delete_impact 0 7%N lc_ledger) as [plan|e] eqn:Hp; [|discriminate].
  destruct (delete_trusts_listed_blobs 1%N 0 7%N lc_ledger plan [lc_blob] Hp eq_refl (lc_fresh 1%N))
    as (r&s'&_&Hrows).
  exists (EncryptedLedger_blob_refs s'). rewrite Hrows. split; reflexivity.
Defined.

Lemma archive_marks_only_witness :
  is_archived 7%N lc_ledger = false ∧ ∃ s', is_archived 7%N s' = true.
Proof.
  split; [reflexivity|].
  assert (is_ok (archive_plan 0 7%N lc_ledger) = true) as Hok by (vm_compute; reflexivity).
  destruct (archive_plan 0 7%N lc_ledger) as [plan|e] eqn:Hp; [|discriminate].
  destruct (archive_marks_only 1%N 86400 0 7%N lc_ledger plan Hp eq_refl eq_refl (lc_fresh 1%N))
    as (r&s'&_&Ha&_).
  exact (ex_intro _ s' Ha).
Defined.

Definition lc_budget : StorageBudget :=
  {| StorageBudget_project_limit_bytes := None; StorageBudget_global_limit_bytes := Some 2%Z |}.
Lemma retention_accounts_for_all_witness :
  length (EncryptedLedger_events lc_ledger) = 1 ∧
  ∃ plan, retention_plan lc_budget lc_ledger = Ok plan ∧
    StorageUsage_event_count (RetentionPlan_global_usage plan) = 1%Z.
Proof.
  assert (length (EncryptedLedger_events lc_ledger) = 1) as Hl by (vm_compute; reflexivity).
  split; [exact Hl|].
  assert (is_ok (retention_plan lc_budget lc_ledger) = true) as Hok by (vm_compute; reflexivity).
  destruct (retention_plan lc_budget lc_ledger) as [plan|e] eqn:Hp; [|discriminate].
  destruct (retention_accounts_for_all lc_budget lc_ledger plan Hp) as (_&_&_&Hc&_).
  exists plan. split; [reflexivity|]. rewrite Hc, Hl. reflexivity.
Defined.

(** Mission 7 with one event and one attached blob, under another digest. *)
Import BlobExamples.
Definition lc_stored : EncryptedLedger := {|
  EncryptedLedger_redactor := Redactor_default;
  EncryptedLedger_events := [{|
    EventRow_mission_id := uuid_to_string 7%N; EventRow_route_id := uuid_to_string 8%N;
    EventRow_sequence := 1; EventRow_event_id := uuid_to_string 1%N;
    EventRow_schema_version := 1; EventRow_kind := "mission_created";
    EventRow_occurred_at := "1970-01-01T00:00:00Z"; EventRow_payload := "null";
    EventRow_raw_evidence := None; EventRow_payload_hash := "" |}];
  EncryptedLedger_blob_refs := BlobStore_rows bs_attached;
  EncryptedLedger_mission_blob_refs := BlobStore_attached bs_attached;
  EncryptedLedger_lifecycle := ∅; EncryptedLedger_audit := [] |}.
Lemma lc_blob_inv :
  @blob_inv sum_sha256 mask_aead (blob_view (BlobStore_files bs_attached)
    (BlobStore_nonces_drawn bs_attached) lc_stored) (λ _, 0).
Proof. exact (reach_inv bs_nonces true bs_nonces_len _ _ bs_reach). Qed.
Lemma delete_mission_exact_witness :
  length (mission_blobs 7%N lc_stored) = 1 ∧
  ∃ s', @replay_events json_serde sum_sha256 json_uuid known_parse 7%N s' = Ok [].
Proof.
  split; [vm_compute; reflexivity|].
  assert (is_ok (@delete_impact _ sum_sha256 _ 0 7%N lc_stored) = true) as Hok
    by (vm_compute; reflexivity).
  destruct (@delete_impact _ sum_sha256 _ 0 7%N lc_stored) as [plan|e] eqn:Hp; [|discriminate].
  assert (fresh_receipt 1%N lc_stored) as Hf by (by intros row []%elem_of_nil).
  destruct (delete_mission_exact 1%N 86400 0 7%N lc_stored plan _ _ _ lc_blob_inv Hp eq_refl Hf)
    as (r&s'&_&_&Hr&_).
  exact (ex_intro _ s' Hr).
Defined.
End LifecycleExamples.
