(* ===== verification/RecoveryPackage.v ===== *)
(** * Recovery packages ([crates/memory/src/recovery.rs])

    A recovery package is a manifest that binds a stored blob to the state of
    a mission it was taken in.  The blob store is used through the interface
    [BlobStorage]; the store of [BlobStore] implements it. *)

From S2P Require Import Prelude Extern Ids Frame BlobStore.
From Stdlib Require Import ZArith Lia.
From stdpp Require Import prelude gmap strings.

(** What recovery needs of a blob store, and what the store promises. *)
Class BlobStorage (S : Type) : Type := {
  storage_put : list u8 → string → stm S BlobStoreError BlobRef;
  storage_read : BlobRef → S → result BlobStoreError (list u8);
  (* no other content is stored under the digest of this one *)
  storage_clear : list u8 → S → Prop;
}.
Class BlobStorageLaws S `{Sha256, BlobStorage S} : Prop := {
  storage_put_ref p m s s' r : storage_put p m s = (s', Ok r) →
    r = {| BlobRef_hash := blob_digest p; BlobRef_size := Z.of_nat (length p);
           BlobRef_media_type := m |};
  storage_put_read p m s s' r : storage_put p m s = (s', Ok r) → storage_clear p s →
    storage_read r s' = Ok p;
  storage_read_Ok r s p : storage_read r s = Ok p →
    blob_digest p = BlobRef_hash r ∧ Z.of_nat (length p) = BlobRef_size r;
}.

#[export] Instance encrypted_storage `{Sha256, Aead} (nonces : nat → option (list u8))
    : BlobStorage EncryptedBlobStore := {
  storage_put := blob_put nonces;
  storage_read := blob_read;
  storage_clear := no_collision;
}.
Lemma encrypted_storage_laws `{Sha256, Aead, !AeadLaws} nonces :
  (∀ i n, nonces i = Some n → length n = NONCE_LEN) →
  @BlobStorageLaws EncryptedBlobStore _ (encrypted_storage nonces).
Proof.
  intros Hn. split; simpl.
  - intros p m s s' r Hp. by apply (put_cases nonces Hn) in Hp as [[[e [=]] _]|([= ->]&_)].
  - intros p m s s' r. by apply (blob_put_reads nonces Hn).
  - intros r s p. apply blob_read_Ok.
Qed.

(** The [Display] text that [thiserror] derives. *)
Class DisplayFmt (T : Type) : Type := display_fmt : T → string.

Definition RECOVERY_SCHEMA_VERSION : u16 := 1%Z.
Definition RECOVERY_MEDIA_TYPE : string := "application/vnd.mission-control.recovery+json".

Record RecoveryInput := {
  RecoveryInput_mission_id : MissionId;
  RecoveryInput_route_id : RouteId;
  RecoveryInput_contract_version : u64;
  RecoveryInput_checkpoint_id : string;
  RecoveryInput_ledger_sequence : u64;
  RecoveryInput_loadout_fingerprint : string;
  RecoveryInput_context_pack_hash : string;
  RecoveryInput_pending_approval_hash : option string;
  RecoveryInput_permissions : gset string;
  RecoveryInput_payload : list u8;
}.
Record RecoveryConstraints := {
  RecoveryConstraints_mission_id : MissionId;
  RecoveryConstraints_route_id : RouteId;
  RecoveryConstraints_contract_version : u64;
  RecoveryConstraints_ledger_sequence : u64;
  RecoveryConstraints_loadout_fingerprint : string;
  RecoveryConstraints_context_pack_hash : string;
  RecoveryConstraints_pending_approval_hash : option string;
  RecoveryConstraints_permissions : gset string;
}.
Record RecoveryManifest := {
  RecoveryManifest_schema_version : u16;
  RecoveryManifest_mission_id : MissionId;
  RecoveryManifest_route_id : RouteId;
  RecoveryManifest_contract_version : u64;
  RecoveryManifest_checkpoint_id : string;
  RecoveryManifest_ledger_sequence : u64;
  RecoveryManifest_loadout_fingerprint : string;
  RecoveryManifest_context_pack_hash : string;
  RecoveryManifest_pending_approval_hash : option string;
  RecoveryManifest_permissions : gset string;
  RecoveryManifest_entry_hash : string;
}.
Record RecoveryPackage := {
  RecoveryPackage_manifest : RecoveryManifest;
  RecoveryPackage_blob : BlobRef;
}.
Inductive RecoveryError :=
| RecoveryInvalidInput | BlobIntegrity | ManifestTampered | SequenceInvalid
| PermissionExpansion | BindingMismatch | PendingApprovalMismatch
| RecoveryBlobStore (message : string).
#[export] Instance RecoveryError_eq_dec : EqDecision RecoveryError.
Proof. solve_decision. Defined.

Definition validate_input (input : RecoveryInput) : result RecoveryError unit :=
  if blank (RecoveryInput_checkpoint_id input)
     || (512 <? str_len (RecoveryInput_checkpoint_id input))%Z
     || blank (RecoveryInput_loadout_fingerprint input)
     || blank (RecoveryInput_context_pack_hash input)
     || is_empty (RecoveryInput_payload input)
  then Err RecoveryInvalidInput
  else if existsb (λ permission, blank permission || (128 <? str_len permission)%Z)
            (elements (RecoveryInput_permissions input))
  then Err RecoveryInvalidInput else Ok tt.

(** The manifest with its [entry_hash] replaced. *)
Definition with_entry_hash (hash : string) (m : RecoveryManifest) : RecoveryManifest := {|
  RecoveryManifest_schema_version := RecoveryManifest_schema_version m;
  RecoveryManifest_mission_id := RecoveryManifest_mission_id m;
  RecoveryManifest_route_id := RecoveryManifest_route_id m;
  RecoveryManifest_contract_version := RecoveryManifest_contract_version m;
  RecoveryManifest_checkpoint_id := RecoveryManifest_checkpoint_id m;
  RecoveryManifest_ledger_sequence := RecoveryManifest_ledger_sequence m;
  RecoveryManifest_loadout_fingerprint := RecoveryManifest_loadout_fingerprint m;
  RecoveryManifest_context_pack_hash := RecoveryManifest_context_pack_hash m;
  RecoveryManifest_pending_approval_hash := RecoveryManifest_pending_approval_hash m;
  RecoveryManifest_permissions := RecoveryManifest_permissions m;
  RecoveryManifest_entry_hash := hash |}.

Definition input_manifest (input : RecoveryInput) : RecoveryManifest := {|
  RecoveryManifest_schema_version := RECOVERY_SCHEMA_VERSION;
  RecoveryManifest_mission_id := RecoveryInput_mission_id input;
  RecoveryManifest_route_id := RecoveryInput_route_id input;
  RecoveryManifest_contract_version := RecoveryInput_contract_version input;
  RecoveryManifest_checkpoint_id := RecoveryInput_checkpoint_id input;
  RecoveryManifest_ledger_sequence := RecoveryInput_ledger_sequence input;
  RecoveryManifest_loadout_fingerprint := RecoveryInput_loadout_fingerprint input;
  RecoveryManifest_context_pack_hash := RecoveryInput_context_pack_hash input;
  RecoveryManifest_pending_approval_hash := RecoveryInput_pending_approval_hash input;
  RecoveryManifest_permissions := RecoveryInput_permissions input;
  RecoveryManifest_entry_hash := "" |}.

Section recovery.
Context `{Sha256} {S : Type} `{!BlobStorage S, !DisplayFmt BlobStoreError}.
Context `{!SerdeText (RecoveryManifest * BlobRef)}.

Definition RecoveryError_from (error : BlobStoreError) : RecoveryError :=
  match error with
  | IntegrityFailed => BlobIntegrity
  | other => RecoveryBlobStore (display_fmt other)
  end.

Definition digest_manifest (manifest : RecoveryManifest) (blob : BlobRef)
    : result RecoveryError string :=
  bytes ← ok_or RecoveryInvalidInput (to_text (with_entry_hash "" manifest, blob));
  Ok (sha256_hex bytes).

Definition build_recovery_package (input : RecoveryInput) : stm S RecoveryError RecoveryPackage :=
  _ ← stm_lift (validate_input input);
  blob ← stm_zoom id (λ s _, s) RecoveryError_from
           (storage_put (RecoveryInput_payload input) RECOVERY_MEDIA_TYPE);
  let manifest := input_manifest input in
  entry_hash ← stm_lift (digest_manifest manifest blob);
  mret {| RecoveryPackage_manifest := with_entry_hash entry_hash manifest;
          RecoveryPackage_blob := blob |}.

Definition recovery_verify (self : RecoveryPackage) (store : S)
    (constraints : RecoveryConstraints) : result RecoveryError (list u8) :=
  let manifest := RecoveryPackage_manifest self in
  let blob := RecoveryPackage_blob self in
  if negb (RecoveryManifest_schema_version manifest =? RECOVERY_SCHEMA_VERSION)%Z
     || negb (str_eqb (BlobRef_media_type blob) RECOVERY_MEDIA_TYPE)
  then Err ManifestTampered else
  hash ← digest_manifest manifest blob;
  if negb (str_eqb (RecoveryManifest_entry_hash manifest) hash) then Err ManifestTampered
  else if (RecoveryConstraints_ledger_sequence constraints
           <? RecoveryManifest_ledger_sequence manifest)%Z then Err SequenceInvalid
  else if negb (bool_decide (RecoveryManifest_mission_id manifest =
                             RecoveryConstraints_mission_id constraints))
     || negb (bool_decide (RecoveryManifest_route_id manifest =
                           RecoveryConstraints_route_id constraints))
     || negb (RecoveryManifest_contract_version manifest =?
              RecoveryConstraints_contract_version constraints)%Z
     || negb (str_eqb (RecoveryManifest_loadout_fingerprint manifest)
                      (RecoveryConstraints_loadout_fingerprint constraints))
     || negb (str_eqb (RecoveryManifest_context_pack_hash manifest)
                      (RecoveryConstraints_context_pack_hash constraints))
  then Err BindingMismatch
  else if negb (bool_decide (RecoveryManifest_pending_approval_hash manifest =
                             RecoveryConstraints_pending_approval_hash constraints))
  then Err PendingApprovalMismatch
  else if negb (bool_decide (RecoveryManifest_permissions manifest ⊆
                             RecoveryConstraints_permissions constraints))
  then Err PermissionExpansion
  else map_err RecoveryError_from (storage_read blob store).

(** ** Correctness *)

(** The state a package was taken in is one the constraints accept. *)
Definition constraints_admit (input : RecoveryInput) (c : RecoveryConstraints) : Prop :=
  RecoveryInput_mission_id input = RecoveryConstraints_mission_id c ∧
  RecoveryInput_route_id input = RecoveryConstraints_route_id c ∧
  RecoveryInput_contract_version input = RecoveryConstraints_contract_version c ∧
  RecoveryInput_loadout_fingerprint input = RecoveryConstraints_loadout_fingerprint c ∧
  RecoveryInput_context_pack_hash input = RecoveryConstraints_context_pack_hash c ∧
  RecoveryInput_pending_approval_hash input = RecoveryConstraints_pending_approval_hash c ∧
  (RecoveryInput_ledger_sequence input ≤ RecoveryConstraints_ledger_sequence c)%Z ∧
  RecoveryInput_permissions input ⊆ RecoveryConstraints_permissions c.

Context `{!BlobStorageLaws S}.

Lemma build_Ok input s s' pkg :
  build_recovery_package input s = (s', Ok pkg) →
  storage_put (RecoveryInput_payload input) RECOVERY_MEDIA_TYPE s =
    (s', Ok (RecoveryPackage_blob pkg)) ∧
  BlobRef_media_type (RecoveryPackage_blob pkg) = RECOVERY_MEDIA_TYPE ∧
  ∃ hash, digest_manifest (input_manifest input) (RecoveryPackage_blob pkg) = Ok hash ∧
    RecoveryPackage_manifest pkg = with_entry_hash hash (input_manifest input).
Proof.
  unfold build_recovery_package, mret, stm_ret, mbind, stm_bind, stm_lift, stm_zoom.
  destruct (validate_input input) as [[]|]; [|done]. simpl.
  destruct (storage_put _ _ s) as [s1 [blob|e]] eqn:Hp; simpl; [|done].
  destruct (digest_manifest _ blob) as [hash|e] eqn:Hd; intros [= <- <-]. simpl.
  pose proof (storage_put_ref _ _ _ _ _ Hp) as Hr. split_and!; [done|by rewrite Hr|].
  by exists hash.
Qed.

(** What a manifest says about the state, as constraints see it. *)
Definition manifest_admitted (m : RecoveryManifest) (c : RecoveryConstraints) : Prop :=
  RecoveryManifest_mission_id m = RecoveryConstraints_mission_id c ∧
  RecoveryManifest_route_id m = RecoveryConstraints_route_id c ∧
  RecoveryManifest_contract_version m = RecoveryConstraints_contract_version c ∧
  RecoveryManifest_loadout_fingerprint m = RecoveryConstraints_loadout_fingerprint c ∧
  RecoveryManifest_context_pack_hash m = RecoveryConstraints_context_pack_hash c ∧
  RecoveryManifest_pending_approval_hash m = RecoveryConstraints_pending_approval_hash c ∧
  (RecoveryManifest_ledger_sequence m ≤ RecoveryConstraints_ledger_sequence c)%Z ∧
  RecoveryManifest_permissions m ⊆ RecoveryConstraints_permissions c.

Lemma verify_Ok pkg store c p :
  recovery_verify pkg store c = Ok p ↔
  RecoveryManifest_schema_version (RecoveryPackage_manifest pkg) = RECOVERY_SCHEMA_VERSION ∧
  BlobRef_media_type (RecoveryPackage_blob pkg) = RECOVERY_MEDIA_TYPE ∧
  digest_manifest (RecoveryPackage_manifest pkg) (RecoveryPackage_blob pkg) =
    Ok (RecoveryManifest_entry_hash (RecoveryPackage_manifest pkg)) ∧
  manifest_admitted (RecoveryPackage_manifest pkg) c ∧
  storage_read (RecoveryPackage_blob pkg) store = Ok p.
Proof.
  unfold recovery_verify, manifest_admitted.
  destruct (digest_manifest _ _) as [hash|e]; cbn [mbind result_bind].
  2:{ split; [by case_match|naive_solver]. }
  split.
  - unfold map_err. intros Hv. repeat case_match; simplify_eq/=; guards.
    split_and!; congruence || lia || done.
  - intros (->&->&[= ->]&(->&->&->&->&->&->&Hs&Hp)&->).
    unfold str_eqb. rewrite !String.eqb_refl, !Z.eqb_refl.
    rewrite (proj2 (Z.ltb_ge _ _)) by lia.
    rewrite !bool_decide_eq_true_2 by done. done.
Qed.

Lemma digest_manifest_Ok m b h :
  digest_manifest m b = Ok h →
  ∃ text, to_text (with_entry_hash "" m, b) = Some text ∧ h = sha256_hex text.
Proof. unfold digest_manifest. destruct (to_text _) as [x|]; [|done]. intros [= <-]. eauto. Qed.
Lemma with_entry_hash_entry m :
  m = with_entry_hash (RecoveryManifest_entry_hash m) (with_entry_hash "" m).
Proof. by destruct m. Qed.

(** C30: a recovery package can be used only for the state it was taken in,
    and then it gives back exactly what was saved.  A package that was just
    built verifies against every constraint that admits its input and yields
    the saved payload (when the store held nothing else under that digest);
    whatever later happens to the store, it verifies only for such
    constraints, only with permissions those constraints already grant, and
    only to bytes of the saved payload's digest and length; and another
    package with the same entry hash that verifies is this package, or it
    exhibits a collision of the digest. *)
Theorem recovery_package_bound `{!SerdeTextLaws (RecoveryManifest * BlobRef)} input s s' pkg :
  build_recovery_package input s = (s', Ok pkg) →
  (storage_clear (RecoveryInput_payload input) s →
    ∀ c, constraints_admit input c →
      recovery_verify pkg s' c = Ok (RecoveryInput_payload input)) ∧
  (∀ store c p, recovery_verify pkg store c = Ok p →
    constraints_admit input c ∧
    blob_digest p = blob_digest (RecoveryInput_payload input) ∧
    length p = length (RecoveryInput_payload input)) ∧
  (∀ store c p pkg', recovery_verify pkg' store c = Ok p →
    RecoveryManifest_entry_hash (RecoveryPackage_manifest pkg') =
      RecoveryManifest_entry_hash (RecoveryPackage_manifest pkg) →
    pkg' = pkg ∨ ∃ a b, a ≠ b ∧ sha256_hex a = sha256_hex b).
Proof.
  intros (Hput&Hm&hash&Hd&Hman)%build_Ok. split_and!.
  - intros Hclear c Hc. apply verify_Ok. rewrite Hman. split_and!; try done.
    by eapply storage_put_read.
  - intros store c p (_&_&_&Hc&Hr)%verify_Ok. rewrite Hman in Hc.
    apply storage_read_Ok in Hr as [Hdig Hlen].
    rewrite (storage_put_ref _ _ _ _ _ Hput) in Hdig, Hlen. simpl in *.
    split_and!; [done|done|lia].
  - intros store c p pkg' (_&_&Hd'&_)%verify_Ok Heq. rewrite Hman in Heq. simpl in Heq.
    rewrite Heq in Hd'. apply digest_manifest_Ok in Hd as (a&Ha&Hha).
    apply digest_manifest_Ok in Hd' as (b&Hb&Hhb).
    destruct (decide (a = b)) as [<-|Hne]; [left|right; exists a, b; split; congruence].
    apply from_to_text in Ha, Hb. rewrite Ha in Hb. apply (inj Some), pair_eq in Hb as [Hmf Hblob].
    destruct pkg as [m bl], pkg' as [m' bl']. simpl in *. subst bl'. f_equal.
    rewrite (with_entry_hash_entry m'), Heq, <-Hmf, Hman. done.
Qed.
End recovery.

(** ** A concrete package *)
Module RecoveryPackageExamples.
Import Json BlobExamples.
#[local] Existing Instance sum_sha256.
#[local] Existing Instance json_debug.
#[export] Instance example_display T : DisplayFmt T := λ _, "error".

(** A package as text: the bits of its code. *)
Definition manifest_tuple (v : RecoveryManifest * BlobRef) :=
  let '(m, b) := v in
  ((RecoveryManifest_schema_version m, RecoveryManifest_mission_id m,
    RecoveryManifest_route_id m, RecoveryManifest_contract_version m,
    RecoveryManifest_checkpoint_id m, RecoveryManifest_ledger_sequence m),
   (RecoveryManifest_loadout_fingerprint m, RecoveryManifest_context_pack_hash m,
    RecoveryManifest_pending_approval_hash m, RecoveryManifest_permissions m,
    RecoveryManifest_entry_hash m),
   (BlobRef_hash b, BlobRef_size b, BlobRef_media_type b)).
Definition tuple_manifest (t : (Z * N * N * Z * string * Z) *
    (string * string * option string * gset string * string) * (string * Z * string))
    : RecoveryManifest * BlobRef :=
  let '((sv, mi, ri, cv, ci, ls), (lf, cp, pa, pe, eh), (h, sz, mt)) := t in
  ({| RecoveryManifest_schema_version := sv; RecoveryManifest_mission_id := mi;
      RecoveryManifest_route_id := ri; RecoveryManifest_contract_version := cv;
      RecoveryManifest_checkpoint_id := ci; RecoveryManifest_ledger_sequence := ls;
      RecoveryManifest_loadout_fingerprint := lf; RecoveryManifest_context_pack_hash := cp;
      RecoveryManifest_pending_approval_hash := pa; RecoveryManifest_permissions := pe;
      RecoveryManifest_entry_hash := eh |},
   {| BlobRef_hash := h; BlobRef_size := sz; BlobRef_media_type := mt |}).
#[export] Instance manifest_text : SerdeText (RecoveryManifest * BlobRef) := {
  to_text v := Some (bits_text (encode (manifest_tuple v)));
  from_text s := p ← text_bits s; tuple_manifest <$> decode p;
}.
Lemma bits_text_utf8 p : utf8_valid (str_bytes (bits_text p)) = true.
Proof. by induction p as [p IH|p IH|]; [apply IH|apply IH|]. Qed.
#[export] Instance manifest_text_laws : SerdeTextLaws (RecoveryManifest * BlobRef).
Proof.
  split; intros [[] []] s [= <-].
  - apply bits_text_utf8.
  - simpl. rewrite text_bits_text. simpl. by rewrite decode_encode.
Qed.

Definition rp_input : RecoveryInput := {|
  RecoveryInput_mission_id := 7%N; RecoveryInput_route_id := 8%N;
  RecoveryInput_contract_version := 3; RecoveryInput_checkpoint_id := "c3";
  RecoveryInput_ledger_sequence := 18; RecoveryInput_loadout_fingerprint := "l3";
  RecoveryInput_context_pack_hash := "p3"; RecoveryInput_pending_approval_hash := None;
  RecoveryInput_permissions := {[ "read" ]}; RecoveryInput_payload := str_bytes "paused" |}.
Definition rp_constraints : RecoveryConstraints := {|
  RecoveryConstraints_mission_id := 7%N; RecoveryConstraints_route_id := 8%N;
  RecoveryConstraints_contract_version := 3; RecoveryConstraints_ledger_sequence := 20;
  RecoveryConstraints_loadout_fingerprint := "l3"; RecoveryConstraints_context_pack_hash := "p3";
  RecoveryConstraints_pending_approval_hash := None;
  RecoveryConstraints_permissions := {[ "read"; "write" ]} |}.

Lemma recovery_package_bound_witness :
  ∃ s' pkg, build_recovery_package (BlobStorage0 := encrypted_storage bs_nonces)
      rp_input BlobStore_empty = (s', Ok pkg) ∧
    recovery_verify (BlobStorage0 := encrypted_storage bs_nonces) pkg s' rp_constraints =
      Ok (str_bytes "paused").
Proof.
  destruct (build_recovery_package (BlobStorage0 := encrypted_storage bs_nonces)
    rp_input BlobStore_empty) as [s' [pkg|e]] eqn:Hb; [|by vm_compute in Hb].
  exists s', pkg. split; [done|].
  pose proof (encrypted_storage_laws bs_nonces bs_nonces_len) as Hl.
  destruct (recovery_package_bound (BlobStorage0 := encrypted_storage bs_nonces)
    rp_input BlobStore_empty s' pkg Hb) as (Hr&_).
  apply Hr.
  - intros encoded He. by vm_compute in He.
  - unfold constraints_admit. do 6 (split; [reflexivity|]). split; [vm_compute; discriminate|].
    apply (bool_decide_eq_true_1 _). vm_compute. reflexivity.
Defined.
End RecoveryPackageExamples.
