(* ===== verification/ServiceData.v ===== *)
(** * Requests, results and budgets of the mission service
    ([crates/supervisor/src/mission_service.rs])

    The records that cross the command interface, the validation of a
    request, the budget of a mission with its defaults, and the reading of
    token usage from agent events.  The state and the handlers are in
    [Service]. *)

From S2P Require Import Prelude Extern Ids Event Budget AdapterCore.
From Stdlib Require Import ZArith Lia.
From stdpp Require Import prelude gmap strings.

Definition MISSION_COMMANDS : list string :=
  ["create_mission"; "update_mission_contract"; "launch_route"; "subscribe_mission";
   "request_safe_pause"; "request_force_termination"; "force_terminate"; "resolve_approval";
   "build_recovery_package"; "verify_recovery"; "resolve_recovery"; "review_memory";
   "handoff_provider"; "provider_capabilities"; "storage_preview"; "export_preview";
   "diagnostic_preview"; "archive_mission"; "delete_mission"; "materialize_export"].

Record MissionBudgetRequest := {
  MissionBudgetRequest_tokens : option u64;
  MissionBudgetRequest_money_micros : option u64;
  MissionBudgetRequest_wall_clock_ms : option u64;
  MissionBudgetRequest_changed_lines : option u64;
  MissionBudgetRequest_changed_files : option u64;
  MissionBudgetRequest_model_calls : option u64;
}.
Definition no_budget : MissionBudgetRequest := {|
  MissionBudgetRequest_tokens := None; MissionBudgetRequest_money_micros := None;
  MissionBudgetRequest_wall_clock_ms := None; MissionBudgetRequest_changed_lines := None;
  MissionBudgetRequest_changed_files := None; MissionBudgetRequest_model_calls := None |}.

Definition DEFAULT_BUDGET_LIMITS : BudgetLimits := {|
  BudgetLimits_tokens := 100000; BudgetLimits_money_micros := 10000000;
  BudgetLimits_wall_clock := {| Duration_secs := 30 * 60; Duration_nanos := 0 |};
  BudgetLimits_changed_lines := 10000; BudgetLimits_changed_files := 1000;
  BudgetLimits_model_calls := 100 |}.

(** [Duration::from_millis]. *)
Definition from_millis (ms : u64) : Duration :=
  {| Duration_secs := ms / 1000; Duration_nanos := (ms mod 1000) * 1000000 |}.

Definition MissionBudgetRequest_limits (self : MissionBudgetRequest) : BudgetLimits := {|
  BudgetLimits_tokens :=
    default (BudgetLimits_tokens DEFAULT_BUDGET_LIMITS) (MissionBudgetRequest_tokens self);
  BudgetLimits_money_micros :=
    default (BudgetLimits_money_micros DEFAULT_BUDGET_LIMITS) (MissionBudgetRequest_money_micros self);
  BudgetLimits_wall_clock := from_millis
    (default (as_millis (BudgetLimits_wall_clock DEFAULT_BUDGET_LIMITS))
       (MissionBudgetRequest_wall_clock_ms self));
  BudgetLimits_changed_lines :=
    default (BudgetLimits_changed_lines DEFAULT_BUDGET_LIMITS) (MissionBudgetRequest_changed_lines self);
  BudgetLimits_changed_files :=
    default (BudgetLimits_changed_files DEFAULT_BUDGET_LIMITS) (MissionBudgetRequest_changed_files self);
  BudgetLimits_model_calls :=
    default (BudgetLimits_model_calls DEFAULT_BUDGET_LIMITS) (MissionBudgetRequest_model_calls self) |}.

Definition default_budget_tracker : BudgetTracker :=
  BudgetTracker_new 1 DEFAULT_BUDGET_LIMITS UnknownPause.

Section data.
Context `{SerdeJson}.

Record MissionCommandRequest := {
  Request_provider : option ProviderId;
  Request_target_provider : option ProviderId;
  Request_loadout : option LoadoutSnapshot;
  Request_mission_id : option string;
  Request_route_id : option string;
  Request_expected_version : option u64;
  Request_project_root : option string;
  Request_goal : option string;
  Request_reason : option string;
  Request_confirmation_token : option string;
  Request_approval_id : option string;
  Request_approval_decision : option string;
  Request_approval_scope : option string;
  Request_action_digest : option string;
  Request_expected_revision : option u64;
  Request_now_ms : option u64;
  Request_loadout_fingerprint : option string;
  Request_resume_token : option string;
  Request_checkpoint_id : option string;
  Request_contract_version : option u64;
  Request_ledger_sequence : option u64;
  Request_context_pack_hash : option string;
  Request_pending_approval_hash : option string;
  Request_memory_id : option string;
  Request_memory_decision : option string;
  Request_project_limit_bytes : option u64;
  Request_global_limit_bytes : option u64;
  Request_recovery_package : option Value;
  Request_recovery_decision : option string;
  Request_budget : option MissionBudgetRequest;
  Request_impact_hash : option string;
  Request_archive_plan : option Value;
  Request_delete_plan : option Value;
}.

Record MissionCommandResult := {
  Result_accepted : bool;
  Result_mission_id : option string;
  Result_route_id : option string;
  Result_sequence : option u64;
  Result_error_code : option string;
  Result_confirmation_token : option string;
  Result_provider : option ProviderId;
  Result_capability : option AgentCapabilityReport;
  Result_events : list Value;
  Result_recovery_package : option Value;
  Result_capabilities : list AgentCapabilityReport;
  Result_cc_switch : option Value;
  Result_data : option Value;
  Result_recovery_required : bool;
}.
Definition lifecycle_result (data : Value) : MissionCommandResult := {|
  Result_accepted := true; Result_mission_id := None; Result_route_id := None;
  Result_sequence := None; Result_error_code := None; Result_confirmation_token := None;
  Result_provider := None; Result_capability := None; Result_events := [];
  Result_recovery_package := None; Result_capabilities := []; Result_cc_switch := None;
  Result_data := Some data; Result_recovery_required := false |}.

Definition too_long (limit : Z) (o : option string) : bool :=
  match o with Some value => (limit <? str_len value)%Z | None => false end.
Definition validate_mission_request (request : MissionCommandRequest) : result string unit :=
  if too_long 4096 (Request_project_root request) then Err "PROJECT_ROOT_TOO_LONG"
  else if too_long 32000 (Request_goal request) then Err "GOAL_TOO_LONG"
  else if too_long 256 (Request_confirmation_token request) then Err "CONFIRMATION_TOKEN_TOO_LONG"
  else if too_long 512 (Request_loadout_fingerprint request) then Err "LOADOUT_FINGERPRINT_TOO_LONG"
  else if too_long 4096 (Request_resume_token request) then Err "RESUME_TOKEN_TOO_LONG"
  else Ok tt.

(** The derived [Deserialize] of [MissionBudgetRequest]: a missing or null
    field is [None], a field that is not a [u64] is an error. *)
Definition opt_u64_field (object : gmap string Value) (name : string) : option (option u64) :=
  match object !! name with
  | None => Some None
  | Some v => if bool_decide (v = Value_Null) then Some None else Some <$> Value_as_u64 v
  end.
Definition MissionBudgetRequest_from_value (v : Value) : option MissionBudgetRequest :=
  object ← Value_as_object v;
  tokens ← opt_u64_field object "tokens";
  money_micros ← opt_u64_field object "moneyMicros";
  wall_clock_ms ← opt_u64_field object "wallClockMs";
  changed_lines ← opt_u64_field object "changedLines";
  changed_files ← opt_u64_field object "changedFiles";
  model_calls ← opt_u64_field object "modelCalls";
  Some {| MissionBudgetRequest_tokens := tokens; MissionBudgetRequest_money_micros := money_micros;
          MissionBudgetRequest_wall_clock_ms := wall_clock_ms;
          MissionBudgetRequest_changed_lines := changed_lines;
          MissionBudgetRequest_changed_files := changed_files;
          MissionBudgetRequest_model_calls := model_calls |}.

Definition limits_from_events (events : list EventEnvelope) : BudgetLimits :=
  default DEFAULT_BUDGET_LIMITS (
    event ← find (λ event, bool_decide (EventEnvelope_kind event = ContractUpdated)) (rev events);
    value ← Value_get (EventEnvelope_payload event) "budget";
    MissionBudgetRequest_limits <$> MissionBudgetRequest_from_value value).
Definition budget_tracker_from_events (events : list EventEnvelope) : BudgetTracker :=
  BudgetTracker_new 1 (limits_from_events events) UnknownPause.

(** The total of a token-usage event: [None] when the event is another one,
    [Some None] when it carries no total. *)
Definition reported_total (event : AgentEvent) : option (option u64) :=
  let payload := AgentEvent_payload event in
  if bool_decide (Value_get payload "native_type" ≫= Value_as_str
                  = Some "thread/tokenUsage/updated") then
    let usage := (match Value_get payload "tokenUsage" with
                  | Some v => Some v
                  | None => data ← Value_get payload "data"; Value_get data "tokenUsage"
                  end) ≫= Value_as_object in
    Some (usage ← usage; total ← (usage : gmap string Value) !! "total";
          total ← Value_as_object total;
          (total : gmap string Value) !! "totalTokens" ≫= Value_as_u64)
  else None.
Definition usage_record_from_event (event : AgentEvent) (previous_tokens : u64)
    : u64 * option UsageRecord :=
  match reported_total event with
  | None => (previous_tokens, None)
  | Some (Some total) =>
      (Z.max previous_tokens total,
       Some (Sample (UsageSample_with (UsageSample_tokens (saturating_sub total previous_tokens))
                       ModelCalls 1)))
  | Some None => (previous_tokens, Some (UnknownUsage Tokens))
  end.

(** ** Token usage over a run *)

(** The records one run's events produce, as the consumer threads
    [previous_tokens] through them. *)
Fixpoint run_usage (events : list AgentEvent) (previous_tokens : u64) : u64 * list UsageRecord :=
  match events with
  | [] => (previous_tokens, [])
  | event :: events =>
      let '(previous_tokens, record) := usage_record_from_event event previous_tokens in
      let '(final, records) := run_usage events previous_tokens in
      (final, match record with Some r => r :: records | None => records end)
  end.
(** The totals the events report, and whether one reports none. *)
Definition totals (events : list AgentEvent) : list u64 :=
  omap (λ e, match reported_total e with Some (Some t) => Some t | _ => None end) events.
Definition total_missing (event : AgentEvent) : bool :=
  match reported_total event with Some None => true | _ => false end.

Lemma usage_None d records :
  (∀ d' t, Correction d' t ∉ records) → foldl (usage_step d) None records = None.
Proof.
  induction records as [|r records IH]; intros Hc; simpl; [done|].
  destruct r as [s|d'|d' t]; simpl.
  - apply IH. intros d' t Hin. apply (Hc d' t). by right.
  - case_decide; (apply IH; intros d'' t Hin; apply (Hc d'' t); by right).
  - exfalso. apply (Hc d' t). by left.
Qed.
Lemma run_usage_no_correction events : ∀ prev d t, Correction d t ∉ (run_usage events prev).2.
Proof.
  induction events as [|e events IH]; intros prev d t; simpl; [by intros []%elem_of_nil|].
  unfold usage_record_from_event. destruct (reported_total e) as [[total|]|];
    (destruct (run_usage events _) as [final records] eqn:Hr; simpl;
     match type of Hr with run_usage _ ?p = _ => specialize (IH p d t); rewrite Hr in IH end;
     simpl in IH; rewrite ?elem_of_cons; naive_solver).
Qed.

Lemma foldl_max_foldr l : ∀ acc, (0 ≤ acc)%Z → foldl Z.max acc l = Z.max acc (foldr Z.max 0%Z l).
Proof. induction l as [|x l IH]; intros acc Ha; simpl; [lia|]. rewrite IH; lia. Qed.
Lemma run_usage_exact events : ∀ prev,
  (0 ≤ prev)%Z → Forall (λ t, (0 ≤ t)%Z) (totals events) →
  (run_usage events prev).1 = foldl Z.max prev (totals events) ∧
  (if existsb total_missing events then True else
   ∀ acc, foldl (usage_step Tokens) (Some acc) (run_usage events prev).2 =
     Some (acc + (foldl Z.max prev (totals events) - prev))%Z).
Proof.
  induction events as [|e events IH]; intros prev Hp Ht; simpl.
  { split; [done|]. intros acc. f_equal. lia. }
  unfold usage_record_from_event, total_missing, totals in *. simpl in *.
  destruct (reported_total e) as [[total|]|] eqn:He; simpl.
  - apply Forall_cons in Ht as [Ht0 Ht].
    destruct (IH (Z.max prev total) ltac:(lia) Ht) as [Hf Hu].
    destruct (run_usage events _) as [final records] eqn:Hr. simpl in *. split; [done|].
    destruct (existsb _ events); [done|]. intros acc.
    rewrite lookup_insert_ne, lookup_insert_eq by done. simpl. rewrite Hu. f_equal.
    unfold saturating_sub. lia.
  - destruct (IH prev Hp Ht) as [Hf _].
    destruct (run_usage events _) as [final records] eqn:Hr. by split.
  - destruct (IH prev Hp Ht) as [Hf Hu].
    destruct (run_usage events _) as [final records] eqn:Hr. by split.
Qed.

Lemma run_usage_unknown events : existsb total_missing events = true → ∀ prev acc,
  foldl (usage_step Tokens) (Some acc) (run_usage events prev).2 = None.
Proof.
  induction events as [|e events IH]; intros Hm prev acc; [done|]. simpl in Hm |- *.
  unfold usage_record_from_event, total_missing in *. simpl in *.
  pose proof (λ p, run_usage_no_correction events p) as Hc.
  destruct (reported_total e) as [[total|]|] eqn:He; simpl in Hm.
  - destruct (run_usage events _) as [final rs] eqn:Hr. simpl.
    pose proof (λ a, IH Hm (Z.max prev total) a) as IH'. rewrite Hr in IH'. apply IH'.
  - destruct (run_usage events _) as [final rs] eqn:Hr. simpl. apply usage_None.
    specialize (Hc prev). by rewrite Hr in Hc.
  - destruct (run_usage events _) as [final rs] eqn:Hr. simpl.
    pose proof (λ a, IH Hm prev a) as IH'. rewrite Hr in IH'. apply IH'.
Qed.

(** Over a run, tokens are counted once: however often and in whatever
    order the agent reports its running total, the exact usage the budget
    sees is the greatest total reported; when some report carries no total
    the usage is unknown, never a smaller number. *)
Theorem token_usage_counted_once (events : list AgentEvent) :
  Forall is_u64 (totals events) →
  let records := (run_usage events 0).2 in
  usage Tokens records =
    if existsb total_missing events then None
    else Some (foldr Z.max 0%Z (totals events)).
Proof.
  intros Ht records.
  assert (Forall (λ t, (0 ≤ t)%Z) (totals events)) as Ht'
    by (eapply Forall_impl; [exact Ht|]; by intros t [? _]).
  destruct (existsb total_missing events) eqn:Hm.
  - by apply run_usage_unknown.
  - destruct (run_usage_exact events 0 ltac:(lia) Ht') as [_ Hu]. rewrite Hm in Hu.
    unfold usage, records. rewrite Hu. f_equal.
    rewrite foldl_max_foldr by lia.
    assert (∀ l, (0 ≤ foldr Z.max 0 l)%Z) as Hpos by (induction l; simpl; lia).
    specialize (Hpos (totals events)). lia.
Qed.
End data.
Arguments MissionCommandRequest {_}. Arguments MissionCommandResult {_}.

Module ServiceDataExamples.
Import Json.
Definition usage_event (total : option Z) : AgentEvent := {|
  AgentEvent_event_id := 1%N; AgentEvent_agent_run_id := None; AgentEvent_event_kind := AgentMessage;
  AgentEvent_payload := json_object
    [("native_type", JStr "thread/tokenUsage/updated");
     ("tokenUsage", json_object [("total", json_object
        match total with Some t => [("totalTokens", JNum t)] | None => [] end)])];
  AgentEvent_requires_safe_pause := false; AgentEvent_raw_evidence := None |}.
Lemma token_usage_counted_once_witness :
  usage Tokens (run_usage [usage_event (Some 40%Z); usage_event (Some 10%Z); usage_event (Some 70%Z)] 0).2
    = Some 70%Z.
Proof.
  rewrite (token_usage_counted_once
    [usage_event (Some 40%Z); usage_event (Some 10%Z); usage_event (Some 70%Z)]).
  - vm_compute. reflexivity.
  - assert (totals [usage_event (Some 40%Z); usage_event (Some 10%Z); usage_event (Some 70%Z)]
      = [40; 10; 70]%Z) as -> by (vm_compute; reflexivity).
    repeat constructor; unfold u64_max; lia.
Defined.
End ServiceDataExamples.
