(* ===== verification/Service.v ===== *)
(** * The mission service ([crates/supervisor/src/mission_service.rs])

    The state shared by the command handlers, the event consumers of running
    agents and the watchdog, and every handler as a function on it.  All
    actors and the service itself use one database file: the model keeps it
    once ([MissionService_database]) and attaches it to an actor for as long
    as the actor runs.  The blob store shares its tables.

    What the world answers is the class [ServiceEnv]: opening the database
    and the key store, the probes, starts and controls of agent processes, the
    clock and fresh identifiers, each indexed by a counter of the state so
    that no answer is assumed to repeat.  Calls to agents are also recorded
    in order.  A lock is always granted (a poisoned lock needs a panic), and
    one handler or consumer step runs at a time. *)

From S2P Require Import Prelude Extern Ids Event Ordering Approval Budget Envelope PolicyEngine.
From S2P Require Import Command AdapterCore LoadoutMonitor ProcessTree Pause MissionActor.
From S2P Require Import Frame BlobStore Redaction CivilDate Ledger Lifecycle RecoveryPackage ServiceData.
From Stdlib Require Import ZArith Lia.
From stdpp Require Import prelude gmap strings pretty.

Record StartAgentRequest := {
  StartAgentRequest_provider : ProviderId;
  StartAgentRequest_mission_id : MissionId;
  StartAgentRequest_route_id : RouteId;
  StartAgentRequest_project_root : string;
  StartAgentRequest_route_workspace : string;
  StartAgentRequest_read_only : bool;
  StartAgentRequest_approved_environment : list (string * string);
  StartAgentRequest_model : option string;
  StartAgentRequest_goal : option string;
  StartAgentRequest_loadout_fingerprint : string;
  StartAgentRequest_contract_version : u64;
  StartAgentRequest_resume_thread_id : option string;
  StartAgentRequest_loadout : option LoadoutSnapshot;
}.

(** [str::to_ascii_uppercase]. *)
Fixpoint to_ascii_uppercase (s : string) : string :=
  match s with
  | EmptyString => EmptyString
  | String c r => String (if byte_in 97 122 c then Ascii.ascii_of_N (Ascii.N_of_ascii c - 32) else c)
                    (to_ascii_uppercase r)
  end.

(** The world's answers. *)
Class ServiceEnv : Type := {
  env_open : nat → result LedgerError unit;
  env_quick_check : nat → string;
  env_recovery_store : nat → result string unit;
  env_probe : nat → ProviderId → result string AgentCapabilityReport;
  env_start : nat → StartAgentRequest → result string string;
  env_control : nat → result string unit;
  env_terminate : nat → result string unit;
  env_now_ms : nat → u64;
  env_now : nat → u64;
  env_fresh : nat → Uuid;
}.

(** [impl ActorLedger for EncryptedLedger]. *)
#[export] Instance encrypted_actor_ledger `{SerdeJson, Sha256, UuidText, RegexCrate, !JsonParse}
    `{!DisplayFmt LedgerError} : ActorLedger EncryptedLedger := {
  append_event e l := let '(l', r) := encrypted_append e l in (l', map_err display_fmt r);
  replay_after l m n := filter (λ e, (n < EventEnvelope_sequence e)%Z)
    (default [] (result_ok (replay_events m l)));
}.

Section service.
Context `{SerdeJson, Sha256, UuidText, RegexCrate, !JsonParse, HashSetOrder, Aead}.
Context `{!Serde ApprovalRequest, !Serde ActionClass}.
Context `{!DebugFmt PauseState, !DebugFmt BudgetDimension, !DebugFmt ActionClass}.
Context `{!DebugFmt ActorError, !HashOrder ApprovalRequest}.
Context `{!DisplayFmt LedgerError, !DisplayFmt LifecycleError, !DisplayFmt BlobStoreError}.
Context `{!DisplayFmt RecoveryError, !SerdeText (RecoveryManifest * BlobRef)}.
Context `{!Serde EventEnvelope, !Serde ArchivePlan, !Serde DeleteImpactPlan}.
Context `{!Serde RecoveryPackage, !Serde RecoveryManifest}.
Context `{!Serde MissionCommandRequest, !Serde MissionCommandResult, !ServiceEnv}.
Context (nonces : nat → option (list u8)) (foreign_keys : bool).

Abbreviation actor := (MissionActor EncryptedLedger).

Record PendingServerRequest := {
  PendingServerRequest_run_id : string;
  PendingServerRequest_request_id : Value;
  PendingServerRequest_provider : ProviderId;
}.
(** What the service asks of the agents. *)
Inductive AdapterCall :=
| CallProbe (p : ProviderId)
| CallStart (r : StartAgentRequest)
| CallPause (p : ProviderId) (run_id : string)
| CallTerminate (p : ProviderId) (run_id : string)
| CallRespond (p : ProviderId) (run_id : string) (request_id : Value) (decision : string).
(** A spawned [spawn_event_consumer] task. *)
Record Consumer := {
  Consumer_mission_id : MissionId;
  Consumer_run_id : string;
  Consumer_provider : ProviderId;
  Consumer_previous_tokens : u64;
}.

Record MissionService := {
  MissionService_missions : gmap string actor;
  MissionService_budgets : gmap string BudgetTracker;
  MissionService_runs : gmap string string;
  MissionService_run_providers : gmap string ProviderId;
  MissionService_pending : gmap string PendingServerRequest;
  MissionService_loadouts : LoadoutMonitor;
  MissionService_database : EncryptedLedger;
  MissionService_files : gmap string (list u8);
  MissionService_nonces_drawn : nat;
  MissionService_consumers : list Consumer;
  MissionService_ids_drawn : nat;
  MissionService_clock : nat;
  MissionService_calls : list AdapterCall;
}.
Abbreviation svc A := (stm MissionService string A).

(** *** Assignments *)
Definition set_missions (x : gmap string actor) (s : MissionService) : MissionService := {|
  MissionService_missions := x; MissionService_budgets := MissionService_budgets s;
  MissionService_runs := MissionService_runs s;
  MissionService_run_providers := MissionService_run_providers s;
  MissionService_pending := MissionService_pending s;
  MissionService_loadouts := MissionService_loadouts s;
  MissionService_database := MissionService_database s;
  MissionService_files := MissionService_files s;
  MissionService_nonces_drawn := MissionService_nonces_drawn s;
  MissionService_consumers := MissionService_consumers s;
  MissionService_ids_drawn := MissionService_ids_drawn s;
  MissionService_clock := MissionService_clock s; MissionService_calls := MissionService_calls s |}.
Definition set_budgets (x : gmap string BudgetTracker) (s : MissionService) : MissionService := {|
  MissionService_missions := MissionService_missions s; MissionService_budgets := x;
  MissionService_runs := MissionService_runs s;
  MissionService_run_providers := MissionService_run_providers s;
  MissionService_pending := MissionService_pending s;
  MissionService_loadouts := MissionService_loadouts s;
  MissionService_database := MissionService_database s;
  MissionService_files := MissionService_files s;
  MissionService_nonces_drawn := MissionService_nonces_drawn s;
  MissionService_consumers := MissionService_consumers s;
  MissionService_ids_drawn := MissionService_ids_drawn s;
  MissionService_clock := MissionService_clock s; MissionService_calls := MissionService_calls s |}.
(** [runs], [run_providers] and the spawned consumers. *)
Definition set_runs (x : gmap string string) (y : gmap string ProviderId) (z : list Consumer)
    (s : MissionService) : MissionService := {|
  MissionService_missions := MissionService_missions s;
  MissionService_budgets := MissionService_budgets s;
  MissionService_runs := x; MissionService_run_providers := y;
  MissionService_pending := MissionService_pending s;
  MissionService_loadouts := MissionService_loadouts s;
  MissionService_database := MissionService_database s;
  MissionService_files := MissionService_files s;
  MissionService_nonces_drawn := MissionService_nonces_drawn s;
  MissionService_consumers := z; MissionService_ids_drawn := MissionService_ids_drawn s;
  MissionService_clock := MissionService_clock s; MissionService_calls := MissionService_calls s |}.
Definition set_pending (x : gmap string PendingServerRequest) (s : MissionService)
    : MissionService := {|
  MissionService_missions := MissionService_missions s;
  MissionService_budgets := MissionService_budgets s;
  MissionService_runs := MissionService_runs s;
  MissionService_run_providers := MissionService_run_providers s; MissionService_pending := x;
  MissionService_loadouts := MissionService_loadouts s;
  MissionService_database := MissionService_database s;
  MissionService_files := MissionService_files s;
  MissionService_nonces_drawn := MissionService_nonces_drawn s;
  MissionService_consumers := MissionService_consumers s;
  MissionService_ids_drawn := MissionService_ids_drawn s;
  MissionService_clock := MissionService_clock s; MissionService_calls := MissionService_calls s |}.
Definition set_loadouts (x : LoadoutMonitor) (s : MissionService) : MissionService := {|
  MissionService_missions := MissionService_missions s;
  MissionService_budgets := MissionService_budgets s;
  MissionService_runs := MissionService_runs s;
  MissionService_run_providers := MissionService_run_providers s;
  MissionService_pending := MissionService_pending s; MissionService_loadouts := x;
  MissionService_database := MissionService_database s;
  MissionService_files := MissionService_files s;
  MissionService_nonces_drawn := MissionService_nonces_drawn s;
  MissionService_consumers := MissionService_consumers s;
  MissionService_ids_drawn := MissionService_ids_drawn s;
  MissionService_clock := MissionService_clock s; MissionService_calls := MissionService_calls s |}.
(** The database, the blob files and the nonces drawn for them. *)
Definition set_storage (x : EncryptedLedger) (files : gmap string (list u8)) (n : nat)
    (s : MissionService) : MissionService := {|
  MissionService_missions := MissionService_missions s;
  MissionService_budgets := MissionService_budgets s;
  MissionService_runs := MissionService_runs s;
  MissionService_run_providers := MissionService_run_providers s;
  MissionService_pending := MissionService_pending s;
  MissionService_loadouts := MissionService_loadouts s;
  MissionService_database := x; MissionService_files := files;
  MissionService_nonces_drawn := n; MissionService_consumers := MissionService_consumers s;
  MissionService_ids_drawn := MissionService_ids_drawn s;
  MissionService_clock := MissionService_clock s; MissionService_calls := MissionService_calls s |}.
Definition set_database (x : EncryptedLedger) (s : MissionService) : MissionService :=
  set_storage x (MissionService_files s) (MissionService_nonces_drawn s) s.
Definition set_world (ids clock : nat) (calls : list AdapterCall) (s : MissionService)
    : MissionService := {|
  MissionService_missions := MissionService_missions s;
  MissionService_budgets := MissionService_budgets s;
  MissionService_runs := MissionService_runs s;
  MissionService_run_providers := MissionService_run_providers s;
  MissionService_pending := MissionService_pending s;
  MissionService_loadouts := MissionService_loadouts s;
  MissionService_database := MissionService_database s;
  MissionService_files := MissionService_files s;
  MissionService_nonces_drawn := MissionService_nonces_drawn s;
  MissionService_consumers := MissionService_consumers s;
  MissionService_ids_drawn := ids; MissionService_clock := clock; MissionService_calls := calls |}.

(** *** The world *)
Definition tick : svc nat := λ s,
  (set_world (MissionService_ids_drawn s) (S (MissionService_clock s)) (MissionService_calls s) s,
   Ok (MissionService_clock s)).
Definition fresh_uuid : svc Uuid := λ s,
  (set_world (S (MissionService_ids_drawn s)) (MissionService_clock s) (MissionService_calls s) s,
   Ok (env_fresh (MissionService_ids_drawn s))).
Definition call (c : AdapterCall) : svc nat := λ s,
  (set_world (MissionService_ids_drawn s) (S (MissionService_clock s))
     (MissionService_calls s ++ [c]) s, Ok (MissionService_clock s)).

(** *** The database *)
Definition open_ledger : svc EncryptedLedger :=
  i ← tick;
  self ← stm_get;
  _ ← stm_lift (map_err (λ e, "LEDGER_OPEN_FAILED:" +:+ display_fmt e)
        (_ ← env_open i; integrity_report (env_quick_check i) (MissionService_database self)));
  mret (MissionService_database self).
Definition open_recovery_store : svc unit :=
  i ← tick; stm_lift (env_recovery_store i).
(** A method of the blob store that shares the database. *)
Definition with_store {E A} (wrap : E → string) (m : stm EncryptedBlobStore E A) : svc A := λ s,
  let db := MissionService_database s in
  let '(store, r) :=
    m (blob_view (MissionService_files s) (MissionService_nonces_drawn s) db) in
  (set_storage {|
     EncryptedLedger_redactor := EncryptedLedger_redactor db;
     EncryptedLedger_events := EncryptedLedger_events db;
     EncryptedLedger_blob_refs := BlobStore_rows store;
     EncryptedLedger_mission_blob_refs := BlobStore_attached store;
     EncryptedLedger_lifecycle := EncryptedLedger_lifecycle db;
     EncryptedLedger_audit := EncryptedLedger_audit db |}
     (BlobStore_files store) (BlobStore_nonces_drawn store) s, map_err wrap r).

(** *** Actors *)

(** The actor with the database as its ledger. *)
Definition attach (db : EncryptedLedger) (a : actor) : actor :=
  appended db (MissionActor_requires_recovery a) (MissionActor_sequence a) a.
Definition find_actor (key : string) (s : MissionService) : option actor :=
  attach (MissionService_database s) <$> MissionService_missions s !! key.
Definition get_actor (key : string) : svc actor := λ s,
  (s, ok_or "MISSION_NOT_FOUND" (find_actor key s)).
(** A call of a method of an actor; new identifiers continue the supply of
    the service. *)
Definition run_actor {A} (key : string) (a : actor)
    (op : (nat → EventId) → stm actor ActorError A) : stm MissionService ActorError A := λ s,
  let drawn := MissionActor_ids_drawn a in
  let ids n := env_fresh (MissionService_ids_drawn s + (n - drawn)) in
  let '(a', r) := op ids (attach (MissionService_database s) a) in
  (set_world (MissionService_ids_drawn s + (MissionActor_ids_drawn a' - drawn))
     (MissionService_clock s) (MissionService_calls s)
     (set_database (MissionActor_ledger a')
       (set_missions (<[key := a']> (MissionService_missions s)) s)), r).
Definition with_actor {A} (key : string) (wrap : ActorError → string)
    (op : (nat → EventId) → stm actor ActorError A) : svc A := λ s,
  match MissionService_missions s !! key with
  | None => (s, Err "MISSION_NOT_FOUND")
  | Some a => let '(s', r) := run_actor key a op s in (s', map_err wrap r)
  end.
(** [let _ = actor.method(..)] when the mission is there. *)
Definition try_actor {A} (key : string) (op : (nat → EventId) → stm actor ActorError A)
    : svc (option (result ActorError A)) := λ s,
  match MissionService_missions s !! key with
  | None => (s, Ok None)
  | Some a => let '(s', r) := run_actor key a op s in (s', Ok (Some r))
  end.
Definition failed (prefix : string) (e : ActorError) : string := prefix +:+ debug_fmt e.

Definition actor_events (a : actor) (after : u64) : list EventEnvelope :=
  replay_after (MissionActor_ledger a) (MissionActor_mission_id a) after.

Definition active_run_id (mission_id : MissionId) (s : MissionService) : option string :=
  MissionService_runs s !! uuid_to_string mission_id.
Definition run_provider (mission_id : MissionId) (s : MissionService) : option ProviderId :=
  MissionService_run_providers s !! uuid_to_string mission_id.
(** The adapters installed by [new]. *)
Definition has_adapter (provider : ProviderId) : bool :=
  match provider with Codex | Claude => true | _ => false end.
Definition adapter (provider : ProviderId) : result string ProviderId :=
  if has_adapter provider then Ok provider
  else Err ("PROVIDER_UNAVAILABLE:" +:+ ProviderId_as_str provider).
(** [ProviderId::default()]. *)
Definition ProviderId_default : ProviderId := Codex.

Definition call_pause (provider : ProviderId) (run_id : string) : svc (result string unit) :=
  i ← call (CallPause provider run_id); mret (env_control i).
(** Pausing the active run of a mission, as several handlers do. *)
Definition pause_active_run (prefix : string) (mission_id : MissionId) (active_run : option string)
    : svc unit :=
  match active_run with
  | None => mret tt
  | Some run_id =>
      self ← stm_get;
      provider ← stm_lift (adapter (default ProviderId_default (run_provider mission_id self)));
      r ← call_pause provider run_id;
      stm_lift (map_err (λ e, prefix +:+ e) r)
  end.

(** *** Identifiers and results *)
Definition parse_id (invalid : string) (text : option string) : result string (option Uuid) :=
  match text with
  | None => Ok None
  | Some text => u ← ok_or invalid (uuid_parse_str text); Ok (Some u)
  end.
Definition request_mission_id (request : MissionCommandRequest) : result string MissionId :=
  id ← parse_id "MISSION_ID_INVALID" (Request_mission_id request);
  ok_or "MISSION_ID_REQUIRED" id.
Definition request_route_id (request : MissionCommandRequest) : result string RouteId :=
  id ← parse_id "ROUTE_ID_INVALID" (Request_route_id request);
  ok_or "ROUTE_ID_REQUIRED" id.

Definition service_result (mission_id : option string) (a : option actor)
    : MissionCommandResult := {|
  Result_accepted := true; Result_mission_id := mission_id;
  Result_route_id := a ≫= λ a,
    (λ e, uuid_to_string (EventEnvelope_route_id e)) <$> head (actor_events a 0);
  Result_sequence := MissionActor_sequence <$> a; Result_error_code := None;
  Result_confirmation_token := None; Result_provider := None; Result_capability := None;
  Result_events := match a with Some a => to_value <$> actor_events a 0 | None => [] end;
  Result_recovery_package := None; Result_capabilities := []; Result_cc_switch := None;
  Result_data := None;
  Result_recovery_required :=
    match a with Some a => MissionActor_requires_recovery a | None => false end |}.
Definition with_mission_id (mission_id : MissionId) (r : MissionCommandResult)
    : MissionCommandResult := {|
  Result_accepted := Result_accepted r; Result_mission_id := Some (uuid_to_string mission_id);
  Result_route_id := Result_route_id r; Result_sequence := Result_sequence r;
  Result_error_code := Result_error_code r;
  Result_confirmation_token := Result_confirmation_token r;
  Result_provider := Result_provider r; Result_capability := Result_capability r;
  Result_events := Result_events r; Result_recovery_package := Result_recovery_package r;
  Result_capabilities := Result_capabilities r; Result_cc_switch := Result_cc_switch r;
  Result_data := Result_data r; Result_recovery_required := Result_recovery_required r |}.
Definition with_extras (token : option string) (package data : option Value)
    (provider : option ProviderId) (capability : option AgentCapabilityReport)
    (r : MissionCommandResult) : MissionCommandResult := {|
  Result_accepted := Result_accepted r; Result_mission_id := Result_mission_id r;
  Result_route_id := Result_route_id r; Result_sequence := Result_sequence r;
  Result_error_code := Result_error_code r; Result_confirmation_token := token;
  Result_provider := provider; Result_capability := capability;
  Result_events := Result_events r; Result_recovery_package := package;
  Result_capabilities := Result_capabilities r; Result_cc_switch := Result_cc_switch r;
  Result_data := data; Result_recovery_required := Result_recovery_required r |}.
(** [Self::result(Some(mission_id.to_string()), missions.get(..))]. *)
Definition current_result (mission_id : MissionId) : svc MissionCommandResult := λ s,
  (s, Ok (service_result (Some (uuid_to_string mission_id))
            (find_actor (uuid_to_string mission_id) s))).

(** [.filter(|value| !value.trim().is_empty()).ok_or(..)]. *)
Definition required (code : string) (o : option string) : result string string :=
  match o with
  | Some value => if negb (blank value) then Ok value else Err code
  | None => Err code
  end.

(** *** Storage, export and deletion *)
Definition RetentionPlan_value (p : RetentionPlan) : Value := json_object
  [("budget", StorageBudget_value (RetentionPlan_budget p));
   ("project_usage", StorageUsage_value (RetentionPlan_project_usage p));
   ("global_usage", StorageUsage_value (RetentionPlan_global_usage p));
   ("over_budget", Value_Bool (RetentionPlan_over_budget p));
   ("automatic_deletion", Value_Bool (RetentionPlan_automatic_deletion p));
   ("candidate_missions", Value_Array (MissionStorage_value <$> RetentionPlan_candidate_missions p));
   ("impact_hash", Value_String (RetentionPlan_impact_hash p))].
Definition ExportPreview_value (p : ExportPreview) : Value := json_object
  [("mission_id", mission_value (ExportPreview_mission_id p));
   ("event_count", Value_U64 (ExportPreview_event_count p));
   ("size_bytes", Value_U64 (ExportPreview_size_bytes p));
   ("content_hash", Value_String (ExportPreview_content_hash p));
   ("categories", Value_Array (Value_String <$> ExportPreview_categories p));
   ("contains_raw_provider_payload", Value_Bool (ExportPreview_contains_raw_provider_payload p))].
Definition LedgerIntegrityReport_value (r : LedgerIntegrityReport) : Value := json_object
  [("event_count", Value_U64 (LedgerIntegrityReport_event_count r));
   ("last_committed_sequence", Value_U64 (LedgerIntegrityReport_last_committed_sequence r));
   ("recovery_required", Value_Bool (LedgerIntegrityReport_recovery_required r));
   ("reason", opt_str_value (LedgerIntegrityReport_reason r))].
Definition displayed {E A} `{!DisplayFmt E} (prefix : string) (r : result E A) : svc A :=
  stm_lift (map_err (λ e, prefix +:+ display_fmt e) r).

Definition svc_storage_preview (request : MissionCommandRequest) : svc MissionCommandResult :=
  ledger ← open_ledger;
  plan ← displayed "STORAGE_PREVIEW_FAILED:" (retention_plan_for_project {|
      StorageBudget_project_limit_bytes := Request_project_limit_bytes request;
      StorageBudget_global_limit_bytes := Request_global_limit_bytes request |}
    (Request_project_root request) ledger);
  mret (lifecycle_result (RetentionPlan_value plan)).

Definition svc_export_preview (request : MissionCommandRequest) : svc MissionCommandResult :=
  mission_id ← stm_lift (request_mission_id request);
  ledger ← open_ledger;
  preview ← displayed "EXPORT_PREVIEW_FAILED:" (export_preview mission_id ledger);
  mret (lifecycle_result (ExportPreview_value preview)).

Definition svc_diagnostic_preview (request : MissionCommandRequest) : svc MissionCommandResult :=
  mission_id ← stm_lift (request_mission_id request);
  ledger ← open_ledger;
  export ← displayed "DIAGNOSTIC_PREVIEW_FAILED:" (export_preview mission_id ledger);
  i ← tick;
  integrity ← displayed "DIAGNOSTIC_PREVIEW_FAILED:" (integrity_report (env_quick_check i) ledger);
  mret (lifecycle_result (json_object
    [("mission_id", mission_value mission_id);
     ("event_count", Value_U64 (ExportPreview_event_count export));
     ("export_hash", Value_String (ExportPreview_content_hash export));
     ("redaction_categories", Value_Array (Value_String <$> ExportPreview_categories export));
     ("ledger", LedgerIntegrityReport_value integrity);
     ("telemetry_enabled", Value_Bool false); ("includes_source", Value_Bool false);
     ("includes_provider_payload", Value_Bool false)])).

(** A method of the ledger that changes the database. *)
Definition with_ledger {A} (prefix : string) (m : stm EncryptedLedger LifecycleError A) : svc A :=
  λ s, let '(db, r) := m (MissionService_database s) in
       (set_database db s, map_err (λ e, prefix +:+ display_fmt e) r).

Definition hash_differs (requested : option string) (hash : string) : bool :=
  match requested with Some h => negb (str_eqb h hash) | None => false end.

Definition svc_archive_mission (request : MissionCommandRequest) : svc MissionCommandResult :=
  mission_id ← stm_lift (request_mission_id request);
  ledger ← open_ledger;
  i ← tick;
  plan ← (match Request_archive_plan request with
    | Some value =>
        plan ← stm_lift (map_err (λ _, "ARCHIVE_PLAN_INVALID") (from_value value));
        mret (inr plan)
    | None =>
        current ← displayed "ARCHIVE_PLAN_FAILED:" (archive_plan (env_now i) mission_id ledger);
        if hash_differs (Request_impact_hash request) (ArchivePlan_impact_hash current)
        then stm_throw "ARCHIVE_PLAN_MISMATCH"
        else match Request_impact_hash request with
        | None => mret (inl (with_mission_id mission_id
                    (lifecycle_result (Value_Object (ArchivePlan_fields current)))))
        | Some _ => mret (inr current)
        end
    end);
  match plan with
  | inl preview => mret preview
  | inr plan =>
      if negb (bool_decide (ArchivePlan_mission_id plan = mission_id))
      then stm_throw "ARCHIVE_PLAN_MISSION_MISMATCH"
      else if hash_differs (Request_impact_hash request) (ArchivePlan_impact_hash plan)
      then stm_throw "ARCHIVE_PLAN_MISMATCH"
      else
        id ← fresh_uuid;
        receipt ← with_ledger "ARCHIVE_FAILED:" (archive id (env_now i) plan);
        mret (with_mission_id mission_id (lifecycle_result (json_object
          [("plan", Value_Object (ArchivePlan_fields plan));
           ("receipt", AuditReceipt_value receipt);
           ("impact_hash", opt_str_value (Request_impact_hash request))])))
  end.

(** The blob cleanup after a deletion. *)
Fixpoint cleanup_blobs (blobs : list BlobImpact) : svc unit :=
  match blobs with
  | [] => mret tt
  | blob :: blobs =>
      _ ← with_store (λ e, "DELETE_BLOB_CLEANUP_FAILED:" +:+ display_fmt e)
            (delete_if_unreferenced foreign_keys
               {| BlobRef_hash := BlobImpact_hash blob; BlobRef_size := BlobImpact_size blob;
                  BlobRef_media_type := BlobImpact_media_type blob |});
      cleanup_blobs blobs
  end.
Definition forget_mission (mission_id : MissionId) : svc unit :=
  stm_modify (λ s,
    set_budgets (delete (uuid_to_string mission_id) (MissionService_budgets s))
      (set_missions (delete (uuid_to_string mission_id) (MissionService_missions s)) s)).

Definition svc_delete_mission (request : MissionCommandRequest) : svc MissionCommandResult :=
  mission_id ← stm_lift (request_mission_id request);
  let execution_requested :=
    bool_decide (is_Some (Request_delete_plan request))
    || bool_decide (is_Some (Request_impact_hash request)) in
  ledger ← open_ledger;
  i ← tick;
  plan ← (match Request_delete_plan request with
    | Some value =>
        plan ← stm_lift (map_err (λ _, "DELETE_PLAN_INVALID") (from_value value));
        mret (inr plan)
    | None =>
        current ← displayed "DELETE_PLAN_FAILED:" (delete_impact (env_now i) mission_id ledger);
        if hash_differs (Request_impact_hash request) (DeleteImpactPlan_impact_hash current)
        then stm_throw "DELETE_PLAN_MISMATCH"
        else match Request_impact_hash request with
        | None => mret (inl (with_mission_id mission_id
                    (lifecycle_result (Value_Object (DeleteImpactPlan_fields current)))))
        | Some _ => mret (inr current)
        end
    end);
  match plan with
  | inl preview => mret preview
  | inr plan =>
      self ← stm_get;
      if execution_requested && bool_decide (is_Some (active_run_id mission_id self))
      then stm_throw "MISSION_ACTIVE"
      else if negb (bool_decide (DeleteImpactPlan_mission_id plan = mission_id))
      then stm_throw "DELETE_PLAN_MISSION_MISMATCH"
      else if hash_differs (Request_impact_hash request) (DeleteImpactPlan_impact_hash plan)
      then stm_throw "DELETE_PLAN_MISMATCH"
      else
        id ← fresh_uuid;
        receipt ← with_ledger "DELETE_FAILED:" (delete_mission id (env_now i) plan);
        _ ← (if negb (is_empty (DeleteImpactPlan_blob_refs plan)) then
               _ ← open_recovery_store; cleanup_blobs (DeleteImpactPlan_blob_refs plan)
             else mret tt);
        _ ← forget_mission mission_id;
        mret (with_mission_id mission_id (lifecycle_result (json_object
          [("plan", Value_Object (DeleteImpactPlan_fields plan));
           ("receipt", AuditReceipt_value receipt)])))
  end.

(** [String::from_utf8] succeeds: the bytes are JSON text. *)
Definition svc_materialize_export (request : MissionCommandRequest) : svc MissionCommandResult :=
  mission_id ← stm_lift (request_mission_id request);
  ledger ← open_ledger;
  artifact ← displayed "EXPORT_FAILED:" (materialize_export mission_id ledger);
  mret (with_mission_id mission_id (lifecycle_result (json_object
    [("mission_id", mission_value mission_id);
     ("size_bytes", Value_U64 (ExportArtifact_size_bytes artifact));
     ("content_hash", Value_String (ExportArtifact_content_hash artifact));
     ("content", Value_String (ExportArtifact_bytes artifact))]))).

(** *** Creating and changing a mission *)
Definition opt_string (o : option string) : Value := opt_str_value o.
Definition budget_value (limits : BudgetLimits) : Value := json_object
  [("tokens", Value_U64 (BudgetLimits_tokens limits));
   ("moneyMicros", Value_U64 (BudgetLimits_money_micros limits));
   ("wallClockMs", Value_U64 (as_millis (BudgetLimits_wall_clock limits)));
   ("changedLines", Value_U64 (BudgetLimits_changed_lines limits));
   ("changedFiles", Value_U64 (BudgetLimits_changed_files limits));
   ("modelCalls", Value_U64 (BudgetLimits_model_calls limits))].
Definition creation_events (e1 e2 e3 : EventId) (mission_id : MissionId) (route_id : RouteId)
    (request : MissionCommandRequest) (limits : BudgetLimits) : list EventEnvelope :=
  [EventEnvelope_new e1 mission_id route_id 1 MissionCreated (json_object
     [("project_root", opt_string (Request_project_root request));
      ("goal", opt_string (Request_goal request))]);
   EventEnvelope_new e2 mission_id route_id 2 RouteCreated (json_object
     [("route_id", Value_String (uuid_to_string route_id))]);
   EventEnvelope_new e3 mission_id route_id 3 ContractUpdated (json_object
     [("goal", opt_string (Request_goal request)); ("contract_version", Value_U64 1);
      ("budget", budget_value limits)])].

(** [create_mission] once both identifiers are known. *)
Definition create_as (mission_id : MissionId) (route_id : RouteId) (request : MissionCommandRequest)
    : svc MissionCommandResult :=
  let mission_key := uuid_to_string mission_id in
  let limits := MissionBudgetRequest_limits (default no_budget (Request_budget request)) in
  self ← stm_get;
  if bool_decide (is_Some (MissionService_missions self !! mission_key))
  then stm_throw "MISSION_ALREADY_EXISTS" else
  ledger ← open_ledger;
  known ← displayed "MISSION_CREATE_FAILED:" (mission_ids ledger);
  if bool_decide (mission_id ∈ known) then stm_throw "MISSION_ALREADY_EXISTS" else
  e1 ← fresh_uuid; e2 ← fresh_uuid; e3 ← fresh_uuid;
  _ ← (λ s, let '(db, r) := append_batch (creation_events e1 e2 e3 mission_id route_id request limits)
                              (MissionService_database s) in
            (set_database db s, map_err (λ e, "MISSION_CREATE_FAILED:" +:+ display_fmt e) r));
  self ← stm_get;
  (* [MissionActor::new] panics when [try_new] fails *)
  a ← stm_lift (map_err (λ e, "panic: mission actor recovery failed: " +:+ e)
        (MissionActor_try_new mission_id route_id (MissionService_database self)));
  _ ← stm_modify (λ s,
        set_budgets (<[mission_key := BudgetTracker_new 1 limits UnknownPause]>
                       (MissionService_budgets s))
          (set_missions (<[mission_key := a]> (MissionService_missions s)) s));
  current_result mission_id.
Definition create_mission (request : MissionCommandRequest) : svc MissionCommandResult :=
  m ← stm_lift (parse_id "MISSION_ID_INVALID" (Request_mission_id request));
  mission_id ← (match m with Some m => mret m | None => fresh_uuid end);
  r ← stm_lift (parse_id "ROUTE_ID_INVALID" (Request_route_id request));
  route_id ← (match r with Some r => mret r | None => fresh_uuid end);
  create_as mission_id route_id request.

Definition update_mission_contract (request : MissionCommandRequest) : svc MissionCommandResult :=
  mission_id ← stm_lift (request_mission_id request);
  _ ← with_actor (uuid_to_string mission_id) (failed "CONTRACT_UPDATE_FAILED:")
        (λ ids, record_event ids ContractUpdated (json_object
          [("goal", opt_string (Request_goal request));
           ("expected_version", opt_u64_value (Request_expected_version request))]));
  current_result mission_id.

Definition subscribe_mission (request : MissionCommandRequest) : svc MissionCommandResult :=
  mission_id ← stm_lift (request_mission_id request);
  a ← get_actor (uuid_to_string mission_id);
  let first := (λ e, uuid_to_string (EventEnvelope_route_id e)) <$> head (actor_events a 0) in
  mret {|
    Result_accepted := true; Result_mission_id := Some (uuid_to_string mission_id);
    Result_route_id := match first with Some r => Some r | None => Request_route_id request end;
    Result_sequence := Some (MissionActor_sequence a); Result_error_code := None;
    Result_confirmation_token := None; Result_provider := Request_provider request;
    Result_capability := None;
    Result_events := to_value <$> actor_events a (default 0%Z (Request_expected_version request));
    Result_recovery_package := None; Result_capabilities := []; Result_cc_switch := None;
    Result_data := None; Result_recovery_required := MissionActor_requires_recovery a |}.

(** *** Pausing and terminating *)
Definition svc_request_safe_pause (request : MissionCommandRequest) : svc MissionCommandResult :=
  mission_id ← stm_lift (request_mission_id request);
  let reason := default "user requested" (Request_reason request) in
  self ← stm_get;
  let active_run := active_run_id mission_id self in
  _ ← with_actor (uuid_to_string mission_id) (failed "SAFE_PAUSE_FAILED:")
        (λ ids, actor_request_safe_pause ids reason);
  result ← current_result mission_id;
  _ ← pause_active_run "SAFE_PAUSE_CONTROL_FAILED:" mission_id active_run;
  mret result.

Definition svc_request_force_termination (request : MissionCommandRequest)
    : svc MissionCommandResult :=
  mission_id ← stm_lift (request_mission_id request);
  self ← stm_get;
  let active_run := active_run_id mission_id self in
  token ← with_actor (uuid_to_string mission_id) (failed "FORCE_TERMINATE_REQUEST_FAILED:")
            request_force_termination;
  result ← current_result mission_id;
  _ ← pause_active_run "SAFE_PAUSE_CONTROL_FAILED:" mission_id active_run;
  mret (with_extras (Some token) None None None None result).

Definition svc_force_terminate (request : MissionCommandRequest) : svc MissionCommandResult :=
  mission_id ← stm_lift (request_mission_id request);
  token ← stm_lift (ok_or "FORCE_TOKEN_REQUIRED" (Request_confirmation_token request));
  self ← stm_get;
  let active_run := active_run_id mission_id self in
  a ← get_actor (uuid_to_string mission_id);
  if negb (pause_can_force_terminate (MissionActor_pause a) token)
  then stm_throw "FORCE_TERMINATE_FAILED:invalid confirmation token" else
  _ ← (match active_run with
       | None => mret tt
       | Some run_id =>
           self ← stm_get;
           provider ← stm_lift (adapter (default ProviderId_default (run_provider mission_id self)));
           i ← call (CallTerminate provider run_id);
           stm_lift (map_err (λ e, "FORCE_TERMINATE_CONTROL_FAILED:" +:+ e) (env_control i))
       end);
  i ← tick;
  _ ← with_actor (uuid_to_string mission_id) (failed "FORCE_TERMINATE_FAILED:")
        (λ ids, actor_force_terminate ids (env_terminate i) token);
  current_result mission_id.

(** *** Approvals *)
Definition approval_decision (request : MissionCommandRequest)
    : result string (ApprovalDecision * option ApprovalGrantScope) :=
  match Request_approval_decision request with
  | Some "approve-once" => Ok (DecisionApprove, Some GrantOnce)
  | Some "approve-route" => Ok (DecisionApprove, Some GrantRouteActionClass)
  | Some "approve" =>
      match Request_approval_scope request with
      | None | Some "once" | Some "approve-once" => Ok (DecisionApprove, Some GrantOnce)
      | Some "route" | Some "route_action_class" | Some "approve-route" =>
          Ok (DecisionApprove, Some GrantRouteActionClass)
      | Some _ => Err "APPROVAL_SCOPE_INVALID"
      end
  | Some "deny" => Ok (DecisionDeny, None)
  | Some "revoke" => Ok (DecisionRevoke, None)
  | _ => Err "APPROVAL_DECISION_INVALID"
  end.
(** The answer sent to the agent that asked. *)
Definition response_decision (request : MissionCommandRequest) : string :=
  match Request_approval_decision request with
  | Some "approve-route" => "acceptForSession"
  | Some "approve-once" | Some "approve" => "accept"
  | _ => "decline"
  end.
Definition svc_resolve_approval (request : MissionCommandRequest) : svc MissionCommandResult :=
  mission_id ← stm_lift (request_mission_id request);
  route_id ← stm_lift (request_route_id request);
  approval_id ← stm_lift (required "APPROVAL_ID_REQUIRED" (Request_approval_id request));
  decision ← stm_lift (approval_decision request);
  expected_revision ← stm_lift (ok_or "APPROVAL_REVISION_REQUIRED"
    (match Request_expected_revision request with
     | Some n => Some n | None => Request_expected_version request end));
  action_digest ← stm_lift (required "ACTION_DIGEST_REQUIRED" (Request_action_digest request));
  contract_version ← stm_lift (ok_or "CONTRACT_VERSION_REQUIRED" (Request_contract_version request));
  loadout_fingerprint ← stm_lift
    (required "LOADOUT_FINGERPRINT_REQUIRED" (Request_loadout_fingerprint request));
  i ← tick;
  let now_ms := default (env_now_ms i) (Request_now_ms request) in
  _ ← with_actor (uuid_to_string mission_id) (failed "APPROVAL_RESOLUTION_FAILED:")
        (λ ids, resolve_approval ids ProtoUser {|
          ResolveApproval_approval_id := approval_id;
          ResolveApproval_expected_revision := expected_revision;
          ResolveApproval_decision := decision.1;
          ResolveApproval_mission_id := uuid_to_string mission_id;
          ResolveApproval_route_id := uuid_to_string route_id;
          ResolveApproval_contract_version := contract_version;
          ResolveApproval_loadout_fingerprint := loadout_fingerprint;
          ResolveApproval_action_digest := action_digest;
          ResolveApproval_now_ms := now_ms; ResolveApproval_scope := decision.2 |});
  result ← current_result mission_id;
  self ← stm_get;
  let pending := MissionService_pending self !! approval_id in
  _ ← stm_modify (λ s, set_pending (delete approval_id (MissionService_pending s)) s);
  _ ← (match pending with
       | None => mret tt
       | Some pending =>
           provider ← stm_lift (adapter (PendingServerRequest_provider pending));
           i ← call (CallRespond provider (PendingServerRequest_run_id pending)
                       (PendingServerRequest_request_id pending) (response_decision request));
           stm_lift (map_err (λ e, "APPROVAL_RESPONSE_FAILED:" +:+ e) (env_control i))
       end);
  mret result.

(** *** Recovery *)
Definition svc_build_recovery_package (request : MissionCommandRequest)
    : svc MissionCommandResult :=
  mission_id ← stm_lift (request_mission_id request);
  route_id ← stm_lift (request_route_id request);
  checkpoint_id ← stm_lift (required "CHECKPOINT_ID_REQUIRED" (Request_checkpoint_id request));
  contract_version ← stm_lift (ok_or "CONTRACT_VERSION_REQUIRED" (Request_contract_version request));
  ledger_sequence ← stm_lift (ok_or "LEDGER_SEQUENCE_REQUIRED" (Request_ledger_sequence request));
  loadout_fingerprint ← stm_lift
    (required "LOADOUT_FINGERPRINT_REQUIRED" (Request_loadout_fingerprint request));
  context_pack_hash ← stm_lift
    (required "CONTEXT_PACK_HASH_REQUIRED" (Request_context_pack_hash request));
  a ← get_actor (uuid_to_string mission_id);
  if (MissionActor_sequence a <? ledger_sequence)%Z then stm_throw "RECOVERY_SEQUENCE_INVALID" else
  let payload := to_vec (json_object
    [("mission_id", mission_value mission_id);
     ("route_id", Value_String (uuid_to_string route_id));
     ("checkpoint_id", Value_String checkpoint_id);
     ("ledger_sequence", Value_U64 ledger_sequence);
     ("events", Value_Array (to_value <$> actor_events a 0))]) in
  _ ← open_recovery_store;
  package ← with_store (λ e, "RECOVERY_BUILD_FAILED:" +:+ display_fmt e)
    (@build_recovery_package _ _ (encrypted_storage nonces) _ _ {|
      RecoveryInput_mission_id := mission_id; RecoveryInput_route_id := route_id;
      RecoveryInput_contract_version := contract_version;
      RecoveryInput_checkpoint_id := checkpoint_id;
      RecoveryInput_ledger_sequence := ledger_sequence;
      RecoveryInput_loadout_fingerprint := loadout_fingerprint;
      RecoveryInput_context_pack_hash := context_pack_hash;
      RecoveryInput_pending_approval_hash := Request_pending_approval_hash request;
      RecoveryInput_permissions := ∅; RecoveryInput_payload := str_bytes payload |});
  result ← current_result mission_id;
  mret (with_extras None (Some (to_value package)) None None None result).

Definition verify_recovery_request (request : MissionCommandRequest)
    : svc (MissionId * RouteId * RecoveryPackage) :=
  mission_id ← stm_lift (request_mission_id request);
  route_id ← stm_lift (request_route_id request);
  value ← stm_lift (ok_or "RECOVERY_PACKAGE_REQUIRED" (Request_recovery_package request));
  package ← stm_lift (map_err (λ _, "RECOVERY_PACKAGE_INVALID") (from_value value));
  a ← get_actor (uuid_to_string mission_id);
  if negb (MissionActor_requires_recovery a) then stm_throw "RECOVERY_NOT_REQUIRED" else
  contract_version ← stm_lift (ok_or "CONTRACT_VERSION_REQUIRED" (Request_contract_version request));
  ledger_sequence ← stm_lift (ok_or "LEDGER_SEQUENCE_REQUIRED" (Request_ledger_sequence request));
  let sequence := RecoveryManifest_ledger_sequence (RecoveryPackage_manifest package) in
  if negb (sequence =? ledger_sequence)%Z then stm_throw "RECOVERY_SEQUENCE_INVALID" else
  if negb (sequence =? MissionActor_sequence a)%Z then stm_throw "RECOVERY_SEQUENCE_INVALID" else
  loadout_fingerprint ← stm_lift
    (required "LOADOUT_FINGERPRINT_REQUIRED" (Request_loadout_fingerprint request));
  context_pack_hash ← stm_lift
    (required "CONTEXT_PACK_HASH_REQUIRED" (Request_context_pack_hash request));
  _ ← open_recovery_store;
  self ← stm_get;
  let store := blob_view (MissionService_files self) (MissionService_nonces_drawn self)
                 (MissionService_database self) in
  _ ← displayed "RECOVERY_VERIFY_FAILED:"
    (@recovery_verify _ _ (encrypted_storage nonces) _ _ package store {|
      RecoveryConstraints_mission_id := mission_id; RecoveryConstraints_route_id := route_id;
      RecoveryConstraints_contract_version := contract_version;
      RecoveryConstraints_ledger_sequence := MissionActor_sequence a;
      RecoveryConstraints_loadout_fingerprint := loadout_fingerprint;
      RecoveryConstraints_context_pack_hash := context_pack_hash;
      RecoveryConstraints_pending_approval_hash := Request_pending_approval_hash request;
      RecoveryConstraints_permissions := ∅ |});
  mret (mission_id, route_id, package).

Definition svc_verify_recovery (request : MissionCommandRequest) : svc MissionCommandResult :=
  verified ← verify_recovery_request request;
  let '(mission_id, _, package) := verified in
  result ← current_result mission_id;
  let manifest := RecoveryPackage_manifest package in
  mret (with_extras None None (Some (json_object
    [("verified", Value_Bool true);
     ("entry_hash", Value_String (RecoveryManifest_entry_hash manifest));
     ("ledger_sequence", Value_U64 (RecoveryManifest_ledger_sequence manifest))])) None None result).

(** *** Memory *)
Definition review_status (decision : string) : result string string :=
  match decision with
  | "confirm" => Ok "confirmed"
  | "reject" => Ok "rejected"
  | "defer" => Ok "deferred"
  | _ => Err "MEMORY_DECISION_INVALID"
  end.
(** The latest recorded version of a memory item. *)
Fixpoint latest_item (memory_id : string) (reversed : list EventEnvelope) : option Value :=
  match reversed with
  | [] => None
  | event :: reversed =>
      let found :=
        if bool_decide (EventEnvelope_kind event = MemoryItemChanged)
        then item ← Value_get (EventEnvelope_payload event) "item";
             if bool_decide (Value_get item "id" ≫= Value_as_str = Some memory_id)
             then Some item else None
        else None in
      match found with Some item => Some item | None => latest_item memory_id reversed end
  end.
Definition review_memory (request : MissionCommandRequest) : svc MissionCommandResult :=
  mission_id ← stm_lift (request_mission_id request);
  memory_id ← stm_lift (ok_or "MEMORY_ID_REQUIRED" (Request_memory_id request));
  decision ← stm_lift (ok_or "MEMORY_DECISION_REQUIRED" (Request_memory_decision request));
  status ← stm_lift (review_status decision);
  a ← get_actor (uuid_to_string mission_id);
  if match Request_expected_version request with
     | Some expected => negb (expected =? MissionActor_sequence a)%Z | None => false end
  then stm_throw "MISSION_VERSION_CONFLICT" else
  item ← stm_lift (ok_or "MEMORY_NOT_FOUND" (latest_item memory_id (rev (actor_events a 0))));
  if bool_decide (Value_get item "kind" ≫= Value_as_str = Some "inference")
     && str_eqb status "confirmed"
  then stm_throw "MEMORY_INFERENCE_CANNOT_CONFIRM" else
  object ← stm_lift (ok_or "MEMORY_ITEM_INVALID" (Value_as_object item));
  let item := Value_Object (<["author" := Value_String "user"]>
                (<["status" := Value_String status]> object)) in
  _ ← with_actor (uuid_to_string mission_id) (failed "MEMORY_REVIEW_FAILED:")
        (λ ids, record_event ids MemoryItemChanged
          (json_object [("action", Value_String decision); ("item", item)]));
  current_result mission_id.

(** *** Starting an agent *)
Definition recorded_goal (a : option actor) : option string :=
  a ← a;
  event ← find (λ e, bool_decide (EventEnvelope_kind e = MissionCreated)) (actor_events a 0);
  Value_get (EventEnvelope_payload event) "goal" ≫= Value_as_str.
Definition recorded_contract_version (a : option actor) : u64 :=
  default 1%Z (
    a ← a;
    event ← find (λ e, bool_decide (EventEnvelope_kind e = ContractUpdated)) (rev (actor_events a 0));
    Value_get (EventEnvelope_payload event) "contract_version" ≫= Value_as_u64).
Definition request_fingerprint (request : MissionCommandRequest) : result string string :=
  required "LOADOUT_FINGERPRINT_REQUIRED"
    (match Request_loadout_fingerprint request with
     | Some fp => Some fp
     | None => (λ l, str_join "|" (fingerprint_material l)) <$> Request_loadout request
     end).

(** The insertion of a run with its consumer task. *)
Definition spawn (mission_id : MissionId) (provider : ProviderId) (run_id : string) : svc unit :=
  stm_modify (λ s, set_runs
    (<[uuid_to_string mission_id := run_id]> (MissionService_runs s))
    (<[uuid_to_string mission_id := provider]> (MissionService_run_providers s))
    (MissionService_consumers s ++ [{| Consumer_mission_id := mission_id;
       Consumer_run_id := run_id; Consumer_provider := provider; Consumer_previous_tokens := 0 |}]) s).

Definition start_request (mission_id : MissionId) (route_id : RouteId) (provider : ProviderId)
    (project_root loadout_fingerprint : string) (goal : option string) (a : option actor)
    (request : MissionCommandRequest) : StartAgentRequest := {|
  StartAgentRequest_provider := provider; StartAgentRequest_mission_id := mission_id;
  StartAgentRequest_route_id := route_id; StartAgentRequest_project_root := project_root;
  StartAgentRequest_route_workspace := project_root; StartAgentRequest_read_only := true;
  StartAgentRequest_approved_environment := [];
  StartAgentRequest_model := Request_loadout request ≫= LoadoutSnapshot_model;
  StartAgentRequest_goal := goal; StartAgentRequest_loadout_fingerprint := loadout_fingerprint;
  StartAgentRequest_contract_version :=
    match Request_contract_version request with
    | Some v => v | None => recorded_contract_version a end;
  StartAgentRequest_resume_thread_id := Request_resume_token request;
  StartAgentRequest_loadout := Request_loadout request |}.

Definition launch_agent (mission_id : MissionId) (route_id : RouteId)
    (request : MissionCommandRequest) : svc (string * ProviderId * AgentCapabilityReport) :=
  let key := uuid_to_string mission_id in
  project_root ← stm_lift (ok_or "PROJECT_ROOT_REQUIRED" (Request_project_root request));
  self ← stm_get;
  let goal := match Request_goal request with
              | Some goal => Some goal | None => recorded_goal (find_actor key self) end in
  let provider := default ProviderId_default (Request_provider request) in
  if match Request_loadout request with
     | Some loadout => negb (bool_decide (LoadoutSnapshot_provider loadout = provider))
     | None => false end
  then stm_throw "LOADOUT_PROVIDER_MISMATCH" else
  _ ← stm_lift (adapter provider);
  if match find_actor key self with
     | Some a => MissionActor_requires_recovery a | None => false end
  then stm_throw "RECOVERY_REQUIRED" else
  i ← call (CallProbe provider);
  capability ← stm_lift (map_err (λ e, "PROVIDER_PROBE_FAILED:" +:+ e) (env_probe i provider));
  if negb (is_available capability)
  then stm_throw ("PROVIDER_UNAVAILABLE:" +:+ default "capability unavailable"
                    (AgentCapabilityReport_unavailable_reason capability)) else
  if bool_decide (is_Some (Request_resume_token request))
     && negb (Capability_resume (AgentCapabilityReport_capability capability))
  then stm_throw "RESUME_UNSUPPORTED" else
  loadout_fingerprint ← stm_lift (request_fingerprint request);
  _ ← stm_zoom MissionService_loadouts set_loadouts id
        (LoadoutMonitor_freeze_fingerprint mission_id loadout_fingerprint);
  self ← stm_get;
  let start := start_request mission_id route_id provider project_root loadout_fingerprint goal
                 (find_actor key self) request in
  i ← call (CallStart start);
  run_id ← stm_lift (map_err (λ e, to_ascii_uppercase (ProviderId_as_str provider)
                                   +:+ "_ADAPTER_START_FAILED:" +:+ e) (env_start i start));
  _ ← spawn mission_id provider run_id;
  mret (run_id, provider, capability).

Definition launch_route (request : MissionCommandRequest) : svc MissionCommandResult :=
  mission_id ← stm_lift (request_mission_id request);
  route_id ← stm_lift (request_route_id request);
  let key := uuid_to_string mission_id in
  _ ← with_actor key (failed "ROUTE_LAUNCH_FAILED:")
        (λ ids, record_event ids ExplorationStarted (json_object
          [("route_id", Value_String (uuid_to_string route_id)); ("read_only", Value_Bool true)]));
  self ← stm_get;
  if bool_decide (is_Some (active_run_id mission_id self)) then stm_throw "ROUTE_ALREADY_RUNNING" else
  launched ← (λ s, let '(s, r) := launch_agent mission_id route_id request s in
    match r with
    | Ok launched => (s, Ok launched)
    | Err error =>
        let '(s, _) := try_actor key (λ ids, record_event ids (UnknownKind "adapter.start_failed")
                         (json_object [("error", Value_String error)])) s in
        (s, Err (to_ascii_uppercase
           (ProviderId_as_str (default ProviderId_default (Request_provider request)))
           +:+ "_START_FAILED"))
    end);
  result ← current_result mission_id;
  let '(_, selected_provider, capability) := launched in
  mret (with_extras None None None (Some selected_provider) (Some capability) result).

(** *** Resolving a recovery *)
Definition recorded_project_root (events : list EventEnvelope) : result string string :=
  ok_or "PROJECT_ROOT_REQUIRED" (
    event ← find (λ e, bool_decide (EventEnvelope_kind e = MissionCreated)) events;
    Value_get (EventEnvelope_payload event) "project_root" ≫= Value_as_str).
(** The provider of the latest [loadout_snapshot] event. *)
Definition recorded_provider (events : list EventEnvelope) : option ProviderId :=
  event ← find (λ e, str_eqb (EventKind_as_str (EventEnvelope_kind e)) "loadout_snapshot") (rev events);
  text ← Value_get (EventEnvelope_payload event) "provider" ≫= Value_as_str;
  result_ok (ProviderId_from_str text).
Definition recorded_thread (events : list EventEnvelope) : option string :=
  event ← find (λ e, bool_decide (EventEnvelope_kind e = AgentRunStarted)) (rev events);
  Value_get (EventEnvelope_payload event) "thread_id" ≫= Value_as_str.

Definition resume_request (mission_id : MissionId) (route_id : RouteId) (provider : ProviderId)
    (project_root fingerprint thread_id : string) (r : MissionCommandRequest)
    : MissionCommandRequest := {|
  Request_provider := Some provider; Request_target_provider := Request_target_provider r;
  Request_loadout := Request_loadout r; Request_mission_id := Some (uuid_to_string mission_id);
  Request_route_id := Some (uuid_to_string route_id);
  Request_expected_version := Request_expected_version r;
  Request_project_root := Some project_root; Request_goal := Request_goal r;
  Request_reason := Request_reason r; Request_confirmation_token := Request_confirmation_token r;
  Request_approval_id := Request_approval_id r;
  Request_approval_decision := Request_approval_decision r;
  Request_approval_scope := Request_approval_scope r;
  Request_action_digest := Request_action_digest r;
  Request_expected_revision := Request_expected_revision r; Request_now_ms := Request_now_ms r;
  Request_loadout_fingerprint := Some fingerprint; Request_resume_token := Some thread_id;
  Request_checkpoint_id := Request_checkpoint_id r;
  Request_contract_version := Request_contract_version r;
  Request_ledger_sequence := Request_ledger_sequence r;
  Request_context_pack_hash := Request_context_pack_hash r;
  Request_pending_approval_hash := Request_pending_approval_hash r;
  Request_memory_id := Request_memory_id r; Request_memory_decision := Request_memory_decision r;
  Request_project_limit_bytes := Request_project_limit_bytes r;
  Request_global_limit_bytes := Request_global_limit_bytes r;
  Request_recovery_package := Request_recovery_package r;
  Request_recovery_decision := Request_recovery_decision r; Request_budget := Request_budget r;
  Request_impact_hash := Request_impact_hash r; Request_archive_plan := Request_archive_plan r;
  Request_delete_plan := Request_delete_plan r |}.

Definition svc_resolve_recovery (request : MissionCommandRequest) : svc MissionCommandResult :=
  verified ← verify_recovery_request request;
  let '(mission_id, route_id, package) := verified in
  let key := uuid_to_string mission_id in
  decision ← stm_lift (ok_or "RECOVERY_DECISION_REQUIRED" (Request_recovery_decision request));
  let manifest := RecoveryPackage_manifest package in
  a ← get_actor key;
  let events := actor_events a 0 in
  project_root ← stm_lift (recorded_project_root events);
  let provider := default ProviderId_default
    (match recorded_provider events with Some p => Some p | None => Request_provider request end) in
  let thread_id := recorded_thread events in
  _ ← with_actor key (failed "RECOVERY_RESOLUTION_FAILED:")
        (λ ids, resolve_recovery ids decision (to_value manifest));
  result ← current_result mission_id;
  _ ← (if str_eqb decision "continue" then
         thread_id ← stm_lift (ok_or "RECOVERY_THREAD_ID_MISSING" thread_id);
         _ ← launch_agent mission_id route_id (resume_request mission_id route_id provider
               project_root (RecoveryManifest_loadout_fingerprint manifest) thread_id request);
         mret tt
       else mret tt);
  mret result.

(** *** Providers *)
Definition unavailable_capability (provider : ProviderId) (reason : string)
    : AgentCapabilityReport := {|
  AgentCapabilityReport_provider := provider;
  AgentCapabilityReport_agent := ProviderId_as_str provider;
  AgentCapabilityReport_version := None;
  AgentCapabilityReport_install_state := DetectedNotRunnable;
  AgentCapabilityReport_capability := {|
    Capability_structured_events := false; Capability_resume := false;
    Capability_approval := false; Capability_safe_pause := false;
    Capability_terminal_fallback := false |};
  AgentCapabilityReport_unavailable_reason := Some reason;
  AgentCapabilityReport_executable_hash := None;
  AgentCapabilityReport_configuration_source := None |}.
Fixpoint probe_all (providers : list ProviderId) : svc (list AgentCapabilityReport) :=
  match providers with
  | [] => mret []
  | provider :: providers =>
      capability ← (if has_adapter provider then
          i ← call (CallProbe provider);
          mret (match env_probe i provider with
                | Ok report => report
                | Err error => unavailable_capability provider error
                end)
        else mret (unavailable_capability provider "runtime adapter is not installed"));
      rest ← probe_all providers;
      mret (capability :: rest)
  end.
(** [cc_switch] is what the bridge to another application reports. *)
Definition provider_capabilities (cc_switch : Value) : svc MissionCommandResult :=
  capabilities ← probe_all ProviderId_ALL;
  mret {| Result_accepted := true; Result_mission_id := None; Result_route_id := None;
    Result_sequence := None; Result_error_code := None; Result_confirmation_token := None;
    Result_provider := None; Result_capability := None; Result_events := [];
    Result_recovery_package := None; Result_capabilities := capabilities;
    Result_cc_switch := Some cc_switch; Result_data := None; Result_recovery_required := false |}.

Definition pause_request_for (mission_id : MissionId) (route_id : RouteId) (provider : ProviderId)
    : MissionCommandRequest := {|
  Request_provider := Some provider; Request_target_provider := None; Request_loadout := None;
  Request_mission_id := Some (uuid_to_string mission_id);
  Request_route_id := Some (uuid_to_string route_id); Request_expected_version := None;
  Request_project_root := None; Request_goal := None;
  Request_reason := Some "provider handoff requested"; Request_confirmation_token := None;
  Request_approval_id := None; Request_approval_decision := None; Request_approval_scope := None;
  Request_action_digest := None; Request_expected_revision := None; Request_now_ms := None;
  Request_loadout_fingerprint := None; Request_resume_token := None;
  Request_checkpoint_id := None; Request_contract_version := None;
  Request_ledger_sequence := None; Request_context_pack_hash := None;
  Request_pending_approval_hash := None; Request_memory_id := None;
  Request_memory_decision := None; Request_project_limit_bytes := None;
  Request_global_limit_bytes := None; Request_recovery_package := None;
  Request_recovery_decision := None; Request_budget := None; Request_impact_hash := None;
  Request_archive_plan := None; Request_delete_plan := None |}.
Definition handoff_request (mission_id : MissionId) (route_id : RouteId) (target : ProviderId)
    (project_root fingerprint context_pack_hash : string) (pending : option string)
    : MissionCommandRequest := {|
  Request_provider := Some target; Request_target_provider := None; Request_loadout := None;
  Request_mission_id := Some (uuid_to_string mission_id);
  Request_route_id := Some (uuid_to_string route_id); Request_expected_version := None;
  Request_project_root := Some project_root; Request_goal := None; Request_reason := None;
  Request_confirmation_token := None; Request_approval_id := None;
  Request_approval_decision := None; Request_approval_scope := None;
  Request_action_digest := None; Request_expected_revision := None; Request_now_ms := None;
  Request_loadout_fingerprint := Some fingerprint; Request_resume_token := None;
  Request_checkpoint_id := None; Request_contract_version := None;
  Request_ledger_sequence := None; Request_context_pack_hash := Some context_pack_hash;
  Request_pending_approval_hash := pending; Request_memory_id := None;
  Request_memory_decision := None; Request_project_limit_bytes := None;
  Request_global_limit_bytes := None; Request_recovery_package := None;
  Request_recovery_decision := None; Request_budget := None; Request_impact_hash := None;
  Request_archive_plan := None; Request_delete_plan := None |}.
(** The fingerprint of the latest [loadout_snapshot] event. *)
Definition recorded_fingerprint (context_pack_hash : string) (events : list EventEnvelope) : string :=
  default ("handoff-" +:+ context_pack_hash) (
    event ← find (λ e, str_eqb (EventKind_as_str (EventEnvelope_kind e)) "loadout_snapshot") (rev events);
    text ← Value_get (EventEnvelope_payload event) "fingerprint" ≫= Value_as_str;
    if negb (blank text) then Some text else None).

Definition handoff_provider (request : MissionCommandRequest) : svc MissionCommandResult :=
  mission_id ← stm_lift (request_mission_id request);
  route_id ← stm_lift (request_route_id request);
  target ← stm_lift (ok_or "PROVIDER_NOT_SELECTED"
    (match Request_target_provider request with
     | Some p => Some p | None => Request_provider request end));
  context_pack_hash ← stm_lift
    (required "CONTEXT_PACK_HASH_REQUIRED" (Request_context_pack_hash request));
  let key := uuid_to_string mission_id in
  a ← get_actor key;
  let events := actor_events a 0 in
  if match head events with
     | Some e => negb (bool_decide (EventEnvelope_route_id e = route_id)) | None => true end
  then stm_throw "ROUTE_MISMATCH" else
  project_root ← stm_lift (recorded_project_root events);
  self ← stm_get;
  let current_provider := default ProviderId_default
    (match run_provider mission_id self with
     | Some p => Some p | None => recorded_provider events end) in
  let fingerprint := recorded_fingerprint context_pack_hash events in
  if bool_decide (current_provider = target) then stm_throw "HANDOFF_PROVIDER_UNCHANGED" else
  if bool_decide (is_Some (active_run_id mission_id self)) then
    λ s, ((svc_request_safe_pause (pause_request_for mission_id route_id current_provider) s).1,
          Err "HANDOFF_REQUIRES_PAUSED_RUN")
  else
  _ ← with_actor key (failed "HANDOFF_RECORD_FAILED:")
        (λ ids, record_event ids (UnknownKind "provider_handoff_requested") (json_object
          [("target_provider", Value_String (ProviderId_as_str target));
           ("context_pack_hash", Value_String context_pack_hash)]));
  launched ← launch_agent mission_id route_id (handoff_request mission_id route_id target
    project_root fingerprint context_pack_hash (Request_pending_approval_hash request));
  result ← current_result mission_id;
  let '(_, selected_provider, capability) := launched in
  mret (with_extras None None None (Some selected_provider) (Some capability) result).

(** *** The loadout check *)
Definition check_loadout_before_model_request (mission_id : MissionId) (next_fingerprint : string)
    : svc (option LoadoutChange) :=
  self ← stm_get;
  change ← stm_lift (check_fingerprint (MissionService_loadouts self) mission_id next_fingerprint);
  match change with
  | None => mret None
  | Some change =>
      _ ← with_actor (uuid_to_string mission_id) (failed "LOADOUT_CHANGE_FAILED:")
            (λ ids, check_loadout_change ids (LoadoutChange_previous_fingerprint change)
                      (LoadoutChange_next_fingerprint change));
      self ← stm_get;
      _ ← pause_active_run "LOADOUT_PAUSE_FAILED:" mission_id (active_run_id mission_id self);
      mret (Some change)
  end.

(** *** The event consumer of a run *)
Definition record_usage (key : string) (record : UsageRecord) : svc (list BudgetSignal) := λ s,
  let tracker := default default_budget_tracker (MissionService_budgets s !! key) in
  let '(tracker, signals) := evaluate_safe_boundary (BudgetTracker_record record tracker) in
  (set_budgets (<[key := tracker]> (MissionService_budgets s)) s, Ok signals).
Definition is_pause_signal (signal : BudgetSignal) : bool :=
  match signal with PauseAtSafeBoundary _ => true | _ => false end.
(** Whether the budget asks the agent to pause after a usage record. *)
Definition budget_step_of (key : string) (record : option UsageRecord) : svc bool :=
  match record with
  | None => mret false
  | Some record =>
      signals ← record_usage key record;
      if is_empty signals then mret false else
      r ← try_actor key (λ ids, apply_budget_signals ids signals);
      mret (match r with
            | None => false
            | Some (Ok _) => existsb is_pause_signal signals
            | Some (Err _) => true
            end)
  end.
(** The request of an agent that waits for an approval. *)
Definition server_request (event : AgentEvent) : option (string * Value) :=
  if bool_decide (AgentEvent_event_kind event = ApprovalRequested) then
    payload ← Value_as_object (AgentEvent_payload event);
    approval_id ← (payload : gmap string Value) !! "approval_id" ≫= Value_as_str;
    request_id ← (payload : gmap string Value) !! "server_request_id";
    Some (approval_id, request_id)
  else None.
Definition note_server_request (c : Consumer) (event : AgentEvent) : svc unit :=
  match server_request event with
  | None => mret tt
  | Some (approval_id, request_id) =>
      stm_modify (λ s, set_pending (<[approval_id := {|
          PendingServerRequest_run_id := Consumer_run_id c;
          PendingServerRequest_request_id := request_id;
          PendingServerRequest_provider :=
            default ProviderId_default (run_provider (Consumer_mission_id c) s) |}]>
        (MissionService_pending s)) s)
  end.
Definition degraded (reason : string) : Value :=
  json_object [("reason", Value_String reason); ("safe_pause", Value_Bool true)].
(** What the actor makes of the event: whether the run stops and whether the
    agent is asked to pause. *)
Definition deliver (key : string) (event : AgentEvent) (budget_pause : bool) : svc (bool * bool) :=
  r ← try_actor key (λ ids, record_agent_event event);
  match r with
  | None => mret (true, true)
  | Some (Ok _) =>
      if AgentEvent_requires_safe_pause event then
        r ← try_actor key (λ ids, actor_request_safe_pause ids "adapter requires safe pause");
        match r with
        | Some (Err _) =>
            _ ← try_actor key (λ ids, record_event ids (UnknownKind "mission.degraded")
                  (degraded "safe pause audit append failed"));
            mret (true, true)
        | _ => mret (false, true)
        end
      else mret (false, budget_pause)
  | Some (Err _) =>
      _ ← try_actor key (λ ids, record_event ids (UnknownKind "mission.degraded")
            (degraded "agent event append failed"));
      _ ← try_actor key (λ ids, actor_request_safe_pause ids "agent event append failed");
      mret (true, true)
  end.
(** One turn of the loop: the tokens seen so far and whether it ends. *)
Definition consume_event (c : Consumer) (event : AgentEvent) : svc (u64 * bool) :=
  let key := uuid_to_string (Consumer_mission_id c) in
  let '(previous_tokens, record) := usage_record_from_event event (Consumer_previous_tokens c) in
  budget_pause ← budget_step_of key record;
  _ ← note_server_request c event;
  delivered ← deliver key event budget_pause;
  let '(should_remove, adapter_pause) := delivered in
  stops ← (if adapter_pause : bool then
             r ← call_pause (Consumer_provider c) (Consumer_run_id c);
             mret (should_remove || negb (is_ok r))
           else mret should_remove);
  mret (previous_tokens, stops).
(** The run is over: its entries go, unless another run took its place. *)
Definition end_run (c : Consumer) (s : MissionService) : MissionService :=
  let key := uuid_to_string (Consumer_mission_id c) in
  let s := if bool_decide (MissionService_runs s !! key = Some (Consumer_run_id c))
           then set_runs (delete key (MissionService_runs s))
                  (delete key (MissionService_run_providers s)) (MissionService_consumers s) s
           else s in
  set_pending (filter (λ p, PendingServerRequest_run_id p.2 ≠ Consumer_run_id c)
    (MissionService_pending s)) s.
(** What follows the loop, given the time the run took. *)
Definition finish_run (c : Consumer) (elapsed : Duration) : svc unit :=
  let key := uuid_to_string (Consumer_mission_id c) in
  signals ← record_usage key (Sample (UsageSample_wall_clock elapsed));
  _ ← (if is_empty signals then mret None
       else try_actor key (λ ids, apply_budget_signals ids signals));
  stm_modify (end_run c).

Definition set_consumers (cs : list Consumer) (s : MissionService) : MissionService :=
  set_runs (MissionService_runs s) (MissionService_run_providers s) cs s.
(** The task with index [n] receives an event, or the end of its channel. *)
Definition consumer_event (n : nat) (event : AgentEvent) (elapsed : Duration) (s : MissionService)
    : MissionService :=
  match MissionService_consumers s !! n with
  | None => s
  | Some c =>
      match consume_event c event s with
      | (s, Ok (previous_tokens, false)) =>
          set_consumers (<[n := {| Consumer_mission_id := Consumer_mission_id c;
              Consumer_run_id := Consumer_run_id c; Consumer_provider := Consumer_provider c;
              Consumer_previous_tokens := previous_tokens |}]> (MissionService_consumers s)) s
      | (s, _) =>
          let s := (finish_run c elapsed s).1 in
          set_consumers (delete n (MissionService_consumers s)) s
      end
  end.
Definition consumer_end (n : nat) (elapsed : Duration) (s : MissionService) : MissionService :=
  match MissionService_consumers s !! n with
  | None => s
  | Some c =>
      let s := (finish_run c elapsed s).1 in
      set_consumers (delete n (MissionService_consumers s)) s
  end.

(** *** The user interface *)
Fixpoint set_ui_all (connected : bool) (keys : list string) (affected : list string)
    : svc (list string) :=
  match keys with
  | [] => mret affected
  | key :: keys =>
      self ← stm_get;
      let was_connected := match MissionService_missions self !! key with
        | Some a => MissionActor_ui_connected a | None => false end in
      _ ← try_actor key (λ ids, set_ui_connected ids connected);
      set_ui_all connected keys (if was_connected then affected ++ [key] else affected)
  end.
Definition touch_ui : svc unit :=
  self ← stm_get;
  _ ← set_ui_all true (hash_elements (dom (MissionService_missions self))) [];
  mret tt.
Fixpoint pause_runs (keys : list string) : svc unit :=
  match keys with
  | [] => mret tt
  | key :: keys =>
      self ← stm_get;
      _ ← (match MissionService_runs self !! key with
           | None => mret tt
           | Some run_id =>
               let provider := default ProviderId_default (MissionService_run_providers self !! key) in
               if has_adapter provider then _ ← call_pause provider run_id; mret tt else mret tt
           end);
      pause_runs keys
  end.
Definition pause_for_ui_disconnect : svc unit :=
  self ← stm_get;
  keys ← set_ui_all false (hash_elements (dom (MissionService_missions self))) [];
  pause_runs keys.
(** One tick of the watchdog. *)
Definition watchdog (expired command_in_flight : bool) : svc unit :=
  if expired && negb command_in_flight then pause_for_ui_disconnect else mret tt.

(** *** Start *)
Fixpoint restore_missions (ids : list MissionId) : svc unit :=
  match ids with
  | [] => mret tt
  | mission_id :: ids =>
      let key := uuid_to_string mission_id in
      ledger ← open_ledger;
      events ← displayed "MISSION_RESTORE_FAILED:" (replay_events mission_id ledger);
      first ← stm_lift (ok_or "MISSION_RESTORE_ROUTE_MISSING" (head events));
      _ ← stm_modify (λ s, set_budgets
            (<[key := budget_tracker_from_events events]> (MissionService_budgets s)) s);
      self ← stm_get;
      _ ← (match MissionService_missions self !! key with
           | Some _ => mret tt
           | None =>
               a ← stm_lift (map_err (λ e, "MISSION_RESTORE_FAILED:" +:+ e)
                     (MissionActor_try_new mission_id (EventEnvelope_route_id first) ledger));
               stm_modify (λ s, set_missions (<[key := a]> (MissionService_missions s)) s)
           end);
      restore_missions ids
  end.
Definition restore_existing : svc unit :=
  ledger ← open_ledger;
  i ← tick;
  _ ← displayed "LEDGER_RECOVERY_REQUIRED:" (integrity_report (env_quick_check i) ledger);
  ids ← displayed "MISSION_RESTORE_FAILED:" (mission_ids ledger);
  restore_missions ids.
(** The service before [restore_existing], on the database and the blob files
    it finds. *)
Definition MissionService_initial (db : EncryptedLedger) (files : gmap string (list u8))
    (nonces_drawn ids clock : nat) : MissionService := {|
  MissionService_missions := ∅; MissionService_budgets := ∅; MissionService_runs := ∅;
  MissionService_run_providers := ∅; MissionService_pending := ∅;
  MissionService_loadouts := LoadoutMonitor_default; MissionService_database := db;
  MissionService_files := files; MissionService_nonces_drawn := nonces_drawn;
  MissionService_consumers := []; MissionService_ids_drawn := ids; MissionService_clock := clock;
  MissionService_calls := [] |}.

(** *** Dispatch *)
Definition dispatch (cc_switch : Value) (command : string) (request : MissionCommandRequest)
    : svc MissionCommandResult :=
  let named := str_eqb command in
  if named "create_mission" then create_mission request else
  if named "update_mission_contract" then update_mission_contract request else
  if named "launch_route" then launch_route request else
  if named "subscribe_mission" then subscribe_mission request else
  if named "request_safe_pause" then svc_request_safe_pause request else
  if named "request_force_termination" then svc_request_force_termination request else
  if named "force_terminate" then svc_force_terminate request else
  if named "resolve_approval" then svc_resolve_approval request else
  if named "build_recovery_package" then svc_build_recovery_package request else
  if named "verify_recovery" then svc_verify_recovery request else
  if named "resolve_recovery" then svc_resolve_recovery request else
  if named "review_memory" then review_memory request else
  if named "handoff_provider" then handoff_provider request else
  if named "provider_capabilities" then provider_capabilities cc_switch else
  if named "storage_preview" then svc_storage_preview request else
  if named "export_preview" then svc_export_preview request else
  if named "diagnostic_preview" then svc_diagnostic_preview request else
  if named "archive_mission" then svc_archive_mission request else
  if named "delete_mission" then svc_delete_mission request else
  if named "materialize_export" then svc_materialize_export request else
  stm_throw "COMMAND_NOT_ALLOWED".
Definition dispatch_json (cc_switch : Value) (command : string) (request : Value) : svc Value :=
  if negb (existsb (str_eqb command) MISSION_COMMANDS) then stm_throw "COMMAND_NOT_ALLOWED" else
  request ← stm_lift (map_err (λ _, "MISSION_REQUEST_INVALID") (from_value request));
  _ ← stm_lift (validate_mission_request request);
  result ← dispatch cc_switch command request;
  mret (to_value result).
End service.
