(* ===== verification/ServiceProofs.v ===== *)
(** * Invariants of the mission service

    What every state of the service satisfies, whatever commands arrive,
    whatever the agents do and whatever the world answers: the tables of
    running agents agree, every call to an agent was guarded, and the shared
    database keeps its own invariant.  The proofs walk through the handlers
    with [always]. *)

From S2P Require Import Prelude Always Extern Ids Event Ordering Approval Budget Envelope PolicyEngine.
From S2P Require Import Command AdapterCore LoadoutMonitor ProcessTree Pause MissionActor.
From S2P Require Import Frame BlobStore Redaction Ledger Lifecycle RecoveryPackage ServiceData Service.
From Stdlib Require Import ZArith Lia.
From stdpp Require Import prelude gmap strings pretty.

(** [serde_json] reads back what it wrote. *)
Class JsonParseLaws `{JsonParse} : Prop :=
  value_from_to_vec : ∀ v, value_from_str (to_vec v) = Ok v.

Section actors.
Context `{SerdeJson, Sha256, UuidText, RegexCrate, !JsonParse}.
Context `{!Serde ApprovalRequest, !Serde ActionClass}.
Context `{!DebugFmt PauseState, !DebugFmt BudgetDimension, !DebugFmt ActionClass}.
Context `{!HashOrder ApprovalRequest, !DisplayFmt LedgerError}.
Context `{!UuidTextLaws, !JsonParseLaws}.
Abbreviation actor := (MissionActor EncryptedLedger).

(** What a step on behalf of one mission may do to the database. *)
Record db_step (m : MissionId) (l l' : EncryptedLedger) : Prop := {
  db_step_inv : stored_inv l → stored_inv l';
  db_step_other m' : m' ≠ m →
    by_mission (uuid_to_string m') (EncryptedLedger_events l') =
    by_mission (uuid_to_string m') (EncryptedLedger_events l);
}.
#[export] Instance db_step_preorder m : PreOrder (db_step m).
Proof.
  split; [by split|]. intros l1 l2 l3 [H12 O12] [H23 O23]. split; [auto|].
  intros m' Hm. by rewrite O23, O12.
Qed.
(** A step of an actor: it stays the actor of its mission. *)
Definition actor_step (a a' : actor) : Prop :=
  MissionActor_mission_id a' = MissionActor_mission_id a ∧
  db_step (MissionActor_mission_id a) (MissionActor_ledger a) (MissionActor_ledger a').
#[export] Instance actor_step_preorder : PreOrder actor_step.
Proof.
  split; [by split|]. intros a1 a2 a3 [E12 D12] [E23 D23]. split; [congruence|].
  rewrite E12 in D23. by etrans.
Qed.

Lemma events_storable red e :
  (0 ≤ EventEnvelope_sequence e)%Z → EventEnvelope_schema_version e = 1%Z →
  EventEnvelope_occurred_at e = Timestamp_now → storable red e.
Proof.
  intros Hs Hv Ht. split; [done|lia|by rewrite Ht|..]; intros; apply value_from_to_vec.
Qed.
Lemma encrypted_append_step e l :
  storable (EncryptedLedger_redactor l) e →
  db_step (EventEnvelope_mission_id e) l (encrypted_append e l).1.
Proof.
  intros Hst. destruct (encrypted_append e l) as [l' [[]|err]] eqn:Ha; simpl.
  - pose proof Ha as (p&rows&Hp&Hi&->)%encrypted_append_Ok. split.
    + intros [Hr Hk Hid]. split; simpl; [|done..].
      pose proof (encrypted_append_inv e l Hst Hr) as Hr'. by rewrite Ha in Hr'.
    + intros m' Hm. simpl. unfold insert_prepared in Hi.
      destruct (find_event _ _).
      * destruct (equivalent_row _ _); [|done]. by injection Hi as <-.
      * assert (rows = EncryptedLedger_events l ++ [prepared_row p]) as ->.
        { by destruct (last_sequence _ _); destruct (negb _) in Hi; simplify_eq. }
        rewrite by_mission_snoc, decide_False, app_nil_r; [done|].
        destruct (prepare_row _ _ _ Hst Hp) as (pay&raw&_&_&Hrow).
        rewrite (row_event_mission _ _ Hrow). simpl. intros He. by apply (inj uuid_to_string) in He.
  - assert (l' = l) as ->; [|reflexivity].
    unfold encrypted_append in Ha. destruct (mbind _ _); by injection Ha.
Qed.

Lemma append_envelope_step e a :
  EventEnvelope_mission_id e = MissionActor_mission_id a →
  (0 ≤ EventEnvelope_sequence e)%Z → EventEnvelope_schema_version e = 1%Z →
  EventEnvelope_occurred_at e = Timestamp_now → actor_step a (append_envelope e a).1.
Proof.
  intros Hm Hs Hv Ht. unfold append_envelope, append_event. simpl.
  pose proof (encrypted_append_step e (MissionActor_ledger a)
    (events_storable _ _ Hs Hv Ht)) as Hd.
  destruct (encrypted_append e (MissionActor_ledger a)) as [l [[]|err]]; simpl in *;
    (split; [done|]; simpl; by rewrite <-Hm).
Qed.
Lemma actor_append_step ids kind payload : always actor_step (actor_append ids kind payload).
Proof.
  intros a. unfold actor_append.
  pose proof (append_envelope_step (EventEnvelope_new (ids (MissionActor_ids_drawn a))
    (MissionActor_mission_id a) (MissionActor_route_id a)
    (wrapping_add64 (MissionActor_sequence a) 1) kind payload) (draw_id a)) as Hs.
  destruct Hs as [Hm Hd]; [done|simpl; apply wrapping_add64_range|done|done|].
  by split.
Qed.
Lemma zoom_pause_step {A} (m : stm PauseController PauseError A) :
  always actor_step (zoom_pause m).
Proof.
  apply (always_zoom (λ _ _, True)); [done|]. intros a t _. by split.
Qed.
Lemma modify_approval_step id r : always (E := ActorError) actor_step (stm_modify (insert_approval id r)).
Proof. apply always_modify. intros a. by split. Qed.
#[local] Hint Resolve actor_append_step zoom_pause_step modify_approval_step : always.

Lemma record_event_step ids kind payload : always actor_step (record_event ids kind payload).
Proof. apply actor_append_step. Qed.
Lemma request_safe_pause_step ids reason : always actor_step (actor_request_safe_pause ids reason).
Proof. unfold actor_request_safe_pause. always_auto. Qed.
Lemma record_force_token_step ids t : always actor_step (record_force_token_transition ids t).
Proof. unfold record_force_token_transition. always_auto. Qed.
#[local] Hint Resolve record_event_step request_safe_pause_step record_force_token_step : always.
Lemma request_force_termination_step ids : always actor_step (request_force_termination ids).
Proof. unfold request_force_termination. always_auto. Qed.
Lemma resolve_approval_step ids who command : always actor_step (resolve_approval ids who command).
Proof. unfold resolve_approval. always_auto. Qed.
Lemma resolve_recovery_step ids d manifest : always actor_step (resolve_recovery ids d manifest).
Proof. unfold resolve_recovery. always_auto. Qed.
Lemma append_signals_step ids signals : ∀ pause, always actor_step (append_signals ids signals pause).
Proof. induction signals as [|signal signals IH]; intros pause; simpl; always_auto. Qed.
#[local] Hint Resolve append_signals_step : always.
Lemma apply_budget_signals_step ids signals : always actor_step (apply_budget_signals ids signals).
Proof. unfold apply_budget_signals. always_auto. Qed.
Lemma revoke_all_step ids l : always actor_step (revoke_all ids l).
Proof. induction l as [|x l IH]; simpl; always_auto. Qed.
#[local] Hint Resolve revoke_all_step : always.
Lemma check_loadout_change_step ids p n : always actor_step (check_loadout_change ids p n).
Proof. unfold check_loadout_change. always_auto. Qed.
Lemma set_ui_connected_step ids b : always actor_step (set_ui_connected ids b).
Proof.
  unfold set_ui_connected. apply always_bind; [|intros ?; always_auto].
  apply always_modify. intros a. by split.
Qed.
Lemma force_terminate_step ids os token : always actor_step (actor_force_terminate ids os token).
Proof.
  intros a. unfold actor_force_terminate. destruct (negb _); [reflexivity|].
  destruct (process_terminate _ _) as [tree [r|message]].
  - assert (∀ a, actor_step a ((transition ← zoom_pause (pause_force_terminate token);
      actor_append ids (UnknownKind "force_terminated")
        (json_object [("state", Value_String (debug_fmt (PauseTransition_to transition)))])) a).1) as Hs.
    { change (always actor_step (transition ← zoom_pause (pause_force_terminate token);
      actor_append ids (UnknownKind "force_terminated")
        (json_object [("state", Value_String (debug_fmt (PauseTransition_to transition)))]))).
      always_auto. }
    etrans; [|apply Hs]. by split.
  - set (payload := json_object _).
    pose proof (actor_append_step ids (UnknownKind "termination_failed") payload
      (set_process_tree tree a)) as Hs.
    destruct (actor_append _ _ _ _) as [a' r]. etrans; [|exact Hs]. by split.
Qed.
Lemma record_agent_event_step event : always actor_step (record_agent_event event).
Proof.
  intros a. unfold record_agent_event. unfold mbind at 1, stm_bind at 1, stm_get. simpl.
  set (approval := if bool_decide _ then _ else _).
  set (envelope := with_source _ _ _).
  assert (actor_step a (append_envelope envelope a).1) as Hs.
  { apply append_envelope_step; unfold envelope; destruct approval; simpl; try done;
      apply wrapping_add64_range. }
  unfold mbind, stm_bind. destruct (append_envelope envelope a) as [a' [[]|e]]; [|done].
  etrans; [exact Hs|]. destruct approval; [|reflexivity]. by split.
Qed.
End actors.

Section service.
Context `{SerdeJson, Sha256, UuidText, RegexCrate, !JsonParse, HashSetOrder, Aead}.
Context `{!Serde ApprovalRequest, !Serde ActionClass}.
Context `{!DebugFmt PauseState, !DebugFmt BudgetDimension, !DebugFmt ActionClass}.
Context `{!DebugFmt ActorError, !HashOrder ApprovalRequest}.
Context `{!DisplayFmt LedgerError, !DisplayFmt LifecycleError, !DisplayFmt BlobStoreError}.
Context `{!DisplayFmt RecoveryError, !SerdeText (RecoveryManifest * BlobRef)}.
Context `{!Serde EventEnvelope, !Serde ArchivePlan, !Serde DeleteImpactPlan}.
Context `{!Serde RecoveryPackage, !Serde RecoveryManifest}.
Context `{!Serde MissionCommandRequest, !Serde MissionCommandResult, !ServiceEnv}.
Context (nonces : nat → option (list u8)) (foreign_keys : bool).
Context `{!UuidTextLaws, !JsonParseLaws}.
Abbreviation actor := (MissionActor EncryptedLedger).

(** ** The invariant *)

(** What a call to an agent must satisfy: only installed adapters are used,
    and an agent is started read-only, without an environment of its own, in
    the project, under a loadout fingerprint that says something and, when a
    loadout is given, that loadout's provider. *)
Definition guarded (c : AdapterCall) : Prop :=
  match c with
  | CallProbe p | CallPause p _ | CallTerminate p _ | CallRespond p _ _ _ => has_adapter p = true
  | CallStart r =>
      has_adapter (StartAgentRequest_provider r) = true ∧
      StartAgentRequest_read_only r = true ∧ StartAgentRequest_approved_environment r = [] ∧
      StartAgentRequest_route_workspace r = StartAgentRequest_project_root r ∧
      invalid_fingerprint (StartAgentRequest_loadout_fingerprint r) = false ∧
      ∀ l, StartAgentRequest_loadout r = Some l →
        LoadoutSnapshot_provider l = StartAgentRequest_provider r
  end.

Record service_inv (s : MissionService) : Prop := {
  inv_calls : Forall guarded (MissionService_calls s);
  inv_consumers : Forall (λ c, has_adapter (Consumer_provider c) = true) (MissionService_consumers s);
  inv_keys k a : MissionService_missions s !! k = Some a →
    uuid_to_string (MissionActor_mission_id a) = k;
  inv_budgets k : is_Some (MissionService_missions s !! k) → is_Some (MissionService_budgets s !! k);
  inv_runs k : is_Some (MissionService_runs s !! k) ↔ is_Some (MissionService_run_providers s !! k);
  inv_run_task k run : MissionService_runs s !! k = Some run →
    ∃ c, c ∈ MissionService_consumers s ∧ Consumer_run_id c = run ∧
      uuid_to_string (Consumer_mission_id c) = k;
  inv_database : stored_inv (MissionService_database s);
}.

(** A step on behalf of mission [m]: what it leaves of the others. *)
Definition same_others (m : MissionId) (s s' : MissionService) : Prop :=
  (∀ m', m' ≠ m →
    by_mission (uuid_to_string m') (EncryptedLedger_events (MissionService_database s')) =
    by_mission (uuid_to_string m') (EncryptedLedger_events (MissionService_database s))) ∧
  ∀ k, k ≠ uuid_to_string m →
    MissionService_missions s' !! k = MissionService_missions s !! k ∧
    MissionService_budgets s' !! k = MissionService_budgets s !! k ∧
    MissionService_runs s' !! k = MissionService_runs s !! k ∧
    MissionService_run_providers s' !! k = MissionService_run_providers s !! k.
Definition step (m : MissionId) (s s' : MissionService) : Prop :=
  service_inv s → service_inv s' ∧ same_others m s s'.
Lemma same_others_trans m s1 s2 s3 :
  same_others m s1 s2 → same_others m s2 s3 → same_others m s1 s3.
Proof.
  intros [D12 T12] [D23 T23]. split.
  - intros m' Hm. by rewrite D23, D12.
  - intros k Hk. destruct (T12 k Hk) as (?&?&?&?). destruct (T23 k Hk) as (?&?&?&?).
    split_and!; congruence.
Qed.
#[export] Instance step_preorder m : PreOrder (step m).
Proof.
  split; [by intros s Hs|]. intros s1 s2 s3 H12 H23 H1'.
  destruct (H12 H1') as [H2' E12]. destruct (H23 H2') as [H3' E23].
  split; [done|by eapply same_others_trans].
Qed.

Ltac same_fields := intros Hinv; split; [by destruct Hinv; split|done].

Lemma tick_step m : always (step m) tick.
Proof. intros s. same_fields. Qed.
Lemma fresh_step m : always (step m) fresh_uuid.
Proof. intros s. same_fields. Qed.
Lemma call_step m c : guarded c → always (step m) (call c).
Proof.
  intros Hc s Hinv. split; [|done]. destruct Hinv. split; simpl; try done.
  apply Forall_app. split; [done|by constructor].
Qed.
Lemma pending_step m (f : MissionService → gmap string PendingServerRequest) :
  always (E := string) (step m) (stm_modify (λ s, set_pending (f s) s)).
Proof. apply always_modify. intros s. same_fields. Qed.
#[local] Hint Resolve tick_step fresh_step pending_step : always.
Lemma open_ledger_step m : always (step m) open_ledger.
Proof. unfold open_ledger. always_auto. Qed.
Lemma open_recovery_step m : always (step m) open_recovery_store.
Proof. unfold open_recovery_store. always_auto. Qed.
#[local] Hint Resolve open_ledger_step open_recovery_step : always.
Lemma displayed_step m {E A} `{!DisplayFmt E} prefix (r : result E A) :
  always (step m) (displayed prefix r).
Proof. unfold displayed. always_auto. Qed.
Lemma get_actor_step m key : always (step m) (get_actor key).
Proof. intros s. simpl. reflexivity. Qed.
Lemma current_result_step m mission_id : always (step m) (current_result mission_id).
Proof. intros s. simpl. reflexivity. Qed.
Lemma with_store_step m {E A} (wrap : E → string) (op : stm EncryptedBlobStore E A) :
  always (step m) (with_store wrap op).
Proof.
  intros s. unfold with_store. destruct (op _) as [store r]. simpl. intros Hinv. split; [|done].
  destruct Hinv. split; simpl; try done. by destruct inv_database0; split.
Qed.
#[local] Hint Resolve displayed_step get_actor_step current_result_step with_store_step : always.

Lemma run_actor_step m {A} key a (op : (nat → EventId) → stm actor ActorError A) s :
  (∀ ids, always actor_step (op ids)) → key = uuid_to_string m →
  MissionService_missions s !! key = Some a → step m s (run_actor key a op s).1.
Proof.
  intros Hop -> Ha Hinv. unfold run_actor. set (ids := λ n, _).
  pose proof (inv_keys _ Hinv _ _ Ha) as Hk. apply (inj uuid_to_string) in Hk.
  destruct (Hop ids (attach (MissionService_database s) a)) as [Hid Hdb].
  destruct (op ids _) as [a' r]. simpl in *. rewrite Hk in Hdb, Hid. split.
  - destruct Hinv. split; simpl; try done.
    + intros k a2. rewrite lookup_insert_Some. intros [[<- <-]|[_ ?]]; [by rewrite Hid|auto].
    + intros k. rewrite lookup_insert_is_Some. intros [<-|[_ Hk']]; apply inv_budgets0; eauto.
    + by apply (db_step_inv _ _ _ Hdb).
  - split; [intros m' Hm; by apply (db_step_other _ _ _ Hdb)|].
    intros k Hne. simpl. by rewrite lookup_insert_ne.
Qed.
Lemma with_actor_step m {A} wrap (op : (nat → EventId) → stm actor ActorError A) :
  (∀ ids, always actor_step (op ids)) → always (step m) (with_actor (uuid_to_string m) wrap op).
Proof.
  intros Hop s. unfold with_actor.
  destruct (MissionService_missions s !! uuid_to_string m) as [a|] eqn:Ha; [|reflexivity].
  pose proof (run_actor_step m _ a op s Hop eq_refl Ha) as Hs.
  by destruct (run_actor _ _ _ s).
Qed.
Lemma try_actor_step m {A} (op : (nat → EventId) → stm actor ActorError A) :
  (∀ ids, always actor_step (op ids)) → always (step m) (try_actor (uuid_to_string m) op).
Proof.
  intros Hop s. unfold try_actor.
  destruct (MissionService_missions s !! uuid_to_string m) as [a|] eqn:Ha; [|reflexivity].
  pose proof (run_actor_step m _ a op s Hop eq_refl Ha) as Hs.
  by destruct (run_actor _ _ _ s).
Qed.

#[local] Hint Resolve record_event_step request_safe_pause_step request_force_termination_step
  resolve_approval_step resolve_recovery_step apply_budget_signals_step check_loadout_change_step
  set_ui_connected_step force_terminate_step record_agent_event_step : always.
#[local] Hint Extern 1 (always _ (with_actor _ _ _)) =>
  apply with_actor_step; intros ?; solve [eauto with always] : always.
#[local] Hint Extern 1 (always _ (try_actor _ _)) =>
  apply try_actor_step; intros ?; solve [eauto with always] : always.

Lemma adapter_Ok p q : adapter p = Ok q → has_adapter q = true.
Proof. unfold adapter. destruct (has_adapter p) eqn:Hp; [|done]. by intros [= <-]. Qed.
Lemma call_pause_step m p run : has_adapter p = true → always (step m) (call_pause p run).
Proof. intros Hp. unfold call_pause. apply always_bind; [by apply call_step|]. always_auto. Qed.
Lemma pause_active_run_step m prefix run : always (step m) (pause_active_run prefix m run).
Proof.
  unfold pause_active_run. destruct run as [run|]; [|always_auto].
  apply always_bind; [always_auto|]. intros self. apply always_bind_lift. intros p Hp%adapter_Ok.
  apply always_bind; [by apply call_pause_step|]. always_auto.
Qed.
#[local] Hint Resolve pause_active_run_step : always.

(** The mission a request names. *)
Ltac named Hm := rewrite Hm; apply always_bind_lift; intros ? [= <-].

Lemma storage_preview_step m request : always (step m) (svc_storage_preview request).
Proof. unfold svc_storage_preview. always_auto. Qed.
Lemma export_preview_step m request : always (step m) (svc_export_preview request).
Proof. unfold svc_export_preview. always_auto. Qed.
Lemma diagnostic_preview_step m request : always (step m) (svc_diagnostic_preview request).
Proof. unfold svc_diagnostic_preview. always_auto. Qed.
Lemma materialize_export_step m request : always (step m) (svc_materialize_export request).
Proof. unfold svc_materialize_export. always_auto. Qed.
Lemma subscribe_step m request : always (step m) (subscribe_mission request).
Proof. unfold subscribe_mission. always_auto. Qed.

Section named.
Context (m : MissionId) (request : MissionCommandRequest) (Hm : request_mission_id request = Ok m).
Lemma update_contract_step : always (step m) (update_mission_contract request).
Proof. unfold update_mission_contract. named Hm. always_auto. Qed.
Lemma svc_safe_pause_step : always (step m) (svc_request_safe_pause request).
Proof. unfold svc_request_safe_pause. named Hm. always_auto. Qed.
Lemma svc_force_request_step : always (step m) (svc_request_force_termination request).
Proof. unfold svc_request_force_termination. named Hm. always_auto. Qed.
Lemma svc_force_terminate_step : always (step m) (svc_force_terminate request).
Proof.
  unfold svc_force_terminate. named Hm. apply always_bind_lift. intros token _.
  apply always_bind; [always_auto|]. intros self. cbv zeta.
  apply always_bind; [always_auto|]. intros a. destruct (negb _); [always_auto|].
  apply always_bind; [|always_auto]. destruct (active_run_id m self); [|always_auto].
  apply always_bind; [always_auto|]. intros self'. apply always_bind_lift. intros p Hp%adapter_Ok.
  apply always_bind; [by apply call_step|]. always_auto.
Qed.
Lemma svc_resolve_approval_step : always (step m) (svc_resolve_approval request).
Proof.
  unfold svc_resolve_approval. named Hm. do 7 (apply always_bind_lift; intros ? _).
  apply always_bind; [always_auto|]. intros i. cbv zeta.
  apply always_bind; [always_auto|]. intros _.
  apply always_bind; [always_auto|]. intros res.
  apply always_bind; [always_auto|]. intros self.
  apply always_bind; [always_auto|]. intros _.
  apply always_bind; [|always_auto].
  destruct (MissionService_pending self !! _) as [pending|]; [|always_auto].
  apply always_bind_lift. intros p Hp%adapter_Ok.
  apply always_bind; [by apply call_step|]. always_auto.
Qed.
Lemma svc_build_recovery_step : always (step m) (svc_build_recovery_package nonces request).
Proof. unfold svc_build_recovery_package. named Hm. always_auto. Qed.
Lemma verify_request_step : always (step m) (verify_recovery_request nonces request).
Proof. unfold verify_recovery_request. named Hm. always_auto. Qed.
Lemma review_memory_step : always (step m) (review_memory request).
Proof. unfold review_memory. named Hm. always_auto. Qed.
#[local] Hint Resolve verify_request_step : always.
Lemma svc_verify_recovery_step : always (step m) (svc_verify_recovery nonces request).
Proof. unfold svc_verify_recovery. always_auto. Qed.
End named.

(** *** Archiving and deleting *)
Lemma insert_audit_events r l l' : insert_audit r l = Ok l' →
  EncryptedLedger_events l' = EncryptedLedger_events l.
Proof. unfold insert_audit. destruct (_ || _); [done|]. by intros [= <-]. Qed.
Lemma archive_db_step m id now plan l : db_step m l (archive id now plan l).1.
Proof.
  split; [apply archive_inv|]. intros m' _. f_equal. unfold archive.
  destruct (archive_plan _ _ l); simpl; [|done]. destruct (_ || _); [done|].
  destruct (already_applied _ _ l); [done|]. destruct (is_archived _ l); [done|]. simpl.
  destruct (insert_audit _ _) as [l'|] eqn:Hi; [|done]. by apply insert_audit_events in Hi.
Qed.
Lemma delete_db_step m id now plan l :
  DeleteImpactPlan_mission_id plan = m → db_step m l (delete_mission id now plan l).1.
Proof.
  intros Hm. split; [apply delete_inv_stored|]. intros m' Hne. unfold delete_mission.
  destruct (already_applied _ _ l); [done|]. destruct (delete_impact _ _ l); simpl; [|done].
  destruct (_ || _); [done|]. destruct (insert_audit _ _) as [l'|] eqn:Hi; [|done].
  apply insert_audit_events in Hi. simpl. rewrite Hi. simpl. rewrite by_mission_erase, decide_False; [done|].
  rewrite Hm. intros He. by apply (inj uuid_to_string) in He.
Qed.
Lemma set_database_step m l s :
  db_step m (MissionService_database s) l → step m s (set_database l s).
Proof.
  intros [Hi Ho] Hinv. split; [|done]. destruct Hinv. split; simpl; try done. by apply Hi.
Qed.
Lemma with_ledger_step m {A} prefix (op : stm EncryptedLedger LifecycleError A) :
  (∀ l, db_step m l (op l).1) → always (step m) (with_ledger prefix op).
Proof.
  intros Hop s. unfold with_ledger. specialize (Hop (MissionService_database s)).
  destruct (op _) as [l r]. by apply set_database_step.
Qed.
Lemma cleanup_blobs_step m blobs : always (step m) (cleanup_blobs foreign_keys blobs).
Proof. induction blobs as [|b blobs IH]; simpl; always_auto. Qed.
Lemma forget_mission_step m : always (step m) (forget_mission m).
Proof.
  apply always_modify. intros s Hinv. split.
  2:{ split; [done|]. intros k Hk. simpl. by rewrite !lookup_delete_ne. }
  destruct Hinv. split; simpl; try done.
  - intros k a [_ Ha]%lookup_delete_Some. auto.
  - intros k. rewrite !lookup_delete_is_Some. intros [? ?]. auto.
Qed.
#[local] Hint Resolve cleanup_blobs_step forget_mission_step : always.

Section named_storage.
Context (m : MissionId) (request : MissionCommandRequest) (Hm : request_mission_id request = Ok m).
Lemma svc_archive_step : always (step m) (svc_archive_mission request).
Proof.
  unfold svc_archive_mission. named Hm. apply always_bind; [always_auto|]. intros l.
  apply always_bind; [always_auto|]. intros i. apply always_bind; [always_auto|].
  intros [preview|plan]; [always_auto|]. destruct (negb _); [always_auto|].
  destruct (hash_differs _ _); [always_auto|]. apply always_bind; [always_auto|]. intros id.
  apply always_bind; [|always_auto]. apply with_ledger_step, archive_db_step.
Qed.
Lemma svc_delete_step : always (step m) (svc_delete_mission foreign_keys request).
Proof.
  unfold svc_delete_mission. named Hm. cbv zeta. apply always_bind; [always_auto|]. intros l.
  apply always_bind; [always_auto|]. intros i. apply always_bind; [always_auto|].
  intros [preview|plan]; [always_auto|]. apply always_bind; [always_auto|]. intros self.
  destruct (_ && _); [always_auto|]. destruct (negb _) eqn:Hmis; [always_auto|]. guards.
  destruct (hash_differs _ _); [always_auto|]. apply always_bind; [always_auto|]. intros id.
  apply always_bind; [|always_auto]. apply with_ledger_step. intros l'. by apply delete_db_step.
Qed.
End named_storage.

(** *** Creating *)
Lemma append_batch_step m events l :
  Forall (storable (EncryptedLedger_redactor l)) events →
  Forall (λ e, EventEnvelope_mission_id e = m) events → db_step m l (append_batch events l).1.
Proof.
  intros Hst Hm. destruct (append_batch events l) as [l' [[]|err]] eqn:Hb; simpl.
  2:{ apply append_batch_Err in Hb as ->. reflexivity. }
  apply append_batch_each in Hb. revert l Hst Hb.
  induction Hm as [|e events He Hm IH]; intros l Hst Hb; simpl in Hb.
  { injection Hb as <-. reflexivity. }
  apply Forall_cons in Hst as [Hste Hst].
  pose proof (encrypted_append_step e l Hste) as Hs.
  destruct (encrypted_append e l) as [l1 [[]|err]] eqn:Ha; [|done]. rewrite He in Hs. simpl in Hs.
  etrans; [exact Hs|]. apply IH; [|done].
  apply encrypted_append_Ok in Ha as (p&rows&_&_&->). done.
Qed.
Lemma creation_storable red e1 e2 e3 m r request limits :
  Forall (storable red) (creation_events e1 e2 e3 m r request limits).
Proof. repeat constructor; by apply events_storable. Qed.

(** A mission that is created: its actor and its budget. *)
Lemma insert_mission_step m a t s :
  MissionActor_mission_id a = m →
  step m s (set_budgets (<[uuid_to_string m := t]> (MissionService_budgets s))
    (set_missions (<[uuid_to_string m := a]> (MissionService_missions s)) s)).
Proof.
  intros Ha Hinv. split.
  2:{ split; [done|]. intros k Hk. simpl. by rewrite !lookup_insert_ne. }
  destruct Hinv. split; simpl; try done.
  - intros k a2. rewrite lookup_insert_Some. intros [[<- <-]|[_ ?]]; [by rewrite Ha|auto].
  - intros k. rewrite !lookup_insert_is_Some'. intros [?|?]; [by left|right; auto].
Qed.
Lemma try_new_id m r (l : EncryptedLedger) a : MissionActor_try_new m r l = Ok a → MissionActor_mission_id a = m.
Proof.
  unfold MissionActor_try_new. intros Ha. apply result_bind_Ok in Ha as (ap&_&Ha). by injection Ha as <-.
Qed.

Lemma create_as_step m r request : always (step m) (create_as m r request).
Proof.
  unfold create_as. cbv zeta. apply always_bind; [always_auto|]. intros self.
  destruct (bool_decide _); [always_auto|]. apply always_bind; [always_auto|]. intros l.
  apply always_bind; [always_auto|]. intros known. destruct (bool_decide _); [always_auto|].
  do 3 (apply always_bind; [always_auto|]; intros ?). apply always_bind.
  { intros s. pose proof (append_batch_step m (creation_events a a0 a1 m r request
      (MissionBudgetRequest_limits (default no_budget (Request_budget request))))
      (MissionService_database s) (creation_storable _ _ _ _ _ _ _ _)) as Hs.
    specialize (Hs ltac:(by repeat constructor)).
    destruct (append_batch _ _) as [db res]. by apply set_database_step. }
  intros _. apply always_bind; [always_auto|]. intros self'. apply always_bind_lift.
  intros ac Hac. apply always_bind; [|always_auto]. apply always_modify. intros s.
  apply insert_mission_step. destruct (MissionActor_try_new _ _ _) eqn:Ht in Hac; [|done].
  injection Hac as <-. by apply try_new_id in Ht.
Qed.
Lemma create_mission_step m request :
  request_mission_id request = Ok m → always (step m) (create_mission request).
Proof.
  unfold request_mission_id. intros Hm. apply result_bind_Ok in Hm as (o&Ho&Hm).
  destruct o as [m'|]; [|done]. injection Hm as ->. unfold create_mission. rewrite Ho.
  apply always_bind_lift. intros ? [= <-]. intros s. unfold mbind at 1, stm_bind at 1. simpl.
  revert s. fold (always (step m) (r ← stm_lift (parse_id "ROUTE_ID_INVALID" (Request_route_id request));
    route_id ← (match r with Some r => mret r | None => fresh_uuid end);
    create_as m route_id request)).
  apply always_bind_lift. intros r _. apply always_bind; [always_auto|]. intros rid.
  apply create_as_step.
Qed.

(** *** Starting an agent *)
Lemma required_Ok code o v : required code o = Ok v → blank v = false.
Proof.
  unfold required. destruct o as [x|]; [|done]. destruct (blank x) eqn:Hb; simpl; [done|].
  by intros [= <-].
Qed.
Lemma request_fingerprint_Ok request fp :
  request_fingerprint request = Ok fp → blank fp = false.
Proof. apply required_Ok. Qed.
Lemma spawn_step m p run : has_adapter p = true → always (step m) (spawn m p run).
Proof.
  intros Hp. apply always_modify. intros s Hinv. split.
  2:{ split; [done|]. intros k Hk. simpl. by rewrite !lookup_insert_ne. }
  destruct Hinv. split; simpl; try done.
  - apply Forall_app. split; [done|]. by repeat constructor.
  - intros k. rewrite !lookup_insert_is_Some'. naive_solver.
  - intros k r. rewrite lookup_insert_Some. intros [[<- <-]|[_ Hr]].
    + eexists. split; [apply elem_of_app; right; apply list_elem_of_singleton; done|done].
    + destruct (inv_run_task0 _ _ Hr) as (c&Hc&?&?). exists c. split; [|done].
      apply elem_of_app. by left.
Qed.
(** Only a valid fingerprint is frozen, and only then does a launch go on. *)
Lemma freeze_step m fp {A} (k : unit → stm MissionService string A) :
  (invalid_fingerprint fp = false → always (step m) (k tt)) →
  always (step m) (stm_zoom MissionService_loadouts set_loadouts id
    (LoadoutMonitor_freeze_fingerprint m fp) ≫= k).
Proof.
  intros Hk s. unfold mbind, stm_bind, stm_zoom, LoadoutMonitor_freeze_fingerprint.
  destruct (invalid_fingerprint fp) eqn:Hinvalid; [same_fields|].
  simpl. etrans; [|by apply Hk]. same_fields.
Qed.
Lemma launch_agent_step m route request : always (step m) (launch_agent m route request).
Proof.
  unfold launch_agent. cbv zeta. apply always_bind_lift. intros root _.
  apply always_bind; [always_auto|]. intros self.
  destruct (match Request_loadout request with Some _ => _ | None => _ end) eqn:Hl; [always_auto|].
  apply always_bind_lift. intros p Hp. pose proof (adapter_Ok _ _ Hp) as Hp'.
  assert (default ProviderId_default (Request_provider request) = p) as Hpe.
  { unfold adapter in Hp. destruct (has_adapter _) in Hp; [|done]. by injection Hp. }
  rewrite Hpe in *.
  destruct (match find_actor _ self with Some _ => _ | None => _ end); [always_auto|].
  apply always_bind; [by apply call_step|]. intros i. apply always_bind_lift. intros cap _.
  destruct (negb _); [always_auto|]. destruct (_ && _); [always_auto|].
  apply always_bind_lift. intros fp Hfp%request_fingerprint_Ok.
  apply freeze_step. intros Hinvalid.
  apply always_bind; [always_auto|]. intros self'. apply always_bind.
  { apply call_step. split_and!; try done. intros l Hlo. simpl in Hlo |- *. rewrite Hlo in Hl. by guards. }
  intros j. apply always_bind_lift. intros run _. apply always_bind; [by apply spawn_step|].
  always_auto.
Qed.
#[local] Hint Resolve launch_agent_step : always.

Section named_launch.
Context (m : MissionId) (request : MissionCommandRequest) (Hm : request_mission_id request = Ok m).
Lemma launch_route_step : always (step m) (launch_route request).
Proof.
  unfold launch_route. named Hm. apply always_bind_lift. intros route _. cbv zeta.
  apply always_bind; [always_auto|]. intros _. apply always_bind; [always_auto|]. intros self.
  destruct (bool_decide _); [always_auto|]. apply always_bind; [|always_auto].
  intros s. pose proof (launch_agent_step m route request s) as Hl.
  destruct (launch_agent m route request s) as [s1 [launched|e]]; [done|].
  etrans; [exact Hl|]. set (op := λ ids, record_event ids _ _).
  assert (step m s1 (try_actor (uuid_to_string m) op s1).1) as Ht
    by (apply try_actor_step; intros ?; apply record_event_step).
  simpl. by destruct (try_actor _ op s1).
Qed.
Lemma verified_mission : returns (λ x, x.1.1 = m) (verify_recovery_request nonces request).
Proof.
  unfold verify_recovery_request. rewrite Hm. apply returns_bind_lift. intros ? [= <-].
  do 4 (apply returns_bind; intros ?). destruct (negb _); [apply returns_throw|].
  do 2 (apply returns_bind; intros ?). cbv zeta. do 2 (destruct (negb _); [apply returns_throw|]).
  do 5 (apply returns_bind; intros ?). by apply returns_ret.
Qed.
Lemma svc_resolve_recovery_step : always (step m) (svc_resolve_recovery nonces request).
Proof.
  unfold svc_resolve_recovery.
  eapply always_bind_returns; [by apply verify_request_step|apply verified_mission|].
  intros [[mid route] package] Hmid. simpl in Hmid. subst mid. cbv zeta. always_auto.
Qed.
Lemma handoff_step : always (step m) (handoff_provider request).
Proof.
  unfold handoff_provider. named Hm. do 3 (apply always_bind_lift; intros ? _). cbv zeta.
  apply always_bind; [always_auto|]. intros ac.
  destruct (match head _ with Some _ => _ | None => _ end); [always_auto|].
  apply always_bind_lift. intros root _. apply always_bind; [always_auto|]. intros self.
  destruct (bool_decide _); [always_auto|]. destruct (bool_decide _); [|always_auto].
  intros s. apply (svc_safe_pause_step m). unfold request_mission_id. simpl.
  by rewrite uuid_parse_to_string.
Qed.
End named_launch.

Lemma check_loadout_step m fp : always (step m) (check_loadout_before_model_request m fp).
Proof. unfold check_loadout_before_model_request. always_auto. Qed.

(** *** Probing *)
Lemma probe_all_step m providers : always (step m) (probe_all providers).
Proof.
  induction providers as [|p providers IH]; simpl; [always_auto|].
  apply always_bind; [|always_auto]. destruct (has_adapter p) eqn:Hp; [|always_auto].
  apply always_bind; [by apply call_step|]. always_auto.
Qed.
Lemma provider_capabilities_step m cc : always (step m) (provider_capabilities cc).
Proof. unfold provider_capabilities. apply always_bind; [apply probe_all_step|]. always_auto. Qed.

(** *** The tasks that consume the events of an agent *)

(** Steps that start and end no run. *)
Definition same_tasks (s s' : MissionService) : Prop :=
  MissionService_consumers s' = MissionService_consumers s ∧
  MissionService_runs s' = MissionService_runs s ∧
  MissionService_run_providers s' = MissionService_run_providers s.
Definition task_step (m : MissionId) (s s' : MissionService) : Prop :=
  step m s s' ∧ same_tasks s s'.
#[export] Instance task_step_preorder m : PreOrder (task_step m).
Proof.
  split; [by split|]. intros s1 s2 s3 [H12 (C12&R12&P12)] [H23 (C23&R23&P23)].
  split; [by etrans|]. unfold same_tasks. by rewrite C23, R23, P23.
Qed.
Lemma try_actor_tasks m {A} (op : (nat → EventId) → stm actor ActorError A) :
  (∀ ids, always actor_step (op ids)) → always (task_step m) (try_actor (uuid_to_string m) op).
Proof.
  intros Hop s. split; [by apply try_actor_step|]. unfold try_actor.
  destruct (MissionService_missions s !! _) as [a|]; [|done].
  unfold run_actor. by destruct (op _ _).
Qed.
Lemma record_usage_tasks m record : always (task_step m) (record_usage (uuid_to_string m) record).
Proof.
  intros s. unfold record_usage. destruct (evaluate_safe_boundary _) as [t signals].
  split; [|done]. intros Hinv. split.
  2:{ split; [done|]. intros k Hk. simpl. by rewrite lookup_insert_ne. }
  destruct Hinv. split; simpl; try done.
  intros k Hk. apply lookup_insert_is_Some'. right. auto.
Qed.
Lemma call_pause_tasks m p run : has_adapter p = true → always (task_step m) (call_pause p run).
Proof. intros Hp s. split; [by apply call_pause_step|done]. Qed.
#[local] Hint Resolve record_usage_tasks : always.
#[local] Hint Extern 1 (always (task_step _) (try_actor _ _)) =>
  apply try_actor_tasks; intros ?; solve [eauto with always] : always.
Lemma budget_step_tasks m record : always (task_step m) (budget_step_of (uuid_to_string m) record).
Proof. unfold budget_step_of. always_auto. Qed.
Lemma note_server_request_tasks m c event : always (task_step m) (note_server_request c event).
Proof.
  unfold note_server_request. destruct (server_request event) as [[a r]|]; [|always_auto].
  apply always_modify. intros s. split; [same_fields|done].
Qed.
Lemma deliver_tasks m event pause : always (task_step m) (deliver (uuid_to_string m) event pause).
Proof. unfold deliver. always_auto. Qed.
#[local] Hint Resolve budget_step_tasks note_server_request_tasks deliver_tasks : always.
Lemma consume_event_tasks c event :
  has_adapter (Consumer_provider c) = true →
  always (task_step (Consumer_mission_id c)) (consume_event c event).
Proof.
  intros Hp. unfold consume_event. cbv zeta. destruct (usage_record_from_event _ _) as [n record].
  apply always_bind; [always_auto|]. intros pause. apply always_bind; [always_auto|]. intros _.
  apply always_bind; [always_auto|]. intros [remove ap]. apply always_bind; [|always_auto].
  destruct ap; [|always_auto]. apply always_bind; [by apply call_pause_tasks|]. always_auto.
Qed.

(** The end of a run: its entries go, and no other run loses its task. *)
Lemma elem_of_delete_ne {A} (l : list A) n x y : l !! n = Some x → y ∈ l → y ≠ x → y ∈ delete n l.
Proof.
  intros Hx Hy Hne. apply list_elem_of_lookup in Hy as [i Hi].
  destruct (decide (i = n)) as [->|Hin]; [congruence|].
  apply list_elem_of_lookup. destruct (decide (i < n)%nat).
  - exists i. by rewrite list_lookup_delete_lt.
  - exists (i - 1)%nat. rewrite list_lookup_delete_ge by lia. by replace (S (i - 1)) with i by lia.
Qed.
Lemma end_run_step c n s :
  MissionService_consumers s !! n = Some c →
  step (Consumer_mission_id c) s
    (set_consumers (delete n (MissionService_consumers (end_run c s))) (end_run c s)).
Proof.
  intros Hc Hinv. unfold end_run. set (key := uuid_to_string _).
  assert (Hcons : Forall (λ c, has_adapter (Consumer_provider c) = true)
    (delete n (MissionService_consumers s))).
  { apply Forall_delete, inv_consumers, Hinv. }
  assert (Htask : ∀ k run, MissionService_runs s !! k = Some run →
    (k, run) ≠ (key, Consumer_run_id c) →
    ∃ c', c' ∈ delete n (MissionService_consumers s) ∧ Consumer_run_id c' = run ∧
      uuid_to_string (Consumer_mission_id c') = k).
  { intros k run Hr Hne. destruct (inv_run_task _ Hinv _ _ Hr) as (c'&Hin&<-&<-).
    exists c'. split; [|done]. eapply elem_of_delete_ne; [done..|]. by intros ->. }
  destruct Hinv. case_bool_decide as Hrun; (split; [split; simpl; try done|]).
  - intros k. rewrite !lookup_delete_is_Some. split; intros [Hk Hs]; (split; [exact Hk|by apply inv_runs0]).
  - intros k run [Hk Hr]%lookup_delete_Some. apply Htask; [done|]. by intros [= -> _].
  - split; [done|]. intros k Hk. simpl. by rewrite !lookup_delete_ne.
  - intros k run Hr. apply Htask; [done|]. intros [= -> ->]. done.
  - done.
Qed.
Lemma finish_run_step c n elapsed s :
  MissionService_consumers s !! n = Some c →
  let s' := (finish_run c elapsed s).1 in
  step (Consumer_mission_id c) s (set_consumers (delete n (MissionService_consumers s')) s').
Proof.
  intros Hc. simpl. set (m := Consumer_mission_id c).
  set (before := (signals ← record_usage (uuid_to_string m) (Sample (UsageSample_wall_clock elapsed));
    (if is_empty signals then mret None
     else try_actor (uuid_to_string m) (λ ids, apply_budget_signals ids signals)))).
  assert (always (task_step m) before) as Hb by (unfold before; always_auto).
  assert ((finish_run c elapsed s).1 = end_run c (before s).1) as ->.
  { unfold finish_run, before. unfold mbind, stm_bind, record_usage. fold m.
    destruct (evaluate_safe_boundary _) as [t sg]. destruct (is_empty sg); [done|].
    unfold try_actor. destruct (MissionService_missions _ !! _); [|done].
    by destruct (run_actor _ _ _ _). }
  destruct (Hb s) as [Hs (Hcs&_&_)]. etrans; [exact Hs|]. apply end_run_step. by rewrite Hcs.
Qed.
Lemma consumer_event_step n c event elapsed s :
  MissionService_consumers s !! n = Some c →
  step (Consumer_mission_id c) s (consumer_event n event elapsed s).
Proof.
  intros Hc. unfold consumer_event. rewrite Hc.
  intros Hinv. assert (has_adapter (Consumer_provider c) = true) as Hp
    by (eapply Forall_lookup_1 in Hc; [exact Hc|apply inv_consumers, Hinv]).
  destruct (consume_event_tasks c event Hp s) as [Hs (Hcs&Hrs&_)].
  destruct (Hs Hinv) as [Hinv' Hot]. clear Hs.
  destruct (consume_event c event s) as [s1 r]. simpl in *. rewrite <-Hcs in Hc.
  destruct (finish_run_step c n elapsed s1 Hc Hinv') as [Hend Hot2].
  pose proof (same_others_trans _ _ _ _ Hot Hot2) as Hot3. clear Hot2.
  destruct r as [[tokens []]|e]; [done| |done]. split; [|done].
  destruct Hinv'. split; simpl; try done.
  - by apply Forall_insert.
  - intros k run (c'&Hin&He)%inv_run_task0. set (c2 := {| Consumer_previous_tokens := tokens |}).
    apply list_elem_of_lookup in Hin as [i Hi]. destruct (decide (i = n)) as [->|Hne].
    + exists c2. split; [|rewrite Hi in Hc; by injection Hc as <-].
      apply list_elem_of_lookup. exists n. apply list_lookup_insert_eq. by eapply lookup_lt_Some.
    + exists c'. split; [|done]. apply list_elem_of_lookup. exists i. by rewrite list_lookup_insert_ne.
Qed.
Lemma consumer_end_step n c elapsed s :
  MissionService_consumers s !! n = Some c →
  step (Consumer_mission_id c) s (consumer_end n elapsed s).
Proof. intros Hc. unfold consumer_end. rewrite Hc. by apply finish_run_step. Qed.

(** *** The user interface, the start of the service and its commands *)
Lemma step_keeps m {E A} (f : stm MissionService E A) :
  always (step m) f → always (keeps service_inv) f.
Proof. apply always_impl. intros s s' Hs Hinv. by destruct (Hs Hinv). Qed.
Lemma try_actor_keeps {A} key (op : (nat → EventId) → stm actor ActorError A) :
  (∀ ids, always actor_step (op ids)) → always (keeps service_inv) (try_actor key op).
Proof.
  intros Hop s Hinv. destruct (MissionService_missions s !! key) as [a|] eqn:Ha.
  - pose proof (inv_keys _ Hinv _ _ Ha) as <-.
    by apply (try_actor_step (MissionActor_mission_id a) op Hop s).
  - unfold try_actor. by rewrite Ha.
Qed.
Lemma set_ui_all_keeps b keys : ∀ affected, always (keeps service_inv) (set_ui_all b keys affected).
Proof.
  induction keys as [|key keys IH]; intros affected; simpl; [always_auto|].
  apply always_bind; [always_auto|]. intros self. cbv zeta.
  apply always_bind; [apply try_actor_keeps; intros ids; apply set_ui_connected_step|].
  intros _. apply IH.
Qed.
Lemma pause_runs_keeps keys : always (keeps service_inv) (pause_runs keys).
Proof.
  induction keys as [|key keys IH]; simpl; [always_auto|].
  apply always_bind; [always_auto|]. intros self. apply always_bind; [|intros _; exact IH].
  destruct (MissionService_runs self !! key) as [run|]; [|always_auto]. cbv zeta.
  destruct (has_adapter _) eqn:Hp; [|always_auto]. apply always_bind; [|always_auto].
  by apply (step_keeps 0%N), call_pause_step.
Qed.
#[local] Hint Resolve set_ui_all_keeps pause_runs_keeps : always.
Lemma touch_ui_keeps : always (keeps service_inv) touch_ui.
Proof. unfold touch_ui. always_auto. Qed.
Lemma watchdog_keeps e b : always (keeps service_inv) (watchdog e b).
Proof. unfold watchdog, pause_for_ui_disconnect. always_auto. Qed.
Lemma create_mission_keeps request : always (keeps service_inv) (create_mission request).
Proof.
  unfold create_mission. apply always_bind; [always_auto|]. intros m.
  apply always_bind; [destruct m; [always_auto|apply (step_keeps 0%N), fresh_step]|]. intros mid.
  apply (step_keeps mid). always_auto. apply create_as_step.
Qed.
Lemma insert_budget_keeps key t s :
  keeps service_inv s (set_budgets (<[key := t]> (MissionService_budgets s)) s).
Proof.
  intros Hinv. destruct Hinv. split; simpl; try done.
  intros k Hk. apply lookup_insert_is_Some'. right. auto.
Qed.
Lemma restore_missions_keeps ids : always (keeps service_inv) (restore_missions ids).
Proof.
  induction ids as [|m ids IH]; simpl; [always_auto|].
  apply always_bind; [apply (step_keeps m), open_ledger_step|]. intros l.
  apply always_bind; [apply (step_keeps m), displayed_step|]. intros events.
  apply always_bind; [always_auto|]. intros first.
  intros s. unfold mbind, stm_bind, stm_modify, stm_get. simpl.
  destruct (MissionService_missions s !! uuid_to_string m) as [a|]; simpl.
  { etrans; [apply insert_budget_keeps|apply IH]. }
  unfold stm_lift. destruct (MissionActor_try_new m _ l) as [a|e] eqn:Ha; simpl.
  2: apply insert_budget_keeps.
  apply try_new_id in Ha. etrans; [|apply IH]. intros Hinv.
  by destruct (insert_mission_step m a (budget_tracker_from_events events) s Ha Hinv).
Qed.
Lemma restore_existing_keeps : always (keeps service_inv) restore_existing.
Proof.
  unfold restore_existing. apply always_bind; [apply (step_keeps 0%N), open_ledger_step|]. intros l.
  apply always_bind; [apply (step_keeps 0%N), tick_step|]. intros i.
  do 2 (apply always_bind; [apply (step_keeps 0%N), displayed_step|]; intros ?).
  apply restore_missions_keeps.
Qed.

(** A command that names its mission is a step on behalf of that mission. *)
Create HintDb handlers discriminated.
#[local] Hint Resolve create_mission_step update_contract_step launch_route_step subscribe_step
  svc_safe_pause_step svc_force_request_step svc_force_terminate_step svc_resolve_approval_step
  svc_build_recovery_step svc_verify_recovery_step svc_resolve_recovery_step review_memory_step
  handoff_step provider_capabilities_step storage_preview_step export_preview_step
  diagnostic_preview_step svc_archive_step svc_delete_step materialize_export_step : handlers.
Lemma dispatch_step m cc command request :
  request_mission_id request = Ok m →
  always (step m) (dispatch nonces foreign_keys cc command request).
Proof.
  intros Hm. unfold dispatch. cbv zeta.
  repeat (destruct (str_eqb command _); [auto with handlers|]). apply always_throw.
Qed.
(** A command that names none changes nothing, unless it needs none. *)
Lemma dispatch_keeps cc command request :
  always (keeps service_inv) (dispatch nonces foreign_keys cc command request).
Proof.
  destruct (request_mission_id request) as [m|e] eqn:Hm; [by apply (step_keeps m), dispatch_step|].
  unfold dispatch. cbv zeta.
  repeat (destruct (str_eqb command _);
    [first
      [ apply create_mission_keeps
      | apply (step_keeps 0%N); first [apply provider_capabilities_step|apply storage_preview_step]
      | intros s; unfold update_mission_contract, launch_route, subscribe_mission,
          svc_request_safe_pause, svc_request_force_termination, svc_force_terminate,
          svc_resolve_approval, svc_build_recovery_package, svc_verify_recovery,
          svc_resolve_recovery, verify_recovery_request, review_memory, handoff_provider,
          svc_export_preview, svc_diagnostic_preview, svc_archive_mission, svc_delete_mission,
          svc_materialize_export; rewrite Hm; exact (λ Hinv, Hinv) ]|]).
  apply always_throw.
Qed.
Lemma dispatch_json_keeps cc command request :
  always (keeps service_inv) (dispatch_json nonces foreign_keys cc command request).
Proof.
  unfold dispatch_json. destruct (negb _); [apply always_throw|].
  do 2 (apply always_bind; [always_auto|]; intros ?).
  apply always_bind; [apply dispatch_keeps|]. always_auto.
Qed.
End service.
