(* ===== verification/ServiceSafety.v ===== *)
(** * What the mission service guarantees

    The service as a machine: its events are the commands of the user
    interface, the events of running agents, the watchdog and a restart of
    the process on the database it left.  The theorems hold of every state it
    reaches, whatever the world answers. *)

From S2P Require Import Prelude Always Extern Ids Event Ordering Approval Budget Envelope PolicyEngine.
From S2P Require Import Command AdapterCore LoadoutMonitor ProcessTree Pause MissionActor.
From S2P Require Import Frame BlobStore Redaction Ledger Lifecycle RecoveryPackage ServiceData Service ServiceProofs.
From Stdlib Require Import ZArith Lia.
From stdpp Require Import prelude gmap strings pretty.

Section safety.
Context `{SerdeJson, Sha256, UuidText, RegexCrate, !JsonParse, HashSetOrder, Aead}.
Context `{!Serde ApprovalRequest, !Serde ActionClass}.
Context `{!DebugFmt PauseState, !DebugFmt BudgetDimension, !DebugFmt ActionClass}.
Context `{!DebugFmt ActorError, !HashOrder ApprovalRequest}.
Context `{!DisplayFmt LedgerError, !DisplayFmt LifecycleError, !DisplayFmt BlobStoreError}.
Context `{!DisplayFmt RecoveryError, !SerdeText (RecoveryManifest * BlobRef)}.
Context `{!Serde EventEnvelope, !Serde ArchivePlan, !Serde DeleteImpactPlan}.
Context `{!Serde RecoveryPackage, !Serde RecoveryManifest}.
Context `{!Serde MissionCommandRequest, !Serde MissionCommandResult, !ServiceEnv}.
Context (nonces : nat → option (list u8)) (foreign_keys : bool).
Abbreviation actor := (MissionActor EncryptedLedger).

(** ** The machine *)
Inductive service_event :=
| SeCommand (cc_switch : Value) (command : string) (request : Value)
| SeAgent (task : nat) (event : AgentEvent) (elapsed : Duration)
| SeAgentEnd (task : nat) (elapsed : Duration)
| SeLoadout (mission_id : MissionId) (fingerprint : string)
| SeUi
| SeWatchdog (expired command_in_flight : bool)
| SeRestart.
(** [MissionService::new] on a database and blob files. *)
Definition MissionService_new (db : EncryptedLedger) (files : gmap string (list u8))
    (nonces_drawn ids clock : nat) : MissionService * result string unit :=
  restore_existing (MissionService_initial db files nonces_drawn ids clock).
Definition service_do (s : MissionService) (ev : service_event) : MissionService :=
  match ev with
  | SeCommand cc command request => (dispatch_json nonces foreign_keys cc command request s).1
  | SeAgent n event elapsed => consumer_event n event elapsed s
  | SeAgentEnd n elapsed => consumer_end n elapsed s
  | SeLoadout m fp => (check_loadout_before_model_request m fp s).1
  | SeUi => (touch_ui s).1
  | SeWatchdog expired in_flight => (watchdog expired in_flight s).1
  | SeRestart => (MissionService_new (MissionService_database s) (MissionService_files s)
      (MissionService_nonces_drawn s) (MissionService_ids_drawn s) (MissionService_clock s)).1
  end.
Definition service_run (s : MissionService) (evs : list service_event) : MissionService :=
  foldl service_do s evs.

(** ** Calls to agents *)

(** The calls a step adds to the record satisfy [P]. *)
Definition adds (P : AdapterCall → Prop) (s s' : MissionService) : Prop :=
  ∃ l, MissionService_calls s' = MissionService_calls s ++ l ∧ Forall P l.
#[export] Instance adds_preorder P : PreOrder (adds P).
Proof.
  split; [intros s; exists []; by rewrite app_nil_r|].
  intros s1 s2 s3 (l1&E1&F1) (l2&E2&F2). exists (l1 ++ l2).
  rewrite E2, E1, app_assoc. split; [done|]. by apply Forall_app.
Qed.
Lemma adds_none P s s' : MissionService_calls s' = MissionService_calls s → adds P s s'.
Proof. intros E. exists []. by rewrite app_nil_r. Qed.

Section adds.
Context (P : AdapterCall → Prop).
Lemma tick_adds : always (adds P) tick.
Proof. intros s. by apply adds_none. Qed.
Lemma fresh_adds : always (adds P) fresh_uuid.
Proof. intros s. by apply adds_none. Qed.
Lemma call_adds c : P c → always (adds P) (call c).
Proof. intros Hc s. exists [c]. split; [done|]. by repeat constructor. Qed.
Lemma modify_adds (f : MissionService → MissionService) :
  (∀ s, MissionService_calls (f s) = MissionService_calls s) →
  always (E := string) (adds P) (stm_modify f).
Proof. intros Hf s. apply adds_none, Hf. Qed.
Lemma with_store_adds {E A} (wrap : E → string) (op : stm EncryptedBlobStore E A) :
  always (adds P) (with_store wrap op).
Proof. intros s. unfold with_store. destruct (op _). by apply adds_none. Qed.
Lemma with_ledger_adds {A} prefix (op : stm EncryptedLedger LifecycleError A) :
  always (adds P) (with_ledger prefix op).
Proof. intros s. unfold with_ledger. destruct (op _). by apply adds_none. Qed.
Lemma with_actor_adds {A} key wrap (op : (nat → EventId) → stm actor ActorError A) :
  always (adds P) (with_actor key wrap op).
Proof.
  intros s. unfold with_actor, run_actor. destruct (_ !! _); [|by apply adds_none].
  destruct (op _ _). by apply adds_none.
Qed.
Lemma try_actor_adds {A} key (op : (nat → EventId) → stm actor ActorError A) :
  always (adds P) (try_actor key op).
Proof.
  intros s. unfold try_actor, run_actor. destruct (_ !! _); [|by apply adds_none].
  destruct (op _ _). by apply adds_none.
Qed.
Lemma get_actor_adds key : always (adds P) (get_actor key).
Proof. intros s. by apply adds_none. Qed.
Lemma current_result_adds m : always (adds P) (current_result m).
Proof. intros s. by apply adds_none. Qed.
Lemma displayed_adds {E A} `{!DisplayFmt E} prefix (r : result E A) :
  always (adds P) (displayed prefix r).
Proof. intros s. by apply adds_none. Qed.
Lemma freeze_adds m fp : always (adds P) (stm_zoom MissionService_loadouts set_loadouts id
    (LoadoutMonitor_freeze_fingerprint m fp)).
Proof. intros s. unfold stm_zoom. destruct (LoadoutMonitor_freeze_fingerprint _ _ _). by apply adds_none. Qed.
#[local] Hint Resolve tick_adds fresh_adds with_store_adds with_ledger_adds with_actor_adds
  try_actor_adds get_actor_adds current_result_adds displayed_adds freeze_adds : always.
#[local] Hint Extern 1 (always (adds _) (stm_modify _)) => apply modify_adds; done : always.
Lemma open_ledger_adds : always (adds P) open_ledger.
Proof. unfold open_ledger. always_auto. Qed.
Lemma open_recovery_adds : always (adds P) open_recovery_store.
Proof. unfold open_recovery_store. always_auto. Qed.
Lemma cleanup_blobs_adds blobs : always (adds P) (cleanup_blobs foreign_keys blobs).
Proof. induction blobs; simpl; always_auto. Qed.
Lemma forget_mission_adds m : always (adds P) (forget_mission m).
Proof. unfold forget_mission. always_auto. Qed.
Lemma spawn_adds m p run : always (adds P) (spawn m p run).
Proof. unfold spawn. always_auto. Qed.
#[local] Hint Resolve open_ledger_adds open_recovery_adds cleanup_blobs_adds forget_mission_adds
  spawn_adds : always.
Lemma call_pause_adds p run : P (CallPause p run) → always (adds P) (call_pause p run).
Proof. intros Hp. unfold call_pause. apply always_bind; [by apply call_adds|]. always_auto. Qed.
Lemma pause_active_adds prefix m run :
  (∀ p run, P (CallPause p run)) → always (adds P) (pause_active_run prefix m run).
Proof.
  intros Hp. unfold pause_active_run. always_auto. by apply call_pause_adds.
Qed.

(** Handlers that call no agent. *)
Lemma create_as_adds m r request : always (adds P) (create_as m r request).
Proof.
  unfold create_as. always_auto. intros s. destruct (append_batch _ _). by apply adds_none.
Qed.
Lemma create_mission_adds request : always (adds P) (create_mission request).
Proof. unfold create_mission. always_auto; apply create_as_adds. Qed.
Lemma storage_adds request : always (adds P) (svc_storage_preview request).
Proof. unfold svc_storage_preview. always_auto. Qed.
Lemma export_adds request : always (adds P) (svc_export_preview request).
Proof. unfold svc_export_preview. always_auto. Qed.
Lemma diagnostic_adds request : always (adds P) (svc_diagnostic_preview request).
Proof. unfold svc_diagnostic_preview. always_auto. Qed.
Lemma archive_adds request : always (adds P) (svc_archive_mission request).
Proof. unfold svc_archive_mission. always_auto. Qed.
Lemma delete_adds request : always (adds P) (svc_delete_mission foreign_keys request).
Proof. unfold svc_delete_mission. always_auto. Qed.
Lemma materialize_adds request : always (adds P) (svc_materialize_export request).
Proof. unfold svc_materialize_export. always_auto. Qed.
Lemma update_contract_adds request : always (adds P) (update_mission_contract request).
Proof. unfold update_mission_contract. always_auto. Qed.
Lemma subscribe_adds request : always (adds P) (subscribe_mission request).
Proof. unfold subscribe_mission. always_auto. Qed.
Lemma build_recovery_adds request : always (adds P) (svc_build_recovery_package nonces request).
Proof. unfold svc_build_recovery_package. always_auto. Qed.
Lemma verify_request_adds request : always (adds P) (verify_recovery_request nonces request).
Proof. unfold verify_recovery_request. always_auto. Qed.
#[local] Hint Resolve verify_request_adds : always.
Lemma verify_recovery_adds request : always (adds P) (svc_verify_recovery nonces request).
Proof. unfold svc_verify_recovery. always_auto. Qed.
Lemma review_memory_adds request : always (adds P) (review_memory request).
Proof. unfold review_memory. always_auto. Qed.

Lemma restore_missions_adds ids : always (adds P) (restore_missions ids).
Proof. induction ids; simpl; always_auto. Qed.
#[local] Hint Resolve restore_missions_adds : always.
Lemma restore_existing_adds : always (adds P) restore_existing.
Proof. unfold restore_existing. always_auto. Qed.

(** Handlers that pause an agent. *)
Section pausing.
Context (Hpause : ∀ p run, P (CallPause p run)).
#[local] Hint Resolve pause_active_adds call_pause_adds : always.
Lemma safe_pause_adds request : always (adds P) (svc_request_safe_pause request).
Proof. unfold svc_request_safe_pause. always_auto. Qed.
Lemma force_request_adds request : always (adds P) (svc_request_force_termination request).
Proof. unfold svc_request_force_termination. always_auto. Qed.
Lemma check_loadout_adds m fp : always (adds P) (check_loadout_before_model_request m fp).
Proof. unfold check_loadout_before_model_request. always_auto. Qed.
Lemma record_usage_adds key record : always (adds P) (record_usage key record).
Proof. intros s. unfold record_usage. destruct (evaluate_safe_boundary _). by apply adds_none. Qed.
#[local] Hint Resolve record_usage_adds : always.
Lemma consume_event_adds c event : always (adds P) (consume_event c event).
Proof. unfold consume_event, budget_step_of, note_server_request, deliver. always_auto. Qed.
Lemma finish_run_adds c elapsed : always (adds P) (finish_run c elapsed).
Proof.
  unfold finish_run. always_auto. apply modify_adds. intros s. unfold end_run.
  by destruct (bool_decide _).
Qed.
Lemma consumer_end_adds n elapsed s : adds P s (consumer_end n elapsed s).
Proof.
  unfold consumer_end. destruct (_ !! n) as [c|]; [|reflexivity].
  destruct (finish_run_adds c elapsed s) as (l&E&F). by exists l.
Qed.
Lemma consumer_event_adds n event elapsed s : adds P s (consumer_event n event elapsed s).
Proof.
  unfold consumer_event. destruct (_ !! n) as [c|]; [|reflexivity].
  pose proof (consume_event_adds c event s) as Hc. destruct (consume_event c event s) as [s1 r].
  etrans; [exact Hc|]. destruct (finish_run_adds c elapsed s1) as (l&E&F).
  destruct r as [[tokens []]|e]; [by exists l|by apply adds_none|by exists l].
Qed.
Lemma set_ui_all_adds b keys : ∀ affected, always (adds P) (set_ui_all b keys affected).
Proof. induction keys; intros affected; simpl; always_auto. Qed.
Lemma pause_runs_adds keys : always (adds P) (pause_runs keys).
Proof. induction keys; simpl; always_auto. Qed.
#[local] Hint Resolve set_ui_all_adds pause_runs_adds : always.
Lemma watchdog_adds e b : always (adds P) (watchdog e b).
Proof. unfold watchdog, pause_for_ui_disconnect. always_auto. Qed.
Lemma touch_ui_adds : always (adds P) touch_ui.
Proof. unfold touch_ui. always_auto. Qed.
End pausing.

(** Handlers that start an agent. *)
Section starting.
Context (Hprobe : ∀ p, P (CallProbe p)).
#[local] Hint Extern 1 (always (adds _) (call _)) => apply call_adds; auto : always.
Lemma probe_all_adds ps : always (adds P) (probe_all ps).
Proof. induction ps; simpl; always_auto. Qed.
Lemma provider_capabilities_adds cc : always (adds P) (provider_capabilities cc).
Proof. unfold provider_capabilities. apply always_bind; [apply probe_all_adds|always_auto]. Qed.
Context (Hstart : ∀ r, P (CallStart r)).
Lemma launch_agent_adds m route request : always (adds P) (launch_agent m route request).
Proof. unfold launch_agent. always_auto. Qed.
#[local] Hint Resolve launch_agent_adds : always.
Lemma launch_route_adds request : always (adds P) (launch_route request).
Proof.
  unfold launch_route. always_auto. intros s.
  match goal with |- context [launch_agent ?m ?r request s] =>
    pose proof (launch_agent_adds m r request s) as Hl end.
  destruct (launch_agent _ _ request s) as [s1 [launched|e]]; [done|]. etrans; [exact Hl|].
  match goal with |- context [try_actor ?key ?op s1] => pose proof (try_actor_adds key op s1) as Ht end.
  by destruct (try_actor _ _ s1).
Qed.
Lemma resolve_recovery_adds request : always (adds P) (svc_resolve_recovery nonces request).
Proof. unfold svc_resolve_recovery. always_auto. Qed.
Lemma handoff_adds request :
  (∀ p run, P (CallPause p run)) → always (adds P) (handoff_provider request).
Proof.
  intros Hp. unfold handoff_provider. always_auto. intros s. by apply safe_pause_adds.
Qed.
End starting.

Lemma resolve_approval_adds request :
  (∀ p run id d, P (CallRespond p run id d)) → always (adds P) (svc_resolve_approval request).
Proof.
  intros Hr. unfold svc_resolve_approval. always_auto. by apply call_adds.
Qed.
Lemma force_terminate_adds request :
  (∀ p run, P (CallTerminate p run)) → always (adds P) (svc_force_terminate request).
Proof.
  intros Hr. unfold svc_force_terminate. always_auto. by apply call_adds.
Qed.
End adds.

(** Which commands may make which calls. *)
Definition may_call (command : string) (c : AdapterCall) : bool :=
  let named := str_eqb command in
  match c with
  | CallProbe _ => named "launch_route" || named "resolve_recovery" || named "handoff_provider"
                   || named "provider_capabilities"
  | CallStart _ => named "launch_route" || named "resolve_recovery" || named "handoff_provider"
  | CallPause _ _ => named "request_safe_pause" || named "request_force_termination"
                     || named "handoff_provider"
  | CallTerminate _ _ => named "force_terminate"
  | CallRespond _ _ _ _ => named "resolve_approval"
  end.
Create HintDb adds discriminated.
#[local] Hint Resolve create_mission_adds update_contract_adds launch_route_adds subscribe_adds
  safe_pause_adds force_request_adds force_terminate_adds resolve_approval_adds build_recovery_adds
  verify_recovery_adds resolve_recovery_adds review_memory_adds handoff_adds
  provider_capabilities_adds storage_adds export_adds diagnostic_adds archive_adds delete_adds
  materialize_adds : adds.
#[local] Hint Extern 2 => (intros; exact I) : adds.
Lemma dispatch_adds cc command request :
  always (adds (may_call command)) (dispatch nonces foreign_keys cc command request).
Proof.
  unfold dispatch. cbv zeta.
  repeat (destruct (str_eqb command _) eqn:Hc;
    [apply String.eqb_eq in Hc as ->; auto with adds|clear Hc]).
  apply always_throw.
Qed.

(** What a forced termination needs: the mission waits for it, with the token
    that the request repeats, and the run is the mission's active one. *)
Definition confirmed_termination (request : MissionCommandRequest) (s : MissionService)
    (c : AdapterCall) : Prop :=
  ∃ m token a run,
    request_mission_id request = Ok m ∧ Request_confirmation_token request = Some token ∧
    MissionService_missions s !! uuid_to_string m = Some a ∧
    PauseController_state (MissionActor_pause a) = PForceAvailable token ∧
    active_run_id m s = Some run ∧
    c = CallTerminate (default ProviderId_default (run_provider m s)) run.
Lemma force_terminate_confirmed request s :
  adds (confirmed_termination request s) s (svc_force_terminate request s).1.
Proof.
  unfold svc_force_terminate. unfold mbind at 1, stm_bind at 1, stm_lift at 1.
  destruct (request_mission_id request) as [m|] eqn:Hm; [|reflexivity].
  unfold mbind at 1, stm_bind at 1, stm_lift at 1.
  destruct (Request_confirmation_token request) as [token|] eqn:Ht; [|reflexivity]. simpl.
  unfold mbind at 1, stm_bind at 1, stm_get at 1. cbv zeta.
  unfold mbind at 1, stm_bind at 1, get_actor at 1, find_actor.
  destruct (MissionService_missions s !! uuid_to_string m) as [a|] eqn:Ha; [|reflexivity]. simpl.
  destruct (pause_can_force_terminate (MissionActor_pause a) token) eqn:Hp; [|reflexivity]. simpl.
  unfold pause_can_force_terminate in Hp.
  destruct (PauseController_state (MissionActor_pause a)) as [| | | | |token'|] eqn:Hs; try done.
  apply String.eqb_eq in Hp as ->.
  set (k := λ _ : unit, _ ← tick; _).
  assert (∀ x s', adds (confirmed_termination request s) s' (k x s').1) as Hk.
  { intros x. fold (always (adds (confirmed_termination request s)) (k x)). unfold k.
    apply always_bind; [apply tick_adds|]. intros i.
    apply always_bind; [apply with_actor_adds|]. intros _. apply current_result_adds. }
  destruct (active_run_id m s) as [run|] eqn:Hrun; [|exact (Hk tt s)].
  unfold mbind at 1, stm_bind at 1. unfold mbind at 1, stm_bind at 1, stm_get at 1.
  unfold mbind at 1, stm_bind at 1, stm_lift at 1.
  unfold adapter. destruct (has_adapter _) eqn:Had; [|reflexivity]. simpl.
  assert (adds (confirmed_termination request s) s
    (call (CallTerminate (default ProviderId_default (run_provider m s)) run) s).1) as Hcall.
  { apply call_adds. by exists m, token, a, run. }
  simpl in Hcall |- *. unfold stm_lift.
  destruct (env_control _) as [[]|e]; [|exact Hcall]. etrans; [exact Hcall|apply (Hk tt)].
Qed.

Lemma adds_in P s s' c : adds P s s' → c ∈ MissionService_calls s' →
  c ∈ MissionService_calls s ∨ P c.
Proof.
  intros (l&->&Hl) [Hc|Hc]%elem_of_app; [by left|right]. by eapply Forall_forall in Hc.
Qed.
Definition not_termination (c : AdapterCall) : Prop :=
  match c with CallTerminate _ _ => False | _ => True end.
Lemma dispatch_force_terminate cc request :
  dispatch nonces foreign_keys cc "force_terminate" request = svc_force_terminate request.
Proof. reflexivity. Qed.
(** The parsed request behind a change made by [dispatch_json]. *)
Lemma dispatch_json_calls cc command value s :
  MissionService_calls (dispatch_json nonces foreign_keys cc command value s).1 =
    MissionService_calls s ∨
  ∃ request, from_value value = Ok request ∧
    MissionService_calls (dispatch_json nonces foreign_keys cc command value s).1 =
    MissionService_calls (dispatch nonces foreign_keys cc command request s).1.
Proof.
  unfold dispatch_json. destruct (negb _); [by left|]. unfold mbind, stm_bind, stm_lift.
  destruct (from_value value) as [request|e]; [|by left]. simpl.
  destruct (validate_mission_request request) as [[]|e]; [|by left].
  right. exists request. split; [done|]. by destruct (dispatch _ _ _ _ _ s) as [s' [r|e]].
Qed.

(** C4: an agent is terminated by nothing but the command [force_terminate],
    for the active run of the mission it names, and only while that mission
    waits for a confirmation with exactly the token the command repeats: no
    other command, no agent event, no watchdog and no restart does it. *)
Theorem termination_needs_token s ev p run :
  CallTerminate p run ∈ MissionService_calls (service_do s ev) →
  CallTerminate p run ∈ MissionService_calls s ∨
  ∃ cc value request, ev = SeCommand cc "force_terminate" value ∧ from_value value = Ok request ∧
    confirmed_termination request s (CallTerminate p run).
Proof.
  destruct ev as [cc command value|n event el|n el|m fp| |e b|]; simpl; intros Hin.
  1:{ destruct (dispatch_json_calls cc command value s) as [E|(request&Hr&E)]; rewrite E in Hin.
      { by left. }
      destruct (str_eqb command "force_terminate") eqn:Hc.
      + apply String.eqb_eq in Hc as ->. rewrite dispatch_force_terminate in Hin.
        apply (adds_in _ _ _ _ (force_terminate_confirmed request s)) in Hin as [?|?]; [by left|].
        right. by exists cc, value, request.
      + apply (adds_in _ _ _ _ (dispatch_adds cc command request s)) in Hin as [?|Hm]; [by left|].
        simpl in Hm. by rewrite Hc in Hm. }
  all: left; cut (CallTerminate p run ∈ MissionService_calls s ∨ not_termination (CallTerminate p run));
    [by intros [?|[]]|].
  - eapply adds_in; [|exact Hin]. by apply consumer_event_adds.
  - eapply adds_in; [|exact Hin]. by apply consumer_end_adds.
  - eapply adds_in; [|exact Hin]. by apply check_loadout_adds.
  - eapply adds_in; [|exact Hin]. by apply touch_ui_adds.
  - eapply adds_in; [|exact Hin]. by apply watchdog_adds.
  - unfold MissionService_new in Hin.
    apply (adds_in not_termination _ _ _ (restore_existing_adds _ _)) in Hin as [Hin|?]; [|done].
    by apply not_elem_of_nil in Hin.
Qed.

(** ** The answer to an agent that waits for an approval *)
Lemma run_actor_frame {A} key a (op : (nat → EventId) → stm actor ActorError A) s :
  MissionService_pending (run_actor key a op s).1 = MissionService_pending s ∧
  MissionService_calls (run_actor key a op s).1 = MissionService_calls s.
Proof. unfold run_actor. by destruct (op _ _). Qed.
Lemma with_actor_frame {A} key wrap (op : (nat → EventId) → stm actor ActorError A) s s' r :
  with_actor key wrap op s = (s', r) →
  MissionService_pending s' = MissionService_pending s ∧
  MissionService_calls s' = MissionService_calls s.
Proof.
  unfold with_actor. destruct (_ !! key) as [a|]; [|by intros [= <- _]].
  pose proof (run_actor_frame key a op s) as Hf. destruct (run_actor key a op s) as [s1 r1].
  by intros [= <- _].
Qed.
(** A resolved approval answers the agent recorded under its identifier, and
    only that one. *)
Lemma resolve_answers_recorded s request s' r k pending :
  Request_approval_id request = Some k → MissionService_pending s !! k = Some pending →
  svc_resolve_approval request s = (s', Ok r) →
  MissionService_calls s' = MissionService_calls s ++
    [CallRespond (PendingServerRequest_provider pending) (PendingServerRequest_run_id pending)
       (PendingServerRequest_request_id pending) (response_decision request)] ∧
  MissionService_pending s' = delete k (MissionService_pending s).
Proof.
  intros Hk Hp. unfold svc_resolve_approval. rewrite Hk. intros Hr.
  apply stm_bind_lift_Ok in Hr as (m&_&Hr). apply stm_bind_lift_Ok in Hr as (rt&_&Hr).
  apply stm_bind_lift_Ok in Hr as (k'&Hk'&Hr).
  assert (k' = k) as -> by (unfold required in Hk'; destruct (negb _) in Hk'; congruence).
  do 5 (apply stm_bind_lift_Ok in Hr as (?&_&Hr)).
  apply stm_bind_Ok in Hr as (s1&i&[= <- _]&Hr). cbv zeta in Hr.
  apply stm_bind_Ok in Hr as (s2&st&Ha&Hr). apply with_actor_frame in Ha as [Hp2 Hc2].
  apply stm_bind_Ok in Hr as (s3&res&[= <- _]&Hr). apply stm_bind_get_Ok in Hr.
  rewrite Hp2 in Hr. simpl in Hr. rewrite Hp in Hr.
  apply stm_bind_Ok in Hr as (s4&u&[= <- _]&Hr).
  apply stm_bind_Ok in Hr as (s5&u'&Hm&[= <- _]).
  apply stm_bind_lift_Ok in Hm as (p&Had&Hm). apply stm_bind_Ok in Hm as (s6&j&[= <- _]&Hm).
  unfold stm_lift in Hm. injection Hm as <- _. simpl. rewrite Hc2, Hp2. simpl.
  unfold adapter in Had. destruct (has_adapter _) in Had; [|done]. by injection Had as <-.
Qed.

(** Agents number their own requests and the service files the open ones
    under that number alone.  When the agents of two missions have asked under
    the same number, resolving it (for whichever mission) answers the agent
    that asked last, with the request of that agent; the first one's request
    is forgotten. *)
Theorem answer_goes_to_last_asker s c1 c2 event1 event2 k r1 r2 request s' res :
  server_request event1 = Some (k, r1) → server_request event2 = Some (k, r2) →
  Request_approval_id request = Some k →
  let noted := (note_server_request c2 event2 (note_server_request c1 event1 s).1).1 in
  svc_resolve_approval request noted = (s', Ok res) →
  MissionService_calls s' = MissionService_calls s ++
    [CallRespond (default ProviderId_default (run_provider (Consumer_mission_id c2) s))
       (Consumer_run_id c2) r2 (response_decision request)] ∧
  MissionService_pending s' !! k = None.
Proof.
  intros H1' H2' Hk. unfold note_server_request. rewrite H1', H2'. cbv zeta. intros Hr.
  eapply resolve_answers_recorded in Hr as [Hc Hp]; [|done|apply lookup_insert_eq].
  split; [exact Hc|]. rewrite Hp. apply lookup_delete_eq.
Qed.

(** ** The user interface goes away *)
Definition quiet (a : actor) : Prop :=
  MissionActor_ui_connected a = false ∧ is_running (MissionActor_pause a) = false.
Lemma disconnected_quiet ids (a : actor) : quiet (set_ui_connected ids false a).1.
Proof.
  unfold set_ui_connected. unfold mbind, stm_bind, stm_modify, stm_get. simpl.
  destruct (is_running (MissionActor_pause a)) eqn:Hr; [|by split]. simpl.
  unfold actor_request_safe_pause, zoom_pause, stm_zoom, mbind, stm_bind. simpl.
  unfold pause_request. unfold is_running in Hr.
  destruct (PauseController_state (MissionActor_pause a)); try done. simpl.
  unfold actor_append, append_envelope. destruct (append_event _ _) as [l [u|e]]; by split.
Qed.
(** What turning the missions of [keys] off does, whatever the ledger answers. *)
Record turned_off (keys affected affected' : list string) (s s' : MissionService) : Prop := {
  off_others k : k ∉ keys → MissionService_missions s' !! k = MissionService_missions s !! k;
  off_dom k : is_Some (MissionService_missions s' !! k) ↔ is_Some (MissionService_missions s !! k);
  off_quiet k a : k ∈ keys → MissionService_missions s' !! k = Some a → quiet a;
  off_tables : MissionService_runs s' = MissionService_runs s ∧
    MissionService_run_providers s' = MissionService_run_providers s ∧
    MissionService_calls s' = MissionService_calls s;
  off_before k : k ∈ affected → k ∈ affected';
  off_affected k a : k ∈ keys → MissionService_missions s !! k = Some a →
    MissionActor_ui_connected a = true → k ∈ affected';
}.
Lemma try_quiet key s :
  ∃ s' r, try_actor key (λ ids, set_ui_connected ids false) s = (s', Ok r) ∧
    turned_off [key] [] [key] s s'.
Proof.
  unfold try_actor. destruct (MissionService_missions s !! key) as [a|] eqn:Ha.
  - unfold run_actor. set (ids := λ n : nat, _).
    pose proof (disconnected_quiet ids (attach (MissionService_database s) a)) as Hq.
    destruct (set_ui_connected ids false _) as [a' r]. simpl in Hq.
    eexists _, _. split; [done|]. split; simpl; try done.
    + intros k Hk. rewrite lookup_insert_ne; [done|]. set_solver.
    + intros k. rewrite lookup_insert_is_Some'. split; [|by right].
      intros [<-|?]; [by exists a|done].
    + intros k a2 Hk. rewrite list_elem_of_singleton in Hk. subst k.
      rewrite lookup_insert_eq. by intros [= <-].
    + by intros k ?%not_elem_of_nil.
  - eexists s, _. split; [done|]. split; try done.
    + intros k a2 Hk. rewrite list_elem_of_singleton in Hk. subst k. congruence.
    + by intros k ?%not_elem_of_nil.
Qed.
Lemma set_ui_all_off keys : NoDup keys → ∀ affected s,
  ∃ s' affected', set_ui_all false keys affected s = (s', Ok affected') ∧
    turned_off keys affected affected' s s'.
Proof.
  induction 1 as [|key keys Hkey Hnd IH]; intros affected s.
  { exists s, affected. split; [done|]. split; try done; set_solver. }
  simpl. unfold mbind, stm_bind, stm_get.
  destruct (try_quiet key s) as (s1&r&E1&[O1 D1 Q1 (R1&P1&C1) B1 A1]). rewrite E1.
  set (was := match MissionService_missions s !! key with Some a => _ | None => _ end).
  destruct (IH (if was then affected ++ [key] else affected) s1)
    as (s2&aff&E2&[O2 D2 Q2 (R2&P2&C2) B2 A2]).
  exists s2, aff. split; [done|]. split.
  - intros k Hk. rewrite O2, O1; set_solver.
  - intros k. by rewrite D2, D1.
  - intros k a [->|Hk]%elem_of_cons; [|by apply Q2].
    rewrite O2 by done. apply Q1, list_elem_of_singleton. done.
  - by rewrite R2, P2, C2.
  - intros k Hk. apply B2. destruct was; [|done]. apply elem_of_app. by left.
  - intros k a [->|Hk]%elem_of_cons Ha Hu.
    + apply B2. assert (was = true) as -> by (unfold was; by rewrite Ha).
      apply elem_of_app. right. by apply list_elem_of_singleton.
    + apply (A2 k a Hk); [|done]. rewrite O1; [done|].
      intros ->%list_elem_of_singleton. done.
Qed.
Lemma pause_runs_calls keys : ∀ s,
  ∃ s', pause_runs keys s = (s', Ok tt) ∧
    MissionService_missions s' = MissionService_missions s ∧
    (∀ c, c ∈ MissionService_calls s → c ∈ MissionService_calls s') ∧
    ∀ k run p, k ∈ keys → MissionService_runs s !! k = Some run →
      MissionService_run_providers s !! k = Some p → has_adapter p = true →
      CallPause p run ∈ MissionService_calls s'.
Proof.
  induction keys as [|key keys IH]; intros s; simpl.
  { exists s. split_and!; try done. intros k run p Hk. by apply not_elem_of_nil in Hk. }
  unfold mbind, stm_bind, stm_get. set (first := match MissionService_runs s !! key with
    Some _ => _ | None => _ end).
  assert (∃ s1, first s = (s1, Ok tt) ∧ MissionService_missions s1 = MissionService_missions s ∧
    MissionService_runs s1 = MissionService_runs s ∧
    MissionService_run_providers s1 = MissionService_run_providers s ∧
    (∀ c, c ∈ MissionService_calls s → c ∈ MissionService_calls s1) ∧
    ∀ run p, MissionService_runs s !! key = Some run →
      MissionService_run_providers s !! key = Some p → has_adapter p = true →
      CallPause p run ∈ MissionService_calls s1) as (s1&E1&M1&R1&P1&C1&N1).
  { unfold first. destruct (MissionService_runs s !! key) as [run|]; [|by exists s]. cbv zeta.
    destruct (has_adapter _) eqn:Hp; [|exists s; split_and!; try done].
    - eexists. split; [reflexivity|]. split_and!; try done; simpl.
      + intros c Hc. apply elem_of_app. by left.
      + intros run' p [= <-] Hq _. rewrite Hq. apply elem_of_app. right.
        by apply list_elem_of_singleton.
    - intros run' p _ Hq Hp'. rewrite Hq in Hp. simpl in Hp. congruence. }
  rewrite E1. destruct (IH s1) as (s2&E2&M2&C2&N2). exists s2. split_and!.
  - done.
  - congruence.
  - auto.
  - rewrite R1, P1 in N2. intros k run p [->|Hk]%elem_of_cons Hr Hq Hp; [by apply C2, N1|].
    by eapply N2.
Qed.

(** C14: when the user interface is gone every mission ends up disconnected
    and none is left running, whatever the ledger does with the audit events;
    and every agent of a mission that was connected is asked to pause.  The
    routine never fails. *)
Theorem ui_disconnect_pauses_all `{!HashSetOrderLaws} s :
  ∃ s', pause_for_ui_disconnect s = (s', Ok tt) ∧
    dom (MissionService_missions s') = dom (MissionService_missions s) ∧
    (∀ k a, MissionService_missions s' !! k = Some a →
      MissionActor_ui_connected a = false ∧ is_running (MissionActor_pause a) = false) ∧
    (∀ k a run p, MissionService_missions s !! k = Some a → MissionActor_ui_connected a = true →
      MissionService_runs s !! k = Some run → MissionService_run_providers s !! k = Some p →
      has_adapter p = true → CallPause p run ∈ MissionService_calls s').
Proof.
  unfold pause_for_ui_disconnect, mbind, stm_bind, stm_get.
  set (keys := hash_elements _).
  assert (∀ k, k ∈ keys ↔ is_Some (MissionService_missions s !! k)) as Hkeys.
  { intros k. unfold keys. by rewrite hash_elements_perm, elem_of_elements, elem_of_dom. }
  assert (NoDup keys) as Hnd by (unfold keys; rewrite hash_elements_perm; apply NoDup_elements).
  destruct (set_ui_all_off keys Hnd [] s) as (s1&aff&->&[O1 D1 Q1 (R1&P1&C1) _ A1]).
  destruct (pause_runs_calls aff s1) as (s2&->&M2&C2&N2). exists s2. split_and!.
  - done.
  - apply set_eq. intros k. by rewrite M2, !elem_of_dom, D1.
  - intros k a. rewrite M2. intros Ha. apply (Q1 k a); [|done]. rewrite Hkeys, <-D1. by exists a.
  - intros k a run p Ha Hu Hr Hp Had. rewrite R1, P1 in N2. apply (N2 k); try done.
    apply (A1 k a); try done. rewrite Hkeys. by exists a.
Qed.

Section laws.
Context `{!UuidTextLaws, !JsonParseLaws}.

Lemma initial_inv db files n ids clock :
  stored_inv db → service_inv (MissionService_initial db files n ids clock).
Proof.
  intros Hdb. split; simpl; try done.
  - intros k [? Hk]. by rewrite lookup_empty in Hk.
  - intros k. by rewrite !lookup_empty.
Qed.
Lemma service_do_inv s ev : service_inv s → service_inv (service_do s ev).
Proof.
  intros Hinv. destruct ev as [cc command request|n event el|n el|m fp| |e b|]; simpl.
  - by apply dispatch_json_keeps.
  - destruct (MissionService_consumers s !! n) as [c|] eqn:Hc.
    + by apply (consumer_event_step n c).
    + unfold consumer_event. by rewrite Hc.
  - destruct (MissionService_consumers s !! n) as [c|] eqn:Hc.
    + by apply (consumer_end_step n c).
    + unfold consumer_end. by rewrite Hc.
  - by apply (check_loadout_step m fp).
  - by apply touch_ui_keeps.
  - by apply watchdog_keeps.
  - apply restore_existing_keeps, initial_inv, inv_database, Hinv.
Qed.
Lemma service_run_inv evs : ∀ s, service_inv s → service_inv (service_run s evs).
Proof.
  induction evs as [|ev evs IH]; intros s Hinv; [done|]. by apply IH, service_do_inv.
Qed.

(** C3: on a database written by the ledger, whatever commands arrive,
    whatever the agents report, the watchdog does and the world answers, and
    however often the process restarts: every agent was probed, started,
    paused, answered or terminated through an installed adapter and only
    started read-only, in the project directory, with no environment of its
    own and under a non-empty fingerprint of a loadout of its own provider;
    the tables of runs, providers and tasks agree; every actor sits at its own
    mission and has a budget; and the database keeps its invariant. *)
Theorem service_invariant db files n ids clock evs :
  stored_inv db →
  service_inv (service_run (MissionService_new db files n ids clock).1 evs).
Proof.
  intros Hdb. by apply service_run_inv, restore_existing_keeps, initial_inv.
Qed.

(** ** Isolation *)

(** The mission an event belongs to. *)
Definition acts_for (m : MissionId) (s : MissionService) (ev : service_event) : Prop :=
  match ev with
  | SeCommand _ _ request => ∃ r, from_value request = Ok r ∧ request_mission_id r = Ok m
  | SeAgent n _ _ | SeAgentEnd n _ =>
      ∃ c, MissionService_consumers s !! n = Some c ∧ Consumer_mission_id c = m
  | SeLoadout m' _ => m' = m
  | _ => False
  end.
Lemma dispatch_json_step m cc command request r :
  from_value request = Ok r → request_mission_id r = Ok m →
  always (step m) (dispatch_json nonces foreign_keys cc command request).
Proof.
  intros Hr Hm. unfold dispatch_json. destruct (negb _); [apply always_throw|]. rewrite Hr.
  apply always_bind_lift. intros ? [= <-]. apply always_bind; [apply always_lift|]. intros _.
  apply always_bind; [by apply dispatch_step|]. intros ?. apply always_ret.
Qed.
Lemma acts_for_step m s ev : acts_for m s ev → step m s (service_do s ev).
Proof.
  destruct ev as [cc command request|n event el|n el|m' fp| |e b|]; simpl; try done.
  - intros (r&Hr&Hm). by apply (dispatch_json_step m cc command request r).
  - intros (c&Hc&<-). by apply consumer_event_step.
  - intros (c&Hc&<-). by apply consumer_end_step.
  - intros ->. apply check_loadout_step.
Qed.
(** A history depends on the rows of its mission only. *)
Lemma replay_events_rows m l l' :
  by_mission (uuid_to_string m) (EncryptedLedger_events l) =
  by_mission (uuid_to_string m) (EncryptedLedger_events l') →
  replay_events m l = replay_events m l'.
Proof. intros Hr. unfold replay_events, ledger_replay_rows. by rewrite Hr. Qed.

(** C9: a command that names a mission and an event of an agent working for
    it leave every other mission alone: its history replays the same, and its
    actor, its budget and its run are what they were. *)
Theorem missions_isolated s ev m m' :
  service_inv s → acts_for m s ev → m' ≠ m →
  let s' := service_do s ev in
  replay_events m' (MissionService_database s') = replay_events m' (MissionService_database s) ∧
  MissionService_missions s' !! uuid_to_string m' = MissionService_missions s !! uuid_to_string m' ∧
  MissionService_budgets s' !! uuid_to_string m' = MissionService_budgets s !! uuid_to_string m' ∧
  active_run_id m' s' = active_run_id m' s ∧ run_provider m' s' = run_provider m' s.
Proof.
  intros Hinv Hev Hm s'. destruct (acts_for_step m s ev Hev Hinv) as [_ [Hdb Htab]].
  split; [by apply replay_events_rows, Hdb|]. apply Htab. intros He. by apply (inj uuid_to_string) in He.
Qed.

(** ** A new mission and its budget *)
Lemma open_ledger_Ok s s' l :
  open_ledger s = (s', Ok l) →
  l = MissionService_database s ∧ s' = (tick s).1.
Proof.
  unfold open_ledger. intros Ho. apply stm_bind_Ok in Ho as (s1&i&Ht&Ho).
  unfold tick in Ht. injection Ht as <- _. apply stm_bind_get_Ok in Ho.
  apply stm_bind_lift_Ok in Ho as (rep&_&Ho). injection Ho as <- <-. done.
Qed.
Lemma displayed_Ok {E A} `{!DisplayFmt E} prefix (x : result E A) s s' a :
  displayed prefix x s = (s', Ok a) → s' = s ∧ x = Ok a.
Proof. unfold displayed, stm_lift. destruct x; [by intros [= -> ->]|done]. Qed.
Lemma append_next e (l l' : EncryptedLedger) es :
  rows_inv (EncryptedLedger_events l) → storable (EncryptedLedger_redactor l) e →
  replay_events (EventEnvelope_mission_id e) l = Ok es →
  EventEnvelope_sequence e = Z.of_nat (S (length es)) → encrypted_append e l = (l', Ok tt) →
  ∃ payload raw, redact (EncryptedLedger_redactor l) (EventEnvelope_payload e) = Ok payload ∧
    replay_events (EventEnvelope_mission_id e) l' = Ok (es ++ [persisted e payload raw]) ∧
    rows_inv (EncryptedLedger_events l') ∧ EncryptedLedger_redactor l' = EncryptedLedger_redactor l.
Proof.
  intros Hinv Hst Hes Hseq Ha. pose proof (encrypted_append_inv e l Hst Hinv) as Hinv'.
  rewrite Ha in Hinv'. pose proof Ha as (p&rows&_&_&Hl')%encrypted_append_Ok.
  destruct (append_replays l e l' Hinv Hst Ha) as (es'&Hes'&Hn&Hcase&_).
  rewrite Hes in Hes'. injection Hes' as <-.
  destruct Hcase as [(_&e0&Hin&_&Hs0)|(payload&raw&Hp&_&Hr&_)].
  - exfalso. assert (EventEnvelope_sequence e0 ∈ EventEnvelope_sequence <$> es) as Hin'
      by (by apply list_elem_of_fmap_2). rewrite Hn in Hin'.
    apply list_elem_of_fmap in Hin' as (i&Hi&Hin'%elem_of_seq). lia.
  - exists payload, raw. split_and!; try done. by rewrite Hl'.
Qed.
Lemma unknown_mission_empty m l ids :
  mission_ids l = Ok ids → m ∉ ids → replay_events m l = Ok [].
Proof.
  intros Hids Hm. assert (by_mission (uuid_to_string m) (EncryptedLedger_events l) = []) as Hb.
  { apply elem_of_nil_inv. intros row [Hr Hin]%list_elem_of_filter. apply Hm.
    unfold mission_ids in Hids. apply mapM_Ok in Hids.
    assert (EventRow_mission_id row ∈ sort_cmp str_cmp
      (remove_dups (EventRow_mission_id <$> EncryptedLedger_events l))) as Hs.
    { unfold sort_cmp. rewrite sort_by_elem, elem_of_remove_dups. by apply list_elem_of_fmap_2. }
    apply list_elem_of_lookup_1 in Hs as [i Hi].
    destruct (Forall2_lookup_l _ _ _ _ _ Hids Hi) as (m'&Hm'&Hp). rewrite Hr in Hp.
    rewrite uuid_parse_to_string in Hp. injection Hp as <-. by eapply list_elem_of_lookup_2. }
  unfold replay_events. by rewrite Hb.
Qed.

Section redacted.
Context `{!SerdeJsonLaws}.
Lemma redact_redacted redactor v w : redact redactor v = Ok w → redacted_from v w.
Proof.
  unfold redact, redact_event. destruct (_ <? _)%Z; [done|].
  destruct (redact_value _ v _) as [audit [x|e]] eqn:Hv; simpl; [|done].
  destruct (_ <? _)%Z; [done|]. intros [= <-]. by eapply redact_value_spec.
Qed.
(** A redacted object is an object with the same keys. *)
Lemma redacted_lookup o w k x :
  redacted_from (Value_Object o) w → o !! k = Some x →
  ∃ m y, Value_as_object w = Some m ∧ m !! k = Some y ∧
    ((is_sensitive_field k = true ∧ y = Value_String (mark (field_category k) (to_vec x))) ∨
     (is_sensitive_field k = false ∧ redacted_from x y)).
Proof.
  intros Hr Hk. pose proof (as_object_Object o) as Ho.
  inversion Hr as [v w' m m' Hv Hw _ Hsome|v w' l l' Hv|v s Hv|v Hv]; subst; try congruence.
  rewrite Ho in Hv. injection Hv as <-. destruct (Hsome _ _ Hk) as (y&Hy&Hc). by exists m', y.
Qed.
(** The ledger hides the token limit of every budget it records. *)
Lemma redacted_budget limits w :
  redacted_from (budget_value limits) w → MissionBudgetRequest_from_value w = None.
Proof.
  intros Hr. eapply (redacted_lookup _ _ "tokens") in Hr as (m&y&Hm&Hy&[[_ ->]|[Hs _]]);
    [|discriminate Hs|reflexivity].
  unfold MissionBudgetRequest_from_value. rewrite Hm. simpl. unfold opt_u64_field. rewrite Hy.
  rewrite bool_decide_eq_false_2, as_u64_String; [done|].
  intros E. apply (f_equal Value_as_str) in E. by rewrite as_str_String, as_str_Null in E.
Qed.

(** The three events of a new mission, one after the other. *)
Lemma create_batch e1 e2 e3 m r request limits (l l' : EncryptedLedger) :
  rows_inv (EncryptedLedger_events l) → replay_events m l = Ok [] →
  append_batch (creation_events e1 e2 e3 m r request limits) l = (l', Ok tt) →
  ∃ x y z, replay_events m l' = Ok [x; y; z] ∧ rows_inv (EncryptedLedger_events l') ∧
    (EventEnvelope_kind <$> [x; y; z]) = [MissionCreated; RouteCreated; ContractUpdated] ∧
    ∃ w, Value_get (EventEnvelope_payload z) "budget" = Some w ∧ redacted_from (budget_value limits) w.
Proof.
  intros Hinv He Hb. apply append_batch_each in Hb. simpl in Hb.
  pose proof (creation_storable (EncryptedLedger_redactor l) e1 e2 e3 m r request limits) as Hst.
  apply Forall_cons in Hst as [Hst1 Hst]. apply Forall_cons in Hst as [Hst2 Hst].
  apply Forall_cons in Hst as [Hst3 _].
  destruct (encrypted_append _ l) as [l1 [[]|]] eqn:Ha1 in Hb; [|done].
  destruct (encrypted_append _ l1) as [l2 [[]|]] eqn:Ha2 in Hb; [|done].
  destruct (encrypted_append _ l2) as [l3 [[]|]] eqn:Ha3 in Hb; [|done]. injection Hb as <-.
  eapply append_next in Ha1 as (p1&r1&_&Hr1&Hi1&Hd1); [|done..]. rewrite <-Hd1 in Hst2, Hst3.
  eapply append_next in Ha2 as (p2&r2&_&Hr2&Hi2&Hd2); [|done..]. rewrite <-Hd2 in Hst3.
  eapply append_next in Ha3 as (p3&r3&Hp3&Hr3&Hi3&_); [|done..].
  eexists _, _, _. split_and!; [exact Hr3|done|reflexivity|].
  apply redact_redacted in Hp3.
  eapply (redacted_lookup _ _ "budget") in Hp3 as (o&w&Ho&Hw&[[Hs _]|[_ Hf]]);
    [discriminate Hs| |reflexivity].
  exists w. split; [|done]. simpl. by rewrite (as_object_get _ _ _ Ho).
Qed.
(** A mission that was created has exactly its three first events and
    runs under the limits that were asked for, but the limits recorded with
    it cannot be read back: after a restart every mission is given the default
    limits, whatever was asked for. *)
Theorem restart_forgets_budget m r request s s' res :
  service_inv s → create_as m r request s = (s', Ok res) →
  MissionService_budgets s' !! uuid_to_string m = Some (BudgetTracker_new 1
    (MissionBudgetRequest_limits (default no_budget (Request_budget request))) UnknownPause) ∧
  ∃ events, replay_events m (MissionService_database s') = Ok events ∧
    (EventEnvelope_kind <$> events) = [MissionCreated; RouteCreated; ContractUpdated] ∧
    limits_from_events events = DEFAULT_BUDGET_LIMITS.
Proof.
  intros Hinv Hc. unfold create_as in Hc. cbv zeta in Hc. apply stm_bind_get_Ok in Hc.
  destruct (bool_decide _) in Hc; [done|].
  apply stm_bind_Ok in Hc as (s1&l&Ho&Hc). apply open_ledger_Ok in Ho as [-> ->].
  apply stm_bind_Ok in Hc as (s2&known&Hk&Hc). apply displayed_Ok in Hk as [-> Hk].
  destruct (bool_decide _) eqn:Hm in Hc; [done|]. apply bool_decide_eq_false in Hm.
  apply stm_bind_Ok in Hc as (s3&e1&Hf1&Hc). apply stm_bind_Ok in Hc as (s4&e2&Hf2&Hc).
  apply stm_bind_Ok in Hc as (s5&e3&Hf3&Hc).
  assert (MissionService_database s5 = MissionService_database s) as Hdb.
  { unfold fresh_uuid in Hf1, Hf2, Hf3. by simplify_eq. }
  apply stm_bind_Ok in Hc as (s6&[]&Hb&Hc). rewrite Hdb in Hb.
  destruct (append_batch _ _) as [db [[]|e]] eqn:Hab in Hb; [|done]. injection Hb as <-.
  eapply create_batch in Hab as (x&y&z&Hr&_&Hkinds&w&Hw&Hred);
    [|apply Hinv|by eapply unknown_mission_empty].
  apply stm_bind_get_Ok in Hc. apply stm_bind_lift_Ok in Hc as (a&_&Hc).
  apply stm_bind_Ok in Hc as (s7&u&Hmod&Hc). unfold stm_modify in Hmod. injection Hmod as <- _.
  unfold current_result in Hc. injection Hc as <- _. simpl. split; [apply lookup_insert_eq|].
  exists [x; y; z]. split_and!; [done|done|]. unfold limits_from_events. simpl.
  simpl in Hkinds. injection Hkinds as _ _ Hz. rewrite Hz. simpl. rewrite Hw. simpl.
  by rewrite (redacted_budget _ _ Hred).
Qed.
End redacted.
End laws.
End safety.
