(* ===== verification/ServiceExamples.v ===== *)
(** * A concrete mission service

    Instances of everything the service takes from outside, and short runs of
    it: each theorem about the service applied to a run in which its
    hypotheses hold. *)

From S2P Require Import Prelude Always Extern Ids Event Ordering Approval Budget Envelope PolicyEngine.
From S2P Require Import Command AdapterCore LoadoutMonitor ProcessTree Pause MissionActor ActorRecovery.
From S2P Require Import Frame BlobStore Redaction Ledger Lifecycle RecoveryPackage.
From S2P Require Import ServiceData Service ServiceProofs ServiceSafety.
From Stdlib Require Import ZArith Lia.
From stdpp Require Import prelude gmap strings pretty countable.

(** ** JSON text that can be read back *)
Module CodedJson.
Import Json RecoveryExamples.

Inductive leaf := LNull | LBool (b : bool) | LNum (n : Z) | LStr (s : string).
#[export] Instance leaf_eq_dec : EqDecision leaf.
Proof. solve_decision. Defined.
#[export] Instance leaf_countable : Countable leaf.
Proof.
  apply (inj_countable'
    (λ l, match l with
          | LNull => inl (inl tt) | LBool b => inl (inr b)
          | LNum n => inr (inl n) | LStr s => inr (inr s) end)
    (λ x, match x with
          | inl (inl _) => LNull | inl (inr b) => LBool b
          | inr (inl n) => LNum n | inr (inr s) => LStr s end)).
  by intros [].
Defined.
Fixpoint json_tree (v : json) : gen_tree leaf :=
  match v with
  | JNull => GenLeaf LNull
  | JBool b => GenLeaf (LBool b)
  | JNum n => GenLeaf (LNum n)
  | JStr s => GenLeaf (LStr s)
  | JArr l => GenNode 0 (json_tree <$> l)
  | JObj l => GenNode 1 ((λ p, GenNode 2 [GenLeaf (LStr p.1); json_tree p.2]) <$> l)
  end.
Fixpoint tree_json (t : gen_tree leaf) : json :=
  match t with
  | GenLeaf LNull => JNull
  | GenLeaf (LBool b) => JBool b
  | GenLeaf (LNum n) => JNum n
  | GenLeaf (LStr s) => JStr s
  | GenNode 0 l => JArr (tree_json <$> l)
  | GenNode _ l => JObj (omap (λ t, match t with
      | GenNode _ [GenLeaf (LStr k); v] => Some (k, tree_json v)
      | _ => None end) l)
  end.
Lemma tree_json_tree n : ∀ v, json_size v ≤ n → tree_json (json_tree v) = v.
Proof.
  induction n as [|n IH]; intros v Hn; [destruct v; simpl in Hn; lia|].
  destruct v as [| | | |l|l]; try done; cbn [json_tree tree_json]; f_equal.
  - simpl in Hn. apply le_S_n in Hn. induction l as [|x l IHl]; [done|].
    rewrite fmap_cons in Hn. simpl in Hn. rewrite !fmap_cons, IH, IHl by lia. done.
  - simpl in Hn. apply le_S_n in Hn. induction l as [|[k x] l IHl]; [done|].
    rewrite fmap_cons in Hn. simpl in Hn. rewrite fmap_cons. simpl.
    rewrite IH by lia. f_equal. apply IHl. lia.
Qed.
Definition coded_text (v : json) : string := bits_text (encode (json_tree v)).
Definition coded_parse (text : string) : result string json :=
  ok_or "expected value" (p ← text_bits text; tree_json <$> decode p).

#[export] Instance coded_serde : SerdeJson := {
  Value := json;
  Value_Null := JNull; Value_Bool := JBool; Value_U64 := JNum; Value_String := JStr;
  Value_Array := JArr; Value_Object := @Value_Object json_serde;
  Value_as_str := @Value_as_str json_serde; Value_as_u64 := @Value_as_u64 json_serde;
  Value_as_array := @Value_as_array json_serde; Value_as_object := json_as_object;
  Value_get := @Value_get json_serde; to_vec := coded_text;
}.
#[export] Instance coded_serde_laws : SerdeJsonLaws.
Proof. by destruct json_serde_laws; split. Qed.
#[export] Instance coded_json_parse : JsonParse := coded_parse.
#[export] Instance coded_json_parse_laws : JsonParseLaws.
Proof.
  intros v. change (coded_parse (coded_text v) = Ok v). unfold coded_parse, coded_text.
  rewrite text_bits_text. simpl. rewrite decode_encode. simpl.
  by rewrite (tree_json_tree (json_size v)).
Qed.
#[export] Instance coded_approval : Serde ApprovalRequest := {
  to_value := @to_value json_serde _ _; from_value := @from_value json_serde _ _ }.
#[export] Instance coded_class : Serde ActionClass := {
  to_value := @to_value json_serde _ _; from_value := @from_value json_serde _ _ }.
End CodedJson.

(** ** A world in which everything succeeds *)
Module ServiceExamples.
Import Json RecoveryExamples RedactionExamples BlobExamples RecoveryPackageExamples LifecycleExamples CodedJson.

Definition ex_capability (p : ProviderId) : AgentCapabilityReport := {|
  AgentCapabilityReport_provider := p; AgentCapabilityReport_agent := ProviderId_as_str p;
  AgentCapabilityReport_version := None; AgentCapabilityReport_install_state := Installed;
  AgentCapabilityReport_capability := {|
    Capability_structured_events := true; Capability_resume := true; Capability_approval := true;
    Capability_safe_pause := true; Capability_terminal_fallback := false |};
  AgentCapabilityReport_unavailable_reason := None; AgentCapabilityReport_executable_hash := None;
  AgentCapabilityReport_configuration_source := None |}.
#[export] Instance ex_env : ServiceEnv := {
  env_open _ := Ok tt; env_quick_check _ := "ok"; env_recovery_store _ := Ok tt;
  env_probe _ p := Ok (ex_capability p);
  env_start _ r := Ok ("run-" +:+ uuid_to_string (StartAgentRequest_mission_id r));
  env_control _ := Ok tt; env_terminate _ := Ok tt; env_now_ms _ := 0%Z; env_now _ := 0%Z;
  env_fresh n := (1000 + N.of_nat n)%N;
}.

(** Requests are read field by field; the other types are not read. *)
Definition ex_request_of (v : json) : MissionCommandRequest :=
  let text k := Value_get v k ≫= Value_as_str in
  let num k := Value_get v k ≫= Value_as_u64 in
  {| Request_provider := text "provider" ≫= λ p, result_ok (ProviderId_from_str p);
     Request_target_provider := None; Request_loadout := None;
     Request_mission_id := text "missionId"; Request_route_id := text "routeId";
     Request_expected_version := num "expectedVersion"; Request_project_root := text "projectRoot";
     Request_goal := text "goal"; Request_reason := text "reason";
     Request_confirmation_token := text "confirmationToken";
     Request_approval_id := text "approvalId"; Request_approval_decision := text "approvalDecision";
     Request_approval_scope := None; Request_action_digest := text "actionDigest";
     Request_expected_revision := num "expectedRevision"; Request_now_ms := None;
     Request_loadout_fingerprint := text "loadoutFingerprint"; Request_resume_token := None;
     Request_checkpoint_id := None; Request_contract_version := num "contractVersion";
     Request_ledger_sequence := None; Request_context_pack_hash := None;
     Request_pending_approval_hash := None; Request_memory_id := None;
     Request_memory_decision := None; Request_project_limit_bytes := None;
     Request_global_limit_bytes := None; Request_recovery_package := None;
     Request_recovery_decision := None;
     Request_budget := (λ n, {| MissionBudgetRequest_tokens := Some n;
       MissionBudgetRequest_money_micros := None; MissionBudgetRequest_wall_clock_ms := None;
       MissionBudgetRequest_changed_lines := None; MissionBudgetRequest_changed_files := None;
       MissionBudgetRequest_model_calls := None |}) <$> num "budgetTokens"; Request_impact_hash := None;
     Request_archive_plan := None; Request_delete_plan := None |}.
#[export] Instance ex_request_serde : Serde MissionCommandRequest :=
  { to_value _ := JNull; from_value v := Ok (ex_request_of v) }.
#[export] Instance unread_serde T : Serde T | 100 := { to_value _ := JNull; from_value _ := Err "unread" }.

Definition ex_do : MissionService → service_event → MissionService := service_do (λ _, None) true.
Definition ex_run : MissionService → list service_event → MissionService := service_run (λ _, None) true.
Definition ex_new : MissionService := (MissionService_new EncryptedLedger_new ∅ 0 0 0).1.

Definition ex_mission (m : MissionId) : string * json := ("missionId", JStr (uuid_to_string m)).
Definition ex_route (m : MissionId) : string * json := ("routeId", JStr (uuid_to_string (m + 10)%N)).
Definition ex_create (m : MissionId) : service_event := SeCommand JNull "create_mission"
  (json_object [ex_mission m; ex_route m; ("goal", JStr "ship"); ("projectRoot", JStr "/p")]).
Definition ex_launch (m : MissionId) : service_event := SeCommand JNull "launch_route"
  (json_object [ex_mission m; ex_route m; ("projectRoot", JStr "/p"); ("loadoutFingerprint", JStr "f")]).
Definition ex_two : MissionService := ex_run ex_new [ex_create 1%N; ex_launch 1%N; ex_create 2%N; ex_launch 2%N].

(** Both agents ask under the number 0. *)
Definition ex_ask (m : MissionId) : AgentEvent := {|
  AgentEvent_event_id := (50 + m)%N; AgentEvent_agent_run_id := None;
  AgentEvent_event_kind := ApprovalRequested;
  AgentEvent_payload := json_object [("approval_id", JStr "0"); ("server_request_id", JNum 0);
    ("action_digest", JStr "d"); ("contract_version", JNum 1); ("loadout_fingerprint", JStr "f")];
  AgentEvent_requires_safe_pause := true; AgentEvent_raw_evidence := None |}.
Definition ex_asked_events : list service_event :=
  [ex_create 1%N; ex_launch 1%N; ex_create 2%N; ex_launch 2%N;
   SeAgent 0 (ex_ask 1%N) (from_millis 0); SeAgent 1 (ex_ask 2%N) (from_millis 0)].
Definition ex_asked : MissionService := ex_run ex_new ex_asked_events.
Definition ex_approve (m : MissionId) : json := json_object [ex_mission m; ex_route m;
  ("approvalId", JStr "0"); ("approvalDecision", JStr "approve-once");
  ("actionDigest", JStr "d"); ("contractVersion", JNum 1); ("loadoutFingerprint", JStr "f");
  ("expectedRevision", JNum 0)].

Lemma new_stored : stored_inv EncryptedLedger_new.
Proof. apply stored_reach_inv, stored_new. Qed.
Lemma service_invariant_witness :
  length (MissionService_calls ex_asked) = 6 ∧ service_inv ex_asked.
Proof.
  split; [vm_compute; reflexivity|].
  unfold ex_asked, ex_run, ex_new.
  apply (service_invariant (λ _, None) true EncryptedLedger_new ∅ 0 0 0 ex_asked_events new_stored).
Defined.

(** Resolving the approval of mission 1 leaves mission 2 alone. *)
Lemma asked_inv : service_inv ex_asked.
Proof.
  unfold ex_asked, ex_run, ex_new, MissionService_new.
  apply service_run_inv; [exact _..|]. apply restore_existing_keeps, initial_inv, new_stored.
Qed.
Lemma missions_isolated_witness :
  let ev := SeCommand JNull "resolve_approval" (ex_approve 1%N) in
  length (EncryptedLedger_events (MissionService_database (ex_do ex_asked ev))) = 13 ∧
  replay_events 2%N (MissionService_database (ex_do ex_asked ev)) =
    replay_events 2%N (MissionService_database ex_asked) ∧
  active_run_id 2%N (ex_do ex_asked ev) = active_run_id 2%N ex_asked.
Proof.
  intros ev. split; [vm_compute; reflexivity|].
  destruct (missions_isolated (λ _, None) true ex_asked ev 1%N 2%N asked_inv) as (Hr&_&_&Ha&_).
  - exists (ex_request_of (ex_approve 1%N)). split; [reflexivity|vm_compute; reflexivity].
  - discriminate.
  - exact (conj Hr Ha).
Defined.

(** A termination that the user confirmed. *)
Definition ex_on (command : string) (m : MissionId) (more : list (string * json)) : service_event :=
  SeCommand JNull command (json_object (ex_mission m :: more)).
Definition ex_stopping : MissionService :=
  ex_run ex_two [ex_on "request_safe_pause" 1%N []; ex_on "request_force_termination" 1%N []].
Definition ex_stop : service_event :=
  ex_on "force_terminate" 1%N [("confirmationToken", JStr "pause-force-1")].
Definition ex_terminate : AdapterCall := CallTerminate Codex ("run-" +:+ uuid_to_string 1%N).
Definition is_ex_terminate (c : AdapterCall) : bool :=
  match c with
  | CallTerminate Codex run => str_eqb run ("run-" +:+ uuid_to_string 1%N)
  | _ => false
  end.
Lemma ex_terminate_in l : existsb is_ex_terminate l = true ↔ ex_terminate ∈ l.
Proof.
  rewrite existsb_exists. setoid_rewrite <-list_elem_of_In. split.
  - intros (c&Hc&Ht). destruct c as [| | |[] run|]; try done. simpl in Ht. guards. by subst.
  - intros Hin. eexists. split; [exact Hin|]. apply String.eqb_refl.
Qed.
Lemma termination_needs_token_witness :
  ∃ cc value request, ex_stop = SeCommand cc "force_terminate" value ∧
    from_value value = Ok request ∧ confirmed_termination request ex_stopping ex_terminate.
Proof.
  assert (existsb is_ex_terminate (MissionService_calls (ex_do ex_stopping ex_stop)) = true) as Hyes
    by (vm_compute; reflexivity).
  assert (existsb is_ex_terminate (MissionService_calls ex_stopping) = false) as Hno
    by (vm_compute; reflexivity).
  destruct (termination_needs_token (λ _, None) true ex_stopping ex_stop Codex
    ("run-" +:+ uuid_to_string 1%N)) as [Hin|Hex]; [|exfalso|exact Hex].
  - by apply ex_terminate_in.
  - apply ex_terminate_in in Hin. congruence.
Defined.

Lemma ui_disconnect_pauses_all_witness :
  ∃ s', pause_for_ui_disconnect ex_two = (s', Ok tt) ∧
    ∀ k a, MissionService_missions s' !! k = Some a → is_running (MissionActor_pause a) = false.
Proof.
  destruct (ui_disconnect_pauses_all ex_two) as (s'&E&_&Hq&_).
  exact (ex_intro _ s' (conj E (λ k a Ha, proj2 (Hq k a Ha)))).
Defined.

(** Mission 1's approval is resolved; the agent of mission 2 is answered. *)
Definition ex_consumer (m : MissionId) : Consumer := {| Consumer_mission_id := m;
  Consumer_run_id := "run-" +:+ uuid_to_string m; Consumer_provider := Codex;
  Consumer_previous_tokens := 0 |}.
Lemma answer_goes_to_last_asker_witness :
  ∃ s', MissionService_calls s' = MissionService_calls ex_asked ++
    [CallRespond Codex ("run-" +:+ uuid_to_string 2%N) (JNum 0) "accept"].
Proof.
  set (request := ex_request_of (ex_approve 1%N)).
  set (noted := (note_server_request (ex_consumer 2%N) (ex_ask 2%N)
    (note_server_request (ex_consumer 1%N) (ex_ask 1%N) ex_asked).1).1).
  assert (is_ok (svc_resolve_approval request noted).2 = true) as Hok by (vm_compute; reflexivity).
  destruct (svc_resolve_approval request noted) as [s' [res|e]] eqn:Hr; [|discriminate Hok].
  destruct (answer_goes_to_last_asker ex_asked (ex_consumer 1%N) (ex_consumer 2%N) (ex_ask 1%N)
    (ex_ask 2%N) "0" (JNum 0) (JNum 0) request s' res eq_refl eq_refl eq_refl Hr) as [Hc _].
  exact (ex_intro _ s' Hc).
Defined.

(** A mission with a budget of 5 tokens. *)
Definition ex_frugal : MissionCommandRequest :=
  ex_request_of (json_object [("goal", JStr "ship"); ("projectRoot", JStr "/p"); ("budgetTokens", JNum 5)]).
Lemma new_inv : service_inv ex_new.
Proof. unfold ex_new, MissionService_new. apply restore_existing_keeps, initial_inv, new_stored. Qed.
Lemma restart_forgets_budget_witness :
  ∃ s' tracker events, MissionService_budgets s' !! uuid_to_string 3%N = Some tracker ∧
    BudgetLimits_tokens (BudgetTracker_limits tracker) = 5%Z ∧
    replay_events 3%N (MissionService_database s') = Ok events ∧
    BudgetLimits_tokens (limits_from_events events) = 100000%Z.
Proof.
  assert (is_ok (create_as 3%N 13%N ex_frugal ex_new).2 = true) as Hok by (vm_compute; reflexivity).
  destruct (create_as 3%N 13%N ex_frugal ex_new) as [s' [res|e]] eqn:Hc; [|discriminate Hok].
  destruct (restart_forgets_budget 3%N 13%N ex_frugal ex_new s' res new_inv Hc)
    as (Hb&events&Hr&_&Hl).
  exists s'. eexists. exists events. split; [exact Hb|]. split; [reflexivity|].
  split; [exact Hr|]. rewrite Hl. reflexivity.
Defined.
End ServiceExamples.
