(* ===== verification/DurableActor.v ===== *)
(** * Crash recovery on the encrypted ledger

    The actor of [MissionActor] on the ledger of [Ledger].  That ledger can
    refuse an event, redacts what it stores and drops what its table has no
    column for, so it does not keep the promise [ActorLedgerLaws] makes to
    the letter.  It keeps what a rebuild reads: as long as it accepts the
    events, and redaction finds nothing to hide in the fields a rebuild reads,
    the actor rebuilt from the database agrees with the one that was lost. *)

From S2P Require Import Prelude Extern Ids Event PolicyEngine Approval Budget Envelope Ordering.
From S2P Require Import Command AdapterCore ProcessTree Pause MissionActor ActorRecovery ActorLockstep.
From S2P Require Import BlobStore RecoveryPackage Redaction Ledger Lifecycle.
From S2P Require Import Service ServiceProofs ServiceExamples.
From Stdlib Require Import ZArith Lia.
From stdpp Require Import prelude gmap strings pretty.

(** The fields of a payload a rebuild reads. *)
Definition read_fields : list string := ["approval"; "status"; "reason"].

(** [e'] looks to a rebuild like [e]. *)
Record sees `{SerdeJson} (e e' : EventEnvelope) : Prop := {
  sees_sequence : EventEnvelope_sequence e' = EventEnvelope_sequence e;
  sees_kind : EventEnvelope_kind e' = EventEnvelope_kind e;
  sees_payload k : k ∈ read_fields →
    Value_get (EventEnvelope_payload e') k = Value_get (EventEnvelope_payload e) k;
}.
#[export] Instance sees_refl `{SerdeJson} : Reflexive sees.
Proof. by intros e; split. Qed.

Section rebuild.
Context `{SerdeJson, Sha256, UuidText, !Serde ApprovalRequest}.

Lemma sees_collect es es' : Forall2 sees es es' →
  ∀ acc, collect_approvals acc es' = collect_approvals acc es.
Proof.
  induction 1 as [|e e' es es' [Hs Hk Hp] _ IH]; intros acc; [done|]. simpl.
  unfold approval_of_event. rewrite Hs, Hk, Hp, IH by (unfold read_fields; set_solver).
  destruct (is_approval_event _); [|done]. destruct (ok_or _ _) as [v|err]; simpl; [|done].
  destruct (map_err _ _); [|done]. apply IH.
Qed.
Lemma sees_foldl {A} (f : A → EventEnvelope → A) es es' :
  (∀ x e e', sees e e' → f x e' = f x e) → Forall2 sees es es' →
  ∀ x, foldl f x es' = foldl f x es.
Proof. intros Hf. induction 1 as [|e e' es es' He _ IH]; intros x; simpl; [done|]. by rewrite (Hf x e e'). Qed.
Lemma sees_pause x e e' : sees e e' → pause_event x e' = pause_event x e.
Proof. intros [Hs Hk Hp]. unfold pause_event.
  rewrite Hk, (Hp "reason") by (unfold read_fields; set_solver). done. Qed.
Lemma sees_recovery x e e' : sees e e' → recovery_event x e' = recovery_event x e.
Proof. intros [Hs Hk Hp]. unfold recovery_event.
  rewrite Hk, (Hp "status") by (unfold read_fields; set_solver). done. Qed.

Lemma sees_filter n es es' : Forall2 sees es es' →
  Forall2 sees (filter (λ e, (n < EventEnvelope_sequence e)%Z) es)
    (filter (λ e, (n < EventEnvelope_sequence e)%Z) es').
Proof.
  induction 1 as [|e e' es es' He _ IH]; [done|]. rewrite !filter_cons.
  rewrite (sees_sequence _ _ He). by case_decide; [constructor|].
Qed.

(** Two ledgers whose replays look the same rebuild the same actor. *)
Lemma try_new_fresh `{!ActorLedger L} mid rid (l : L) a : MissionActor_try_new mid rid l = Ok a →
  MissionActor_process_tree a = OwnedProcessTree_new ∧
  MissionActor_ui_connected a = is_running (MissionActor_pause a) && negb (MissionActor_requires_recovery a).
Proof. unfold MissionActor_try_new. intros Ha. bind_inv Ha. by injection Ha as <-. Qed.
Lemma sees_try_new `{!ActorLedger L1, !ActorLedger L2} mid rid (l1 : L1) (l2 : L2) a :
  Forall2 sees (replay_after l1 mid 0%Z) (replay_after l2 mid 0%Z) →
  MissionActor_try_new mid rid l1 = Ok a → MissionActor_try_new mid rid l2 = Ok (on_ledger l2 a).
Proof.
  intros Hs. unfold MissionActor_try_new, latest_sequence, replay_approvals.
  rewrite (sees_collect _ _ Hs).
  assert (EventEnvelope_sequence <$> replay_after l2 mid 0%Z =
          EventEnvelope_sequence <$> replay_after l1 mid 0%Z) as ->.
  { clear -Hs. induction Hs as [|e e' es es' [Hq _ _] _ IH]; csimpl; [done|]. by rewrite Hq, IH. }
  unfold PauseController_from_events, recovery_required.
  rewrite (sees_foldl _ _ _ sees_pause Hs), (sees_foldl _ _ _ sees_recovery Hs).
  destruct (collect_approvals ∅ _); simpl; [|done]. by intros [= <-].
Qed.
End rebuild.

(** ** The ledger keeps what a rebuild reads *)
Section encrypted.
Context `{SerdeJson, Sha256, UuidText, RegexCrate, !JsonParse, !UuidTextLaws}.
Context `{!DisplayFmt LedgerError}.

#[export] Instance encrypted_ledger_inhabited : Inhabited EncryptedLedger :=
  populate EncryptedLedger_new.

(** Events that redaction and the table's columns leave as a rebuild reads
    them: nothing to hide in the fields it reads, a kind that its text gives
    back. *)
Record faithful (redactor : Redactor) (e : EventEnvelope) : Prop := {
  faithful_storable : storable redactor e;
  faithful_payload p k : redact redactor (EventEnvelope_payload e) = Ok p → k ∈ read_fields →
    Value_get p k = Value_get (EventEnvelope_payload e) k;
  faithful_kind : EventKind_visit_str (EventKind_as_str (EventEnvelope_kind e)) =
    EventEnvelope_kind e;
}.

Lemma append_event_Ok e (l l2 : EncryptedLedger) :
  append_event e l = (l2, Ok tt) → encrypted_append e l = (l2, Ok tt).
Proof.
  simpl. destruct (encrypted_append e l) as [l' [[]|err]]; simpl; intros He; by simplify_eq.
Qed.
Lemma append_redactor e l : EncryptedLedger_redactor (encrypted_append e l).1 = EncryptedLedger_redactor l.
Proof. unfold encrypted_append. by destruct (mbind _ _). Qed.

(** A mission replays events numbered from one, within the column's range. *)
Lemma replay_numbered m l :
  rows_inv (EncryptedLedger_events l) →
  ∃ es, replay_events m l = Ok es ∧
    EventEnvelope_sequence <$> es = Z.of_nat <$> seq 1 (length es) ∧
    (Z.of_nat (length es) ≤ i64_max)%Z.
Proof.
  intros Hinv. destruct (by_mission_events m _ Hinv) as (es&Hf&Hes). exists es.
  split; [exact Hes|]. pose proof (events_numbered _ _ _ Hinv Hf) as Hn. split; [exact Hn|].
  destruct (length es) as [|n] eqn:Hlen; [unfold i64_max; lia|].
  destruct (lookup_lt_is_Some_2 es n ltac:(lia)) as [e He].
  destruct (Forall2_lookup_r _ _ _ _ _ Hf He) as (row&_&Hre).
  assert (EventEnvelope_sequence e = Z.of_nat (S n)) as <-.
  { apply (f_equal (lookup n)) in Hn. rewrite !list_lookup_fmap, He, lookup_seq_lt in Hn by lia.
    by injection Hn. }
  rewrite <-(row_event_sequence _ _ Hre). apply Hre.
Qed.

Lemma ledger_keeps_events l new l2 : accepts l new l2 →
  ∀ m s s' es, rows_inv (EncryptedLedger_events l) → follows m s new s' →
    replay_events m l = Ok es → s = Z.of_nat (length es) →
    Forall (faithful (EncryptedLedger_redactor l)) new →
    rows_inv (EncryptedLedger_events l2) ∧
    ∃ es', replay_events m l2 = Ok (es ++ es') ∧ Forall2 sees new es'.
Proof.
  induction 1 as [|l e l1 new l2 He Hacc IH]; intros m s s' es Hinv Hf Hes Hs Hall.
  { split; [done|]. exists []. by rewrite app_nil_r. }
  apply append_event_Ok in He. inversion_clear Hf as [|? ? ? ? Hm Hseq Hf'].
  apply list.Forall_cons in Hall as [[Hst Hpay Hkind] Hall].
  assert (l1 = (encrypted_append e l).1) as Hl1 by by rewrite He.
  assert (rows_inv (EncryptedLedger_events l1)) as Hinv1
    by (rewrite Hl1; by apply encrypted_append_inv).
  rewrite <-(append_redactor e l), <-Hl1 in Hall.
  destruct (replay_numbered m l Hinv) as (?&Hes'&_&Hmax). rewrite Hes in Hes'. injection Hes' as <-.
  rewrite wrapping_add64_small in Hseq by (unfold i64_max, u64_max in *; lia).
  destruct (append_replays l e l1 Hinv Hst He) as (?&Hes'&Hnum&Hcase&_).
  rewrite Hm, Hes in Hes'. injection Hes' as <-.
  destruct Hcase as [(_&e0&He0&_&Hse0)|(payload&raw&Hp&_&Hes1&Hse)].
  - exfalso. apply (list_elem_of_fmap_2 EventEnvelope_sequence) in He0. rewrite Hnum in He0.
    apply list_elem_of_fmap in He0 as (n&Hn&Hin). apply elem_of_seq in Hin. lia.
  - rewrite Hm in Hes1.
    destruct (IH m _ s' _ Hinv1 Hf' Hes1) as (Hinv2&es'&Hr&Hsees); [|done|].
    { rewrite length_app. simpl. lia. }
    split; [done|]. exists (persisted e payload raw :: es').
    split; [by rewrite Hr, <-app_assoc|]. constructor; [|done]. split; [done|done|].
    intros k Hk. by apply Hpay.
Qed.
End encrypted.

Section recovery.
Context `{SerdeJson, Sha256, UuidText, RegexCrate, !JsonParse, HashSetOrder}.
Context `{!Serde ApprovalRequest, !Serde ActionClass}.
Context `{!DebugFmt PauseState, !DebugFmt BudgetDimension, !DebugFmt ActionClass}.
Context `{!HashOrder ApprovalRequest, !DisplayFmt LedgerError}.
Context `{!UuidTextLaws, !SerdeJsonLaws, !SerdeLaws ApprovalRequest, !HashOrderLaws ApprovalRequest}.
Context (event_ids : nat → EventId).

(** An actor rebuilt from a ledger counts from the number of its events. *)
Lemma try_new_sequence mid rid es a :
  EventEnvelope_sequence <$> es = Z.of_nat <$> seq 1 (length es) →
  MissionActor_try_new mid rid es = Ok a →
  MissionActor_sequence a = Z.of_nat (length es) ∧ MissionActor_mission_id a = mid ∧
  ∀ e, e ∈ es → (0 < EventEnvelope_sequence e)%Z.
Proof.
  intros Hn Ha. unfold MissionActor_try_new in Ha. bind_inv Ha. injection Ha as <-. simpl.
  assert (∀ e, e ∈ es → (0 < EventEnvelope_sequence e ≤ Z.of_nat (length es))%Z) as Hb.
  { intros e He%(list_elem_of_fmap_2 EventEnvelope_sequence). rewrite Hn in He.
    apply list_elem_of_fmap in He as (k&->&Hk%elem_of_seq). lia. }
  split; [|split; [done|intros; by apply Hb]]. unfold latest_sequence. simpl.
  rewrite filter_positive by (intros; by apply Hb). apply max_sequence_bound; [done| |lia].
  destruct (length es) as [|n] eqn:Hlen; [by left|right].
  destruct (lookup_lt_is_Some_2 es n ltac:(lia)) as [e He]. exists e.
  split; [by eapply list_elem_of_lookup_2|]. apply (f_equal (lookup n)) in Hn.
  rewrite !list_lookup_fmap, He, lookup_seq_lt in Hn by lia. by injection Hn.
Qed.

(** C5: crash recovery on the database the service uses, for well-behaved
    agents.  Take an actor rebuilt from a ledger that appends, archivals and
    deletions produced, and drive it with calls in which ([calls_ok]) every
    event recorded for the service is of a kind that is neutral to recovery,
    and every event of an agent is either neutral or a request for an approval
    that can be bound to this mission; stop it anywhere.  If the database
    accepted the events the calls emit, and redaction left the fields a rebuild
    reads, the actor is rebuilt from the database with the same sequence
    number, approvals and need for recovery.  Of its pause state it keeps which
    one it is, except that a pause is acknowledged but has lost its reason and
    an open offer of termination is timed out and has lost its token; its
    process tree is empty, and it is connected only if it runs and needs no
    recovery.  The condition on the calls cannot be dropped
    ([unbindable_agent_approval_blocks_restart]). *)
Theorem encrypted_crash_recovery mid rid l0 a0 calls l :
  stored_reach l0 →
  MissionActor_try_new mid rid l0 = Ok a0 →
  calls_ok event_ids calls a0 = true →
  accepts l0 (emitted event_ids calls a0) l →
  Forall (faithful (EncryptedLedger_redactor l0)) (emitted event_ids calls a0) →
  let a := run_actor_calls event_ids calls a0 in
  MissionActor_ledger a = l ∧
  ∃ a', MissionActor_try_new mid rid l = Ok a' ∧
    MissionActor_sequence a' = MissionActor_sequence a ∧
    MissionActor_approvals a' = MissionActor_approvals a ∧
    MissionActor_requires_recovery a' = MissionActor_requires_recovery a ∧
    PauseController_state (MissionActor_pause a') =
      match PauseController_state (MissionActor_pause a) with
      | PPaused _ => PAcknowledged
      | PForceAvailable _ => PTimedOut
      | state => state
      end ∧
    MissionActor_process_tree a' = OwnedProcessTree_new ∧
    MissionActor_ui_connected a' =
      is_running (MissionActor_pause a') && negb (MissionActor_requires_recovery a').
Proof.
  intros [Hinv _ _]%stored_reach_inv Hnew Hok Hacc Hall a.
  pose proof (calls_ok_run event_ids a0 calls Hok) as Hrun. fold a in Hrun.
  destruct (replay_numbered mid l0 Hinv) as (es0&Hes0&Hnum&_).
  assert (MissionActor_ledger a0 = l0) as Hl0.
  { unfold MissionActor_try_new in Hnew. bind_inv Hnew. by injection Hnew as <-. }
  rewrite <-Hl0 in Hacc.
  destruct (actor_run_spec event_ids a0 a calls es0 Hrun l Hacc) as (Hl&Hspec).
  destruct (actor_refines_list event_ids calls a0 l Hacc) as (_&Hfol).
  assert (MissionActor_try_new mid rid es0 = Ok (on_ledger es0 a0)) as Hnew'.
  { apply (sees_try_new mid rid l0); [|done]. simpl. rewrite Hes0. simpl. by apply sees_filter. }
  destruct (try_new_sequence _ _ _ _ Hnum Hnew') as (Hseq&Hmid&Hpos). simpl in Hseq, Hmid.
  rewrite Hl0 in Hacc. rewrite Hmid in Hfol.
  destruct (ledger_keeps_events _ _ _ Hacc _ _ _ _ Hinv Hfol Hes0 Hseq Hall)
    as (Hinv2&es'&Hes2&Hsees).
  destruct (replay_numbered mid l Hinv2) as (?&Hes2'&_&Hmax).
  rewrite Hes2 in Hes2'. injection Hes2' as <-.
  split; [done|].
  pose proof (try_new_durable _ _ _ _ Hpos Hnew') as Hdur.
  destruct (keeps_run event_ids ltac:(done) (MissionActor_sequence (on_ledger es0 a0) -
    Z.of_nat (length (events_of (on_ledger es0 a0))))%Z _ _ _ Hspec) as (_&Hm&Hkeep).
  assert (length (es0 ++ emitted event_ids calls a0) = length (es0 ++ es')) as Hlen.
  { rewrite !length_app. by rewrite (Forall2_length _ _ _ Hsees). }
  specialize (Hkeep Hdur). unfold events_of in Hkeep. simpl in Hkeep.
  rewrite Hlen, Hseq in Hkeep. specialize (Hkeep ltac:(unfold i64_max, u64_max in *; lia)).
  destruct (durable_try_new rid _ _ Hkeep) as (b&Hb&B1&B2&B3&B4).
  simpl in Hm. cbn in Hb. rewrite Hm, Hmid in Hb.
  assert (MissionActor_try_new mid rid l = Ok (on_ledger l b)) as Hl'.
  2: { exists (on_ledger l b). destruct (try_new_fresh _ _ _ _ Hl') as [Htree Hui].
    split_and!; [done|exact B1|exact B2|exact B3| |exact Htree|exact Hui].
    simpl. rewrite B4. simpl. by destruct (PauseController_state (MissionActor_pause a)). }
  apply (sees_try_new mid rid (es0 ++ emitted event_ids calls a0)); [|done]. simpl. rewrite Hes2. simpl. apply sees_filter. by apply Forall2_app.
Qed.
End recovery.

(** ** A concrete mission on the encrypted ledger *)
Module DurableExamples.
Import Json RecoveryExamples RedactionExamples BlobExamples RecoveryPackageExamples.
Import LifecycleExamples CodedJson.

#[export] Instance coded_approval_laws : SerdeLaws ApprovalRequest.
Proof. exact json_serde_ApprovalRequest_laws. Qed.

(** Acceptance, computed. *)
Fixpoint accept_all (es : list EventEnvelope) (l : EncryptedLedger) : option EncryptedLedger :=
  match es with
  | [] => Some l
  | e :: es => match append_event e l with (l1, Ok _) => accept_all es l1 | _ => None end
  end.
Lemma accept_all_accepts es l l2 : accept_all es l = Some l2 → accepts l es l2.
Proof.
  revert l. induction es as [|e es IH]; intros l; cbn -[append_event].
  - intros [= <-]. constructor.
  - destruct (append_event e l) as [l1 [[]|]] eqn:He; [|done]. intros Hl. econstructor; [done|auto].
Qed.

Definition faithfulb (e : EventEnvelope) : bool :=
  (0 <=? EventEnvelope_sequence e)%Z && bool_decide (EventEnvelope_schema_version e = 1%Z)
  && bool_decide (EventEnvelope_occurred_at e = Timestamp_now)
  && bool_decide (EventKind_visit_str (EventKind_as_str (EventEnvelope_kind e)) =
                  EventEnvelope_kind e)
  && match redact Redactor_default (EventEnvelope_payload e) with
     | Ok p => forallb (λ k, bool_decide (Value_get p k = Value_get (EventEnvelope_payload e) k))
                 read_fields
     | Err _ => true
     end.
Lemma faithfulb_faithful e : faithfulb e = true → faithful Redactor_default e.
Proof.
  unfold faithfulb. intros Hb. guards.
  match goal with Ht : EventEnvelope_occurred_at e = _, Hv : EventEnvelope_schema_version e = _ |- _ =>
    split; [split|..]; rewrite ?Ht, ?Hv; try done end.
  - intros p _. apply value_from_to_vec.
  - intros v p _ _. apply value_from_to_vec.
  - intros p k Hp Hk. rewrite Hp in *.
    match goal with Hf : forallb _ _ = true |- _ => rewrite forallb_forall in Hf;
      specialize (Hf k (proj1 (list_elem_of_In _ _) Hk)) end.
    by guards.
Qed.

Definition du_first : EventEnvelope :=
  EventEnvelope_new 50%N 1%N 2%N 1%Z ContractUpdated (json_object [("goal", JStr "ship")]).
Definition du_start : EncryptedLedger := (encrypted_append du_first EncryptedLedger_new).1.
Definition du_actor : MissionActor EncryptedLedger :=
  match MissionActor_try_new 1%N 2%N du_start with Ok a => a | Err _ => on_ledger du_start ex_start end.
(** A run starts, an action is gated, the user pauses and asks for a forced
    termination: the event that offers it has a field redaction hides. *)
Definition du_calls : list actor_call :=
  [AcRecord AgentRunStarted (JNull : Value);
   AcGate {| PolicyContext_driving_mode := Contract.Manual;
             PolicyContext_autopilot_allowed_actions := [] |}
     {| ActionIntent_class := AGitPush; ActionIntent_origin := OriginSupervisor;
        ActionIntent_planned := true; ActionIntent_within_allowed_paths := true;
        ActionIntent_deviation := DeviationNone;
        ActionIntent_evidence := {| ActionEvidence_event_id := "e";
                                    ActionEvidence_action_digest := "d" |} |}
     (Some ex_request);
   AcPause "user"; AcForceRequest].
Definition du_end : MissionActor EncryptedLedger := run_actor_calls ex_ids du_calls du_actor.

Lemma encrypted_crash_recovery_witness :
  MissionActor_requires_recovery du_end = true ∧
  ∃ a', MissionActor_try_new 1%N 2%N (MissionActor_ledger du_end) = Ok a' ∧
    MissionActor_approvals a' = MissionActor_approvals du_end ∧
    PauseController_state (MissionActor_pause a') = PTimedOut.
Proof.
  split; [vm_compute; reflexivity|].
  destruct (accept_all (emitted ex_ids du_calls du_actor) du_start) as [l|] eqn:Hacc;
    [|exfalso; vm_compute in Hacc; discriminate].
  destruct (encrypted_crash_recovery ex_ids 1%N 2%N du_start du_actor du_calls l)
    as (Hl&a'&Ha&_&Hap&_&Hp&_).
  - apply stored_append; [constructor|]. apply faithfulb_faithful. vm_compute. reflexivity.
  - vm_compute. reflexivity.
  - vm_compute. reflexivity.
  - by apply accept_all_accepts.
  - apply Forall_forall. intros e He. apply faithfulb_faithful.
    assert (forallb faithfulb (emitted ex_ids du_calls du_actor) = true) as Hall
      by (vm_compute; reflexivity).
    rewrite forallb_forall in Hall. exact (Hall e (proj1 (list_elem_of_In _ _) He)).
  - fold du_end in Hl, Hap, Hp. exists a'. rewrite Hl. split; [exact Ha|]. split; [exact Hap|]. rewrite Hp. vm_compute. reflexivity.
Defined.
End DurableExamples.
