(* ===== verification/Normalize.v ===== *)
(** * From the lines of an agent to events ([crates/adapter-codex/src/native.rs],
    [crates/adapter-codex/src/normalize.rs], [crates/adapter-codex/src/process.rs],
    [crates/adapter-claude/src/native.rs], [crates/adapter-claude/src/normalize.rs],
    [crates/adapter-claude/src/loadout.rs])

    What the two adapters make of a line their agent printed: the native
    event it parses to, the normalised event, whether the run must pause, and
    the approval requests of Codex.  The event identifier is an argument. *)

From S2P Require Import Prelude Extern Ids Event Approval Budget AdapterCore Redaction Ledger MissionActor.
From S2P Require Import RecoveryPackage ServiceData Service ServiceExamples.
From Stdlib Require Import ZArith Lia.
From stdpp Require Import prelude gmap strings pretty.

Section normalize.
Context `{SerdeJson, Sha256, RegexCrate, !JsonParse}.

(** ** Codex: native events *)
Record NativeEvent := {
  NativeEvent_event_type : string;
  NativeEvent_id : option string;
  NativeEvent_fields : gmap string Value;
}.
Inductive NativeParseError :=
| NotObject | MissingType | NativeJson (error : string) | NativeLimitExceeded.

Definition raw_value (self : NativeEvent) : Value :=
  let object := <["type" := Value_String (NativeEvent_event_type self)]> (NativeEvent_fields self) in
  Value_Object (match NativeEvent_id self with
                | Some id => <["id" := Value_String id]> object
                | None => object
                end).

(** [json_depth(value) <= n]. *)
Fixpoint json_depth_le (n : nat) (value : Value) : bool :=
  let within (values : list Value) : bool :=
    match n with O => false | S n => forallb (json_depth_le n) values end in
  match Value_as_array value with
  | Some values => within values
  | None =>
      match Value_as_object value with
      | Some object => within (map_to_list object).*2
      | None => true
      end
  end.

Definition get_or (object : gmap string Value) (key other : string) : option Value :=
  match object !! key with Some v => Some v | None => object !! other end.
Definition parse_native_line (line : string) : result NativeParseError NativeEvent :=
  if (4 * 1024 * 1024 <? str_len line)%Z then Err NativeLimitExceeded else
  value ← map_err NativeJson (value_from_str line);
  if negb (json_depth_le 64 value) then Err NativeLimitExceeded else
  object ← ok_or NotObject (Value_as_object value);
  event_type ← ok_or MissingType (get_or object "type" "method" ≫= Value_as_str);
  if str_eqb event_type "" || (256 <? str_len event_type)%Z then Err NativeLimitExceeded else
  let fields := delete "type" object in
  Ok {| NativeEvent_event_type := event_type;
        NativeEvent_id := fields !! "id" ≫= Value_as_str;
        NativeEvent_fields := delete "id" fields |}.

(** ** Codex: normalised events *)
Record NormalizedEvent := {
  NormalizedEvent_native_type : string;
  NormalizedEvent_adapter_version : string;
  NormalizedEvent_confidence : string;
  NormalizedEvent_event : AgentEvent;
}.
(** [CodexNormalizer::default().adapter_version]. *)
Definition codex_adapter_version : string := "codex-app-server-v1".

Definition one_of (texts : list string) (s : string) : bool := existsb (str_eqb s) texts.
Definition approval_types : list string :=
  ["item/commandExecution/requestApproval"; "item/fileChange/requestApproval";
   "item/permissions/requestApproval"; "item/tool/requestUserInput";
   "mcpServer/elicitation/request"; "execCommandApproval"; "applyPatchApproval"].
Definition codex_requires_pause (event_type : string) : bool :=
  one_of (approval_types ++ ["error"]) event_type
  || ends_with event_type "/aborted" || ends_with event_type "/failed"
  || existsb (starts_with event_type) ["unknown/"; "tool/"; "command/"; "exec/"; "write/"].
Definition codex_kind (event_type : string) : EventKind :=
  if one_of ["thread/started"; "turn/started"] event_type then AgentRunStarted
  else if str_eqb event_type "turn/completed" then AgentRunCompleted
  else if str_eqb event_type "error" then AgentRunAborted
  else if one_of ["item/started"; "item/completed"; "item/agentMessage/delta"] event_type
  then AgentMessage
  else if str_eqb event_type "turn/diff/updated" then EvidenceRecorded
  else if str_eqb event_type "thread/tokenUsage/updated" then AgentMessage
  else if str_eqb event_type "warning" then UnknownKind "warning"
  else if one_of approval_types event_type then ApprovalRequested
  else UnknownKind event_type.

(** [object.get(a).and_then(Value::as_object).and_then(|x| x.get(b))]. *)
Definition nested (object : gmap string Value) (a b : string) : option Value :=
  inner ← object !! a ≫= Value_as_object; (inner : gmap string Value) !! b.
Definition nested2 (object : gmap string Value) (a b c : string) : option Value :=
  inner ← nested object a b ≫= Value_as_object; (inner : gmap string Value) !! c.
Definition or_else {A} (a b : option A) : option A := match a with Some _ => a | None => b end.

Definition codex_field (object : gmap string Value) (key : string) : option Value :=
  or_else (or_else (object !! key) (nested object "params" key))
    (if str_eqb key "turnId"
     then or_else (nested object "turn" "id") (nested2 object "params" "turn" "id")
     else None).
Definition set_field (key : string) (value : option Value) (payload : gmap string Value)
    : gmap string Value :=
  match value with Some v => <[key := v]> payload | None => payload end.
Definition codex_payload (event_type : string) (raw : Value) : Value :=
  let payload : gmap string Value :=
    list_to_map [("native_type", Value_String event_type); ("data", raw)] in
  Value_Object (match Value_as_object raw with
  | None => payload
  | Some object =>
      let payload := foldl (λ payload key, set_field key (codex_field object key) payload) payload
        ["threadId"; "turnId"; "itemId"; "tokenUsage"; "delta"] in
      set_field "status" (or_else (object !! "status") (nested2 object "params" "turn" "status"))
        payload
  end).

Definition adapter_limit : string := "[REDACTED:adapter-limit]".
Definition codex_redact_value (value : Value) : Value :=
  match redact_event Redactor_default value with
  | Ok result => RedactionResult_value result
  | Err _ => Value_String adapter_limit
  end.
Definition codex_redact_text (text : string) : string :=
  default adapter_limit (
    result ← result_ok (redact_event Redactor_default (Value_String text));
    Value_as_str (RedactionResult_value result)).

Definition codex_normalize (event_id : EventId) (native : NativeEvent) : NormalizedEvent :=
  let raw := codex_redact_value (raw_value native) in
  let event_type := NativeEvent_event_type native in
  {| NormalizedEvent_native_type := event_type;
     NormalizedEvent_adapter_version := codex_adapter_version;
     NormalizedEvent_confidence := "observed";
     NormalizedEvent_event := {|
       AgentEvent_event_id := event_id; AgentEvent_agent_run_id := None;
       AgentEvent_event_kind := codex_kind event_type;
       AgentEvent_payload := codex_payload event_type raw;
       AgentEvent_requires_safe_pause := codex_requires_pause event_type;
       AgentEvent_raw_evidence := Some raw |} |}.
Definition codex_normalize_line (event_id : EventId) (line : string)
    : result NativeParseError NormalizedEvent :=
  native ← parse_native_line line; Ok (codex_normalize event_id native).
Definition codex_normalize_line_lossless `{!DisplayFmt NativeParseError} (event_id : EventId)
    (line : string) : NormalizedEvent :=
  match codex_normalize_line event_id line with
  | Ok event => event
  | Err error => {|
      NormalizedEvent_native_type := "adapter.protocol_warning";
      NormalizedEvent_adapter_version := codex_adapter_version;
      NormalizedEvent_confidence := "observed";
      NormalizedEvent_event := {|
        AgentEvent_event_id := event_id; AgentEvent_agent_run_id := None;
        AgentEvent_event_kind := UnknownKind "adapter.protocol_warning";
        AgentEvent_payload := json_object [("error", Value_String (display_fmt error));
          ("raw_line", Value_String (codex_redact_text line))];
        AgentEvent_requires_safe_pause := true;
        AgentEvent_raw_evidence :=
          Some (json_object [("raw_line", Value_String (codex_redact_text line))]) |} |}
  end.

(** *** Approval requests of a running Codex *)
Definition rpc_id_key (id : Value) : string := default (to_vec id) (Value_as_str id).
Definition is_approval_method (method : string) : bool := one_of approval_types method.
Definition action_class_for_method (method : string) : string :=
  if one_of ["item/commandExecution/requestApproval"; "execCommandApproval"] method then "exec"
  else if one_of ["item/fileChange/requestApproval"; "applyPatchApproval"] method then "write"
  else if str_eqb method "item/permissions/requestApproval" then "permission"
  else if one_of ["item/tool/requestUserInput"; "mcpServer/elicitation/request"; "requestUserInput"] method
  then "input" else "write".
(** The event for a server request, when the line is one. *)
Definition codex_approval_event (event_id : EventId) (run_id : string) (contract_version : u64)
    (loadout_fingerprint : string) (value : Value) : option AgentEvent :=
  request_id ← Value_get value "id";
  method ← Value_get value "method" ≫= Value_as_str;
  if negb (is_approval_method method) then None else
  let key := rpc_id_key request_id in
  Some {| AgentEvent_event_id := event_id; AgentEvent_agent_run_id := Some run_id;
    AgentEvent_event_kind := ApprovalRequested;
    AgentEvent_payload := json_object
      [("server_request_id", request_id); ("approval_id", Value_String key);
       ("method", Value_String method);
       ("params", default Value_Null (Value_get value "params"));
       ("action_digest", Value_String ("protocol:" +:+ method +:+ ":" +:+ key));
       ("action_class", Value_String (action_class_for_method method));
       ("contract_version", Value_U64 contract_version);
       ("loadout_fingerprint", Value_String loadout_fingerprint)];
    AgentEvent_requires_safe_pause := true; AgentEvent_raw_evidence := Some value |}.
(** The parameters of [thread/resume] and [thread/start]. *)
Definition thread_request (request : StartAgentRequest) : string * Value :=
  let model := match StartAgentRequest_model request with
               | Some m => Value_String m | None => Value_Null end in
  let cwd := ("cwd", Value_String (StartAgentRequest_route_workspace request)) in
  match StartAgentRequest_resume_thread_id request with
  | Some thread_id => ("thread/resume",
      json_object [("threadId", Value_String thread_id); cwd; ("model", model)])
  | None => ("thread/start", json_object [cwd; ("model", model);
      ("sandbox", Value_String (if StartAgentRequest_read_only request
                                then "read-only" else "workspace-write"))])
  end.

(** ** Claude *)
Record ClaudeNativeEvent := {
  ClaudeNativeEvent_event_type : string;
  ClaudeNativeEvent_raw : Value;
}.
Inductive ClaudeParseError :=
| ClaudeEmpty | ClaudeInvalidJson (error : string) | ClaudeNotObject | ClaudeMissingType.
Definition parse_stream_line (line : string) : result ClaudeParseError ClaudeNativeEvent :=
  if blank line then Err ClaudeEmpty else
  raw ← map_err ClaudeInvalidJson (value_from_str line);
  object ← ok_or ClaudeNotObject (Value_as_object raw);
  event_type ← ok_or ClaudeMissingType
    (text ← (object : gmap string Value) !! "type" ≫= Value_as_str;
     if negb (str_eqb text "") then Some text else None);
  Ok {| ClaudeNativeEvent_event_type := event_type; ClaudeNativeEvent_raw := raw |}.

Record ClaudeUsage := {
  ClaudeUsage_input_tokens : u64;
  ClaudeUsage_output_tokens : u64;
  ClaudeUsage_cache_read_input_tokens : u64;
  ClaudeUsage_cache_creation_input_tokens : u64;
}.
Record ClaudeNormalizedEvent := {
  ClaudeNormalizedEvent_native_type : string;
  ClaudeNormalizedEvent_adapter_version : string;
  ClaudeNormalizedEvent_confidence : string;
  ClaudeNormalizedEvent_event : AgentEvent;
  ClaudeNormalizedEvent_terminal : bool;
  ClaudeNormalizedEvent_usage : option ClaudeUsage;
}.
Definition claude_adapter_version : string := "claude-stream-json-v1".

Definition extract_usage (raw : Value) : option ClaudeUsage :=
  usage ← Value_get raw "usage";
  let field name := default 0%Z (Value_get usage name ≫= Value_as_u64) in
  Some {| ClaudeUsage_input_tokens := field "input_tokens";
          ClaudeUsage_output_tokens := field "output_tokens";
          ClaudeUsage_cache_read_input_tokens := field "cache_read_input_tokens";
          ClaudeUsage_cache_creation_input_tokens := field "cache_creation_input_tokens" |}.
Definition is_high_risk_type (event_type : string) (raw : Value) : bool :=
  let event_type := to_ascii_lowercase event_type in
  str_contains event_type "tool" || str_contains event_type "permission"
  || str_contains event_type "approval" || str_contains event_type "error"
  || bool_decide (is_Some (Value_get raw "tool_name"))
  || bool_decide (is_Some (Value_get raw "tool_use_id")).
(** Whether the message has a content item of a type. *)
Definition has_content (type : string) (raw : Value) : bool :=
  match message ← Value_get raw "message"; Value_get message "content" ≫= Value_as_array with
  | Some items => existsb (λ item, bool_decide (Value_get item "type" ≫= Value_as_str = Some type)) items
  | None => false
  end.
Definition claude_data (event_type : string) (raw : Value) : Value :=
  json_object [("native_type", Value_String event_type); ("data", raw)].
(** The kind, the payload, whether the run ends and whether it must pause. *)
Definition claude_class : Type := EventKind * Value * bool * bool.
Definition normalize_assistant (event_type : string) (raw : Value) : claude_class :=
  if has_content "tool_use" raw
  then (UnknownKind "tool.request", claude_data event_type raw, false, true)
  else (AgentMessage, claude_data event_type raw, false, false).
Definition normalize_user (event_type : string) (raw : Value) : claude_class :=
  (if has_content "tool_result" raw then EvidenceRecorded else AgentMessage,
   claude_data event_type raw, false, false).
Definition normalize_stream_event (event_type : string) (raw : Value) : claude_class :=
  let nested_type := default "unknown"
    (event ← Value_get raw "event"; Value_get event "type" ≫= Value_as_str) in
  let requires_safe_pause := str_contains nested_type "tool" || str_contains nested_type "permission" in
  (if requires_safe_pause then UnknownKind "tool.request" else AgentMessage,
   json_object [("native_type", Value_String event_type); ("nested_type", Value_String nested_type);
                ("data", raw)], false, requires_safe_pause).
Definition normalize_system (event_type : string) (raw : Value) : claude_class :=
  let subtype := default "unknown" (Value_get raw "subtype" ≫= Value_as_str) in
  (if str_eqb subtype "init" then AgentRunStarted
   else UnknownKind ("claude.system." +:+ subtype), claude_data event_type raw, false, false).
Definition claude_classify (event_type : string) (raw : Value) : claude_class :=
  let data := claude_data event_type raw in
  if str_eqb event_type "system" then normalize_system event_type raw
  else if str_eqb event_type "assistant" then normalize_assistant event_type raw
  else if str_eqb event_type "user" then normalize_user event_type raw
  else if str_eqb event_type "stream_event" then normalize_stream_event event_type raw
  else if one_of ["message_delta"; "content_block_delta"; "message_start"; "message_stop"] event_type
  then (UnknownKind ("claude." +:+ event_type), data, false, false)
  else if str_eqb event_type "result" then (EvidenceRecorded, data, true, false)
  else if str_eqb event_type "error" then (UnknownKind "claude.error", data, false, true)
  else (UnknownKind event_type, data, false, is_high_risk_type event_type raw).
Definition claude_normalize (event_id : EventId) (native : ClaudeNativeEvent)
    : ClaudeNormalizedEvent :=
  let event_type := ClaudeNativeEvent_event_type native in
  let raw := ClaudeNativeEvent_raw native in
  let '(kind, payload, terminal, requires_safe_pause) := claude_classify event_type raw in
  {| ClaudeNormalizedEvent_native_type := event_type;
     ClaudeNormalizedEvent_adapter_version := claude_adapter_version;
     ClaudeNormalizedEvent_confidence := "observed";
     ClaudeNormalizedEvent_event := {|
       AgentEvent_event_id := event_id; AgentEvent_agent_run_id := None;
       AgentEvent_event_kind := kind; AgentEvent_payload := payload;
       AgentEvent_requires_safe_pause := requires_safe_pause;
       AgentEvent_raw_evidence := Some raw |};
     ClaudeNormalizedEvent_terminal := terminal;
     ClaudeNormalizedEvent_usage := extract_usage raw |}.
Definition claude_normalize_line_lossless `{!DisplayFmt ClaudeParseError} (event_id : EventId)
    (line : string) : ClaudeNormalizedEvent :=
  match parse_stream_line line with
  | Ok native => claude_normalize event_id native
  | Err error => {|
      ClaudeNormalizedEvent_native_type := "adapter.protocol_warning";
      ClaudeNormalizedEvent_adapter_version := claude_adapter_version;
      ClaudeNormalizedEvent_confidence := "observed";
      ClaudeNormalizedEvent_event := {|
        AgentEvent_event_id := event_id; AgentEvent_agent_run_id := None;
        AgentEvent_event_kind := UnknownKind "adapter.protocol_warning";
        AgentEvent_payload := json_object [("error", Value_String (display_fmt error));
          ("raw_line", Value_String line)];
        AgentEvent_requires_safe_pause := true;
        AgentEvent_raw_evidence := Some (json_object [("raw_line", Value_String line)]) |};
      ClaudeNormalizedEvent_terminal := false; ClaudeNormalizedEvent_usage := None |}
  end.

(** *** Launch checks of the Claude adapter *)
Definition validate_start_request (request : StartAgentRequest) : result AdapterError unit :=
  if negb (bool_decide (StartAgentRequest_provider request = Claude))
  then Err (AdapterProtocol "Claude adapter received a non-Claude provider")
  else if blank (StartAgentRequest_route_workspace request)
  then Err (AdapterProtocol "Claude route workspace is required")
  else if blank (StartAgentRequest_loadout_fingerprint request)
  then Err (AdapterProtocol "Claude loadout fingerprint is required")
  else if bool_decide (is_Some (StartAgentRequest_resume_thread_id request))
  then Err Unsupported
  else if match StartAgentRequest_loadout request with
          | Some loadout => negb (bool_decide (LoadoutSnapshot_provider loadout = Claude))
          | None => false end
  then Err (AdapterProtocol "Claude loadout provider does not match")
  else Ok tt.

(** ** What the adapters guarantee *)
Lemma one_of_spec texts s : one_of texts s = true ↔ s ∈ texts.
Proof.
  unfold one_of. rewrite existsb_exists. setoid_rewrite <-list_elem_of_In. split.
  - intros (t&Ht&E). guards. by subst.
  - intros Hs. exists s. split; [done|]. apply String.eqb_refl.
Qed.

(** Two lists of approval methods, in two files, that must agree. *)
Lemma approval_methods_agree method :
  is_approval_method method = true ↔ codex_kind method = ApprovalRequested.
Proof.
  unfold is_approval_method. split.
  - rewrite one_of_spec. unfold approval_types. rewrite !elem_of_cons, elem_of_nil.
    intros [->|[->|[->|[->|[->|[->|[->|[]]]]]]]]; reflexivity.
  - unfold codex_kind. repeat (case_match; try done).
Qed.
Lemma approvals_pause event_type :
  codex_kind event_type = ApprovalRequested → codex_requires_pause event_type = true.
Proof.
  rewrite <-approval_methods_agree. unfold is_approval_method, codex_requires_pause, one_of.
  rewrite existsb_app. by intros ->.
Qed.

Section laws.
Context `{!SerdeJsonLaws}.
Lemma codex_redacted v :
  redacted_from v (codex_redact_value v) ∨ codex_redact_value v = Value_String adapter_limit.
Proof.
  unfold codex_redact_value, redact_event. destruct (_ <? _)%Z; [by right|].
  destruct (redact_value _ v _) as [audit [x|e]] eqn:Hv; simpl; [|by right].
  destruct (_ <? _)%Z; [by right|]. left. by eapply redact_value_spec.
Qed.
(** No sensitive field of what the adapter keeps still has its value. *)
Lemma codex_hides v w m k x :
  reaches (codex_redact_value v) w → Value_as_object w = Some m → m !! k = Some x →
  is_sensitive_field k = true → ∃ s, x = Value_String s.
Proof.
  intros Hw Hm Hk Hs. destruct (codex_redacted v) as [Hr|Hr].
  - destruct (redacted_reaches _ _ _ Hr Hw) as [(v'&_&Hf)|(c&s&->)];
      [|by rewrite as_object_String in Hm].
    destruct (redacted_from_object _ _ _ Hf Hm) as (m0&_&Hnone&Hsome).
    destruct (m0 !! k) as [x0|] eqn:Hk0; [|apply Hnone in Hk0; congruence].
    destruct (Hsome _ _ Hk0) as (y&Hy&[[_ ->]|[Hns _]]); [|congruence].
    rewrite Hk in Hy. injection Hy as ->. eauto.
  - rewrite Hr in Hw. assert (∀ u, reaches (Value_String adapter_limit) u →
      u = Value_String adapter_limit) as Hall.
    { induction 1 as [|u mu ku xu _ IH Hu|u l i xu _ IH Hu]; [done| |]; subst u.
      - by rewrite as_object_String in Hu. - by rewrite as_array_String in Hu. }
    apply Hall in Hw as ->. by rewrite as_object_String in Hm.
Qed.

(** No total can be read from what the adapter keeps of a usage report. *)
Lemma no_total v w :
  reaches (codex_redact_value v) w →
  (usage ← Value_as_object w; total ← (usage : gmap string Value) !! "total";
   total ← Value_as_object total; (total : gmap string Value) !! "totalTokens" ≫= Value_as_u64) = None.
Proof.
  intros Hw. destruct (Value_as_object w) as [usage|] eqn:Hu; [simpl|done].
  destruct (usage !! "total") as [t|] eqn:Ht; [simpl|done].
  destruct (Value_as_object t) as [total|] eqn:Hto; [simpl|done].
  destruct (total !! "totalTokens") as [x|] eqn:Hx; [simpl|done].
  assert (reaches (codex_redact_value v) t) as Hrt by (by eapply reach_key).
  destruct (codex_hides v t total "totalTokens" x Hrt Hto Hx eq_refl) as [s ->].
  apply as_u64_String.
Qed.
(** Where the payload gets its fields from. *)
Lemma codex_field_reaches raw object key x :
  Value_as_object raw = Some object → key ≠ "turnId" →
  codex_field object key = Some x → reaches raw x.
Proof.
  intros Ho Hk. unfold codex_field, or_else.
  destruct (str_eqb key "turnId") eqn:E; [by apply String.eqb_eq in E|].
  destruct (object !! key) as [y|] eqn:Hy.
  { intros [= ->]. by eapply reach_key; [constructor|..]. }
  unfold nested. destruct (object !! "params") as [p|] eqn:Hp; [simpl|done].
  destruct (Value_as_object p) as [inner|] eqn:Hi; [simpl|done].
  destruct (inner !! key) as [y|] eqn:Hy'; [|done]. intros [= ->].
  eapply reach_key; [eapply reach_key; [constructor|exact Ho|exact Hp]|done..].
Qed.
Lemma set_field_lookup k v payload key :
  set_field k v payload !! key =
    if decide (key = k) then or_else v (payload !! key) else payload !! key.
Proof.
  unfold set_field, or_else. destruct v; case_decide; subst; try done.
  - by rewrite lookup_insert_eq. - by rewrite lookup_insert_ne.
Qed.
Lemma codex_payload_lookup event_type raw object key :
  Value_as_object raw = Some object → key ∈ ["native_type"; "tokenUsage"; "data"] →
  Value_get (codex_payload event_type raw) key =
    if str_eqb key "tokenUsage" then codex_field object "tokenUsage"
    else if str_eqb key "data" then Some raw else Some (Value_String event_type).
Proof.
  intros Ho Hk. unfold codex_payload. rewrite Ho, get_Object. simpl.
  rewrite !elem_of_cons, elem_of_nil in Hk. destruct Hk as [->|[->|[->|[]]]];
    rewrite !set_field_lookup; simpl; [reflexivity| |reflexivity].
  by destruct (codex_field object "tokenUsage").
Qed.
Lemma codex_total event_id native :
  NativeEvent_event_type native = "thread/tokenUsage/updated" →
  reported_total (NormalizedEvent_event (codex_normalize event_id native)) = Some None.
Proof.
  intros Ht. unfold reported_total, codex_normalize. simpl. rewrite Ht.
  set (v := raw_value native). set (raw := codex_redact_value v).
  destruct (Value_as_object raw) as [object|] eqn:Ho.
  - rewrite !(codex_payload_lookup _ _ _ _ Ho) by set_solver. simpl. rewrite as_str_String.
    rewrite bool_decide_eq_true_2 by done. f_equal.
    destruct (codex_field object "tokenUsage") as [u|] eqn:Hu; simpl.
    + apply (no_total v). eapply codex_field_reaches; [exact Ho| |exact Hu]. discriminate.
    + destruct (Value_get raw "tokenUsage") as [u|] eqn:Hg; [simpl|done].
      apply (no_total v). rewrite (as_object_get _ _ _ Ho) in Hg.
      by eapply reach_key; [constructor|..].
  - unfold codex_payload. rewrite Ho, !get_Object. cbn [list_to_map foldr fst snd curry uncurry].
    rewrite lookup_insert_eq. simpl. rewrite as_str_String, bool_decide_eq_true_2 by done. f_equal.
    rewrite !(lookup_insert_ne _ _ "tokenUsage"), lookup_empty by done.
    rewrite lookup_insert_ne, lookup_insert_eq by done. simpl.
    by rewrite (as_object_None_get _ _ Ho).
Qed.

Lemma unknown_tokens_pause tracker :
  BudgetTracker_unknown_policy tracker = UnknownPause →
  PauseAtSafeBoundary Tokens ∈
    (evaluate_safe_boundary (BudgetTracker_record (UnknownUsage Tokens) tracker)).2.
Proof.
  intros Hp. unfold evaluate_safe_boundary. simpl. unfold evaluate_dimension at 1. simpl.
  rewrite lookup_insert_eq, Hp. repeat case_match; simplify_eq/=. by left.
Qed.
(** However an agent reports its tokens, the Codex adapter hides the
    total (its field name looks like a credential) before the service reads
    it: every report counts as unknown usage, and under the policy every
    mission has the agent is asked to pause. *)
Theorem codex_usage_pauses_agent event_id native tracker previous_tokens :
  NativeEvent_event_type native = "thread/tokenUsage/updated" →
  BudgetTracker_unknown_policy tracker = UnknownPause →
  let event := NormalizedEvent_event (codex_normalize event_id native) in
  usage_record_from_event event previous_tokens = (previous_tokens, Some (UnknownUsage Tokens)) ∧
  existsb is_pause_signal
    (evaluate_safe_boundary (BudgetTracker_record (UnknownUsage Tokens) tracker)).2 = true.
Proof.
  intros Ht Hp event. split.
  - unfold usage_record_from_event, event. by rewrite (codex_total event_id native Ht).
  - apply existsb_exists. exists (PauseAtSafeBoundary Tokens). split; [|done].
    by apply list_elem_of_In, unknown_tokens_pause.
Qed.

(** Every line a Codex agent prints becomes an event.  A line that is no
    event, and every request for an approval, pauses the run; what the event
    keeps of the line has no sensitive field left at any depth. *)
Theorem codex_lines_normalized `{!DisplayFmt NativeParseError} event_id line :
  let event := NormalizedEvent_event (codex_normalize_line_lossless event_id line) in
  (AgentEvent_event_kind event = ApprovalRequested → AgentEvent_requires_safe_pause event = true) ∧
  (is_ok (parse_native_line line) = false →
    AgentEvent_event_kind event = UnknownKind "adapter.protocol_warning" ∧
    AgentEvent_requires_safe_pause event = true) ∧
  (is_ok (parse_native_line line) = true →
    ∃ raw, AgentEvent_raw_evidence event = Some raw ∧
    Value_get (AgentEvent_payload event) "data" = Some raw ∧
    ∀ w m k x, reaches raw w → Value_as_object w = Some m → m !! k = Some x →
      is_sensitive_field k = true → ∃ s, x = Value_String s).
Proof.
  unfold codex_normalize_line_lossless, codex_normalize_line.
  destruct (parse_native_line line) as [native|e]; simpl; split_and!; try done.
  - apply approvals_pause.
  - intros _. eexists. split; [done|]. split; [|intros *; apply codex_hides].
    unfold codex_payload. rewrite get_Object.
    destruct (Value_as_object _) as [object|]; [|done].
    simpl. by rewrite !set_field_lookup.
Qed.

(** A Codex thread that is resumed is not told to stay read-only: only a
    new thread is given the sandbox of the request. *)
Theorem resumed_thread_has_no_sandbox request :
  StartAgentRequest_read_only request = true →
  Value_get (thread_request request).2 "sandbox" =
    match StartAgentRequest_resume_thread_id request with
    | Some _ => None
    | None => Some (Value_String "read-only")
    end.
Proof.
  intros Hr. unfold thread_request, json_object.
  destruct (StartAgentRequest_resume_thread_id request); simpl; rewrite get_Object; [done|].
  by rewrite Hr.
Qed.

(** Claude: a message that uses a tool, an error and a type that mentions a
    tool or a permission pause the run; only a result ends it. *)
Lemma claude_pauses event_id native :
  let n := claude_normalize event_id native in
  let t := ClaudeNativeEvent_event_type native in
  (ClaudeNormalizedEvent_terminal n = true ↔ t = "result") ∧
  (t = "assistant" → has_content "tool_use" (ClaudeNativeEvent_raw native) = true →
    AgentEvent_requires_safe_pause (ClaudeNormalizedEvent_event n) = true) ∧
  (t = "error" → AgentEvent_requires_safe_pause (ClaudeNormalizedEvent_event n) = true).
Proof.
  unfold claude_normalize, claude_classify. simpl. split_and!.
  - unfold normalize_system, normalize_assistant, normalize_user, normalize_stream_event.
    repeat (case_match; guards; simplify_eq/=; try (split; [done|by intros ->])); try (split; done).
    all: split; [done|]; intros E; rewrite E in *; done.
  - intros -> Hu. simpl. unfold normalize_assistant. by rewrite Hu.
  - by intros ->.
Qed.

(** The approval request of a running Codex becomes a stored approval unless
    the agent numbered it with blanks. *)
Lemma codex_approval_binds event_id run cv fp value e m r :
  codex_approval_event event_id run cv fp value = Some e → blank fp = false →
  is_Some (approval_from_agent_event e m r) ↔
    ∃ id, Value_get value "id" = Some id ∧ blank (rpc_id_key id) = false.
Proof.
  unfold codex_approval_event. destruct (Value_get value "id") as [id|] eqn:Hid; [simpl|done].
  destruct (Value_get value "method" ≫= Value_as_str) as [method|]; [simpl|done].
  destruct (is_approval_method method); [simpl|done]. intros [= <-] Hfp.
  unfold approval_from_agent_event, json_object. cbn [AgentEvent_payload].
  rewrite as_object_Object. simpl.
  repeat first [rewrite lookup_insert_eq | rewrite lookup_insert_ne by done]. simpl.
  rewrite !as_str_String. simpl. unfold ApprovalRequest_new. simpl. rewrite Hfp, !orb_false_r.
  destruct (blank (rpc_id_key id)) eqn:Hb; simpl.
  - split; [by intros [? ?]|]. intros (?&[= <-]&?). congruence.
  - split; [by eexists|by eexists].
Qed.
End laws.
End normalize.

(** ** Concrete lines *)
Module NormalizeExamples.
Import Json RedactionExamples RecoveryPackageExamples CodedJson.

(** An agent that has used five tokens. *)
Definition nz_usage : NativeEvent := {|
  NativeEvent_event_type := "thread/tokenUsage/updated"; NativeEvent_id := None;
  NativeEvent_fields := {[ "tokenUsage" :=
    json_object [("total", json_object [("totalTokens", JNum 5)])] ]} |}.
Lemma codex_usage_pauses_agent_witness :
  (u ← Value_get (raw_value nz_usage) "tokenUsage"; t ← Value_get u "total";
   Value_get t "totalTokens") = Some (JNum 5) ∧
  usage_record_from_event (NormalizedEvent_event (codex_normalize 1%N nz_usage)) 0
    = (0%Z, Some (UnknownUsage Tokens)).
Proof.
  split; [vm_compute; reflexivity|].
  destruct (codex_usage_pauses_agent 1%N nz_usage default_budget_tracker 0 eq_refl eq_refl) as [Hu _].
  exact Hu.
Defined.

Definition nz_line : string := to_vec (json_object [("method", JStr "execCommandApproval");
  ("password", JStr "hunter2")]).
Lemma codex_lines_normalized_witness :
  is_ok (parse_native_line nz_line) = true ∧
  AgentEvent_requires_safe_pause
    (NormalizedEvent_event (codex_normalize_line_lossless 1%N nz_line)) = true.
Proof.
  split; [vm_compute; reflexivity|].
  destruct (codex_lines_normalized 1%N nz_line) as [Ha _]. apply Ha. vm_compute. reflexivity.
Defined.

Definition nz_start (thread : option string) : StartAgentRequest := {|
  StartAgentRequest_provider := Codex; StartAgentRequest_mission_id := 1%N;
  StartAgentRequest_route_id := 2%N; StartAgentRequest_project_root := "/p";
  StartAgentRequest_route_workspace := "/p"; StartAgentRequest_read_only := true;
  StartAgentRequest_approved_environment := []; StartAgentRequest_model := None;
  StartAgentRequest_goal := None; StartAgentRequest_loadout_fingerprint := "f";
  StartAgentRequest_contract_version := 1; StartAgentRequest_resume_thread_id := thread;
  StartAgentRequest_loadout := None |}.
Lemma resumed_thread_has_no_sandbox_witness :
  Value_get (thread_request (nz_start (Some "t1"))).2 "sandbox" = None ∧
  Value_get (thread_request (nz_start None)).2 "sandbox" = Some (JStr "read-only").
Proof.
  split.
  - exact (resumed_thread_has_no_sandbox (nz_start (Some "t1")) eq_refl).
  - exact (resumed_thread_has_no_sandbox (nz_start None) eq_refl).
Defined.
End NormalizeExamples.
