(* ===== verification/AppServer.v ===== *)
(** * The JSON-RPC client of the Codex app server
    ([crates/adapter-codex/src/app_server.rs])

    Lines are read from the child's standard output under a length limit;
    requests, responses and notifications share the stream.  The output is
    the sequence of what the pipe delivers: bytes, a read error, or an
    interruption (the reading future is dropped while it waits: by the
    timeout of a request, or by another branch of the [select!] it runs in).
    When nothing is left the pipe is closed. *)

From S2P Require Import Prelude Extern Frame AdapterCore Redaction Ledger RecoveryPackage ServiceExamples Normalize.
From Stdlib Require Import ZArith Lia Ascii.
From stdpp Require Import prelude gmap strings pretty.

(** ** Reading one line *)
Inductive JsonRpcError :=
| RpcStart (error : string) | RpcTimeout | RpcJson (error : string) | RpcClosed
| RpcRemote (error : string) | RpcProtocol (error : string).
#[export] Instance JsonRpcError_eq_dec : EqDecision JsonRpcError.
Proof. solve_decision. Defined.

Inductive arrival := Data (bytes : list u8) | ReadError (error : string) | Interruption.
Record ChildStdout := {
  ChildStdout_buffer : list u8;
  ChildStdout_arrivals : list arrival;
}.
(** What a read ends with: a value, an error, or nothing because its future
    was dropped.  [OutOfFuel] ends a loop of the model early; [calls_return]
    shows that it never happens. *)
Inductive outcome (A : Type) :=
| Done (value : A) | Failed (error : JsonRpcError) | Dropped | OutOfFuel.
Arguments Done {A} value.
Arguments Failed {A} error.
Arguments Dropped {A}.
Arguments OutOfFuel {A}.

Definition newline : u8 := 10%Z.
(** [iter().position(|byte| *byte == b'\n')]. *)
Fixpoint position_newline (l : list u8) : option nat :=
  match l with
  | [] => None
  | b :: l => if (b =? newline)%Z then Some 0 else S <$> position_newline l
  end.
Definition line_text (bytes : list u8) : outcome (option string) :=
  match from_utf8 bytes with
  | Some text => Done (Some text)
  | None => Failed (RpcStart "response is not UTF-8")
  end.
Definition too_large : JsonRpcError := RpcProtocol "response line too large".

Definition lenZ {A} (l : list A) : Z := Z.of_nat (length l).

(** One turn of the loop with bytes available: either the read ends, leaving
    part of the buffer, or everything available is added to the line. *)
Definition scan (max_bytes : Z) (bytes available : list u8)
    : (list u8 * outcome (option string)) + list u8 :=
  let found := position_newline available in
  let bytes_to_consume := match found with Some index => S index | None => length available end in
  if (max_bytes <? saturating_add u64_max (lenZ bytes) (Z.of_nat bytes_to_consume))%Z then
    let remaining := Z.min (saturating_sub (saturating_add u64_max max_bytes 1) (lenZ bytes))
      (lenZ available) in
    inl (drop (Z.to_nat (Z.max remaining 1)) available, Failed too_large)
  else
    let bytes := bytes ++ take bytes_to_consume available in
    match found with
    | Some _ => inl (drop bytes_to_consume available, line_text bytes)
    | None => inr bytes
    end.
Definition end_of_input (bytes : list u8) : outcome (option string) :=
  match bytes with [] => Done None | _ => line_text bytes end.
(** The loop with an empty buffer. *)
Fixpoint read_arrivals (max_bytes : Z) (bytes : list u8) (arrivals : list arrival)
    : ChildStdout * outcome (option string) :=
  let stdout buffer rest :=
    {| ChildStdout_buffer := buffer; ChildStdout_arrivals := rest |} in
  match arrivals with
  | [] => (stdout [] [], end_of_input bytes)
  | Interruption :: rest => (stdout [] rest, Dropped)
  | ReadError e :: rest => (stdout [] rest, Failed (RpcStart e))
  | Data [] :: rest => (stdout [] rest, end_of_input bytes)
  | Data available :: rest =>
      match scan max_bytes bytes available with
      | inl (buffer, r) => (stdout buffer rest, r)
      | inr bytes => read_arrivals max_bytes bytes rest
      end
  end.
Definition read_bounded_line (max_bytes : Z) (reader : ChildStdout)
    : ChildStdout * outcome (option string) :=
  match ChildStdout_buffer reader with
  | [] => read_arrivals max_bytes [] (ChildStdout_arrivals reader)
  | available =>
      match scan max_bytes [] available with
      | inl (buffer, r) =>
          ({| ChildStdout_buffer := buffer;
              ChildStdout_arrivals := ChildStdout_arrivals reader |}, r)
      | inr bytes => read_arrivals max_bytes bytes (ChildStdout_arrivals reader)
      end
  end.

(** *** The reference: the stream as one sequence of bytes *)
Definition next_length (all : list u8) : nat :=
  match position_newline all with Some index => S index | None => length all end.
Definition split_line (max_bytes : Z) (all : list u8) : list u8 * outcome (option string) :=
  let n := next_length all in
  if (max_bytes <? Z.of_nat n)%Z
  then (drop (Z.to_nat (max_bytes + 1)) all, Failed too_large)
  else (drop n all, end_of_input (take n all)).

Definition arrival_bytes (a : arrival) : list u8 :=
  match a with Data bytes => bytes | _ => [] end.
Definition contents (reader : ChildStdout) : list u8 :=
  ChildStdout_buffer reader ++ (ChildStdout_arrivals reader ≫= arrival_bytes).
(** Nothing but bytes is still to come. *)
Definition steady (reader : ChildStdout) : Prop :=
  Forall (λ a, ∃ b l, a = Data (b :: l)) (ChildStdout_arrivals reader).

(** [trim_end_matches(['\r', '\n'])]. *)
Fixpoint only_line_ends (s : string) : bool :=
  match s with
  | EmptyString => true
  | String c r => (byte_is 10 c || byte_is 13 c) && only_line_ends r
  end.
Fixpoint trim_line_end (s : string) : string :=
  match s with
  | EmptyString => ""
  | String c r => if only_line_ends s then "" else String c (trim_line_end r)
  end.

(** ** The client *)
#[local] Arguments json_depth_le : simpl never.
Section client.
Context `{SerdeJson, !JsonParse}.

Record JsonRpcResponse := {
  JsonRpcResponse_id : Value;
  JsonRpcResponse_result : option Value;
  JsonRpcResponse_error : option Value;
}.
(** [serde_json::from_value::<JsonRpcResponse>]: [null] is [None]. *)
Definition not_null (v : Value) : option Value :=
  if bool_decide (v = Value_Null) then None else Some v.
Definition JsonRpcResponse_from_value (value : Value) : result string JsonRpcResponse :=
  match Value_get value "id" with
  | None => Err "missing field `id`"
  | Some id => Ok {|
      JsonRpcResponse_id := id;
      JsonRpcResponse_result := Value_get value "result" ≫= not_null;
      JsonRpcResponse_error := Value_get value "error" ≫= not_null |}
  end.

(** [stdin] holds the lines written to the child, in order. *)
Record AppServerClient := {
  AppServerClient_stdin : list Value;
  AppServerClient_stdout : ChildStdout;
  AppServerClient_queued_lines : list string;
  AppServerClient_queued_responses : list JsonRpcResponse;
  AppServerClient_next_id : u64;
  AppServerClient_max_line_bytes : Z;
}.
(** [spawn_app_server] of a child that prints [stdout]. *)
Definition spawn_app_server (stdout : ChildStdout) : AppServerClient := {|
  AppServerClient_stdin := []; AppServerClient_stdout := stdout;
  AppServerClient_queued_lines := []; AppServerClient_queued_responses := [];
  AppServerClient_next_id := 1; AppServerClient_max_line_bytes := 4 * 1024 * 1024 |}.
Definition with_stdout (stdout : ChildStdout) (c : AppServerClient) : AppServerClient := {|
  AppServerClient_stdin := AppServerClient_stdin c; AppServerClient_stdout := stdout;
  AppServerClient_queued_lines := AppServerClient_queued_lines c;
  AppServerClient_queued_responses := AppServerClient_queued_responses c;
  AppServerClient_next_id := AppServerClient_next_id c;
  AppServerClient_max_line_bytes := AppServerClient_max_line_bytes c |}.
Definition with_queues (lines : list string) (responses : list JsonRpcResponse)
    (c : AppServerClient) : AppServerClient := {|
  AppServerClient_stdin := AppServerClient_stdin c;
  AppServerClient_stdout := AppServerClient_stdout c;
  AppServerClient_queued_lines := lines;
  AppServerClient_queued_responses := responses;
  AppServerClient_next_id := AppServerClient_next_id c;
  AppServerClient_max_line_bytes := AppServerClient_max_line_bytes c |}.
Definition push_line (line : string) (c : AppServerClient) : AppServerClient :=
  with_queues (AppServerClient_queued_lines c ++ [line]) (AppServerClient_queued_responses c) c.
Definition push_response (r : JsonRpcResponse) (c : AppServerClient) : AppServerClient :=
  with_queues (AppServerClient_queued_lines c) (AppServerClient_queued_responses c ++ [r]) c.
Definition requeue_line (line : string) (c : AppServerClient) : AppServerClient :=
  with_queues (line :: AppServerClient_queued_lines c) (AppServerClient_queued_responses c) c.

(** [write_all] and [flush]; [pipe] is what they answer. *)
Definition write_line (pipe : result string unit) (v : Value) (c : AppServerClient)
    : AppServerClient * result JsonRpcError unit :=
  match pipe with
  | Err e => (c, Err (RpcStart e))
  | Ok _ => ({|
      AppServerClient_stdin := AppServerClient_stdin c ++ [v];
      AppServerClient_stdout := AppServerClient_stdout c;
      AppServerClient_queued_lines := AppServerClient_queued_lines c;
      AppServerClient_queued_responses := AppServerClient_queued_responses c;
      AppServerClient_next_id := AppServerClient_next_id c;
      AppServerClient_max_line_bytes := AppServerClient_max_line_bytes c |}, Ok tt)
  end.
Definition take_id (c : AppServerClient) : AppServerClient := {|
  AppServerClient_stdin := AppServerClient_stdin c;
  AppServerClient_stdout := AppServerClient_stdout c;
  AppServerClient_queued_lines := AppServerClient_queued_lines c;
  AppServerClient_queued_responses := AppServerClient_queued_responses c;
  AppServerClient_next_id := wrapping_add64 (AppServerClient_next_id c) 1;
  AppServerClient_max_line_bytes := AppServerClient_max_line_bytes c |}.

Definition parse_json_line (line : string) (max_bytes : Z) : result JsonRpcError Value :=
  if (max_bytes <? str_len line)%Z then Err too_large else
  value ← map_err RpcJson (value_from_str (trim_end line));
  if negb (json_depth_le 64 value) then Err (RpcProtocol "JSON nesting too deep") else Ok value.

(** A message that is no response: no identifier, or a method. *)
Definition is_notification (value : Value) : bool :=
  bool_decide (Value_get value "id" = None) || bool_decide (is_Some (Value_get value "method")).
(** [response.id == id] for a number. *)
Definition answers (id : u64) (r : JsonRpcResponse) : bool :=
  bool_decide (Value_as_u64 (JsonRpcResponse_id r) = Some id).
Definition queue_full {A} (l : list A) : bool := (1024 <=? lenZ l)%Z.

(** The reading loop of [request]. *)
Fixpoint request_loop (fuel : nat) (id : u64) (c : AppServerClient)
    : AppServerClient * outcome JsonRpcResponse :=
  match fuel with
  | O => (c, OutOfFuel)
  | S fuel =>
      let '(stdout, read) :=
        read_bounded_line (AppServerClient_max_line_bytes c) (AppServerClient_stdout c) in
      let c := with_stdout stdout c in
      match read with
      | Dropped => (c, Failed RpcTimeout)
      | Failed e => (c, Failed e)
      | OutOfFuel => (c, OutOfFuel)
      | Done None => (c, Failed RpcClosed)
      | Done (Some line) =>
          match parse_json_line line (AppServerClient_max_line_bytes c) with
          | Err e => (c, Failed e)
          | Ok value =>
              if is_notification value then
                if queue_full (AppServerClient_queued_lines c)
                then (c, Failed (RpcProtocol "notification queue full"))
                else request_loop fuel id (push_line (trim_line_end line) c)
              else
              match JsonRpcResponse_from_value value with
              | Err e => (c, Failed (RpcJson e))
              | Ok response =>
                  if answers id response then
                    match JsonRpcResponse_error response with
                    | Some error => (c, Failed (RpcRemote (to_vec error)))
                    | None => (c, Done response)
                    end
                  else if queue_full (AppServerClient_queued_responses c)
                  then (c, Failed (RpcProtocol "response queue full"))
                  else request_loop fuel id (push_response response c)
              end
          end
      end
  end.
(** More turns than the stream has pieces are never needed. *)
Fixpoint arrivals_size (l : list arrival) : nat :=
  match l with [] => 0 | a :: l => S (length (arrival_bytes a)) + arrivals_size l end.
Definition stdout_size (r : ChildStdout) : nat :=
  length (ChildStdout_buffer r) + arrivals_size (ChildStdout_arrivals r).
Definition client_fuel (c : AppServerClient) : nat := S (stdout_size (AppServerClient_stdout c)).

Definition request (pipe : result string unit) (method : string) (params : Value)
    (c : AppServerClient) : AppServerClient * outcome JsonRpcResponse :=
  let id := AppServerClient_next_id c in
  let '(c, written) := write_line pipe (json_object [("jsonrpc", Value_String "2.0");
    ("id", Value_U64 id); ("method", Value_String method); ("params", params)]) (take_id c) in
  match written with
  | Err e => (c, Failed e)
  | Ok _ =>
      match list_find (λ r, answers id r = true) (AppServerClient_queued_responses c) with
      | Some (index, response) =>
          (with_queues (AppServerClient_queued_lines c)
             (delete index (AppServerClient_queued_responses c)) c, Done response)
      | None => request_loop (client_fuel c) id c
      end
  end.
Definition respond (pipe : result string unit) (id res : Value) (c : AppServerClient)
    : AppServerClient * result JsonRpcError unit :=
  write_line pipe (json_object [("jsonrpc", Value_String "2.0"); ("id", id); ("result", res)]) c.
Definition notify (pipe : result string unit) (method : string) (params : Value)
    (c : AppServerClient) : AppServerClient * result JsonRpcError unit :=
  write_line pipe (json_object [("jsonrpc", Value_String "2.0"); ("method", Value_String method);
    ("params", params)]) c.

(** The reading loop of [next_line]. *)
Fixpoint next_line_loop (fuel : nat) (c : AppServerClient)
    : AppServerClient * outcome (option string) :=
  match fuel with
  | O => (c, OutOfFuel)
  | S fuel =>
      let '(stdout, read) :=
        read_bounded_line (AppServerClient_max_line_bytes c) (AppServerClient_stdout c) in
      let c := with_stdout stdout c in
      match read with
      | Done (Some line) =>
          match parse_json_line line (AppServerClient_max_line_bytes c) with
          | Err e => (c, Failed e)
          | Ok value =>
              if bool_decide (is_Some (Value_get value "id"))
                 && bool_decide (Value_get value "method" = None) then
                match JsonRpcResponse_from_value value with
                | Err e => (c, Failed (RpcJson e))
                | Ok response =>
                    if queue_full (AppServerClient_queued_responses c)
                    then (c, Failed (RpcProtocol "response queue full"))
                    else next_line_loop fuel (push_response response c)
                end
              else (c, Done (Some (trim_line_end line)))
          end
      | other => (c, other)
      end
  end.
Definition next_line (c : AppServerClient) : AppServerClient * outcome (option string) :=
  match AppServerClient_queued_lines c with
  | line :: rest => (with_queues rest (AppServerClient_queued_responses c) c, Done (Some line))
  | [] => next_line_loop (client_fuel c) c
  end.
End client.

(** [AppServerClient::shutdown]: what is done to the child, given what each
    call answers ([Ok true]: the child has exited). *)
Inductive child_call := TryWait | TerminateJob | Kill | WaitExit.
Record ChildAnswers := {
  ChildAnswers_try_wait : result string bool;
  ChildAnswers_terminate : result string unit;
  ChildAnswers_try_wait_again : result string bool;
  ChildAnswers_kill : result string unit;
}.
Definition shutdown (a : ChildAnswers) : list child_call * result JsonRpcError unit :=
  match ChildAnswers_try_wait a with
  | Err e => ([TryWait], Err (RpcStart e))
  | Ok true => ([TryWait; WaitExit], Ok tt)
  | Ok false =>
      match ChildAnswers_terminate a with
      | Err e => ([TryWait; TerminateJob], Err (RpcStart e))
      | Ok _ =>
          match ChildAnswers_try_wait_again a with
          | Err e => ([TryWait; TerminateJob; TryWait], Err (RpcStart e))
          | Ok true => ([TryWait; TerminateJob; TryWait; WaitExit], Ok tt)
          | Ok false =>
              match ChildAnswers_kill a with
              | Err e => ([TryWait; TerminateJob; TryWait; Kill], Err (RpcStart e))
              | Ok _ => ([TryWait; TerminateJob; TryWait; Kill; WaitExit], Ok tt)
              end
          end
      end
  end.

(** ** Lemmas on lines *)
Lemma position_newline_app l k :
  position_newline (l ++ k) =
    match position_newline l with
    | Some i => Some i
    | None => (λ i, length l + i) <$> position_newline k
    end.
Proof.
  induction l as [|b l IH]; simpl; [by destruct (position_newline k)|].
  destruct (b =? newline)%Z; [done|]. rewrite IH.
  destruct (position_newline l); [done|]. by destruct (position_newline k).
Qed.
Lemma position_newline_lt l i : position_newline l = Some i → i < length l.
Proof.
  revert i. induction l as [|b l IH]; intros i; simpl; [done|].
  destruct (b =? newline)%Z; [intros [= <-]; lia|].
  destruct (position_newline l); simpl; [|done]. intros [= <-]. specialize (IH _ eq_refl). lia.
Qed.
Lemma next_length_app l k :
  position_newline l = None → next_length (l ++ k) = length l + next_length k.
Proof.
  intros Hl. unfold next_length. rewrite position_newline_app, Hl, length_app.
  destruct (position_newline k); simpl; lia.
Qed.
Lemma next_length_prefix l k :
  next_length (l ++ k) =
    match position_newline l with Some i => S i | None => length l + next_length k end.
Proof.
  destruct (position_newline l) as [i|] eqn:Hl; [|by apply next_length_app].
  unfold next_length. by rewrite position_newline_app, Hl.
Qed.
Lemma next_length_le l : next_length l ≤ length l.
Proof.
  unfold next_length. destruct (position_newline l) as [i|] eqn:Hl; [|done].
  by apply position_newline_lt.
Qed.

(** Dropping past a prefix. *)
Lemma drop_prefix {A} n (l k later : list A) :
  length l ≤ n ≤ length l + length k →
  drop n (l ++ k ++ later) = drop (n - length l) k ++ later.
Proof.
  intros Hn. rewrite drop_app_ge by lia. rewrite drop_app_le by lia. done.
Qed.

Section reading.
Context (max_bytes : Z) (Hmax : (0 ≤ max_bytes < u64_max)%Z).

(** What is read so far: no newline, within the limit. *)
Definition partial_line (bytes : list u8) : Prop :=
  position_newline bytes = None ∧ (lenZ bytes ≤ max_bytes)%Z.

Lemma scan_refines bytes available later :
  partial_line bytes → available ≠ [] →
  match scan max_bytes bytes available with
  | inl (buffer, r) =>
      split_line max_bytes (bytes ++ available ++ later) = (buffer ++ later, r)
  | inr bytes' => bytes' = bytes ++ available ∧ partial_line bytes'
  end.
Proof.
  intros [Hb Hlen] Ha. unfold scan, split_line, lenZ, saturating_add, saturating_sub in *.
  rewrite next_length_app, next_length_prefix by done.
  assert (1 ≤ length available) as Ha1 by (destruct available; simpl in *; [done|lia]).
  destruct (position_newline available) as [i|] eqn:Hf.
  - pose proof (position_newline_lt _ _ Hf) as Hi.
    destruct (max_bytes <? Z.min u64_max _)%Z eqn:Hc; guards.
    + rewrite (proj2 (Z.ltb_lt _ _)) by lia. f_equal.
      rewrite drop_prefix by lia. do 2 f_equal. lia.
    + rewrite (proj2 (Z.ltb_ge _ _)) by lia. f_equal.
      * rewrite drop_prefix by lia. do 2 f_equal. lia.
      * rewrite take_app_ge by lia.
        replace (length bytes + S i - length bytes) with (S i) by lia.
        rewrite take_app_le by lia. unfold end_of_input.
        destruct (bytes ++ take (S i) available) as [|x r] eqn:E; [|by rewrite <-E].
        apply app_eq_nil in E as [_ E]. by destruct available.
  - destruct (max_bytes <? Z.min u64_max _)%Z eqn:Hc; guards.
    + rewrite (proj2 (Z.ltb_lt _ _)) by lia. f_equal.
      rewrite drop_prefix by lia. do 2 f_equal. lia.
    + rewrite firstn_all. split; [done|]. unfold partial_line, lenZ. split.
      * by rewrite position_newline_app, Hb, Hf.
      * rewrite length_app. lia.
Qed.

Lemma end_of_stream bytes :
  partial_line bytes → split_line max_bytes bytes = ([], end_of_input bytes).
Proof.
  intros [Hb Hlen]. unfold split_line, next_length, lenZ in *. rewrite Hb.
  rewrite (proj2 (Z.ltb_ge _ _)) by lia. by rewrite drop_all, firstn_all.
Qed.

Lemma read_arrivals_refines bytes arrivals r o :
  partial_line bytes → Forall (λ a, ∃ b l, a = Data (b :: l)) arrivals →
  read_arrivals max_bytes bytes arrivals = (r, o) →
  steady r ∧ split_line max_bytes (bytes ++ (arrivals ≫= arrival_bytes)) = (contents r, o).
Proof.
  intros Hb Hall. revert bytes Hb. induction Hall as [|a arrivals (b&l&->) Hall IH]; intros bytes Hb.
  - intros [= <- <-]. split; [apply Forall_nil_2|]. simpl. rewrite app_nil_r. by apply end_of_stream.
  - cbn [read_arrivals]. pose proof (scan_refines bytes (b :: l) (arrivals ≫= arrival_bytes) Hb) as Hs.
    specialize (Hs ltac:(done)).
    destruct (scan max_bytes bytes (b :: l)) as [[buffer o']|bytes'].
    + intros [= <- <-]. by split.
    + destruct Hs as [-> Hb']. intros Hr. apply IH in Hr; [|done].
      by rewrite <-app_assoc in Hr.
Qed.

(** Whatever pieces the bytes arrive in, reading a line is splitting the
    stream at the first newline, under the limit. *)
Lemma read_refines reader r o :
  steady reader → read_bounded_line max_bytes reader = (r, o) →
  steady r ∧ split_line max_bytes (contents reader) = (contents r, o).
Proof.
  intros Hs. unfold read_bounded_line. destruct reader as [[|b buffer] arrivals]; simpl.
  - intros Hr. apply read_arrivals_refines in Hr; [done| |done]. split; [done|]. unfold lenZ. simpl. lia.
  - assert (partial_line []) as H0 by (split; [done|unfold lenZ; simpl; lia]).
    pose proof (scan_refines [] (b :: buffer) (arrivals ≫= arrival_bytes) H0 ltac:(done)) as Hc.
    destruct (scan max_bytes [] (b :: buffer)) as [[buffer' o']|bytes].
    + by intros [= <- <-].
    + destruct Hc as [-> Hb']. intros Hr. by apply read_arrivals_refines in Hr.
Qed.
End reading.

(** C34: reading a line does not depend on how the bytes arrive: readers with
    the same bytes to come, in whatever pieces, give the same line or the same
    error and keep the same bytes, those of splitting the whole stream at its
    first newline under the limit. *)
Theorem reading_ignores_chunks max_bytes reader reader' :
  (0 ≤ max_bytes < u64_max)%Z → steady reader → steady reader' →
  contents reader = contents reader' →
  let '(r, o) := read_bounded_line max_bytes reader in
  let '(r', o') := read_bounded_line max_bytes reader' in
  o = o' ∧ contents r = contents r' ∧ split_line max_bytes (contents reader) = (contents r, o).
Proof.
  intros Hm Hs Hs' Hc. destruct (read_bounded_line max_bytes reader) as [r o] eqn:Hr.
  destruct (read_bounded_line max_bytes reader') as [r' o'] eqn:Hr'.
  apply read_refines in Hr as [_ Hr]; [|done..]. apply read_refines in Hr' as [_ Hr']; [|done..].
  rewrite <-Hc, Hr in Hr'. by simplify_eq.
Qed.

(** ** Every call returns *)
Lemma scan_ends max bytes available buffer line :
  scan max bytes available = inl (buffer, Done (Some line)) → length buffer < length available.
Proof.
  unfold scan. case_match; [done|].
  destruct (position_newline available) as [i|] eqn:Hf; [|done]. intros [= <- _].
  pose proof (position_newline_lt _ _ Hf). rewrite length_drop. lia.
Qed.
Lemma scan_grows max bytes available bytes' :
  scan max bytes available = inr bytes' → length bytes' ≤ length bytes + length available.
Proof.
  unfold scan. case_match; [done|].
  destruct (position_newline available); [done|]. intros [= <-].
  rewrite length_app, length_take. lia.
Qed.
Lemma scan_fueled max bytes available buffer o :
  scan max bytes available = inl (buffer, o) → o ≠ OutOfFuel.
Proof.
  unfold scan, line_text. repeat case_match; by intros [= <- <-].
Qed.
Lemma read_arrivals_size max bytes arrivals r line :
  read_arrivals max bytes arrivals = (r, Done (Some line)) →
  stdout_size r < length bytes + arrivals_size arrivals.
Proof.
  revert bytes. induction arrivals as [|a arrivals IH]; intros bytes; simpl.
  - intros [= <- He]. destruct bytes; [done|]. unfold stdout_size. simpl. lia.
  - destruct a as [[|b l]|e|]; simpl; try done.
    + intros [= <- _]. unfold stdout_size. simpl. lia.
    + destruct (scan max bytes (b :: l)) as [[buffer o]|bytes'] eqn:Hs.
      * intros [= <- ->]. apply scan_ends in Hs. unfold stdout_size. simpl in *. lia.
      * intros Hr%IH. apply scan_grows in Hs. simpl in *. lia.
Qed.
Lemma read_size max reader r line :
  read_bounded_line max reader = (r, Done (Some line)) → stdout_size r < stdout_size reader.
Proof.
  unfold read_bounded_line. destruct reader as [[|b buffer] arrivals]; simpl.
  - intros Hr%read_arrivals_size. done.
  - destruct (scan max [] (b :: buffer)) as [[buffer' o]|bytes] eqn:Hs.
    + intros [= <- ->]. apply scan_ends in Hs. unfold stdout_size. simpl in *. lia.
    + intros Hr%read_arrivals_size. apply scan_grows in Hs. unfold stdout_size in *. simpl in *. lia.
Qed.
Lemma end_of_input_fueled bytes : end_of_input bytes ≠ OutOfFuel.
Proof. unfold end_of_input, line_text. by repeat case_match. Qed.
Lemma read_fueled max reader : (read_bounded_line max reader).2 ≠ OutOfFuel.
Proof.
  assert (∀ arrivals bytes, (read_arrivals max bytes arrivals).2 ≠ OutOfFuel) as Ha.
  { induction arrivals as [|[[|b l]|e|] arrivals IH]; intros bytes; simpl; try done;
      try apply end_of_input_fueled.
    destruct (scan max bytes (b :: l)) as [[buffer o]|bytes'] eqn:Hs; [|apply IH].
    by apply scan_fueled in Hs. }
  unfold read_bounded_line. destruct reader as [[|b buffer] arrivals]; simpl; [apply Ha|].
  destruct (scan max [] (b :: buffer)) as [[buffer' o]|bytes] eqn:Hs; [|apply Ha].
  by apply scan_fueled in Hs.
Qed.

Lemma read_fails max reader r e :
  read_bounded_line max reader = (r, Failed e) → ∃ text, e = RpcStart text ∨ e = RpcProtocol text.
Proof.
  assert (∀ bytes e, line_text bytes = Failed e → ∃ text, e = RpcStart text ∨ e = RpcProtocol text) as Hl.
  { intros bytes e'. unfold line_text. case_match; [done|]. intros [= <-]. eauto. }
  assert (∀ bytes available buffer e, scan max bytes available = inl (buffer, Failed e) →
    ∃ text, e = RpcStart text ∨ e = RpcProtocol text) as Hs.
  { intros bytes available buffer e'. unfold scan, too_large.
    repeat case_match; intros [= <- ?]; subst; eauto. }
  assert (∀ arrivals bytes r e, read_arrivals max bytes arrivals = (r, Failed e) →
    ∃ text, e = RpcStart text ∨ e = RpcProtocol text) as Ha.
  { induction arrivals as [|[[|b l]|e'|] arrivals IH]; intros bytes r' e''; simpl.
    - intros [= _ He]. destruct bytes; [done|]. by eapply Hl.
    - intros [= _ He]. destruct bytes; [done|]. by eapply Hl.
    - destruct (scan max bytes (b :: l)) as [[buffer o]|bytes'] eqn:E; [|apply IH].
      intros [= _ ->]. by eapply Hs.
    - intros [= _ <-]. eauto.
    - done. }
  unfold read_bounded_line. destruct reader as [[|b buffer] arrivals]; simpl; [apply Ha|].
  destruct (scan max [] (b :: buffer)) as [[buffer' o]|bytes] eqn:E; [|apply Ha].
  intros [= _ ->]. by eapply Hs.
Qed.

Section client_laws.
Context `{SerdeJson, !JsonParse}.

Lemma request_loop_fueled fuel id c :
  stdout_size (AppServerClient_stdout c) < fuel → (request_loop fuel id c).2 ≠ OutOfFuel.
Proof.
  revert c. induction fuel as [|fuel IH]; intros c Hf; [lia|]. simpl.
  pose proof (read_fueled (AppServerClient_max_line_bytes c) (AppServerClient_stdout c)) as Hr.
  destruct (read_bounded_line _ _) as [stdout [[line|]|e| |]] eqn:Hread; try done.
  apply read_size in Hread.
  repeat case_match; try done; apply IH; simpl; lia.
Qed.
Lemma next_line_loop_fueled fuel c :
  stdout_size (AppServerClient_stdout c) < fuel → (next_line_loop fuel c).2 ≠ OutOfFuel.
Proof.
  revert c. induction fuel as [|fuel IH]; intros c Hf; [lia|]. simpl.
  pose proof (read_fueled (AppServerClient_max_line_bytes c) (AppServerClient_stdout c)) as Hr.
  destruct (read_bounded_line _ _) as [stdout [[line|]|e| |]] eqn:Hread; try done.
  apply read_size in Hread.
  repeat case_match; try done; apply IH; simpl; lia.
Qed.
Lemma request_fueled pipe method params c : (request pipe method params c).2 ≠ OutOfFuel.
Proof.
  unfold request, write_line. destruct pipe as [u|e]; [|done].
  destruct (list_find _ _) as [[index response]|]; [done|].
  apply request_loop_fueled, Nat.lt_succ_diag_r.
Qed.
Lemma next_line_fueled c : (next_line c).2 ≠ OutOfFuel.
Proof.
  unfold next_line. destruct (AppServerClient_queued_lines c); [|done].
  apply next_line_loop_fueled, Nat.lt_succ_diag_r.
Qed.
(** Every call of the client returns: however the app server cuts,
    interrupts or floods its output, a request ends with a response or an
    error and a read of the next line ends too. *)
Theorem calls_return pipe method params c :
  (request pipe method params c).2 ≠ OutOfFuel ∧ (next_line c).2 ≠ OutOfFuel.
Proof. split; [apply request_fueled|apply next_line_fueled]. Qed.

(** ** Notifications keep their order

    [consumes max all lines rest]: the stream [all] starts with these lines. *)
Inductive consumes (max : Z) : list u8 → list string → list u8 → Prop :=
| consumes_nil all : consumes max all [] all
| consumes_line all line rest lines all' :
    split_line max all = (rest, Done (Some line)) →
    consumes max rest lines all' → consumes max all (line :: lines) all'.
Definition notifications (max : Z) (lines : list string) : list string :=
  omap (λ line, match parse_json_line line max with
    | Ok value => if is_notification value then Some (trim_line_end line) else None
    | Err _ => None end) lines.
(** The limit is within the machine's range and only bytes are to come. *)
Definition sound (c : AppServerClient) : Prop :=
  (0 ≤ AppServerClient_max_line_bytes c < u64_max)%Z ∧ steady (AppServerClient_stdout c).
(** What a call did to the stream and the queue, [delivered] given out. *)
Definition took (delivered : list string) (c c' : AppServerClient) : Prop :=
  sound c' ∧ AppServerClient_max_line_bytes c' = AppServerClient_max_line_bytes c ∧
  ∃ lines, consumes (AppServerClient_max_line_bytes c)
      (contents (AppServerClient_stdout c)) lines (contents (AppServerClient_stdout c')) ∧
    delivered ++ AppServerClient_queued_lines c' =
      AppServerClient_queued_lines c ++ notifications (AppServerClient_max_line_bytes c) lines.

Lemma consumes_app max a l b k d :
  consumes max a l b → consumes max b k d → consumes max a (l ++ k) d.
Proof. induction 1; [done|]. intros. simpl. by econstructor; [|auto]. Qed.
Lemma notifications_app max l k :
  notifications max (l ++ k) = notifications max l ++ notifications max k.
Proof. apply omap_app. Qed.
Lemma took_trans d d' c c' c'' : took d c c' → took d' c' c'' → took (d ++ d') c c''.
Proof.
  intros (Hs&Hm&l&Hl&Hq) (Hs'&Hm'&k&Hk&Hq'). rewrite Hm in Hm', Hk, Hq'.
  split_and!; [done|done|]. exists (l ++ k). split; [by eapply consumes_app|].
  by rewrite <-app_assoc, Hq', !app_assoc, Hq, <-!app_assoc, notifications_app.
Qed.
(** A call that leaves the stream and the queue of lines alone. *)
Lemma took_nothing c c' :
  sound c → AppServerClient_stdout c' = AppServerClient_stdout c →
  AppServerClient_queued_lines c' = AppServerClient_queued_lines c →
  AppServerClient_max_line_bytes c' = AppServerClient_max_line_bytes c → took [] c c'.
Proof.
  intros Hs Ho Hq Hm. unfold took, sound. rewrite Ho, Hq, Hm. split_and!; [apply Hs..|done|].
  exists []. split; [constructor|]. by rewrite app_nil_r.
Qed.
(** One line read: a notification is to be handed on, a response is not. *)
Lemma took_line c stdout line value :
  sound c →
  read_bounded_line (AppServerClient_max_line_bytes c) (AppServerClient_stdout c)
    = (stdout, Done (Some line)) →
  parse_json_line line (AppServerClient_max_line_bytes c) = Ok value →
  if is_notification value
  then took [] c (push_line (trim_line_end line) (with_stdout stdout c)) ∧
       (AppServerClient_queued_lines c = [] → took [trim_line_end line] c (with_stdout stdout c))
  else took [] c (with_stdout stdout c).
Proof.
  intros [Hm Hs] Hr Hp. apply read_refines in Hr as [Hs' Hl]; [|done..].
  destruct (is_notification value) eqn:Hn; [split; [|intros Hq]|];
    (split; [done|]); (split; [done|]); exists [line];
    (split; [by econstructor; [done|constructor]|]); simpl; rewrite Hp, Hn; simpl.
  - done.
  - by rewrite Hq.
  - by rewrite app_nil_r.
Qed.

Lemma response_is_no_notification value :
  bool_decide (is_Some (Value_get value "id")) && bool_decide (Value_get value "method" = None)
  = negb (is_notification value).
Proof.
  unfold is_notification. destruct (Value_get value "id"), (Value_get value "method"); done.
Qed.
Lemma next_line_loop_took fuel c c' line :
  sound c → AppServerClient_queued_lines c = [] →
  next_line_loop fuel c = (c', Done (Some line)) → took [line] c c'.
Proof.
  revert c. induction fuel as [|fuel IH]; intros c Hc Hq; simpl; [done|].
  destruct (read_bounded_line _ _) as [stdout [[text|]|e| |]] eqn:Hread; try done.
  destruct (parse_json_line _ _) as [value|e] eqn:Hp; [|done].
  pose proof (took_line _ _ _ _ Hc Hread Hp) as Ht. rewrite response_is_no_notification.
  destruct (is_notification value); simpl.
  - intros [= <- <-]. by apply Ht.
  - destruct (JsonRpcResponse_from_value value) as [response|e]; [|done].
    case_match; [done|]. intros Hr. apply IH in Hr; [|apply Ht|done].
    by apply (took_trans [] [line] _ _ _ Ht).
Qed.
Lemma next_line_took c c' line :
  sound c → next_line c = (c', Done (Some line)) → took [line] c c'.
Proof.
  intros Hc. unfold next_line. destruct (AppServerClient_queued_lines c) as [|l rest] eqn:Hq.
  - by apply next_line_loop_took.
  - intros [= <- <-]. split; [done|]. split; [done|]. exists []. split; [constructor|].
    by rewrite app_nil_r, Hq.
Qed.
(** *** With interruptions and failures

    The reads of a session can also fail or be dropped.  [consumed] is
    [consumes] with pieces of the stream that were read and not handed on,
    which it counts. *)
Inductive consumed (max : Z) : list u8 → list string → nat → list u8 → Prop :=
| consumed_nil all : consumed max all [] 0 all
| consumed_line all line rest lines lost all' :
    split_line max all = (rest, Done (Some line)) →
    consumed max rest lines lost all' → consumed max all (line :: lines) lost all'
| consumed_lost piece rest lines lost all' :
    consumed max rest lines lost all' → consumed max (piece ++ rest) lines (S lost) all'.
Lemma consumed_app max a l n b k m d :
  consumed max a l n b → consumed max b k m d → consumed max a (l ++ k) (n + m) d.
Proof. induction 1; intros; simpl; [done|econstructor; eauto|constructor; eauto]. Qed.
#[export] Instance arrival_eq_dec : EqDecision arrival.
Proof. solve_decision. Defined.
(** An end of input is the end; what comes before it can be interrupted. *)
Definition flowing (c : AppServerClient) : Prop :=
  (0 ≤ AppServerClient_max_line_bytes c < u64_max)%Z ∧
  Forall (λ a, a ≠ Data []) (ChildStdout_arrivals (AppServerClient_stdout c)).
(** What a call did to the stream and the queue: [delivered] was given out, at
    most [failures] pieces were lost. *)
Definition moved (delivered : list string) (failures : nat) (c c' : AppServerClient) : Prop :=
  flowing c' ∧ AppServerClient_max_line_bytes c' = AppServerClient_max_line_bytes c ∧
  ∃ lines lost, consumed (AppServerClient_max_line_bytes c)
      (contents (AppServerClient_stdout c)) lines lost (contents (AppServerClient_stdout c')) ∧
    lost ≤ failures ∧
    delivered ++ AppServerClient_queued_lines c' =
      AppServerClient_queued_lines c ++ notifications (AppServerClient_max_line_bytes c) lines.
Lemma moved_trans d d' n m c c' c'' : moved d n c c' → moved d' m c' c'' → moved (d ++ d') (n + m) c c''.
Proof.
  intros (Hs&Hm&l&i&Hl&Hi&Hq) (Hs'&Hm'&k&j&Hk&Hj&Hq'). rewrite Hm in Hm', Hk, Hq'.
  split_and!; [done|done|]. exists (l ++ k), (i + j). split_and!; [by eapply consumed_app|lia|].
  by rewrite <-app_assoc, Hq', !app_assoc, Hq, <-!app_assoc, notifications_app.
Qed.
Lemma moved_nothing n c c' :
  flowing c → AppServerClient_stdout c' = AppServerClient_stdout c →
  AppServerClient_queued_lines c' = AppServerClient_queued_lines c →
  AppServerClient_max_line_bytes c' = AppServerClient_max_line_bytes c → moved [] n c c'.
Proof.
  intros Hs Ho Hq Hm. unfold moved, flowing. rewrite Ho, Hq, Hm. split_and!; [apply Hs..|done|].
  exists [], 0. split_and!; [constructor|lia|]. by rewrite app_nil_r.
Qed.
Lemma moved_more d n m c c' : n ≤ m → moved d n c c' → moved d m c c'.
Proof. intros Hle (?&?&l&i&?&?&?). split_and!; [done|done|]. exists l, i. split_and!; [done|lia|done]. Qed.

Lemma split_line_piece max all rest o : split_line max all = (rest, o) →
  (∃ piece, all = piece ++ rest) ∧ (o = Done None → all = [] ∧ rest = []).
Proof.
  unfold split_line, end_of_input. case_match; intros [= <- <-].
  - split; [|done]. eexists. symmetry. apply take_drop.
  - split; [eexists; symmetry; apply take_drop|]. intros Ho.
    destruct (take (next_length all) all) as [|b l] eqn:Ht; [|unfold line_text in Ho; by case_match].
    assert (all = []) as ->; [|done]. destruct all as [|b all]; [done|]. unfold next_length in Ht.
    by destruct (position_newline (b :: all)).
Qed.
Definition read_result (max : Z) (all rest : list u8) (o : outcome (option string)) : Prop :=
  match o with
  | Done (Some line) => split_line max all = (rest, Done (Some line))
  | Done None => all = [] ∧ rest = []
  | Failed _ | Dropped => ∃ piece, all = piece ++ rest
  | OutOfFuel => False
  end.
Lemma split_read_result max all rest o :
  split_line max all = (rest, o) → o ≠ Dropped → o ≠ OutOfFuel → read_result max all rest o.
Proof.
  intros Hs Hd Hf. pose proof (split_line_piece _ _ _ _ Hs) as [Hp Hn].
  destruct o as [[line|]|e| |]; simpl; auto.
Qed.
Lemma scan_outcome max bytes available buffer o : scan max bytes available = inl (buffer, o) →
  o ≠ Dropped ∧ o ≠ OutOfFuel.
Proof. unfold scan, line_text. repeat case_match; by intros [= <- <-]. Qed.
(** A read of any stream. *)
Lemma read_any max reader r o :
  (0 ≤ max < u64_max)%Z → Forall (λ a, a ≠ Data []) (ChildStdout_arrivals reader) →
  read_bounded_line max reader = (r, o) →
  Forall (λ a, a ≠ Data []) (ChildStdout_arrivals r) ∧ read_result max (contents reader) (contents r) o.
Proof.
  intros Hmax.
  assert (∀ arrivals bytes r o, partial_line max bytes → Forall (λ a, a ≠ Data []) arrivals →
    read_arrivals max bytes arrivals = (r, o) →
    Forall (λ a, a ≠ Data []) (ChildStdout_arrivals r) ∧
    read_result max (bytes ++ (arrivals ≫= arrival_bytes)) (contents r) o) as Ha.
  { induction arrivals as [|a arrivals IH]; intros bytes r' o' Hb Hall; simpl.
    { intros [= <- <-]. split; [done|]. rewrite app_nil_r. apply split_read_result.
      - by apply end_of_stream.
      - unfold end_of_input, line_text. by repeat case_match.
      - apply end_of_input_fueled. }
    apply list.Forall_cons in Hall as [Hne Hall]. destruct a as [[|b l]|e|]; [done| | |].
    - pose proof (scan_refines max Hmax bytes (b :: l) (arrivals ≫= arrival_bytes) Hb ltac:(done)) as Hs.
      destruct (scan max bytes (b :: l)) as [[buffer o1]|bytes'] eqn:Hsc.
      + intros [= <- <-]. split; [done|]. apply scan_outcome in Hsc as [? ?]. by apply split_read_result.
      + destruct Hs as [-> Hb']. intros Hr. apply IH in Hr; [|done..]. by rewrite <-app_assoc in Hr.
    - intros [= <- <-]. split; [done|]. by exists bytes.
    - intros [= <- <-]. split; [done|]. by exists bytes. }
  assert (partial_line max []) as H0' by (split; [done|unfold lenZ; simpl; lia]).
  intros Hall. unfold read_bounded_line. destruct reader as [[|b buffer] arrivals]; simpl in *.
  - intros Hr. by apply Ha in Hr.
  - pose proof (scan_refines max Hmax [] (b :: buffer) (arrivals ≫= arrival_bytes) H0' ltac:(done)) as Hs.
    destruct (scan max [] (b :: buffer)) as [[buffer' o1]|bytes] eqn:Hsc.
    + intros [= <- <-]. split; [done|]. apply scan_outcome in Hsc as [? ?]. by apply split_read_result.
    + destruct Hs as [-> Hb']. intros Hr. by apply Ha in Hr.
Qed.

(** One read: a line that is no notification is done with; a notification is
    to be handed on, or is lost; a read without a line loses a piece at most. *)
Lemma moved_read c stdout o :
  flowing c → read_bounded_line (AppServerClient_max_line_bytes c) (AppServerClient_stdout c) = (stdout, o) →
  moved [] 1 c (with_stdout stdout c) ∧
  (o = Done None → moved [] 0 c (with_stdout stdout c)) ∧
  ∀ line, o = Done (Some line) →
    match parse_json_line line (AppServerClient_max_line_bytes c) with
    | Ok value =>
        if is_notification value
        then moved [] 0 c (push_line (trim_line_end line) (with_stdout stdout c)) ∧
             (AppServerClient_queued_lines c = [] → moved [trim_line_end line] 0 c (with_stdout stdout c))
        else moved [] 0 c (with_stdout stdout c)
    | Err _ => moved [] 0 c (with_stdout stdout c)
    end.
Proof.
  intros [Hm Hs] Hr. apply read_any in Hr as [Hs' Hr]; [|done..].
  assert (∀ d n c', AppServerClient_stdout c' = stdout →
    AppServerClient_max_line_bytes c' = AppServerClient_max_line_bytes c → ∀ lines lost,
    consumed (AppServerClient_max_line_bytes c) (contents (AppServerClient_stdout c)) lines lost (contents stdout) →
    lost ≤ n → d ++ AppServerClient_queued_lines c' =
      AppServerClient_queued_lines c ++ notifications (AppServerClient_max_line_bytes c) lines →
    moved d n c c') as Hmoved.
  { intros d n c' <- Hm' lines lost Hc Hl Hq. split; [by split; [rewrite Hm'|]|]. split; [done|]. eauto. }
  split_and!.
  - destruct o as [[line|]|e| |]; simpl in Hr; [..|done].
    + apply split_line_piece in Hr as [[piece Hp] _].
      refine (Hmoved _ _ _ _ _ [] 1 _ _ _); [done|done| |done|by rewrite app_nil_r]. rewrite Hp. do 2 constructor.
    + destruct Hr as [Hc Hc']. refine (Hmoved _ _ _ _ _ [] 0 _ _ _); [done|done| |lia|by rewrite app_nil_r].
      rewrite Hc, Hc'. constructor.
    + destruct Hr as [piece Hp].
      refine (Hmoved _ _ _ _ _ [] 1 _ _ _); [done|done| |done|by rewrite app_nil_r]. rewrite Hp. do 2 constructor.
    + destruct Hr as [piece Hp].
      refine (Hmoved _ _ _ _ _ [] 1 _ _ _); [done|done| |done|by rewrite app_nil_r]. rewrite Hp. do 2 constructor.
  - intros ->. destruct Hr as [Hc Hc']. refine (Hmoved _ _ _ _ _ [] 0 _ _ _); [done|done| |lia|by rewrite app_nil_r].
    rewrite Hc, Hc'. constructor.
  - intros line ->. simpl in Hr.
    assert (consumed (AppServerClient_max_line_bytes c) (contents (AppServerClient_stdout c)) [line] 0
      (contents stdout)) as Hc by (econstructor; [done|constructor]).
    destruct (parse_json_line _ _) as [value|e] eqn:Hp.
    + destruct (is_notification value) eqn:Hn; [split; [|intros Hq]|];
        refine (Hmoved _ _ _ _ _ [line] 0 _ _ _); try done; simpl; rewrite Hp, Hn; simpl; [done| |].
      * by rewrite Hq.
      * by rewrite app_nil_r.
    + refine (Hmoved _ _ _ _ _ [line] 0 _ _ _); try done. simpl. rewrite Hp. simpl. by rewrite app_nil_r.
Qed.

(** What a call that ends this way may have lost. *)
Definition failures {A} (o : outcome A) : nat :=
  match o with Done _ | Failed (RpcRemote _) => 0 | _ => 1 end.
Lemma request_loop_moved fuel id c c' o :
  flowing c → request_loop fuel id c = (c', o) → moved [] (failures o) c c'.
Proof.
  revert c. induction fuel as [|fuel IH]; intros c Hc; simpl.
  { intros [= <- <-]. by apply moved_nothing. }
  destruct (read_bounded_line _ _) as [stdout read] eqn:Hread.
  destruct (moved_read _ _ _ Hc Hread) as (Hlost&_&Hline).
  destruct read as [[line|]|e| |]; simpl; try (intros [= <- <-]; done).
  2: { intros [= <- <-]. destruct e; simpl; try done.
    apply read_fails in Hread as (?&[?|?]); done. }
  specialize (Hline line eq_refl). destruct (parse_json_line _ _) as [value|e].
  2: { intros [= <- <-]. by eapply moved_more; [|exact Hline]; lia. }
  destruct (is_notification value).
  - case_match; [by intros [= <- <-]|]. destruct Hline as [Ht _]. intros Hr.
    apply IH in Hr; [|apply Ht]. by apply (moved_trans [] [] _ _ _ _ _ Ht).
  - destruct (JsonRpcResponse_from_value value) as [response|e]; [|by intros [= <- <-]].
    case_match; [repeat case_match; intros [= <- <-]; done|].
    case_match; [by intros [= <- <-]|]. intros Hr.
    apply IH in Hr; [|apply Hline]. by apply (moved_trans [] [] _ _ _ _ _ Hline).
Qed.
Lemma request_moved pipe method params c c' o :
  flowing c → request pipe method params c = (c', o) → moved [] (failures o) c c'.
Proof.
  intros Hc. unfold request, write_line. destruct pipe as [u|e].
  2: { intros [= <- <-]. by apply moved_nothing. }
  destruct (list_find _ _) as [[index response]|].
  - intros [= <- <-]. by apply moved_nothing.
  - intros Hr. by apply request_loop_moved in Hr.
Qed.
Definition given_out (o : outcome (option string)) : list string :=
  match o with Done (Some line) => [line] | _ => [] end.
Lemma next_line_loop_moved fuel c c' o :
  flowing c → AppServerClient_queued_lines c = [] →
  next_line_loop fuel c = (c', o) → moved (given_out o) (failures o) c c'.
Proof.
  revert c. induction fuel as [|fuel IH]; intros c Hc Hq; simpl.
  { intros [= <- <-]. by apply moved_nothing. }
  destruct (read_bounded_line _ _) as [stdout read] eqn:Hread.
  destruct (moved_read _ _ _ Hc Hread) as (Hlost&Hend&Hline).
  destruct read as [[line|]|e| |]; simpl; try (intros [= <- <-]; simpl; auto; done).
  2: { intros [= <- <-]. destruct e; simpl; try done.
    apply read_fails in Hread as (?&[?|?]); done. }
  specialize (Hline line eq_refl). destruct (parse_json_line _ _) as [value|e].
  2: { intros [= <- <-]. by eapply moved_more; [|exact Hline]; lia. }
  rewrite response_is_no_notification. destruct (is_notification value); simpl.
  - intros [= <- <-]. by apply Hline.
  - destruct (JsonRpcResponse_from_value value) as [response|e]; [|by intros [= <- <-]].
    case_match; [by intros [= <- <-]|]. intros Hr. apply IH in Hr; [|apply Hline|done].
    by apply (moved_trans [] _ _ _ _ _ _ Hline).
Qed.
Lemma next_line_moved c c' o :
  flowing c → next_line c = (c', o) → moved (given_out o) (failures o) c c'.
Proof.
  intros Hc. unfold next_line. destruct (AppServerClient_queued_lines c) as [|l rest] eqn:Hq.
  - by apply next_line_loop_moved.
  - intros [= <- <-]. split; [done|]. split; [done|]. exists [], 0. split_and!; [constructor|done|].
    by rewrite app_nil_r, Hq.
Qed.
Lemma write_moved pipe v c : flowing c → moved [] 0 c (write_line pipe v c).1.
Proof. intros Hc. unfold write_line. destruct pipe; by apply moved_nothing. Qed.

(** The calls of a session, the lines it is given, and how many of the calls
    failed or were dropped. *)
Inductive client_call :=
| CallRequest (pipe : result string unit) (method : string) (params : Value)
| CallRespond (pipe : result string unit) (id res : Value)
| CallNotify (pipe : result string unit) (method : string) (params : Value)
| CallNextLine.
Definition client_do (call : client_call) (c : AppServerClient)
    : AppServerClient * list string * nat :=
  match call with
  | CallRequest pipe method params =>
      let '(c, o) := request pipe method params c in (c, [], failures o)
  | CallRespond pipe id res => ((respond pipe id res c).1, [], 0)
  | CallNotify pipe method params => ((notify pipe method params c).1, [], 0)
  | CallNextLine => let '(c, o) := next_line c in (c, given_out o, failures o)
  end.
Fixpoint client_run (calls : list client_call) (c : AppServerClient)
    : AppServerClient * list string * nat :=
  match calls with
  | [] => (c, [], 0)
  | call :: calls =>
      let '(c, given, failed) := client_do call c in
      let '(c, later, failed') := client_run calls c in
      (c, given ++ later, failed + failed')
  end.
Lemma client_do_moved call c : flowing c →
  let '(c', given, failed) := client_do call c in moved given failed c c'.
Proof.
  intros Hc. destruct call as [pipe method params|pipe id res|pipe method params|]; simpl.
  - destruct (request pipe method params c) as [c1 o] eqn:Hr. by eapply request_moved.
  - by apply write_moved.
  - by apply write_moved.
  - destruct (next_line c) as [c1 o] eqn:Hn. by apply next_line_moved.
Qed.

(** C22: requests and reads share one stream, and what is handed on keeps its
    order.  Whatever calls are made, however they end and however the bytes
    arrive, reads failing or being dropped in between: the lines given out and
    those still queued are exactly the notifications among the lines read, in
    order; and everything of the stream was read as a line, except for at most
    one piece for each call that failed or was dropped.  So nothing is lost by
    calls that succeed; a dropped read does lose what it had
    ([dropped_read_loses_bytes]). *)
Theorem notifications_in_order calls c :
  flowing c →
  let '(c', given, failed) := client_run calls c in
  ∃ lines lost, consumed (AppServerClient_max_line_bytes c)
      (contents (AppServerClient_stdout c)) lines lost (contents (AppServerClient_stdout c')) ∧
    lost ≤ failed ∧
    given ++ AppServerClient_queued_lines c' =
      AppServerClient_queued_lines c ++ notifications (AppServerClient_max_line_bytes c) lines.
Proof.
  intros Hc. assert (let '(c', given, failed) := client_run calls c in moved given failed c c') as Ht.
  2: { destruct (client_run calls c) as [[c' given] failed]. apply Ht. }
  revert c Hc. induction calls as [|call calls IH]; intros c Hc; simpl; [by apply moved_nothing|].
  pose proof (client_do_moved call c Hc) as Hd. destruct (client_do call c) as [[c1 g] n].
  specialize (IH c1 (proj1 Hd)). destruct (client_run calls c1) as [[c2 later] m].
  by eapply moved_trans.
Qed.
End client_laws.

(** A read that is dropped half-way loses what it has read: when the app
    server prints a line in two pieces and the reading future is dropped
    between them, the first piece is gone and the next read starts in the
    middle of the line. *)
Theorem dropped_read_loses_bytes max_bytes piece rest :
  (0 ≤ max_bytes < u64_max)%Z → piece ≠ [] → partial_line max_bytes piece →
  let before := {| ChildStdout_buffer := []; ChildStdout_arrivals := Data piece :: Interruption :: rest |} in
  let after := {| ChildStdout_buffer := []; ChildStdout_arrivals := rest |} in
  read_bounded_line max_bytes before = (after, Dropped) ∧
  contents before = piece ++ contents after.
Proof.
  intros Hm Hp [Hn Hl]. split; [|done]. unfold read_bounded_line. simpl.
  destruct piece as [|b l]; [done|].
  destruct (scan max_bytes [] (b :: l)) as [[buffer o]|bytes] eqn:E; [|done].
  exfalso. unfold scan, saturating_add in E. rewrite Hn in E. case_match; guards; [|done].
  unfold lenZ in *. simpl in *. lia.
Qed.

(** The child is not left running by a shutdown that succeeds, and it is
    waited for last. *)
Lemma shutdown_reaps a calls :
  shutdown a = (calls, Ok tt) →
  last calls = Some WaitExit ∧ (ChildAnswers_try_wait a = Ok true ∨ TerminateJob ∈ calls).
Proof.
  unfold shutdown. repeat case_match; intros [= <-]; split; try done; try (by left); right; set_solver.
Qed.

(** ** A concrete stream *)
Module AppServerExamples.
Import Json RedactionExamples RecoveryPackageExamples CodedJson.

Definition as_reader (arrivals : list arrival) : ChildStdout :=
  {| ChildStdout_buffer := []; ChildStdout_arrivals := arrivals |}.
Definition as_hi : list u8 := [104; 105; 10]%Z.
Lemma reading_ignores_chunks_witness :
  (read_bounded_line 10 (as_reader [Data as_hi])).2 = Done (Some (bytes_str as_hi)) ∧
  (read_bounded_line 10 (as_reader [Data as_hi])).2 =
  (read_bounded_line 10 (as_reader [Data [104%Z]; Data [105%Z; newline]])).2.
Proof.
  split; [vm_compute; reflexivity|].
  refine (proj1 (reading_ignores_chunks 10 (as_reader [Data as_hi])
    (as_reader [Data [104%Z]; Data [105%Z; newline]]) _ _ _ _)).
  - done.
  - unfold steady. simpl. repeat constructor; by repeat eexists.
  - unfold steady. simpl. repeat constructor; by repeat eexists.
  - reflexivity.
Defined.
Lemma dropped_read_loses_bytes_witness :
  read_bounded_line 10 (as_reader [Data [104%Z]; Interruption; Data [105%Z; newline]])
    = (as_reader [Data [105%Z; newline]], Dropped).
Proof.
  refine (proj1 (dropped_read_loses_bytes 10 [104%Z] [Data [105%Z; newline]] _ _ _)); [done|done|].
  split; [reflexivity|]. done.
Defined.

(** A request is answered after a notification: the notification is next. *)
Definition as_line (l : list (string * json)) : list u8 :=
  str_bytes (to_vec (json_object l)) ++ [newline].
Definition as_client : AppServerClient := spawn_app_server (as_reader
  [Data (as_line [("method", JStr "warning")] ++ as_line [("id", JNum 1); ("result", JNull)])]).
Definition as_calls : list client_call :=
  [CallRequest (Ok tt) "initialize" JNull; CallNextLine].
(** The same with the read of the next line dropped once in between. *)
Definition as_cut : AppServerClient := spawn_app_server (as_reader
  [Data (as_line [("id", JNum 1); ("result", JNull)]); Data (take 3 (as_line [("method", JStr "warning")]));
   Interruption; Data (as_line [("method", JStr "warning")])]).
Definition as_end (c : AppServerClient) : AppServerClient * list string * nat :=
  client_run (as_calls ++ [CallNextLine]) c.
Lemma notifications_in_order_witness :
  length (as_end as_client).1.2 = 1 ∧ (as_end as_client).2 = 0 ∧
  length (as_end as_cut).1.2 = 1 ∧ (as_end as_cut).2 = 1 ∧
  ∃ lines lost, consumed (4 * 1024 * 1024) (contents (AppServerClient_stdout as_cut)) lines lost
      (contents (AppServerClient_stdout (as_end as_cut).1.1)) ∧ lost ≤ (as_end as_cut).2 ∧
    (as_end as_cut).1.2 ++ AppServerClient_queued_lines (as_end as_cut).1.1 =
      [] ++ notifications (4 * 1024 * 1024) lines.
Proof.
  do 4 (split; [vm_compute; reflexivity|]).
  assert (flowing as_cut) as Hf.
  { split; [done|]. apply (bool_decide_unpack _). vm_compute. reflexivity. }
  pose proof (notifications_in_order (as_calls ++ [CallNextLine]) as_cut Hf) as Hn.
  fold (as_end as_cut) in Hn. destruct (as_end as_cut) as [[c' given] failed]. exact Hn.
Defined.
End AppServerExamples.
