(* ===== verification/CodexSession.v ===== *)
(** * A running Codex agent ([crates/adapter-codex/src/process.rs])

    The task that [CodexAdapter::start] spawns: it opens a thread on the app
    server and then, until the run is over, handles one control message or
    one line at a time; every approval request it reads gets a timer, which
    sends a refusal over the control channel.  A control message carries what the pipe to the child
    answers to the writes it causes; event identifiers come from [fresh], by
    the number of events emitted before. *)

From S2P Require Import Prelude Extern Ids Event AdapterCore Redaction Ledger RecoveryPackage ServiceData Service.
From S2P Require Import Frame ServiceExamples Normalize AppServer.
From Stdlib Require Import ZArith Lia.
From stdpp Require Import prelude gmap strings.

(** [thiserror]'s texts. *)
Definition JsonRpcError_display (e : JsonRpcError) : string :=
  match e with
  | RpcStart error => "failed to start app-server: " +:+ error
  | RpcTimeout => "app-server request timed out"
  | RpcJson error => "app-server returned invalid JSON: " +:+ error
  | RpcClosed => "app-server closed stdout"
  | RpcRemote error => "app-server returned JSON-RPC error: " +:+ error
  | RpcProtocol error => "app-server protocol limit exceeded: " +:+ error
  end.

Section session.
Context `{SerdeJson, Sha256, RegexCrate, !JsonParse, !DisplayFmt NativeParseError}.
Context (fresh : nat → EventId).

(** What the task is started with. *)
Record Run := {
  Run_id : string;
  Run_thread_id : string;
  Run_contract_version : u64;
  Run_loadout_fingerprint : string;
}.
(** [timers] are the approval requests a thirty-second timer was started for,
    in order; [over] says that the loop was left. *)
Record Session := {
  Session_client : AppServerClient;
  Session_turn_id : option string;
  Session_paused : bool;
  Session_pending : gset string;
  Session_timers : list Value;
  Session_emitted : list AgentEvent;
  Session_over : bool;
}.
Definition on_client (c : AppServerClient) (s : Session) : Session := {|
  Session_client := c; Session_turn_id := Session_turn_id s; Session_paused := Session_paused s;
  Session_pending := Session_pending s; Session_timers := Session_timers s;
  Session_emitted := Session_emitted s; Session_over := Session_over s |}.
Definition set_turn (turn_id : option string) (s : Session) : Session := {|
  Session_client := Session_client s; Session_turn_id := turn_id;
  Session_paused := Session_paused s; Session_pending := Session_pending s;
  Session_timers := Session_timers s; Session_emitted := Session_emitted s;
  Session_over := Session_over s |}.
Definition set_paused (s : Session) : Session := {|
  Session_client := Session_client s; Session_turn_id := Session_turn_id s;
  Session_paused := true; Session_pending := Session_pending s;
  Session_timers := Session_timers s; Session_emitted := Session_emitted s;
  Session_over := Session_over s |}.
Definition set_pending (pending : gset string) (timers : list Value) (s : Session) : Session := {|
  Session_client := Session_client s; Session_turn_id := Session_turn_id s;
  Session_paused := Session_paused s; Session_pending := pending; Session_timers := timers;
  Session_emitted := Session_emitted s; Session_over := Session_over s |}.
Definition leave (s : Session) : Session := {|
  Session_client := Session_client s; Session_turn_id := Session_turn_id s;
  Session_paused := Session_paused s; Session_pending := Session_pending s;
  Session_timers := Session_timers s; Session_emitted := Session_emitted s;
  Session_over := true |}.
Definition emit (e : AgentEvent) (s : Session) : Session := {|
  Session_client := Session_client s; Session_turn_id := Session_turn_id s;
  Session_paused := Session_paused s; Session_pending := Session_pending s;
  Session_timers := Session_timers s; Session_emitted := Session_emitted s ++ [e];
  Session_over := Session_over s |}.
Definition next_event (s : Session) : EventId := fresh (length (Session_emitted s)).

Definition protocol_error (event_id : EventId) (run_id error : string) : AgentEvent := {|
  AgentEvent_event_id := event_id; AgentEvent_agent_run_id := Some run_id;
  AgentEvent_event_kind := UnknownKind "adapter.protocol_error";
  AgentEvent_payload := json_object [("error", Value_String error)];
  AgentEvent_requires_safe_pause := true;
  AgentEvent_raw_evidence := Some (json_object [("error", Value_String error)]) |}.
Definition emit_protocol_error (run : Run) (error : string) (s : Session) : Session :=
  emit (protocol_error (next_event s) (Run_id run) error) s.
Definition json_opt (o : option string) : Value :=
  match o with Some text => Value_String text | None => Value_Null end.

(** ** One control message *)
Definition on_pause (run : Run) (pipe : result string unit) (reason : string) (s : Session)
    : Session :=
  match Session_turn_id s with
  | None => emit_protocol_error run "turn/interrupt requested before turn/started" s
  | Some active_turn_id =>
      let '(c, answer) := request pipe "turn/interrupt"
        (json_object [("threadId", Value_String (Run_thread_id run));
                      ("turnId", Value_String active_turn_id)]) (Session_client s) in
      let s := on_client c s in
      match answer with
      | Done _ =>
          emit {| AgentEvent_event_id := next_event s;
            AgentEvent_agent_run_id := Some (Run_id run);
            AgentEvent_event_kind := PauseRequested;
            AgentEvent_payload := json_object [("reason", Value_String reason);
              ("thread_id", Value_String (Run_thread_id run));
              ("turn_id", json_opt (Session_turn_id s))];
            AgentEvent_requires_safe_pause := false; AgentEvent_raw_evidence := None |}
            (set_paused s)
      | Failed error =>
          emit_protocol_error run ("turn/interrupt: " +:+ JsonRpcError_display error) s
      | Dropped | OutOfFuel => s
      end
  end.
Definition on_answer (run : Run) (pipe : result string unit) (request_id : Value)
    (decision : string) (s : Session) : Session :=
  let key := rpc_id_key request_id in
  if bool_decide (key ∈ Session_pending s) then
    let s := set_pending (Session_pending s ∖ {[ key ]}) (Session_timers s) s in
    let '(c, answered) := respond pipe request_id
      (json_object [("decision", Value_String decision)]) (Session_client s) in
    let s := on_client c s in
    match answered with
    | Ok _ => s
    | Err _ => emit_protocol_error run "approval response failed" s
    end
  else s.
Definition on_control (run : Run) (pipe : result string unit) (control : option AgentControl)
    (s : Session) : Session :=
  match control with
  | Some (ControlSafePause reason) => if Session_paused s then s else on_pause run pipe reason s
  | Some (RespondToServerRequest request_id decision) => on_answer run pipe request_id decision s
  | Some ControlTerminate => leave s
  | None => s
  end.

(** ** One line *)
Definition on_line (run : Run) (line : string) (s : Session) : Session :=
  match value_from_str line with
  | Err error => emit_protocol_error run ("invalid inbound message: " +:+ error) s
  | Ok value =>
      match codex_approval_event (next_event s) (Run_id run) (Run_contract_version run)
              (Run_loadout_fingerprint run) value with
      | Some event =>
          let request_id := default Value_Null (Value_get value "id") in
          emit event (set_pending ({[ rpc_id_key request_id ]} ∪ Session_pending s)
                        (Session_timers s ++ [request_id]) s)
      | None =>
          let event := NormalizedEvent_event (codex_normalize_line_lossless (next_event s) line) in
          let s := match Value_get (AgentEvent_payload event) "turnId" ≫= Value_as_str with
                   | Some value => set_turn (Some value) s
                   | None => s
                   end in
          emit {| AgentEvent_event_id := AgentEvent_event_id event;
            AgentEvent_agent_run_id := Some (Run_id run);
            AgentEvent_event_kind := AgentEvent_event_kind event;
            AgentEvent_payload := AgentEvent_payload event;
            AgentEvent_requires_safe_pause := AgentEvent_requires_safe_pause event;
            AgentEvent_raw_evidence := AgentEvent_raw_evidence event |} s
      end
  end.
Definition on_read (run : Run) (s : Session) : Session :=
  let '(c, read) := next_line (Session_client s) in
  let s := on_client c s in
  match read with
  | Done (Some line) => on_line run line s
  | Done None =>
      leave (emit {| AgentEvent_event_id := next_event s;
        AgentEvent_agent_run_id := Some (Run_id run);
        AgentEvent_event_kind := UnknownKind "adapter.stdout_eof";
        AgentEvent_payload := json_object [("run_id", Value_String (Run_id run))];
        AgentEvent_requires_safe_pause := true;
        AgentEvent_raw_evidence :=
          Some (json_object [("reason", Value_String "stdout_eof")]) |} s)
  | Failed error => leave (emit_protocol_error run (JsonRpcError_display error) s)
  | Dropped | OutOfFuel => s
  end.

(** The branch of the [select!] that completes. *)
Inductive branch :=
| BranchControl (pipe : result string unit) (control : option AgentControl)
| BranchRead.
Definition session_step (run : Run) (b : branch) (s : Session) : Session :=
  if Session_over s then s else
  match b with
  | BranchControl pipe control => on_control run pipe control s
  | BranchRead => on_read run s
  end.
Definition session_run (run : Run) (branches : list branch) (s : Session) : Session :=
  foldl (λ s b, session_step run b s) s branches.

(** ** The task with its channel and its timers

    The control channel holds what was sent and not yet received; the timer
    of a request, started when the request was read, sleeps and then sends a
    refusal over the same channel, which fails once the task is over.  The
    [select!] is biased: a control message that is there goes first, and only
    without one is it the tick or a line. *)
Record Task := {
  Task_session : Session;
  Task_control : list AgentControl;
  Task_fired : list nat;
}.
Definition task_new (s : Session) : Task :=
  {| Task_session := s; Task_control := []; Task_fired := [] |}.
Definition task_send (control : AgentControl) (t : Task) : Task :=
  if Session_over (Task_session t) then t else
  {| Task_session := Task_session t; Task_control := Task_control t ++ [control];
     Task_fired := Task_fired t |}.
(** The sleep of the [n]-th timer ends. *)
Definition timer_fires (run : Run) (n : nat) (t : Task) : Task :=
  match Session_timers (Task_session t) !! n with
  | None => t
  | Some timeout_id =>
      if bool_decide (n ∈ Task_fired t) then t
      else if Session_over (Task_session t) then
        {| Task_session := emit_protocol_error run "approval timeout response dispatch failed"
             (Task_session t);
           Task_control := Task_control t; Task_fired := n :: Task_fired t |}
      else
        {| Task_session := Task_session t;
           Task_control := Task_control t ++ [RespondToServerRequest timeout_id "decline"];
           Task_fired := n :: Task_fired t |}
  end.
(** One turn of the loop; [pipe] answers the writes a control message causes,
    [read] says whether it is the line or the tick, without a message. *)
Definition task_select (run : Run) (pipe : result string unit) (read : bool) (t : Task) : Task :=
  if Session_over (Task_session t) then t else
  match Task_control t with
  | control :: rest =>
      {| Task_session := session_step run (BranchControl pipe (Some control)) (Task_session t);
         Task_control := rest; Task_fired := Task_fired t |}
  | [] =>
      if read then {| Task_session := session_step run BranchRead (Task_session t);
                      Task_control := []; Task_fired := Task_fired t |}
      else t
  end.
Inductive task_turn :=
| TurnSend (control : AgentControl)
| TurnTimer (n : nat)
| TurnSelect (pipe : result string unit) (read : bool).
Definition task_step (run : Run) (turn : task_turn) (t : Task) : Task :=
  match turn with
  | TurnSend control => task_send control t
  | TurnTimer n => timer_fires run n t
  | TurnSelect pipe read => task_select run pipe read t
  end.
Definition task_run (run : Run) (turns : list task_turn) (t : Task) : Task :=
  foldl (λ t turn, task_step run turn t) t turns.

(** ** Opening the thread *)
(** [thread.id] of the answer to the thread request. *)
Definition response_id (field : string) (response : JsonRpcResponse) : option string :=
  object ← JsonRpcResponse_result response;
  inner ← Value_get object field;
  Value_get inner "id" ≫= Value_as_str.
Definition started_thread (value : Value) : option string :=
  if bool_decide (Value_get value "method" ≫= Value_as_str = Some "thread/started") then
    params ← Value_get value "params" ≫= Value_as_object;
    thread ← (params : gmap string Value) !! "thread" ≫= Value_as_object;
    (thread : gmap string Value) !! "id" ≫= Value_as_str
  else None.
(** Reading until the server announces the thread: the thread, the lines read
    meanwhile and the error to report. *)
Record Awaited := {
  Awaited_thread : option string;
  Awaited_deferred : list string;
  Awaited_error : option JsonRpcError;
  Awaited_fueled : bool;
}.
Fixpoint await_thread (fuel : nat) (deferred : list string) (c : AppServerClient)
    : AppServerClient * Awaited :=
  let stop thread error fueled := {| Awaited_thread := thread; Awaited_deferred := deferred;
    Awaited_error := error; Awaited_fueled := fueled |} in
  match fuel with
  | O => (c, stop None None false)
  | S fuel =>
      let '(c, read) := next_line c in
      match read with
      | Done (Some line) =>
          match result_ok (value_from_str line) ≫= started_thread with
          | Some id => (c, stop (Some id) None true)
          | None => await_thread fuel (deferred ++ [line]) c
          end
      | Failed error => (c, stop None (Some error) true)
      | Done None | Dropped => (c, stop None None true)
      | OutOfFuel => (c, stop None None false)
      end
  end.
Definition await_fuel (c : AppServerClient) : nat :=
  S (length (AppServerClient_queued_lines c) + stdout_size (AppServerClient_stdout c)).
Definition requeue_lines (lines : list string) (c : AppServerClient) : AppServerClient :=
  foldr requeue_line c lines.

(** The task up to its loop: the events emitted and, unless it gave up, the
    session it enters.  [pipe] answers the write of each request. *)
Definition run_of (request : StartAgentRequest) (run_id thread_id : string) : Run := {|
  Run_id := run_id; Run_thread_id := thread_id;
  Run_contract_version := StartAgentRequest_contract_version request;
  Run_loadout_fingerprint := StartAgentRequest_loadout_fingerprint request |}.
Definition abandon_open (run_id error : string) (events : list AgentEvent)
    : list AgentEvent * option (Run * Session) :=
  (events ++ [protocol_error (fresh (length events)) run_id error], None).
Definition open_turn (start : StartAgentRequest) (run_id thread_id : string)
    (pipe : string → result string unit) (c : AppServerClient) (events : list AgentEvent)
    : list AgentEvent * option (Run * Session) :=
  match request (pipe "turn/start") "turn/start"
          (json_object [("threadId", Value_String thread_id);
             ("input", Value_Array [json_object [("type", Value_String "text");
                ("text", Value_String (default "" (StartAgentRequest_goal start)))]])]) c with
  | (c, Done response) =>
      let turn_id := response_id "turn" response in
      let event := {| AgentEvent_event_id := fresh (length events);
        AgentEvent_agent_run_id := Some run_id; AgentEvent_event_kind := AgentRunStarted;
        AgentEvent_payload := json_object [("transport", Value_String "app-server");
          ("run_id", Value_String run_id); ("thread_id", Value_String thread_id);
          ("turn_id", json_opt turn_id)];
        AgentEvent_requires_safe_pause := false; AgentEvent_raw_evidence := None |} in
      (events ++ [event], Some (run_of start run_id thread_id, {|
        Session_client := c; Session_turn_id := turn_id; Session_paused := false;
        Session_pending := ∅; Session_timers := []; Session_emitted := events ++ [event];
        Session_over := false |}))
  | (_, Failed error) =>
      abandon_open run_id ("turn/start: " +:+ JsonRpcError_display error) events
  | (_, _) => (events, None)
  end.
Definition open_session (start : StartAgentRequest) (run_id : string)
    (pipe : string → result string unit) (spawned : result JsonRpcError AppServerClient)
    : list AgentEvent * option (Run * Session) :=
  match spawned with
  | Err error => abandon_open run_id (JsonRpcError_display error) []
  | Ok c =>
  match request (pipe "initialize") "initialize"
          (json_object [("clientInfo", json_object [("name", Value_String "agent-mission-control");
             ("title", Value_String "Agent Mission Control"); ("version", Value_String "0.1.0")]);
           ("capabilities", json_object [])]) c with
  | (_, Failed error) => abandon_open run_id ("initialize: " +:+ JsonRpcError_display error) []
  | (c, Done _) =>
      let '(method, params) := thread_request start in
      match request (pipe method) method params c with
      | (_, Failed error) => abandon_open run_id (method +:+ ": " +:+ JsonRpcError_display error) []
      | (c, Done response) =>
          let '(c, thread_id, events) :=
            match response_id "thread" response with
            | Some id => (c, Some id, [])
            | None =>
                let '(c, awaited) := await_thread (await_fuel c) [] c in
                (requeue_lines (Awaited_deferred awaited) c, Awaited_thread awaited,
                 match Awaited_error awaited with
                 | Some error => [protocol_error (fresh 0) run_id
                     ("thread/started: " +:+ JsonRpcError_display error)]
                 | None => [] end)
            end in
          match thread_id with
          | None => abandon_open run_id "thread response missing thread.id" events
          | Some thread_id => open_turn start run_id thread_id pipe c events
          end
      | (_, _) => ([], None)
      end
  | (_, _) => ([], None)
  end
  end.

(** ** The adapter's table of runs

    [start] enters the sending half of a run's control channel and the task
    removes it when it ends; a channel is whether its receiver is alive and
    what was sent. *)
Record Channel := { Channel_open : bool; Channel_sent : list AgentControl }.
Definition runs_insert (run_id : string) (runs : gmap string Channel) : gmap string Channel :=
  <[run_id := {| Channel_open := true; Channel_sent := [] |}]> runs.
Definition runs_remove (run_id : string) (runs : gmap string Channel) : gmap string Channel :=
  delete run_id runs.
Definition run_send (run_id : string) (control : AgentControl)
    : stm (gmap string Channel) AdapterError unit := λ runs,
  match runs !! run_id with
  | None => (runs, Err (Unavailable "unknown run"))
  | Some channel =>
      if Channel_open channel then
        (<[run_id := {| Channel_open := true; Channel_sent := Channel_sent channel ++ [control] |}]> runs,
         Ok tt)
      else (runs, Err (Unavailable "agent run ended"))
  end.
Definition CodexAdapter_request_safe_pause (run_id : string) :=
  run_send run_id (ControlSafePause "adapter request").
Definition CodexAdapter_terminate_owned_tree (run_id : string) := run_send run_id ControlTerminate.
Definition CodexAdapter_respond_to_server_request (run_id : string) (request_id : Value)
    (decision : string) := run_send run_id (RespondToServerRequest request_id decision).
End session.

(** ** Approvals

    How often a request with a key was announced to the supervisor, and how
    often the app server was given an answer to it. *)
Section approvals.
Context `{SerdeJson, Sha256, RegexCrate, !JsonParse, !DisplayFmt NativeParseError, !SerdeJsonLaws}.
Context (fresh : nat → EventId).

Definition is_reply (key : string) (v : Value) : bool :=
  bool_decide (Value_get v "method" = None)
  && bool_decide (rpc_id_key <$> Value_get v "id" = Some key).
Definition is_asked (key : string) (e : AgentEvent) : bool :=
  bool_decide (AgentEvent_event_kind e = ApprovalRequested)
  && bool_decide (Value_get (AgentEvent_payload e) "approval_id" ≫= Value_as_str = Some key).
Definition count_if {A} (p : A → bool) (l : list A) : nat := length (List.filter p l).
Definition replies (key : string) (s : Session) : nat :=
  count_if (is_reply key) (AppServerClient_stdin (Session_client s)).
Definition asked (key : string) (s : Session) : nat :=
  count_if (is_asked key) (Session_emitted s).
Definition outstanding (key : string) (s : Session) : nat :=
  if bool_decide (key ∈ Session_pending s) then 1 else 0.

Lemma count_if_app {A} (p : A → bool) l k : count_if p (l ++ k) = count_if p l + count_if p k.
Proof. unfold count_if. by rewrite List.filter_app, length_app. Qed.

(** Requests are no answers, and reading writes nothing. *)
Lemma request_loop_stdin fuel id c :
  AppServerClient_stdin (request_loop fuel id c).1 = AppServerClient_stdin c.
Proof.
  revert c. induction fuel as [|fuel IH]; intros c; simpl; [done|].
  destruct (read_bounded_line _ _) as [stdout [[line|]|e| |]]; try done.
  destruct (parse_json_line _ _); [|done].
  repeat case_match; try done; by rewrite IH.
Qed.
Lemma request_replies key pipe method params c :
  count_if (is_reply key) (AppServerClient_stdin (request pipe method params c).1)
  = count_if (is_reply key) (AppServerClient_stdin c).
Proof.
  unfold request, write_line. destruct pipe as [u|e]; [|done].
  assert (∀ v, Value_get v "method" ≠ None →
    count_if (is_reply key) (AppServerClient_stdin c ++ [v])
    = count_if (is_reply key) (AppServerClient_stdin c)) as Hv.
  { intros v Hm. rewrite count_if_app. unfold count_if at 2, is_reply. simpl.
    rewrite bool_decide_eq_false_2 by done. simpl. lia. }
  destruct (list_find _ _) as [[index response]|].
  - apply Hv. unfold json_object. by rewrite get_Object.
  - rewrite request_loop_stdin. apply Hv. unfold json_object. by rewrite get_Object.
Qed.
Lemma next_line_stdin c : AppServerClient_stdin (next_line c).1 = AppServerClient_stdin c.
Proof.
  unfold next_line. destruct (AppServerClient_queued_lines c); [|done].
  generalize (client_fuel c). intros fuel. revert c. induction fuel as [|fuel IH]; intros c; simpl; [done|].
  destruct (read_bounded_line _ _) as [stdout [[line|]|e| |]]; try done.
  destruct (parse_json_line _ _); [|done].
  repeat case_match; try done; by rewrite IH.
Qed.

(** One turn: the balance of a key never falls. *)
Definition balanced (key : string) (s s' : Session) : Prop :=
  replies key s' + outstanding key s' + asked key s
    ≤ replies key s + outstanding key s + asked key s'.
#[local] Instance balanced_preorder key : PreOrder (balanced key).
Proof. split; [intros s|intros s1 s2 s3]; unfold balanced; lia. Qed.

Lemma balanced_emit key e s : balanced key s (emit e s).
Proof.
  unfold balanced, replies, outstanding, asked. simpl. rewrite count_if_app. lia.
Qed.
Lemma balanced_error key run error s : balanced key s (emit_protocol_error fresh run error s).
Proof. apply balanced_emit. Qed.
Lemma balanced_leave key s : balanced key s (leave s).
Proof. unfold balanced. done. Qed.
Lemma balanced_client key c s :
  count_if (is_reply key) (AppServerClient_stdin c) = replies key s →
  balanced key s (on_client c s).
Proof. intros Hc. unfold balanced, replies, outstanding, asked in *. simpl. lia. Qed.

Lemma approval_event_asks event_id run_id cv fp value e :
  codex_approval_event event_id run_id cv fp value = Some e →
  ∃ id, Value_get value "id" = Some id ∧
    (∀ key, is_asked key e = bool_decide (rpc_id_key id = key)) ∧
    AgentEvent_event_kind e = ApprovalRequested ∧ AgentEvent_requires_safe_pause e = true.
Proof.
  unfold codex_approval_event. destruct (Value_get value "id") as [id|]; [|done]. simpl.
  destruct (Value_get value "method" ≫= Value_as_str) as [method|]; [|done]. simpl.
  destruct (is_approval_method method); [|done]. intros [= <-]. exists id. split_and!; try done.
  intros key. unfold is_asked. cbn [AgentEvent_event_kind AgentEvent_payload].
  rewrite bool_decide_eq_true_2 by done. unfold json_object. rewrite get_Object. simpl.
  rewrite lookup_insert_ne, lookup_insert_eq by done. simpl. rewrite as_str_String.
  apply bool_decide_ext. naive_solver.
Qed.
Lemma on_line_balanced key run line s : balanced key s (on_line fresh run line s).
Proof.
  unfold on_line. destruct (value_from_str line) as [value|e]; [|apply balanced_error].
  destruct (codex_approval_event _ _ _ _ value) as [e|] eqn:He.
  - apply approval_event_asks in He as (id&->&Ha&_). simpl.
    unfold balanced, replies, outstanding, asked. simpl. rewrite count_if_app.
    unfold count_if at 5. simpl. rewrite Ha.
    repeat case_bool_decide; simpl; try lia. set_solver.
  - etrans; [|apply balanced_emit].
    unfold balanced. by destruct (Value_get _ "turnId" ≫= Value_as_str).
Qed.
Lemma on_read_balanced key run s : balanced key s (on_read fresh run s).
Proof.
  unfold on_read. pose proof (next_line_stdin (Session_client s)) as Hn.
  destruct (next_line (Session_client s)) as [c read]. simpl in Hn.
  assert (balanced key s (on_client c s)) as Hc.
  { apply balanced_client. unfold replies. by rewrite Hn. }
  destruct read as [[line|]|e| |]; try done.
  - etrans; [exact Hc|apply on_line_balanced].
  - etrans; [exact Hc|]. etrans; [apply balanced_emit|apply balanced_leave].
  - etrans; [exact Hc|]. etrans; [apply balanced_emit|apply balanced_leave].
Qed.
Lemma on_pause_balanced key run pipe reason s : balanced key s (on_pause fresh run pipe reason s).
Proof.
  unfold on_pause. destruct (Session_turn_id s) as [turn|] eqn:Ht; [|apply balanced_error].
  pose proof (λ params, request_replies key pipe "turn/interrupt" params (Session_client s)) as Hr.
  match goal with |- context[request pipe _ ?p _] => specialize (Hr p) end.
  destruct (request pipe _ _ _) as [c answer]. simpl in Hr.
  assert (balanced key s (on_client c s)) as Hc by (by apply balanced_client).
  destruct answer as [response|e| |]; try done.
  - etrans; [exact Hc|]. etrans; [|apply balanced_emit]. unfold balanced. done.
  - etrans; [exact Hc|apply balanced_error].
Qed.
Lemma on_answer_balanced key run pipe request_id decision s :
  balanced key s (on_answer fresh run pipe request_id decision s).
Proof.
  unfold on_answer. case_bool_decide as Hp; [|done].
  assert (∀ c, (c = Session_client s ∨ AppServerClient_stdin c =
      AppServerClient_stdin (Session_client s) ++ [json_object [("jsonrpc", Value_String "2.0");
        ("id", request_id); ("result", json_object [("decision", Value_String decision)])]]) →
    balanced key s (on_client c (set_pending (Session_pending s ∖ {[rpc_id_key request_id]})
      (Session_timers s) s))) as Hb.
  { intros c Hc. unfold balanced, replies, outstanding, asked. simpl.
    assert (count_if (is_reply key) (AppServerClient_stdin c) ≤
      count_if (is_reply key) (AppServerClient_stdin (Session_client s))
      + (if bool_decide (rpc_id_key request_id = key) then 1 else 0)) as Hl.
    { destruct Hc as [->| ->]; [lia|]. rewrite count_if_app. apply Nat.add_le_mono_l.
      unfold count_if, is_reply, json_object. cbn [List.filter]. rewrite !get_Object.
      change (list_to_map _ !! "id") with (Some request_id). simpl.
      repeat case_bool_decide; simpl; try lia; naive_solver. }
    repeat case_bool_decide; try lia; set_solver. }
  unfold respond, write_line. destruct pipe as [u|e].
  - apply Hb. by right.
  - etrans; [apply Hb; by left|apply balanced_error].
Qed.
Lemma session_step_balanced key run b s : balanced key s (session_step fresh run b s).
Proof.
  unfold session_step. destruct (Session_over s); [done|].
  destruct b as [pipe [[reason| |request_id decision]|]|]; simpl; try done.
  - destruct (Session_paused s); [done|apply on_pause_balanced].
  - apply balanced_leave.
  - apply on_answer_balanced.
  - apply on_read_balanced.
Qed.
Lemma task_run_balanced key run turns t :
  balanced key (Task_session t) (Task_session (task_run fresh run turns t)).
Proof.
  revert t. induction turns as [|turn turns IH]; intros t; [done|]. simpl. etrans; [|apply IH].
  destruct turn as [control|n|pipe read]; simpl.
  - unfold task_send. by destruct (Session_over _).
  - unfold timer_fires. destruct (_ !! n); [|done]. case_bool_decide; [done|].
    destruct (Session_over _); [apply balanced_emit|done].
  - unfold task_select. destruct (Session_over _); [done|].
    destruct (Task_control t); [destruct read; [|done]|]; apply session_step_balanced.
Qed.

(** *** What is written *)
Definition approval_answer (request_id : Value) (decision : string) : Value :=
  json_object [("jsonrpc", Value_String "2.0"); ("id", request_id);
    ("result", json_object [("decision", Value_String decision)])].
Lemma request_stdin pipe method params c v :
  v ∈ AppServerClient_stdin (request pipe method params c).1 →
  v ∈ AppServerClient_stdin c ∨ Value_get v "method" ≠ None.
Proof.
  unfold request, write_line. destruct pipe as [u|e]; [|by left]. intros Hv.
  assert (∃ w, v ∈ AppServerClient_stdin c ++ [w] ∧ Value_get w "method" ≠ None) as (w&Hin&Hw).
  { destruct (list_find _ _) as [[index response]|].
    - eexists. split; [exact Hv|]. unfold json_object. by rewrite get_Object.
    - rewrite request_loop_stdin in Hv. eexists. split; [exact Hv|]. unfold json_object. by rewrite get_Object. }
  apply elem_of_app in Hin as [?|Heq%list_elem_of_singleton]; [by left|subst; by right].
Qed.
(** A turn keeps what was written and the timers, and writes requests of its
    own or the answer it was told to write. *)
Lemma step_writes run b s v :
  v ∈ AppServerClient_stdin (Session_client (session_step fresh run b s)) →
  v ∈ AppServerClient_stdin (Session_client s) ∨ Value_get v "method" ≠ None ∨
  ∃ pipe id decision, b = BranchControl pipe (Some (RespondToServerRequest id decision)) ∧
    v = approval_answer id decision.
Proof.
  unfold session_step. destruct (Session_over s); [by left|].
  destruct b as [pipe [[reason| |id decision]|]|]; simpl; try by left.
  - destruct (Session_paused s); [by left|]. unfold on_pause. destruct (Session_turn_id s); [|by left].
    match goal with |- context[request ?a ?b ?d ?e] => pose proof (request_stdin a b d e v) as Hr;
      destruct (request a b d e) as [c answer] end. simpl in Hr.
    destruct answer; simpl; intros Hv; destruct (Hr Hv); auto.
  - unfold on_answer. case_bool_decide; [|by left]. unfold respond, write_line.
    destruct pipe; simpl; [|by left]. intros [?|Heq%list_elem_of_singleton]%elem_of_app; [by left|].
    subst. do 2 right. by eexists _, _, _.
  - unfold on_read. pose proof (next_line_stdin (Session_client s)) as Hn.
    destruct (next_line _) as [c read]. simpl in Hn. rewrite <-Hn.
    destruct read as [[line|]|e| |]; simpl; try by left. unfold on_line.
    destruct (value_from_str line); [|by left]. destruct (codex_approval_event _ _ _ _ _); [by left|].
    destruct (Value_get _ "turnId" ≫= _); by left.
Qed.
Lemma step_timers run b s : Session_timers s `prefix_of` Session_timers (session_step fresh run b s).
Proof.
  unfold session_step. destruct (Session_over s); [done|].
  destruct b as [pipe [[reason| |id decision]|]|]; simpl; try done.
  - destruct (Session_paused s); [done|]. unfold on_pause. destruct (Session_turn_id s); [|done].
    destruct (request _ _ _ _) as [c []]; done.
  - unfold on_answer. case_bool_decide; [|done]. by destruct (respond _ _ _ _) as [c []].
  - unfold on_read. destruct (next_line _) as [c [[line|]|e| |]]; try done. simpl. unfold on_line.
    destruct (value_from_str line); [|done]. destruct (codex_approval_event _ _ _ _ _); [by eexists|].
    by destruct (Value_get _ "turnId" ≫= _).
Qed.

(** Where an answer comes from: a message of the supervisor, or the timer of
    that request, which refuses. *)
Definition backed (turns : list task_turn) (t : Task) (id : Value) (decision : string) : Prop :=
  TurnSend (RespondToServerRequest id decision) ∈ turns ∨
  decision = "decline" ∧ ∃ n, TurnTimer n ∈ turns ∧ Session_timers (Task_session t) !! n = Some id.
Definition task_inv (s0 : Session) (turns : list task_turn) (t : Task) : Prop :=
  (∀ id decision, RespondToServerRequest id decision ∈ Task_control t → backed turns t id decision) ∧
  (∀ v, v ∈ AppServerClient_stdin (Session_client (Task_session t)) →
    v ∈ AppServerClient_stdin (Session_client s0) ∨ Value_get v "method" ≠ None ∨
    ∃ id decision, v = approval_answer id decision ∧ backed turns t id decision).
Lemma backed_more turns turn t t' id decision :
  Session_timers (Task_session t) `prefix_of` Session_timers (Task_session t') →
  backed turns t id decision → backed (turns ++ [turn]) t' id decision.
Proof.
  intros Hp [Hs|(->&n&Hn&Hid)]; [left; set_solver|right]. split; [done|]. exists n.
  split; [set_solver|by eapply prefix_lookup_Some].
Qed.
Lemma task_run_inv run turns s : task_inv s turns (task_run fresh run turns (task_new s)).
Proof.
  induction turns as [|turn turns IH] using rev_ind; [split; [by intros ? ? ?%not_elem_of_nil|by left]|].
  unfold task_run. rewrite foldl_app. simpl. fold (task_run fresh run turns (task_new s)).
  set (t := task_run fresh run turns (task_new s)) in *. destruct IH as [Hq Hw].
  assert (∀ t', Session_timers (Task_session t) `prefix_of` Session_timers (Task_session t') →
    AppServerClient_stdin (Session_client (Task_session t')) =
      AppServerClient_stdin (Session_client (Task_session t)) →
    (∀ id decision, RespondToServerRequest id decision ∈ Task_control t' →
      RespondToServerRequest id decision ∈ Task_control t ∨ backed (turns ++ [turn]) t' id decision) →
    task_inv s (turns ++ [turn]) t') as Hsame.
  { intros t' Hp Hin Hc. split.
    - intros id decision [Ho|]%Hc; [|done]. eapply backed_more; [done|by apply Hq].
    - intros v. rewrite Hin. intros [?|[?|(id&d&->&Hb)]]%Hw; [by left|by right; left|].
      do 2 right. exists id, d. split; [done|]. by eapply backed_more. }
  destruct turn as [control|n|pipe read]; simpl.
  - unfold task_send. destruct (Session_over _); apply Hsame; try done; [by left|]. simpl.
    intros id d [?|Heq%list_elem_of_singleton]%elem_of_app; [by left|]. right. left. subst. set_solver.
  - unfold timer_fires. destruct (_ !! n) as [tid|] eqn:Ht; [|apply Hsame; try done; by left].
    case_bool_decide; [apply Hsame; try done; by left|].
    destruct (Session_over _); apply Hsame; try done; [by left|]. simpl.
    intros id d [?|Heq%list_elem_of_singleton]%elem_of_app; [by left|]. injection Heq as -> ->.
    do 2 right. split; [done|].
    exists n. split; [set_solver|done].
  - unfold task_select. destruct (Session_over _); [apply Hsame; try done; by left|].
    assert (∀ b rest fired, (∀ c, c ∈ rest → c ∈ Task_control t) →
      (∀ pipe id d, b = BranchControl pipe (Some (RespondToServerRequest id d)) →
        RespondToServerRequest id d ∈ Task_control t) →
      task_inv s (turns ++ [TurnSelect pipe read]) {| Task_session := session_step fresh run b (Task_session t);
        Task_control := rest; Task_fired := fired |}) as Hstep.
    { intros b rest fired Hrest Hb. pose proof (step_timers run b (Task_session t)) as Hp. split; simpl.
      - intros id d Hin%Hrest. eapply backed_more; [|by apply Hq]. done.
      - intros v [Hv|[?|(pipe'&id&d&->&->)]]%step_writes; [|by right; left|].
        + apply Hw in Hv as [?|[?|(id&d&->&Hbk)]]; [by left|by right; left|].
          do 2 right. exists id, d. split; [done|]. by eapply backed_more.
        + do 2 right. exists id, d. split; [done|]. eapply backed_more; [|eapply Hq, Hb; done]. done. }
    assert (task_inv s (turns ++ [TurnSelect pipe read]) t) as Hself by (apply Hsame; try done; by left).
    destruct (Task_control t) as [|control rest].
    + destruct read; [|done]. apply Hstep; done.
    + apply Hstep; [set_solver|]. intros pipe' id d [= <- ->]. by left.
Qed.

(** *** What a refusal comes to *)
Lemma answer_written run pipe request_id decision s :
  let s' := session_step fresh run (BranchControl pipe
    (Some (RespondToServerRequest request_id decision))) s in
  Session_over s = false →
  (pipe = Ok tt → AppServerClient_stdin (Session_client s') = AppServerClient_stdin (Session_client s) ++
    (if bool_decide (rpc_id_key request_id ∈ Session_pending s)
     then [approval_answer request_id decision] else [])) ∧
  rpc_id_key request_id ∉ Session_pending s'.
Proof.
  intros s' Ho. unfold s', session_step. rewrite Ho. simpl. unfold on_answer.
  case_bool_decide as Hp; simpl; [|split; [by rewrite app_nil_r|done]].
  unfold respond, write_line. destruct pipe as [[]|]; simpl; (split; [done|set_solver]).
Qed.
Lemma control_pending run pipe control s :
  Session_pending (session_step fresh run (BranchControl pipe (Some control)) s) ⊆ Session_pending s.
Proof.
  unfold session_step. destruct (Session_over s); [done|]. destruct control as [reason| |id d]; simpl; [|done|].
  - destruct (Session_paused s); [done|]. unfold on_pause. destruct (Session_turn_id s); [|done].
    by destruct (request _ _ _ _) as [c []].
  - unfold on_answer. case_bool_decide; [|done]. destruct (respond _ _ _ _) as [c []]; simpl; set_solver.
Qed.
Lemma task_run_over run pipes t : Session_over (Task_session t) = true →
  task_run fresh run ((λ pipe, TurnSelect pipe false) <$> pipes) t = t.
Proof.
  intros Ho. induction pipes as [|pipe pipes IH]; [done|]. simpl. unfold task_select. by rewrite Ho.
Qed.
(** Once the loop has worked off its messages, no request with an answer among
    them is open. *)
Lemma drained_closes run pipes : ∀ t id decision,
  RespondToServerRequest id decision ∈ Task_control t ∨
    rpc_id_key id ∉ Session_pending (Task_session t) →
  length pipes = length (Task_control t) →
  let t' := task_run fresh run ((λ pipe, TurnSelect pipe false) <$> pipes) t in
  Session_over (Task_session t') = true ∨ rpc_id_key id ∉ Session_pending (Task_session t').
Proof.
  induction pipes as [|pipe pipes IH]; intros t id decision Hin Hlen.
  { right. simpl. destruct Hin as [Hin|]; [|done]. symmetry in Hlen. apply nil_length_inv in Hlen.
    rewrite Hlen in Hin. by apply not_elem_of_nil in Hin. }
  change (task_run fresh run ((λ pipe, TurnSelect pipe false) <$> pipe :: pipes) t) with
    (task_run fresh run ((λ pipe, TurnSelect pipe false) <$> pipes) (task_select fresh run pipe false t)).
  unfold task_select. destruct (Session_over (Task_session t)) eqn:Ho.
  { left. by rewrite task_run_over. }
  destruct (Task_control t) as [|control rest] eqn:Hc; [done|]. simpl in Hlen. apply (IH _ _ decision); [|simpl; lia].
  simpl. destruct Hin as [[<-|Hin]%elem_of_cons|Hn]; [right|by left|right].
  - by apply answer_written.
  - intros Hp. by apply control_pending in Hp.
Qed.

(** C21: no approval is ever granted behind the supervisor's back.  Whatever is
    sent to a session, whichever timers end and however the loop takes its
    turns: the app server is given at most as many answers to a request as the
    supervisor was asked for, and every answer it is given carries a decision
    the supervisor sent for that request, or is the refusal of that request's
    timer.  A request that is read is shown as an event that pauses the run and
    is left open with a timer.  When the timer ends first, that is with no
    message waiting, the next turn of the loop writes the refusal if the
    request is still open and nothing if it is not; and in any case, once the
    loop has worked off the messages that were waiting, the request is open no
    more or the run is over. *)
Theorem approvals_answered_once run turns s key :
  Session_pending s = ∅ →
  let t := task_run fresh run turns (task_new s) in
  let s' := Task_session t in
  replies key s' + asked key s ≤ replies key s + asked key s' ∧
  (∀ v, v ∈ AppServerClient_stdin (Session_client s') →
    v ∈ AppServerClient_stdin (Session_client s) ∨ Value_get v "method" ≠ None ∨
    ∃ id decision, v = approval_answer id decision ∧
      (TurnSend (RespondToServerRequest id decision) ∈ turns ∨
       decision = "decline" ∧ ∃ n, TurnTimer n ∈ turns ∧ Session_timers s' !! n = Some id)) ∧
  (∀ pipe c line value e, Session_over s' = false → Task_control t = [] →
    next_line (Session_client s') = (c, Done (Some line)) → value_from_str line = Ok value →
    codex_approval_event (next_event fresh s') (Run_id run) (Run_contract_version run)
      (Run_loadout_fingerprint run) value = Some e →
    ∃ id, Value_get value "id" = Some id ∧
    let s1 := Task_session (task_select fresh run pipe true t) in
    Session_emitted s1 = Session_emitted s' ++ [e] ∧ AgentEvent_requires_safe_pause e = true ∧
    rpc_id_key id ∈ Session_pending s1 ∧ Session_timers s1 = Session_timers s' ++ [id]) ∧
  (∀ n id, Session_over s' = false → Session_timers s' !! n = Some id → n ∉ Task_fired t →
    let t1 := timer_fires fresh run n t in
    (Task_control t = [] →
      AppServerClient_stdin (Session_client (Task_session (task_select fresh run (Ok tt) false t1))) =
        AppServerClient_stdin (Session_client s') ++
          (if bool_decide (rpc_id_key id ∈ Session_pending s') then [approval_answer id "decline"] else [])) ∧
    ∀ pipes, length pipes = length (Task_control t1) →
      let t2 := task_run fresh run ((λ pipe, TurnSelect pipe false) <$> pipes) t1 in
      Session_over (Task_session t2) = true ∨ rpc_id_key id ∉ Session_pending (Task_session t2)).
Proof.
  intros Hp t s'. split_and!.
  - pose proof (task_run_balanced key run turns (task_new s)) as Hb. unfold balanced in Hb.
    fold t in Hb. fold s' in Hb. unfold outstanding at 2 in Hb. simpl in Hb. rewrite Hp in Hb.
    rewrite bool_decide_eq_false_2 in Hb by set_solver. lia.
  - apply task_run_inv.
  - intros pipe c line value e Ho Hc Hn Hv He. unfold task_select. fold s'. rewrite Ho, Hc. simpl.
    unfold session_step, on_read, on_line. fold s'.
    rewrite Ho, Hn, Hv. pose proof (approval_event_asks _ _ _ _ _ _ He) as (id&Hid&_&_&Hpause).
    unfold next_event in *. simpl. rewrite He, Hid. exists id. simpl.
    split_and!; try done. set_solver.
  - intros n id Ho Hn Hf t1.
    assert (t1 = {| Task_session := s'; Task_control := Task_control t ++ [RespondToServerRequest id "decline"];
      Task_fired := n :: Task_fired t |}) as Ht1.
    { unfold t1, timer_fires. fold s'. by rewrite Hn, bool_decide_eq_false_2, Ho. }
    split.
    + intros Hc. rewrite Ht1, Hc. unfold task_select. cbn [Task_session Task_control app]. rewrite Ho.
      by apply answer_written.
    + intros pipes Hl. apply (drained_closes run pipes t1 id "decline"); [|done]. left. rewrite Ht1. simpl. set_solver.
Qed.
End approvals.

(** ** Opening *)
Section opening.
Context `{SerdeJson, Sha256, RegexCrate, !JsonParse, !DisplayFmt NativeParseError, !SerdeJsonLaws}.
Context (fresh : nat → EventId).

Definition request_line (id : u64) (method : string) (params : Value) : Value :=
  json_object [("jsonrpc", Value_String "2.0"); ("id", Value_U64 id);
    ("method", Value_String method); ("params", params)].
Lemma request_loop_not_dropped fuel id c : (request_loop fuel id c).2 ≠ Dropped.
Proof.
  revert c. induction fuel as [|fuel IH]; intros c; simpl; [done|].
  destruct (read_bounded_line _ _) as [stdout [[line|]|e| |]]; try done.
  destruct (parse_json_line _ _); [|done]. repeat case_match; try done; apply IH.
Qed.
(** A request is answered, after it was written, or fails. *)
Lemma request_ends pipe method params c c' o :
  request pipe method params c = (c', o) →
  (∃ e, o = Failed e) ∨
  ∃ response, o = Done response ∧ AppServerClient_stdin c' =
    AppServerClient_stdin c ++ [request_line (AppServerClient_next_id c) method params].
Proof.
  intros Hr. pose proof (request_fueled pipe method params c) as Hf. rewrite Hr in Hf. simpl in Hf.
  revert Hr. unfold request, write_line. destruct pipe as [u|e]; [|intros [= <- <-]; by eauto].
  destruct (list_find _ _) as [[index response]|]; [intros [= <- <-]; right; by eexists|].
  match goal with |- request_loop ?f ?i ?k = _ → _ =>
    pose proof (request_loop_stdin f i k) as Hs; pose proof (request_loop_not_dropped f i k) as Hd end.
  intros Hr. rewrite Hr in Hs, Hd. simpl in Hs, Hd.
  destruct o as [response|e| |]; [right; by eexists|by left; eexists|done|done].
Qed.

Lemma next_line_size c c' line :
  next_line c = (c', Done (Some line)) → await_fuel c' < await_fuel c.
Proof.
  unfold next_line, await_fuel.
  destruct (AppServerClient_queued_lines c) as [|l rest] eqn:Hq; [|intros [= <- _]; simpl; lia].
  generalize (client_fuel c). intros fuel. revert c Hq.
  induction fuel as [|fuel IH]; intros c Hq; simpl; [done|].
  destruct (read_bounded_line _ _) as [stdout [[text|]|e| |]] eqn:Hread; try done.
  apply read_size in Hread. destruct (parse_json_line _ _); [|done].
  repeat case_match; try done.
  - intros Hr%IH; [|done]. simpl in *. lia.
  - intros [= <- _]. simpl. rewrite Hq. simpl. lia.
Qed.
(** Waiting for the thread ends: the fuel is enough. *)
Lemma await_fueled fuel deferred c :
  await_fuel c ≤ fuel → Awaited_fueled (await_thread fuel deferred c).2 = true.
Proof.
  revert deferred c. induction fuel as [|fuel IH]; intros deferred c Hf; [unfold await_fuel in Hf; lia|].
  simpl. pose proof (next_line_fueled c) as Hn.
  destruct (next_line c) as [c' [[line|]|e| |]] eqn:Hl; try done.
  destruct (result_ok _ ≫= started_thread); [done|]. apply next_line_size in Hl. apply IH. lia.
Qed.
(** Lines read while waiting are put back in front, in order: only the
    announcement of the thread is used up. *)
Lemma await_keeps_lines fuel deferred c c' awaited id :
  sound c → await_thread fuel deferred c = (c', awaited) → Awaited_thread awaited = Some id →
  ∃ lines line, Awaited_deferred awaited = deferred ++ lines ∧ took (lines ++ [line]) c c' ∧
    (result_ok (value_from_str line) ≫= started_thread) = Some id.
Proof.
  revert deferred c. induction fuel as [|fuel IH]; intros deferred c Hc; simpl; [by intros [= <- <-]|].
  destruct (next_line c) as [c1 [[line|]|e| |]] eqn:Hl; try by intros [= <- <-].
  apply next_line_took in Hl; [|done].
  destruct (result_ok _ ≫= started_thread) as [id'|] eqn:Hs.
  - intros [= <- <-] [= <-]. exists [], line. by rewrite app_nil_r.
  - intros Ha Hid. eapply IH in Ha as (lines&l&Hd&Ht&Hi); [|apply Hl|done].
    exists (line :: lines), l. rewrite Hd, <-app_assoc. split; [done|]. split; [|done].
    by apply (took_trans [line] (lines ++ [l]) _ _ _ Hl).
Qed.
Lemma requeue_lines_queue lines c :
  AppServerClient_queued_lines (requeue_lines lines c) = lines ++ AppServerClient_queued_lines c.
Proof. induction lines as [|l lines IH]; simpl; [done|]. by rewrite IH. Qed.

Lemma await_stdin fuel deferred c :
  AppServerClient_stdin (await_thread fuel deferred c).1 = AppServerClient_stdin c.
Proof.
  revert deferred c. induction fuel as [|fuel IH]; intros deferred c; simpl; [done|].
  pose proof (next_line_stdin c) as Hn. destruct (next_line c) as [c' [[line|]|e| |]]; simpl in *; try done.
  destruct (result_ok _ ≫= started_thread); [done|]. by rewrite IH.
Qed.
Lemma requeue_stdin lines c : AppServerClient_stdin (requeue_lines lines c) = AppServerClient_stdin c.
Proof. by induction lines. Qed.

(** How opening ends: with an error event that pauses the mission, or in a
    session after the three requests were written. *)
Definition opened (start : StartAgentRequest) (c : AppServerClient)
    (events : list AgentEvent) (entered : option (Run * Session)) : Prop :=
  match entered with
  | None => ∃ e, last events = Some e ∧ AgentEvent_requires_safe_pause e = true
  | Some (run, s) =>
      Session_emitted s = events ∧ Session_pending s = ∅ ∧ Session_paused s = false ∧
      Session_over s = false ∧
      Run_contract_version run = StartAgentRequest_contract_version start ∧
      Run_loadout_fingerprint run = StartAgentRequest_loadout_fingerprint start ∧
      ∃ ids init, AppServerClient_stdin (Session_client s) = AppServerClient_stdin c ++
        [request_line (ids 0) "initialize" init;
         request_line (ids 1) (thread_request start).1 (thread_request start).2;
         request_line (ids 2) "turn/start" (json_object
           [("threadId", Value_String (Run_thread_id run));
            ("input", Value_Array [json_object [("type", Value_String "text");
              ("text", Value_String (default "" (StartAgentRequest_goal start)))]])])]
  end.
Lemma abandon_opened start c run_id error events events' entered :
  abandon_open fresh run_id error events = (events', entered) → opened start c events' entered.
Proof. intros [= <- <-]. eexists. by rewrite last_snoc. Qed.

Lemma open_turn_opened start run_id thread_id pipe c0 c events id0 id1 init events' entered :
  AppServerClient_stdin c = AppServerClient_stdin c0 ++
    [request_line id0 "initialize" init;
     request_line id1 (thread_request start).1 (thread_request start).2] →
  open_turn fresh start run_id thread_id pipe c events = (events', entered) →
  opened start c0 events' entered.
Proof.
  intros Hw. unfold open_turn.
  match goal with |- context[request ?p ?m ?v c] =>
    destruct (request p m v c) as [c' o] eqn:Hr end.
  apply request_ends in Hr as [[e ->]|(response&->&Hs)]; [apply abandon_opened|].
  intros [= <- <-]. simpl. split_and!; try done.
  exists (λ i, match i with 0 => id0 | 1 => id1 | _ => AppServerClient_next_id c end), init.
  by rewrite Hs, Hw, <-app_assoc.
Qed.

(** C40: starting a Codex agent never fails silently: the task either emits an
    event that pauses the mission, or it has initialised the app server,
    opened the thread with the sandbox of the request and started the turn
    with the goal, in this order, and serves a fresh session bound to the
    contract version and the loadout of the request. *)
Theorem opening_never_silent start run_id pipe spawned events entered :
  open_session fresh start run_id pipe spawned = (events, entered) →
  match spawned with
  | Ok c => opened start c events entered
  | Err _ => entered = None ∧ ∃ e, last events = Some e ∧ AgentEvent_requires_safe_pause e = true
  end.
Proof.
  unfold open_session. destruct spawned as [c|e]; [|intros [= <- <-]; split; [done|by eexists]].
  match goal with |- context[request ?p ?m ?v c] =>
    destruct (request p m v c) as [c1 o] eqn:Hr end.
  apply request_ends in Hr as [[e ->]|(r1&->&Hs1)]; [apply abandon_opened|].
  destruct (thread_request start) as [method params] eqn:Ht.
  destruct (request (pipe method) method params c1) as [c2 o] eqn:Hr.
  apply request_ends in Hr as [[e ->]|(r2&->&Hs2)]; [apply abandon_opened|].
  destruct (response_id "thread" r2) as [id|] eqn:Hid.
  - eapply (open_turn_opened start run_id id pipe c c2 [] (AppServerClient_next_id c)
      (AppServerClient_next_id c1)). rewrite Ht, Hs2, Hs1, <-app_assoc. done.
  - pose proof (await_stdin (await_fuel c2) [] c2) as Ha.
    destruct (await_thread (await_fuel c2) [] c2) as [c3 awaited]. simpl in Ha.
    destruct (Awaited_thread awaited) as [id|]; [|apply abandon_opened].
    eapply (open_turn_opened start run_id id pipe c _ _ (AppServerClient_next_id c)
      (AppServerClient_next_id c1)). rewrite requeue_stdin, Ha, Ht, Hs2, Hs1, <-app_assoc. done.
Qed.
End opening.

(** ** A concrete session *)
Module CodexExamples.
Import Json RedactionExamples RecoveryPackageExamples CodedJson NormalizeExamples.

Definition cs_fresh (n : nat) : EventId := N.of_nat n.
Definition cs_line (l : list (string * json)) : list u8 :=
  str_bytes (to_vec (json_object l)) ++ [newline].
(** The answers to the three requests and an approval request. *)
Definition cs_stdout : ChildStdout := {| ChildStdout_buffer := []; ChildStdout_arrivals := [
  Data (cs_line [("id", JNum 1); ("result", JNull)]);
  Data (cs_line [("id", JNum 2); ("result", json_object [("thread", json_object [("id", JStr "t")])])]);
  Data (cs_line [("id", JNum 3); ("result", json_object [("turn", json_object [("id", JStr "u")])])]);
  Data (cs_line [("id", JNum 7); ("method", JStr "execCommandApproval")])] |}.
Definition cs_pipe (_ : string) : result string unit := Ok tt.
Definition cs_opened :=
  open_session cs_fresh (nz_start None) "r" cs_pipe (Ok (spawn_app_server cs_stdout)).
Definition cs_run : Run := run_of (nz_start None) "r" "t".
Definition cs_session : Session := match cs_opened.2 with
  | Some (_, s) => s
  | None => {| Session_client := spawn_app_server cs_stdout; Session_turn_id := None;
      Session_paused := false; Session_pending := ∅; Session_timers := []; Session_emitted := [];
      Session_over := true |} end.

Lemma opening_never_silent_witness :
  is_Some cs_opened.2 ∧
  opened (nz_start None) (spawn_app_server cs_stdout) cs_opened.1 cs_opened.2.
Proof.
  split; [refine (bool_decide_unpack _ _); vm_compute; reflexivity|].
  apply (opening_never_silent cs_fresh (nz_start None) "r" cs_pipe (Ok (spawn_app_server cs_stdout))).
  exact (surjective_pairing cs_opened).
Defined.
(** Asked once, answered by the timer, not answered again. *)
Definition cs_key : string := rpc_id_key (JNum 7).
Definition cs_turns : list task_turn :=
  [TurnSelect (Ok tt) true; TurnTimer 0; TurnSelect (Ok tt) false;
   TurnSend (RespondToServerRequest (JNum 7) "accept"); TurnSelect (Ok tt) false].
Definition cs_end : Session := Task_session (task_run cs_fresh cs_run cs_turns (task_new cs_session)).
Lemma approvals_answered_once_witness :
  last (AppServerClient_stdin (Session_client cs_end)) = Some (approval_answer (JNum 7) "decline") ∧
  replies cs_key cs_end = 1 ∧
  replies cs_key cs_end + asked cs_key cs_session ≤ replies cs_key cs_session + asked cs_key cs_end.
Proof.
  assert (Session_pending cs_session = ∅) as Hp.
  { refine (bool_decide_unpack _ _). vm_compute. reflexivity. }
  destruct (approvals_answered_once cs_fresh cs_run cs_turns cs_session cs_key Hp) as [Hb _].
  split; [vm_compute; reflexivity|]. split; [vm_compute; reflexivity|]. exact Hb.
Defined.

(** The approval request printed in two pieces with the poll of the control
    channel between them: it is never announced, and the run is over. *)
Definition cs_request : list u8 :=
  cs_line [("id", JNum 7); ("method", JStr "execCommandApproval")].
Definition cs_cut : Session :=
  on_client (with_stdout {| ChildStdout_buffer := []; ChildStdout_arrivals :=
    [Data (take 5 cs_request); Interruption; Data (drop 5 cs_request)] |}
    (Session_client cs_session)) cs_session.
Lemma cut_request_lost :
  let s := session_run cs_fresh cs_run [BranchRead; BranchRead] cs_cut in
  asked cs_key s = 0 ∧ Session_over s = true.
Proof. split; vm_compute; reflexivity. Qed.
End CodexExamples.
