(* ===== verification/Ipc.v ===== *)
(** * The supervisor's local server ([crates/supervisor/src/ipc.rs], messages of
    [crates/protocol/src/handshake.rs])

    One connection is served at a time: a client authenticates with a
    handshake, then pings and commands are handed to the dispatcher and
    answered in order; anything else closes the connection.  The pipe is the
    bytes the client sends (they end when it hangs up or the idle watchdog
    cancels the read) and the bytes written back. *)

From S2P Require Import Prelude Always Extern Frame Handshake.
From Stdlib Require Import ZArith Lia.
From stdpp Require Import prelude strings.

(** ** Messages *)
Record Pong := { Pong_supervisor_version : string; Pong_protocol_version : u32 }.
Section messages.
Context `{SerdeJson}.
Record CommandRequest := {
  CommandRequest_command : string;
  CommandRequest_request : Value;
}.
Record CommandResponse := {
  CommandResponse_command : string;
  CommandResponse_result : option Value;
  CommandResponse_error : option string;
}.
Inductive ClientMessage :=
| ClientHandshake (handshake : Handshake)
| ClientPing
| ClientCommand (command : CommandRequest).
(** [ProtocolError] is its code. *)
Inductive ServerMessage :=
| ServerHandshakeAccepted (accepted : HandshakeAccepted)
| ServerPong (pong : Pong)
| ServerCommand (response : CommandResponse)
| ServerError (code : ProtocolErrorCode).

(** ** The dispatcher

    What the server needs of the component behind it, over the state [W]
    that component owns. *)
Class IpcDispatcher (W : Type) : Type := {
  ipc_dispatch : string → Value → W → W * result string Value;
  ipc_touch_ui : W → W;
}.
#[export] Instance NoopDispatcher : IpcDispatcher unit := {
  ipc_dispatch _ _ w := (w, Err "COMMAND_NOT_AVAILABLE");
  ipc_touch_ui w := w;
}.
End messages.
Arguments IpcDispatcher {_} W.

(** ** Serving a connection *)
Section connection.
Context `{SerdeJson, HmacSha256, !SerdeText ClientMessage, !SerdeText ServerMessage}.
Context {W : Type} `{!IpcDispatcher W}.
Context (supervisor_version : string).

(** What the outside answers during a connection: the clock and the secret
    at the handshake, whether the n-th write fails, and how many heartbeats
    the n-th message lasts when it is a command. *)
Record ConnectionEnv := {
  ConnectionEnv_now : Z;
  ConnectionEnv_secret : option (list u8);
  ConnectionEnv_write_fails : nat → bool;
  ConnectionEnv_heartbeats : nat → nat;
}.
(** What the server did, in order. *)
Inductive ipc_action :=
| Verified (handshake : Handshake) (answer : result ProtocolErrorCode HandshakeAccepted)
| Touched
| Dispatched (command : CommandRequest)
| Sent (message : ServerMessage).
Record Connection := {
  Connection_reader : list u8;
  Connection_writer : list u8;
  Connection_verifier : HandshakeVerifier;
  Connection_authenticated : option u32;
  Connection_world : W;
  Connection_log : list ipc_action;
}.
Definition connection_new (bytes : list u8) (verifier : HandshakeVerifier) (world : W)
    : Connection := {|
  Connection_reader := bytes; Connection_writer := []; Connection_verifier := verifier;
  Connection_authenticated := None; Connection_world := world; Connection_log := [] |}.

Context (env : ConnectionEnv).

Definition set_reader (reader : list u8) (c : Connection) : Connection := {|
  Connection_reader := reader; Connection_writer := Connection_writer c;
  Connection_verifier := Connection_verifier c;
  Connection_authenticated := Connection_authenticated c;
  Connection_world := Connection_world c; Connection_log := Connection_log c |}.
Definition set_world (world : W) (actions : list ipc_action) (c : Connection) : Connection := {|
  Connection_reader := Connection_reader c; Connection_writer := Connection_writer c;
  Connection_verifier := Connection_verifier c;
  Connection_authenticated := Connection_authenticated c;
  Connection_world := world; Connection_log := Connection_log c ++ actions |}.
Definition set_verified (verifier : HandshakeVerifier) (handshake : Handshake)
    (answer : result ProtocolErrorCode HandshakeAccepted) (c : Connection) : Connection := {|
  Connection_reader := Connection_reader c; Connection_writer := Connection_writer c;
  Connection_verifier := verifier;
  Connection_authenticated := match answer with
    | Ok accepted => Some (HandshakeAccepted_protocol_version accepted)
    | Err _ => Connection_authenticated c end;
  Connection_world := Connection_world c;
  Connection_log := Connection_log c ++ [Verified handshake answer] |}.
(** [write_frame(pipe, &message)]; the bool says whether it succeeded. *)
Definition send (message : ServerMessage) (c : Connection) : Connection * bool :=
  if ConnectionEnv_write_fails env (length (Connection_log c)) then (c, false) else
  match write_frame message (Connection_writer c) with
  | (writer, Err _) => (c, false)
  | (writer, Ok _) => ({|
      Connection_reader := Connection_reader c; Connection_writer := writer;
      Connection_verifier := Connection_verifier c;
      Connection_authenticated := Connection_authenticated c;
      Connection_world := Connection_world c;
      Connection_log := Connection_log c ++ [Sent message] |}, true)
  end.
Definition send_error (code : ProtocolErrorCode) (c : Connection) : Connection :=
  (send (ServerError code) c).1.

Definition command_response (command : string) (answer : result string Value) : ServerMessage :=
  ServerCommand (match answer with
  | Ok value => {| CommandResponse_command := command; CommandResponse_result := Some value;
                   CommandResponse_error := None |}
  | Err error => {| CommandResponse_command := command; CommandResponse_result := None;
                    CommandResponse_error := Some error |}
  end).
(** [touch_ui], the heartbeats while the command runs, and the command. *)
Definition run_command (heartbeats : nat) (command : CommandRequest) (world : W)
    : W * ServerMessage :=
  let world := Nat.iter (S heartbeats) ipc_touch_ui world in
  let '(world, answer) := ipc_dispatch (CommandRequest_command command)
    (CommandRequest_request command) world in
  (world, command_response (CommandRequest_command command) answer).

(** One turn of the loop; the bool says whether the loop goes on. *)
Definition handle_message (message : ClientMessage) (c : Connection) : Connection * bool :=
  match Connection_authenticated c, message with
  | None, ClientHandshake handshake =>
      let '(verifier, answer) := verify_at (ConnectionEnv_secret env) handshake
        (ConnectionEnv_now env) (Connection_verifier c) in
      let c := set_verified verifier handshake answer c in
      match answer with
      | Ok accepted => send (ServerHandshakeAccepted accepted) c
      | Err error => ((send (ServerError error) c).1, false)
      end
  | Some protocol_version, ClientPing =>
      send (ServerPong {| Pong_supervisor_version := supervisor_version;
                          Pong_protocol_version := protocol_version |})
        (set_world (ipc_touch_ui (Connection_world c)) [Touched] c)
  | Some _, ClientCommand command =>
      let '(world, response) := run_command
        (ConnectionEnv_heartbeats env (length (Connection_log c))) command (Connection_world c) in
      send response (set_world world [Touched; Dispatched command] c)
  | None, (ClientPing | ClientCommand _) | Some _, ClientHandshake _ =>
      (send_error AuthFailed c, false)
  end.
Definition serve_turn (c : Connection) : Connection * bool :=
  match read_frame (T := ClientMessage) (Connection_reader c) with
  | (reader, Ok message) => handle_message message (set_reader reader c)
  | (reader, Err FrameTooLarge) => (send_error CodeFrameTooLarge (set_reader reader c), false)
  | (reader, Err (InvalidUtf8 | InvalidJson)) =>
      (send_error InvalidFrame (set_reader reader c), false)
  | (reader, Err FrameIo) => (set_reader reader c, false)
  end.
(** The loop: whether it was left within the fuel. *)
Fixpoint serve_loop (fuel : nat) (c : Connection) : Connection * bool :=
  match fuel with
  | O => (c, false)
  | S fuel =>
      let '(c, go) := serve_turn c in
      if go then serve_loop fuel c else (c, true)
  end.
Definition serve_connection (bytes : list u8) (verifier : HandshakeVerifier) (world : W)
    : Connection * bool :=
  serve_loop (S (length bytes)) (connection_new bytes verifier world).

(** ** Lemmas *)
Lemma read_frame_shrinks reader rest (m : ClientMessage) :
  read_frame reader = (rest, Ok m) → length rest < length reader.
Proof.
  unfold read_frame, read_exact. destruct (4 <=? length reader) eqn:H4; [|done].
  apply Nat.leb_le in H4. case_match; [done|].
  destruct (_ <=? length (drop 4 reader)) eqn:Hl; [|done].
  destruct (from_utf8 _); [|done]. intros [= <- _]. rewrite !length_drop. lia.
Qed.
Lemma send_reader m c : Connection_reader (send m c).1 = Connection_reader c.
Proof. unfold send. by repeat case_match. Qed.
Lemma send_verifier m c : Connection_verifier (send m c).1 = Connection_verifier c.
Proof. unfold send. by repeat case_match. Qed.
Lemma handle_reader m c : Connection_reader (handle_message m c).1 = Connection_reader c.
Proof.
  unfold handle_message, send_error. repeat case_match; simpl; by rewrite send_reader.
Qed.
Lemma serve_loop_ends fuel c :
  length (Connection_reader c) < fuel → (serve_loop fuel c).2 = true.
Proof.
  revert c. induction fuel as [|fuel IH]; intros c Hf; [lia|]. simpl. unfold serve_turn.
  destruct (read_frame (Connection_reader c)) as [reader [m|e]] eqn:Hr.
  - apply read_frame_shrinks in Hr. pose proof (handle_reader m (set_reader reader c)) as Hh.
    destruct (handle_message m _) as [c' []]; [|done]. apply IH. simpl in *. rewrite Hh. lia.
  - by destruct e.
Qed.

(** *** Before the handshake *)
Definition commands (log : list ipc_action) : list CommandRequest :=
  omap (λ a, match a with Dispatched command => Some command | _ => None end) log.
Definition touched (log : list ipc_action) : bool :=
  existsb (λ a, match a with Touched => true | _ => false end) log.
Definition sent (log : list ipc_action) : list ServerMessage :=
  omap (λ a, match a with Sent m => Some m | _ => None end) log.
(** Nothing reached the dispatcher; at most an error was sent. *)
Definition powerless (w : W) (c : Connection) : Prop :=
  Connection_world c = w ∧ commands (Connection_log c) = [] ∧
  touched (Connection_log c) = false ∧ Connection_authenticated c = None ∧
  (sent (Connection_log c) = [] ∨ ∃ code, sent (Connection_log c) = [ServerError code]).
Lemma powerless_error w code c :
  powerless w c → sent (Connection_log c) = [] → powerless w (send_error code c).
Proof.
  intros (Hw&Hc&Ht&Ha&_) Hs. unfold powerless, send_error, send in *.
  case_match; [by split_and!; try done; left|].
  destruct (write_frame _ _) as [writer [u|e]]; simpl; [|by split_and!; try done; left].
  unfold commands, touched, sent in *. rewrite !omap_app, existsb_app, Hc, Ht, Hs.
  split_and!; try done. right. by eexists.
Qed.

(** The handshake a connection opens with. *)
Definition opening (bytes : list u8) : option Handshake :=
  match (read_frame (T := ClientMessage) bytes).2 with
  | Ok (ClientHandshake h) => Some h
  | _ => None
  end.
(** What a connection does until it authenticates. *)
Lemma first_turn bytes verifier w :
  let '(c, go) := serve_turn (connection_new bytes verifier w) in
  (∃ rest h accepted, read_frame bytes = (rest, Ok (ClientHandshake h)) ∧
    verify_at (ConnectionEnv_secret env) h (ConnectionEnv_now env) verifier
      = (Connection_verifier c, Ok accepted)) ∨
  (powerless w c ∧ go = false ∧
   ((∃ rest h e, read_frame bytes = (rest, Ok (ClientHandshake h)) ∧
      verify_at (ConnectionEnv_secret env) h (ConnectionEnv_now env) verifier
        = (Connection_verifier c, Err e)) ∨
    (opening bytes = None ∧ Connection_verifier c = verifier))).
Proof.
  unfold opening.
  assert (∀ reader, powerless w (set_reader reader (connection_new bytes verifier w))) as Hnew.
  { intros reader. split_and!; try done. by left. }
  assert (∀ code c, Connection_verifier (send_error code c) = Connection_verifier c) as Hv.
  { intros code c. apply send_verifier. }
  unfold serve_turn. cbn [Connection_reader connection_new].
  destruct (read_frame bytes) as [reader [m|e]] eqn:Hr.
  - unfold handle_message. cbn [Connection_authenticated set_reader connection_new].
    destruct m as [h| |cmd].
    + cbn [Connection_verifier set_reader connection_new].
      destruct (verify_at _ h _ verifier) as [vf [a|e]] eqn:Hvf.
      * match goal with |- context[send ?m ?c] =>
          pose proof (send_verifier m c) as Hs; destruct (send m c) as [c' go] end.
        left. exists reader, h, a. split; [done|]. simpl in Hs. by rewrite Hs.
      * right. split; [|split; [done|]].
        -- apply (powerless_error w e); [|done]. split_and!; try done. by left.
        -- left. exists reader, h, e. split; [done|].
           change (send _ ?c).1 with (send_error e c). by rewrite Hv.
    + right. split; [by apply powerless_error|]. split; [done|]. right. by rewrite ?Hr, ?Hv.
    + right. split; [by apply powerless_error|]. split; [done|]. right. by rewrite ?Hr, ?Hv.
  - destruct e; right; (split; [try by apply powerless_error|]); try done;
      (split; [done|]); right; by rewrite ?Hr, ?Hv.
Qed.

(** C10: without the installation secret the server can only be made to close
    the connection.  Whatever bytes arrive, serving them ends, and unless the
    first frame is a handshake that the verifier accepts, no command and no
    sign of life reaches the missions and at most one error is sent back. *)
Theorem unauthenticated_powerless bytes verifier w :
  let '(c, ended) := serve_connection bytes verifier w in
  ended = true ∧
  ((∃ rest h accepted, read_frame bytes = (rest, Ok (ClientHandshake h)) ∧
     (verify_at (ConnectionEnv_secret env) h (ConnectionEnv_now env) verifier).2 = Ok accepted) ∨
   powerless w c).
Proof.
  pose proof (serve_loop_ends (S (length bytes)) (connection_new bytes verifier w)
    (Nat.lt_succ_diag_r _)) as He. unfold serve_connection.
  destruct (serve_loop _ _) as [c ended] eqn:Hl. simpl in He. split; [done|].
  revert Hl. cbn [serve_loop]. pose proof (first_turn bytes verifier w) as Hf.
  destruct (serve_turn _) as [c1 go]. destruct Hf as [(rest&h&a&Hr&Hv)|(Hp&->&_)].
  - intros _. left. exists rest, h, a. by rewrite Hv.
  - intros [= <- <-]. by right.
Qed.

(** ** After the handshake: the reference

    The messages of an authenticated client and the answers they get; [pos]
    is the number of actions logged before. *)
Fixpoint answer_all (pos : nat) (messages : list ClientMessage) (w : W)
    : list ServerMessage * W :=
  match messages with
  | ClientPing :: rest =>
      let '(answers, w) := answer_all (pos + 2) rest (ipc_touch_ui w) in
      (ServerPong {| Pong_supervisor_version := supervisor_version;
                     Pong_protocol_version := PROTOCOL_VERSION |} :: answers, w)
  | ClientCommand command :: rest =>
      let '(w, response) := run_command (ConnectionEnv_heartbeats env pos) command w in
      let '(answers, w) := answer_all (pos + 3) rest w in
      (response :: answers, w)
  | _ => ([], w)
  end.
Definition no_handshake (m : ClientMessage) : bool :=
  match m with ClientHandshake _ => false | _ => true end.

Context `{!SerdeTextLaws ClientMessage}.
Context (Hwrites : ∀ n, ConnectionEnv_write_fails env n = false).

Lemma send_ok m c writer :
  write_frame m (Connection_writer c) = (writer, Ok tt) →
  ∃ c', send m c = (c', true) ∧ Connection_writer c' = writer ∧
    Connection_reader c' = Connection_reader c ∧ Connection_verifier c' = Connection_verifier c ∧
    Connection_authenticated c' = Connection_authenticated c ∧
    Connection_world c' = Connection_world c ∧
    length (Connection_log c') = S (length (Connection_log c)).
Proof.
  intros Hw. unfold send. rewrite Hwrites, Hw. eexists. split; [done|]. simpl.
  split_and!; try done. rewrite length_app. simpl. lia.
Qed.
Lemma serve_answers messages : ∀ fuel c bytes out,
  Connection_authenticated c = Some PROTOCOL_VERSION →
  forallb no_handshake messages = true →
  write_frames messages [] = (bytes, Ok tt) → Connection_reader c = bytes → length bytes < fuel →
  write_frames (answer_all (length (Connection_log c)) messages (Connection_world c)).1
    (Connection_writer c) = (out, Ok tt) →
  let c' := (serve_loop fuel c).1 in
  Connection_writer c' = out ∧ Connection_verifier c' = Connection_verifier c ∧
  Connection_world c' = (answer_all (length (Connection_log c)) messages (Connection_world c)).2.
Proof.
  induction messages as [|m messages IH]; intros [|fuel] c bytes out Ha Hn Hb Hr Hf Hout; try lia.
  - injection Hb as <-. injection Hout as <-. cbn [serve_loop]. unfold serve_turn. by rewrite Hr.
  - simpl in Hn. apply andb_true_iff in Hn as [Hm Hn].
    apply write_frames_read in Hb as (frame&rest&->&Hrest&Hread). simpl in Hr, Hf.
    assert (length rest < fuel) as Hf'.
    { specialize (Hread rest). apply read_frame_shrinks in Hread. lia. }
    cbn [serve_loop]. unfold serve_turn. rewrite Hr, Hread.
    unfold handle_message. cbn [Connection_authenticated set_reader]. rewrite Ha.
    destruct m as [h| |cmd]; [done| |].
    + cbn [answer_all] in Hout |- *.
      destruct (answer_all _ messages _) as [answers w'] eqn:Hans. cbn [fst snd write_frames] in Hout.
      destruct (write_frame _ _) as [w1 [[]|e]] eqn:Hw; [|done].
      match goal with |- context[send ?m ?c1] =>
        destruct (send_ok m c1 w1 Hw) as (c2&Hs&Hw2&Hr2&Hv2&Ha2&Hd2&Hl2) end.
      cbn [set_reader set_world Connection_log Connection_world] in Hl2, Hd2.
      rewrite length_app in Hl2. simpl in Hl2. cbn [set_reader Connection_world] in Hs |- *. rewrite Hs.
      replace (length (Connection_log c) + 2) with (length (Connection_log c2)) in Hans by lia.
      rewrite <-Hd2 in Hans. edestruct (IH fuel c2 rest out) as (I1&I2&I3); try done.
      * by rewrite Ha2.
      * by rewrite Hans, Hw2.
      * rewrite Hans in I3. split_and!; try done. by rewrite I2, Hv2.
    + cbn [answer_all] in Hout |- *. cbn [set_reader Connection_log Connection_world].
      destruct (run_command _ cmd _) as [w1 response].
      destruct (answer_all _ messages _) as [answers w'] eqn:Hans. cbn [fst snd write_frames] in Hout.
      destruct (write_frame _ _) as [wr [[]|e]] eqn:Hw; [|done].
      match goal with |- context[send ?m ?c1] =>
        destruct (send_ok m c1 wr Hw) as (c2&Hs&Hw2&Hr2&Hv2&Ha2&Hd2&Hl2) end.
      cbn [set_reader set_world Connection_log Connection_world] in Hl2, Hd2.
      rewrite length_app in Hl2. simpl in Hl2. rewrite Hs.
      replace (length (Connection_log c) + 3) with (length (Connection_log c2)) in Hans by lia.
      rewrite <-Hd2 in Hans. edestruct (IH fuel c2 rest out) as (I1&I2&I3); try done.
      * by rewrite Ha2.
      * by rewrite Hans, Hw2.
      * rewrite Hans in I3. split_and!; try done. by rewrite I2, Hv2.
Qed.

(** A client that knows the secret is served in order: its handshake is
    accepted and every ping and command it sent is handed to the dispatcher
    once, in the order sent, and answered with one frame each, in the same
    order; the server writes nothing else. *)
Theorem commands_answered_in_order h messages bytes verifier verifier' accepted w out :
  write_frames (ClientHandshake h :: messages) [] = (bytes, Ok tt) →
  forallb no_handshake messages = true →
  verify_at (ConnectionEnv_secret env) h (ConnectionEnv_now env) verifier = (verifier', Ok accepted) →
  write_frames (ServerHandshakeAccepted accepted :: (answer_all 2 messages w).1) [] = (out, Ok tt) →
  let c := (serve_connection bytes verifier w).1 in
  Connection_writer c = out ∧ Connection_verifier c = verifier' ∧
  Connection_world c = (answer_all 2 messages w).2.
Proof.
  intros Hb Hn Hv Hout. apply write_frames_read in Hb as (frame&rest&->&Hrest&Hread).
  assert (HandshakeAccepted_protocol_version accepted = PROTOCOL_VERSION) as Hp.
  { unfold verify_at in Hv. repeat case_match; by simplify_eq/=. }
  assert (length rest < length (frame ++ rest)) as Hf.
  { specialize (Hread rest). by apply read_frame_shrinks in Hread. }
  cbn [app]. unfold serve_connection. cbn [serve_loop]. unfold serve_turn.
  cbn [connection_new Connection_reader]. rewrite Hread. unfold handle_message.
  cbn [connection_new set_reader Connection_authenticated Connection_verifier]. rewrite Hv.
  cbn [write_frames] in Hout. destruct (write_frame _ []) as [w1 [[]|e]] eqn:Hw; [|done].
  match goal with |- context[send ?m ?c1] =>
    destruct (send_ok m c1 w1 Hw) as (c2&Hs&Hw2&Hr2&Hv2&Ha2&Hd2&Hl2) end.
  rewrite Hs. simpl in Hl2, Hd2, Ha2, Hv2, Hr2. rewrite Hp in Ha2.
  rewrite <-Hl2, <-Hd2, <-Hw2 in Hout.
  destruct (serve_answers messages _ c2 rest out Ha2 Hn Hrest Hr2 Hf Hout) as (I1&I2&I3).
  rewrite Hl2, Hd2 in I3. split_and!; try done. by rewrite I2, Hv2.
Qed.
End connection.

(** ** The server

    Connections are served one after the other with the same verifier. *)
Section server.
Context `{SerdeJson, HmacSha256, !SerdeText ClientMessage, !SerdeText ServerMessage}.
Context {W : Type} `{!IpcDispatcher W}.
Context (supervisor_version install_id : string).

Definition serve_next (s : HandshakeVerifier * W) (incoming : ConnectionEnv * list u8)
    : HandshakeVerifier * W :=
  let c := (serve_connection supervisor_version incoming.1 incoming.2 s.1 s.2).1 in
  (Connection_verifier c, Connection_world c).
Definition run_server (world : W) (connections : list (ConnectionEnv * list u8))
    : HandshakeVerifier * W :=
  foldl serve_next (HandshakeVerifier_new install_id, world) connections.

(** The clock does not go back from one connection to the next. *)
Fixpoint in_time (t : Z) (connections : list (ConnectionEnv * list u8)) : Prop :=
  match connections with
  | [] => True
  | (env, _) :: rest => (t ≤ ConnectionEnv_now env)%Z ∧ in_time (ConnectionEnv_now env) rest
  end.
(** Only the handshake touches the verifier: later messages leave it alone. *)
Lemma authenticated_verifier env fuel c version :
  Connection_authenticated c = Some version →
  Connection_verifier (serve_loop supervisor_version env fuel c).1 = Connection_verifier c.
Proof.
  revert c. induction fuel as [|fuel IH]; intros c Ha; simpl; [done|].
  assert (Connection_verifier (serve_turn supervisor_version env c).1 = Connection_verifier c ∧
    Connection_authenticated (serve_turn supervisor_version env c).1 = Some version) as [Hv Ha'].
  { assert (∀ m (c1 : Connection (W := W)), Connection_verifier (send env m c1).1 = Connection_verifier c1 ∧
      Connection_authenticated (send env m c1).1 = Connection_authenticated c1) as Hs.
    { intros m c1. unfold send. by repeat case_match. }
    unfold serve_turn, handle_message, send_error. cbn [set_reader Connection_authenticated].
    rewrite Ha. repeat case_match; simplify_eq/=;
      repeat match goal with |- context[send env ?m ?c1] =>
        destruct (Hs m c1) as [-> ->] end; done. }
  destruct (serve_turn supervisor_version env c) as [c1 []]; simpl in *; [|done].
  by rewrite (IH c1 Ha').
Qed.
(** A connection is one attempt at a handshake, or none. *)
Lemma connection_verifies env bytes v w :
  let v' := Connection_verifier (serve_connection supervisor_version env bytes v w).1 in
  (∃ h r, opening bytes = Some h ∧
    verify_at (ConnectionEnv_secret env) h (ConnectionEnv_now env) v = (v', r)) ∨
  (opening bytes = None ∧ v' = v).
Proof.
  unfold serve_connection. cbn [serve_loop].
  pose proof (first_turn supervisor_version env bytes v w) as Hf.
  destruct (serve_turn supervisor_version env _) as [c go] eqn:Ht.
  destruct Hf as [(rest&h&a&Hr&Hv)|(_&->&[(rest&h&e&Hr&Hv)|Hv])].
  - left. exists h, (Ok a). unfold opening. rewrite Hr. split; [done|]. rewrite Hv. f_equal.
    destruct go; [|done]. symmetry.
    apply (authenticated_verifier env (length bytes) c (HandshakeAccepted_protocol_version a)).
    revert Ht. unfold serve_turn. cbn [connection_new Connection_reader]. rewrite Hr.
    unfold handle_message. cbn [connection_new set_reader Connection_authenticated Connection_verifier].
    destruct (verify_at _ h _ v) as [v1 r1]. injection Hv as -> ->.
    unfold send. case_match; [done|]. destruct (write_frame _ _) as [writer [u|e]]; [|done].
    intros Hc%(f_equal fst). simpl in Hc. by rewrite <-Hc.
  - left. exists h, (Err e). unfold opening. by rewrite Hr.
  - by right.
Qed.

(** *** What a connection hears

    The messages at the front of the bytes, up to the first frame that is
    none; those of them that an authenticated client sent; and what they do. *)
Fixpoint frames_in (fuel : nat) (bytes : list u8) : list ClientMessage :=
  match fuel with
  | O => []
  | S fuel =>
      match read_frame (T := ClientMessage) bytes with
      | (rest, Ok message) => message :: frames_in fuel rest
      | (_, Err _) => []
      end
  end.
Definition messages_in (bytes : list u8) : list ClientMessage := frames_in (length bytes) bytes.
Fixpoint until_handshake (messages : list ClientMessage) : list ClientMessage :=
  match messages with
  | message :: rest => if no_handshake message then message :: until_handshake rest else []
  | [] => []
  end.
Definition heard (env : ConnectionEnv) (v : HandshakeVerifier) (bytes : list u8)
    : option (HandshakeAccepted * list ClientMessage) :=
  match messages_in bytes with
  | ClientHandshake h :: rest =>
      match (verify_at (ConnectionEnv_secret env) h (ConnectionEnv_now env) v).2 with
      | Ok accepted => Some (accepted, until_handshake rest)
      | Err _ => None
      end
  | _ => None
  end.
(** An answer that could not be sent: a write failed, or it fits no frame. *)
Definition unsent (env : ConnectionEnv) (message : ServerMessage) : Prop :=
  (∃ i, ConnectionEnv_write_fails env i = true) ∨ (write_frame message []).2 ≠ Ok tt.

Lemma frames_in_fuel fuel : ∀ fuel' bytes, length bytes ≤ fuel → length bytes ≤ fuel' →
  frames_in fuel bytes = frames_in fuel' bytes.
Proof.
  induction fuel as [|fuel IH]; intros [|fuel'] bytes Hf Hf'; simpl; try done.
  - destruct bytes; [done|simpl in *; lia].
  - destruct bytes; [done|simpl in *; lia].
  - destruct (read_frame bytes) as [rest [m|]] eqn:Hr; [|done]. apply read_frame_shrinks in Hr.
    f_equal. apply IH; lia.
Qed.
Lemma messages_in_step bytes : messages_in bytes =
  match read_frame (T := ClientMessage) bytes with
  | (rest, Ok message) => message :: messages_in rest
  | (_, Err _) => []
  end.
Proof.
  unfold messages_in. destruct bytes as [|b bytes]; [done|]. cbn [length frames_in].
  destruct (read_frame (b :: bytes)) as [rest [m|]] eqn:Hr; [|done]. apply read_frame_shrinks in Hr.
  simpl in Hr. f_equal. apply frames_in_fuel; lia.
Qed.
(** Sending does what it can, and says whether it could. *)
Lemma send_spec env m (c : Connection (W := W)) :
  let '(c', go) := send env m c in
  Connection_world c' = Connection_world c ∧ Connection_reader c' = Connection_reader c ∧
  Connection_authenticated c' = Connection_authenticated c ∧
  if go then length (Connection_log c') = S (length (Connection_log c)) else unsent env m.
Proof.
  unfold send. destruct (ConnectionEnv_write_fails env _) eqn:Hw.
  { split_and!; try done. left. eauto. }
  destruct (write_frame m (Connection_writer c)) as [writer [[]|e]] eqn:Hf; simpl.
  - split_and!; try done. rewrite length_app. simpl. lia.
  - split_and!; try done. right. revert Hf. unfold write_frame. destruct (to_text m); [|done].
    by case_match.
Qed.
(** After the handshake: the messages are carried out one after the other up
    to the end or to an answer that cannot be sent. *)
Lemma serve_hears env fuel : ∀ c, Connection_authenticated c = Some PROTOCOL_VERSION →
  length (Connection_reader c) < fuel →
  let ms := until_handshake (messages_in (Connection_reader c)) in
  ∃ n, n ≤ length ms ∧
    let '(answers, w) := answer_all supervisor_version env (length (Connection_log c)) (take n ms)
      (Connection_world c) in
    Connection_world (serve_loop supervisor_version env fuel c).1 = w ∧
    (n < length ms → ∃ m, last answers = Some m ∧ unsent env m).
Proof.
  induction fuel as [|fuel IH]; intros c Ha Hf; [lia|]. cbn [serve_loop]. unfold serve_turn.
  rewrite messages_in_step. destruct (read_frame (Connection_reader c)) as [rest [m|e]] eqn:Hr.
  2: { exists 0. split; [done|]. simpl. split; [|lia]. unfold send_error.
    destruct e; simpl; try done; pose proof (send_spec env) as Hs;
      match goal with |- context[send env ?m ?c1] => specialize (Hs m c1); destruct (send env m c1) end;
      simpl; apply Hs. }
  apply read_frame_shrinks in Hr. unfold handle_message. cbn [set_reader Connection_authenticated]. rewrite Ha.
  destruct m as [h| |cmd]; cbn [until_handshake no_handshake].
  - exists 0. split; [done|]. simpl. split; [|lia]. unfold send_error.
    match goal with |- context[send env ?m ?c1] =>
      pose proof (send_spec env m c1) as Hs; destruct (send env m c1) end. simpl. apply Hs.
  - match goal with |- context[send env ?m ?c1] =>
      pose proof (send_spec env m c1) as Hs; destruct (send env m c1) as [c2 []] end;
    cbn [set_reader set_world Connection_world Connection_reader Connection_authenticated Connection_log] in Hs;
    destruct Hs as (Hw2&Hr2&Ha2&Hgo).
    + destruct (IH c2) as (n&Hn&Hrun); [congruence|rewrite Hr2; lia|]. rewrite Hr2 in Hn, Hrun.
      exists (S n). split; [simpl; lia|]. cbn [take answer_all].
      rewrite length_app in Hgo. simpl in Hgo.
      replace (length (Connection_log c) + 2) with (length (Connection_log c2)) by lia. rewrite <-Hw2.
      destruct (answer_all _ _ _ _ _) as [answers w]. destruct Hrun as [Hw Hlast]. split; [done|].
      simpl. intros Hl. destruct (Hlast ltac:(lia)) as (m&Hm&Hu). exists m. split; [|done].
      destruct answers; [done|]. exact Hm.
    + exists 1. split; [simpl; lia|]. cbn [take answer_all]. split; [done|]. intros _. by eexists.
  - cbn [set_reader Connection_log Connection_world].
    destruct (run_command _ cmd _) as [w1 response] eqn:Hcmd.
    match goal with |- context[send env ?m ?c1] =>
      pose proof (send_spec env m c1) as Hs; destruct (send env m c1) as [c2 []] end;
    cbn [set_reader set_world Connection_world Connection_reader Connection_authenticated Connection_log] in Hs;
    destruct Hs as (Hw2&Hr2&Ha2&Hgo).
    + destruct (IH c2) as (n&Hn&Hrun); [congruence|rewrite Hr2; lia|]. rewrite Hr2 in Hn, Hrun.
      exists (S n). split; [simpl; lia|]. cbn [take answer_all]. rewrite Hcmd.
      rewrite length_app in Hgo. simpl in Hgo.
      replace (length (Connection_log c) + 3) with (length (Connection_log c2)) by lia. rewrite <-Hw2.
      destruct (answer_all _ _ _ _ _) as [answers w]. destruct Hrun as [Hw Hlast]. split; [done|].
      simpl. intros Hl. destruct (Hlast ltac:(lia)) as (m&Hm&Hu). exists m. split; [|done].
      destruct answers; [done|]. exact Hm.
    + exists 1. split; [simpl; lia|]. cbn [take answer_all]. rewrite Hcmd. split; [done|]. intros _. by eexists.
Qed.
(** A whole connection. *)
Lemma connection_hears env bytes v w :
  let w' := Connection_world (serve_connection supervisor_version env bytes v w).1 in
  match heard env v bytes with
  | None => w' = w
  | Some (accepted, ms) => ∃ n, n ≤ length ms ∧
      let '(answers, w1) := answer_all supervisor_version env 2 (take n ms) w in
      w' = w1 ∧ (n < length ms → ∃ m,
        last (ServerHandshakeAccepted accepted :: answers) = Some m ∧ unsent env m)
  end.
Proof.
  unfold serve_connection, heard. cbn [serve_loop]. rewrite messages_in_step.
  unfold serve_turn. cbn [Connection_reader connection_new].
  assert (∀ m c1, Connection_world (send env m c1).1 = Connection_world (W := W) c1) as Hsend.
  { intros m c1. pose proof (send_spec env m c1) as Hs. destruct (send env m c1). apply Hs. }
  destruct (read_frame bytes) as [rest [m|e]] eqn:Hr.
  2: { destruct e; simpl; unfold send_error; by rewrite ?Hsend. }
  apply read_frame_shrinks in Hr. unfold handle_message.
  cbn [connection_new set_reader Connection_authenticated].
  destruct m as [h| |cmd]; [|simpl; unfold send_error; by rewrite Hsend..].
  cbn [connection_new set_reader Connection_verifier].
  destruct (verify_at _ h _ v) as [v1 [accepted|e]] eqn:Hv; cbn [snd].
  2: { simpl. by rewrite Hsend. }
  assert (HandshakeAccepted_protocol_version accepted = PROTOCOL_VERSION) as Hp.
  { unfold verify_at in Hv. repeat case_match; by simplify_eq/=. }
  match goal with |- context[send env ?m ?c1] =>
    pose proof (send_spec env m c1) as Hs; destruct (send env m c1) as [c2 []] end;
  cbn [set_reader set_verified connection_new Connection_world Connection_reader Connection_authenticated
    Connection_log] in Hs; destruct Hs as (Hw2&Hr2&Ha2&Hgo).
  - destruct (serve_hears env (length bytes) c2) as (n&Hn&Hrun); [by rewrite Ha2, Hp|rewrite Hr2; lia|].
    rewrite Hr2 in Hn, Hrun. exists n. split; [done|]. rewrite Hgo, Hw2 in Hrun. simpl in Hrun.
    destruct (answer_all _ _ _ _ _) as [answers w1]. destruct Hrun as [Hw Hlast]. split; [done|].
    intros Hl. destruct (Hlast Hl) as (m&Hm&Hu). exists m. split; [|done].
    destruct answers; [done|]. exact Hm.
  - exists 0. split; [lia|]. simpl. split; [done|]. intros _. by eexists.
Qed.
(** What the verifier remembers across connections: every nonce accepted so
    far is in some history [acc] under which its invariant holds. *)
Lemma verifier_inv_later acc t t' v :
  verifier_inv acc t v → (t ≤ t')%Z → verifier_inv acc t' v.
Proof.
  intros [B S P L A] Ht. split; try done.
  - intros p Hp. specialize (P p Hp). lia.
  - intros p Hp Hlive. apply L; [done|lia].
  - intros p Hp. specialize (A p Hp). lia.
Qed.
Lemma serve_next_inv acc t s env bytes :
  verifier_inv acc t s.1 → (t ≤ ConnectionEnv_now env)%Z →
  ∃ acc', acc ⊆ acc' ∧ verifier_inv acc' (ConnectionEnv_now env) (serve_next s (env, bytes)).1 ∧
    ∀ h accepted, opening bytes = Some h →
      (verify_at (ConnectionEnv_secret env) h (ConnectionEnv_now env) s.1).2 = Ok accepted →
      (Handshake_nonce h, ConnectionEnv_now env) ∈ acc'.
Proof.
  intros Hi Ht. unfold serve_next. simpl.
  destruct (connection_verifies env bytes s.1 s.2) as [(h&r&Ho&Hv)|[Ho Hv]].
  - eexists. split; [|split; [eapply verifier_inv_step; [done|done|exact Hv]|]]; [set_solver|].
    intros h' accepted Ho' Ha. rewrite Ho in Ho'. injection Ho' as <-. rewrite Hv in Ha. simpl in Ha.
    subst r. set_solver.
  - exists acc. split; [done|]. rewrite Hv. split; [by eapply verifier_inv_later|].
    intros h accepted Ho'. by rewrite Ho in Ho'.
Qed.
Lemma serve_all_inv acc t s connections rest :
  verifier_inv acc t s.1 → in_time t (connections ++ rest) →
  ∃ acc' t', acc ⊆ acc' ∧ verifier_inv acc' t' (foldl serve_next s connections).1 ∧ in_time t' rest.
Proof.
  revert acc t s. induction connections as [|[env bytes] connections IH]; intros acc t s Hi Ht.
  - by exists acc, t.
  - destruct Ht as [Hle Ht]. destruct (serve_next_inv acc t s env bytes Hi Hle) as (acc1&Hs&Hi1&_).
    destruct (IH acc1 _ _ Hi1 Ht) as (acc'&t'&Hs'&Hi'&Ht'). exists acc', t'. by split; [etrans|].
Qed.

(** C11: recording a session and playing it back achieves nothing.  A
    connection that opens with a nonce the server accepted less than ten
    minutes before, in whatever connection and whatever happened since,
    leaves the missions as they are. *)
Theorem replayed_session_powerless world t0 before env bytes between env' bytes' h h' accepted :
  in_time t0 (before ++ (env, bytes) :: between ++ [(env', bytes')]) →
  opening bytes = Some h → opening bytes' = Some h' →
  (verify_at (ConnectionEnv_secret env) h (ConnectionEnv_now env) (run_server world before).1).2
    = Ok accepted →
  Handshake_nonce h' = Handshake_nonce h →
  (ConnectionEnv_now env' - ConnectionEnv_now env < NONCE_TTL)%Z →
  let s := run_server world (before ++ (env, bytes) :: between) in
  powerless s.2 (serve_connection supervisor_version env' bytes' s.1 s.2).1 ∧
  (serve_next s (env', bytes')).2 = s.2.
Proof.
  intros Ht Ho Ho' Ha Hnonce Httl s. unfold s, run_server. rewrite foldl_app. cbn [foldl].
  assert (verifier_inv [] t0 (HandshakeVerifier_new install_id)) as Hnew.
  { split; simpl; try done; [constructor|..]; by intros p ?%elem_of_nil. }
  destruct (serve_all_inv [] t0 (HandshakeVerifier_new install_id, world) before
    ((env, bytes) :: between ++ [(env', bytes')]) Hnew Ht) as (acc0&t1&_&Hi0&Ht1).
  destruct Ht1 as [Hle Ht1]. fold (run_server world before) in Hi0 |- *.
  destruct (serve_next_inv _ _ _ env bytes Hi0 Hle) as (acc1&_&Hi1&Hin).
  destruct (serve_all_inv _ _ _ between [(env', bytes')] Hi1 Ht1) as (acc2&t2&Hs2&Hi2&[Hle2 _]).
  set (s2 := foldl serve_next _ between) in *.
  assert (powerless s2.2 (serve_connection supervisor_version env' bytes' s2.1 s2.2).1) as Hp.
  { unfold serve_connection. cbn [serve_loop].
    pose proof (first_turn supervisor_version env' bytes' s2.1 s2.2) as Hf.
    destruct (serve_turn supervisor_version env' _) as [c go].
    destruct Hf as [(rest&h1&a&Hr&Hv)|(Hp&->&_)]; [|done]. exfalso.
    unfold opening in Ho'. rewrite Hr in Ho'. injection Ho' as ->.
    pose proof (accepted_nonce_fresh _ _ _ _ _ _ _ _ Hi2 Hle2 Hv (ConnectionEnv_now env)) as Hfresh.
    rewrite Hnonce in Hfresh. specialize (Hfresh (Hs2 _ (Hin _ _ Ho Ha))). lia. }
  split; [done|]. apply Hp.
Qed.

(** What the dispatcher keeps, the server keeps. *)
Section preserves.
Context (P : W → Prop).
Context (Htouch : ∀ w, P w → P (ipc_touch_ui w)).
Context (Hdispatch : ∀ command request w, P w → P (ipc_dispatch command request w).1).

Lemma serve_loop_preserves env fuel c :
  P (Connection_world c) → P (Connection_world (serve_loop supervisor_version env fuel c).1).
Proof.
  revert c. induction fuel as [|fuel IH]; intros c Hc; simpl; [done|].
  assert (P (Connection_world (serve_turn supervisor_version env c).1)) as Ht.
  { assert (∀ m (c1 : Connection (W := W)),
      Connection_world (send env m c1).1 = Connection_world c1) as Hs.
    { intros m c1. unfold send. by repeat case_match. }
    assert (∀ n w, P w → P (Nat.iter n ipc_touch_ui w)) as Hn.
    { intros n w Hw. induction n; simpl; auto. }
    unfold serve_turn, handle_message, send_error, run_command. cbn [set_reader Connection_authenticated].
    destruct (read_frame _) as [reader [m|[]]]; simpl; rewrite ?Hs; try done.
    destruct (Connection_authenticated c), m as [h| |cmd]; simpl; rewrite ?Hs; simpl; auto.
    - match goal with |- context[ipc_dispatch ?a ?b ?w] =>
        pose proof (Hdispatch a b w) as Hd; destruct (ipc_dispatch a b w) as [w' r] end.
      rewrite Hs. apply Hd. apply (Hn (S _)), Hc.
    - destruct (verify_at _ h _ _) as [v [a|e]]; simpl; by rewrite Hs. }
  destruct (serve_turn supervisor_version env c) as [c1 []]; simpl in *; [by apply IH|done].
Qed.
Lemma run_server_preserves world connections :
  P world → P (run_server world connections).2.
Proof.
  unfold run_server. generalize (HandshakeVerifier_new install_id). intros v Hw. revert v world Hw.
  induction connections as [|[env bytes] connections IH]; intros v world Hw; [done|].
  simpl. apply IH. by apply serve_loop_preserves.
Qed.
End preserves.
End server.

(** ** The idle watchdog

    [serve_with_idle_timeout] watches the thread of a connection: a deadline
    that activity moves, and a decision to cancel that is never taken back.
    Times are nanoseconds. *)
Definition DEFAULT_IDLE_TIMEOUT : Z := (30 * 1000000000)%Z.
Definition WATCHDOG_POLL_INTERVAL : Z := (10 * 1000000)%Z.
Definition MIN_COMMAND_HEARTBEAT_INTERVAL : Z := (10 * 1000000)%Z.
Record Watch := { Watch_deadline : Z; Watch_cancelling : bool }.
Definition watch_new (now idle_timeout : Z) : Watch :=
  {| Watch_deadline := now + idle_timeout; Watch_cancelling := false |}.
(** One turn: the time it starts, whether a stop was asked for, and the time
    activity was noticed before the wait ended. *)
Definition watch_turn (idle_timeout now : Z) (stop : bool) (activity : option Z) (w : Watch) : Watch :=
  let cancelling := Watch_cancelling w || stop || (Watch_deadline w <=? now)%Z in
  match activity with
  | Some noticed =>
      if negb cancelling then {| Watch_deadline := noticed + idle_timeout; Watch_cancelling := false |}
      else {| Watch_deadline := Watch_deadline w; Watch_cancelling := cancelling |}
  | None => {| Watch_deadline := Watch_deadline w; Watch_cancelling := cancelling |}
  end.
(** How long the turn waits for activity. *)
Definition watch_wait (now : Z) (w : Watch) : Z :=
  if Watch_cancelling w then WATCHDOG_POLL_INTERVAL
  else Z.min (saturating_sub (Watch_deadline w) now) WATCHDOG_POLL_INTERVAL.
Definition heartbeat_interval (idle_timeout : Z) : Z :=
  Z.max (idle_timeout / 3) MIN_COMMAND_HEARTBEAT_INTERVAL.

(** While a command runs its heartbeats come before the deadline, so a slow
    command is not cancelled for being idle. *)
Lemma heartbeat_in_time idle_timeout beat now stop w :
  (MIN_COMMAND_HEARTBEAT_INTERVAL < idle_timeout)%Z →
  Watch_cancelling w = false → Watch_deadline w = (beat + idle_timeout)%Z → stop = false →
  (now ≤ beat + heartbeat_interval idle_timeout)%Z →
  Watch_cancelling (watch_turn idle_timeout now stop None w) = false.
Proof.
  unfold heartbeat_interval, MIN_COMMAND_HEARTBEAT_INTERVAL, watch_turn. intros Hi Hc Hd -> Hn.
  simpl. rewrite Hc. simpl. apply Z.leb_gt. rewrite Hd.
  assert (idle_timeout / 3 < idle_timeout)%Z by (apply Z.div_lt; lia). lia.
Qed.
(** A decision to cancel stands, and silence until the deadline leads to it. *)
Lemma watch_cancels idle_timeout now stop activity w :
  Watch_cancelling w = true ∨ stop = true ∨ (Watch_deadline w ≤ now)%Z →
  Watch_cancelling (watch_turn idle_timeout now stop activity w) = true.
Proof.
  intros Hc. unfold watch_turn.
  assert (Watch_cancelling w || stop || (Watch_deadline w <=? now)%Z = true) as ->; [|by destruct activity].
  destruct Hc as [->|[->|Hd]]; [done|by rewrite orb_true_r|].
  rewrite (proj2 (Z.leb_le _ _) Hd). by rewrite orb_true_r.
Qed.
