(* ===== verification/ServerLoop.v ===== *)
(** * The server thread ([crates/supervisor/src/ipc.rs])

    The loop of the server around its connections: waiting for a client on the
    pipe, serving it, disconnecting, until it is told to stop; and the handle
    that stops it.  What the system answers in each turn is given.  The loop
    is shown to do to the world exactly what [run_server] does for the
    connections it served. *)

From S2P Require Import Prelude Always Extern Frame Handshake RecoveryPackage ServiceData Service ServiceExamples Ipc.
From Stdlib Require Import ZArith Lia.
From stdpp Require Import prelude strings.

(** ** The pipe *)
Definition ERROR_NO_DATA : Z := 232%Z.
Definition ERROR_PIPE_CONNECTED : Z := 535%Z.
Definition ERROR_OPERATION_ABORTED : Z := 995%Z.
(** [ConnectNamedPipe]: it succeeds, or fails with a code. *)
Inductive ConnectAnswer := ConnectSucceeds | ConnectFails (code : Z) (message : string).
Definition pipe_connect (answer : ConnectAnswer) : result string bool :=
  match answer with
  | ConnectSucceeds => Ok true
  | ConnectFails code message =>
      if ((code =? ERROR_NO_DATA) || (code =? ERROR_OPERATION_ABORTED))%Z then Ok false
      else if (code =? ERROR_PIPE_CONNECTED)%Z then Ok true
      else Err ("ConnectNamedPipe failed: " +:+ message)
  end.

Section server_loop.
Context `{SerdeJson, HmacSha256, !SerdeText ClientMessage, !SerdeText ServerMessage}.
Context {W : Type} `{!IpcDispatcher W}.
Context (supervisor_version install_id : string).

(** What became of the thread of a connection; a panic leaves some world. *)
Inductive WorkerEnd := WorkerReturns | WorkerNotSpawned (error : string) | WorkerPanics (world : W).
Record ServerTurn := {
  Turn_stop_before : bool;
  Turn_connect : ConnectAnswer;
  Turn_stop_after : bool;
  Turn_incoming : ConnectionEnv * list u8;
  Turn_worker : WorkerEnd;
}.
Inductive pipe_action := PipeConnected | PipeServed (incoming : ConnectionEnv * list u8) | PipeDisconnected.
Record Server := { Server_state : HandshakeVerifier * W; Server_log : list pipe_action }.
Definition server_note (actions : list pipe_action) (s : Server) : Server :=
  {| Server_state := Server_state s; Server_log := Server_log s ++ actions |}.
Definition Server_new (world : W) : Server :=
  {| Server_state := (HandshakeVerifier_new install_id, world); Server_log := [] |}.

(** [None] while the thread runs. *)
Fixpoint server_loop (turns : list ServerTurn) (s : Server) : Server * option (result string unit) :=
  match turns with
  | [] => (s, None)
  | t :: turns =>
      if Turn_stop_before t then (s, Some (Ok tt)) else
      match pipe_connect (Turn_connect t) with
      | Err error => (s, Some (Err error))
      | Ok false => server_loop turns (server_note [PipeDisconnected] s)
      | Ok true =>
          if Turn_stop_after t
          then (server_note [PipeConnected; PipeDisconnected] s, Some (Ok tt))
          else match Turn_worker t with
          | WorkerNotSpawned error => (server_note [PipeConnected] s, Some (Err error))
          | WorkerPanics world =>
              ({| Server_state := ((Server_state s).1, world); Server_log := Server_log s ++ [PipeConnected] |},
               Some (Err "pipe connection thread panicked"))
          | WorkerReturns => server_loop turns {|
              Server_state := serve_next supervisor_version (Server_state s) (Turn_incoming t);
              Server_log := Server_log s ++ [PipeConnected; PipeServed (Turn_incoming t); PipeDisconnected] |}
          end
      end
  end.

(** ** The handle *)
(** [thread] is how the thread ends once it is told to. *)
Inductive ThreadEnd := ThreadReturns (r : result string unit) | ThreadPanics.
Record IpcServer := { IpcServer_stop : bool; IpcServer_thread : option ThreadEnd }.
Definition stop_and_join : stm IpcServer string unit := λ s,
  match IpcServer_thread s with
  | None => (s, Ok tt)
  | Some thread => ({| IpcServer_stop := true; IpcServer_thread := None |},
      match thread with
      | ThreadReturns r => r
      | ThreadPanics => Err "pipe server thread panicked"
      end)
  end.
(** Dropping the handle. *)
Definition IpcServer_drop (s : IpcServer) : IpcServer := (stop_and_join s).1.
(** [shutdown] consumes the handle, which is dropped. *)
Definition shutdown_server (s : IpcServer) : IpcServer * result string unit :=
  let '(s, r) := stop_and_join s in (IpcServer_drop s, r).
(** [spawn_with_idle_timeout_and_dispatcher]: the user, the first instance of
    the pipe (made before the thread, so a name that is taken is an error of
    the call), the thread, which ends as [ends] says. *)
Definition spawn_server (sid : result string string) (create : string → result string unit)
    (thread : result string unit) (ends : ThreadEnd) : result string IpcServer :=
  sid ← sid;
  _ ← create sid;
  _ ← thread;
  Ok {| IpcServer_stop := false; IpcServer_thread := Some ends |}.
(** [is_running]: [finished] is what the thread's handle says. *)
Definition server_is_running (finished : bool) (s : IpcServer) : bool :=
  match IpcServer_thread s with Some _ => negb finished | None => false end.
Lemma spawned_server_owned sid create thread ends s :
  spawn_server sid create thread ends = Ok s →
  (∃ user, sid = Ok user ∧ create user = Ok tt) ∧ server_is_running false s = true ∧
  IpcServer_thread (IpcServer_drop s) = None ∧ IpcServer_stop (IpcServer_drop s) = true.
Proof.
  unfold spawn_server. intros Hs. bind_inv Hs. injection Hs as <-.
  split_and!; try done. destruct sid as [user|]; [|done]. exists user. split; [done|].
  match goal with Hu : Ok _ = Ok _, Hc : create _ = Ok ?u |- _ => injection Hu as ->; by destruct u end.
Qed.
Lemma shutdown_stops_once s s' r :
  shutdown_server s = (s', r) →
  IpcServer_thread s' = None ∧ (r, s') = ((stop_and_join s).2, (stop_and_join s).1).
Proof.
  unfold shutdown_server, IpcServer_drop, stop_and_join. destruct s as [stop [thread|]]; simpl; by intros [= <- <-].
Qed.

(** ** What the loop does *)
Definition serves (t : ServerTurn) : bool :=
  negb (Turn_stop_before t) && negb (Turn_stop_after t)
  && bool_decide (pipe_connect (Turn_connect t) = Ok true)
  && match Turn_worker t with WorkerReturns => true | _ => false end.
Definition panics (t : ServerTurn) : bool :=
  match Turn_worker t with WorkerPanics _ => true | _ => false end.
(** The connections served before the loop ends. *)
Fixpoint served (turns : list ServerTurn) : list (ConnectionEnv * list u8) :=
  match turns with
  | [] => []
  | t :: turns =>
      if Turn_stop_before t then []
      else match pipe_connect (Turn_connect t) with
      | Err _ => []
      | Ok false => served turns
      | Ok true => if serves t then Turn_incoming t :: served turns else []
      end
  end.
(** The pipe between connections and within one. *)
Inductive pipe_phase := PipeFree | PipeTaken | PipeDone.
Definition pipe_next (ph : pipe_phase) (a : pipe_action) : option pipe_phase :=
  match ph, a with
  | PipeFree, PipeConnected => Some PipeTaken
  | PipeTaken, PipeServed _ => Some PipeDone
  | PipeFree, PipeDisconnected | PipeTaken, PipeDisconnected | PipeDone, PipeDisconnected => Some PipeFree
  | _, _ => None
  end.
Definition pipe_phases (log : list pipe_action) : option pipe_phase :=
  foldl (λ ph a, ph ← ph; pipe_next ph a) (Some PipeFree) log.
Lemma pipe_phases_app log actions :
  pipe_phases (log ++ actions) = foldl (λ ph a, ph ← ph; pipe_next ph a) (pipe_phases log) actions.
Proof. apply foldl_app. Qed.
Lemma server_loop_from turns : ∀ s,
  Forall (λ t, panics t = false) turns → pipe_phases (Server_log s) = Some PipeFree →
  let '(s', r) := server_loop turns s in
  Server_state s' = foldl (serve_next supervisor_version) (Server_state s) (served turns) ∧
  (pipe_phases (Server_log s') = Some PipeFree ∨
    pipe_phases (Server_log s') = Some PipeTaken ∧ ∃ error, r = Some (Err error)) ∧
  (r = None → Forall (λ t, Turn_stop_before t = false ∧
    (pipe_connect (Turn_connect t) = Ok true → Turn_stop_after t = false)) turns).
Proof.
  induction turns as [|t turns IH]; intros s Hp Hl; [by split_and!; [|left|]|].
  apply list.Forall_cons in Hp as [Ht Hp]. cbn [server_loop served]. unfold serves.
  destruct (Turn_stop_before t) eqn:Hb; [by split_and!; [|left|]|].
  destruct (pipe_connect (Turn_connect t)) as [[]|error] eqn:Hc; simpl; [| |by split_and!; [|left|]].
  - destruct (Turn_stop_after t) eqn:Ha; simpl.
    { split_and!; [done| |done]. left. by rewrite pipe_phases_app, Hl. }
    unfold panics in Ht. destruct (Turn_worker t) as [|error|world]; [| |done].
    + match goal with |- context [server_loop turns ?s0] =>
        specialize (IH s0 Hp); destruct (server_loop turns s0) as [s' r] end.
      destruct IH as (Hs&Hph&Hr); [simpl; by rewrite pipe_phases_app, Hl|].
      split_and!; [done|done|]. intros Hn. constructor; [done|by apply Hr].
    + split_and!; [done| |done]. right. split; [simpl; by rewrite pipe_phases_app, Hl|by exists error].
  - specialize (IH (server_note [PipeDisconnected] s) Hp).
    destruct (server_loop turns (server_note [PipeDisconnected] s)) as [s' r].
    destruct IH as (Hs&Hph&Hr); [simpl; by rewrite pipe_phases_app, Hl|].
    split_and!; [done|done|]. intros Hn. constructor; [by rewrite Hc|by apply Hr].
Qed.
(** The server thread serves the connections and nothing else.  As long as no
    connection's thread panics: what it does to the world and to the nonces it
    remembers is what [run_server] does for the connections it served, in
    order; the pipe is disconnected between any two of them and, unless the
    thread failed, at the end; and once it has seen the request to stop it
    has ended, and served nothing after. *)
Theorem server_loop_refines world turns :
  Forall (λ t, panics t = false) turns →
  let '(s, r) := server_loop turns (Server_new world) in
  Server_state s = run_server supervisor_version install_id world (served turns) ∧
  (pipe_phases (Server_log s) = Some PipeFree ∨
    pipe_phases (Server_log s) = Some PipeTaken ∧ ∃ error, r = Some (Err error)) ∧
  (r = None → Forall (λ t, Turn_stop_before t = false ∧
    (pipe_connect (Turn_connect t) = Ok true → Turn_stop_after t = false)) turns).
Proof. intros Hp. exact (server_loop_from turns (Server_new world) Hp eq_refl). Qed.
End server_loop.
