(* ===== verification/ServiceIpc.v ===== *)
(** * The mission service behind the local server
    ([impl IpcDispatcher for MissionService] in
    [crates/supervisor/src/mission_service.rs])

    The service is the dispatcher of the server: what arrives over the pipe is
    a run of the service machine, made of exactly the commands and signs of life
    in the bytes of authenticated clients. *)

From S2P Require Import Prelude Always Extern Ids Event Ordering Approval Budget Envelope PolicyEngine.
From S2P Require Import Command AdapterCore LoadoutMonitor ProcessTree Pause MissionActor.
From S2P Require Import Frame Handshake BlobStore Redaction Ledger Lifecycle RecoveryPackage.
From S2P Require Import ServiceData Service ServiceProofs ServiceSafety ServiceExamples Ipc.
From Stdlib Require Import ZArith Lia.
From stdpp Require Import prelude gmap strings pretty.

Section service_ipc.
Context `{SerdeJson, Sha256, UuidText, RegexCrate, !JsonParse, HashSetOrder, Aead}.
Context `{!Serde ApprovalRequest, !Serde ActionClass}.
Context `{!DebugFmt PauseState, !DebugFmt BudgetDimension, !DebugFmt ActionClass}.
Context `{!DebugFmt ActorError, !HashOrder ApprovalRequest}.
Context `{!DisplayFmt LedgerError, !DisplayFmt LifecycleError, !DisplayFmt BlobStoreError}.
Context `{!DisplayFmt RecoveryError, !SerdeText (RecoveryManifest * BlobRef)}.
Context `{!Serde EventEnvelope, !Serde ArchivePlan, !Serde DeleteImpactPlan}.
Context `{!Serde RecoveryPackage, !Serde RecoveryManifest}.
Context `{!Serde MissionCommandRequest, !Serde MissionCommandResult, !ServiceEnv}.
Context `{HmacSha256, !SerdeText ClientMessage, !SerdeText ServerMessage}.
Context (nonces : nat → option (list u8)) (foreign_keys : bool).
(** The provider configuration, read from another application. *)
Context (cc_switch : Value).

#[local] Instance MissionService_dispatcher : IpcDispatcher MissionService := {
  ipc_dispatch command request s := dispatch_json nonces foreign_keys cc_switch command request s;
  ipc_touch_ui s := (touch_ui s).1;
}.

(** What the messages of a client are for the service machine: a sign of life
    for a ping; for a command a sign of life, one more for every heartbeat while
    it runs, and the command.  [pos] numbers the messages as the server does. *)
Fixpoint message_events (env : ConnectionEnv) (pos : nat) (messages : list ClientMessage)
    : list service_event :=
  match messages with
  | ClientPing :: rest => SeUi :: message_events env (pos + 2) rest
  | ClientCommand command :: rest =>
      replicate (S (ConnectionEnv_heartbeats env pos)) SeUi ++
      SeCommand cc_switch (CommandRequest_command command) (CommandRequest_request command) ::
      message_events env (pos + 3) rest
  | _ => []
  end.
(** What the service hears over these connections: of each one that opens with
    a handshake the verifier accepts, the messages after it, up to the first
    that is none or is another handshake; fewer only if the answer to the last
    one heard could not be sent.  Of any other connection, nothing. *)
Inductive hears (version : string) : HandshakeVerifier → MissionService →
    list (ConnectionEnv * list u8) → list service_event → Prop :=
| hears_end v s : hears version v s [] []
| hears_refused v s env bytes rest events :
    heard env v bytes = None →
    hears version (serve_next version (v, s) (env, bytes)).1 s rest events →
    hears version v s ((env, bytes) :: rest) events
| hears_messages v s env bytes rest events accepted messages n :
    heard env v bytes = Some (accepted, messages) → n ≤ length messages →
    let now := message_events env 2 (take n messages) in
    (n < length messages → ∃ m,
      last (ServerHandshakeAccepted accepted :: (answer_all version env 2 (take n messages) s).1) = Some m ∧
      unsent env m) →
    hears version (serve_next version (v, s) (env, bytes)).1 (service_run nonces foreign_keys s now) rest events →
    hears version v s ((env, bytes) :: rest) (now ++ events).

Lemma touches_run n s : Nat.iter n ipc_touch_ui s = service_run nonces foreign_keys s (replicate n SeUi).
Proof.
  revert s. induction n as [|n IH]; intros s; [done|]. rewrite Nat.iter_succ_r. simpl. by rewrite IH.
Qed.
Lemma answer_all_run version env messages : ∀ pos s,
  (answer_all version env pos messages s).2 = service_run nonces foreign_keys s (message_events env pos messages).
Proof.
  induction messages as [|[h| |command] messages IH]; intros pos s; simpl; try done.
  - specialize (IH (pos + 2) (ipc_touch_ui s)). destruct (answer_all _ _ _ _ _). exact IH.
  - unfold run_command. rewrite (touches_run (S (ConnectionEnv_heartbeats env pos)) s).
    transitivity (service_run nonces foreign_keys
      (service_run nonces foreign_keys s (replicate (S (ConnectionEnv_heartbeats env pos)) SeUi))
      (SeCommand cc_switch (CommandRequest_command command) (CommandRequest_request command) ::
        message_events env (pos + 3) messages)); 
      [|exact (eq_sym (foldl_app _ (replicate (S (ConnectionEnv_heartbeats env pos)) SeUi) _ s))].
    generalize (service_run nonces foreign_keys s (replicate (S (ConnectionEnv_heartbeats env pos)) SeUi)).
    intros s1. unfold service_run. simpl.
    destruct (dispatch_json _ _ _ _ _ s1) as [s2 answer]. simpl.
    specialize (IH (pos + 3) s2). destruct (answer_all _ _ _ _ _). exact IH.
Qed.

(** C36: the server carries out exactly what authenticated clients ask for.
    After any connections, with any bytes, the service is where the service
    machine gets by the commands and signs of life in these bytes: those that
    follow, in their connection, a handshake the verifier accepted at that
    moment, each once and in the order they arrived, the connections one after
    the other; a connection is cut short only after an answer that could not be
    sent.  No event of an agent, no restart and no expiry of the watchdog is
    among them. *)
Theorem server_refines_service version install_id s connections :
  ∃ events, hears version (HandshakeVerifier_new install_id) s connections events ∧
    (run_server version install_id s connections).2 = service_run nonces foreign_keys s events.
Proof.
  unfold run_server. generalize (HandshakeVerifier_new install_id). intros v. revert v s.
  induction connections as [|[env bytes] connections IH]; intros v s; [exists []; split; [constructor|done]|].
  pose proof (connection_hears version env bytes v s) as Hc.
  cbn [foldl]. set (next := serve_next version (v, s) (env, bytes)).
  change (Connection_world (serve_connection version env bytes v s).1) with next.2 in Hc.
  destruct (IH next.1 next.2) as (events&Hev&Hrun). rewrite <-surjective_pairing in Hrun.
  destruct (heard env v bytes) as [[accepted messages]|] eqn:Hh.
  - destruct Hc as (n&Hn&Hc). pose proof (answer_all_run version env (take n messages) 2 s) as Hans.
    destruct (answer_all version env 2 (take n messages) s) as [answers w] eqn:Ha. simpl in Hans.
    destruct Hc as [Hw Hlast]. exists (message_events env 2 (take n messages) ++ events). split.
    + eapply hears_messages; [done|done| |by rewrite <-Hans, <-Hw]. by rewrite Ha.
    + rewrite Hrun, Hw, Hans. unfold service_run. by rewrite foldl_app.
  - exists events. split; [|by rewrite Hrun, Hc]. apply hears_refused; [done|]. by rewrite <-Hc at 2.
Qed.
End service_ipc.

(** ** A concrete server *)
Module IpcExamples.
Import Json CodedJson.

(** Any countable type has a text that can be read back. *)
Definition code_text {T} `{Countable T} (v : T) : option string := Some (bits_text (encode v)).
Definition code_read {T} `{Countable T} (s : string) : option T := text_bits s ≫= decode.

#[export] Instance json_countable : Countable json.
Proof.
  apply (inj_countable' json_tree tree_json). intros v. by apply (tree_json_tree (json_size v)).
Defined.
Definition client_code (m : ClientMessage)
    : (string * list Z * list Z * list Z) + unit + (string * json) :=
  match m with
  | ClientHandshake h => inl (inl (Handshake_install_id h, Handshake_protocol_versions h,
      Handshake_nonce h, Handshake_proof h))
  | ClientPing => inl (inr tt)
  | ClientCommand c => inr (CommandRequest_command c, CommandRequest_request c)
  end.
Definition client_decode (x : (string * list Z * list Z * list Z) + unit + (string * json))
    : ClientMessage :=
  match x with
  | inl (inl (i, v, n, p)) => ClientHandshake {| Handshake_install_id := i;
      Handshake_protocol_versions := v; Handshake_nonce := n; Handshake_proof := p |}
  | inl (inr _) => ClientPing
  | inr (c, r) => ClientCommand {| CommandRequest_command := c; CommandRequest_request := r |}
  end.
#[export] Instance client_text : SerdeText ClientMessage := {
  to_text m := code_text (client_code m);
  from_text s := client_decode <$> code_read s;
}.
#[export] Instance client_text_laws : SerdeTextLaws ClientMessage.
Proof.
  split; intros v s [= <-]; [apply RecoveryPackageExamples.bits_text_utf8|]. simpl. unfold code_read.
  rewrite text_bits_text. simpl. rewrite decode_encode. simpl. by destruct v as [[]| |[]].
Qed.
(** Answers are only written here. *)
#[export] Instance server_text : SerdeText ServerMessage := {
  to_text m := Some (match m with
    | ServerHandshakeAccepted _ => "accepted" | ServerPong _ => "pong"
    | ServerCommand r => CommandResponse_command r | ServerError _ => "error" end);
  from_text _ := None;
}.
(** A dispatcher that records what it is given, and an HMAC that keeps the
    key and the message. *)
#[export] Instance recorder : IpcDispatcher (list string) := {
  ipc_dispatch command _ w := (w ++ [command], Ok JNull);
  ipc_touch_ui w := w;
}.
#[export] Instance ex_hmac : HmacSha256 := λ key, Some (λ message, key ++ message).

Definition ipc_nonce : list u8 := replicate 32 7%Z.
Definition ipc_handshake : Handshake := {|
  Handshake_install_id := "i"; Handshake_protocol_versions := [1%Z]; Handshake_nonce := ipc_nonce;
  Handshake_proof := [9%Z] ++ update_proof "i" ipc_nonce [1%Z] |}.
Definition ipc_env (now : Z) : ConnectionEnv := {|
  ConnectionEnv_now := now; ConnectionEnv_secret := Some [9%Z];
  ConnectionEnv_write_fails _ := false; ConnectionEnv_heartbeats _ := 2 |}.
Definition ipc_messages : list ClientMessage :=
  [ClientPing; ClientCommand {| CommandRequest_command := "list"; CommandRequest_request := JNull |}].
Definition ipc_bytes : list u8 := (write_frames (ClientHandshake ipc_handshake :: ipc_messages) []).1.
Definition ipc_verifier : HandshakeVerifier := HandshakeVerifier_new "i".

(** A ping before the handshake. *)
Lemma unauthenticated_powerless_witness :
  (serve_connection (W := list string) "1" (ipc_env 0) [2; 0; 0; 0; 48; 46]%Z ipc_verifier []).2 = true.
Proof.
  pose proof (unauthenticated_powerless (W := list string) "1" (ipc_env 0) [2; 0; 0; 0; 48; 46]%Z
    ipc_verifier []) as Hp.
  destruct (serve_connection _ _ _ _ _) as [c ended]. exact (proj1 Hp).
Defined.
Definition ipc_answers : list ServerMessage * list string :=
  answer_all "1" (ipc_env 0) 2 ipc_messages [].
Definition ipc_accepted : HandshakeAccepted := {| HandshakeAccepted_protocol_version := 1 |}.
Lemma commands_answered_in_order_witness :
  let c := (serve_connection "1" (ipc_env 0) ipc_bytes ipc_verifier []).1 in
  Connection_world c = ["list"] ∧
  Connection_writer c = (write_frames (ServerHandshakeAccepted ipc_accepted :: ipc_answers.1) []).1.
Proof.
  destruct (commands_answered_in_order (W := list string) "1" (ipc_env 0) (λ _, eq_refl)
    ipc_handshake ipc_messages ipc_bytes ipc_verifier
    (verify_at (Some [9%Z]) ipc_handshake 0 ipc_verifier).1 ipc_accepted []
    (write_frames (ServerHandshakeAccepted ipc_accepted :: ipc_answers.1) []).1) as (Hw&_&Hd).
  - vm_compute. reflexivity.
  - reflexivity.
  - vm_compute. reflexivity.
  - vm_compute. reflexivity.
  - split; [|exact Hw]. rewrite Hd. vm_compute. reflexivity.
Defined.
(** The same bytes a second time, a minute later. *)
Lemma replayed_session_powerless_witness :
  (run_server "1" "i" [] [(ipc_env 0, ipc_bytes)]).2 = ["list"] ∧
  (serve_next "1" (run_server "1" "i" ([] : list string) [(ipc_env 0, ipc_bytes)])
    (ipc_env 60000000000, ipc_bytes)).2 = ["list"].
Proof.
  assert ((run_server "1" "i" [] [(ipc_env 0, ipc_bytes)]).2 = ["list"]) as H1
    by (vm_compute; reflexivity).
  split; [exact H1|].
  assert (opening ipc_bytes = Some ipc_handshake) as Ho by (vm_compute; reflexivity).
  destruct (replayed_session_powerless (W := list string) "1" "i" [] 0 [] (ipc_env 0) ipc_bytes []
    (ipc_env 60000000000) ipc_bytes ipc_handshake ipc_handshake ipc_accepted) as [_ Hp].
  - split; [|split; [|exact I]]; apply Z.leb_le; reflexivity.
  - exact Ho.
  - exact Ho.
  - vm_compute. reflexivity.
  - reflexivity.
  - reflexivity.
  - etrans; [exact Hp|exact H1].
Defined.
End IpcExamples.
