(* ===== verification/GitWorkspace.v ===== *)
(** * Git operations of a mission ([crates/workspace/src/git.rs], [diff.rs],
    [merge.rs], [worktree.rs])

    Git is an external program: a parameter that takes a command line and its
    state to a new state and an output.  The runner keeps the commands it ran
    and what their callers saw, in order. *)

From S2P Require Import Prelude Text Always Extern Route Frame BlobStore.
From Stdlib Require Import ZArith Lia Ascii.
From stdpp Require Import prelude gmap strings.

(** ** The runner *)
Record GitOutput := {
  GitOutput_status : Z;
  GitOutput_stdout : string;
  GitOutput_stderr : string;
}.
#[export] Instance GitOutput_eq_dec : EqDecision GitOutput.
Proof. solve_decision. Defined.
Inductive GitError :=
| GitInvalidConfiguration | GitIo (source : string) | GitTimeout
| CommandFailed (output : GitOutput) | OutputReaderPanicked.
#[export] Instance GitError_eq_dec : EqDecision GitError.
Proof. solve_decision. Defined.

(** The program: what a command line does to its state and prints, or how
    running it fails (it cannot be started, read or waited for, or it takes
    too long). *)
Class Git (G : Type) : Type := git_exec : list string → G → G * result GitError GitOutput.

(** [value.split_inclusive(char::is_whitespace)]: each part with whether it
    ends with whitespace; [cur] holds the bytes of the part, last first. *)
Fixpoint split_inclusive (cur : list ascii) (s : string) : list (string * bool) :=
  match s with
  | EmptyString => match cur with [] => [] | _ => [(part cur, false)] end
  | String a r =>
      if ws1 a then (part (a :: cur), true) :: split_inclusive [] r else
      match r with
      | EmptyString => [(part (a :: cur), false)]
      | String b r2 =>
          if ws2 a b then (part (b :: a :: cur), true) :: split_inclusive [] r2 else
          match r2 with
          | EmptyString => split_inclusive (a :: cur) r
          | String c r3 =>
              if ws3 a b c then (part (c :: b :: a :: cur), true) :: split_inclusive [] r3
              else split_inclusive (a :: cur) r
          end
      end
  end.
Definition line_feed : string := String (ascii_of_N 10) "".
Definition redact_part (p : string * bool) : string :=
  let lower := to_ascii_lowercase p.1 in
  if str_contains lower "token=" || str_contains lower "password="
     || str_contains lower "authorization:"
  then if p.2 then "[REDACTED]" +:+ line_feed else "[REDACTED]"
  else p.1.
Definition git_redact (value : string) : string :=
  str_join "" (redact_part <$> split_inclusive [] value).

Section git.
Context {G : Type} `{!Git G}.

Record Repo := {
  Repo_git : G;
  Repo_cwd : string;
  Repo_log : list (list string * result GitError GitOutput);
}.
(** [GitRunner::new]: the directory as [canonicalize] gives it, and whether it
    is one. *)
Definition GitRunner_new (binary : string) (canonical : result string string) (is_dir : bool)
    (timeout : Z) (g : G) : result GitError Repo :=
  if str_eqb binary "" || (timeout =? 0)%Z then Err GitInvalidConfiguration else
  cwd ← map_err GitIo canonical;
  if negb is_dir then Err GitInvalidConfiguration
  else Ok {| Repo_git := g; Repo_cwd := cwd; Repo_log := [] |}.
Definition redact_output (o : GitOutput) : GitOutput := {|
  GitOutput_status := GitOutput_status o; GitOutput_stdout := git_redact (GitOutput_stdout o);
  GitOutput_stderr := git_redact (GitOutput_stderr o) |}.
Definition run_unchecked (args : list string) : stm Repo GitError GitOutput := λ r,
  let '(g, answer) := git_exec args (Repo_git r) in
  let answer := redact_output <$> answer in
  ({| Repo_git := g; Repo_cwd := Repo_cwd r; Repo_log := Repo_log r ++ [(args, answer)] |}, answer).
Definition git_run (args : list string) : stm Repo GitError GitOutput :=
  output ← run_unchecked args;
  if (GitOutput_status output =? 0)%Z then mret output else stm_throw (CommandFailed output).
Definition trimmed (o : GitOutput) : string := str_trim (GitOutput_stdout o).

(** *** The baseline *)
Inductive BaselineState :=
| BaselineClean (head : string) | BaselineDetachedHead (head : string)
| BaselineSelectionRequired (code : string).
Definition status_args : list string := ["status"; "--porcelain=v1"; "--untracked-files=all"].
Definition inspect_baseline : stm Repo GitError BaselineState :=
  status ← git_run status_args;
  if negb (str_eqb (GitOutput_stdout status) "")
  then mret (BaselineSelectionRequired "BASELINE_SELECTION_REQUIRED") else
  head ← git_run ["rev-parse"; "--verify"; "HEAD"];
  symbolic ← run_unchecked ["symbolic-ref"; "-q"; "HEAD"];
  if (GitOutput_status symbolic =? 0)%Z then mret (BaselineClean (trimmed head))
  else mret (BaselineDetachedHead (trimmed head)).

Definition resolve_head (branch : string) : stm Repo GitError string :=
  output ← git_run ["rev-parse"; "--verify"; "refs/heads/" +:+ branch +:+ "^{commit}"];
  mret (trimmed output).
End git.
Arguments Repo G : clear implicits.

(** ** Previews of a merge *)
Record ConflictPrecheck := {
  ConflictPrecheck_has_conflicts : bool;
  ConflictPrecheck_details : string;
}.
Record DiffPreviewRequest := {
  DiffPreviewRequest_target_branch : string;
  DiffPreviewRequest_source_branch : string;
  DiffPreviewRequest_validation_commands : list string;
  DiffPreviewRequest_risks : list string;
}.
Record DiffPreview := {
  DiffPreview_target_branch : string;
  DiffPreview_source_branch : string;
  DiffPreview_target_head : string;
  DiffPreview_source_head : string;
  DiffPreview_commit_range : string;
  DiffPreview_stat : string;
  DiffPreview_diff_blob : BlobRef;
  DiffPreview_validation_commands : list string;
  DiffPreview_risks : list string;
  DiffPreview_conflict_precheck : ConflictPrecheck;
}.
Inductive DiffPreviewError :=
| DiffGit (error : GitError) | DiffBlob (error : BlobStoreError)
| InvalidBranch | DiffIncompleteMetadata.

Section preview.
Context {G : Type} `{!Git G}.
Context `{SerdeJson, Sha256, Aead, !Serde DiffPreview}.
Context (nonces : nat → option (list u8)).

(** A preview is made from a repository and kept in the blob store. *)
Abbreviation state := (Repo G * EncryptedBlobStore)%type (only parsing).
Definition on_git {A} (m : stm (Repo G) GitError A) : stm state DiffPreviewError A :=
  stm_zoom fst (λ r s, (r, s.2)) DiffGit m.
Definition on_store {A} (m : stm EncryptedBlobStore BlobStoreError A)
    : stm state DiffPreviewError A :=
  stm_zoom snd (λ b s, (s.1, b)) DiffBlob m.

Definition validate_branch (branch : string) : stm state DiffPreviewError unit :=
  if blank branch then stm_throw InvalidBranch else
  output ← on_git (run_unchecked ["check-ref-format"; "--branch"; branch]);
  if negb (GitOutput_status output =? 0)%Z then stm_throw InvalidBranch else mret tt.
Definition conflict_precheck (target_head source_head : string)
    : stm state DiffPreviewError ConflictPrecheck :=
  output ← on_git (run_unchecked ["merge-tree"; "--write-tree"; target_head; source_head]);
  if (GitOutput_status output =? 0)%Z || (GitOutput_status output =? 1)%Z
  then mret {| ConflictPrecheck_has_conflicts := (GitOutput_status output =? 1)%Z;
               ConflictPrecheck_details := GitOutput_stdout output +:+ GitOutput_stderr output |}
  else stm_throw (DiffGit (CommandFailed output)).
Definition DiffPreview_create (request : DiffPreviewRequest) : stm state DiffPreviewError DiffPreview :=
  _ ← validate_branch (DiffPreviewRequest_target_branch request);
  _ ← validate_branch (DiffPreviewRequest_source_branch request);
  if existsb blank (DiffPreviewRequest_validation_commands request)
     || existsb blank (DiffPreviewRequest_risks request)
  then stm_throw DiffIncompleteMetadata else
  target_head ← on_git (resolve_head (DiffPreviewRequest_target_branch request));
  source_head ← on_git (resolve_head (DiffPreviewRequest_source_branch request));
  stat ← on_git (git_run ["diff"; "--stat"; target_head; source_head]);
  full_diff ← on_git (git_run ["diff"; "--binary"; "--full-index"; target_head; source_head]);
  precheck ← conflict_precheck target_head source_head;
  diff_blob ← on_store (blob_put nonces (str_bytes (GitOutput_stdout full_diff)) "text/x-diff");
  _ ← on_store (blob_retain diff_blob);
  mret {| DiffPreview_target_branch := DiffPreviewRequest_target_branch request;
          DiffPreview_source_branch := DiffPreviewRequest_source_branch request;
          DiffPreview_target_head := target_head; DiffPreview_source_head := source_head;
          DiffPreview_commit_range := target_head +:+ ".." +:+ source_head;
          DiffPreview_stat := GitOutput_stdout stat; DiffPreview_diff_blob := diff_blob;
          DiffPreview_validation_commands := DiffPreviewRequest_validation_commands request;
          DiffPreview_risks := DiffPreviewRequest_risks request;
          DiffPreview_conflict_precheck := precheck |}.
Definition DiffPreview_digest (self : DiffPreview) : string := sha256_hex (to_vec (to_value self)).
End preview.

(** ** Approved merges *)
Inductive MergeActor := MergeUser | MergeAgent.
#[export] Instance MergeActor_eq_dec : EqDecision MergeActor.
Proof. solve_decision. Defined.
Inductive MergeStrategy := PreserveCheckpointHistory | Squash.
Record MergeApproval := {
  MergeApproval_approval_id : string;
  MergeApproval_actor : MergeActor;
  MergeApproval_preview_digest : string;
  MergeApproval_expected_target_head : string;
  MergeApproval_consumed : bool;
}.
Record MergeRequest := {
  MergeRequest_expected_target_head : string;
  MergeRequest_strategy : MergeStrategy;
}.
Record MergeConflictEvidence := {
  MergeConflictEvidence_route_state : RouteState;
  MergeConflictEvidence_reason : string;
  MergeConflictEvidence_unmerged_paths : list string;
  MergeConflictEvidence_worktree : string;
}.
Inductive MergeOutcome :=
| Merged (commit : string)
| PausedForConflict (evidence : MergeConflictEvidence).
Inductive MergeError :=
| MergeGit (error : GitError) | InvalidApproval | UserApprovalRequired | ApprovalConsumed
| ApprovalMismatch | TargetHeadChanged (expected actual : string)
| SourceHeadChanged (expected actual : string) | WrongTargetBranch (expected actual : string)
| TargetWorktreeDirty.

Definition is_alphanumeric (c : ascii) : bool :=
  byte_in 48 57 c || byte_in 65 90 c || byte_in 97 122 c.
Definition id_byte (c : ascii) : bool := is_alphanumeric c || byte_is 45 c || byte_is 95 c.
Definition valid_id (s : string) : bool :=
  negb (str_eqb s "") && (str_len s <=? 64)%Z && all_bytes id_byte s.
Definition valid_hex (value : string) (lengths : list Z) : bool :=
  existsb (Z.eqb (str_len value)) lengths && all_bytes is_ascii_hexdigit value.

Definition MergeApproval_new (approval_id : string) (actor : MergeActor)
    (preview_digest expected_target_head : string) : result MergeError MergeApproval :=
  if negb (valid_id approval_id) || negb (valid_hex preview_digest [64%Z])
     || negb (valid_hex expected_target_head [40%Z; 64%Z])
  then Err InvalidApproval
  else Ok {| MergeApproval_approval_id := approval_id; MergeApproval_actor := actor;
             MergeApproval_preview_digest := preview_digest;
             MergeApproval_expected_target_head := expected_target_head;
             MergeApproval_consumed := false |}.

Section merge.
Context {G : Type} `{!Git G}.
Context `{SerdeJson, Sha256, !Serde DiffPreview}.

Definition validate_approval (preview : DiffPreview) (approval : MergeApproval)
    (request : MergeRequest) : result MergeError unit :=
  if MergeApproval_consumed approval then Err ApprovalConsumed
  else if negb (bool_decide (MergeApproval_actor approval = MergeUser))
  then Err UserApprovalRequired
  else if negb (str_eqb (MergeApproval_preview_digest approval) (DiffPreview_digest preview))
       || negb (str_eqb (MergeApproval_expected_target_head approval)
                  (DiffPreview_target_head preview))
       || negb (str_eqb (MergeRequest_expected_target_head request)
                  (DiffPreview_target_head preview))
  then Err ApprovalMismatch else Ok tt.
Definition validate_target_worktree (preview : DiffPreview) : stm (Repo G) MergeError unit :=
  let run args := stm_zoom id (λ r _, r) MergeGit (git_run args) in
  branch ← run ["symbolic-ref"; "--quiet"; "--short"; "HEAD"];
  if negb (str_eqb (trimmed branch) (DiffPreview_target_branch preview))
  then stm_throw (WrongTargetBranch (DiffPreview_target_branch preview) (trimmed branch)) else
  actual ← run ["rev-parse"; "HEAD"];
  if negb (str_eqb (trimmed actual) (DiffPreview_target_head preview))
  then stm_throw (TargetHeadChanged (DiffPreview_target_head preview) (trimmed actual)) else
  status ← run status_args;
  if negb (str_eqb (GitOutput_stdout status) "") then stm_throw TargetWorktreeDirty else mret tt.

Definition committer : list string :=
  ["-c"; "user.name=Agent Mission Control"; "-c"; "user.email=merge@mission-control.invalid"].
Definition strategy_args (strategy : MergeStrategy) : list string :=
  match strategy with
  | PreserveCheckpointHistory => ["--no-ff"; "--no-commit"]
  | Squash => ["--squash"; "--no-commit"]
  end.
Definition merge_args (preview : DiffPreview) (request : MergeRequest) : list string :=
  committer ++ ["merge"] ++ strategy_args (MergeRequest_strategy request)
  ++ ["--"; "refs/heads/" +:+ DiffPreview_source_branch preview].
Definition consume (approval : MergeApproval) : MergeApproval := {|
  MergeApproval_approval_id := MergeApproval_approval_id approval;
  MergeApproval_actor := MergeApproval_actor approval;
  MergeApproval_preview_digest := MergeApproval_preview_digest approval;
  MergeApproval_expected_target_head := MergeApproval_expected_target_head approval;
  MergeApproval_consumed := true |}.

(** The part after the approval is used up. *)
Definition perform_merge (preview : DiffPreview) (approval_id : string) (request : MergeRequest)
    : stm (Repo G) MergeError MergeOutcome :=
  let zoom {A} (m : stm (Repo G) GitError A) := stm_zoom id (λ r _, r) MergeGit m in
  merge ← zoom (run_unchecked (merge_args preview request));
  if negb (GitOutput_status merge =? 0)%Z then
    unmerged ← zoom (git_run ["diff"; "--name-only"; "--diff-filter=U"]);
    let unmerged_paths := filter (λ path, path ≠ "") (str_lines (GitOutput_stdout unmerged)) in
    if is_empty unmerged_paths then stm_throw (MergeGit (CommandFailed merge)) else
    repo ← stm_get;
    mret (PausedForConflict {|
      MergeConflictEvidence_route_state := Paused;
      MergeConflictEvidence_reason := GitOutput_stdout merge +:+ GitOutput_stderr merge;
      MergeConflictEvidence_unmerged_paths := unmerged_paths;
      MergeConflictEvidence_worktree := Repo_cwd repo |})
  else
    _ ← zoom (git_run (committer ++
      ["commit"; "-m"; "Mission Control approved merge " +:+ approval_id]));
    commit ← zoom (git_run ["rev-parse"; "HEAD"]);
    mret (Merged (trimmed commit)).
Definition ApprovedMerge_execute (preview : DiffPreview) (request : MergeRequest)
    : stm (Repo G * MergeApproval) MergeError MergeOutcome :=
  let on_repo {A} (m : stm (Repo G) MergeError A) := stm_zoom fst (λ r s, (r, s.2)) id m in
  s ← stm_get;
  _ ← stm_lift (validate_approval preview s.2 request);
  _ ← on_repo (validate_target_worktree preview);
  source_head ← on_repo (stm_zoom id (λ r _, r) MergeGit
    (resolve_head (DiffPreview_source_branch preview)));
  if negb (str_eqb source_head (DiffPreview_source_head preview))
  then stm_throw (SourceHeadChanged (DiffPreview_source_head preview) source_head) else
  _ ← stm_modify (λ s, (s.1, consume s.2));
  on_repo (perform_merge preview (MergeApproval_approval_id s.2) request).
End merge.

(** ** What a merge needs *)
Section merge_laws.
Context {G : Type} `{!Git G}.
Context `{SerdeJson, Sha256, !Serde DiffPreview}.

Lemma git_run_logs args (r r' : Repo G) res :
  git_run args r = (r', res) →
  ∃ answer, Repo_log r' = Repo_log r ++ [(args, answer)] ∧
    ∀ o, res = Ok o → answer = Ok o ∧ GitOutput_status o = 0%Z.
Proof.
  unfold git_run, mbind, stm_bind, run_unchecked. destruct (git_exec args _) as [g answer].
  destruct answer as [o|e]; simpl.
  - destruct (GitOutput_status o =? 0)%Z eqn:Hs; intros [= <- <-]; eexists; split; try done.
    intros o' [= <-]. split; [done|]. simpl. by apply Z.eqb_eq.
  - intros [= <- <-]. eexists. by split.
Qed.
Lemma run_unchecked_logs args (r r' : Repo G) res :
  run_unchecked args r = (r', res) → Repo_log r' = Repo_log r ++ [(args, res)].
Proof. unfold run_unchecked. destruct (git_exec args _). by intros [= <- <-]. Qed.

(** The commands that only look. *)
Definition merge_queries (preview : DiffPreview) : list (list string) :=
  [["symbolic-ref"; "--quiet"; "--short"; "HEAD"]; ["rev-parse"; "HEAD"]; status_args;
   ["rev-parse"; "--verify"; "refs/heads/" +:+ DiffPreview_source_branch preview +:+ "^{commit}"]].
(** What Git answered to them: the target branch is checked out at the
    reviewed commit and clean, and the source branch is where it was. *)
Definition reviewed_state (preview : DiffPreview)
    (answers : list (list string * result GitError GitOutput)) : Prop :=
  ∃ branch head status source,
    answers = zip (merge_queries preview) [Ok branch; Ok head; Ok status; Ok source] ∧
    trimmed branch = DiffPreview_target_branch preview ∧
    trimmed head = DiffPreview_target_head preview ∧ GitOutput_stdout status = "" ∧
    trimmed source = DiffPreview_source_head preview.

(** The state of the target, checked. *)
Lemma target_checked preview (r r' : Repo G) res :
  validate_target_worktree preview r = (r', res) →
  ∃ new, Repo_log r' = Repo_log r ++ new ∧ Forall (λ e, e.1 ∈ merge_queries preview) new ∧
    (res = Ok tt → ∃ branch head status,
      new = zip (take 3 (merge_queries preview)) [Ok branch; Ok head; Ok status] ∧
      trimmed branch = DiffPreview_target_branch preview ∧
      trimmed head = DiffPreview_target_head preview ∧ GitOutput_stdout status = "").
Proof.
  unfold validate_target_worktree, stm_zoom. unfold mbind at 1, stm_bind at 1. cbn [id].
  destruct (git_run _ r) as [r1 [o1|e1]] eqn:E1; apply git_run_logs in E1 as (a1&L1&A1); simpl.
  2: { intros [= <- <-]. exists [(["symbolic-ref"; "--quiet"; "--short"; "HEAD"], a1)].
       split_and!; [done| |done]. repeat constructor. }
  destruct (A1 o1 eq_refl) as [-> _].
  destruct (str_eqb (trimmed o1) _) eqn:C1; simpl.
  2: { intros [= <- <-]. eexists. split_and!; [exact L1| |done]. repeat constructor. }
  unfold mbind at 1, stm_bind at 1.
  destruct (git_run _ r1) as [r2 [o2|e2]] eqn:E2; apply git_run_logs in E2 as (a2&L2&A2); simpl;
    rewrite L1, <-app_assoc in L2.
  2: { intros [= <- <-]. eexists. split_and!; [exact L2| |done]. repeat constructor. }
  destruct (A2 o2 eq_refl) as [-> _].
  destruct (str_eqb (trimmed o2) _) eqn:C2; simpl.
  2: { intros [= <- <-]. eexists. split_and!; [exact L2| |done]. repeat constructor. }
  unfold mbind at 1, stm_bind at 1.
  destruct (git_run _ r2) as [r3 [o3|e3]] eqn:E3; apply git_run_logs in E3 as (a3&L3&A3); simpl;
    rewrite L2, <-app_assoc in L3.
  2: { intros [= <- <-]. eexists. split_and!; [exact L3| |done]. repeat constructor. }
  destruct (A3 o3 eq_refl) as [-> _].
  destruct (str_eqb (GitOutput_stdout o3) "") eqn:C3; simpl; intros [= <- <-];
    eexists; (split_and!; [exact L3|repeat constructor|]); [|done].
  intros _. exists o1, o2, o3. guards. done.
Qed.

Definition is_merge (e : list string * result GitError GitOutput) : bool :=
  bool_decide ("merge" ∈ e.1).
Definition merges (log : list (list string * result GitError GitOutput)) : nat :=
  length (List.filter is_merge log).
Lemma merges_app l k : merges (l ++ k) = merges l + merges k.
Proof. unfold merges. by rewrite List.filter_app, length_app. Qed.
Lemma merges_one e rest : merges rest = 0 → merges (e :: rest) ≤ 1.
Proof. unfold merges. simpl. destruct (is_merge e); simpl; lia. Qed.
Lemma queries_merge_nothing preview new :
  Forall (λ e : list string * result GitError GitOutput, e.1 ∈ merge_queries preview) new →
  merges new = 0.
Proof.
  induction 1 as [|e new He Hnew IH]; [done|]. unfold merges in *. simpl.
  assert (is_merge e = false) as ->; [|done]. apply bool_decide_eq_false_2.
  assert ("rev-parse" ≠ "merge") by done.
  set_unfold in He. destruct He as [->|[->|[->|[->|[]]]]]; set_unfold; intros; naive_solver.
Qed.

(** The merge itself: one merge command, whatever comes after. *)
Lemma perform_logs preview approval_id request (r r' : Repo G) res :
  perform_merge preview approval_id request r = (r', res) →
  ∃ answer rest, Repo_log r' = Repo_log r ++ (merge_args preview request, answer) :: rest ∧
    merges rest = 0.
Proof.
  unfold perform_merge, stm_zoom. unfold mbind at 1, stm_bind at 1. cbn [id].
  destruct (run_unchecked _ r) as [r1 a1] eqn:E1. apply run_unchecked_logs in E1 as L1.
  destruct a1 as [o1|e1]; simpl.
  2: { intros [= <- <-]. eexists _, []. by rewrite L1. }
  assert (∀ args (m : Repo G) m' res', git_run args m = (m', res') → "merge" ∉ args →
    ∀ rest, Repo_log m = Repo_log r ++ (merge_args preview request, Ok o1) :: rest →
    merges rest = 0 → ∃ rest', Repo_log m' =
      Repo_log r ++ (merge_args preview request, Ok o1) :: rest' ∧ merges rest' = 0) as Hnext.
  { intros args m m' res' Hm Hno rest Hl Hz. apply git_run_logs in Hm as (a&Ha&_).
    exists (rest ++ [(args, a)]). rewrite Ha, Hl, <-app_assoc. split; [done|].
    rewrite merges_app, Hz. unfold merges, is_merge. simpl.
    by rewrite bool_decide_eq_false_2. }
  assert (∀ args : list string, Forall (λ a, a ≠ "merge") args → "merge" ∉ args) as Hno.
  { intros args Ha Hin. rewrite list.Forall_forall in Ha. by apply (Ha _ Hin). }
  destruct (GitOutput_status o1 =? 0)%Z; simpl; unfold mbind at 1, stm_bind at 1.
  - destruct (git_run _ r1) as [r2 res2] eqn:E2.
    edestruct (Hnext _ _ _ _ E2) as (rest2&L2&Z2); [apply Hno; repeat constructor; done|exact L1|done|].
    destruct res2 as [o2|e2]; simpl; [|intros [= <- <-]; by eexists _, rest2].
    unfold mbind at 1, stm_bind at 1. destruct (git_run _ r2) as [r3 res3] eqn:E3.
    edestruct (Hnext _ _ _ _ E3) as (rest3&L3&Z3); [apply Hno; repeat constructor; done|exact L2|done|].
    destruct res3; intros [= <- <-]; by eexists _, rest3.
  - destruct (git_run _ r1) as [r2 res2] eqn:E2.
    edestruct (Hnext _ _ _ _ E2) as (rest2&L2&Z2); [apply Hno; repeat constructor; done|exact L1|done|].
    destruct res2 as [o2|e2]; simpl; [case_match|]; intros [= <- <-]; by eexists _, rest2.
Qed.

(** One attempt. *)
Lemma execute_logs preview request (r : Repo G) approval r' approval' res :
  ApprovedMerge_execute preview request (r, approval) = ((r', approval'), res) →
  ∃ new, Repo_log r' = Repo_log r ++ new ∧
    ((approval' = approval ∧ is_ok res = false ∧
      Forall (λ e, e.1 ∈ merge_queries preview) new) ∨
     (approval' = consume approval ∧ validate_approval preview approval request = Ok tt ∧
      ∃ checks answer rest, new = checks ++ (merge_args preview request, answer) :: rest ∧
        reviewed_state preview checks ∧ merges rest = 0)).
Proof.
  unfold ApprovedMerge_execute. unfold mbind at 1, stm_bind at 1, stm_get, stm_lift, stm_zoom.
  unfold mbind at 1, stm_bind at 1. simpl.
  destruct (validate_approval preview approval request) as [[]|e] eqn:Hv.
  2: { intros [= <- <- <-]. exists []. rewrite app_nil_r. split; [done|]. left. by split_and!. }
  unfold mbind at 1, stm_bind at 1. simpl.
  destruct (validate_target_worktree preview r) as [r1 [[]|e1]] eqn:E1;
    apply target_checked in E1 as (n1&L1&Q1&C1); simpl.
  2: { intros [= <- <- <-]. exists n1. split; [done|]. left. by split_and!. }
  destruct (C1 eq_refl) as (b&h&st&->&Hb&Hh&Hst).
  unfold mbind at 1, stm_bind at 1. simpl. unfold resolve_head. unfold mbind at 1, stm_bind at 1.
  destruct (git_run _ r1) as [r2 [o|e2]] eqn:E2; apply git_run_logs in E2 as (a&L2&A2);
    rewrite L1, <-app_assoc in L2; simpl.
  2: { intros [= <- <- <-]. eexists. split; [exact L2|]. left. split_and!; [done..|].
       apply Forall_app. split; [done|]. repeat constructor. }
  destruct (A2 o eq_refl) as [-> _].
  destruct (str_eqb (trimmed o) _) eqn:Hs; simpl.
  2: { intros [= <- <- <-]. eexists. split; [exact L2|]. left. split_and!; [done..|].
       apply Forall_app. split; [done|]. repeat constructor. }
  unfold mbind at 1, stm_bind at 1. simpl.
  destruct (perform_merge preview _ request r2) as [r3 res3] eqn:E3.
  apply perform_logs in E3 as (answer&rest&L3&Z3). rewrite L2, <-app_assoc in L3.
  intros [= <- <- <-]. eexists. split; [exact L3|]. right. split; [done|]. split; [done|].
  eexists (zip (merge_queries preview) [Ok b; Ok h; Ok st; Ok o]), answer, rest. split; [done|].
  split; [|done]. exists b, h, st, o. guards. done.
Qed.

(** Attempts with the same approval, one after the other. *)
Fixpoint execute_all (attempts : list (DiffPreview * MergeRequest)) (s : Repo G * MergeApproval)
    : Repo G * MergeApproval :=
  match attempts with
  | [] => s
  | (preview, request) :: rest => execute_all rest (ApprovedMerge_execute preview request s).1
  end.
Lemma consumed_merges_nothing attempts : ∀ (r : Repo G) approval,
  MergeApproval_consumed approval = true → execute_all attempts (r, approval) = (r, approval).
Proof.
  induction attempts as [|[preview request] attempts IH]; intros r approval Hc; [done|].
  cbn [execute_all].
  assert ((ApprovedMerge_execute preview request (r, approval)).1 = (r, approval)) as ->; [|by apply IH].
  unfold ApprovedMerge_execute, validate_approval. unfold mbind at 1, stm_bind at 1, stm_get, stm_lift.
  unfold mbind at 1, stm_bind at 1. simpl. by rewrite Hc.
Qed.

(** C24: nothing is merged without a fresh approval of exactly what is merged.
    Whatever is attempted with an approval, Git is told to merge at most
    once; and when it is, the user gave the approval, for the digest of that
    very preview, and Git had just answered that the target branch is checked
    out at the reviewed commit with a clean worktree and that the source
    branch is still at the reviewed commit. *)
Theorem merge_needs_fresh_approval attempts (r : Repo G) approval :
  let '(r', approval') := execute_all attempts (r, approval) in
  ∃ new, Repo_log r' = Repo_log r ++ new ∧ merges new ≤ 1 ∧
    (0 < merges new → MergeApproval_consumed approval = false ∧
      MergeApproval_consumed approval' = true ∧ MergeApproval_actor approval = MergeUser ∧
      ∃ preview request before checks answer after,
        (preview, request) ∈ attempts ∧
        MergeApproval_preview_digest approval = DiffPreview_digest preview ∧
        MergeApproval_expected_target_head approval = DiffPreview_target_head preview ∧
        new = before ++ checks ++ (merge_args preview request, answer) :: after ∧
        reviewed_state preview checks).
Proof.
  destruct (execute_all attempts (r, approval)) as [r' approval'] eqn:He. revert r He.
  induction attempts as [|[preview request] attempts IH]; intros r; cbn [execute_all].
  - intros [= <- <-]. exists []. rewrite app_nil_r. split_and!; [done|unfold merges; simpl; lia|].
    unfold merges. simpl. lia.
  - destruct (ApprovedMerge_execute preview request (r, approval)) as [[r1 a1] res] eqn:E1. simpl.
    apply execute_logs in E1 as (new&L1&[(->&_&Hq)|(->&Hv&checks&answer&rest&->&Hr&Hz)]).
    + intros Hall. destruct (IH r1 Hall) as (new'&L2&Hle&Hpos). exists (new ++ new').
      rewrite L2, L1, <-app_assoc, merges_app, (queries_merge_nothing _ _ Hq). split_and!; [done|done|].
      intros Hm. destruct (Hpos Hm) as (?&?&?&p&q&before&checks&answer&after&Hin&?&?&->&?).
      split_and!; try done. exists p, q, (new ++ before), checks, answer, after.
      split_and!; try done; [by right|]. by rewrite <-app_assoc.
    + rewrite consumed_merges_nothing by done. intros [= <- <-].
      assert (merges checks = 0) as Hc.
      { destruct Hr as (b&h&st&src&->&_). apply (queries_merge_nothing preview).
        repeat constructor. }
      eexists. split; [exact L1|]. unfold validate_approval in Hv.
      destruct (MergeApproval_consumed approval) eqn:Hcon; [done|].
      destruct (bool_decide (MergeApproval_actor approval = MergeUser)) eqn:Hu; [|done]. simpl in Hv.
      destruct (negb _ || negb _ || negb _) eqn:Hm; [done|]. guards.
      split.
      * rewrite merges_app, Hc. apply (merges_one _ _ Hz).
      * intros _. split_and!; try done. exists preview, request, [], checks, answer, rest.
        split_and!; try done. by left.
Qed.
End merge_laws.

(** ** Worktrees of routes ([worktree.rs])

    The file system is the operating system's: a parameter with the calls
    the code makes.  A path is the list of its components. *)
Class Filesystem (F : Type) : Type := {
  fs_exists : list string → F → bool;
  fs_read_dir : list string → F → result string (list string);
  fs_create_dir_all : list string → F → F * result string unit;
  fs_remove_dir_all : list string → F → F * result string unit;
  fs_canonicalize : list string → F → result string (list string);
}.
Definition path_text (path : list string) : string := str_join "/" path.
Inductive BaselineSelection := CommittedHead (commit : string) | SnapshotCommit (commit : string).
Definition BaselineSelection_commit (b : BaselineSelection) : string :=
  match b with CommittedHead commit | SnapshotCommit commit => commit end.
Record RouteWorkspace := {
  RouteWorkspace_branch : string;
  RouteWorkspace_path : list string;
  RouteWorkspace_baseline_commit : string;
}.
Inductive WorkspaceError :=
| WorkspaceGit (error : GitError) | WorkspaceIo (error : string) | InvalidOpaqueId
| InvalidBaseline | BranchExists (branch : string) | TargetNotEmpty (path : list string)
| OutsideManagedRoot (path : list string).

Definition short_id (value : string) : result WorkspaceError string :=
  let short := take 8 (filter (λ c, is_alphanumeric c = true) (String.list_ascii_of_string value)) in
  if (length short =? 8)%nat
  then Ok (to_ascii_lowercase (String.string_of_list_ascii short))
  else Err InvalidOpaqueId.
(** [path.starts_with(base)]. *)
Definition path_starts_with (path base : list string) : bool := bool_decide (base `prefix_of` path).
(** [value.str_strip_prefix(p)]. *)
Definition git_cli_path (path : string) : string :=
  match str_strip_prefix "\\?\UNC\" path with
  | Some stripped => "\\" +:+ stripped
  | None => default path (str_strip_prefix "\\?\" path)
  end.

Section worktree.
Context {G F : Type} `{!Git G, !Filesystem F}.
Abbreviation wstate := (Repo G * F)%type (only parsing).
Context (managed_root : list string).

Definition wgit {A} (m : stm (Repo G) GitError A) : stm wstate WorkspaceError A :=
  stm_zoom fst (λ r s, (r, s.2)) WorkspaceGit m.
Definition wfs {A} (f : F → F * result string A) : stm wstate WorkspaceError A :=
  stm_zoom snd (λ f s, (s.1, f)) WorkspaceIo f.

(** [RouteWorkspaceManager::new], given the canonical form of the root. *)
Definition RouteWorkspaceManager_new (root : list string) : stm F WorkspaceError (list string) := λ f,
  match fs_create_dir_all root f with
  | (f, Err e) => (f, Err (WorkspaceIo e))
  | (f, Ok _) => (f, map_err WorkspaceIo (fs_canonicalize root f))
  end.
Definition branch_exists (branch : string) : stm wstate WorkspaceError bool :=
  output ← wgit (run_unchecked ["show-ref"; "--verify"; "--quiet"; "refs/heads/" +:+ branch]);
  if (GitOutput_status output =? 0)%Z then mret true
  else if (GitOutput_status output =? 1)%Z then mret false
  else stm_throw (WorkspaceGit (CommandFailed output)).
(** Errors of the cleanup are ignored. *)
Definition cleanup_failed_create (branch : string) (target : list string) (target_existed : bool)
    (s : wstate) : wstate :=
  let '(s, existing) := branch_exists branch s in
  let s := match existing with
           | Ok true => (wgit (git_run ["branch"; "-D"; branch]) s).1
           | _ => s
           end in
  if path_starts_with target managed_root && fs_exists target s.2 then
    let f := (fs_remove_dir_all target s.2).1 in
    (s.1, if target_existed then (fs_create_dir_all target f).1 else f)
  else s.

Definition worktree_args (branch : string) (target : list string) (selected : string) : list string :=
  ["worktree"; "add"; "-b"; branch; git_cli_path (path_text target); selected].
(** The commit the worktree starts from. *)
Definition check_baseline (baseline : BaselineSelection) : stm wstate WorkspaceError string :=
  let selected := str_trim (BaselineSelection_commit baseline) in
  if str_eqb selected "" then stm_throw InvalidBaseline else
  _ ← wgit (git_run ["cat-file"; "-e"; selected +:+ "^{commit}"]);
  match baseline with
  | CommittedHead _ =>
      head ← wgit (git_run ["rev-parse"; "--verify"; "HEAD"]);
      if negb (str_eqb (trimmed head) selected) then stm_throw InvalidBaseline else mret selected
  | SnapshotCommit _ => mret selected
  end.
Definition add_worktree (branch selected : string) (target : list string) (target_existed : bool)
    : stm wstate WorkspaceError RouteWorkspace := λ s,
  match wgit (git_run (worktree_args branch target selected)) s with
  | (s, Err error) => (cleanup_failed_create branch target target_existed s, Err error)
  | (s, Ok _) =>
      (s, path ← map_err WorkspaceIo (fs_canonicalize target s.2);
          Ok {| RouteWorkspace_branch := branch; RouteWorkspace_path := path;
                RouteWorkspace_baseline_commit := selected |})
  end.
Definition RouteWorkspaceManager_create (mission_id route_id : string) (baseline : BaselineSelection)
    : stm wstate WorkspaceError RouteWorkspace :=
  mission_short ← stm_lift (short_id mission_id);
  route_short ← stm_lift (short_id route_id);
  let branch := "mission/" +:+ mission_short +:+ "/" +:+ route_short in
  let target := managed_root ++ [mission_short; route_short] in
  if negb (path_starts_with target managed_root) then stm_throw (OutsideManagedRoot target) else
  s ← stm_get;
  let target_existed := fs_exists target s.2 in
  entries ← (if target_existed then stm_lift (map_err WorkspaceIo (fs_read_dir target s.2))
             else mret []);
  if target_existed && negb (is_empty entries) then stm_throw (TargetNotEmpty target) else
  existing ← branch_exists branch;
  if (existing : bool) then stm_throw (BranchExists branch) else
  selected ← check_baseline baseline;
  _ ← wfs (fs_create_dir_all (managed_root ++ [mission_short]));
  add_worktree branch selected target target_existed.
End worktree.

(** ** What a worktree starts from *)
Section worktree_laws.
Context {G F : Type} `{!Git G, !Filesystem F}.
Context (managed_root : list string).

Definition show_ref (branch : string) : list string :=
  ["show-ref"; "--verify"; "--quiet"; "refs/heads/" +:+ branch].
Lemma wgit_run_logs args (s s' : Repo G * F) res :
  wgit (git_run args) s = (s', res) →
  ∃ answer, Repo_log s'.1 = Repo_log s.1 ++ [(args, answer)] ∧ s'.2 = s.2 ∧
    ∀ o, res = Ok o → answer = Ok o ∧ GitOutput_status o = 0%Z.
Proof.
  unfold wgit, stm_zoom. destruct (git_run args s.1) as [r r0] eqn:E.
  apply git_run_logs in E as (a&L&A). intros [= <- <-]. exists a. split_and!; [done..|].
  intros o. destruct r0; simpl; [|done]. intros [= <-]. by apply A.
Qed.
Lemma branch_exists_logs branch (s s' : Repo G * F) res :
  branch_exists branch s = (s', res) →
  ∃ answer, Repo_log s'.1 = Repo_log s.1 ++ [(show_ref branch, answer)] ∧ s'.2 = s.2 ∧
    ∀ b : bool, res = Ok b → ∃ o, answer = Ok o ∧ GitOutput_status o = (if b then 0 else 1)%Z.
Proof.
  unfold branch_exists, wgit, stm_zoom, mbind, stm_bind. destruct (run_unchecked _ s.1) as [r a] eqn:E.
  apply run_unchecked_logs in E. destruct a as [o|e]; simpl.
  - destruct (GitOutput_status o =? 0)%Z eqn:E0; [|destruct (GitOutput_status o =? 1)%Z eqn:E1];
      intros [= <- <-]; eexists; (split_and!; [exact E|done|]); try done;
      intros b [= <-]; exists o; split; try done; by apply Z.eqb_eq.
  - intros [= <- <-]. eexists. split_and!; [exact E|done|done].
Qed.
Lemma check_baseline_logs baseline (s s' : Repo G * F) res :
  check_baseline baseline s = (s', res) →
  ∃ new, Repo_log s'.1 = Repo_log s.1 ++ new ∧ s'.2 = s.2 ∧
    ∀ selected, res = Ok selected →
      selected = str_trim (BaselineSelection_commit baseline) ∧ selected ≠ "" ∧
      (∃ o, (["cat-file"; "-e"; selected +:+ "^{commit}"], Ok o) ∈ new ∧ GitOutput_status o = 0%Z) ∧
      (∀ commit, baseline = CommittedHead commit →
        ∃ o, (["rev-parse"; "--verify"; "HEAD"], Ok o) ∈ new ∧ trimmed o = selected).
Proof.
  unfold check_baseline. set (sel := str_trim _).
  destruct (str_eqb sel "") eqn:He; [intros [= <- <-]; exists []; by rewrite app_nil_r|]. guards.
  unfold mbind at 1, stm_bind at 1.
  destruct (wgit (git_run _) s) as [s1 [o1|e1]] eqn:E1; apply wgit_run_logs in E1 as (a1&L1&F1&A1).
  2: { intros [= <- <-]. eexists. by split_and!. }
  destruct (A1 o1 eq_refl) as [-> S1]. destruct baseline as [commit|commit].
  - unfold mbind, stm_bind.
    destruct (wgit (git_run _) s1) as [s2 [o2|e2]] eqn:E2; apply wgit_run_logs in E2 as (a2&L2&F2&A2);
      rewrite L1, <-app_assoc in L2; rewrite F1 in F2.
    2: { intros [= <- <-]. eexists. by split_and!. }
    destruct (A2 o2 eq_refl) as [-> S2].
    destruct (str_eqb (trimmed o2) sel) eqn:Hh; intros [= <- <-]; guards;
      eexists; (split_and!; [exact L2|done|]); [|done]. intros ? [= <-]. split_and!; try done.
    + exists o1. split; [by left|done].
    + intros _ _. exists o2. split; [right; by left|done].
  - intros [= <- <-]. eexists. split_and!; [exact L1|done|]. intros ? [= <-]. split_and!; try done.
    exists o1. split; [by left|done].
Qed.

(** A route's worktree starts from a commit that was checked and on a
    branch that was free: when one is created, Git had answered that the
    branch of the two short identifiers does not exist, that the selected
    commit exists and, unless a snapshot was selected, that it is the
    current head; the branch was added at that commit, below the managed
    root. *)
Theorem worktree_from_checked_baseline mission_id route_id baseline (s s' : Repo G * F) ws :
  RouteWorkspaceManager_create managed_root mission_id route_id baseline s = (s', Ok ws) →
  ∃ m r new, short_id mission_id = Ok m ∧ short_id route_id = Ok r ∧
    Repo_log s'.1 = Repo_log s.1 ++ new ∧
    let branch := "mission/" +:+ m +:+ "/" +:+ r in
    let target := managed_root ++ [m; r] in
    let selected := str_trim (BaselineSelection_commit baseline) in
    RouteWorkspace_branch ws = branch ∧ RouteWorkspace_baseline_commit ws = selected ∧
    fs_canonicalize target s'.2 = Ok (RouteWorkspace_path ws) ∧
    (fs_exists target s.2 = true → fs_read_dir target s.2 = Ok []) ∧
    (∃ o, (show_ref branch, Ok o) ∈ new ∧ GitOutput_status o = 1%Z) ∧
    (∃ o, (["cat-file"; "-e"; selected +:+ "^{commit}"], Ok o) ∈ new ∧ GitOutput_status o = 0%Z) ∧
    (∀ commit, baseline = CommittedHead commit →
      ∃ o, (["rev-parse"; "--verify"; "HEAD"], Ok o) ∈ new ∧ trimmed o = selected) ∧
    (∃ o, (worktree_args branch target selected, Ok o) ∈ new ∧ GitOutput_status o = 0%Z).
Proof.
  intros Hc. unfold RouteWorkspaceManager_create in Hc.
  apply stm_bind_lift_Ok in Hc as (m&Hm&Hc). apply stm_bind_lift_Ok in Hc as (r&Hr&Hc).
  destruct (negb (path_starts_with _ _)); [done|]. apply stm_bind_get_Ok in Hc.
  set (target := managed_root ++ [m; r]) in *. apply stm_bind_Ok in Hc as (s0&entries&Hen&Hc).
  assert (s0 = s ∧ (fs_exists target s.2 = true → fs_read_dir target s.2 = Ok entries)) as [-> Hdir].
  { revert Hen. destruct (fs_exists target s.2); [|by intros [= <-]].
    unfold stm_lift. destruct (fs_read_dir target s.2); simpl; [|done]. by intros [= <- <-]. }
  destruct (fs_exists target s.2 && negb (is_empty entries)) eqn:Hne; [done|].
  apply stm_bind_Ok in Hc as (s1&b&Hb&Hc). apply branch_exists_logs in Hb as (a1&L1&F1&A1).
  destruct (A1 b eq_refl) as (o1&->&O1). destruct b; [done|].
  apply stm_bind_Ok in Hc as (s2&sel&Hsel&Hc). apply check_baseline_logs in Hsel as (n2&L2&F2&B2).
  destruct (B2 sel eq_refl) as (->&Hn&Hcat&Hhead).
  apply stm_bind_Ok in Hc as (s3&[]&Hmk&Hc).
  assert (Repo_log s3.1 = Repo_log s2.1) as L3.
  { revert Hmk. unfold wfs, stm_zoom. destruct (fs_create_dir_all _ s2.2). by intros [= <- _]. }
  unfold add_worktree in Hc. destruct (wgit (git_run _) s3) as [s4 [o4|e4]] eqn:E4; [|done].
  apply wgit_run_logs in E4 as (a4&L4&F4&A4). destruct (A4 o4 eq_refl) as [-> O4].
  destruct (fs_canonicalize target s4.2) as [path|e] eqn:Hpath; simpl in Hc; [|done].
  injection Hc as <- <-. exists m, r. eexists. split; [done|]. split; [done|].
  split; [rewrite L4, L3, L2, L1, <-!app_assoc; done|]. cbv zeta. fold target.
  split; [done|]. split; [done|]. split; [done|]. split_and!.
  - intros Hex. rewrite Hdir by done. rewrite Hex in Hne. by destruct entries.
  - exists o1. split; [|done]. set_solver.
  - destruct Hcat as (o&Ho&?). exists o. split; [|done]. set_solver.
  - intros commit Hcm. destruct (Hhead commit Hcm) as (o&Ho&?). exists o. split; [|done]. set_solver.
  - exists o4. split; [|done]. set_solver.
Qed.

(** The identifiers are shortened to eight characters: a second route
    whose identifier starts like the first one's, as those made within the
    same 65 seconds do, is refused once the first has its branch. *)
Theorem short_ids_collide mission_id route_id route_id' baseline (s : Repo G * F) m r o g :
  short_id mission_id = Ok m → short_id route_id = Ok r →
  take 8 (filter (λ c, is_alphanumeric c = true) (String.list_ascii_of_string route_id)) =
  take 8 (filter (λ c, is_alphanumeric c = true) (String.list_ascii_of_string route_id')) →
  let branch := "mission/" +:+ m +:+ "/" +:+ r in
  fs_exists (managed_root ++ [m; r]) s.2 = false →
  git_exec (show_ref branch) (Repo_git s.1) = (g, Ok o) → GitOutput_status o = 0%Z →
  let '(s', res) := RouteWorkspaceManager_create managed_root mission_id route_id' baseline s in
  res = Err (BranchExists branch) ∧
  Repo_log s'.1 = Repo_log s.1 ++ [(show_ref branch, Ok (redact_output o))].
Proof.
  intros Hm Hr Heq branch Hex Hg Ho.
  assert (short_id route_id' = Ok r) as Hr' by (rewrite <-Hr; unfold short_id; by rewrite Heq).
  unfold RouteWorkspaceManager_create. rewrite Hm, Hr'.
  unfold mbind, stm_bind, stm_lift, stm_get.
  assert (path_starts_with (managed_root ++ [m; r]) managed_root = true) as ->.
  { apply bool_decide_eq_true_2. by apply prefix_app_r. }
  simpl. rewrite Hex. simpl. fold branch. unfold branch_exists, wgit, stm_zoom, run_unchecked.
  unfold mbind, stm_bind. change ["show-ref"; _; _; _] with (show_ref branch). rewrite Hg. simpl.
  rewrite Ho. done.
Qed.
End worktree_laws.

(** The part after "Authorization:" and its blank is the next one: only the
    name of the header is replaced, not the credential that follows it. *)
Lemma authorization_value_kept value :
  git_redact ("Authorization: " +:+ value) = "[REDACTED]" +:+ line_feed +:+ git_redact value.
Proof.
  assert (∀ a l, str_join "" (a :: l) = a +:+ str_join "" l) as Hj.
  { intros a [|b l]; [|done]. symmetry. apply string_app_nil. }
  unfold git_redact.
  assert (split_inclusive [] ("Authorization: " +:+ value) =
    ("Authorization: ", true) :: split_inclusive [] value) as -> by (destruct value; reflexivity).
  rewrite fmap_cons, Hj. reflexivity.
Qed.

(** ** A repository with one commit *)
Module GitExamples.

(** The branches there are; the head is always the same commit. *)
Definition repo_git : Git (list string) := λ args branches,
  let answer code out := Ok {| GitOutput_status := code; GitOutput_stdout := out; GitOutput_stderr := "" |} in
  match args with
  | ["show-ref"; _; _; name] => (branches, answer (if bool_decide (name ∈ branches) then 0%Z else 1%Z) "")
  | ["worktree"; _; _; branch; _; _] => (("refs/heads/" +:+ branch) :: branches, answer 0%Z "")
  | "rev-parse" :: _ => (branches, answer 0%Z ("c0ffee" +:+ line_feed))
  | _ => (branches, answer 0%Z "")
  end.
#[local] Existing Instance repo_git.
#[local] Instance open_fs : Filesystem unit := {
  fs_exists _ _ := false; fs_read_dir _ _ := Ok []; fs_create_dir_all _ s := (s, Ok tt);
  fs_remove_dir_all _ s := (s, Ok tt); fs_canonicalize path _ := Ok path }.
Definition git_root : list string := ["srv"; "routes"].
Definition git_start : Repo (list string) * unit :=
  ({| Repo_git := []; Repo_cwd := "/srv/project"; Repo_log := [] |}, tt).
(** A mission, and two routes made in the same minute. *)
Definition git_mission : string := "018f2c40-0000-7000-8000-000000000001".
Definition git_route1 : string := "018f2c41-1111-7000-8000-000000000002".
Definition git_route2 : string := "018f2c41-2222-7000-8000-000000000003".
Definition git_first :=
  RouteWorkspaceManager_create git_root git_mission git_route1 (CommittedHead "c0ffee") git_start.

Lemma worktree_from_checked_baseline_witness :
  ∃ ws new, git_first.2 = Ok ws ∧ Repo_log git_first.1.1 = new ∧
    RouteWorkspace_branch ws = "mission/018f2c40/018f2c41" ∧
    ∃ o, (show_ref "mission/018f2c40/018f2c41", Ok o) ∈ new ∧ GitOutput_status o = 1%Z.
Proof.
  assert (is_ok git_first.2 = true) as Hok by (vm_compute; reflexivity).
  destruct git_first as [s' [ws|e]] eqn:Hf; [clear Hok|discriminate].
  destruct (@worktree_from_checked_baseline _ _ repo_git open_fs git_root git_mission git_route1 (CommittedHead "c0ffee")
    git_start s' ws Hf) as (m&r&new&Hm&Hr&Hlog&Hb&_&_&_&Ho&_).
  vm_compute in Hm, Hr. injection Hm as <-. injection Hr as <-.
  exists ws, new. split; [reflexivity|]. split; [exact Hlog|]. split; [exact Hb|exact Ho].
Defined.
Lemma short_ids_collide_witness :
  (RouteWorkspaceManager_create git_root git_mission git_route2 (CommittedHead "c0ffee")
    git_first.1).2 = Err (BranchExists "mission/018f2c40/018f2c41").
Proof.
  pose proof (short_ids_collide git_root git_mission git_route1 git_route2 (CommittedHead "c0ffee")
    git_first.1 "018f2c40" "018f2c41"
    {| GitOutput_status := 0; GitOutput_stdout := ""; GitOutput_stderr := "" |}
    (Repo_git git_first.1.1)) as Hc.
  cbv zeta in Hc. destruct (RouteWorkspaceManager_create git_root git_mission git_route2
    (CommittedHead "c0ffee") git_first.1) as [s' res].
  apply Hc; vm_compute; reflexivity.
Defined.
End GitExamples.
