(* ===== verification/Snapshot.v ===== *)
(** * Snapshots of projects without Git, and checkpoints
    ([crates/workspace/src/snapshot.rs], [crates/workspace/src/checkpoint.rs])

    A directory is the tree the file system shows: files with their bytes,
    directories with their entries in the order they are listed, symbolic
    links, other things, and entries whose reading fails.  Paths are POSIX
    paths, a relative path the list of its names. *)

From S2P Require Import Prelude Text Always Extern Frame BlobStore GitWorkspace.
From Stdlib Require Import ZArith Lia Ascii.
From stdpp Require Import prelude gmap strings sorting.

#[local] Set Warnings "-register-all".
Inductive node :=
| NFile (bytes : list u8)
| NDir (entries : list (string * node))
| NSymlink
| NOther
| NFailed (error : string).

(** ** Paths *)
Inductive Component := RootDir | CurDir | ParentDir | Normal (name : string).
#[export] Instance Component_eq_dec : EqDecision Component.
Proof. solve_decision. Defined.
Definition component (piece : string) : option Component :=
  if str_eqb piece "" || str_eqb piece "." then None
  else if str_eqb piece ".." then Some ParentDir else Some (Normal piece).
(** [Path::components]: empty pieces and inner dots are skipped, a leading
    dot is kept. *)
Definition path_components (path : string) : list Component :=
  let pieces := split_on 47 [] path in
  if starts_with path "/" then RootDir :: omap component pieces
  else match pieces with
       | first :: rest =>
           if str_eqb first "." then CurDir :: omap component rest else omap component pieces
       | [] => []
       end.
Definition normal_name (c : Component) : option string :=
  match c with Normal name => Some name | _ => None end.
(** [path.components().any(|c| !matches!(c, Component::Normal(_)))] negated:
    the names, when there is nothing else.  An absolute path has a root. *)
Definition only_normal (components : list Component) : option (list string) :=
  mapM normal_name components.

(** ** Snapshots *)
Record SnapshotEntry := {
  SnapshotEntry_relative_path : string;
  SnapshotEntry_blob : BlobRef;
}.
Record SnapshotManifest := {
  SnapshotManifest_snapshot_id : string;
  SnapshotManifest_entries : list SnapshotEntry;
  SnapshotManifest_root_hash : string;
}.
Record NonGitSnapshot := {
  NonGitSnapshot_manifest : SnapshotManifest;
  NonGitSnapshot_manifest_blob : BlobRef;
}.
Record PreparedRestore := {
  PreparedRestore_path : string;
  PreparedRestore_manifest_hash : string;
}.
Inductive SnapshotError :=
| SnapshotBlob (error : BlobStoreError) | SnapshotIo (error : string) | InvalidSnapshotId
| InvalidScope | OutsideRoot | ManifestIntegrity | RestoreTargetExists (target : string).

Definition ignored (relative : list string) : bool :=
  existsb (λ name, existsb (str_eqb name) [".git"; ".codex"; "node_modules"; "target"]) relative.
Definition validate_snapshot_id (value : string) : result SnapshotError unit :=
  if valid_id value then Ok tt else Err InvalidSnapshotId.
Definition validate_forbidden (scopes : list (list Component)) : result SnapshotError (list (list string)) :=
  mapM (λ scope, match only_normal scope with
    | Some (name :: names) => Ok (name :: names)
    | _ => Err InvalidScope end) scopes.
Definition safe_relative (value : string) : result SnapshotError (list string) :=
  ok_or OutsideRoot (only_normal (path_components value)).
Definition normalize_relative (path : list string) : string := str_join "/" path.

Section snapshots.
Context `{SerdeJson, Sha256, Aead, !Serde (list SnapshotEntry), !Serde SnapshotManifest}.
Context (nonces : nat → option (list u8)).

Definition entries_hash (entries : list SnapshotEntry) : string := sha256_hex (to_vec (to_value entries)).

Abbreviation collecting := (EncryptedBlobStore * list SnapshotEntry)%type (only parsing).
Definition on_blobs {A} (m : stm EncryptedBlobStore BlobStoreError A) : stm collecting SnapshotError A :=
  stm_zoom fst (λ b s, (b, s.2)) SnapshotBlob m.
Definition collect_file (relative : list string) (bytes : list u8) : stm collecting SnapshotError unit :=
  blob ← on_blobs (blob_put nonces bytes "application/octet-stream");
  _ ← on_blobs (blob_retain blob);
  stm_modify (λ s, (s.1, s.2 ++ [{| SnapshotEntry_relative_path := normalize_relative relative;
                                    SnapshotEntry_blob := blob |}])).
(** What is left out: ignored names and forbidden scopes. *)
Definition left_out (forbidden : list (list string)) (relative : list string) : bool :=
  ignored relative || existsb (path_starts_with relative) forbidden.
(** One entry of a directory, with everything below it. *)
Fixpoint collect_entry (forbidden : list (list string)) (relative : list string) (n : node)
    : stm collecting SnapshotError unit :=
  if left_out forbidden relative then mret tt else
  match n with
  | NFailed error => stm_throw (SnapshotIo error)
  | NSymlink | NOther => mret tt
  | NDir entries =>
      (fix collect_files (entries : list (string * node)) : stm collecting SnapshotError unit :=
         match entries with
         | [] => mret tt
         | (name, child) :: rest =>
             _ ← collect_entry forbidden (relative ++ [name]) child; collect_files rest
         end) entries
  | NFile bytes => collect_file relative bytes
  end.
(** [collect_files] on the root. *)
Fixpoint collect_root (forbidden : list (list string)) (entries : list (string * node))
    : stm collecting SnapshotError unit :=
  match entries with
  | [] => mret tt
  | (name, child) :: rest => _ ← collect_entry forbidden [name] child; collect_root forbidden rest
  end.
Fixpoint release_entries (entries : list SnapshotEntry) (s : EncryptedBlobStore)
    : EncryptedBlobStore :=
  match entries with
  | [] => s
  | entry :: rest => (blob_release (SnapshotEntry_blob entry) (release_entries rest s)).1
  end.
Definition path_le (a b : SnapshotEntry) : bool :=
  String.leb (SnapshotEntry_relative_path a) (SnapshotEntry_relative_path b).
(** [canonical] is whether the root resolves and [root] what is listed below. *)
Definition snapshot_create (canonical : result string unit)
    (root : result string (list (string * node))) (snapshot_id : string)
    (forbidden_scopes : list (list Component)) : stm EncryptedBlobStore SnapshotError NonGitSnapshot :=
  λ store,
  match validate_snapshot_id snapshot_id with Err e => (store, Err e) | Ok _ =>
  match canonical with Err e => (store, Err (SnapshotIo e)) | Ok _ =>
  match validate_forbidden forbidden_scopes with Err e => (store, Err e) | Ok forbidden =>
  match root with Err e => (store, Err (SnapshotIo e)) | Ok listing =>
  match collect_root forbidden listing (store, []) with
  | ((store, entries), Err e) => (release_entries entries store, Err e)
  | ((store, entries), Ok _) =>
      let entries := sort_by path_le entries in
      let manifest := {| SnapshotManifest_snapshot_id := snapshot_id;
        SnapshotManifest_entries := entries; SnapshotManifest_root_hash := entries_hash entries |} in
      match blob_put nonces (str_bytes (to_vec (to_value manifest)))
              "application/vnd.mission.snapshot+json" store with
      | (store, Err e) => (release_entries entries store, Err (SnapshotBlob e))
      | (store, Ok manifest_blob) =>
          match blob_retain manifest_blob store with
          | (store, Err e) => (release_entries entries store, Err (SnapshotBlob e))
          | (store, Ok _) => (store, Ok {| NonGitSnapshot_manifest := manifest;
                                           NonGitSnapshot_manifest_blob := manifest_blob |})
          end
      end
  end end end end end.

(** Restoring into a fresh directory: what was written there, by path.  What
    the file system answers is given: to preparing the parent, whether the
    target exists, and to making the directory of a file and writing it. *)
Record RestoreEnv := {
  RestoreEnv_parent : result string string;
  RestoreEnv_target_exists : bool;
  RestoreEnv_create_dir : result string unit;
  RestoreEnv_create_dir_all : gmap (list string) (list u8) → list string → result string unit;
  RestoreEnv_write : gmap (list string) (list u8) → list string → result string unit;
}.
Fixpoint restore_entries (env : RestoreEnv) (entries : list SnapshotEntry)
    (store : EncryptedBlobStore) (files : gmap (list string) (list u8))
    : result SnapshotError (gmap (list string) (list u8)) :=
  match entries with
  | [] => Ok files
  | entry :: rest =>
      relative ← safe_relative (SnapshotEntry_relative_path entry);
      _ ← map_err SnapshotIo (RestoreEnv_create_dir_all env files relative);
      bytes ← map_err SnapshotBlob (blob_read (SnapshotEntry_blob entry) store);
      _ ← map_err SnapshotIo (RestoreEnv_write env files relative);
      restore_entries env rest store (<[relative := bytes]> files)
  end.
(** The directory as it is left: removed when the restore fails. *)
Definition prepare_restore (env : RestoreEnv) (snapshot : NonGitSnapshot) (store : EncryptedBlobStore)
    : option (gmap (list string) (list u8)) * result SnapshotError PreparedRestore :=
  let manifest := NonGitSnapshot_manifest snapshot in
  if negb (str_eqb (entries_hash (SnapshotManifest_entries manifest))
                   (SnapshotManifest_root_hash manifest)) then (None, Err ManifestIntegrity) else
  match RestoreEnv_parent env with Err e => (None, Err (SnapshotIo e)) | Ok parent =>
  let target := parent +:+ "/.restore-" +:+ SnapshotManifest_snapshot_id manifest in
  if RestoreEnv_target_exists env then (None, Err (RestoreTargetExists target)) else
  match RestoreEnv_create_dir env with Err e => (None, Err (SnapshotIo e)) | Ok _ =>
  match restore_entries env (SnapshotManifest_entries manifest) store ∅ with
  | Err e => (None, Err e)
  | Ok files => (Some files, Ok {| PreparedRestore_path := target;
      PreparedRestore_manifest_hash := SnapshotManifest_root_hash manifest |})
  end end end.
End snapshots.

(** ** Checkpoints *)
Inductive CheckpointTrigger :=
| BeforeLaunch | PlanPhaseEnded | BeforeCompaction | BeforeProviderHandoff | TriggerPaused
| TriggerBlocked | TriggerFailed | AutopilotDisengaged.
Record CheckpointRequest := {
  CheckpointRequest_checkpoint_id : string;
  CheckpointRequest_trigger : CheckpointTrigger;
  CheckpointRequest_contract_version : u64;
  CheckpointRequest_loadout_fingerprint : string;
  CheckpointRequest_ledger_sequence : u64;
}.
Record CheckpointMetadata := {
  CheckpointMetadata_checkpoint_id : string;
  CheckpointMetadata_trigger : CheckpointTrigger;
  CheckpointMetadata_file_hashes : gmap string string;
  CheckpointMetadata_contract_version : u64;
  CheckpointMetadata_loadout_fingerprint : string;
  CheckpointMetadata_ledger_sequence : u64;
}.
Record GitCheckpoint := {
  GitCheckpoint_commit : string;
  GitCheckpoint_metadata : CheckpointMetadata;
  GitCheckpoint_committed : bool;
}.
Inductive CheckpointError :=
| CheckpointGit (error : GitError) | CheckpointIo (error : string) | CheckpointIncompleteMetadata
| CheckpointOutsideRoot.

Section checkpoints.
Context {G : Type} `{!Git G, Sha256}.

Definition validate_request (request : CheckpointRequest) : result CheckpointError unit :=
  if negb (valid_id (CheckpointRequest_checkpoint_id request))
     || blank (CheckpointRequest_loadout_fingerprint request)
  then Err CheckpointIncompleteMetadata else Ok tt.
(** The hashes of one entry of a directory added to those so far. *)
Fixpoint visit_entry (relative : list string) (name : string) (n : node) (hashes : gmap string string)
    : result CheckpointError (gmap string string) :=
  if str_eqb name ".git" then Ok hashes else
  match n with
  | NFailed error => Err (CheckpointIo error)
  | NSymlink | NOther => Ok hashes
  | NDir entries =>
      (fix visit_files (entries : list (string * node)) (hashes : gmap string string) :=
         match entries with
         | [] => Ok hashes
         | (child_name, child) :: rest =>
             hashes ← visit_entry (relative ++ [name]) child_name child hashes; visit_files rest hashes
         end) entries hashes
  | NFile bytes => Ok (<[normalize_relative (relative ++ [name]) := blob_digest bytes]> hashes)
  end.
Fixpoint hash_files (entries : list (string * node)) (hashes : gmap string string)
    : result CheckpointError (gmap string string) :=
  match entries with
  | [] => Ok hashes
  | (name, child) :: rest => hashes ← visit_entry [] name child hashes; hash_files rest hashes
  end.
(** [root] is what the file system lists below the worktree. *)
Definition GitCheckpoint_create (root : result string (list (string * node)))
    (request : CheckpointRequest) : stm (Repo G) CheckpointError GitCheckpoint :=
  let git args := stm_zoom id (λ r _, r) CheckpointGit (git_run args) in
  _ ← stm_lift (validate_request request);
  listing ← stm_lift (map_err CheckpointIo root);
  file_hashes ← stm_lift (hash_files listing ∅);
  if bool_decide (file_hashes = ∅) then stm_throw CheckpointIncompleteMetadata else
  _ ← git ["add"; "-A"];
  _ ← git ["-c"; "user.name=Agent Mission Control"; "-c";
           "user.email=checkpoint@mission-control.invalid"; "commit"; "--allow-empty"; "-m";
           "Mission Control checkpoint " +:+ CheckpointRequest_checkpoint_id request];
  commit ← git ["rev-parse"; "HEAD"];
  mret {| GitCheckpoint_commit := trimmed commit;
    GitCheckpoint_metadata := {|
      CheckpointMetadata_checkpoint_id := CheckpointRequest_checkpoint_id request;
      CheckpointMetadata_trigger := CheckpointRequest_trigger request;
      CheckpointMetadata_file_hashes := file_hashes;
      CheckpointMetadata_contract_version := CheckpointRequest_contract_version request;
      CheckpointMetadata_loadout_fingerprint := CheckpointRequest_loadout_fingerprint request;
      CheckpointMetadata_ledger_sequence := CheckpointRequest_ledger_sequence request |};
    GitCheckpoint_committed := true |}.
End checkpoints.

(** ** What a snapshot holds

    The files of a tree that are neither left out nor behind a link. *)
Fixpoint visible (forbidden : list (list string)) (relative : list string) (n : node)
    : list (list string * list u8) :=
  if left_out forbidden relative then [] else
  match n with
  | NFile bytes => [(relative, bytes)]
  | NDir entries =>
      (fix below (entries : list (string * node)) :=
         match entries with
         | [] => []
         | (name, child) :: rest => visible forbidden (relative ++ [name]) child ++ below rest
         end) entries
  | _ => []
  end.
Fixpoint visible_below (forbidden : list (list string)) (relative : list string)
    (entries : list (string * node)) : list (list string * list u8) :=
  match entries with
  | [] => []
  | (name, child) :: rest =>
      visible forbidden (relative ++ [name]) child ++ visible_below forbidden relative rest
  end.
Lemma visible_dir forbidden relative entries :
  visible forbidden relative (NDir entries) =
    if left_out forbidden relative then [] else visible_below forbidden relative entries.
Proof.
  simpl. destruct (left_out forbidden relative); [done|].
  induction entries as [|[name child] entries IH]; [done|]. simpl. by rewrite IH.
Qed.

Lemma node_tree_ind (P : node → Prop) :
  (∀ b, P (NFile b)) → (∀ l, Forall (λ e, P e.2) l → P (NDir l)) → P NSymlink → P NOther →
  (∀ e, P (NFailed e)) → ∀ n, P n.
Proof.
  intros Hf Hd Hs Ho He. fix IH 1. intros [b|l| | |e]; [apply Hf| |apply Hs|apply Ho|apply He].
  apply Hd. induction l as [|[name child] l IHl]; constructor; [apply IH|exact IHl].
Qed.

(** *** Names and paths *)
Definition valid_name (name : string) : bool :=
  negb (str_eqb name "") && negb (str_eqb name ".") && negb (str_eqb name "..")
  && all_bytes (λ c, negb (byte_is 47 c)) name.

Lemma split_slash_join path :
  path ≠ [] → Forall (λ name, all_bytes (λ c, negb (byte_is 47 c)) name = true) path →
  split_on 47 [] (str_join "/" path) = path.
Proof.
  induction path as [|name path IH]; [done|]. intros _ [Hn Hp]%Forall_cons.
  destruct path as [|name' path].
  - simpl. rewrite <-(string_app_nil name) at 1. rewrite split_on_name by done.
    simpl. by rewrite part_app.
  - change (str_join "/" (name :: name' :: path)) with (name +:+ "/" +:+ str_join "/" (name' :: path)).
    rewrite split_on_name by done.
    change (split_on 47 ?cur ("/" +:+ ?r)) with (part cur :: split_on 47 [] r).
    rewrite part_app. f_equal. by apply IH.
Qed.

(** A relative path is read back as its names. *)
Lemma safe_relative_join path :
  path ≠ [] → Forall (λ name, valid_name name = true) path →
  safe_relative (normalize_relative path) = Ok path.
Proof.
  intros Hne Hv. unfold safe_relative, normalize_relative, path_components.
  rewrite split_slash_join; [|done|].
  2: { eapply Forall_impl; [exact Hv|]. intros name Hname. unfold valid_name in Hname. by guards. }
  assert (∀ l, Forall (λ name, valid_name name = true) l → omap component l = Normal <$> l) as Ho.
  { induction 1 as [|name l Hn Hl IH]; [done|].
    assert (component name = Some (Normal name)) as Hc.
    { unfold component, valid_name in *. guards.
      unfold str_eqb. by rewrite !(proj2 (String.eqb_neq _ _)). }
    change (omap component (name :: l)) with
      (match component name with Some y => y :: omap component l | None => omap component l end).
    by rewrite Hc, IH. }
  assert (∀ l, only_normal (Normal <$> l) = Some l) as Hm.
  { intros l. apply mapM_fmap_Some. done. }
  destruct path as [|name path]; [done|]. apply Forall_cons in Hv as [Hn Hp].
  assert (starts_with (str_join "/" (name :: path)) "/" = false) as ->.
  { unfold valid_name in Hn. guards. destruct name as [|c name]; [done|].
    unfold all_bytes in *. simpl in *. guards. unfold starts_with.
    assert (∀ r, String.prefix "/" (String c r) = false) as Hpre.
    { intros r. cbn [String.prefix]. match goal with |- context[ascii_dec ?a ?b] => by destruct (ascii_dec a b) as [<-|] end. }
    destruct path; apply Hpre. }
  assert (str_eqb name "." = false) as -> by (unfold valid_name in Hn; by guards; apply String.eqb_neq).
  rewrite Ho by (by constructor). by rewrite Hm.
Qed.

(** A tree as a file system shows one: proper names, each once per directory. *)
Fixpoint tree_ok (n : node) : bool :=
  match n with
  | NDir entries =>
      forallb (λ e, valid_name e.1) entries && bool_decide (NoDup entries.*1)
      && forallb (λ e, tree_ok e.2) entries
  | _ => true
  end.
Lemma tree_ok_dir entries :
  tree_ok (NDir entries) = true →
  NoDup entries.*1 ∧ Forall (λ e, valid_name e.1 = true ∧ tree_ok e.2 = true) entries.
Proof.
  intros Ht. simpl in Ht. apply andb_true_iff in Ht as [Ht Hk]. apply andb_true_iff in Ht as [Hv Hd].
  apply bool_decide_eq_true in Hd. split; [done|]. rewrite forallb_forall in Hv, Hk.
  apply list.Forall_forall. intros e He%list_elem_of_In. auto.
Qed.

(** Every file found below a path has that path in front, and proper names. *)
Lemma visible_prefix forbidden n : ∀ relative p b,
  (p, b) ∈ visible forbidden relative n → relative `prefix_of` p.
Proof.
  induction n as [bytes|entries IH| | |e] using node_tree_ind; intros relative p b.
  - simpl. case_match; set_solver.
  - rewrite visible_dir. case_match; [set_solver|]. clear -IH.
    induction entries as [|[name child] entries IHe]; simpl; [set_solver|].
    apply Forall_cons in IH as [Hc Hr]. rewrite elem_of_app. intros [Hin|Hin]; [|by apply IHe].
    apply Hc in Hin. etrans; [|exact Hin]. by apply prefix_app_r.
  - simpl. case_match; set_solver.
  - simpl. case_match; set_solver.
  - simpl. case_match; set_solver.
Qed.
Lemma visible_names forbidden n : ∀ relative p b,
  tree_ok n = true → Forall (λ name, valid_name name = true) relative →
  (p, b) ∈ visible forbidden relative n → Forall (λ name, valid_name name = true) p.
Proof.
  induction n as [bytes|entries IH| | |e] using node_tree_ind; intros relative p b Ht Hr.
  - simpl. case_match; set_solver.
  - rewrite visible_dir. case_match; [set_solver|]. apply tree_ok_dir in Ht as [_ Ht]. clear -IH Ht Hr.
    induction entries as [|[name child] entries IHe]; simpl; [set_solver|].
    apply Forall_cons in IH as [Hc Hrest]. apply Forall_cons in Ht as [[Hv Hk] Ht].
    rewrite elem_of_app. intros [Hin|Hin]; [|by apply IHe].
    eapply Hc; [done| |exact Hin]. apply Forall_app. split; [done|]. by constructor.
  - simpl. case_match; set_solver.
  - simpl. case_match; set_solver.
  - simpl. case_match; set_solver.
Qed.
Lemma visible_below_name forbidden entries : ∀ relative p b,
  (p, b) ∈ visible_below forbidden relative entries →
  ∃ name, name ∈ entries.*1 ∧ (relative ++ [name]) `prefix_of` p.
Proof.
  induction entries as [|[name child] entries IH]; intros relative p b; simpl; [set_solver|].
  rewrite elem_of_app. intros [Hin|Hin].
  - exists name. split; [by left|]. by eapply visible_prefix.
  - destruct (IH _ _ _ Hin) as (n&?&?). exists n. split; [by right|done].
Qed.
Lemma visible_below_nodup forbidden relative entries :
  Forall (λ e, ∀ relative, tree_ok e.2 = true → NoDup (visible forbidden relative e.2).*1) entries →
  NoDup entries.*1 → Forall (λ e, valid_name e.1 = true ∧ tree_ok e.2 = true) entries →
  NoDup (visible_below forbidden relative entries).*1.
Proof.
  induction entries as [|[name child] entries IHe]; simpl; [intros; constructor|].
  intros [Hc Hr]%Forall_cons [Hn Hd]%NoDup_cons [[_ Hk] Ht]%Forall_cons. rewrite fmap_app.
  apply NoDup_app. split_and!; [by apply Hc| |by apply IHe].
  intros p ([p' b]&->&Hin)%list_elem_of_fmap ([q b']&Heq&Hin')%list_elem_of_fmap. simpl in *. subst q.
  apply visible_prefix in Hin. apply visible_below_name in Hin' as (name'&Hn'&Hp').
  assert (name = name') as ->; [|done].
  destruct Hin as [k1 ->], Hp' as [k2 Hp']. rewrite <-!app_assoc in Hp'.
  apply app_inv_head in Hp'. by injection Hp'.
Qed.
Lemma visible_nodup forbidden n : ∀ relative,
  tree_ok n = true → NoDup (visible forbidden relative n).*1.
Proof.
  induction n as [bytes|entries IH| | |e] using node_tree_ind; intros relative Ht;
    try (simpl; case_match; repeat constructor; set_solver).
  rewrite visible_dir. case_match; [constructor|]. apply tree_ok_dir in Ht as [Hd Ht].
  by apply visible_below_nodup.
Qed.
Lemma visible_below_files_nodup forbidden entries :
  tree_ok (NDir entries) = true → NoDup (visible_below forbidden [] entries).*1.
Proof.
  intros [Hd Ht]%tree_ok_dir. apply visible_below_nodup; [|done|done].
  apply list.Forall_forall. intros e _ relative. apply visible_nodup.
Qed.
Lemma visible_below_names forbidden entries p b :
  tree_ok (NDir entries) = true → (p, b) ∈ visible_below forbidden [] entries →
  Forall (λ name, valid_name name = true) p.
Proof.
  intros [_ Ht]%tree_ok_dir. induction Ht as [|[name child] entries [Hv Hk] Ht IH]; simpl; [set_solver|].
  rewrite elem_of_app. intros [Hin|Hin]; [|by apply IH].
  by eapply (visible_names forbidden child [name]); [|constructor|].
Qed.

(** ** Restoring a snapshot *)
Section roundtrip.
Context `{SerdeJson, Sha256, Aead, !AeadLaws, !Serde (list SnapshotEntry), !Serde SnapshotManifest}.
Context (nonces : nat → option (list u8)).
Context (nonces_len : ∀ i n, nonces i = Some n → length n = NONCE_LEN).
(** The contents that are stored have different digests. *)
Context (C : list (list u8)).
Context (distinct : ∀ p q, p ∈ C → q ∈ C → blob_digest p = blob_digest q → p = q).

Definition good (s : EncryptedBlobStore) : Prop := ∀ p, p ∈ C → no_collision p s.
Definition still_reads (s s' : EncryptedBlobStore) : Prop :=
  ∀ r q, blob_read r s = Ok q → blob_read r s' = Ok q.
Definition holds_file (s : EncryptedBlobStore) (e : SnapshotEntry) (f : list string * list u8) : Prop :=
  SnapshotEntry_relative_path e = normalize_relative f.1 ∧
  blob_read (SnapshotEntry_blob e) s = Ok f.2.
(** What collecting some files does. *)
Definition collected (files : list (list string * list u8))
    (x y : EncryptedBlobStore * list SnapshotEntry) : Prop :=
  good x.1 → (∀ p b, (p, b) ∈ files → b ∈ C) →
  good y.1 ∧ still_reads x.1 y.1 ∧
  ∃ new, y.2 = x.2 ++ new ∧ Forall2 (holds_file y.1) new files.

Lemma holds_later s s' new files :
  still_reads s s' → Forall2 (holds_file s) new files → Forall2 (holds_file s') new files.
Proof.
  intros Hs Hf. eapply Forall2_impl; [exact Hf|]. intros e f [Hp Hr]. split; [done|by apply Hs].
Qed.
Lemma collected_nothing x : collected [] x x.
Proof.
  intros Hg _. split_and!; [done|by intros r q|]. exists []. rewrite app_nil_r. by split; [|constructor].
Qed.
Lemma collected_app f1 f2 x y z : collected f1 x y → collected f2 y z → collected (f1 ++ f2) x z.
Proof.
  intros Hxy Hyz Hg Hc. destruct Hxy as (Gy&Sy&n1&E1&F1); [done|intros p b ?; apply (Hc p), elem_of_app; by left|].
  destruct Hyz as (Gz&Sz&n2&E2&F2); [done|intros p b ?; apply (Hc p), elem_of_app; by right|].
  split_and!; [done|intros r q Hr; by apply Sz, Sy|]. exists (n1 ++ n2).
  rewrite E2, E1, <-app_assoc. split; [done|]. apply Forall2_app; [by eapply holds_later|done].
Qed.

Lemma blob_read_files r s s' :
  BlobStore_files s = BlobStore_files s' → blob_read r s = blob_read r s'.
Proof. intros Hf. unfold blob_read. by rewrite Hf. Qed.
Lemma retain_files r s s' res : blob_retain r s = (s', res) → BlobStore_files s' = BlobStore_files s.
Proof.
  unfold blob_retain, mbind, stm_bind, stm_lift, stm_get, stm_throw, stm_modify.
  repeat case_match; intros; by simplify_eq.
Qed.
Lemma put_good p m s s' res : p ∈ C → good s → blob_put nonces p m s = (s', res) → good s'.
Proof.
  intros Hp Hg Hput q Hq enc He.
  apply (put_cases nonces nonces_len) in Hput as [[_ [-> | ->]]|(_&_&[[_ ->]|(e&Hf&Hd&->)])];
    simpl in He; try by apply Hg.
  destruct (decide (blob_digest q = blob_digest p)) as [Heq|Hne].
  - rewrite Heq, lookup_insert_eq in He. injection He as <-.
    by rewrite (distinct q p Hq Hp Heq).
  - rewrite lookup_insert_ne in He by done. by apply Hg.
Qed.
Lemma collect_file_spec relative bytes x y :
  collect_file nonces relative bytes x = (y, Ok tt) → collected [(relative, bytes)] x y.
Proof.
  intros Hc Hg HC. assert (bytes ∈ C) as Hin by (by apply (HC relative); left).
  unfold collect_file in Hc. apply stm_bind_Ok in Hc as (x1&blob&Hput&Hc).
  apply stm_bind_Ok in Hc as (x2&[]&Hret&Hc).
  unfold on_blobs, stm_zoom in Hput, Hret.
  destruct (blob_put nonces bytes _ x.1) as [s1 [b|e]] eqn:Hp; simpl in Hput; [|done].
  injection Hput as <- <-. simpl in Hret.
  destruct (blob_retain b s1) as [s2 [[]|e]] eqn:Hr; simpl in Hret; [|done].
  injection Hret as <-. injection Hc as <-. simpl. apply retain_files in Hr.
  assert (no_collision bytes x.1) as Hnc by by apply Hg.
  pose proof (blob_put_reads nonces nonces_len _ _ _ _ _ Hp Hnc) as Hread.
  split_and!.
  - pose proof (put_good _ _ _ _ _ Hin Hg Hp) as Hg1. intros q Hq enc. rewrite Hr. by apply Hg1.
  - intros r q Hq. rewrite (blob_read_files r s2 s1 Hr).
    by eapply (blob_put_keeps nonces nonces_len).
  - eexists. split; [done|]. repeat constructor. simpl. by rewrite (blob_read_files b s2 s1 Hr).
Qed.
Lemma collect_entry_dir forbidden relative entries :
  collect_entry nonces forbidden relative (NDir entries) =
    if left_out forbidden relative then mret tt else
    foldr (λ e k, _ ← collect_entry nonces forbidden (relative ++ [e.1]) e.2; k) (mret tt) entries.
Proof.
  simpl. destruct (left_out forbidden relative); [done|].
  induction entries as [|[name child] entries IH]; [done|]. simpl. by rewrite IH.
Qed.
Lemma collect_entry_spec forbidden n : ∀ relative x y,
  collect_entry nonces forbidden relative n x = (y, Ok tt) →
  collected (visible forbidden relative n) x y.
Proof.
  induction n as [bytes|entries IH| | |e] using node_tree_ind; intros relative x y.
  - simpl. destruct (left_out forbidden relative).
    + intros [= <-]. apply collected_nothing.
    + apply collect_file_spec.
  - rewrite collect_entry_dir, visible_dir. destruct (left_out forbidden relative).
    { intros [= <-]. apply collected_nothing. }
    revert x. induction entries as [|[name child] entries IHe]; intros x; simpl.
    { intros [= <-]. apply collected_nothing. }
    apply Forall_cons in IH as [Hc Hr]. intros (x1&[]&Hx&Hy)%stm_bind_Ok.
    eapply collected_app; [by apply Hc|by apply IHe].
  - simpl. case_match; intros [= <-]; apply collected_nothing.
  - simpl. case_match; intros [= <-]; apply collected_nothing.
  - simpl. case_match; [|done]. intros [= <-]. apply collected_nothing.
Qed.
Lemma collect_root_spec forbidden entries : ∀ x y,
  collect_root nonces forbidden entries x = (y, Ok tt) →
  collected (visible_below forbidden [] entries) x y.
Proof.
  induction entries as [|[name child] entries IH]; intros x y; simpl.
  - intros [= <-]. apply collected_nothing.
  - intros (x1&[]&Hx&Hy)%stm_bind_Ok.
    eapply collected_app; [by apply collect_entry_spec|by apply IH].
Qed.

Lemma Forall2_perm {A B} (P : A → B → Prop) l l' k :
  l ≡ₚ l' → Forall2 P l k → ∃ k', k ≡ₚ k' ∧ Forall2 P l' k'.
Proof.
  intros Hp. revert k. induction Hp as [|x l l' Hp IH|x y l|l l' l'' Hp IH Hp' IH']; intros k Hk.
  - apply Forall2_nil_inv_l in Hk as ->. exists []. by split.
  - apply Forall2_cons_inv_l in Hk as (b&k1&Hb&Hk&->). destruct (IH _ Hk) as (k'&Hkp&Hk').
    exists (b :: k'). split; [by apply Permutation_cons|by constructor].
  - apply Forall2_cons_inv_l in Hk as (b&k1&Hb&Hk&->).
    apply Forall2_cons_inv_l in Hk as (b'&k2&Hb'&Hk&->).
    exists (b' :: b :: k2). split; [apply Permutation_swap|by repeat constructor].
  - destruct (IH _ Hk) as (k1&Hk1&F1). destruct (IH' _ F1) as (k2&Hk2&F2).
    exists k2. split; [by etrans|done].
Qed.
Definition write_all (files : gmap (list string) (list u8)) (l : list (list string * list u8)) :=
  foldl (λ m f, <[f.1 := f.2]> m) files l.
Lemma write_all_lookup l : ∀ files p b,
  NoDup l.*1 →
  write_all files l !! p = Some b ↔ (p, b) ∈ l ∨ ((p ∉ l.*1) ∧ files !! p = Some b).
Proof.
  induction l as [|[q c] l IH]; intros files p b; simpl; [set_solver|].
  intros [Hq Hd]%NoDup_cons. unfold write_all in *. simpl. rewrite IH by done.
  destruct (decide (q = p)) as [->|Hne].
  - rewrite lookup_insert_eq. split.
    + intros [Hin|[Hn [= <-]]]; [left; by right|left; by left].
    + intros [[[= <-]|Hin]%elem_of_cons|[Hn _]]; [right|by left|set_solver]. done.
  - rewrite lookup_insert_ne by done. set_solver.
Qed.
Definition calm (env : RestoreEnv) : Prop :=
  is_ok (RestoreEnv_parent env) = true ∧ RestoreEnv_target_exists env = false ∧
  RestoreEnv_create_dir env = Ok tt ∧ (∀ m p, RestoreEnv_create_dir_all env m p = Ok tt) ∧
  ∀ m p, RestoreEnv_write env m p = Ok tt.
Lemma restore_spec env store entries l : ∀ files,
  calm env → Forall2 (holds_file store) entries l →
  Forall (λ f, f.1 ≠ [] ∧ Forall (λ name, valid_name name = true) f.1) l →
  restore_entries env entries store files = Ok (write_all files l).
Proof.
  intros files (_&_&_&Hmk&Hw) Hf. revert files.
  induction Hf as [|e f entries l [Hp Hr] Hf IH]; intros files Hv; [done|].
  apply Forall_cons in Hv as [[Hne Hn] Hv]. simpl. rewrite Hp, safe_relative_join by done.
  unfold mbind, result_bind. rewrite Hmk, Hr, Hw. simpl. by apply IH.
Qed.

(** C25: a snapshot can be restored.  If a snapshot of a tree was taken, then
    restoring it from the store into a fresh directory, when the file system
    lets it write, produces exactly the files of the tree, with their bytes,
    except those under an ignored name or a forbidden scope and what is
    behind links; the restore carries the hash of the manifest. *)
Theorem snapshot_restores listing snapshot_id scopes forbidden store store' snapshot env :
  tree_ok (NDir listing) = true → validate_forbidden scopes = Ok forbidden →
  (∀ p b, (p, b) ∈ visible_below forbidden [] listing → b ∈ C) → good store →
  snapshot_create nonces (Ok tt) (Ok listing) snapshot_id scopes store = (store', Ok snapshot) →
  calm env →
  ∃ files restored, prepare_restore env snapshot store' = (Some files, Ok restored) ∧
    PreparedRestore_manifest_hash restored = SnapshotManifest_root_hash (NonGitSnapshot_manifest snapshot) ∧
    ∀ p b, files !! p = Some b ↔ (p, b) ∈ visible_below forbidden [] listing.
Proof.
  intros Ht Hfb HC Hg Hc Henv. unfold snapshot_create in Hc.
  destruct (validate_snapshot_id snapshot_id); [|done]. rewrite Hfb in Hc.
  destruct (collect_root nonces forbidden listing (store, [])) as [[s1 es] [[]|e]] eqn:Hcol; [|done].
  apply collect_root_spec in Hcol. destruct Hcol as (Hg1&_&new&Hnew&Hfiles); [done|done|].
  simpl in Hnew, Hfiles. subst es.
  destruct (blob_put nonces _ _ s1) as [s2 [mb|e]] eqn:Hput; [|done].
  destruct (blob_retain mb s2) as [s3 [[]|e]] eqn:Hret; [|done]. injection Hc as <- <-.
  assert (still_reads s1 s3) as Hreads.
  { intros r q Hq. rewrite (blob_read_files r s3 s2 (retain_files _ _ _ _ Hret)).
    by eapply (blob_put_keeps nonces nonces_len). }
  destruct (Forall2_perm (holds_file s3) new (sort_by path_le new) (visible_below forbidden [] listing))
    as (l&Hperm&Hl); [symmetry; apply sort_by_perm|by eapply holds_later|].
  assert (Forall (λ f, f.1 ≠ [] ∧ Forall (λ name, valid_name name = true) f.1) l) as Hnames.
  { apply list.Forall_forall. intros [p b] Hin. rewrite <-Hperm in Hin. simpl. split.
    - intros ->. apply visible_below_name in Hin as (name&_&[k Hk]). done.
    - by eapply visible_below_names. }
  pose proof Henv as (Hpar&Hex&Hmk&_). unfold prepare_restore. simpl.
  assert (∀ x, str_eqb x x = true) as -> by apply String.eqb_refl.
  destruct (RestoreEnv_parent env) as [parent|e]; [|done]. rewrite Hex, Hmk.
  rewrite (restore_spec env s3 _ l ∅) by done. eexists _, _. split_and!; [done|done|].
  intros p b. rewrite write_all_lookup, lookup_empty, Hperm; [naive_solver|].
  rewrite <-Hperm. by apply visible_below_files_nodup.
Qed.
End roundtrip.

(** ** A snapshot that fails *)
Section abandoned.
Context `{SerdeJson, Sha256, Aead, !Serde (list SnapshotEntry), !Serde SnapshotManifest}.
Context (nonces : nat → option (list u8)).

(** The references the catalogue counts for a content. *)
Definition ref_count (h : string) (s : EncryptedBlobStore) : Z :=
  from_option BlobRow_ref_count 0%Z (BlobStore_rows s !! h).
Definition entry_hash (e : SnapshotEntry) : string := BlobRef_hash (SnapshotEntry_blob e).
Definition occurrences (h : string) (entries : list SnapshotEntry) : Z :=
  Z.of_nat (length (filter (λ e, entry_hash e = h) entries)).
Definition known (s : EncryptedBlobStore) (e : SnapshotEntry) : Prop :=
  validate_hash (entry_hash e) = Ok tt ∧ is_Some (row_of (SnapshotEntry_blob e) (BlobStore_rows s)).
(** Every entry collected is one reference more than there was. *)
Definition held (base : string → Z) (x : EncryptedBlobStore * list SnapshotEntry) : Prop :=
  (∀ h, ref_count h x.1 = base h + occurrences h x.2)%Z ∧ Forall (known x.1) x.2.

Lemma occurrences_app h l k : occurrences h (l ++ k) = (occurrences h l + occurrences h k)%Z.
Proof. unfold occurrences. rewrite filter_app, length_app. lia. Qed.
Lemma occurrences_one h e : occurrences h [e] = if decide (entry_hash e = h) then 1%Z else 0%Z.
Proof. unfold occurrences. rewrite filter_cons, filter_nil. by case_decide. Qed.
Lemma occurrences_perm h l k : l ≡ₚ k → occurrences h l = occurrences h k.
Proof. intros Hp. unfold occurrences. by rewrite Hp. Qed.
Lemma held_perm base s l k : l ≡ₚ k → held base (s, l) → held base (s, k).
Proof.
  intros Hp [Hc Hk]. split; simpl in *; [|by rewrite <-Hp].
  intros h. rewrite Hc. by erewrite occurrences_perm.
Qed.

(** A count that moves keeps what every row is about. *)
Lemma row_of_count r f h s :
  is_Some (row_of r (BlobStore_rows s)) → is_Some (row_of r (BlobStore_rows (update_count f h s))).
Proof.
  intros [row Hr]. pose proof Hr as (Hl&Hsz&Hmd)%row_of_Some. unfold row_of. simpl.
  destruct (decide (h = BlobRef_hash r)) as [->|Hne].
  - rewrite lookup_alter_eq, Hl. simpl. by rewrite Hsz, Hmd, !bool_decide_true.
  - rewrite lookup_alter_ne, Hl by done. simpl. by rewrite Hsz, Hmd, !bool_decide_true.
Qed.
Lemma known_count f h s e : known s e → known (update_count f h s) e.
Proof. intros [Hv Hr]. split; [done|by apply row_of_count]. Qed.
Lemma ref_count_update f h k s :
  is_Some (BlobStore_rows s !! h) →
  ref_count k (update_count f h s) = if decide (h = k) then f (ref_count k s) else ref_count k s.
Proof.
  intros [row Hr]. unfold ref_count. simpl. destruct (decide (h = k)) as [<-|Hne].
  - by rewrite lookup_alter_eq, Hr.
  - by rewrite lookup_alter_ne.
Qed.
Lemma row_of_lookup r rows : is_Some (row_of r rows) → is_Some (rows !! BlobRef_hash r).
Proof. intros [row (Hl&_)%row_of_Some]. by exists row. Qed.

Lemma put_rows p m s s' res :
  blob_put nonces p m s = (s', res) →
  BlobStore_rows s' = BlobStore_rows s ∨
  BlobStore_rows s' = insert_or_ignore (blob_digest p) {| BlobRow_size := Z.of_nat (length p);
    BlobRow_media_type := m; BlobRow_ref_count := 0 |} (BlobStore_rows s).
Proof.
  unfold blob_put, put_file, mret, stm_ret, mbind, stm_bind, stm_lift, stm_get, stm_modify.
  repeat case_match; intros; simplify_eq/=; auto.
Qed.
Lemma insert_or_ignore_keeps h row rows k x :
  rows !! k = Some x → insert_or_ignore h row rows !! k = Some x.
Proof.
  intros Hk. unfold insert_or_ignore. destruct (rows !! h) eqn:Hh; [done|].
  rewrite lookup_insert_ne; [done|]. by intros ->; rewrite Hk in Hh.
Qed.
Lemma put_held base p m s entries s' res :
  blob_put nonces p m s = (s', res) → held base (s, entries) → held base (s', entries).
Proof.
  intros Hput [Hc Hk]. unfold held, ref_count in *. simpl in *.
  apply put_rows in Hput as [Heq|Heq]; rewrite Heq.
  { split; [done|]. eapply Forall_impl; [exact Hk|]. intros e. unfold known. by rewrite Heq. }
  split.
  - intros h. rewrite <-Hc. unfold insert_or_ignore.
    destruct (BlobStore_rows s !! blob_digest p) eqn:Hh; [done|].
    destruct (decide (blob_digest p = h)) as [<-|Hne].
    + by rewrite lookup_insert_eq, Hh.
    + by rewrite lookup_insert_ne.
  - eapply Forall_impl; [exact Hk|]. intros e [Hv [row (Hl&Hsz&Hmd)%row_of_Some]].
    split; [done|]. exists row. unfold row_of. rewrite Heq.
    rewrite (insert_or_ignore_keeps _ _ _ _ row) by done. simpl.
    by rewrite Hsz, Hmd, !bool_decide_true.
Qed.
Lemma retain_held base r s entries s' res path :
  blob_retain r s = (s', res) → held base (s, entries) →
  held base (s', if is_ok res then entries ++ [{| SnapshotEntry_relative_path := path;
                                                  SnapshotEntry_blob := r |}] else entries).
Proof.
  unfold blob_retain, mbind, stm_bind, stm_lift, stm_get, stm_throw, stm_modify.
  destruct (validate_hash (BlobRef_hash r)) as [[]|] eqn:Hv; simpl; [|by intros [= <- <-]].
  destruct (row_of r (BlobStore_rows s)) as [row|] eqn:Hr; [|by intros [= <- <-]].
  intros [= <- <-] [Hc Hk]. simpl in *. assert (is_Some (row_of r (BlobStore_rows s))) as Hs by eauto.
  split; simpl.
  - intros h. rewrite ref_count_update by (by apply row_of_lookup). rewrite occurrences_app, Hc.
    rewrite occurrences_one. unfold entry_hash. simpl. case_decide; lia.
  - apply Forall_app. split.
    + eapply Forall_impl; [exact Hk|]. intros e. apply known_count.
    + constructor; [|done]. split; [done|by apply row_of_count].
Qed.

Lemma collect_file_held base relative bytes x y res :
  collect_file nonces relative bytes x = (y, res) → held base x → held base y.
Proof.
  destruct x as [s entries]. unfold collect_file, mbind, stm_bind, on_blobs, stm_zoom. simpl.
  destruct (blob_put nonces bytes _ s) as [s1 [b|e]] eqn:Hp; simpl.
  2: { intros [= <- <-]. by eapply put_held. }
  destruct (blob_retain b s1) as [s2 [[]|e]] eqn:Hr; simpl; intros [= <- <-] Hh;
    eapply put_held in Hh; [|exact Hp| |exact Hp];
    by apply (retain_held _ _ _ _ _ _ (normalize_relative relative) Hr) in Hh.
Qed.
Lemma bind_held {A B} base (m : stm (EncryptedBlobStore * list SnapshotEntry) SnapshotError A)
    (f : A → stm (EncryptedBlobStore * list SnapshotEntry) SnapshotError B) x y res :
  (∀ x y r, m x = (y, r) → held base x → held base y) →
  (∀ a x y r, f a x = (y, r) → held base x → held base y) →
  (a ← m; f a) x = (y, res) → held base x → held base y.
Proof.
  intros Hm Hf. unfold mbind, stm_bind. destruct (m x) as [x1 [a|e]] eqn:Hx.
  - intros Hy Hh. eapply Hf; [exact Hy|]. by eapply Hm.
  - intros [= <- _]. by eapply Hm.
Qed.
Lemma collect_entry_held base forbidden n : ∀ relative x y res,
  collect_entry nonces forbidden relative n x = (y, res) → held base x → held base y.
Proof.
  induction n as [bytes|entries IH| | |e] using node_tree_ind; intros relative x y res;
    try (simpl; case_match; intros [= <- _]; done).
  - simpl. case_match; [by intros [= <- _]|]. apply collect_file_held.
  - rewrite collect_entry_dir. case_match; [by intros [= <- _]|]. revert x y res.
    induction IH as [|[name child] entries Hc Hr IHe]; intros x y res; simpl; [by intros [= <- _]|].
    apply bind_held; [intros; by eapply Hc|intros []; apply IHe].
Qed.
Lemma collect_root_held base forbidden entries : ∀ x y res,
  collect_root nonces forbidden entries x = (y, res) → held base x → held base y.
Proof.
  induction entries as [|[name child] entries IH]; intros x y res; simpl; [by intros [= <- _]|].
  apply bind_held; [apply collect_entry_held|intros []; apply IH].
Qed.

(** Releasing gives every reference back. *)
Lemma release_counts r s :
  validate_hash (BlobRef_hash r) = Ok tt → is_Some (row_of r (BlobStore_rows s)) →
  (0 < ref_count (BlobRef_hash r) s)%Z →
  (blob_release r s).1 = update_count (λ n, n - 1)%Z (BlobRef_hash r) s.
Proof.
  intros Hv [row Hr] Hp. unfold blob_release, mbind, stm_bind, stm_lift, stm_get, stm_modify.
  rewrite Hv, Hr. apply row_of_Some in Hr as (Hl&_). unfold ref_count in Hp. rewrite Hl in Hp.
  simpl in Hp. by destruct (Z.eqb_spec (BlobRow_ref_count row) 0); [lia|].
Qed.
Lemma release_entries_held entries : ∀ base s,
  (∀ h, 0 ≤ base h)%Z → held base (s, entries) →
  (∀ h, ref_count h (release_entries entries s) = base h) ∧
  ∀ e, known s e → known (release_entries entries s) e.
Proof.
  induction entries as [|e entries IH]; intros base s Hb [Hc Hk]; simpl in *.
  { split; [|done]. intros h. rewrite Hc. unfold occurrences. rewrite filter_nil. simpl. lia. }
  apply Forall_cons in Hk as [He Hk].
  set (base' h := (base h + if decide (entry_hash e = h) then 1 else 0)%Z).
  destruct (IH base' s) as [Hcount Hknown].
  - intros h. unfold base'. specialize (Hb h). case_decide; lia.
  - split; [|done]. intros h. simpl. rewrite Hc. unfold base', occurrences. rewrite filter_cons.
    case_decide; simpl; lia.
  - destruct (Hknown e He) as [Hv Hr]. rewrite release_counts; [|done|done|].
    2: { rewrite Hcount. unfold base'. change (BlobRef_hash _) with (entry_hash e).
         rewrite decide_True by done. specialize (Hb (entry_hash e)). lia. }
    split.
    + intros h. rewrite ref_count_update by (by apply row_of_lookup). rewrite Hcount. unfold base'.
      change (BlobRef_hash (SnapshotEntry_blob e)) with (entry_hash e). case_decide; lia.
    + intros e' He'. by apply known_count, Hknown.
Qed.

(** A snapshot that cannot be taken holds on to nothing.  Whatever goes
    wrong (an unreadable file, a content the store refuses, a manifest that
    cannot be stored), the references the store counts for every content are
    what they were before, so nothing the attempt stored survives the next
    clean-up. *)
Theorem failed_snapshot_releases canonical root snapshot_id scopes store store' e :
  (∀ h, 0 ≤ ref_count h store)%Z →
  snapshot_create nonces canonical root snapshot_id scopes store = (store', Err e) →
  ∀ h, ref_count h store' = ref_count h store.
Proof.
  intros Hpos. unfold snapshot_create.
  destruct (validate_snapshot_id _) as [[]|]; [|by intros [= <- _]].
  destruct canonical as [[]|]; [|by intros [= <- _]].
  destruct (validate_forbidden _) as [forbidden|]; [|by intros [= <- _]].
  destruct root as [listing|]; [|by intros [= <- _]].
  assert (held (λ h, ref_count h store) (store, [])) as Hstart.
  { split; [|constructor]. intros h. simpl. unfold occurrences. rewrite filter_nil. simpl. lia. }
  destruct (collect_root _ _ _ _) as [[s1 es] r] eqn:Hcol.
  apply (collect_root_held _ _ _ _ _ _ Hcol) in Hstart.
  destruct r as [[]|e1].
  2: { intros [= <- _]. by apply (release_entries_held es (λ h, ref_count h store)). }
  apply (held_perm _ _ _ (sort_by path_le es)) in Hstart; [|symmetry; apply sort_by_perm].
  destruct (blob_put nonces _ _ s1) as [s2 [mb|e2]] eqn:Hput;
    apply (put_held _ _ _ _ _ _ _ Hput) in Hstart.
  2: { intros [= <- _]. by apply (release_entries_held _ (λ h, ref_count h store)). }
  destruct (blob_retain mb s2) as [s3 [[]|e3]] eqn:Hret; [done|].
  apply (retain_held _ _ _ _ _ _ "" Hret) in Hstart. simpl in Hstart.
  intros [= <- _]. by apply (release_entries_held _ (λ h, ref_count h store)).
Qed.
(** A content that is stored under another media type cannot be snapshotted:
    its row keeps the first media type, and [retain] asks for the second. *)
Lemma other_media_type_refused relative bytes s row entries :
  validate_hash (blob_digest bytes) = Ok tt → is_Some (BlobStore_files s !! blob_digest bytes) →
  BlobStore_rows s !! blob_digest bytes = Some row →
  BlobRow_media_type row ≠ "application/octet-stream" →
  (collect_file nonces relative bytes (s, entries)).2 = Err (SnapshotBlob InvalidReference).
Proof.
  intros Hv [f Hf] Hr Hm. unfold collect_file, on_blobs, stm_zoom, blob_put, put_file, blob_retain.
  unfold mbind, stm_bind, stm_lift, stm_get, stm_modify, mret, stm_ret. simpl.
  rewrite Hv, Hf. simpl. rewrite Hv. unfold row_of. simpl. unfold insert_or_ignore.
  rewrite Hr, Hr. simpl. rewrite (bool_decide_false (_ = "application/octet-stream")) by done.
  by rewrite andb_false_r.
Qed.
End abandoned.

Module SnapshotExamples.
Import Json BlobExamples.
#[local] Existing Instance sum_sha256.

Definition entry_json (e : SnapshotEntry) : json :=
  JObj [("relative_path", JStr (SnapshotEntry_relative_path e));
        ("blob", JObj [("hash", JStr (BlobRef_hash (SnapshotEntry_blob e)));
                       ("size", JNum (BlobRef_size (SnapshotEntry_blob e)));
                       ("media_type", JStr (BlobRef_media_type (SnapshotEntry_blob e)))])].
#[local] Instance json_entries : Serde (list SnapshotEntry) := {
  to_value l := JArr (entry_json <$> l); from_value _ := Err "unused" }.
#[local] Instance json_manifest : Serde SnapshotManifest := {
  to_value m := JObj [("snapshot_id", JStr (SnapshotManifest_snapshot_id m));
    ("entries", JArr (entry_json <$> SnapshotManifest_entries m));
    ("root_hash", JStr (SnapshotManifest_root_hash m))];
  from_value _ := Err "unused" }.

Definition sn_secret : list u8 := str_bytes "secret".
Definition sn_main : list u8 := str_bytes "fn main() {}".
Definition sn_tree : list (string * node) :=
  [("src", NDir [("main.rs", NFile sn_main); ("link", NSymlink)]);
   ("private", NDir [("key", NFile sn_secret)]); (".git", NDir [("HEAD", NFile sn_secret)]);
   ("README", NFile bs_text)].
Definition sn_scopes : list (list Component) := [[Normal "private"]].
Definition sn_env : RestoreEnv := {|
  RestoreEnv_parent := Ok "/restore"; RestoreEnv_target_exists := false;
  RestoreEnv_create_dir := Ok tt; RestoreEnv_create_dir_all _ _ := Ok tt;
  RestoreEnv_write _ _ := Ok tt |}.

Lemma snapshot_restores_witness :
  ∃ files restored store' snapshot,
    snapshot_create bs_nonces (Ok tt) (Ok sn_tree) "one" sn_scopes BlobStore_empty =
      (store', Ok snapshot) ∧
    prepare_restore sn_env snapshot store' = (Some files, Ok restored) ∧
    files !! ["src"; "main.rs"] = Some sn_main ∧ files !! ["private"; "key"] = None.
Proof.
  assert (is_ok (snapshot_create bs_nonces (Ok tt) (Ok sn_tree) "one" sn_scopes BlobStore_empty).2
    = true) as Hok by (vm_compute; reflexivity).
  destruct (snapshot_create bs_nonces (Ok tt) (Ok sn_tree) "one" sn_scopes BlobStore_empty)
    as [store' [snapshot|e]] eqn:Hc; [clear Hok|discriminate].
  destruct (snapshot_restores bs_nonces bs_nonces_len [sn_main; bs_text]) with
    (listing := sn_tree) (snapshot_id := "one") (scopes := sn_scopes) (forbidden := [["private"]])
    (store := BlobStore_empty) (store' := store') (snapshot := snapshot) (env := sn_env)
    as (files&restored&Hr&_&Hf).
  - intros p q Hp%list_elem_of_In Hq%list_elem_of_In.
    destruct Hp as [<-|[<-|[]]], Hq as [<-|[<-|[]]]; intros Hd; [reflexivity| | |reflexivity];
      vm_compute in Hd; discriminate.
  - vm_compute. reflexivity.
  - vm_compute. reflexivity.
  - intros p b. replace (visible_below [["private"]] [] sn_tree)
      with [(["src"; "main.rs"], sn_main); (["README"], bs_text)] by (vm_compute; reflexivity).
    intros Hin%list_elem_of_In. apply list_elem_of_In.
    destruct Hin as [[= _ <-]|[[= _ <-]|[]]]; [left|right; left]; reflexivity.
  - intros p _ enc. simpl. by rewrite lookup_empty.
  - exact Hc.
  - repeat split.
  - exists files, restored, store', snapshot.
    replace (visible_below [["private"]] [] sn_tree)
      with [(["src"; "main.rs"], sn_main); (["README"], bs_text)] in Hf by (vm_compute; reflexivity).
    split_and!; [reflexivity|exact Hr|apply Hf; left|].
    destruct (files !! ["private"; "key"]) as [b|] eqn:Hb; [|reflexivity].
    apply Hf, list_elem_of_In in Hb. destruct Hb as [[=]|[[=]|[]]].
Defined.

(** A second file cannot be read: the first one's reference is given back. *)
Definition sn_broken : list (string * node) := [("README", NFile bs_text); ("locked", NFailed "denied")].
Lemma failed_snapshot_releases_witness :
  ∃ store', snapshot_create bs_nonces (Ok tt) (Ok sn_broken) "one" [] BlobStore_empty =
      (store', Err (SnapshotIo "denied")) ∧
    is_Some (BlobStore_files store' !! blob_digest bs_text) ∧
    ref_count (blob_digest bs_text) store' = 0%Z.
Proof.
  assert (let x := snapshot_create bs_nonces (Ok tt) (Ok sn_broken) "one" [] BlobStore_empty in
    x.2 = Err (SnapshotIo "denied") ∧ bool_decide (is_Some (BlobStore_files x.1 !! blob_digest bs_text)) = true)
    as Hx by (vm_compute; split; reflexivity).
  destruct (snapshot_create bs_nonces (Ok tt) (Ok sn_broken) "one" [] BlobStore_empty)
    as [store' r] eqn:Hc. destruct Hx as [Hr Hs]. simpl in Hr, Hs. subst r.
  exists store'. split_and!; [reflexivity| |].
  - exact (bool_decide_eq_true_1 _ Hs).
  - rewrite (failed_snapshot_releases bs_nonces (Ok tt) (Ok sn_broken) "one" [] BlobStore_empty
      store' (SnapshotIo "denied")); [reflexivity|intros h; reflexivity|exact Hc].
Defined.
(** The same file cannot be put into a snapshot once it is stored as text. *)
Lemma text_blocks_snapshot :
  (snapshot_create bs_nonces (Ok tt) (Ok [("README", NFile bs_text)]) "one" [] bs_put).2 =
    Err (SnapshotBlob InvalidReference).
Proof. vm_compute. reflexivity. Qed.
End SnapshotExamples.
