(* ===== verification/DesktopBridge.v ===== *)
(** * The desktop's side of the local server
    ([apps/desktop/src-tauri/src/supervisor_bridge.rs], [main.rs])

    The desktop keeps at most one authenticated session with the supervisor
    and sends it pings and mission commands.  The other end of the pipe is an
    interface with two implementations: any peer, and the supervisor's own
    server behind a pipe that can fail. *)

From S2P Require Import Prelude Always Extern Frame Handshake RecoveryPackage ServiceData Service ServiceExamples Ipc ServiceIpc.
From Stdlib Require Import ZArith Lia.
From stdpp Require Import prelude strings countable.

Definition PRODUCT_INSTALL_ID : string := "mission-control-desktop-v1".
(** Durations are milliseconds. *)
Definition HANDSHAKE_IO_TIMEOUT : Z := 5000%Z.
Definition PING_IO_TIMEOUT : Z := 1000%Z.
Definition COMMAND_IO_TIMEOUT : Z := 5000%Z.
Definition LONG_COMMAND_IO_TIMEOUT : Z := 15000%Z.
Definition command_io_timeout (command : string) : Z :=
  if existsb (str_eqb command)
       ["launch_route"; "build_recovery_package"; "verify_recovery"; "resolve_recovery";
        "handoff_provider"]
  then LONG_COMMAND_IO_TIMEOUT else COMMAND_IO_TIMEOUT.
Definition MISSION_ALLOWED_COMMANDS : list string :=
  ["create_mission"; "update_mission_contract"; "launch_route"; "subscribe_mission";
   "request_safe_pause"; "request_force_termination"; "force_terminate"; "resolve_approval";
   "build_recovery_package"; "verify_recovery"; "resolve_recovery"; "review_memory";
   "handoff_provider"; "provider_capabilities"; "storage_preview"; "export_preview";
   "diagnostic_preview"; "archive_mission"; "delete_mission"; "materialize_export"].

Inductive BridgeError := BridgeAuthentication | BridgeProtocol | BridgeTimeout | BridgeUnavailable.
#[export] Instance BridgeError_eq_dec : EqDecision BridgeError.
Proof. solve_decision. Defined.
Definition bridge_protocol_error (code : ProtocolErrorCode) : BridgeError :=
  match code with
  | AuthFailed | ReplayedNonce => BridgeAuthentication
  | IncompatibleProtocol => BridgeProtocol
  | CodeFrameTooLarge | InvalidFrame => BridgeUnavailable
  end.
Record PublicSupervisorStatus := {
  PublicSupervisorStatus_connection : string;
  PublicSupervisorStatus_version : option string;
  PublicSupervisorStatus_error_code : option string;
}.
Definition public_status (r : result BridgeError string) : PublicSupervisorStatus :=
  match r with
  | Ok version => {| PublicSupervisorStatus_connection := "connected";
      PublicSupervisorStatus_version := Some version; PublicSupervisorStatus_error_code := None |}
  | Err BridgeAuthentication => {| PublicSupervisorStatus_connection := "disconnected";
      PublicSupervisorStatus_version := None;
      PublicSupervisorStatus_error_code := Some "SUPERVISOR_AUTH_FAILED" |}
  | Err BridgeProtocol => {| PublicSupervisorStatus_connection := "disconnected";
      PublicSupervisorStatus_version := None;
      PublicSupervisorStatus_error_code := Some "SUPERVISOR_PROTOCOL_INCOMPATIBLE" |}
  | Err BridgeTimeout => {| PublicSupervisorStatus_connection := "degraded";
      PublicSupervisorStatus_version := None;
      PublicSupervisorStatus_error_code := Some "SUPERVISOR_TIMEOUT" |}
  | Err BridgeUnavailable => {| PublicSupervisorStatus_connection := "disconnected";
      PublicSupervisorStatus_version := None; PublicSupervisorStatus_error_code := None |}
  end.

(** ** Deadlines

    What became of the watchdog thread of an exchange: it could not be set up,
    the exchange was over in time, the watchdog fired and cancelled it, or the
    thread panicked. *)
Inductive IoDeadline := NotStarted | InTime | Fired | Panicked.
Definition with_io_deadline {S A} (deadline : IoDeadline) (operation : stm S BridgeError A)
    : stm S BridgeError A := λ s,
  match deadline with
  | NotStarted => (s, Err BridgeUnavailable)
  | InTime => operation s
  | Fired => ((operation s).1, Err BridgeTimeout)
  | Panicked => ((operation s).1, Err BridgeUnavailable)
  end.

(** ** The bridge

    What the desktop needs of its connection to the supervisor. *)
Class SupervisorTransport `{SerdeJson} (T : Type) : Type := {
  transport_ping : stm T BridgeError string;
  transport_command : string → Value → stm T string Value;
  transport_start_packaged : stm T BridgeError unit;
}.
Record SupervisorBridge (T : Type) := {
  Bridge_transport : T;
  Bridge_launch_attempted : bool;
}.
Arguments Bridge_transport {_} _.
Arguments Bridge_launch_attempted {_} _.
Definition SupervisorBridge_new {T} (transport : T) : SupervisorBridge T :=
  {| Bridge_transport := transport; Bridge_launch_attempted := false |}.

Section bridge.
Context `{SerdeJson} {T : Type} `{!SupervisorTransport T}.

Definition unavailable {A} (r : result BridgeError A) : bool :=
  match r with Err BridgeUnavailable => true | _ => false end.
(** The attempts after a launch: [attempts] more, at least one. *)
Fixpoint ping_until_available (attempts : nat) (transport : T) : T * result BridgeError string :=
  let '(transport, r) := transport_ping transport in
  match attempts with
  | S attempts => if unavailable r then ping_until_available attempts transport else (transport, r)
  | O => (transport, r)
  end.
Definition supervisor_status (b : SupervisorBridge T) : SupervisorBridge T * PublicSupervisorStatus :=
  let '(transport, first) := transport_ping (Bridge_transport b) in
  if unavailable first && negb (Bridge_launch_attempted b) then
    match transport_start_packaged transport with
    | (transport, Err error) =>
        ({| Bridge_transport := transport; Bridge_launch_attempted := true |},
         public_status (Err error))
    | (transport, Ok _) =>
        let '(transport, r) := ping_until_available 9 transport in
        ({| Bridge_transport := transport; Bridge_launch_attempted := true |}, public_status r)
    end
  else ({| Bridge_transport := transport; Bridge_launch_attempted := Bridge_launch_attempted b |},
        public_status first).
Definition ping_supervisor (b : SupervisorBridge T) : SupervisorBridge T * PublicSupervisorStatus :=
  let '(transport, r) := transport_ping (Bridge_transport b) in
  ({| Bridge_transport := transport; Bridge_launch_attempted := Bridge_launch_attempted b |},
   public_status r).
Definition dispatch_mission (command : string) (request : Value) (b : SupervisorBridge T)
    : SupervisorBridge T * result string Value :=
  if negb (existsb (str_eqb command) MISSION_ALLOWED_COMMANDS)
  then (b, Err "COMMAND_NOT_ALLOWED") else
  let '(transport, r) := transport_command command request (Bridge_transport b) in
  ({| Bridge_transport := transport; Bridge_launch_attempted := Bridge_launch_attempted b |}, r).

(** A mission command of the window, with its request and result encoded. *)
Definition window_mission `{!Serde MissionCommandRequest, !Serde MissionCommandResult} (command : string)
    (request : MissionCommandRequest) (b : SupervisorBridge T)
    : SupervisorBridge T * result string MissionCommandResult :=
  let '(b, r) := dispatch_mission command (to_value request) b in
  (b, value ← r; map_err (λ _, "MISSION_RESULT_INVALID") (from_value value)).
(** What the window can ask. *)
Inductive bridge_call := CallStatus | CallPing | CallMission (command : string) (request : Value).
Definition bridge_do (b : SupervisorBridge T) (call : bridge_call) : SupervisorBridge T :=
  match call with
  | CallStatus => (supervisor_status b).1
  | CallPing => (ping_supervisor b).1
  | CallMission command request => (dispatch_mission command request b).1
  end.
Definition bridge_run (b : SupervisorBridge T) (calls : list bridge_call) : SupervisorBridge T :=
  foldl bridge_do b calls.
End bridge.
Arguments bridge_call {_}.

(** ** The transport over a pipe

    The other end: connecting to it, and what it answers to bytes written
    ([None] when the write fails); the answer is what can be read until the
    other end waits for more or hangs up. *)
Class Pipe (P : Type) : Type := {
  pipe_open : P → P * bool;
  pipe_write : list u8 → P → P * option (list u8);
}.
(** What the desktop's surroundings answer, at each point of the log. *)
Record TransportEnv := {
  TransportEnv_secret : nat → option (list u8);
  TransportEnv_nonce : nat → option (list u8);
  TransportEnv_deadline : nat → Z → IoDeadline;
  TransportEnv_child_exited : nat → result unit bool;
  TransportEnv_packaged : nat → bool;
  TransportEnv_spawn : nat → bool;
}.
Section transport.
Context `{SerdeJson, HmacSha256, !SerdeText ClientMessage, !SerdeText ServerMessage}.
Context {P : Type} `{!Pipe P}.

Inductive client_action :=
| Opened | Wrote (message : ClientMessage) | Received (message : ServerMessage) | Launched.
(** [session] holds the bytes that arrived and were not read. *)
Record LocalSupervisorTransport := {
  Transport_pipe : P;
  Transport_session : option (list u8);
  Transport_data_dir : option string;
  Transport_child : bool;
  Transport_log : list client_action;
}.
Abbreviation transport_m := (stm LocalSupervisorTransport).
Context (env : TransportEnv).

Definition note (action : client_action) (t : LocalSupervisorTransport) := {|
  Transport_pipe := Transport_pipe t; Transport_session := Transport_session t;
  Transport_data_dir := Transport_data_dir t; Transport_child := Transport_child t;
  Transport_log := Transport_log t ++ [action] |}.
Definition set_pipe (pipe : P) (t : LocalSupervisorTransport) := {|
  Transport_pipe := pipe; Transport_session := Transport_session t;
  Transport_data_dir := Transport_data_dir t; Transport_child := Transport_child t;
  Transport_log := Transport_log t |}.
Definition set_session (session : option (list u8)) (t : LocalSupervisorTransport) := {|
  Transport_pipe := Transport_pipe t; Transport_session := session;
  Transport_data_dir := Transport_data_dir t; Transport_child := Transport_child t;
  Transport_log := Transport_log t |}.
Definition set_child (child : bool) (t : LocalSupervisorTransport) := {|
  Transport_pipe := Transport_pipe t; Transport_session := Transport_session t;
  Transport_data_dir := Transport_data_dir t; Transport_child := child;
  Transport_log := Transport_log t |}.
Definition asks {A} (f : nat → A) : transport_m BridgeError A := λ t,
  (t, Ok (f (length (Transport_log t)))).

(** [write_frame] and [read_frame] on a session with [unread] bytes. *)
Definition exchange (message : ClientMessage) (unread : list u8)
    : transport_m BridgeError (list u8 * ServerMessage) := λ t,
  match write_frame message [] with
  | (_, Err _) => (t, Err BridgeUnavailable)
  | (bytes, Ok _) =>
      match pipe_write bytes (Transport_pipe t) with
      | (pipe, None) => (set_pipe pipe t, Err BridgeUnavailable)
      | (pipe, Some answer) =>
          let t := note (Wrote message) (set_pipe pipe t) in
          match read_frame (unread ++ answer) with
          | (_, Err _) => (t, Err BridgeUnavailable)
          | (unread, Ok reply) => (note (Received reply) t, Ok (unread, reply))
          end
      end
  end.
Definition connect_and_authenticate : transport_m BridgeError (list u8) :=
  t ← stm_get;
  let '(pipe, opened) := pipe_open (Transport_pipe t) in
  _ ← stm_modify (set_pipe pipe);
  if negb opened then stm_throw BridgeUnavailable else
  _ ← stm_modify (note Opened);
  secret ← asks (TransportEnv_secret env);
  secret ← stm_lift (ok_or BridgeAuthentication secret);
  nonce ← asks (TransportEnv_nonce env);
  nonce ← stm_lift (ok_or BridgeUnavailable nonce);
  let versions := [PROTOCOL_VERSION] in
  proof ← stm_lift (ok_or BridgeAuthentication
    (handshake_proof secret PRODUCT_INSTALL_ID nonce versions));
  deadline ← asks (TransportEnv_deadline env);
  with_io_deadline (deadline HANDSHAKE_IO_TIMEOUT)
    (answer ← exchange (ClientHandshake {|
        Handshake_install_id := PRODUCT_INSTALL_ID; Handshake_protocol_versions := versions;
        Handshake_nonce := nonce; Handshake_proof := proof |}) [];
     match answer.2 with
     | ServerHandshakeAccepted accepted =>
         if (HandshakeAccepted_protocol_version accepted =? PROTOCOL_VERSION)%Z
         then mret answer.1 else stm_throw BridgeProtocol
     | ServerError code => stm_throw (bridge_protocol_error code)
     | _ => stm_throw BridgeProtocol
     end).
(** The session there is, or a new one. *)
Definition establish : transport_m BridgeError (list u8) :=
  t ← stm_get;
  match Transport_session t with
  | Some unread => mret unread
  | None =>
      unread ← connect_and_authenticate;
      _ ← stm_modify (set_session (Some unread));
      mret unread
  end.
Definition ping_session (unread : list u8) : transport_m BridgeError (list u8 * string) :=
  deadline ← asks (TransportEnv_deadline env);
  with_io_deadline (deadline PING_IO_TIMEOUT)
    (answer ← exchange ClientPing unread;
     match answer.2 with
     | ServerPong pong =>
         if (Pong_protocol_version pong =? PROTOCOL_VERSION)%Z
         then mret (answer.1, Pong_supervisor_version pong) else stm_throw BridgeProtocol
     | ServerError code => stm_throw (bridge_protocol_error code)
     | _ => stm_throw BridgeProtocol
     end).
Definition ping : transport_m BridgeError string := λ t,
  match establish t with
  | (t, Err error) => (t, Err error)
  | (t, Ok unread) =>
      match ping_session unread t with
      | (t, Err error) => (set_session None t, Err error)
      | (t, Ok (unread, version)) => (set_session (Some unread) t, Ok version)
      end
  end.
Definition connection_failure (error : BridgeError) : string :=
  match error with
  | BridgeTimeout => "SUPERVISOR_HANDSHAKE_TIMEOUT"
  | BridgeAuthentication => "SUPERVISOR_AUTH_FAILED"
  | BridgeProtocol => "SUPERVISOR_PROTOCOL_ERROR"
  | BridgeUnavailable => "SUPERVISOR_UNAVAILABLE"
  end.
Definition read_response (command : string) (reply : ServerMessage) : result string Value :=
  match reply with
  | ServerCommand response =>
      if str_eqb (CommandResponse_command response) command then
        match CommandResponse_result response with
        | Some value => Ok value
        | None => Err (default "SUPERVISOR_COMMAND_FAILED" (CommandResponse_error response))
        end
      else Err "SUPERVISOR_PROTOCOL_ERROR"
  | _ => Err "SUPERVISOR_PROTOCOL_ERROR"
  end.
Definition command (command : string) (request : Value) : transport_m string Value := λ t,
  match establish t with
  | (t, Err error) => (t, Err (connection_failure error))
  | (t, Ok unread) =>
      match with_io_deadline
              (TransportEnv_deadline env (length (Transport_log t)) (command_io_timeout command))
              (exchange (ClientCommand {| CommandRequest_command := command;
                                          CommandRequest_request := request |}) unread) t with
      | (t, Ok (unread, reply)) => (set_session (Some unread) t, read_response command reply)
      | (t, Err BridgeTimeout) => (set_session None t, Err "SUPERVISOR_COMMAND_TIMEOUT")
      | (t, Err _) => (set_session None t, Err "SUPERVISOR_UNAVAILABLE")
      end
  end.
Definition start_packaged : transport_m BridgeError unit :=
  t ← stm_get;
  exited ← asks (TransportEnv_child_exited env);
  exited ← stm_lift (if Transport_child t then map_err (λ _, BridgeUnavailable) exited else Ok true);
  if negb exited then mret tt else
  packaged ← asks (TransportEnv_packaged env);
  if negb packaged then stm_throw BridgeUnavailable else
  _ ← stm_lift (ok_or BridgeUnavailable (Transport_data_dir t));
  spawned ← asks (TransportEnv_spawn env);
  if negb spawned then stm_throw BridgeUnavailable else
  _ ← stm_modify (note Launched);
  stm_modify (set_child true).
#[local] Instance local_transport : SupervisorTransport LocalSupervisorTransport := {
  transport_ping := ping; transport_command := command; transport_start_packaged := start_packaged }.
Definition transport_new (pipe : P) (data_dir : option string) : LocalSupervisorTransport := {|
  Transport_pipe := pipe; Transport_session := None; Transport_data_dir := data_dir;
  Transport_child := false; Transport_log := [] |}.
End transport.

(** ** What the bridge does, whatever the transport *)
Section bridge_laws.
Context `{SerdeJson} {T : Type} `{!SupervisorTransport T}.

(** The transport with its pings and launches counted. *)
Record counted := { counted_inner : T; counted_pings : nat; counted_starts : nat }.
#[local] Instance counted_transport : SupervisorTransport counted := {
  transport_ping c := let '(t, r) := transport_ping (counted_inner c) in
    ({| counted_inner := t; counted_pings := S (counted_pings c);
        counted_starts := counted_starts c |}, r);
  transport_command command request c :=
    let '(t, r) := transport_command command request (counted_inner c) in
    ({| counted_inner := t; counted_pings := counted_pings c;
        counted_starts := counted_starts c |}, r);
  transport_start_packaged c := let '(t, r) := transport_start_packaged (counted_inner c) in
    ({| counted_inner := t; counted_pings := counted_pings c;
        counted_starts := S (counted_starts c) |}, r);
}.
Lemma counted_ping c t r :
  transport_ping (counted_inner c) = (t, r) →
  transport_ping c = ({| counted_inner := t; counted_pings := S (counted_pings c);
                         counted_starts := counted_starts c |}, r).
Proof. intros Hp. simpl. by rewrite Hp. Qed.
Lemma ping_until_counted attempts : ∀ c,
  let c' := (ping_until_available attempts c).1 in
  counted_starts c' = counted_starts c ∧ counted_pings c' ≤ counted_pings c + S attempts.
Proof.
  induction attempts as [|attempts IH]; intros c; cbn [ping_until_available];
    destruct (transport_ping (counted_inner c)) as [t r] eqn:Hp; rewrite (counted_ping c t r Hp).
  - simpl. lia.
  - destruct (unavailable r); [|simpl; lia].
    pose proof (IH {| counted_inner := t; counted_pings := S (counted_pings c);
      counted_starts := counted_starts c |}) as [Hs Hpi]. simpl in *. lia.
Qed.
Lemma bridge_do_counted b call :
  let b' := bridge_do b call in
  let extra := match call with CallMission _ _ => 0 | _ => 1 end in
  if Bridge_launch_attempted b
  then Bridge_launch_attempted b' = true ∧
    counted_starts (Bridge_transport b') = counted_starts (Bridge_transport b) ∧
    counted_pings (Bridge_transport b') = counted_pings (Bridge_transport b) + extra
  else
    counted_starts (Bridge_transport b') = counted_starts (Bridge_transport b) +
      (if Bridge_launch_attempted b' then 1 else 0) ∧
    counted_pings (Bridge_transport b') ≤ counted_pings (Bridge_transport b) + extra +
      (if Bridge_launch_attempted b' then 10 else 0).
Proof.
  destruct b as [c launched]. destruct call as [| |cmd request].
  - unfold bridge_do, supervisor_status. cbn [Bridge_transport].
    destruct (transport_ping (counted_inner c)) as [t first] eqn:Hp. rewrite (counted_ping c t first Hp).
    generalize (ping_until_counted 9). generalize 9 as attempts. intros attempts Hattempts.
    cbn [Bridge_launch_attempted].
    destruct (unavailable first); destruct launched; simpl; try (split_and!; (done || lia)).
    destruct (transport_start_packaged t) as [t' [u|e]]; simpl; [|split; lia].
    pose proof (Hattempts {| counted_inner := t'; counted_pings := S (counted_pings c);
      counted_starts := S (counted_starts c) |}) as [Hs Hpi].
    destruct (ping_until_available _ _) as [c' r]. simpl in *. split; lia.
  - unfold bridge_do, ping_supervisor. cbn [Bridge_transport].
    destruct (transport_ping (counted_inner c)) as [t first] eqn:Hp. rewrite (counted_ping c t first Hp).
    destruct launched; simpl; split_and!; (done || lia).
  - unfold bridge_do, dispatch_mission. cbn [Bridge_transport].
    destruct (negb _); [destruct launched; simpl; split_and!; (done || lia)|].
    unfold transport_command. cbn [counted_transport].
    destruct (transport_command cmd request (counted_inner c)) as [t r].
    destruct launched; simpl; split_and!; (done || lia).
Qed.
(** Asking for the status cannot start a storm of supervisors: whatever is
    called and whatever the transport answers, the packaged supervisor is
    launched at most once in the life of the bridge, and every call pings at
    most once, except for ten more pings after that launch. *)
Theorem bridge_launches_once t calls :
  let b := bridge_run (SupervisorBridge_new {| counted_inner := t; counted_pings := 0;
                                               counted_starts := 0 |}) calls in
  counted_starts (Bridge_transport b) ≤ 1 ∧
  counted_pings (Bridge_transport b) ≤ length calls + 10.
Proof.
  set (start := SupervisorBridge_new _).
  assert (let b := bridge_run start calls in
    counted_starts (Bridge_transport b) = (if Bridge_launch_attempted b then 1 else 0) ∧
    counted_pings (Bridge_transport b) ≤ length calls + (if Bridge_launch_attempted b then 10 else 0))
    as [Hs Hp].
  { induction calls as [|call calls IH] using rev_ind; [done|].
    unfold bridge_run in *. rewrite foldl_app, length_app. simpl. destruct IH as [Hs Hp].
    pose proof (bridge_do_counted (foldl bridge_do start calls) call) as Hc.
    destruct (Bridge_launch_attempted (foldl bridge_do start calls)).
    - destruct Hc as (->&Hs'&Hp'). rewrite Hs', Hp'. destruct call; lia.
    - destruct Hc as (Hs'&Hp'). rewrite Hs'. destruct (Bridge_launch_attempted _), call; lia. }
  simpl in *. destruct (Bridge_launch_attempted _); lia.
Qed.
End bridge_laws.

(** ** What is said on the pipe *)
Section spoken.
Context `{SerdeJson, HmacSha256, !SerdeText ClientMessage, !SerdeText ServerMessage}.
Context {P : Type} `{!Pipe P} (env : TransportEnv).
#[local] Existing Instance local_transport.
#[local] Instance the_transport : SupervisorTransport (LocalSupervisorTransport (P := P)) :=
  local_transport env.
Abbreviation transport := (LocalSupervisorTransport (P := P)).

(** The protocol as a machine over the log: no session, opened, handshake
    sent, authenticated, request sent. *)
Inductive phase := Idle | Fresh | Asked | Ready | Waiting.
Definition speak (ph : phase) (action : client_action) : option phase :=
  match action, ph with
  | Opened, _ => Some Fresh
  | Launched, _ => Some ph
  | Wrote (ClientHandshake _), Fresh => Some Asked
  | Received (ServerHandshakeAccepted accepted), Asked =>
      Some (if (HandshakeAccepted_protocol_version accepted =? PROTOCOL_VERSION)%Z
            then Ready else Idle)
  | Received _, Asked => Some Idle
  | Wrote ClientPing, Ready => Some Waiting
  | Wrote (ClientCommand c), Ready =>
      if existsb (str_eqb (CommandRequest_command c)) MISSION_ALLOWED_COMMANDS
      then Some Waiting else None
  | Received _, Waiting => Some Ready
  | _, _ => None
  end.
Definition spoken (log : list client_action) : option phase :=
  foldl (λ o action, ph ← o; speak ph action) (Some Idle) log.
Lemma waiting_answered reply : speak Waiting (Received reply) = Some Ready.
Proof. by destruct reply. Qed.
Lemma spoken_snoc log action : spoken (log ++ [action]) = (ph ← spoken log; speak ph action).
Proof. unfold spoken. by rewrite foldl_app. Qed.
(** A session is only kept when it is authenticated and nothing is pending. *)
Definition proper (t : transport) : Prop :=
  ∃ ph, spoken (Transport_log t) = Some ph ∧ (is_Some (Transport_session t) → ph = Ready).
Definition in_phase (ph : phase) (t : transport) : Prop := spoken (Transport_log t) = Some ph.

Lemma proper_closed t ph : in_phase ph t → proper (set_session None t).
Proof. intros Hph. exists ph. split; [done|]. by intros [x [=]]. Qed.
(** An exchange after an answered request: the answer comes next, or the
    session must not be used any more. *)
Lemma exchange_speaks ph ph' message unread (t t' : transport) r :
  exchange message unread t = (t', r) → in_phase ph t → speak ph (Wrote message) = Some ph' →
  Transport_session t' = Transport_session t ∧
  match r with
  | Ok (_, reply) => ∃ t0 : transport, in_phase ph' t0 ∧ Transport_log t' = Transport_log t0 ++ [Received reply]
  | Err _ => is_Some (spoken (Transport_log t'))
  end.
Proof.
  intros He Hph Hs. unfold exchange in He. destruct (write_frame message []) as [bytes [u|e]].
  2: { injection He as <- <-. split; [done|by exists ph]. }
  destruct (pipe_write bytes (Transport_pipe t)) as [pipe [answer|]].
  2: { injection He as <- <-. split; [done|by exists ph]. }
  assert (in_phase ph' (note (Wrote message) (set_pipe pipe t))) as Hw.
  { unfold in_phase in *. simpl. by rewrite spoken_snoc, Hph. }
  destruct (read_frame _) as [rest [reply|e]]; injection He as <- <-; (split; [done|]).
  - by exists (note (Wrote message) (set_pipe pipe t)).
  - by exists ph'.
Qed.
Lemma asks_keeps {A} (f : nat → A) (t : transport) : asks f t = (t, Ok (f (length (Transport_log t)))).
Proof. done. Qed.
Lemma deadline_cases {A} d (op : stm transport BridgeError A) t t' r :
  with_io_deadline d op t = (t', r) →
  (t' = t ∧ r = Err BridgeUnavailable) ∨
  ∃ r0, op t = (t', r0) ∧ (r = r0 ∨ ∃ e, r = Err e).
Proof.
  unfold with_io_deadline. destruct (op t) as [t1 r1]. destruct d; intros [= <- <-]; eauto 8.
Qed.
Lemma connect_speaks (t t' : transport) r :
  connect_and_authenticate env t = (t', r) → proper t → Transport_session t = None →
  Transport_session t' = None ∧
  match r with Ok _ => in_phase Ready t' | Err _ => is_Some (spoken (Transport_log t')) end.
Proof.
  intros Hc (ph&Hph&_) Hs. unfold connect_and_authenticate in Hc.
  unfold mbind, stm_bind, stm_get in Hc. destruct (pipe_open (Transport_pipe t)) as [pipe opened].
  unfold stm_modify in Hc. destruct opened; simpl in Hc; [|by injection Hc as <- <-; simpl; eauto].
  set (t1 := note Opened (set_pipe pipe t)) in *.
  assert (in_phase Fresh t1) as H1.
  { unfold in_phase. simpl. by rewrite spoken_snoc, Hph. }
  assert (Transport_session t1 = None ∧ is_Some (spoken (Transport_log t1))) as Hstop
    by (split; [done|by exists Fresh]).
  destruct (TransportEnv_secret env _) as [secret|]; simpl in Hc;
    [|by injection Hc as <- <-].
  destruct (TransportEnv_nonce env _) as [nonce|]; simpl in Hc;
    [|by injection Hc as <- <-].
  destruct (handshake_proof _ _ _ _) as [proof|]; simpl in Hc;
    [|by injection Hc as <- <-].
  apply deadline_cases in Hc as [[-> ->]|(r0&Hop&Hr)]; [done|].
  match type of Hop with context[exchange ?m []] =>
    destruct (exchange m [] t1) as [t2 r2] eqn:He;
    destruct (exchange_speaks Fresh Asked m [] t1 t2 r2 He H1 eq_refl) as [Hs2 Hsp] end.
  destruct r2 as [[rest reply]|e2]; simpl in Hop.
  - destruct Hsp as (t0&Ht0&Hl). unfold in_phase in *.
    assert (Transport_session t2 = None) as Hn2 by (by rewrite Hs2).
    destruct reply as [accepted|pong|response|code]; simpl in Hop;
      try (injection Hop as <- <-; split; [done|]; rewrite Hl, spoken_snoc, Ht0;
           destruct Hr as [->|[e ->]]; simpl; eauto; fail).
    destruct (HandshakeAccepted_protocol_version accepted =? PROTOCOL_VERSION)%Z eqn:Hv;
      injection Hop as <- <-; (split; [done|]); rewrite Hl, spoken_snoc, Ht0;
      destruct Hr as [->|[e ->]]; simpl; rewrite Hv; eauto.
  - injection Hop as <- <-. split; [by rewrite Hs2|]. by destruct Hr as [->|[e ->]].
Qed.
Lemma establish_speaks (t t' : transport) r :
  establish env t = (t', r) → proper t →
  match r with
  | Ok unread => in_phase Ready t' ∧ Transport_session t' = Some unread
  | Err _ => proper t'
  end.
Proof.
  unfold establish, mbind, stm_bind, stm_get. intros He Hp.
  destruct (Transport_session t) as [unread|] eqn:Hs.
  - injection He as <- <-. destruct Hp as (ph&Hph&Hr). rewrite Hs in Hr.
    split; [|done]. unfold in_phase. rewrite Hph. f_equal. by apply Hr.
  - destruct (connect_and_authenticate env t) as [t1 r1] eqn:Hc.
    destruct (connect_speaks _ _ _ Hc Hp Hs) as [Hs1 Hph].
    destruct r1 as [unread|e]; injection He as <- <-; [by split|].
    destruct Hph as [ph Hph]. exists ph. rewrite Hs1. split; [done|]. by intros [x [=]].
Qed.
Lemma ping_proper (t : transport) : proper t → proper (ping env t).1.
Proof.
  intros Hp. unfold ping. destruct (establish env t) as [t1 [unread|e]] eqn:He;
    apply establish_speaks in He; try done. destruct He as [H1 Hs1].
  unfold ping_session, mbind, stm_bind. rewrite asks_keeps.
  match goal with |- context[with_io_deadline ?d ?op t1] =>
    destruct (with_io_deadline d op t1) as [t2 r2] eqn:Hd end.
  assert (match r2 with Ok _ => in_phase Ready t2 | Err _ => is_Some (spoken (Transport_log t2)) end) as H2.
  { apply deadline_cases in Hd as [[-> ->]|(r0&Hop&Hr)]; [by exists Ready|].
    destruct (exchange ClientPing unread t1) as [t3 r3] eqn:Hx.
    destruct (exchange_speaks Ready Waiting _ _ _ _ _ Hx H1 eq_refl) as [_ Hsp].
    destruct r3 as [[rest reply]|e3]; simpl in Hop.
    - destruct Hsp as (t0&Ht0&Hl). unfold in_phase in *.
      assert (spoken (Transport_log t3) = Some Ready) as H3 by (by rewrite Hl, spoken_snoc, Ht0, <-(waiting_answered reply)).
      assert (t2 = t3) as -> by (unfold stm_throw, mret, stm_ret in Hop; by repeat case_match; simplify_eq/=).
      destruct r2; [done|by exists Ready].
    - injection Hop as <- <-. by destruct Hr as [->|[e ->]]. }
  destruct r2 as [[rest version]|e]; simpl.
  - by exists Ready.
  - destruct H2 as [ph H2]. by eapply proper_closed.
Qed.
Lemma command_proper name request (t : transport) :
  existsb (str_eqb name) MISSION_ALLOWED_COMMANDS = true →
  proper t → proper (command env name request t).1.
Proof.
  intros Hallowed Hp. unfold command. destruct (establish env t) as [t1 [unread|e]] eqn:He;
    apply establish_speaks in He; try done. destruct He as [H1 Hs1].
  match goal with |- context[with_io_deadline ?d ?op t1] =>
    destruct (with_io_deadline d op t1) as [t2 r2] eqn:Hd end.
  assert (match r2 with Ok _ => in_phase Ready t2 | Err _ => is_Some (spoken (Transport_log t2)) end) as H2.
  { apply deadline_cases in Hd as [[-> ->]|(r0&Hx&Hr)]; [by exists Ready|].
    assert (speak Ready (Wrote (ClientCommand {| CommandRequest_command := name;
      CommandRequest_request := request |})) = Some Waiting) as Hw
      by (unfold speak; cbn [CommandRequest_command]; by rewrite Hallowed).
    destruct (exchange_speaks Ready Waiting _ _ _ _ _ Hx H1 Hw) as [_ Hsp].
    destruct r0 as [[rest reply]|e3].
    - destruct Hsp as (t0&Ht0&Hl). unfold in_phase in *.
      assert (spoken (Transport_log t2) = Some Ready) as H3 by (by rewrite Hl, spoken_snoc, Ht0, <-(waiting_answered reply)).
      destruct r2; [done|by exists Ready].
    - by destruct Hr as [->|[e ->]]. }
  destruct r2 as [[rest reply]|e]; simpl.
  - by exists Ready.
  - destruct H2 as [ph H2]. destruct e; by eapply proper_closed.
Qed.
Lemma start_proper (t : transport) : proper t → proper (start_packaged env t).1.
Proof.
  intros Hp. unfold start_packaged, mbind, stm_bind, stm_get, asks, stm_lift, stm_throw, stm_modify.
  assert (proper (set_child true (note Launched t))) as Hl.
  { destruct Hp as (ph&Hph&Hr). exists ph. simpl. by rewrite spoken_snoc, Hph. }
  repeat (case_match; simplify_eq/=; try done).
Qed.
Lemma ping_until_proper attempts : ∀ t : transport,
  proper t → proper (ping_until_available attempts t).1.
Proof.
  induction attempts as [|attempts IH]; intros t Hp; cbn [ping_until_available];
    apply ping_proper in Hp; change (ping env t) with (transport_ping t) in Hp;
    destruct (transport_ping t) as [t1 r]; [done|].
  destruct (unavailable r); [by apply IH|done].
Qed.

(** C13: the desktop keeps to the protocol, whatever the other end and the
    deadlines do: every connection it opens starts with a handshake, it sends
    nothing more until that is accepted with the right version, then one
    request at a time, each answered before the next; a session whose answer
    did not come is never used again, so a late answer cannot be taken for
    another's; and no mission command outside the list of allowed ones is
    ever sent. *)
Theorem desktop_keeps_protocol pipe data_dir calls :
  is_Some (spoken (Transport_log (Bridge_transport
    (bridge_run (SupervisorBridge_new (transport_new pipe data_dir)) calls)))).
Proof.
  assert (proper (Bridge_transport
    (bridge_run (SupervisorBridge_new (transport_new pipe data_dir)) calls))) as (ph&Hph&_);
    [|by exists ph].
  induction calls as [|call calls IH] using rev_ind.
  { exists Idle. split; [done|]. by intros [x [=]]. }
  unfold bridge_run in *. rewrite foldl_app. simpl.
  destruct (foldl bridge_do _ calls) as [t launched]. simpl in IH.
  destruct call as [| |name request].
  - unfold bridge_do, supervisor_status. cbn [Bridge_transport Bridge_launch_attempted].
    pose proof (ping_proper t IH) as H1. change (ping env t) with (transport_ping t) in H1.
    destruct (transport_ping t) as [t1 first]. destruct (unavailable first && negb launched); [|done].
    pose proof (start_proper t1 H1) as H2.
    change (start_packaged env t1) with (transport_start_packaged t1) in H2.
    destruct (transport_start_packaged t1) as [t2 [u|e]]; [|done].
    pose proof (ping_until_proper 9 t2 H2) as H3.
    destruct (ping_until_available 9 t2) as [t3 r]. done.
  - unfold bridge_do, ping_supervisor. cbn [Bridge_transport].
    pose proof (ping_proper t IH) as H1. change (ping env t) with (transport_ping t) in H1.
    by destruct (transport_ping t) as [t1 first].
  - unfold bridge_do, dispatch_mission. destruct (negb _) eqn:Hallowed; [done|].
    apply negb_false_iff in Hallowed. cbn [Bridge_transport].
    pose proof (command_proper name request t Hallowed IH) as H1.
    change (command env name request t) with (transport_command name request t) in H1.
    by destruct (transport_command name request t) as [t1 r].
Qed.
End spoken.

(** ** The desktop and the supervisor together

    The server of [Ipc] as the other end of the pipe: it answers every frame
    before it waits for the next; a new connection ends the previous one.
    [gets_through n] says whether the [n]-th attempt to open the pipe or to
    write a frame to it succeeds. *)
Section together.
Context `{SerdeJson, HmacSha256, !SerdeText ClientMessage, !SerdeText ServerMessage}.
Context {W : Type} `{!IpcDispatcher W}.
Context (supervisor_version : string) (envs : nat → ConnectionEnv) (gets_through : nat → bool).

Record ServedPipe := {
  Served_connection : Connection (W := W);
  Served_open : bool;
  Served_accepted : nat;
  Served_tries : nat;
}.
#[local] Instance served_pipe : Pipe ServedPipe := {
  pipe_open s :=
    if gets_through (Served_tries s) then ({|
      Served_connection := connection_new [] (Connection_verifier (Served_connection s))
                             (Connection_world (Served_connection s));
      Served_open := true; Served_accepted := S (Served_accepted s);
      Served_tries := S (Served_tries s) |}, true)
    else ({|
      Served_connection := Served_connection s; Served_open := Served_open s;
      Served_accepted := Served_accepted s; Served_tries := S (Served_tries s) |}, false);
  pipe_write bytes s :=
    if Served_open s && gets_through (Served_tries s) then
      let c := Served_connection s in
      let '(c', go) := serve_turn supervisor_version (envs (Served_accepted s))
                         (set_reader (Connection_reader c ++ bytes) c) in
      ({| Served_connection := c'; Served_open := go; Served_accepted := Served_accepted s;
          Served_tries := S (Served_tries s) |},
       Some (drop (length (Connection_writer c)) (Connection_writer c')))
    else ({|
      Served_connection := Served_connection s; Served_open := false;
      Served_accepted := Served_accepted s; Served_tries := S (Served_tries s) |}, None);
}.
(** A server that has not been connected to. *)
Definition served_new (v : HandshakeVerifier) (w : W) : ServedPipe := {|
  Served_connection := connection_new [] v w; Served_open := false; Served_accepted := 0;
  Served_tries := 0 |}.

Context (env : TransportEnv).
#[local] Instance served_transport : SupervisorTransport (LocalSupervisorTransport (P := ServedPipe)) :=
  local_transport env.
Abbreviation transport := (LocalSupervisorTransport (P := ServedPipe)).
Definition transport_world (t : transport) : W := Connection_world (Served_connection (Transport_pipe t)).
Definition bridge_world (b : SupervisorBridge transport) : W := transport_world (Bridge_transport b).

(** An answer survives its text, except that an optional [null] is read back
    as nothing; the caller of a command then sees a failure. *)
Definition as_read (m : ServerMessage) : ServerMessage :=
  match m with
  | ServerCommand r => ServerCommand {|
      CommandResponse_command := CommandResponse_command r;
      CommandResponse_result := v ← CommandResponse_result r;
        if bool_decide (v = Value_Null) then None else Some v;
      CommandResponse_error := CommandResponse_error r |}
  | _ => m
  end.
Definition seen (answer : result string Value) : result string Value :=
  match answer with
  | Ok v => if bool_decide (v = Value_Null) then Err "SUPERVISOR_COMMAND_FAILED" else Ok v
  | Err e => Err e
  end.
Context `{!SerdeTextLaws ClientMessage}.
Context (server_text_back : ∀ (m : ServerMessage) s, to_text m = Some s →
  utf8_valid (str_bytes s) = true ∧ from_text s = Some (as_read m)).

Lemma write_frame_at {M} `{SerdeText M} (m : M) frame w :
  write_frame m [] = (frame, Ok tt) → write_frame m w = (w ++ frame, Ok tt).
Proof.
  unfold write_frame. destruct (to_text m); [|done]. destruct (_ <? _)%Z; [done|]. by intros [= <-].
Qed.
Lemma write_frame_frame {M} `{SerdeText M} (m : M) w w' :
  write_frame m w = (w', Ok tt) → ∃ frame, write_frame m [] = (frame, Ok tt) ∧ w' = w ++ frame.
Proof.
  unfold write_frame. destruct (to_text m); [|done]. destruct (_ <? _)%Z; [done|]. intros [= <-].
  by eexists.
Qed.
Lemma reply_read m frame : write_frame m [] = (frame, Ok tt) → read_frame frame = ([], Ok (as_read m)).
Proof.
  intros Hw. destruct (write_frame_read_back m (as_read m) [] frame) as (f&Hf&_&Hr); [|done|].
  - intros s. apply server_text_back.
  - simpl in *. subst f. by rewrite <-(app_nil_r frame), Hr.
Qed.
Lemma request_read (m : ClientMessage) frame : write_frame m [] = (frame, Ok tt) →
  read_frame frame = ([], Ok m).
Proof.
  intros Hw. destruct (write_frame_appends m [] frame Hw) as (f&Hf&_&Hr).
  simpl in Hf. subst f. by rewrite <-(app_nil_r frame), Hr.
Qed.
Lemma response_seen name answer :
  read_response name (as_read (command_response name answer)) = seen answer.
Proof.
  unfold read_response, str_eqb. destruct answer as [v|e]; simpl; rewrite String.eqb_refl; [|done].
  by destruct (bool_decide _).
Qed.

(** *** Whatever happens

    What became of a command whose caller gets [r]: it was not carried out, and
    the caller gets an error; or it was allowed and the dispatcher carried it
    out once, and the caller sees its answer, or one of two errors. *)
Definition in_doubt : list string := ["SUPERVISOR_COMMAND_TIMEOUT"; "SUPERVISOR_UNAVAILABLE"].
Definition refusals : list string :=
  ["COMMAND_NOT_ALLOWED"; "SUPERVISOR_HANDSHAKE_TIMEOUT"; "SUPERVISOR_AUTH_FAILED";
   "SUPERVISOR_PROTOCOL_ERROR"].
Definition fails_with (errors : list string) (r : result string Value) : Prop :=
  match r with Err e => e ∈ errors | Ok _ => False end.
Definition carried (name : string) (request : Value) (w : W) (r : result string Value) (w' : W) : Prop :=
  (w' = w ∧ fails_with (refusals ++ in_doubt) r) ∨
  (existsb (str_eqb name) MISSION_ALLOWED_COMMANDS = true ∧ ∃ beats answer,
    ipc_dispatch name request (Nat.iter (S beats) ipc_touch_ui w) = (w', answer) ∧
    (r = seen answer ∨ fails_with in_doubt r)).

(** What a message does to the world, and the answer the server managed to
    send. *)
Definition effect (m : ClientMessage) (w w' : W) (reply : option ServerMessage) : Prop :=
  match m with
  | ClientHandshake _ => w' = w
  | ClientPing => w' = w ∨ w' = ipc_touch_ui w
  | ClientCommand cmd =>
      (w' = w ∧ (reply = None ∨ ∃ code, reply = Some (ServerError code))) ∨
      ∃ beats response, run_command beats cmd w = (w', response) ∧ (reply = None ∨ reply = Some response)
  end.
Lemma effect_none m w : effect m w w None.
Proof. destruct m; simpl; [done|by left|]. left. split; [done|by left]. Qed.
Definition sends (c c' : Connection (W := W)) (reply : option ServerMessage) : Prop :=
  match reply with
  | None => Connection_writer c' = Connection_writer c
  | Some m => ∃ frame, write_frame m [] = (frame, Ok tt) ∧ Connection_writer c' = Connection_writer c ++ frame
  end.
Lemma send_sends e m (c c' : Connection (W := W)) go :
  send e m c = (c', go) →
  Connection_reader c' = Connection_reader c ∧ Connection_world c' = Connection_world c ∧
  ∃ reply, (reply = None ∨ reply = Some m) ∧ sends c c' reply.
Proof.
  unfold send. destruct (ConnectionEnv_write_fails _ _).
  { intros [= <- <-]. split_and!; try done. exists None. split; [by left|done]. }
  destruct (write_frame m (Connection_writer c)) as [writer [[]|err]] eqn:Hw; intros [= <- <-];
    (split; [done|]); (split; [done|]).
  - exists (Some m). split; [by right|]. apply write_frame_frame in Hw as (frame&Hf&->). by exists frame.
  - exists None. split; [by left|done].
Qed.
Lemma turn_effect e m bytes (c c' : Connection (W := W)) go :
  write_frame m [] = (bytes, Ok tt) → Connection_reader c = bytes →
  serve_turn supervisor_version e c = (c', go) →
  Connection_reader c' = [] ∧ ∃ reply, effect m (Connection_world c) (Connection_world c') reply ∧
    sends c c' reply.
Proof.
  intros Hm Hr. unfold serve_turn. rewrite Hr, (request_read m bytes Hm).
  assert (∀ code, send_error e code (set_reader [] c) = c' →
    Connection_reader c' = [] ∧ ∃ reply, effect m (Connection_world c) (Connection_world c') reply ∧
    sends c c' reply) as Herror.
  { intros code Hc. unfold send_error in Hc.
    destruct (send e (ServerError code) (set_reader [] c)) as [c1 go1] eqn:Hs. simpl in Hc. subst c1.
    apply send_sends in Hs as (Hr1&Hw1&reply&Hreply&Hsends). split; [done|]. exists reply.
    split; [|done]. simpl in Hw1. rewrite Hw1. destruct m; simpl; [done|by left|left].
    split; [done|]. destruct Hreply as [->| ->]; [by left|right; by exists code]. }
  unfold handle_message. cbn [set_reader Connection_authenticated Connection_verifier Connection_log
    Connection_world].
  destruct (Connection_authenticated c) as [version|], m as [h| |cmd];
    try (intros [= <- <-]; by eapply Herror).
  - intros Hs. apply send_sends in Hs as (Hr1&Hw1&reply&_&Hsends). split; [done|]. exists reply.
    split; [|done]. simpl. right. exact Hw1.
  - destruct (run_command _ cmd (Connection_world c)) as [w response] eqn:Hrun.
    intros Hs. apply send_sends in Hs as (Hr1&Hw1&reply&Hreply&Hsends). split; [done|].
    exists reply. split; [|done]. simpl in Hw1. rewrite Hw1. right. by eexists _, response.
  - destruct (verify_at _ h _ _) as [v' [accepted|code]].
    + intros Hs. apply send_sends in Hs as (Hr1&Hw1&reply&_&Hsends). split; [done|]. by exists reply.
    + destruct (send e (ServerError code) _) as [c1 go1] eqn:Hs. intros [= <- <-].
      apply send_sends in Hs as (Hr1&Hw1&reply&_&Hsends). split; [done|]. by exists reply.
Qed.

(** Between calls: no answer is left unread and the server waits. *)
Definition drained (t : transport) : Prop :=
  Served_open (Transport_pipe t) = true → Connection_reader (Served_connection (Transport_pipe t)) = [].
Definition at_rest (t : transport) : Prop :=
  match Transport_session t with Some unread => unread = [] ∧ drained t | None => True end.
Lemma exchange_effect m t t' r :
  drained t → exchange m [] t = (t', r) →
  drained t' ∧ Transport_session t' = Transport_session t ∧
  ∃ reply, effect m (transport_world t) (transport_world t') reply ∧
    match r with
    | Ok (unread, got) => unread = [] ∧ as_read <$> reply = Some got
    | Err e => e = BridgeUnavailable
    end.
Proof.
  intros Hd. unfold exchange. destruct (write_frame m []) as [bytes [[]|e]] eqn:Hm.
  2: { intros [= <- <-]. split; [done|]. split; [done|]. exists None. split; [apply effect_none|done]. }
  simpl. destruct (Served_open (Transport_pipe t)) eqn:Ho; simpl.
  2: { intros [= <- <-]. split; [done|]. split; [done|]. exists None. split; [apply effect_none|done]. }
  destruct (gets_through _).
  2: { intros [= <- <-]. split; [done|]. split; [done|]. exists None. split; [apply effect_none|done]. }
  destruct (serve_turn _ _ _) as [c' go] eqn:Hturn.
  eapply turn_effect in Hturn as (Hr&reply&Heff&Hsends); [|exact Hm|simpl; by rewrite Hd].
  simpl in Heff, Hsends |- *. unfold sends in Hsends. simpl in Hsends. destruct reply as [reply|].
  - destruct Hsends as (frame&Hf&Hw). rewrite Hw, drop_app_length, (reply_read _ _ Hf).
    intros [= <- <-]. split; [intros _; exact Hr|]. split; [done|]. by exists (Some reply).
  - rewrite Hsends, drop_all. simpl. intros [= <- <-].
    split; [intros _; exact Hr|]. split; [done|]. by exists None.
Qed.
Lemma deadline_outcome {S A} d (op : stm S BridgeError A) s s' r :
  with_io_deadline d op s = (s', r) →
  (s' = s ∧ r = Err BridgeUnavailable) ∨
  ∃ r0, op s = (s', r0) ∧ (r = r0 ∨ r = Err BridgeTimeout ∨ r = Err BridgeUnavailable).
Proof.
  unfold with_io_deadline. destruct (op s) as [s1 r1]. destruct d; intros [= <- <-]; eauto 8.
Qed.
Lemma connect_effect t t' r :
  connect_and_authenticate env t = (t', r) →
  transport_world t' = transport_world t ∧ Transport_session t' = Transport_session t ∧
  match r with Ok unread => unread = [] ∧ drained t' | Err _ => True end.
Proof.
  unfold connect_and_authenticate, mbind, stm_bind, stm_get, stm_modify. cbn [pipe_open served_pipe].
  destruct (gets_through _); simpl; [|by intros [= <- <-]].
  destruct (TransportEnv_secret env _) as [secret|]; simpl; [|by intros [= <- <-]].
  destruct (TransportEnv_nonce env _) as [nonce|]; simpl; [|by intros [= <- <-]].
  destruct (handshake_proof _ _ _ _) as [proof|]; simpl; [|by intros [= <- <-]].
  match goal with |- with_io_deadline _ _ ?x = _ → _ => set (t1 := x) end.
  assert (drained t1) as H1 by done.
  intros [[-> ->]|(r0&Hop&Hr)]%deadline_outcome; [done|].
  match type of Hop with context[exchange ?m [] t1] =>
    destruct (exchange m [] t1) as [t2 r2] eqn:He;
    destruct (exchange_effect m t1 t2 r2 H1 He) as (Hd&Hs&reply&Heff&Hgot) end.
  simpl in Heff. destruct r2 as [[unread got]|e2]; simpl in Hop.
  - destruct Hgot as [-> _].
    assert (t' = t2 ∧ match r0 with Ok unread => unread = [] | Err _ => True end) as [-> Hu]
      by (unfold stm_throw, mret, stm_ret in Hop; by repeat case_match; simplify_eq/=).
    split; [done|]. split; [done|]. by destruct Hr as [->|[->| ->]], r0.
  - injection Hop as <- <-. split; [done|]. split; [done|]. by destruct Hr as [->|[->| ->]].
Qed.
Lemma establish_effect t t' r :
  at_rest t → establish env t = (t', r) →
  transport_world t' = transport_world t ∧ at_rest t' ∧
  match r with Ok unread => unread = [] ∧ drained t' | Err _ => True end.
Proof.
  unfold at_rest, establish, mbind, stm_bind, stm_get.
  destruct (Transport_session t) as [unread|] eqn:Hs; intros Hrest He.
  - injection He as <- <-. by rewrite Hs.
  - destruct (connect_and_authenticate env t) as [t1 r1] eqn:Hc.
    apply connect_effect in Hc as (Hw&Hs1&Hr). destruct r1 as [unread|e]; injection He as <- <-; [done|].
    by rewrite Hs1, Hs.
Qed.
Lemma command_effect name request t :
  at_rest t → existsb (str_eqb name) MISSION_ALLOWED_COMMANDS = true →
  let '(t', r) := command env name request t in
  at_rest t' ∧ carried name request (transport_world t) r (transport_world t').
Proof.
  intros Hrest Hallowed. unfold command. destruct (establish env t) as [t1 [unread|e]] eqn:He;
    apply establish_effect in He as (Hw&Hrest1&Hr); try done.
  2: { split; [done|]. left. split; [done|]. by destruct e; simpl; set_solver. }
  destruct Hr as [-> Hd]. rewrite <-Hw.
  match goal with |- context[with_io_deadline ?d ?op t1] =>
    destruct (with_io_deadline d op t1) as [t2 r2] eqn:Hdl end.
  apply deadline_outcome in Hdl as [[-> ->]|(r0&Hx&Hr)].
  { split; [done|]. left. split; [done|]. simpl. set_solver. }
  destruct (exchange_effect _ _ _ _ Hd Hx) as (Hd2&_&reply&Heff&Hgot).
  assert (∀ e, e ∈ in_doubt → carried name request (transport_world t1) (Err e) (transport_world t2)) as Hdoubt.
  { intros e He. destruct Heff as [[-> _]|(beats&response&Hrun&_)]; [left|right].
    - split; [done|]. simpl. set_solver.
    - split; [done|]. unfold run_command in Hrun. simpl in Hrun.
      destruct (ipc_dispatch name request _) as [w' answer] eqn:Hdisp. injection Hrun as <- <-.
      exists beats, answer. split; [done|by right]. }
  destruct r2 as [[unread got]|e].
  - assert (r0 = Ok (unread, got)) as -> by (by destruct Hr as [->|[?|?]]).
    destruct Hgot as [-> Hgot]. split; [done|].
    destruct Heff as [[Hw2 Hreply]|(beats&response&Hrun&Hreply)].
    + left. split; [exact Hw2|]. destruct Hreply as [->|[code ->]]; [done|].
      injection Hgot as <-. simpl. set_solver.
    + right. split; [done|]. unfold run_command in Hrun. simpl in Hrun.
      destruct (ipc_dispatch name request _) as [w' answer] eqn:Hdisp. injection Hrun as Hw2 <-.
      exists beats, answer. split; [etrans; [exact Hdisp|by rewrite Hw2]|]. left. destruct Hreply as [->| ->]; [done|].
      injection Hgot as <-. apply response_seen.
  - assert (e = BridgeTimeout ∨ e = BridgeUnavailable) as He.
    { destruct Hr as [<-|[[= ->]|[= ->]]]; [right; exact Hgot|by left|by right]. }
    destruct He as [->| ->]; (split; [done|]); apply Hdoubt; set_solver.
Qed.
Lemma ping_effect t :
  at_rest t → at_rest (ping env t).1 ∧
  ∃ k, transport_world (ping env t).1 = Nat.iter k ipc_touch_ui (transport_world t).
Proof.
  intros Hrest. unfold ping. destruct (establish env t) as [t1 [unread|e]] eqn:He;
    apply establish_effect in He as (Hw&Hrest1&Hr); try done.
  2: { split; [done|]. by exists 0. }
  destruct Hr as [-> Hd]. rewrite <-Hw. unfold ping_session, mbind, stm_bind. rewrite asks_keeps.
  match goal with |- context[with_io_deadline ?d ?op t1] =>
    destruct (with_io_deadline d op t1) as [t2 r2] eqn:Hdl end.
  assert ((∃ k, transport_world t2 = Nat.iter k ipc_touch_ui (transport_world t1)) ∧
    match r2 with Ok (unread, _) => unread = [] ∧ drained t2 | Err _ => True end) as [Hk Hr2].
  { apply deadline_outcome in Hdl as [[-> ->]|(r0&Hop&Hr)]; [split; [by exists 0|done]|].
    destruct (exchange ClientPing [] t1) as [t3 r3] eqn:Hx.
    destruct (exchange_effect _ _ _ _ Hd Hx) as (Hd3&_&reply&Heff&Hgot).
    assert (t2 = t3 ∧ match r0 with Ok (unread, _) => unread = [] | Err _ => True end) as [-> Hu].
    { destruct r3 as [[unread got]|e3]; [|by injection Hop as <- <-]. destruct Hgot as [-> _].
      unfold stm_throw, mret, stm_ret in Hop. by repeat case_match; simplify_eq/=. }
    split; [|by destruct Hr as [->|[->| ->]], r0 as [[]|]].
    destruct Heff as [->| ->]; [by exists 0|by exists 1]. }
  by destruct r2 as [[unread version]|e].
Qed.
Lemma ping_until_effect attempts : ∀ t,
  at_rest t → at_rest (ping_until_available attempts t).1 ∧
  ∃ k, transport_world (ping_until_available attempts t).1 = Nat.iter k ipc_touch_ui (transport_world t).
Proof.
  induction attempts as [|attempts IH]; intros t Hrest; cbn [ping_until_available];
    apply ping_effect in Hrest as [H1 [k Hk]]; change (ping env t) with (transport_ping t) in *;
    destruct (transport_ping t) as [t1 r]; simpl in *; [split; [done|by exists k]|].
  destruct (unavailable r); [|split; [done|by exists k]].
  destruct (IH t1 H1) as [H2 [k2 Hk2]]. split; [done|]. exists (k2 + k). by rewrite Hk2, Hk, Nat.iter_add.
Qed.
Lemma start_effect t :
  at_rest t → at_rest (start_packaged env t).1 ∧
  transport_world (start_packaged env t).1 = transport_world t.
Proof.
  intros Hrest. unfold start_packaged, mbind, stm_bind, stm_get, asks, stm_lift, stm_throw, stm_modify.
  repeat (case_match; simplify_eq/=; try done).
Qed.
(** A call between two states of the bridge. *)
Definition call_effect (call : bridge_call) (b : SupervisorBridge transport) : Prop :=
  match call with
  | CallMission name request =>
      let '(b', r) := dispatch_mission name request b in
      carried name request (bridge_world b) r (bridge_world b')
  | CallPing => ∃ k, bridge_world (ping_supervisor b).1 = Nat.iter k ipc_touch_ui (bridge_world b)
  | CallStatus => ∃ k, bridge_world (supervisor_status b).1 = Nat.iter k ipc_touch_ui (bridge_world b)
  end.
Lemma bridge_do_effect call b :
  at_rest (Bridge_transport b) → at_rest (Bridge_transport (bridge_do b call)) ∧ call_effect call b.
Proof.
  destruct b as [t launched]. unfold bridge_world. destruct call as [| |name request]; cbn [Bridge_transport]; intros Hrest.
  - unfold call_effect, bridge_do, supervisor_status. cbn [Bridge_transport Bridge_launch_attempted].
    apply ping_effect in Hrest as [H1 [k Hk]]. change (ping env t) with (transport_ping t) in *.
    destruct (transport_ping t) as [t1 first]. simpl in H1, Hk. unfold bridge_world.
    destruct (unavailable first && negb launched); [|split; [done|by exists k]].
    apply start_effect in H1 as [H2 Hw2]. change (start_packaged env t1) with (transport_start_packaged t1) in *.
    destruct (transport_start_packaged t1) as [t2 [u|e]]; simpl in H2, Hw2;
      [|split; [done|exists k; etrans; [exact Hw2|exact Hk]]].
    apply (ping_until_effect 9) in H2 as [H3 [k3 Hk3]].
    destruct (ping_until_available 9 t2) as [t3 r]. split; [done|]. exists (k3 + k).
    etrans; [exact Hk3|]. by rewrite Hw2, Hk, Nat.iter_add.
  - unfold call_effect, bridge_do, ping_supervisor. cbn [Bridge_transport].
    apply ping_effect in Hrest as [H1 [k Hk]]. change (ping env t) with (transport_ping t) in *.
    destruct (transport_ping t) as [t1 first]. split; [done|by exists k].
  - unfold call_effect, bridge_do, dispatch_mission. destruct (existsb _ _) eqn:Hallowed; cbn [negb].
    + cbn [Bridge_transport]. pose proof (command_effect name request t Hrest Hallowed) as Hc.
      change (command env name request t) with (transport_command name request t) in Hc.
      by destruct (transport_command name request t) as [t1 r].
    + split; [done|]. left. split; [done|]. simpl. set_solver.
Qed.
Lemma bridge_run_rests v w data_dir calls :
  at_rest (Bridge_transport (bridge_run (SupervisorBridge_new (transport_new (served_new v w) data_dir)) calls)).
Proof.
  induction calls as [|call calls IH] using rev_ind; [done|].
  unfold bridge_run in *. rewrite foldl_app. by apply bridge_do_effect.
Qed.

(** *** When nothing disturbs them

    The commands one after the other, straight to the dispatcher; [pos] is the
    length of the server's log before each. *)
Fixpoint dispatched (n pos : nat) (requests : list (string * Value)) (w : W)
    : list (result string Value) * W :=
  match requests with
  | [] => ([], w)
  | (name, request) :: rest =>
      let w := Nat.iter (S (ConnectionEnv_heartbeats (envs n) pos)) ipc_touch_ui w in
      let '(w, answer) := ipc_dispatch name request w in
      let '(answers, w) := dispatched n (pos + 3) rest w in
      (answer :: answers, w)
  end.
(** The same through the bridge. *)
Fixpoint bridge_commands (requests : list (string * Value)) (b : SupervisorBridge transport)
    : list (result string Value) * SupervisorBridge transport :=
  match requests with
  | [] => ([], b)
  | (name, request) :: rest =>
      let '(b, answer) := dispatch_mission name request b in
      let '(answers, b) := bridge_commands rest b in
      (answer :: answers, b)
  end.
Definition fits {M} `{SerdeText M} (m : M) : Prop := (write_frame m []).2 = Ok tt.
Lemma fits_frame {M} `{SerdeText M} (m : M) : fits m → ∃ frame, write_frame m [] = (frame, Ok tt).
Proof. unfold fits. destruct (write_frame m []) as [frame [[]|e]]; [by exists frame|done]. Qed.
(** A request the desktop may send and that fits a frame. *)
Definition sendable (q : string * Value) : Prop :=
  existsb (str_eqb q.1) MISSION_ALLOWED_COMMANDS = true ∧
  fits (ClientCommand {| CommandRequest_command := q.1; CommandRequest_request := q.2 |}).
Definition desktop_handshake (nonce proof : list u8) : Handshake := {|
  Handshake_install_id := PRODUCT_INSTALL_ID; Handshake_protocol_versions := [PROTOCOL_VERSION];
  Handshake_nonce := nonce; Handshake_proof := proof |}.
Definition protocol_accepted : HandshakeAccepted :=
  {| HandshakeAccepted_protocol_version := PROTOCOL_VERSION |}.
(** No deadline passes, the pipe opens and carries every frame, both sides read
    the same secret, the desktop draws this nonce and makes this proof, and the
    handshake and its acceptance fit a frame. *)
Record undisturbed (secret nonce proof : list u8) : Prop := {
  in_time : ∀ n timeout, TransportEnv_deadline env n timeout = InTime;
  link_up : ∀ n, gets_through n = true;
  client_secret : ∀ n, TransportEnv_secret env n = Some secret;
  client_nonce : ∀ n, TransportEnv_nonce env n = Some nonce;
  server_secret : ∀ n, ConnectionEnv_secret (envs n) = Some secret;
  answers_written : ∀ n m, ConnectionEnv_write_fails (envs n) m = false;
  proof_made : handshake_proof secret PRODUCT_INSTALL_ID nonce [PROTOCOL_VERSION] = Some proof;
  handshake_fits : fits (ClientHandshake (desktop_handshake nonce proof));
  acceptance_fits : fits (ServerHandshakeAccepted protocol_accepted);
}.
(** The verifier expects this product and has room for this nonce. *)
Definition welcoming (nonce : list u8) (now : Z) (v : HandshakeVerifier) : Prop :=
  HandshakeVerifier_expected_install_id v = PRODUCT_INSTALL_ID ∧ length nonce = NONCE_BYTES ∧
  (nonce ∉ (pop_expired now (HandshakeVerifier_nonces v)).*1) ∧
  Z.of_nat (length (pop_expired now (HandshakeVerifier_nonces v))) ≠ MAX_CACHED_NONCES.

Section calm.
Context (secret nonce proof : list u8) (calm : undisturbed secret nonce proof).

Lemma send_frame n m (c : Connection (W := W)) frame :
  write_frame m [] = (frame, Ok tt) →
  send (envs n) m c = ({|
    Connection_reader := Connection_reader c; Connection_writer := Connection_writer c ++ frame;
    Connection_verifier := Connection_verifier c;
    Connection_authenticated := Connection_authenticated c;
    Connection_world := Connection_world c; Connection_log := Connection_log c ++ [Sent m] |}, true).
Proof.
  intros Hw. unfold send. by rewrite (answers_written _ _ _ calm), (write_frame_at _ _ _ Hw).
Qed.

(** One exchange when the server's turn sends one message. *)
Lemma exchange_served m reply bytes frame t s c c' n :
  write_frame m [] = (bytes, Ok tt) → write_frame reply [] = (frame, Ok tt) →
  Transport_pipe t = s → Served_open s = true → Served_connection s = c →
  Served_accepted s = n → Connection_reader c = [] →
  handle_message supervisor_version (envs n) m (set_reader [] c) = (c', true) →
  Connection_writer c' = Connection_writer c ++ frame →
  exchange m [] t = (note (Received (as_read reply)) (note (Wrote m) (set_pipe {|
    Served_connection := c'; Served_open := true; Served_accepted := n; Served_tries := S (Served_tries s) |} t)), Ok ([], as_read reply)).
Proof.
  intros Hm Hreply Hs Hopen Hc Hn Hr Hh Hw. unfold exchange. rewrite Hm. simpl.
  rewrite Hs, Hopen, (link_up _ _ _ calm), Hn, Hc, Hr. simpl. unfold serve_turn. cbn [set_reader Connection_reader].
  rewrite (request_read m bytes Hm).
  change (set_reader [] (set_reader bytes c)) with (set_reader [] c). rewrite Hh, Hw.
  rewrite drop_app_length. by rewrite (reply_read reply frame Hreply).
Qed.

(** An authenticated session at rest. *)
Definition linked (n pos : nat) (w : W) (b : SupervisorBridge transport) : Prop :=
  let t := Bridge_transport b in
  let c := Served_connection (Transport_pipe t) in
  Transport_session t = Some [] ∧ Served_open (Transport_pipe t) = true ∧
  Served_accepted (Transport_pipe t) = n ∧ Connection_authenticated c = Some PROTOCOL_VERSION ∧
  Connection_reader c = [] ∧ length (Connection_log c) = pos ∧ Connection_world c = w.

Lemma command_served n pos w name request b :
  linked n pos w b → existsb (str_eqb name) MISSION_ALLOWED_COMMANDS = true →
  fits (ClientCommand {| CommandRequest_command := name; CommandRequest_request := request |}) →
  let '(w', answer) := ipc_dispatch name request
    (Nat.iter (S (ConnectionEnv_heartbeats (envs n) pos)) ipc_touch_ui w) in
  fits (command_response name answer) →
  let '(b', r) := dispatch_mission name request b in
  r = seen answer ∧ linked n (pos + 3) w' b'.
Proof.
  intros (Hs&Ho&Hn&Ha&Hr&Hl&Hw) Hallowed [bytes Hm]%fits_frame.
  destruct (ipc_dispatch name request _) as [w' answer] eqn:Hd. intros [frame Hf]%fits_frame.
  unfold dispatch_mission. rewrite Hallowed. cbn [negb].
  unfold transport_command. cbn [served_transport local_transport]. unfold command, establish.
  unfold mbind, stm_bind, stm_get. rewrite Hs. cbn [mret stm_ret]. rewrite (in_time _ _ _ calm).
  unfold with_io_deadline.
  set (c := Served_connection (Transport_pipe (Bridge_transport b))) in *.
  set (m := ClientCommand _) in *.
  pose proof (send_frame n (command_response name answer) (set_world w' [Touched; Dispatched
    {| CommandRequest_command := name; CommandRequest_request := request |}] (set_reader [] c)) frame Hf) as Hh.
  match type of Hh with _ = (?x, true) => set (c' := x) in Hh end.
  rewrite (exchange_served m (command_response name answer) bytes frame (Bridge_transport b)
    (Transport_pipe (Bridge_transport b)) c c' n Hm Hf); try done.
  - split; [apply response_seen|].
    split_and!; try done. simpl. rewrite !length_app. simpl. lia.
  - unfold handle_message. cbn [set_reader Connection_authenticated Connection_log Connection_world].
    rewrite Ha. unfold run_command. cbn [CommandRequest_command CommandRequest_request m].
    rewrite Hl, Hw, Hd. exact Hh.
Qed.

Lemma commands_served requests : ∀ n pos w b,
  linked n pos w b →
  Forall sendable requests →
  Forall2 (λ q answer, fits (command_response q.1 answer)) requests (dispatched n pos requests w).1 →
  (bridge_commands requests b).1 = seen <$> (dispatched n pos requests w).1 ∧
  bridge_world (bridge_commands requests b).2 = (dispatched n pos requests w).2.
Proof.
  induction requests as [|[name request] requests IH]; intros n pos w b Hlink Hq Hd.
  { simpl. by destruct Hlink as (_&_&_&_&_&_&Hw). }
  apply list.Forall_cons in Hq as [[Hallowed Hfit] Hq]. cbn [dispatched bridge_commands] in *.
  pose proof (command_served n pos w name request b Hlink Hallowed Hfit) as Hc.
  destruct (ipc_dispatch name request _) as [w' answer].
  destruct (dispatched n (pos + 3) requests w') as [answers w2] eqn:Hrest.
  apply list.Forall2_cons in Hd as [Hd Hds]. specialize (Hc Hd).
  destruct (dispatch_mission name request b) as [b' r]. destruct Hc as [-> Hlink'].
  destruct (IH n (pos + 3) w' b' Hlink' Hq) as [IH1 IH2]; [by rewrite Hrest|].
  rewrite Hrest in IH1, IH2. destruct (bridge_commands requests b') as [as' b2].
  simpl in *. by rewrite IH1.
Qed.

(** *** Connecting *)
Lemma welcome n v :
  welcoming nonce (ConnectionEnv_now (envs n)) v →
  (verify_at (ConnectionEnv_secret (envs n)) (desktop_handshake nonce proof)
    (ConnectionEnv_now (envs n)) v).2 = Ok protocol_accepted.
Proof.
  intros (Hid&Hlen&Hfresh&Hroom). pose proof (proof_made _ _ _ calm) as Hproof. unfold verify_at. cbn [desktop_handshake Handshake_protocol_versions
    Handshake_install_id Handshake_nonce Handshake_proof].
  rewrite bool_decide_true by (by left). cbn [negb].
  rewrite bool_decide_false by (simpl; by intros []; rewrite Hid).
  rewrite Hlen. cbn [Nat.eqb negb NONCE_BYTES]. cbn [remove_expired HandshakeVerifier_nonces].
  assert (existsb (λ p : list u8 * Z, bool_decide (p.1 = nonce))
    (pop_expired (ConnectionEnv_now (envs n)) (HandshakeVerifier_nonces v)) = false) as ->.
  { apply not_true_is_false. intros (p&Hin&Hp)%existsb_exists. apply bool_decide_eq_true in Hp.
    apply Hfresh. rewrite <-Hp. apply list_elem_of_fmap. exists p. split; [done|].
    by apply list_elem_of_In. }
  rewrite (proj2 (Z.eqb_neq _ _)) by done. rewrite (server_secret _ _ _ calm). simpl.
  unfold handshake_proof in Hproof. destruct (hmac_sha256 secret) as [mac|]; [|done].
  injection Hproof as <-. by rewrite bool_decide_true.
Qed.
Lemma establish_served t :
  let s := Transport_pipe t in
  let n := S (Served_accepted s) in
  Transport_session t = None →
  welcoming nonce (ConnectionEnv_now (envs n)) (Connection_verifier (Served_connection s)) →
  ∃ t', establish env t = (t', Ok []) ∧
    ∀ launched, linked n 2 (Connection_world (Served_connection s))
      {| Bridge_transport := t'; Bridge_launch_attempted := launched |}.
Proof.
  intros s n Hsession Hwel. destruct (fits_frame _ (handshake_fits _ _ _ calm)) as [bytes Hm].
  destruct (fits_frame _ (acceptance_fits _ _ _ calm)) as [frame Hf].
  unfold establish, connect_and_authenticate, asks, mbind, stm_bind, stm_get, stm_lift, stm_modify.
  rewrite Hsession. cbn [pipe_open served_pipe]. rewrite (link_up _ _ _ calm). cbn [negb].
  rewrite (client_secret _ _ _ calm), (client_nonce _ _ _ calm). cbn [ok_or].
  rewrite (proof_made _ _ _ calm). cbn [ok_or]. rewrite (in_time _ _ _ calm). unfold with_io_deadline.
  set (c := connection_new [] (Connection_verifier (Served_connection s))
    (Connection_world (Served_connection s))).
  pose proof (welcome n _ Hwel) as Hv.
  destruct (verify_at _ _ _ _) as [v' answer] eqn:Hver. simpl in Hv. subst answer.
  pose proof (send_frame n (ServerHandshakeAccepted protocol_accepted)
    (set_verified v' (desktop_handshake nonce proof) (Ok protocol_accepted) (set_reader [] c)) frame Hf) as Hh.
  match type of Hh with _ = (?x, true) => set (c' := x) in Hh end.
  match goal with |- context[exchange ?m [] ?t1] =>
    rewrite (exchange_served m (ServerHandshakeAccepted protocol_accepted) bytes frame t1
      (Transport_pipe t1) c c' n Hm Hf) end; try done.
  - simpl. eexists. split; [done|]. intros launched. split_and!; try done.
  - unfold handle_message. cbn [set_reader Connection_authenticated Connection_verifier c connection_new].
    change {| Handshake_install_id := _; Handshake_protocol_versions := _; Handshake_nonce := _;
      Handshake_proof := _ |} with (desktop_handshake nonce proof). rewrite Hver. exact Hh.
Qed.

Lemma calm_commands requests v w data_dir :
  let b := SupervisorBridge_new (transport_new (served_new v w) data_dir) in
  welcoming nonce (ConnectionEnv_now (envs 1)) v →
  Forall sendable requests →
  Forall2 (λ q answer, fits (command_response q.1 answer)) requests (dispatched 1 2 requests w).1 →
  (bridge_commands requests b).1 = seen <$> (dispatched 1 2 requests w).1 ∧
  bridge_world (bridge_commands requests b).2 = (dispatched 1 2 requests w).2.
Proof.
  intros b Hwel Hq Hd. destruct requests as [|[name request] requests]; [done|].
  destruct (establish_served (Bridge_transport b)) as (t'&He&Hlink); try done.
  specialize (Hlink false). set (b' := {| Bridge_transport := t'; Bridge_launch_attempted := false |}) in *.
  assert (bridge_commands ((name, request) :: requests) b =
    bridge_commands ((name, request) :: requests) b') as ->.
  { cbn [bridge_commands]. unfold dispatch_mission. apply list.Forall_cons in Hq as [[Hallowed _] _].
    cbn [fst] in Hallowed. rewrite Hallowed. cbn [negb].
    assert (transport_command name request (Bridge_transport b) = transport_command name request t') as Hc.
    { unfold transport_command. cbn [served_transport local_transport]. unfold command. rewrite He.
      destruct Hlink as (Hs&_). unfold establish, mbind, stm_bind, stm_get. simpl in Hs. by rewrite Hs. }
    cbn [Bridge_transport b']. by rewrite Hc. }
  by apply commands_served.
Qed.
End calm.

(** C12: what the desktop's caller is told of a command, over a pipe to the
    supervisor's server.  Whatever deadlines pass, whatever is not carried by
    the pipe, is not answered or does not authenticate, after any calls: a
    command is carried out by the dispatcher at most once, during its call and
    only if it is on the list of allowed ones; a value the caller gets is the
    dispatcher's answer to this command, and so is any error but six: four of
    them mean it was not carried out, and after a timeout or an unavailable
    supervisor it may or may not have been.  A ping and a status only show signs
    of life.  When nothing disturbs them ([undisturbed]), the verifier has room
    for the desktop's nonce, and requests and answers fit a frame, the allowed
    commands are all carried out, once and in the order given, and each caller
    sees the dispatcher's answer (of which [null] is seen as a failure). *)
Theorem bridge_refines_dispatcher v w data_dir :
  let b := SupervisorBridge_new (transport_new (served_new v w) data_dir) in
  (∀ calls call, call_effect call (bridge_run b calls)) ∧
  (∀ secret nonce proof requests, undisturbed secret nonce proof →
    welcoming nonce (ConnectionEnv_now (envs 1)) v → Forall sendable requests →
    Forall2 (λ q answer, fits (command_response q.1 answer)) requests (dispatched 1 2 requests w).1 →
    (bridge_commands requests b).1 = seen <$> (dispatched 1 2 requests w).1 ∧
    bridge_world (bridge_commands requests b).2 = (dispatched 1 2 requests w).2).
Proof.
  split.
  - intros calls call. apply bridge_do_effect, bridge_run_rests.
  - intros secret nonce proof requests Hcalm. by apply calm_commands with secret proof.
Qed.
End together.

(** The desktop allows exactly the commands the service knows. *)
(** The commands the window is given, as they are registered. *)
Definition invoke_handler : list string :=
  ["supervisor_status"; "ping_supervisor"; "create_mission"; "update_mission_contract";
   "launch_route"; "subscribe_mission"; "request_safe_pause"; "request_force_termination";
   "force_terminate"; "resolve_approval"; "build_recovery_package"; "verify_recovery";
   "resolve_recovery"; "review_memory"; "handoff_provider"; "provider_capabilities";
   "storage_preview"; "export_preview"; "diagnostic_preview"; "archive_mission"; "delete_mission";
   "materialize_export"].
(** Of those, all but the first two are the ones that may be sent. *)
Lemma window_commands_allowed : drop 2 invoke_handler = MISSION_ALLOWED_COMMANDS.
Proof. reflexivity. Qed.
Lemma desktop_commands_known : MISSION_ALLOWED_COMMANDS = MISSION_COMMANDS.
Proof. reflexivity. Qed.

(** ** A desktop and a server that records commands *)
Module DesktopExamples.
Import Json CodedJson IpcExamples.

Definition server_code (m : ServerMessage) : Z + (string * Z) + (string * option json * option string) + Z :=
  match m with
  | ServerHandshakeAccepted a => inl (inl (inl (HandshakeAccepted_protocol_version a)))
  | ServerPong p => inl (inl (inr (Pong_supervisor_version p, Pong_protocol_version p)))
  | ServerCommand r => inl (inr (CommandResponse_command r, CommandResponse_result r, CommandResponse_error r))
  | ServerError code => inr (match code with AuthFailed => 0 | ReplayedNonce => 1
      | CodeFrameTooLarge => 2 | IncompatibleProtocol => 3 | InvalidFrame => 4 end)%Z
  end.
Definition server_decode (x : Z + (string * Z) + (string * option json * option string) + Z) : ServerMessage :=
  match x with
  | inl (inl (inl v)) => ServerHandshakeAccepted {| HandshakeAccepted_protocol_version := v |}
  | inl (inl (inr (s, v))) => ServerPong {| Pong_supervisor_version := s; Pong_protocol_version := v |}
  | inl (inr (c, r, e)) => ServerCommand {| CommandResponse_command := c; CommandResponse_result := r;
      CommandResponse_error := e |}
  | inr code => ServerError (if code =? 0 then AuthFailed else if code =? 1 then ReplayedNonce
      else if code =? 2 then CodeFrameTooLarge else if code =? 3 then IncompatibleProtocol
      else InvalidFrame)%Z
  end.
#[local] Instance server_text' : SerdeText ServerMessage := {
  to_text m := code_text (server_code m);
  from_text s := as_read <$> (server_decode <$> code_read s);
}.
Lemma server_text_read m s : to_text m = Some s →
  utf8_valid (str_bytes s) = true ∧ from_text s = Some (as_read m).
Proof.
  intros [= <-]. split; [apply RecoveryPackageExamples.bits_text_utf8|]. simpl. unfold code_read.
  rewrite text_bits_text. simpl. rewrite decode_encode. simpl. by destruct m as [[]|[]|[]|[]].
Qed.
(** A dispatcher that records what it is given and says how much there is. *)
#[local] Instance counter : IpcDispatcher (list string) := {
  ipc_dispatch command _ w := (w ++ [command], Ok (JNum (Z.of_nat (length w))));
  ipc_touch_ui w := w;
}.
Definition desk_env : TransportEnv := {|
  TransportEnv_secret _ := Some [9%Z]; TransportEnv_nonce _ := Some ipc_nonce;
  TransportEnv_deadline _ _ := InTime; TransportEnv_child_exited _ := Ok false;
  TransportEnv_packaged _ := true; TransportEnv_spawn _ := true |}.
Definition desk_requests : list (string * Value) :=
  [("create_mission", JNull); ("launch_route", JStr "r")].
Definition desk_proof : list u8 := [9%Z] ++ update_proof PRODUCT_INSTALL_ID ipc_nonce [1%Z].

Definition always_through (n : nat) : bool := true.
(** The two commands carried out; and one whose deadline passes: it is carried
    out too, and its caller is told of a timeout. *)
Lemma bridge_refines_dispatcher_witness :
  let b := SupervisorBridge_new (transport_new
    (served_new (W := list string) (HandshakeVerifier_new PRODUCT_INSTALL_ID) []) None) in
  let out := bridge_commands "1" (λ _, ipc_env 0) always_through desk_env desk_requests b in
  out.1 = [Ok (JNum 0); Ok (JNum 1)] ∧ bridge_world out.2 = ["create_mission"; "launch_route"].
Proof.
  destruct (bridge_refines_dispatcher (W := list string) "1" (λ _, ipc_env 0) always_through desk_env
    server_text_read (HandshakeVerifier_new PRODUCT_INSTALL_ID) [] None) as [_ Hcalm].
  destruct (Hcalm [9%Z] ipc_nonce desk_proof desk_requests) as [Ha Hw].
  - split; try reflexivity; vm_compute; reflexivity.
  - split; [reflexivity|]. split; [reflexivity|]. split; [apply not_elem_of_nil|discriminate].
  - constructor; [split; vm_compute; reflexivity|]. constructor; [split; vm_compute; reflexivity|constructor].
  - constructor; [vm_compute; reflexivity|]. constructor; [vm_compute; reflexivity|constructor].
  - split; [etrans; [exact Ha|vm_compute; reflexivity]|etrans; [exact Hw|vm_compute; reflexivity]].
Defined.
Definition hurried_env : TransportEnv := {|
  TransportEnv_secret _ := Some [9%Z]; TransportEnv_nonce _ := Some ipc_nonce;
  TransportEnv_deadline n _ := if (n =? 3)%nat then Fired else InTime;
  TransportEnv_child_exited _ := Ok false; TransportEnv_packaged _ := true; TransportEnv_spawn _ := true |}.
Example timed_out_command_carried_out :
  let b := SupervisorBridge_new (transport_new
    (served_new (W := list string) (HandshakeVerifier_new PRODUCT_INSTALL_ID) []) None) in
  let out := bridge_commands "1" (λ _, ipc_env 0) always_through hurried_env [("create_mission", JNull)] b in
  out.1 = [Err "SUPERVISOR_COMMAND_TIMEOUT"] ∧ bridge_world out.2 = ["create_mission"].
Proof. vm_compute. split; reflexivity. Qed.
End DesktopExamples.
