(* ===== verification/UpdateGuard.v ===== *)
(** * The update guard ([apps/desktop/src-tauri/src/update_guard.rs])

    Whether a downloaded update may replace the installed application. *)

From S2P Require Import Prelude Text Extern Frame.
From Stdlib Require Import ZArith Lia.
From stdpp Require Import prelude strings sorting.

Record UpdateManifest := {
  UpdateManifest_channel : string;
  UpdateManifest_version : string;
  UpdateManifest_artifact_sha256 : string;
  UpdateManifest_signer_fingerprint : string;
  UpdateManifest_signature_scheme : string;
  UpdateManifest_signature : string;
  UpdateManifest_schema_version : u64;
  UpdateManifest_min_schema_version : u64;
}.
Inductive UpdateError :=
| Unsigned | UntrustedSigner | InvalidSignature | ArtifactHashMismatch | ChannelMismatch
| Downgrade | InvalidVersion | SchemaIncompatible | UpdateActiveMission | BackupMissing.
#[export] Instance UpdateError_eq_dec : EqDecision UpdateError.
Proof. solve_decision. Defined.
Definition UpdateError_fmt (e : UpdateError) : string :=
  match e with
  | Unsigned => "UPDATE_UNSIGNED"
  | UntrustedSigner => "UPDATE_UNTRUSTED_SIGNER"
  | InvalidSignature => "UPDATE_SIGNATURE_INVALID"
  | ArtifactHashMismatch => "UPDATE_ARTIFACT_HASH_MISMATCH"
  | ChannelMismatch => "UPDATE_CHANNEL_MISMATCH"
  | Downgrade => "UPDATE_DOWNGRADE"
  | InvalidVersion => "UPDATE_VERSION_INVALID"
  | SchemaIncompatible => "UPDATE_SCHEMA_INCOMPATIBLE"
  | UpdateActiveMission => "UPDATE_ACTIVE_MISSION"
  | BackupMissing => "UPDATE_BACKUP_MISSING"
  end.
Record UpdateGuard := {
  UpdateGuard_channel : string;
  UpdateGuard_current_version : string;
  UpdateGuard_schema_version : u64;
  UpdateGuard_trusted_signer : string;
  UpdateGuard_allow_fixture_signatures : bool;
}.
Definition UpdateGuard_new (channel current_version : string) (schema_version : u64)
    (trusted_signer : string) : UpdateGuard := {|
  UpdateGuard_channel := channel; UpdateGuard_current_version := current_version;
  UpdateGuard_schema_version := schema_version; UpdateGuard_trusted_signer := trusted_signer;
  UpdateGuard_allow_fixture_signatures := false |}.

(** ** Versions *)
Definition version : Type := Z * Z * Z.
Definition parse_version (value : string) : result UpdateError version :=
  match split_on 46 [] value with
  | [major; minor; patch] =>
      major ← ok_or InvalidVersion (parse_uint u64_max major);
      minor ← ok_or InvalidVersion (parse_uint u64_max minor);
      patch ← ok_or InvalidVersion (parse_uint u64_max patch);
      Ok (major, minor, patch)
  | _ => Err InvalidVersion
  end.
(** The order of tuples. *)
Definition version_cmp (a b : version) : comparison :=
  match (a.1.1 ?= b.1.1)%Z with
  | Eq => match (a.1.2 ?= b.1.2)%Z with Eq => (a.2 ?= b.2)%Z | o => o end
  | o => o
  end.
Definition compare_versions (left right : string) : result UpdateError comparison :=
  l ← parse_version left;
  r ← parse_version right;
  Ok (version_cmp l r).

(** The fold looks at every byte whatever the first ones are. *)
Definition constant_time_eq (left right : list u8) : bool :=
  if negb (length left =? length right)%nat then false else
  (foldl (λ difference p, Z.lor difference (Z.lxor p.1 p.2)) 0 (zip left right) =? 0)%Z.

Section guard.
Context `{Sha256}.

Definition artifact_digest (artifact : list u8) : string := sha256_hex (bytes_str artifact).
Definition detached_signature (signer_fingerprint artifact_sha256 : string) : string :=
  sha256_hex ("mission-control-update-v1:" +:+ signer_fingerprint +:+ ":" +:+ artifact_sha256).

Definition validate_common (self : UpdateGuard) (manifest : UpdateManifest) (artifact : list u8)
    (active_mission : bool) : result UpdateError unit :=
  if negb (str_eqb (UpdateManifest_channel manifest) (UpdateGuard_channel self))
  then Err ChannelMismatch else
  order ← compare_versions (UpdateManifest_version manifest) (UpdateGuard_current_version self);
  if negb (bool_decide (order = Gt)) then Err Downgrade else
  if (UpdateManifest_schema_version manifest =? 0)%Z
     || (UpdateGuard_schema_version self <? UpdateManifest_min_schema_version manifest)%Z
     || (UpdateManifest_schema_version manifest <? UpdateManifest_min_schema_version manifest)%Z
  then Err SchemaIncompatible else
  if negb (str_eqb (UpdateManifest_signer_fingerprint manifest) (UpdateGuard_trusted_signer self))
  then Err UntrustedSigner else
  if str_eqb (str_trim (UpdateManifest_signature manifest)) "" then Err Unsigned else
  if negb (constant_time_eq (str_bytes (UpdateManifest_artifact_sha256 manifest))
                            (str_bytes (artifact_digest artifact)))
  then Err ArtifactHashMismatch else
  if active_mission then Err UpdateActiveMission else Ok tt.
Definition validate (self : UpdateGuard) (manifest : UpdateManifest) (artifact : list u8)
    (active_mission : bool) : result UpdateError unit :=
  _ ← validate_common self manifest artifact active_mission;
  if negb (str_eqb (UpdateManifest_signature_scheme manifest) "fixture-sha256-v1")
     || negb (UpdateGuard_allow_fixture_signatures self)
  then Err InvalidSignature else
  let expected_signature :=
    detached_signature (UpdateGuard_trusted_signer self) (artifact_digest artifact) in
  if negb (constant_time_eq (str_bytes (UpdateManifest_signature manifest))
                            (str_bytes expected_signature))
  then Err InvalidSignature else Ok tt.
Definition validate_verified (self : UpdateGuard) (manifest : UpdateManifest) (artifact : list u8)
    (active_mission signature_verified : bool) : result UpdateError unit :=
  _ ← validate_common self manifest artifact active_mission;
  if negb (str_eqb (UpdateManifest_signature_scheme manifest) "tauri-updater-v1")
     || negb signature_verified
  then Err InvalidSignature else Ok tt.
(** [backup_is_file] is what the file system says of the backup. *)
Definition require_backup (backup_is_file : result string bool) : result UpdateError unit :=
  match backup_is_file with Ok true => Ok tt | _ => Err BackupMissing end.
End guard.

(** ** Lemmas *)
(** The comparison is equality. *)
Lemma lor_fold_zero l : ∀ acc : Z,
  foldl (λ difference p, Z.lor difference (Z.lxor p.1 p.2)) acc l = 0%Z ↔
  acc = 0%Z ∧ Forall (λ p : Z * Z, p.1 = p.2) l.
Proof.
  induction l as [|[a b] l IH]; intros acc; simpl.
  - split; [by intros ->|by intros [-> _]].
  - rewrite IH, Z.lor_eq_0_iff, Z.lxor_eq_0_iff, list.Forall_cons. simpl. tauto.
Qed.
Lemma constant_time_eq_spec left right : constant_time_eq left right = true ↔ left = right.
Proof.
  unfold constant_time_eq. destruct (Nat.eqb_spec (length left) (length right)) as [Hl|Hl]; simpl.
  - rewrite Z.eqb_eq, lor_fold_zero. split.
    + intros [_ Hf]. revert right Hl Hf. induction left as [|a left IH]; intros [|b right] Hl Hf; try done.
      simpl in *. apply list.Forall_cons in Hf as [Hab Hf]. simpl in Hab. subst b. f_equal. apply IH; [lia|done].
    + intros ->. split; [done|]. clear Hl. induction right; constructor; done.
  - split; [done|]. by intros ->.
Qed.
Lemma str_bytes_eq a b : constant_time_eq (str_bytes a) (str_bytes b) = true ↔ a = b.
Proof.
  rewrite constant_time_eq_spec. split; [|by intros ->]. intros Hb.
  by rewrite <-(bytes_str_bytes a), Hb, bytes_str_bytes.
Qed.

(** The order of versions. *)
Definition version_gt (a b : version) : Prop :=
  (b.1.1 < a.1.1 ∨ (b.1.1 = a.1.1 ∧ (b.1.2 < a.1.2 ∨ (b.1.2 = a.1.2 ∧ b.2 < a.2))))%Z.
Lemma version_cmp_gt a b : version_cmp a b = Gt ↔ version_gt a b.
Proof.
  unfold version_cmp, version_gt. destruct a as [[a1 a2] a3], b as [[b1 b2] b3]. simpl.
  destruct (Z.compare_spec a1 b1); [|split; [done|lia]|split; [lia|done]].
  destruct (Z.compare_spec a2 b2); [|split; [done|lia]|split; [lia|done]].
  destruct (Z.compare_spec a3 b3); (split; [done || lia|lia || done]).
Qed.
#[export] Instance version_gt_trans : Transitive version_gt.
Proof. intros [[]] [[]] [[]]. unfold version_gt. simpl. lia. Qed.
#[export] Instance version_gt_irrefl : Irreflexive version_gt.
Proof. intros [[]]. unfold version_gt, complement. simpl. lia. Qed.

Section guard_laws.
Context `{Sha256}.

Definition newer (a b : string) : Prop :=
  ∃ va vb, parse_version a = Ok va ∧ parse_version b = Ok vb ∧ version_gt va vb.
(** What the manifest, the artifact and the installation have to be like. *)
Definition acceptable (g : UpdateGuard) (m : UpdateManifest) (artifact : list u8) : Prop :=
  UpdateManifest_channel m = UpdateGuard_channel g ∧
  newer (UpdateManifest_version m) (UpdateGuard_current_version g) ∧
  (UpdateManifest_schema_version m ≠ 0 ∧
   UpdateManifest_min_schema_version m ≤ UpdateGuard_schema_version g ∧
   UpdateManifest_min_schema_version m ≤ UpdateManifest_schema_version m)%Z ∧
  UpdateManifest_signer_fingerprint m = UpdateGuard_trusted_signer g ∧
  str_trim (UpdateManifest_signature m) ≠ "" ∧
  UpdateManifest_artifact_sha256 m = artifact_digest artifact.

Lemma compare_newer a b : compare_versions a b = Ok Gt ↔ newer a b.
Proof.
  unfold compare_versions, newer. destruct (parse_version a) as [va|e]; simpl; [|naive_solver].
  destruct (parse_version b) as [vb|e]; simpl; [|naive_solver]. split.
  - intros [= Hc]. exists va, vb. by rewrite <-version_cmp_gt.
  - intros (?&?&[= <-]&[= <-]&Hg%version_cmp_gt). by rewrite Hg.
Qed.
Lemma validate_common_ok g m artifact active :
  validate_common g m artifact active = Ok tt ↔ acceptable g m artifact ∧ active = false.
Proof.
  unfold validate_common, acceptable. rewrite <-compare_newer, <-(str_bytes_eq _ (artifact_digest _)).
  destruct (String.eqb_spec (UpdateManifest_channel m) (UpdateGuard_channel g)) as [Hc|Hc];
    unfold str_eqb; [rewrite Hc, String.eqb_refl|rewrite (proj2 (String.eqb_neq _ _) Hc)]; simpl; [|naive_solver].
  destruct (compare_versions _ _) as [order|e]; simpl; [|naive_solver].
  destruct (bool_decide (order = Gt)) eqn:Ho; guards; simpl; [|naive_solver].
  destruct (_ || _ || _) eqn:Hs;
    [rewrite !orb_true_iff, Z.eqb_eq, !Z.ltb_lt in Hs; split; [done|]; intros ((_&_&?&_)&_); exfalso; lia|guards].
  destruct (String.eqb_spec (UpdateManifest_signer_fingerprint m) (UpdateGuard_trusted_signer g)) as [Hf|Hf];
    simpl; [|naive_solver].
  destruct (String.eqb_spec (str_trim (UpdateManifest_signature m)) "") as [Hb|Hb]; simpl; [naive_solver|].
  destruct (constant_time_eq _ _); simpl; [|naive_solver].
  destruct active; [naive_solver|]. split; [intros _|done]. subst order. split_and!; try done; lia.
Qed.
Lemma validate_verified_ok g m artifact active verified :
  validate_verified g m artifact active verified = Ok tt ↔
    acceptable g m artifact ∧ active = false ∧ verified = true ∧
    UpdateManifest_signature_scheme m = "tauri-updater-v1".
Proof.
  unfold validate_verified. destruct (validate_common g m artifact active) as [[]|e] eqn:Hv; simpl.
  - apply validate_common_ok in Hv as [Ha ->]. unfold str_eqb.
    destruct (String.eqb_spec (UpdateManifest_signature_scheme m) "tauri-updater-v1"), verified;
      simpl; naive_solver.
  - split; [done|]. intros (Ha&Hact&_).
    assert (validate_common g m artifact active = Ok tt) as Hok by (by apply validate_common_ok).
    congruence.
Qed.

(** C19: an update is accepted exactly when it is for the installed channel,
    strictly newer by its three version numbers, compatible with the
    installed schema, from the trusted signer, signed and of the promised
    digest, while no mission is active and after the updater verified the
    signature; a guard made for production accepts nothing else, in
    particular no signature that is only a hash. *)
Theorem update_accepted_exactly g m artifact active verified :
  (validate_verified g m artifact active verified = Ok tt ↔
    acceptable g m artifact ∧ active = false ∧ verified = true ∧
    UpdateManifest_signature_scheme m = "tauri-updater-v1") ∧
  (UpdateGuard_allow_fixture_signatures g = false → is_ok (validate g m artifact active) = false).
Proof.
  split; [apply validate_verified_ok|].
  intros Hf. unfold validate. rewrite Hf. destruct (validate_common g m artifact active) as [[]|e]; simpl; [|done].
  by rewrite orb_true_r.
Qed.

(** Installing an accepted update makes it the installed version. *)
Definition install (m : UpdateManifest) (g : UpdateGuard) : UpdateGuard := {|
  UpdateGuard_channel := UpdateGuard_channel g;
  UpdateGuard_current_version := UpdateManifest_version m;
  UpdateGuard_schema_version := UpdateManifest_schema_version m;
  UpdateGuard_trusted_signer := UpdateGuard_trusted_signer g;
  UpdateGuard_allow_fixture_signatures := UpdateGuard_allow_fixture_signatures g |}.
(** The versions installed one after the other, the latest first. *)
Definition offer (s : UpdateGuard * list string) (u : UpdateManifest * list u8 * bool * bool)
    : UpdateGuard * list string :=
  let '(m, artifact, active, verified) := u in
  if is_ok (validate_verified s.1 m artifact active verified)
  then (install m s.1, UpdateManifest_version m :: s.2) else s.
Definition installed (g : UpdateGuard) (offers : list (UpdateManifest * list u8 * bool * bool))
    : list string :=
  (foldl offer (g, [UpdateGuard_current_version g]) offers).2.
#[local] Instance newer_trans : Transitive newer.
Proof.
  intros a b c (va&vb&Ha&Hb&Hab) (vb'&vc&Hb'&Hc&Hbc). rewrite Hb in Hb'. injection Hb' as <-.
  exists va, vc. split_and!; [done|done|by etrans].
Qed.
(** Updates never roll back: whatever manifests are offered in whatever
    order, every version that gets installed is newer than all those before
    it, so no earlier version, signed as it may be, comes back. *)
Theorem updates_never_roll_back g offers : StronglySorted newer (installed g offers).
Proof.
  unfold installed.
  assert (let s := foldl offer (g, [UpdateGuard_current_version g]) offers in
    StronglySorted newer s.2 ∧ head s.2 = Some (UpdateGuard_current_version s.1)) as [Hs _]; [|done].
  induction offers as [|[[[m artifact] active] verified] offers IH] using rev_ind.
  { split; [repeat constructor|done]. }
  rewrite foldl_app. cbn [foldl]. destruct (foldl offer _ offers) as [g1 h]. unfold offer. cbn [fst snd] in *.
  destruct IH as [Hh Hd].
  destruct (validate_verified g1 m artifact active verified) as [[]|e] eqn:Hv; simpl; [|done].
  split; [|done]. apply validate_verified_ok in Hv as ((_&Hn&_)&_).
  destruct h as [|v h]; [done|]. injection Hd as ->. constructor; [done|].
  apply StronglySorted_inv in Hh as [_ Hh]. constructor; [done|].
  eapply Forall_impl; [exact Hh|]. intros w Hw. by etrans.
Qed.
End guard_laws.
