(* ===== verification/ClaudeSession.v ===== *)
(** * A running Claude agent ([crates/adapter-claude/src/process.rs])

    [ClaudeAdapter::start] launches the command line tool and spawns a task
    that, until the run is over, handles one control message or one line of
    its output at a time.  What the reader of the child's output answers
    (a line, the end, an error) is given, as is what the operating system
    answers to launching; event identifiers come from [fresh], by the number
    of events emitted before. *)

From S2P Require Import Prelude Extern Ids Event AdapterCore Redaction Ledger RecoveryPackage ServiceData Service.
From S2P Require Import Text Frame ServiceExamples Normalize AppServer CodexSession.
From Stdlib Require Import ZArith Lia.
From stdpp Require Import prelude gmap strings.

(** ** Launching *)
Record ClaudeAdapterOptions := {
  ClaudeAdapterOptions_executable : string;
  ClaudeAdapterOptions_launcher_args : list string;
}.
Definition ClaudeAdapterOptions_new (executable : string) : ClaudeAdapterOptions := {|
  ClaudeAdapterOptions_executable := executable; ClaudeAdapterOptions_launcher_args := [] |}.
Definition ClaudeAdapterOptions_powershell (script : string) : ClaudeAdapterOptions := {|
  ClaudeAdapterOptions_executable := "powershell.exe";
  ClaudeAdapterOptions_launcher_args :=
    ["-NoProfile"; "-ExecutionPolicy"; "Bypass"; "-File"; script] |}.
Definition claude_args (options : ClaudeAdapterOptions) : list string :=
  ClaudeAdapterOptions_launcher_args options ++ ["--output-format"; "stream-json"; "--verbose"].

Definition inherited_names : list string :=
  ["SystemRoot"; "SystemDrive"; "ComSpec"; "PATH"; "TEMP"; "TMP"].
(** The environment of the child: cleared, two variables of the mission, the
    inherited names that are set, and the approved ones, each overriding. *)
Definition claude_environment (parent : gmap string string) (run_id : string)
    (approved : list (string * string)) : gmap string string :=
  let own := <["MISSION_AGENT_RUN_ID" := run_id]> (<["MISSION_PROVIDER" := "claude"]> ∅) in
  let inherited := foldl (λ env name,
    match parent !! name with Some value => <[name := value]> env | None => env end)
    own inherited_names in
  foldl (λ env p, <[p.1 := p.2]> env) inherited approved.

(** ** The version probe

    [output] is what running the tool with [--version] gives: a timeout, a
    failure to run it, or its exit code and its output. *)
Inductive ProbeOutput :=
| ProbeTimeout | ProbeIo (error : string) | ProbeExited (success : bool) (status stdout : string).
Definition AdapterError_display (e : AdapterError) : string :=
  match e with
  | Unavailable message => "adapter unavailable: " +:+ message
  | AdapterProtocol message => "adapter protocol error: " +:+ message
  | AdapterTimeout => "adapter operation timed out"
  | AlreadyPaused => "adapter is already paused"
  | AlreadyTerminated => "adapter is already terminated"
  | Unsupported => "adapter operation is unsupported"
  end.
Definition probe_version (output : ProbeOutput) : result AdapterError string :=
  match output with
  | ProbeTimeout => Err AdapterTimeout
  | ProbeIo error => Err (Unavailable error)
  | ProbeExited success status stdout =>
      if negb success then Err (Unavailable ("Claude version probe exited with " +:+ status)) else
      let version := str_trim stdout in
      if str_eqb version "" then Err (Unavailable "Claude version probe returned no version")
      else Ok (default "" (head (str_lines version)))
  end.
Definition claude_unavailable_report (reason : string) : AgentCapabilityReport := {|
  AgentCapabilityReport_provider := Claude; AgentCapabilityReport_agent := "claude";
  AgentCapabilityReport_version := None; AgentCapabilityReport_install_state := Missing;
  AgentCapabilityReport_capability := {|
    Capability_structured_events := false; Capability_resume := false;
    Capability_approval := false; Capability_safe_pause := false;
    Capability_terminal_fallback := false |};
  AgentCapabilityReport_unavailable_reason := Some reason;
  AgentCapabilityReport_executable_hash := None;
  AgentCapabilityReport_configuration_source := None |}.
Definition claude_probe (output : ProbeOutput) : AgentCapabilityReport :=
  match probe_version output with
  | Ok version => {|
      AgentCapabilityReport_provider := Claude; AgentCapabilityReport_agent := "claude";
      AgentCapabilityReport_version := Some version; AgentCapabilityReport_install_state := Installed;
      AgentCapabilityReport_capability := {|
        Capability_structured_events := true; Capability_resume := false;
        Capability_approval := true; Capability_safe_pause := true;
        Capability_terminal_fallback := true |};
      AgentCapabilityReport_unavailable_reason := None;
      AgentCapabilityReport_executable_hash := None;
      AgentCapabilityReport_configuration_source := Some "claude-cli" |}
  | Err error => claude_unavailable_report (AdapterError_display error)
  end.

(** ** The run *)
Section claude.
Context `{SerdeJson, !JsonParse, !DisplayFmt ClaudeParseError}.
Context (fresh : nat → EventId).

(** What a launched child was started with. *)
Record ClaudeLaunch := {
  ClaudeLaunch_program : string;
  ClaudeLaunch_args : list string;
  ClaudeLaunch_cwd : string;
  ClaudeLaunch_env : gmap string string;
}.
(** What is done to the child, in order. *)
Inductive claude_effect :=
| WroteStdin (bytes : list u8) | TerminatedJob | KilledChild | AwaitedChild | Unregistered.
(** [start] on the table of runs: [spawned] and [job] are what the system
    answers to launching the child and to owning it with a job; a child that
    cannot be owned is killed, and nothing else is done to it before its task
    runs.  (The pipe of its output was asked for, so it is there to take.) *)
Definition claude_start (options : ClaudeAdapterOptions) (parent : gmap string string)
    (run_id : string) (spawned job : result string unit) (request : StartAgentRequest)
    : stm (gmap string Channel * list claude_effect) AdapterError ClaudeLaunch := λ '(runs, done),
  match validate_start_request request with Err e => (runs, done, Err e) | Ok _ =>
  match spawned with Err e => (runs, done, Err (Unavailable e)) | Ok _ =>
  match job with
  | Err e => (runs, done ++ [KilledChild],
              Err (Unavailable ("owned process job unavailable: " +:+ e)))
  | Ok _ => (runs_insert run_id runs, done, Ok {|
      ClaudeLaunch_program := ClaudeAdapterOptions_executable options;
      ClaudeLaunch_args := claude_args options;
      ClaudeLaunch_cwd := StartAgentRequest_route_workspace request;
      ClaudeLaunch_env := claude_environment parent run_id
        (StartAgentRequest_approved_environment request) |})
  end end end.

Record ClaudeRun := {
  ClaudeRun_id : string;
  ClaudeRun_emitted : list AgentEvent;
  ClaudeRun_effects : list claude_effect;
  ClaudeRun_over : bool;
}.
Definition ClaudeRun_new (run_id : string) : ClaudeRun := {|
  ClaudeRun_id := run_id; ClaudeRun_emitted := []; ClaudeRun_effects := []; ClaudeRun_over := false |}.
Definition claude_emit (event : AgentEvent) (s : ClaudeRun) : ClaudeRun := {|
  ClaudeRun_id := ClaudeRun_id s; ClaudeRun_emitted := ClaudeRun_emitted s ++ [event];
  ClaudeRun_effects := ClaudeRun_effects s; ClaudeRun_over := ClaudeRun_over s |}.
Definition claude_effects (effects : list claude_effect) (s : ClaudeRun) : ClaudeRun := {|
  ClaudeRun_id := ClaudeRun_id s; ClaudeRun_emitted := ClaudeRun_emitted s;
  ClaudeRun_effects := ClaudeRun_effects s ++ effects; ClaudeRun_over := ClaudeRun_over s |}.
(** After the loop: the job is terminated, the child killed and awaited, and
    the run removed from the table. *)
Definition claude_end (s : ClaudeRun) : ClaudeRun := {|
  ClaudeRun_id := ClaudeRun_id s; ClaudeRun_emitted := ClaudeRun_emitted s;
  ClaudeRun_effects :=
    ClaudeRun_effects s ++ [TerminatedJob; KilledChild; AwaitedChild; Unregistered];
  ClaudeRun_over := true |}.
Definition claude_notice (event_id : EventId) (run_id : string) (kind : EventKind)
    (payload : Value) (requires_safe_pause : bool) : AgentEvent := {|
  AgentEvent_event_id := event_id; AgentEvent_agent_run_id := Some run_id;
  AgentEvent_event_kind := kind; AgentEvent_payload := payload;
  AgentEvent_requires_safe_pause := requires_safe_pause; AgentEvent_raw_evidence := None |}.
Definition with_run_id (run_id : string) (e : AgentEvent) : AgentEvent := {|
  AgentEvent_event_id := AgentEvent_event_id e; AgentEvent_agent_run_id := Some run_id;
  AgentEvent_event_kind := AgentEvent_event_kind e; AgentEvent_payload := AgentEvent_payload e;
  AgentEvent_requires_safe_pause := AgentEvent_requires_safe_pause e;
  AgentEvent_raw_evidence := AgentEvent_raw_evidence e |}.

Definition claude_control (control : option AgentControl) (s : ClaudeRun) : ClaudeRun :=
  match control with
  | Some (ControlSafePause _) =>
      claude_emit (claude_notice (fresh (length (ClaudeRun_emitted s))) (ClaudeRun_id s)
        PauseRequested (json_object [("provider", Value_String "claude");
                                     ("reason", Value_String "safe pause requested")]) false)
        (claude_effects [WroteStdin [3%Z]] s)
  | Some ControlTerminate | None =>
      claude_end (claude_effects [TerminatedJob; KilledChild] s)
  | Some (RespondToServerRequest _ _) => s
  end.
Definition claude_line (line : result string (option string)) (s : ClaudeRun) : ClaudeRun :=
  let event_id := fresh (length (ClaudeRun_emitted s)) in
  match line with
  | Ok (Some line) =>
      let normalized := claude_normalize_line_lossless event_id line in
      let s := claude_emit (with_run_id (ClaudeRun_id s) (ClaudeNormalizedEvent_event normalized)) s in
      if ClaudeNormalizedEvent_terminal normalized then claude_end s else s
  | Ok None =>
      claude_end (claude_emit (claude_notice event_id (ClaudeRun_id s)
        (UnknownKind "adapter.stdout_eof") (json_object [("provider", Value_String "claude");
          ("reason", Value_String "stdout_eof")]) true) s)
  | Err error =>
      claude_end (claude_emit (claude_notice event_id (ClaudeRun_id s)
        (UnknownKind "adapter.protocol_error") (json_object [("provider", Value_String "claude");
          ("error", Value_String error)]) true) s)
  end.
(** One turn of [tokio::select!]: either branch may be ready first. *)
Inductive claude_branch :=
| ClaudeControl (control : option AgentControl)
| ClaudeRead (line : result string (option string)).
Definition claude_step (s : ClaudeRun) (b : claude_branch) : ClaudeRun :=
  if ClaudeRun_over s then s else
  match b with
  | ClaudeControl control => claude_control control s
  | ClaudeRead line => claude_line line s
  end.
Definition claude_run (branches : list claude_branch) (s : ClaudeRun) : ClaudeRun :=
  foldl claude_step s branches.

(** ** The run, read from its input

    What a branch makes the run say, whether it ends it, and the branches up
    to the first that does. *)
Definition says (run_id : string) (event_id : EventId) (b : claude_branch) : option AgentEvent :=
  match b with
  | ClaudeControl (Some (ControlSafePause _)) =>
      Some (claude_notice event_id run_id PauseRequested
        (json_object [("provider", Value_String "claude");
                      ("reason", Value_String "safe pause requested")]) false)
  | ClaudeControl _ => None
  | ClaudeRead (Ok (Some line)) => Some (with_run_id run_id
      (ClaudeNormalizedEvent_event (claude_normalize_line_lossless event_id line)))
  | ClaudeRead (Ok None) => Some (claude_notice event_id run_id
      (UnknownKind "adapter.stdout_eof") (json_object [("provider", Value_String "claude");
        ("reason", Value_String "stdout_eof")]) true)
  | ClaudeRead (Err error) => Some (claude_notice event_id run_id
      (UnknownKind "adapter.protocol_error") (json_object [("provider", Value_String "claude");
        ("error", Value_String error)]) true)
  end.
Definition ends (event_id : EventId) (b : claude_branch) : bool :=
  match b with
  | ClaudeControl (Some (ControlSafePause _ | RespondToServerRequest _ _)) => false
  | ClaudeControl _ => true
  | ClaudeRead (Ok (Some line)) =>
      ClaudeNormalizedEvent_terminal (claude_normalize_line_lossless event_id line)
  | ClaudeRead _ => true
  end.
Definition writes (b : claude_branch) : list claude_effect :=
  match b with
  | ClaudeControl (Some (ControlSafePause _)) => [WroteStdin [3%Z]]
  | ClaudeControl (Some ControlTerminate | None) => [TerminatedJob; KilledChild]
  | _ => []
  end.
(** Events, effects, and whether the run is over; [n] events came before. *)
Fixpoint transcript (run_id : string) (n : nat) (branches : list claude_branch)
    : list AgentEvent * list claude_effect * bool :=
  match branches with
  | [] => ([], [], false)
  | b :: rest =>
      let said := option_list (says run_id (fresh n) b) in
      if ends (fresh n) b
      then (said, writes b ++ [TerminatedJob; KilledChild; AwaitedChild; Unregistered], true)
      else let '(events, effects, over) := transcript run_id (n + length said) rest in
           (said ++ events, writes b ++ effects, over)
  end.

Lemma claude_run_over branches s : ClaudeRun_over s = true → claude_run branches s = s.
Proof.
  intros Ho. induction branches as [|b branches IH]; [done|]. unfold claude_run in *. simpl.
  unfold claude_step at 2. by rewrite Ho.
Qed.
Lemma claude_step_says s b :
  ClaudeRun_over s = false →
  let n := fresh (length (ClaudeRun_emitted s)) in
  claude_step s b = {|
    ClaudeRun_id := ClaudeRun_id s;
    ClaudeRun_emitted := ClaudeRun_emitted s ++ option_list (says (ClaudeRun_id s) n b);
    ClaudeRun_effects := ClaudeRun_effects s ++ writes b ++
      (if ends n b then [TerminatedJob; KilledChild; AwaitedChild; Unregistered] else []);
    ClaudeRun_over := ends n b |}.
Proof.
  intros Ho n. unfold claude_step. rewrite Ho. destruct s as [id emitted effects over]. simpl in *. subst over.
  destruct b as [[[reason| |id' decision]|]|[[line|]|error]]; unfold claude_control, claude_line, claude_end,
    claude_effects, claude_emit; cbn; rewrite ?app_nil_r, <-?app_assoc; try done.
  by destruct (ClaudeNormalizedEvent_terminal _); simpl; rewrite ?app_nil_r.
Qed.
(** The loop is the transcript of its input. *)
Lemma claude_run_transcript branches : ∀ s,
  ClaudeRun_over s = false →
  let '(events, effects, over) :=
    transcript (ClaudeRun_id s) (length (ClaudeRun_emitted s)) branches in
  claude_run branches s = {|
    ClaudeRun_id := ClaudeRun_id s; ClaudeRun_emitted := ClaudeRun_emitted s ++ events;
    ClaudeRun_effects := ClaudeRun_effects s ++ effects; ClaudeRun_over := over |}.
Proof.
  induction branches as [|b branches IH]; intros s Ho.
  { simpl. rewrite !app_nil_r. destruct s. simpl in *. by subst. }
  cbn [transcript]. change (claude_run (b :: branches) s) with (claude_run branches (claude_step s b)).
  rewrite claude_step_says by done. destruct (ends (fresh (length (ClaudeRun_emitted s))) b).
  - by rewrite claude_run_over.
  - match goal with |- context[claude_run branches ?s'] => specialize (IH s' eq_refl) end.
    simpl in IH. rewrite length_app in IH.
    destruct (transcript _ _ branches) as [[events effects] over]. rewrite IH.
    by rewrite app_nil_r, <-!app_assoc.
Qed.

Definition cleanup : list claude_effect := [TerminatedJob; KilledChild; AwaitedChild; Unregistered].
Definition stops (b : claude_branch) : bool :=
  match b with ClaudeControl (Some ControlTerminate | None) => true | _ => false end.
(** An event after which the supervisor pauses the route, or the result. *)
Definition decisive (e : AgentEvent) : Prop :=
  AgentEvent_requires_safe_pause e = true ∨ AgentEvent_event_kind e = EvidenceRecorded.
Lemma terminal_decisive event_id line :
  ClaudeNormalizedEvent_terminal (claude_normalize_line_lossless event_id line) = true →
  decisive (ClaudeNormalizedEvent_event (claude_normalize_line_lossless event_id line)).
Proof.
  unfold claude_normalize_line_lossless. destruct (parse_stream_line line) as [native|e]; [|done].
  unfold claude_normalize, claude_classify, normalize_system, normalize_assistant, normalize_user,
    normalize_stream_event, decisive.
  repeat case_match; simplify_eq/=; try done; intros _; by right.
Qed.
Lemma ends_decisive run_id event_id b :
  ends event_id b = true → stops b = false →
  ∃ e, says run_id event_id b = Some e ∧ decisive e.
Proof.
  destruct b as [[[reason| |id' decision]|]|[[line|]|error]]; simpl; try done; intros He _;
    eexists; (split; [done|]); try (by left).
  apply terminal_decisive in He. destruct He as [He|He]; [by left|by right].
Qed.
Lemma writes_harmless b : (Unregistered ∉ writes b) ∧ ∀ bytes, WroteStdin bytes ∈ writes b → bytes = [3%Z].
Proof. destruct b as [[[]|]|]; simpl; set_solver. Qed.
Lemma says_run_id run_id event_id b e :
  says run_id event_id b = Some e → AgentEvent_agent_run_id e = Some run_id.
Proof. destruct b as [[[reason| |id' decision]|]|[[line|]|error]]; simpl; try done; by intros [= <-]. Qed.

(** C23: a Claude run never ends silently and always cleans up.  Whatever
    arrives in whatever order, every event carries the run's identifier; the
    run is taken off the table exactly when it is over, after its job was
    terminated and its child killed and awaited; and it ends only because it
    was told to, or with an event that makes the supervisor pause the route
    or is the agent's result. *)
Theorem claude_run_ends_clean run_id branches :
  let s := claude_run branches (ClaudeRun_new run_id) in
  Forall (λ e, AgentEvent_agent_run_id e = Some run_id) (ClaudeRun_emitted s) ∧
  (if ClaudeRun_over s
   then ∃ before, ClaudeRun_effects s = before ++ cleanup ∧ (Unregistered ∉ before) ∧
     (existsb stops branches = true ∨
      ∃ e, last (ClaudeRun_emitted s) = Some e ∧ decisive e)
   else Unregistered ∉ ClaudeRun_effects s).
Proof.
  pose proof (claude_run_transcript branches (ClaudeRun_new run_id) eq_refl) as Ht. simpl in Ht.
  destruct (transcript run_id 0 branches) as [[events effects] over] eqn:Hr. rewrite Ht. simpl.
  clear Ht. revert Hr. generalize 0 as n. revert events effects over.
  induction branches as [|b branches IH]; intros events effects over n; cbn [transcript].
  { intros [= <- <- <-]. split; [done|]. set_solver. }
  assert (Forall (λ e, AgentEvent_agent_run_id e = Some run_id)
    (option_list (says run_id (fresh n) b))) as Hid.
  { destruct (says run_id (fresh n) b) as [e|] eqn:Hs; [|done]. constructor; [|done].
    by eapply says_run_id. }
  destruct (writes_harmless b) as [Hu _]. destruct (ends (fresh n) b) eqn:He.
  - intros [= <- <- <-]. split; [done|]. exists (writes b). split_and!; [done|done|].
    cbn [existsb]. destruct (stops b) eqn:Hstop; [by left|]. right.
    destruct (ends_decisive run_id (fresh n) b He Hstop) as (e&->&Hdec). by exists e.
  - destruct (transcript _ _ branches) as [[es fs] o] eqn:Hrest. intros [= <- <- <-].
    destruct (IH _ _ _ _ Hrest) as [IH1 IH2]. split; [by apply Forall_app|].
    destruct o; [|set_solver]. destruct IH2 as (before&->&Hb&Hend).
    exists (writes b ++ before). rewrite <-app_assoc. split_and!; [done|set_solver|].
    cbn [existsb]. destruct Hend as [->|(e&Hl&Hdec)]; [left; apply orb_true_r|right].
    exists e. by rewrite last_app, Hl.
Qed.
(** A start that fails registers no run and leaves no child behind: a child
    was launched exactly when it is killed again. *)
Lemma claude_start_failed options parent run_id spawned job request runs error s' :
  claude_start options parent run_id spawned job request (runs, []) = (s', Err error) →
  s'.1 = runs ∧
  (validate_start_request request = Ok tt ∧ spawned = Ok tt ↔ s'.2 = [KilledChild]).
Proof.
  unfold claude_start. destruct (validate_start_request request) as [[]|e] eqn:Hv.
  2: { intros [= <- _]. naive_solver. }
  destruct spawned as [[]|e]; [destruct job as [[]|e]|]; intros [= <- _]; naive_solver.
Qed.
(** A Claude agent is never told its goal, nor an answer.  How it is
    launched depends on the request's workspace and approved environment
    only, not on the goal, the model or whether the route is read-only; all
    that is ever written to it is the interrupt byte of a pause; and an
    answer to one of its requests changes nothing. *)
Theorem claude_goal_never_sent options parent run_id request request' runs branches :
  validate_start_request request = Ok tt → validate_start_request request' = Ok tt →
  StartAgentRequest_route_workspace request = StartAgentRequest_route_workspace request' →
  StartAgentRequest_approved_environment request = StartAgentRequest_approved_environment request' →
  claude_start options parent run_id (Ok tt) (Ok tt) request (runs, []) =
    claude_start options parent run_id (Ok tt) (Ok tt) request' (runs, []) ∧
  (∀ bytes, WroteStdin bytes ∈ ClaudeRun_effects (claude_run branches (ClaudeRun_new run_id)) →
    bytes = [3%Z]) ∧
  ∀ id decision s, claude_step s (ClaudeControl (Some (RespondToServerRequest id decision))) = s.
Proof.
  intros Hv Hv' Hw He. split_and!.
  - unfold claude_start. by rewrite Hv, Hv', Hw, He.
  - pose proof (claude_run_transcript branches (ClaudeRun_new run_id) eq_refl) as Ht. simpl in Ht.
    destruct (transcript run_id 0 branches) as [[events effects] over] eqn:Hr. rewrite Ht. simpl.
    clear Ht. revert Hr. generalize 0 as n. revert events effects over.
    induction branches as [|b branches IH]; intros events effects over n; cbn [transcript].
    { intros [= <- <- <-]. set_solver. }
    destruct (writes_harmless b) as [_ Hb]. destruct (ends (fresh n) b).
    + intros [= <- <- <-] bytes. set_solver.
    + destruct (transcript _ _ branches) as [[es fs] o] eqn:Hrest. intros [= <- <- <-] bytes.
      rewrite elem_of_app. intros [?|?]; [by apply Hb|by eapply IH].
  - intros id decision s. unfold claude_step. by destruct (ClaudeRun_over s).
Qed.
End claude.

(** Nothing of the supervisor's environment reaches the agent but six names. *)
Lemma foldl_approved (approved : list (string * string)) : ∀ (env : gmap string string) name value,
  foldl (λ env p, <[p.1 := p.2]> env) env approved !! name = Some value →
  (name, value) ∈ approved ∨ ((name ∉ approved.*1) ∧ env !! name = Some value).
Proof.
  induction approved as [|[k v] approved IH]; intros env name value; simpl; [set_solver|].
  intros [Hin|[Hn Hl]]%IH; [set_solver|]. simpl in Hl.
  destruct (decide (k = name)) as [->|Hne].
  - rewrite lookup_insert_eq in Hl. injection Hl as ->. set_solver.
  - rewrite lookup_insert_ne in Hl by done. set_solver.
Qed.
Lemma foldl_inherited (parent : gmap string string) names : ∀ (env : gmap string string) name value,
  foldl (λ env name, match parent !! name with Some value => <[name := value]> env | None => env end)
    env names !! name = Some value →
  (name ∈ names ∧ parent !! name = Some value) ∨ env !! name = Some value.
Proof.
  induction names as [|k names IH]; intros env name value; simpl; [by right|].
  intros [[Hin Hp]|Hl]%IH; [set_solver|]. destruct (parent !! k) as [v|] eqn:Hk; [|by right].
  destruct (decide (k = name)) as [->|Hne].
  - rewrite lookup_insert_eq in Hl. injection Hl as ->. left. split; [by left|done].
  - rewrite lookup_insert_ne in Hl by done. by right.
Qed.
(** What the child finds in its environment: the approved variables, the six
    inherited names, and the two that identify the run. *)
Lemma claude_environment_allowlisted parent run_id approved name value :
  claude_environment parent run_id approved !! name = Some value →
  (name, value) ∈ approved ∨ (name ∈ inherited_names ∧ parent !! name = Some value) ∨
  (name, value) ∈ [("MISSION_PROVIDER", "claude"); ("MISSION_AGENT_RUN_ID", run_id)].
Proof.
  unfold claude_environment. intros [Ha|[_ Hl]]%foldl_approved; [by left|right].
  apply foldl_inherited in Hl as [Hp|Hl]; [by left|right].
  apply lookup_insert_Some in Hl as [[<- <-]|[_ Hl]]; [set_solver|].
  apply lookup_insert_Some in Hl as [[<- <-]|[_ Hl]]; [set_solver|]. by rewrite lookup_empty in Hl.
Qed.

Module ClaudeExamples.
Import Json RedactionExamples RecoveryPackageExamples CodedJson NormalizeExamples.
#[local] Instance claude_parse_display : DisplayFmt ClaudeParseError := λ _, "bad line".

Definition claude_request (goal : option string) : StartAgentRequest := {|
  StartAgentRequest_provider := Claude; StartAgentRequest_mission_id := 1%N;
  StartAgentRequest_route_id := 2%N; StartAgentRequest_project_root := "/p";
  StartAgentRequest_route_workspace := "/p"; StartAgentRequest_read_only := true;
  StartAgentRequest_approved_environment := []; StartAgentRequest_model := None;
  StartAgentRequest_goal := goal; StartAgentRequest_loadout_fingerprint := "f";
  StartAgentRequest_contract_version := 1; StartAgentRequest_resume_thread_id := None;
  StartAgentRequest_loadout := None |}.
Lemma claude_goal_never_sent_witness :
  claude_start (ClaudeAdapterOptions_new "claude") ∅ "r" (Ok tt) (Ok tt)
      (claude_request (Some "fix the build")) (∅, []) =
    claude_start (ClaudeAdapterOptions_new "claude") ∅ "r" (Ok tt) (Ok tt) (claude_request None) (∅, []) ∧
  is_ok (claude_start (ClaudeAdapterOptions_new "claude") ∅ "r" (Ok tt) (Ok tt)
      (claude_request (Some "fix the build")) (∅, [])).2 = true.
Proof.
  split; [|vm_compute; reflexivity].
  apply (claude_goal_never_sent (λ n, N.of_nat n) (ClaudeAdapterOptions_new "claude") ∅ "r"
    (claude_request (Some "fix the build")) (claude_request None) ∅ []); reflexivity.
Defined.
End ClaudeExamples.
