(* ===== verification/CcSwitch.v ===== *)
(** * Reading the provider configuration ([crates/cc-switch-bridge/src/lib.rs])

    Another application on the same machine says which provider and which
    configuration are selected.  The bridge only talks to a loopback address,
    only asks for two paths, and bounds what it reads.  The network is what it
    answers: to connecting, to writing, and the chunks that are read. *)

From S2P Require Import Prelude Text Extern Event AdapterCore Frame Redaction Ledger.
From Stdlib Require Import ZArith Lia Ascii.
From stdpp Require Import prelude strings pretty.

Definition MAX_RESPONSE_BYTES : nat := Z.to_nat (256 * 1024).
Inductive CcBridgeError :=
| UnsupportedScheme | NonLoopback | MissingPort | PathNotAllowed | MalformedEndpoint | CcTimeout
| CcIo (error : string) | HttpStatus (status : Z) | Redirect | ResponseTooLarge | NotJson
| CcSchema (error : string).
#[export] Instance CcBridgeError_eq_dec : EqDecision CcBridgeError.
Proof. solve_decision. Defined.
Record CcSwitchHealth := {
  CcSwitchHealth_ok : bool;
  CcSwitchHealth_version : option string;
}.
Record CcSwitchStatus := {
  CcSwitchStatus_provider : ProviderId;
  CcSwitchStatus_model : option string;
  CcSwitchStatus_config_fingerprint : string;
  CcSwitchStatus_hooks_fingerprint : string;
  CcSwitchStatus_skills_fingerprint : string;
  CcSwitchStatus_plugins_fingerprint : string;
  CcSwitchStatus_mcp_fingerprint : string;
}.
Definition CcSwitchStatus_loadout (self : CcSwitchStatus) : LoadoutSnapshot := {|
  LoadoutSnapshot_provider := CcSwitchStatus_provider self;
  LoadoutSnapshot_model := CcSwitchStatus_model self;
  LoadoutSnapshot_config_fingerprint := CcSwitchStatus_config_fingerprint self;
  LoadoutSnapshot_hooks_fingerprint := CcSwitchStatus_hooks_fingerprint self;
  LoadoutSnapshot_skills_fingerprint := CcSwitchStatus_skills_fingerprint self;
  LoadoutSnapshot_plugins_fingerprint := CcSwitchStatus_plugins_fingerprint self;
  LoadoutSnapshot_mcp_fingerprint := CcSwitchStatus_mcp_fingerprint self |}.

(** ** Addresses

    The parser of the standard library: each reader takes what it can from the
    front or nothing. *)
Inductive IpAddr := IpV4 (octets : list Z) | IpV6 (segments : list Z).
#[export] Instance IpAddr_eq_dec : EqDecision IpAddr.
Proof. solve_decision. Defined.
Definition is_loopback (ip : IpAddr) : bool :=
  match ip with
  | IpV4 octets => bool_decide (head octets = Some 127%Z)
  | IpV6 segments => bool_decide (segments = [0; 0; 0; 0; 0; 0; 0; 1]%Z)
  end.

Definition hex_value (c : ascii) : option Z :=
  if byte_in 48 57 c then Some (Z.of_N (N_of_ascii c) - 48)%Z
  else if byte_in 97 102 c then Some (Z.of_N (N_of_ascii c) - 87)%Z
  else if byte_in 65 70 c then Some (Z.of_N (N_of_ascii c) - 55)%Z else None.
Definition radix_value (radix : Z) (c : ascii) : option Z :=
  d ← hex_value c; if (d <? radix)%Z then Some d else None.
(** The digits at the front: their value, their number and what follows. *)
Fixpoint take_number (radix acc : Z) (count : nat) (s : string) : Z * nat * string :=
  match s with
  | String c r =>
      match radix_value radix c with
      | Some d => take_number radix (acc * radix + d) (S count) r
      | None => (acc, count, s)
      end
  | EmptyString => (acc, count, s)
  end.
Definition read_number (radix max : Z) (max_digits : nat) (allow_zero_prefix : bool) (s : string)
    : option (Z * string) :=
  let '(value, count, rest) := take_number radix 0 0 s in
  if (max_digits <? count)%nat || (count =? 0)%nat || (max <? value)%Z
     || (negb allow_zero_prefix && starts_with s "0" && (1 <? count)%nat)
  then None else Some (value, rest).
Definition read_given_char (n : N) (s : string) : option string :=
  match s with String c r => if byte_is n c then Some r else None | EmptyString => None end.
(** [read_separator]: the separator before all but the first item. *)
Definition read_separator {A} (sep : N) (first : bool) (inner : string → option (A * string))
    (s : string) : option (A * string) :=
  if first then inner s else read_given_char sep s ≫= inner.
Definition read_octet : string → option (Z * string) := read_number 10 255 3 false.
Definition read_ipv4_addr (s : string) : option (list Z * string) :=
  '(a, s) ← read_separator 46 true read_octet s;
  '(b, s) ← read_separator 46 false read_octet s;
  '(c, s) ← read_separator 46 false read_octet s;
  '(d, s) ← read_separator 46 false read_octet s;
  Some ([a; b; c; d], s).
(** The groups read, whether they end with an IPv4 address, and what follows;
    [limit] more groups fit. *)
Fixpoint read_groups (limit : nat) (first : bool) (s : string) : list Z * bool * string :=
  match limit with
  | O => ([], false, s)
  | S limit =>
      let embedded :=
        match limit with O => None | S _ => read_separator 58 first read_ipv4_addr s end in
      match embedded with
      | Some (octets, rest) =>
          ([nth 0 octets 0 * 256 + nth 1 octets 0; nth 2 octets 0 * 256 + nth 3 octets 0]%Z,
           true, rest)
      | None =>
          match read_separator 58 first (read_number 16 65535 4 true) s with
          | Some (group, rest) =>
              let '(groups, ipv4, rest) := read_groups limit false rest in
              (group :: groups, ipv4, rest)
          | None => ([], false, s)
          end
      end
  end.
Definition read_ipv6_addr (s : string) : option (list Z * string) :=
  let '(head, head_ipv4, s) := read_groups 8 true s in
  if (length head =? 8)%nat then Some (head, s) else
  if head_ipv4 then None else
  s ← read_given_char 58 s;
  s ← read_given_char 58 s;
  let '(tail, _, s) := read_groups (8 - (length head + 1)) true s in
  Some (head ++ replicate (8 - length head - length tail) 0%Z ++ tail, s).
Definition parse_ip (s : string) : option IpAddr :=
  match read_ipv4_addr s with
  | Some (octets, rest) => if str_eqb rest "" then Some (IpV4 octets) else None
  | None =>
      '(segments, rest) ← read_ipv6_addr s;
      if str_eqb rest "" then Some (IpV6 segments) else None
  end.

(** Printing addresses. *)
Definition decimal (n : Z) : string := pretty (Z.to_N n).
Fixpoint hex_digits (fuel : nat) (n : Z) : string :=
  match fuel with
  | O => ""
  | S fuel => if (n <? 16)%Z then hex_digit n
              else hex_digits fuel (n / 16) +:+ hex_digit (n mod 16)
  end.
Definition print_v4 (octets : list Z) : string := str_join "." (decimal <$> octets).
Definition print_segments (segments : list Z) : string := str_join ":" (hex_digits 4 <$> segments).
(** The first of the longest runs of zeros: where it starts and its length. *)
Fixpoint longest_zeros (i start len best_start best_len : nat) (segments : list Z) : nat * nat :=
  match segments with
  | [] => (best_start, best_len)
  | g :: rest =>
      if (g =? 0)%Z then
        let start := if (len =? 0)%nat then i else start in
        let len := S len in
        if (best_len <? len)%nat then longest_zeros (S i) start len start len rest
        else longest_zeros (S i) start len best_start best_len rest
      else longest_zeros (S i) 0 0 best_start best_len rest
  end.
Definition print_v6 (segments : list Z) : string :=
  match segments with
  | [0; 0; 0; 0; 0; 65535; g; h]%Z =>
      "::ffff:" +:+ print_v4 [g / 256; g mod 256; h / 256; h mod 256]%Z
  | _ =>
      let '(start, len) := longest_zeros 0 0 0 0 0 segments in
      if (1 <? len)%nat
      then print_segments (take start segments) +:+ "::" +:+
           print_segments (drop (start + len) segments)
      else print_segments segments
  end.
Example loopback_v6 : parse_ip "::1" = Some (IpV6 [0; 0; 0; 0; 0; 0; 0; 1]%Z).
Proof. reflexivity. Qed.
Example print_mixed : print_v6 [8193; 3512; 0; 0; 1; 0; 0; 1]%Z = "2001:db8::1:0:0:1".
Proof. reflexivity. Qed.
Example no_leading_zero : parse_ip "127.0.0.01" = None.
Proof. reflexivity. Qed.
Example mapped_v4 : parse_ip "::ffff:127.0.0.1" = Some (IpV6 [0; 0; 0; 0; 0; 65535; 32512; 1]%Z).
Proof. reflexivity. Qed.

(** ** The endpoint *)
Record ParsedEndpoint := {
  ParsedEndpoint_ip : IpAddr;
  ParsedEndpoint_port : Z;
  ParsedEndpoint_path : string;
}.
Definition host_header (self : ParsedEndpoint) : string :=
  match ParsedEndpoint_ip self with
  | IpV6 segments => "[" +:+ print_v6 segments +:+ "]:" +:+ decimal (ParsedEndpoint_port self)
  | IpV4 octets => print_v4 octets +:+ ":" +:+ decimal (ParsedEndpoint_port self)
  end.
Definition parse_endpoint (endpoint : string) : result CcBridgeError ParsedEndpoint :=
  rest ← ok_or UnsupportedScheme (str_strip_prefix "http://" endpoint);
  if str_contains rest "?" || str_contains rest "#"
     || str_contains rest "/" && negb (str_contains rest "/health")
        && negb (str_contains rest "/status")
  then Err PathNotAllowed else
  '(authority, path) ← ok_or PathNotAllowed (split_once 47 [] rest);
  if negb (str_eqb path "health") && negb (str_eqb path "status") then Err PathNotAllowed else
  '(host, port) ← (match str_strip_prefix "[" authority with
                   | Some value => ok_or MissingPort (split_once_str "]:" [] value)
                   | None => ok_or MissingPort (rsplit_once 58 [] authority)
                   end);
  if str_eqb host "" || eq_ignore_ascii_case host "localhost" then Err NonLoopback else
  ip ← ok_or MalformedEndpoint (parse_ip host);
  port ← ok_or MalformedEndpoint (parse_uint 65535 port);
  Ok {| ParsedEndpoint_ip := ip; ParsedEndpoint_port := port;
        ParsedEndpoint_path := "/" +:+ path |}.
Record CcSwitchBridge := { CcSwitchBridge_endpoint : string }.
Definition CcSwitchBridge_new (endpoint : string) : result CcBridgeError CcSwitchBridge :=
  parsed ← parse_endpoint endpoint;
  if negb (is_loopback (ParsedEndpoint_ip parsed)) then Err NonLoopback
  else Ok {| CcSwitchBridge_endpoint := endpoint |}.

(** ** Responses *)
Definition crlf : string := String (ascii_of_N 13) (String (ascii_of_N 10) "").
(** The header and the body around the first empty line. *)
Fixpoint split_head (cur : list u8) (response : list u8) : option (list u8 * list u8) :=
  match response with
  | 13%Z :: 10%Z :: 13%Z :: 10%Z :: body => Some (rev cur, body)
  | b :: rest => split_head (b :: cur) rest
  | [] => None
  end.
Definition status_of (line : option string) : option Z :=
  value ← (line ≫= λ line, split_whitespace line !! 1); parse_uint 65535 value.
(** The content type and length the header lines leave: the last of each. *)
Fixpoint read_headers (lines : list string) (json_content : bool) (content_length : option Z)
    : result CcBridgeError (bool * option Z) :=
  match lines with
  | [] => Ok (json_content, content_length)
  | line :: rest =>
      match split_once 58 [] line with
      | None => read_headers rest json_content content_length
      | Some (name, value) =>
          let json_content :=
            if eq_ignore_ascii_case name "content-type"
            then starts_with (to_ascii_lowercase (str_trim value)) "application/json"
            else json_content in
          if eq_ignore_ascii_case name "content-length" then
            match parse_uint u64_max (str_trim value) with
            | None => Err (CcSchema "invalid content length")
            | Some length => read_headers rest json_content (Some length)
            end
          else read_headers rest json_content content_length
      end
  end.
Definition parse_http_response (response : list u8) : result CcBridgeError (list u8) :=
  '(head, body) ← ok_or (CcSchema "missing HTTP headers") (split_head [] response);
  header ← ok_or (CcSchema "invalid HTTP headers") (from_utf8 head);
  let lines := str_lines header in
  status ← ok_or (CcSchema "missing HTTP status") (status_of (list.head lines));
  if ((300 <=? status) && (status <? 400))%Z then Err Redirect else
  if negb (status =? 200)%Z then Err (HttpStatus status) else
  '(json_content, content_length) ← read_headers (tail lines) false None;
  if negb json_content then Err NotJson else
  if match content_length with
     | Some length => (Z.of_nat MAX_RESPONSE_BYTES <? length)%Z
                      || (Z.of_nat (List.length body) <? length)%Z
     | None => false end
  then Err ResponseTooLarge else Ok body.

(** ** A request *)
Record CcEnv := {
  CcEnv_connect : result string unit;
  CcEnv_write : result string unit;
  CcEnv_chunks : list (result string (list u8));
  CcEnv_timed_out : bool;
}.
Inductive cc_action := CcConnected (ip : IpAddr) (port : Z) | CcSent (request : string).
(** Reading chunks until an empty one. *)
Fixpoint read_chunks (chunks : list (result string (list u8))) (response : list u8)
    : result CcBridgeError (list u8) :=
  match chunks with
  | [] | Ok [] :: _ => Ok response
  | Err error :: _ => Err (CcIo error)
  | Ok chunk :: rest =>
      if (MAX_RESPONSE_BYTES <? length response + length chunk)%nat then Err ResponseTooLarge
      else read_chunks rest (response ++ chunk)
  end.
Definition request_text (path host : string) : string :=
  "GET " +:+ path +:+ " HTTP/1.1" +:+ crlf +:+ "Host: " +:+ host +:+ crlf
  +:+ "Accept: application/json" +:+ crlf +:+ "Connection: close" +:+ crlf +:+ crlf.
(** What was done and what came of it. *)
Definition cc_request (env : CcEnv) (path : string) (self : CcSwitchBridge)
    : list cc_action * result CcBridgeError (list u8) :=
  match parse_endpoint (CcSwitchBridge_endpoint self) with
  | Err error => ([], Err error)
  | Ok endpoint =>
      if negb (str_eqb path "/health") && negb (str_eqb path "/status")
      then ([], Err PathNotAllowed) else
      let timed r := if CcEnv_timed_out env then Err CcTimeout else r in
      match CcEnv_connect env with
      | Err error => ([], timed (Err (CcIo error)))
      | Ok _ =>
          let connected := CcConnected (ParsedEndpoint_ip endpoint) (ParsedEndpoint_port endpoint) in
          match CcEnv_write env with
          | Err error => ([connected], timed (Err (CcIo error)))
          | Ok _ =>
              ([connected; CcSent (request_text path (host_header endpoint))],
               timed (response ← read_chunks (CcEnv_chunks env) []; parse_http_response response))
          end
      end
  end.

Section json.
Context `{SerdeJson, !JsonParse}.
(** [serde_json::from_slice]; bytes that are not UTF-8 are an error, with
    some text. *)
Definition parse_json (T : Type) `{!Serde T} (body : list u8) : result CcBridgeError T :=
  text ← ok_or (CcSchema "invalid UTF-8") (from_utf8 body);
  value ← map_err CcSchema (value_from_str text);
  map_err CcSchema (from_value value).
Definition health `{!Serde CcSwitchHealth} (env : CcEnv) (self : CcSwitchBridge)
    : list cc_action * result CcBridgeError CcSwitchHealth :=
  let '(actions, r) := cc_request env "/health" self in
  (actions, bytes ← r; parse_json CcSwitchHealth bytes).
Definition status `{!Serde CcSwitchStatus} (env : CcEnv) (self : CcSwitchBridge)
    : list cc_action * result CcBridgeError CcSwitchStatus :=
  let '(actions, r) := cc_request env "/status" self in
  (actions, bytes ← r; parse_json CcSwitchStatus bytes).

Definition CcBridgeError_display (e : CcBridgeError) : string :=
  match e with
  | UnsupportedScheme => "CC Switch endpoint must use http://"
  | NonLoopback => "CC Switch endpoint must be loopback"
  | MissingPort => "CC Switch endpoint must include an explicit port"
  | PathNotAllowed => "CC Switch endpoint path is not allowlisted"
  | MalformedEndpoint => "CC Switch endpoint is malformed"
  | CcTimeout => "CC Switch request timed out"
  | CcIo error => "CC Switch connection failed: " +:+ error
  | HttpStatus status => "CC Switch returned HTTP status " +:+ pretty status
  | Redirect => "CC Switch redirected instead of returning JSON"
  | ResponseTooLarge => "CC Switch response is too large"
  | NotJson => "CC Switch response must be JSON"
  | CcSchema error => "CC Switch response has an invalid JSON schema: " +:+ error
  end.
(** What the mission service reports about it: [configured] is the endpoint of
    its environment, if there is one. *)
Definition cc_switch_report `{!Serde CcSwitchHealth} (env : CcEnv) (configured : option string)
    : list cc_action * Value :=
  match configured with
  | None => ([], json_object [("available", Value_Bool false);
      ("unavailableReason", Value_String "CC Switch endpoint is not configured");
      ("endpoint", Value_String "not-configured")])
  | Some endpoint =>
      match CcSwitchBridge_new endpoint with
      | Err error => ([], json_object [("available", Value_Bool false);
          ("unavailableReason", Value_String (CcBridgeError_display error));
          ("endpoint", Value_String "rejected")])
      | Ok bridge =>
          let '(actions, r) := health env bridge in
          (actions, match r with
            | Ok health => json_object [("available", Value_Bool (CcSwitchHealth_ok health));
                ("version", match CcSwitchHealth_version health with
                            | Some version => Value_String version | None => Value_Null end);
                ("endpoint", Value_String "loopback")]
            | Err error => json_object [("available", Value_Bool false);
                ("unavailableReason", Value_String (CcBridgeError_display error));
                ("endpoint", Value_String "loopback")]
            end)
      end
  end.
End json.

(** ** What the bridge guarantees *)
Lemma endpoint_port endpoint parsed :
  parse_endpoint endpoint = Ok parsed → (0 ≤ ParsedEndpoint_port parsed ≤ 65535)%Z.
Proof.
  unfold parse_endpoint, mbind, result_bind. intros Hp.
  repeat (case_match; simplify_eq/=; try done).
  all: match goal with Hport : ok_or _ (parse_uint 65535 ?p) = Ok ?n |- _ =>
    destruct (parse_uint 65535 p) eqn:Hn; [|done]; simpl in Hport; simplify_eq;
    eapply parse_uint_range; [|exact Hn]; lia end.
Qed.
Definition allowed_path (path : string) : bool := str_eqb path "/health" || str_eqb path "/status".
(** The text of a loopback address with its port. *)
Definition loopback_host (ip : IpAddr) (port : Z) : string :=
  match ip with
  | IpV4 octets => str_join "." (decimal <$> octets) +:+ ":" +:+ decimal port
  | IpV6 _ => "[::1]:" +:+ decimal port
  end.
(** One connection, to this address, and a request for this document that names
    this address as its host. *)
Definition local_exchange (path : string) (ip : IpAddr) (port : Z) : list cc_action :=
  [CcConnected ip port; CcSent (request_text path (loopback_host ip port))].
Definition local_actions (path : string) (actions : list cc_action) : Prop :=
  ∃ ip port, is_loopback ip = true ∧ (0 ≤ port ≤ 65535)%Z ∧ actions `prefix_of` local_exchange path ip port.
Lemma host_header_loopback parsed :
  is_loopback (ParsedEndpoint_ip parsed) = true →
  host_header parsed = loopback_host (ParsedEndpoint_ip parsed) (ParsedEndpoint_port parsed).
Proof.
  unfold is_loopback, host_header, loopback_host. destruct (ParsedEndpoint_ip parsed) as [octets|segments]; [done|].
  intros ->%bool_decide_eq_true. reflexivity.
Qed.
Lemma cc_request_local endpoint b env path :
  CcSwitchBridge_new endpoint = Ok b →
  local_actions path (cc_request env path b).1 ∧
  (allowed_path path = false → cc_request env path b = ([], Err PathNotAllowed)).
Proof.
  unfold CcSwitchBridge_new, mbind, result_bind.
  destruct (parse_endpoint endpoint) as [parsed|e] eqn:Hp; [|done].
  destruct (is_loopback (ParsedEndpoint_ip parsed)) eqn:Hl; [|done]. intros [= <-].
  pose proof (endpoint_port _ _ Hp) as Hport. pose proof (host_header_loopback _ Hl) as Hhost.
  assert (∀ actions, actions `prefix_of` local_exchange path (ParsedEndpoint_ip parsed) (ParsedEndpoint_port parsed) →
    local_actions path actions) as Hlocal by (unfold local_actions; eauto).
  unfold cc_request. simpl. rewrite Hp. unfold allowed_path, local_exchange in *. rewrite <-Hhost in Hlocal.
  destruct (str_eqb path "/health"), (str_eqb path "/status"); simpl;
    try (split; [apply Hlocal, prefix_nil|done]);
    destruct (CcEnv_connect env); try (split; [apply Hlocal, prefix_nil|done]);
    destruct (CcEnv_write env); (split; [apply Hlocal|done]); try done; by apply prefix_cons, prefix_nil.
Qed.
(** So does the report: an endpoint that is not local is never contacted. *)
Lemma cc_report_local `{SerdeJson, !JsonParse, !Serde CcSwitchHealth} env configured :
  (cc_switch_report env configured).1 = [] ∨ local_actions "/health" (cc_switch_report env configured).1 ∧
  ∃ endpoint b, configured = Some endpoint ∧ CcSwitchBridge_new endpoint = Ok b.
Proof.
  unfold cc_switch_report, health. destruct configured as [endpoint|]; [|by left].
  destruct (CcSwitchBridge_new endpoint) as [b|e] eqn:Hb; [|by left].
  destruct (cc_request_local endpoint b env "/health" Hb) as [Hl _].
  destruct (cc_request env "/health" b) as [actions r]. right. eauto.
Qed.
(** C38: the provider bridge cannot be used to reach anything but the two
    documents of a program on the same machine: whatever endpoint it was made
    with, a request makes at most one connection, to a loopback address and a
    16-bit port, and all it sends is a [GET] of [/health] or [/status] whose
    [Host] header is the text of that same address and port; any other path is
    refused before anything happens. *)
Theorem cc_stays_local endpoint b env path :
  CcSwitchBridge_new endpoint = Ok b →
  let '(actions, r) := cc_request env path b in
  (∃ ip port, is_loopback ip = true ∧ (0 ≤ port ≤ 65535)%Z ∧
    actions `prefix_of` local_exchange path ip port) ∧
  (allowed_path path = false → actions = [] ∧ r = Err PathNotAllowed).
Proof.
  intros Hb. destruct (cc_request_local endpoint b env path Hb) as (Hl&Hp).
  destruct (cc_request env path b) as [actions r]. split; [done|]. by intros [= -> ->]%Hp.
Qed.

Lemma read_chunks_concat chunks : ∀ response,
  Forall (λ c, c ≠ []) chunks → length response ≤ MAX_RESPONSE_BYTES →
  read_chunks (Ok <$> chunks) response =
    if (MAX_RESPONSE_BYTES <? length (response ++ concat chunks))%nat
    then Err ResponseTooLarge else Ok (response ++ concat chunks).
Proof.
  induction chunks as [|chunk chunks IH]; intros response Hne Hl.
  { simpl. rewrite app_nil_r. by rewrite (proj2 (Nat.ltb_ge _ _)). }
  apply list.Forall_cons in Hne as [Hc Hne]. rewrite fmap_cons. cbn [read_chunks concat].
  destruct chunk as [|b chunk]; [done|].
  destruct (MAX_RESPONSE_BYTES <? length response + length (b :: chunk))%nat eqn:Hlt.
  - apply Nat.ltb_lt in Hlt. rewrite (proj2 (Nat.ltb_lt _ _)); [done|].
    rewrite !length_app. lia.
  - apply Nat.ltb_ge in Hlt. rewrite IH, <-app_assoc; [done|done|]. rewrite length_app. lia.
Qed.
Definition json_head : string :=
  "HTTP/1.1 200 OK" +:+ crlf +:+ "Content-Type: application/json" +:+ crlf
  +:+ "Connection: close" +:+ crlf +:+ crlf.
Lemma json_answer_body body : parse_http_response (str_bytes json_head ++ body) = Ok body.
Proof.
  unfold parse_http_response.
  assert (split_head [] (str_bytes json_head ++ body) =
    Some (str_bytes ("HTTP/1.1 200 OK" +:+ crlf +:+ "Content-Type: application/json" +:+ crlf
                     +:+ "Connection: close"), body)) as -> by reflexivity.
  reflexivity.
Qed.
(** How an answer is cut into packets does not matter: the bytes of an
    answer of at most 256 KiB are put together again and, when it is a JSON
    document with status 200, its body is returned whole; one byte more, in
    whatever pieces, and it is refused. *)
Theorem cc_answer_received endpoint b env path chunks :
  CcSwitchBridge_new endpoint = Ok b → allowed_path path = true →
  CcEnv_connect env = Ok tt → CcEnv_write env = Ok tt → CcEnv_timed_out env = false →
  CcEnv_chunks env = Ok <$> chunks → Forall (λ c, c ≠ []) chunks →
  (MAX_RESPONSE_BYTES < length (concat chunks) → (cc_request env path b).2 = Err ResponseTooLarge) ∧
  ∀ body, concat chunks = str_bytes json_head ++ body →
    length (concat chunks) ≤ MAX_RESPONSE_BYTES → (cc_request env path b).2 = Ok body.
Proof.
  unfold CcSwitchBridge_new, mbind, result_bind.
  destruct (parse_endpoint endpoint) as [parsed|e] eqn:Hp; [|done].
  destruct (is_loopback (ParsedEndpoint_ip parsed)); [|done]. intros [= <-] Hpath Hc Hw Ht Hch Hne.
  unfold cc_request. simpl. rewrite Hp, Hc, Hw, Ht, Hch.
  assert (negb (str_eqb path "/health") && negb (str_eqb path "/status") = false) as ->.
  { unfold allowed_path in Hpath. by destruct (str_eqb path "/health"), (str_eqb path "/status"). }
  cbn [snd]. rewrite (read_chunks_concat chunks [] Hne (Nat.le_0_l _)). cbn [app]. split.
  - intros Hlt. by rewrite (proj2 (Nat.ltb_lt _ _) Hlt).
  - intros body Hb Hle. rewrite (proj2 (Nat.ltb_ge _ _) Hle), Hb. apply json_answer_body.
Qed.

Module CcExamples.
Definition cc_bridge : CcSwitchBridge := {| CcSwitchBridge_endpoint := "http://[::1]:3210/status" |}.
Definition cc_env : CcEnv := {| CcEnv_connect := Ok tt; CcEnv_write := Ok tt;
  CcEnv_chunks := Ok <$> [str_bytes "HTTP/1.1 200"; drop 12 (str_bytes json_head); str_bytes "{}"];
  CcEnv_timed_out := false |}.
Lemma cc_stays_local_witness :
  (cc_request cc_env "/status" cc_bridge).1 =
    [CcConnected (IpV6 [0; 0; 0; 0; 0; 0; 0; 1]) 3210; CcSent (request_text "/status" "[::1]:3210")]%Z ∧
  local_actions "/status" (cc_request cc_env "/status" cc_bridge).1.
Proof.
  split; [vm_compute; reflexivity|].
  pose proof (cc_stays_local "http://[::1]:3210/status" cc_bridge cc_env "/status") as Hl.
  destruct (cc_request cc_env "/status" cc_bridge) as [actions r]. apply Hl. vm_compute. reflexivity.
Defined.
Lemma cc_answer_received_witness : (cc_request cc_env "/status" cc_bridge).2 = Ok (str_bytes "{}").
Proof.
  apply (cc_answer_received "http://[::1]:3210/status" cc_bridge cc_env "/status"
    [str_bytes "HTTP/1.1 200"; drop 12 (str_bytes json_head); str_bytes "{}"]).
  - vm_compute. reflexivity.
  - reflexivity.
  - reflexivity.
  - reflexivity.
  - reflexivity.
  - reflexivity.
  - repeat constructor; discriminate.
  - vm_compute. reflexivity.
  - apply Nat.leb_le. vm_compute. reflexivity.
Defined.
(** An answer that is cut short is reported as too large. *)
Lemma short_answer_too_large :
  parse_http_response (str_bytes ("HTTP/1.1 200 OK" +:+ crlf +:+ "Content-Type: application/json"
    +:+ crlf +:+ "Content-Length: 9" +:+ crlf +:+ crlf +:+ "{}")) = Err ResponseTooLarge.
Proof. vm_compute. reflexivity. Qed.
End CcExamples.
