(* ===== verification/KeyStore.v ===== *)
(** * Keys and secrets at rest ([crates/ledger/src/key_store.rs],
    [crates/protocol/src/credential.rs])

    The key of the ledger's database and the installation secret are made once
    and kept by the credential store of the operating system.  What a user of
    a key store relies on is an interface, [KeyStoreLaws]; both stores of the
    program are shown to implement it. *)

From S2P Require Import Prelude Always Extern Frame.
From Stdlib Require Import ZArith Lia.
From stdpp Require Import prelude gmap strings.

Definition KEY_LEN : nat := 32.
Definition INSTALL_SECRET_BYTES : nat := 32.
Definition ERROR_NOT_FOUND : Z := 1168%Z.
Inductive KeyStoreError := KeyUnavailable | CredentialUnavailable (code : Z) | InvalidKey.
#[export] Instance KeyStoreError_eq_dec : EqDecision KeyStoreError.
Proof. solve_decision. Defined.

(** ** The interface *)
Class KeyStore (S : Type) : Type := {
  load_or_create_database_key : string → stm S KeyStoreError (list u8);
  load_database_key : string → S → result KeyStoreError (list u8);
}.
Class KeyStoreLaws (S : Type) `{!KeyStore S} : Prop := {
  created_key_loads install_id s s' key :
    load_or_create_database_key install_id s = (s', Ok key) →
    load_database_key install_id s' = Ok key;
  stored_key_kept install_id s s' r key :
    load_or_create_database_key install_id s = (s', r) → load_database_key install_id s = Ok key →
    r = Ok key ∧ s' = s;
  other_keys_kept install_id other s s' r :
    load_or_create_database_key install_id s = (s', r) → other ≠ install_id →
    load_database_key other s' = load_database_key other s;
}.

(** What holds of every store that keeps to the interface. *)
Section clients.
Context {S : Type} `{!KeyStore S, !KeyStoreLaws S}.

Definition use_keys (installs : list string) (s : S) : S :=
  foldl (λ s install_id, (load_or_create_database_key install_id s).1) s installs.
Lemma use_keys_stable installs install_id key : ∀ s,
  load_database_key install_id s = Ok key → load_database_key install_id (use_keys installs s) = Ok key.
Proof.
  induction installs as [|other installs IH]; intros s Hs; [done|]. apply IH.
  destruct (load_or_create_database_key other s) as [s' r] eqn:Hl. simpl.
  destruct (decide (install_id = other)) as [<-|Hne].
  - by destruct (stored_key_kept _ _ _ _ _ Hl Hs) as [_ ->].
  - by rewrite (other_keys_kept _ _ _ _ _ Hl Hne).
Qed.
(** A database key is made once.  After a key was handed out for an
    installation, every later request for it, however many other
    installations ask in between, gets the same key, so a ledger that was
    written can always be opened again. *)
Theorem database_key_is_stable install_id installs s s1 key s2 r :
  load_or_create_database_key install_id s = (s1, Ok key) →
  load_or_create_database_key install_id (use_keys installs s1) = (s2, r) →
  r = Ok key ∧ load_database_key install_id s2 = Ok key.
Proof.
  intros H1 H2. pose proof (created_key_loads _ _ _ _ H1) as Hk.
  apply (use_keys_stable installs) in Hk. destruct (stored_key_kept _ _ _ _ _ H2 Hk) as [-> ->]. done.
Qed.
End clients.

(** ** In memory

    [random] is what [getrandom] fills the n-th time. *)
Record InMemoryKeyStore := {
  InMemory_keys : gmap string (list u8);
  InMemory_drawn : nat;
}.
Section in_memory.
Context (random : nat → option (list u8)).

Definition InMemory_insert (install_id : string) (key : list u8) (s : InMemoryKeyStore)
    : InMemoryKeyStore := {|
  InMemory_keys := <[install_id := key]> (InMemory_keys s); InMemory_drawn := InMemory_drawn s |}.
Definition InMemory_load_or_create (install_id : string)
    : stm InMemoryKeyStore KeyStoreError (list u8) := λ s,
  match InMemory_keys s !! install_id with
  | Some key => (s, Ok key)
  | None =>
      let drawn := {| InMemory_keys := InMemory_keys s; InMemory_drawn := S (InMemory_drawn s) |} in
      match random (InMemory_drawn s) with
      | None => (drawn, Err KeyUnavailable)
      | Some key => (InMemory_insert install_id key drawn, Ok key)
      end
  end.
Definition InMemory_load (install_id : string) (s : InMemoryKeyStore)
    : result KeyStoreError (list u8) :=
  ok_or KeyUnavailable (InMemory_keys s !! install_id).
#[local] Instance in_memory_store : KeyStore InMemoryKeyStore := {
  load_or_create_database_key := InMemory_load_or_create; load_database_key := InMemory_load }.
Lemma in_memory_laws : KeyStoreLaws InMemoryKeyStore.
Proof.
  split; simpl; unfold InMemory_load_or_create, InMemory_load.
  - intros id s s' key. destruct (InMemory_keys s !! id) eqn:Hk.
    + intros [= <- <-]. by rewrite Hk.
    + destruct (random _); [|done]. intros [= <- <-]. simpl. by rewrite lookup_insert_eq.
  - intros id s s' r key. destruct (InMemory_keys s !! id); [|done]. by intros [= <- <-] [= <-].
  - intros id other s s' r. destruct (InMemory_keys s !! id); [by intros [= <- _]|].
    destruct (random _); intros [= <- _] Hne; simpl; [|done]. by rewrite lookup_insert_ne.
Qed.
End in_memory.

(** ** The credential store of Windows

    What is stored by target name; [CredReadW] fails with [ERROR_NOT_FOUND]
    when there is nothing, or with another code when the store cannot be
    reached; the data protection interface encrypts for the user. *)
Class DataProtection : Type := {
  crypt_protect : list u8 → option (list u8);
  crypt_unprotect : list u8 → option (list u8);
}.
Class DataProtectionLaws `{DataProtection} : Prop :=
  unprotect_protect key blob : crypt_protect key = Some blob → crypt_unprotect blob = Some key.
Record Credentials := {
  Credentials_blobs : gmap string (list u8);
  Credentials_drawn : nat;
}.
(** What the system answers: how an unreachable store fails, whether writing
    fails, and the randomness. *)
Record CredentialEnv := {
  CredentialEnv_unreachable : option Z;
  CredentialEnv_write_fails : bool;
  CredentialEnv_random : nat → option (list u8);
}.
Section credentials.
Context `{DataProtection} (env : CredentialEnv).

Definition cred_read (target : string) (s : Credentials) : result Z (list u8) :=
  match CredentialEnv_unreachable env with
  | Some code => Err code
  | None => ok_or ERROR_NOT_FOUND (Credentials_blobs s !! target)
  end.
Definition cred_write (target : string) (blob : list u8) (s : Credentials) : Credentials * bool :=
  if CredentialEnv_write_fails env then (s, false) else
  ({| Credentials_blobs := <[target := blob]> (Credentials_blobs s);
      Credentials_drawn := Credentials_drawn s |}, true).
Definition draw_random (s : Credentials) : Credentials * option (list u8) :=
  ({| Credentials_blobs := Credentials_blobs s; Credentials_drawn := S (Credentials_drawn s) |},
   CredentialEnv_random env (Credentials_drawn s)).

Definition target_name (install_id : string) : string := "MissionControl/DatabaseKey/" +:+ install_id.
Definition protect (key : list u8) : result KeyStoreError (list u8) :=
  ok_or KeyUnavailable (crypt_protect key).
Definition unprotect (encrypted : list u8) : result KeyStoreError (list u8) :=
  match crypt_unprotect encrypted with
  | Some key => if (length key =? KEY_LEN)%nat then Ok key else Err InvalidKey
  | None => Err InvalidKey
  end.
Definition Windows_load (install_id : string) (s : Credentials) : result KeyStoreError (list u8) :=
  match cred_read (target_name install_id) s with
  | Err code => Err (CredentialUnavailable code)
  | Ok encrypted => unprotect encrypted
  end.
Definition save_database_key (install_id : string) (key : list u8)
    : stm Credentials KeyStoreError unit := λ s,
  match protect key with
  | Err e => (s, Err e)
  | Ok blob =>
      let '(s, ok) := cred_write (target_name install_id) blob s in
      (s, if ok then Ok tt else Err KeyUnavailable)
  end.
Definition Windows_load_or_create (install_id : string) : stm Credentials KeyStoreError (list u8) := λ s,
  match Windows_load install_id s with
  | Ok key => (s, Ok key)
  | Err (CredentialUnavailable code) =>
      if (code =? ERROR_NOT_FOUND)%Z then
        match draw_random s with
        | (s, None) => (s, Err KeyUnavailable)
        | (s, Some key) =>
            match save_database_key install_id key s with
            | (s, Err e) => (s, Err e)
            | (s, Ok _) => (s, Ok key)
            end
        end
      else (s, Err (CredentialUnavailable code))
  | Err error => (s, Err error)
  end.
#[local] Instance windows_store : KeyStore Credentials := {
  load_or_create_database_key := Windows_load_or_create; load_database_key := Windows_load }.

(** *** The installation secret

    [locked] is whether the named mutex of the user could be acquired in time. *)
Definition CREDENTIAL_TARGET : string := "Agent Mission Control/Install Secret/v1".
Definition read_secret (target : string) (s : Credentials) : result string (option (list u8)) :=
  match cred_read target s with
  | Err code => if (code =? ERROR_NOT_FOUND)%Z then Ok None else Err "CredReadW failed"
  | Ok blob => if (length blob =? INSTALL_SECRET_BYTES)%nat then Ok (Some blob)
               else Err "stored install secret has an invalid size"
  end.
Definition install_secret (locked : result string unit) (target : string)
    : stm Credentials string (list u8) := λ s,
  match locked with Err e => (s, Err e) | Ok _ =>
  match read_secret target s with
  | Err e => (s, Err e)
  | Ok (Some secret) => (s, Ok secret)
  | Ok None =>
      match draw_random s with
      | (s, None) => (s, Err "BCryptGenRandom failed")
      | (s, Some secret) =>
          match cred_write target secret s with
          | (s, true) => (s, Ok secret)
          | (s, false) => (s, Err "CredWriteW failed")
          end
      end
  end end.

(** ** The store keeps to the interface *)
Context `{!DataProtectionLaws}.
Context (random_len : ∀ n k, CredentialEnv_random env n = Some k → length k = KEY_LEN).
Context (unreachable : CredentialEnv_unreachable env ≠ Some ERROR_NOT_FOUND).

Lemma target_name_inj id id' : target_name id = target_name id' → id = id'.
Proof. intros Heq. by apply (inj (String.append "MissionControl/DatabaseKey/")) in Heq. Qed.
(** The cases of a creation: only when nothing is stored and the store can be
    reached is anything written. *)
Lemma windows_create_cases id s s' r :
  Windows_load_or_create id s = (s', r) →
  (r = Windows_load id s ∧ s' = s) ∨
  (CredentialEnv_unreachable env = None ∧ Credentials_blobs s !! target_name id = None ∧
   ((∃ e, r = Err e ∧ Credentials_blobs s' = Credentials_blobs s) ∨
    ∃ key blob, r = Ok key ∧ length key = KEY_LEN ∧ crypt_protect key = Some blob ∧
      Credentials_blobs s' = <[target_name id := blob]> (Credentials_blobs s))).
Proof.
  unfold Windows_load_or_create. destruct (Windows_load id s) as [key|error] eqn:Hl.
  { intros [= <- <-]. by left. }
  destruct error as [|code|]; try (intros [= <- <-]; by left).
  destruct (Z.eqb_spec code ERROR_NOT_FOUND) as [->|Hne]; [|intros [= <- <-]; by left].
  unfold Windows_load, cred_read in Hl.
  assert (∀ blob, unprotect blob ≠ Err (CredentialUnavailable ERROR_NOT_FOUND)) as Hu.
  { intros blob. unfold unprotect. by repeat case_match. }
  destruct (CredentialEnv_unreachable env) as [c|] eqn:Hun; [by simplify_eq|].
  destruct (Credentials_blobs s !! target_name id) as [blob|] eqn:Hb; simpl in Hl; [by apply Hu in Hl|].
  intros Hc. right. split_and!; [done|done|]. unfold draw_random in Hc.
  destruct (CredentialEnv_random env (Credentials_drawn s)) as [key|] eqn:Hk; simplify_eq/=; [|left; eauto].
  apply random_len in Hk. unfold save_database_key, protect, cred_write in Hc.
  destruct (crypt_protect key) as [blob|] eqn:Hp; simplify_eq/=; [|left; eauto].
  destruct (CredentialEnv_write_fails env); simplify_eq/=; [left; eauto|].
  right. by exists key, blob.
Qed.
Lemma windows_load_blobs id s s' :
  Credentials_blobs s' !! target_name id = Credentials_blobs s !! target_name id →
  Windows_load id s' = Windows_load id s.
Proof. intros Hb. unfold Windows_load, cred_read. by rewrite Hb. Qed.
Lemma windows_laws : KeyStoreLaws Credentials.
Proof.
  split; simpl.
  - intros id s s' key Hc. apply windows_create_cases in Hc
      as [[Hr ->]|(Hun&Hnone&[(e&[=]&_)|(k&blob&[= <-]&Hlen&Hp&Hb)])]; [done|].
    unfold Windows_load, cred_read. rewrite Hun, Hb, lookup_insert_eq. simpl. unfold unprotect.
    by rewrite (unprotect_protect _ _ Hp), (proj2 (Nat.eqb_eq _ _) Hlen).
  - intros id s s' r key Hc Hl. apply windows_create_cases in Hc as [[-> ->]|(Hun&Hnone&_)]; [done|].
    unfold Windows_load, cred_read in Hl. by rewrite Hun, Hnone in Hl.
  - intros id other s s' r Hc Hne. apply windows_create_cases in Hc
      as [[_ ->]|(_&_&[(e&_&Hb)|(k&blob&_&_&_&Hb)])]; [done| |]; apply windows_load_blobs; rewrite Hb; [done|].
    rewrite lookup_insert_ne; [done|]. intros Heq. by apply target_name_inj in Heq.
Qed.
(** A stored key that cannot be read back, or a store that cannot be reached,
    is an error: no new key takes the place of one that may be in use. *)
Lemma unreadable_key_kept id s s' r blob :
  Credentials_blobs s !! target_name id = Some blob → Windows_load_or_create id s = (s', r) →
  s' = s ∧ r = Windows_load id s.
Proof. intros Hs Hc. apply windows_create_cases in Hc as [[-> ->]|(_&Hn&_)]; [done|congruence]. Qed.

(** The installation secret is made once and has 32 bytes.  Two calls, in
    two processes one after the other, return the same secret; a stored
    secret of another size is refused and left alone, never replaced. *)
Theorem install_secret_stable locked target s s1 secret s2 r :
  install_secret locked target s = (s1, Ok secret) →
  install_secret (Ok tt) target s1 = (s2, r) →
  r = Ok secret ∧ s2 = s1 ∧ length secret = INSTALL_SECRET_BYTES ∧
  ∀ s0 blob, Credentials_blobs s0 !! target = Some blob → length blob ≠ INSTALL_SECRET_BYTES →
    (install_secret (Ok tt) target s0).1 = s0 ∧ is_ok (install_secret (Ok tt) target s0).2 = false.
Proof.
  unfold install_secret, read_secret, cred_read, draw_random, cred_write.
  intros H1 H2. assert (r = Ok secret ∧ s2 = s1 ∧ length secret = INSTALL_SECRET_BYTES) as (->&->&Hlen).
  { destruct locked; [|done]. destruct (CredentialEnv_unreachable env) as [c|].
    { destruct (Z.eqb_spec c ERROR_NOT_FOUND) as [->|]; [|done]. done. }
    destruct (Credentials_blobs s !! target) as [blob|] eqn:Hb; simpl in H1.
    - destruct (Nat.eqb_spec (length blob) INSTALL_SECRET_BYTES) as [Hl|]; [|done].
      injection H1 as <- <-. rewrite Hb in H2. simpl in H2.
      rewrite (proj2 (Nat.eqb_eq _ _) Hl) in H2. injection H2 as <- <-. done.
    - destruct (CredentialEnv_random env _) as [k|] eqn:Hk; [|done]. apply random_len in Hk.
      destruct (CredentialEnv_write_fails env); [done|]. injection H1 as <- <-. simpl in H2.
      rewrite lookup_insert_eq in H2. simpl in H2. 
      rewrite (proj2 (Nat.eqb_eq (length k) INSTALL_SECRET_BYTES) Hk) in H2. injection H2 as <- <-. done. }
  split_and!; try done. intros s0 blob Hb Hne.
  destruct (CredentialEnv_unreachable env) as [c|].
  - destruct (Z.eqb_spec c ERROR_NOT_FOUND) as [->|]; [|done]. done.
  - rewrite Hb. simpl. by rewrite (proj2 (Nat.eqb_neq _ _) Hne).
Qed.
End credentials.

Module KeyStoreExamples.
(** A protection that adds a byte in front. *)
#[local] Instance marked : DataProtection := {
  crypt_protect key := Some (7%Z :: key);
  crypt_unprotect blob := match blob with 7%Z :: key => Some key | _ => None end }.
#[local] Instance marked_laws : DataProtectionLaws.
Proof. intros key blob [= <-]. done. Qed.
Definition key_env : CredentialEnv := {| CredentialEnv_unreachable := None;
  CredentialEnv_write_fails := false; CredentialEnv_random n := Some (replicate 32 (Z.of_nat n)) |}.
Lemma key_env_len n k : CredentialEnv_random key_env n = Some k → length k = KEY_LEN.
Proof. by intros [= <-]. Qed.
Definition key_empty : Credentials := {| Credentials_blobs := ∅; Credentials_drawn := 0 |}.
Definition key_first := Windows_load_or_create key_env "a" key_empty.

Lemma database_key_is_stable_witness :
  (Windows_load_or_create key_env "a"
    (@use_keys _ (windows_store key_env) ["b"; "a"] key_first.1)).2 = Ok (replicate 32 0%Z).
Proof.
  destruct (@database_key_is_stable Credentials (windows_store key_env)
    (windows_laws key_env key_env_len ltac:(discriminate)) "a" ["b"; "a"] key_empty key_first.1
    (replicate 32 0%Z)
    (Windows_load_or_create key_env "a" (@use_keys _ (windows_store key_env) ["b"; "a"] key_first.1)).1
    (Windows_load_or_create key_env "a" (@use_keys _ (windows_store key_env) ["b"; "a"] key_first.1)).2)
    as [Hk _].
  - vm_compute. reflexivity.
  - apply surjective_pairing.
  - exact Hk.
Defined.
Lemma install_secret_stable_witness :
  let first := install_secret key_env (Ok tt) CREDENTIAL_TARGET key_empty in
  first.2 = Ok (replicate 32 0%Z) ∧
  (install_secret key_env (Ok tt) CREDENTIAL_TARGET first.1).2 = Ok (replicate 32 0%Z).
Proof.
  split; [vm_compute; reflexivity|].
  apply (install_secret_stable key_env key_env_len ltac:(discriminate) (Ok tt) CREDENTIAL_TARGET key_empty
    (install_secret key_env (Ok tt) CREDENTIAL_TARGET key_empty).1 (replicate 32 0%Z)
    (install_secret key_env (Ok tt) CREDENTIAL_TARGET
      (install_secret key_env (Ok tt) CREDENTIAL_TARGET key_empty).1).1).
  - vm_compute. reflexivity.
  - apply surjective_pairing.
Defined.
End KeyStoreExamples.
