(* ===== verification/LedgerOpen.v ===== *)
(** * Opening the ledger ([crates/ledger/src/sqlcipher.rs],
    [crates/ledger/src/migrations.rs], [crates/ledger/src/blob_store.rs])

    Opening finds or makes the key, keeps a copy of an existing database,
    brings its schema up to date and checks it.  The migration script is
    written out; SQLCipher is a parameter: what a file holds under a key, what
    a statement does to it, and what the queries answer; the answers of the
    file system are given. *)

From S2P Require Import Prelude Text Extern Ordering Ids Event Frame BlobStore Redaction Ledger RecoveryPackage ServiceData Service ServiceExamples KeyStore.
From Stdlib Require Import ZArith Lia.
From stdpp Require Import prelude gmap strings.

(** ** SQL

    The statements the crate sends when it opens a database: the body of a
    [CREATE] is kept as text. *)
Inductive object_kind := OTable | OIndex | OUniqueIndex | OTrigger.
#[export] Instance object_kind_eq_dec : EqDecision object_kind.
Proof. solve_decision. Defined.
#[export] Instance object_kind_countable : Countable object_kind.
Proof.
  refine (inj_countable' (λ k, match k with OTable => 0 | OIndex => 1 | OUniqueIndex => 2 | OTrigger => 3 end)
    (λ n, match n with 0 => OTable | 1 => OIndex | 2 => OUniqueIndex | _ => OTrigger end) _).
  by intros [].
Defined.
Inductive sql_statement :=
| Create (kind : object_kind) (if_not_exists : bool) (name : string) (body : list string)
| InsertOrIgnoreMeta (key value : string)
| AlterTableAddColumn (table column type : string).

Definition LEDGER_SENTINEL : string := "mission-ledger-sqlcipher-v1".
(** [migrations/0001_event_ledger.sql]. *)
Definition SCHEMA : list sql_statement := [
  Create OTable true "ledger_meta" ["key TEXT PRIMARY KEY NOT NULL"; "value TEXT NOT NULL"];
  Create OTable true "events" [
    "mission_id TEXT NOT NULL"; "route_id TEXT NOT NULL"; "sequence INTEGER NOT NULL";
    "event_id TEXT NOT NULL UNIQUE"; "schema_version INTEGER NOT NULL"; "kind TEXT NOT NULL";
    "occurred_at TEXT NOT NULL"; "payload TEXT NOT NULL"; "raw_evidence TEXT";
    "payload_hash TEXT NOT NULL"; "PRIMARY KEY (mission_id, sequence)"];
  Create OIndex true "events_mission_sequence" ["ON events (mission_id, sequence)"];
  Create OTable true "blob_refs" [
    "blob_hash TEXT PRIMARY KEY NOT NULL"; "size INTEGER NOT NULL"; "media_type TEXT NOT NULL";
    "ref_count INTEGER NOT NULL DEFAULT 0 CHECK (ref_count >= 0)"];
  Create OTable true "mission_blob_refs" [
    "mission_id TEXT NOT NULL"; "blob_hash TEXT NOT NULL"; "size INTEGER NOT NULL";
    "media_type TEXT NOT NULL"; "PRIMARY KEY (mission_id, blob_hash)";
    "FOREIGN KEY (blob_hash) REFERENCES blob_refs(blob_hash) ON DELETE RESTRICT"];
  Create OTable true "mission_lifecycle" [
    "mission_id TEXT PRIMARY KEY NOT NULL";
    "archived INTEGER NOT NULL DEFAULT 0 CHECK (archived IN (0, 1))";
    "deleted INTEGER NOT NULL DEFAULT 0 CHECK (deleted IN (0, 1))";
    "archived_at TEXT"; "archive_plan_hash TEXT"];
  Create OTable true "lifecycle_audit" [
    "receipt_id TEXT PRIMARY KEY NOT NULL"; "operation TEXT NOT NULL"; "mission_id TEXT NOT NULL";
    "plan_hash TEXT NOT NULL"; "created_at TEXT NOT NULL"; "receipt_json TEXT NOT NULL"];
  Create OUniqueIndex true "lifecycle_audit_plan" ["ON lifecycle_audit(operation, plan_hash)"];
  Create OTrigger true "lifecycle_audit_no_update" ["BEFORE UPDATE ON lifecycle_audit";
    "SELECT RAISE(ABORT, 'lifecycle audit receipts are immutable')"];
  Create OTrigger true "lifecycle_audit_no_delete" ["BEFORE DELETE ON lifecycle_audit";
    "SELECT RAISE(ABORT, 'lifecycle audit receipts are immutable')"];
  InsertOrIgnoreMeta "schema_sentinel" LEDGER_SENTINEL ].
Definition ADD_RAW_EVIDENCE : sql_statement := AlterTableAddColumn "events" "raw_evidence" "TEXT".

(** ** SQLCipher

    [db_read] is what the bytes of a file are under a key, [None] when the
    first query fails; [db_write] what is on disk of a database; [db_objects]
    what [sqlite_master] lists and [db_meta] the rows of [ledger_meta]; the
    queries are [PRAGMA table_info(events)], that for the sentinel,
    [PRAGMA quick_check] and those for the rows of the ledger. *)
Class SqlCipher (D : Type) : Type := {
  db_read : list u8 → list u8 → option D;
  db_write : D → list u8 → list u8;
  db_execute : sql_statement → D → D * result string unit;
  db_objects : D → gset (object_kind * string);
  db_meta : D → gmap string string;
  db_columns : D → result string (list string);
  db_sentinel : D → result string (option string);
  db_quick_check : D → result string string;
  db_rows : D → EncryptedLedger;
}.
(** What SQLite and SQLCipher document: a database reads back under its key
    and is not empty on disk; [IF NOT EXISTS] makes a [CREATE] of what exists
    a success without effect, and [OR IGNORE] an insertion under a key that is
    taken; a [CREATE] that succeeds adds its object, an insertion its key, a
    new column is listed; none of them removes anything or touches the rows
    of the ledger's tables. *)
Class SqlCipherLaws (D : Type) `{!SqlCipher D} : Prop := {
  reads_back d key : db_read (db_write d key) key = Some d;
  written_not_empty d key : db_write d key ≠ [];
  create_ignored kind name body d : (kind, name) ∈ db_objects d →
    db_execute (Create kind true name body) d = (d, Ok tt);
  create_creates kind exists_ok name body d d' :
    db_execute (Create kind exists_ok name body) d = (d', Ok tt) → (kind, name) ∈ db_objects d';
  insert_ignored key value d : is_Some (db_meta d !! key) →
    db_execute (InsertOrIgnoreMeta key value) d = (d, Ok tt);
  insert_inserts key value d d' :
    db_execute (InsertOrIgnoreMeta key value) d = (d', Ok tt) → is_Some (db_meta d' !! key);
  column_added column type d d' :
    db_execute (AlterTableAddColumn "events" column type) d = (d', Ok tt) →
    ∃ columns, db_columns d' = Ok columns ∧ column ∈ columns;
  statement_keeps statement d d' : db_execute statement d = (d', Ok tt) →
    db_objects d ⊆ db_objects d' ∧ (∀ key, is_Some (db_meta d !! key) → is_Some (db_meta d' !! key)) ∧
    db_rows d' = db_rows d;
}.

(** [execute_batch]: one statement after the other, up to one that fails. *)
Fixpoint execute_batch {D} `{!SqlCipher D} (statements : list sql_statement) : stm D string unit := λ d,
  match statements with
  | [] => (d, Ok tt)
  | statement :: statements =>
      match db_execute statement d with
      | (d, Ok _) => execute_batch statements d
      | (d, Err e) => (d, Err e)
      end
  end.
#[global] Opaque SCHEMA.

(** ** Files *)
Abbreviation Files := (gmap string (list u8)).
(** [Path::with_extension] of a path that names a file. *)
Definition with_extension (path extension : string) : string :=
  let '(directory, name) := match rsplit_once 47 [] path with
    | Some (directory, name) => (directory +:+ "/", name)
    | None => ("", path)
    end in
  let stem := match rsplit_once 46 [] name with
    | Some (before, _) => if str_eqb before "" then name else before
    | None => name
    end in
  directory +:+ stem +:+ "." +:+ extension.

(** What the surroundings of [open] answer: whether directories can be made,
    the file's size can be asked, what becomes of the two copies, whether the
    connection opens and its settings can be made.  A copy that fails may leave
    its target as it was or with something else in it. *)
Inductive CopyAnswer := Copied | CopyFailed (remains : option (list u8)).
Record OpenEnv := {
  OpenEnv_create_dir : bool;
  OpenEnv_metadata : bool;
  OpenEnv_copy : CopyAnswer;
  OpenEnv_connect : bool;
  OpenEnv_settings : bool;
  OpenEnv_restore : CopyAnswer;
}.
Definition copied (answer : CopyAnswer) (bytes : list u8) (target : string)
    : stm Files LedgerError unit := λ files,
  match answer with
  | Copied => (<[target := bytes]> files, Ok tt)
  | CopyFailed None => (files, Err LedgerIo)
  | CopyFailed (Some remains) => (<[target := remains]> files, Err LedgerIo)
  end.

Section open.
Context `{SerdeJson, Sha256, UuidText, RegexCrate, !JsonParse}.
Context {D : Type} `{!SqlCipher D} {S : Type} `{!KeyStore S}.

Definition backup_path (path : string) (files : Files) : string :=
  let bytes := default [] (files !! path) in
  with_extension path ("backup-" +:+ hex_bytes (take 6 (sha256_digest (bytes_str bytes)))).
Definition backup_database (copy : CopyAnswer) (path : string) : stm Files LedgerError string := λ files,
  let backup := backup_path path files in
  match files !! path with
  | Some bytes => let '(files, r) := copied copy bytes backup files in (files, _ ← r; Ok backup)
  | None => (files, Err LedgerIo)
  end.
Definition restore_database (copy : CopyAnswer) (backup path : string) : stm Files LedgerError unit := λ files,
  match files !! backup with
  | Some bytes => copied copy bytes path files
  | None => (files, Err LedgerIo)
  end.
Definition ensure_raw_evidence_column : stm D LedgerError unit := λ d,
  match db_columns d with
  | Err _ => (d, Err LedgerDatabase)
  | Ok columns =>
      if existsb (str_eqb "raw_evidence") columns then (d, Ok tt)
      else let '(d, r) := db_execute ADD_RAW_EVIDENCE d in (d, map_err (λ _, LedgerDatabase) r)
  end.
Definition is_new_database (path : string) (files : Files) : bool :=
  match files !! path with None | Some [] => true | Some _ => false end.

(** The checks on an open connection: the database as they leave it, and the
    ledger. *)
Definition check_database : stm D LedgerError EncryptedLedger := λ d,
  match ensure_raw_evidence_column d with
  | (d, Err e) => (d, Err e)
  | (d, Ok _) => (d,
      sentinel ← map_err (λ _, LedgerDatabase) (db_sentinel d);
      if negb (bool_decide (sentinel = Some LEDGER_SENTINEL)) then Err KeyMismatch else
      quick_check ← map_err (λ _, LedgerDatabase) (db_quick_check d);
      _ ← integrity_report quick_check (db_rows d);
      Ok (db_rows d))
  end.
(** [open] from the connection on; [backup] is the copy that was made. *)
Definition open_connection (env : OpenEnv) (path : string) (key : list u8) (backup : option string)
    : stm Files LedgerError EncryptedLedger := λ files,
  if negb (OpenEnv_connect env) then (files, Err LedgerDatabase) else
  let files := <[path := default [] (files !! path)]> files in
  if negb (OpenEnv_settings env) then (files, Err LedgerDatabase) else
  match db_read (default [] (files !! path)) key with
  | None => (files, Err KeyMismatch)
  | Some d =>
      let '(d, migrated) := execute_batch SCHEMA d in
      let files := <[path := db_write d key]> files in
      match migrated, backup with
      | Err _, None => (files, Err LedgerDatabase)
      | Err _, Some backup =>
          match restore_database (OpenEnv_restore env) backup path files with
          | (files, Err e) => (files, Err e)
          | (files, Ok _) => (files, Err MigrationFailedReadOnly)
          end
      | Ok _, _ => let '(d, r) := check_database d in (<[path := db_write d key]> files, r)
      end
  end.
Definition ledger_open (env : OpenEnv) (path install_id : string)
    : stm (Files * S) LedgerError EncryptedLedger := λ '(files, store),
  if negb (OpenEnv_create_dir env) then (files, store, Err LedgerIo) else
  if bool_decide (is_Some (files !! path)) && negb (OpenEnv_metadata env)
  then (files, store, Err LedgerIo)
  else if is_new_database path files then
    match load_or_create_database_key install_id store with
    | (store, Err _) => (files, store, Err Ledger.KeyUnavailable)
    | (store, Ok key) =>
        let '(files, r) := open_connection env path key None files in (files, store, r)
    end
  else
    match load_database_key install_id store with
    | Err _ => (files, store, Err Ledger.KeyUnavailable)
    | Ok key =>
        match backup_database (OpenEnv_copy env) path files with
        | (files, Err e) => (files, store, Err e)
        | (files, Ok backup) =>
            let '(files, r) := open_connection env path key (Some backup) files in (files, store, r)
        end
    end.

(** ** What opening does to the files *)
Lemma integrity_loop_error rows : ∀ mission expected count last e,
  integrity_loop rows mission expected count last = Err e → ∃ message, e = LedgerIntegrityFailed message.
Proof.
  induction rows as [|row rows IH]; intros mission expected count last e; [done|]. cbn [integrity_loop].
  destruct (negb (0 <=? _)%Z); [naive_solver|]. destruct (value_from_str _); [|naive_solver].
  destruct (negb (str_eqb _ _)); [unfold hash_mismatch; naive_solver|].
  destruct (negb (_ =? _)%Z); [naive_solver|apply IH].
Qed.
Lemma integrity_error quick_check l e :
  integrity_report quick_check l = Err e → ∃ message, e = LedgerIntegrityFailed message.
Proof. unfold integrity_report. destruct (negb _); [naive_solver|apply integrity_loop_error]. Qed.
Lemma check_database_errors d :
  match (check_database d).2 with
  | Ok _ => True
  | Err e => e = LedgerDatabase ∨ e = KeyMismatch ∨ ∃ message, e = LedgerIntegrityFailed message
  end.
Proof.
  unfold check_database, ensure_raw_evidence_column.
  destruct (db_columns d) as [columns|]; [|by left].
  destruct (existsb _ _); [|destruct (db_execute ADD_RAW_EVIDENCE d) as [d' [[]|]]; [|by left]]; simpl.
  all: destruct (db_sentinel _) as [sentinel|]; simpl; [|by left];
    case_bool_decide; simpl; [|by right; left];
    destruct (db_quick_check _) as [quick|]; simpl; [|by left];
    destruct (integrity_report quick _) eqn:He; simpl; [done|]; right; right; by eapply integrity_error.
Qed.
Lemma open_connection_others env path key backup (files : Files) other :
  other ≠ path → (open_connection env path key backup files).1 !! other = files !! other.
Proof.
  intros Hne. unfold open_connection, restore_database. destruct (OpenEnv_connect env); [|done].
  destruct (OpenEnv_settings env); simpl; [|by rewrite lookup_insert_ne].
  destruct (db_read _ _) as [d|]; simpl; [|by rewrite lookup_insert_ne].
  destruct (execute_batch SCHEMA d) as [d1 [[]|e]]; [destruct (check_database d1) as [d2 r]|]; simpl;
    [by rewrite !lookup_insert_ne by done|].
  destruct backup as [backup|]; simpl;
    [|by rewrite !lookup_insert_ne by done].
  destruct (_ !! backup) as [bytes|]; [destruct (OpenEnv_restore env) as [|[]]|]; simpl; by rewrite !lookup_insert_ne by done.
Qed.
(** What an attempt on an existing database comes to, case by case. *)
Lemma open_connection_keeps env path key backup (files : Files) bytes :
  files !! path = Some bytes → files !! backup = Some bytes → backup ≠ path →
  let '(files', r) := open_connection env path key (Some backup) files in
  files' !! path = Some bytes ∧ is_ok r = false ∧ (r = Err MigrationFailedReadOnly → db_read bytes key ≠ None) ∨
  ∃ d d1, db_read bytes key = Some d ∧
    ((execute_batch SCHEMA d).2 ≠ Ok tt ∧ r = Err LedgerIo ∧
       (∃ remains, OpenEnv_restore env = CopyFailed remains) ∨
     execute_batch SCHEMA d = (d1, Ok tt) ∧ r = (check_database d1).2 ∧ r ≠ Err MigrationFailedReadOnly ∧
       files' !! path = Some (db_write (check_database d1).1 key)).
Proof.
  intros Hp Hb Hne. unfold open_connection. destruct (OpenEnv_connect env); [|by left]. simpl.
  rewrite (insert_id files path) by (by rewrite Hp). destruct (OpenEnv_settings env); [|by left].
  simpl. rewrite Hp. simpl. destruct (db_read bytes key) as [d|]; [|by left].
  destruct (execute_batch SCHEMA d) as [d1 [[]|e]] eqn:Hs.
  - pose proof (check_database_errors d1) as Hc. destruct (check_database d1) as [d2 r] eqn:Hd. simpl in Hc.
    right. exists d, d1. split; [done|]. right. rewrite Hd. simpl. rewrite lookup_insert_eq.
    split_and!; [done|done| |done]. intros ->. naive_solver.
  - unfold restore_database. rewrite lookup_insert_ne, Hb by done.
    destruct (OpenEnv_restore env) as [|remains] eqn:Hr; simpl; [left; by rewrite lookup_insert_eq|].
    destruct remains; simpl; right; exists d, d1; (split; [done|]); left; rewrite Hs; (split_and!; [done|done|by eexists]).
Qed.

(** C37: opening never loses a ledger.  On a database that exists no key is made,
    nothing but the database and its backup is touched, and whenever the
    database does not hold what it held, the backup does.  A database the key
    does not read is refused unchanged; an open that reports a failed migration
    leaves it unchanged.  An open that fails has changed it in two cases only:
    the migration failed and copying the backup back failed too; or the
    migration was carried out, and what came after it, the added column, the
    sentinel or the check of integrity, failed: then the migrated database
    stays. *)
Theorem ledger_open_safe env path install_id (files : Files) (store : S) bytes :
  let backup := backup_path path files in
  files !! path = Some bytes → bytes ≠ [] → backup ≠ path →
  let '(files', store', r) := ledger_open env path install_id (files, store) in
  store' = store ∧
  (∀ other, other ≠ path → other ≠ backup → files' !! other = files !! other) ∧
  (files' !! path = Some bytes ∨ files' !! backup = Some bytes) ∧
  (∀ key, load_database_key install_id store = Ok key → db_read bytes key = None →
    files' !! path = Some bytes ∧ is_ok r = false) ∧
  (r = Err MigrationFailedReadOnly → files' !! path = Some bytes) ∧
  (is_ok r = false → files' !! path ≠ Some bytes →
    ∃ key d d1, load_database_key install_id store = Ok key ∧ db_read bytes key = Some d ∧
      ((execute_batch SCHEMA d).2 ≠ Ok tt ∧ r = Err LedgerIo ∧
         (∃ remains, OpenEnv_restore env = CopyFailed remains) ∨
       execute_batch SCHEMA d = (d1, Ok tt) ∧ r = (check_database d1).2 ∧
         files' !! path = Some (db_write (check_database d1).1 key))).
Proof.
  intros backup Hp Hne Hb. unfold ledger_open, is_new_database. rewrite Hp.
  destruct (OpenEnv_create_dir env); [|by split_and!; auto]. simpl.
  destruct (OpenEnv_metadata env); [|by split_and!; auto]. simpl.
  destruct bytes as [|byte bytes]; [done|]. set (whole := byte :: bytes) in *.
  destruct (load_database_key install_id store) as [key|e] eqn:Hk; [|by split_and!; auto].
  unfold backup_database. rewrite Hp. fold backup.
  destruct (OpenEnv_copy env) as [|[remains|]]; simpl.
  2: { rewrite !lookup_insert_ne by done. split_and!; auto; [intros; by rewrite lookup_insert_ne|done]. }
  2: by split_and!; auto.
  set (files1 := <[backup := whole]> files).
  pose proof (open_connection_keeps env path key backup files1 whole) as Hkeep.
  pose proof (λ other, open_connection_others env path key (Some backup) files1 other) as Hothers.
  destruct (open_connection env path key (Some backup) files1) as [files' r]. simpl in *.
  specialize (Hkeep ltac:(unfold files1; by rewrite lookup_insert_ne) ltac:(by apply lookup_insert_eq) Hb).
  split_and!; [done| | | | |].
  - intros other H4 H5. rewrite Hothers by done. by apply lookup_insert_ne.
  - right. rewrite Hothers by done. apply lookup_insert_eq.
  - intros key' [= <-] Hr. destruct Hkeep as [(?&?&_)|(d&d1&?&_)]; [done|congruence].
  - intros ->. destruct Hkeep as [(?&_)|(d&d1&_&[(_&?&_)|(_&_&?&_)])]; congruence.
  - intros Hr Hc. destruct Hkeep as [(?&_)|(d&d1&Hd&[Hm|(Hm&Hres&_&Hf)])]; [done| |]; exists key, d, d1;
      (split_and!; [done|done|]); [by left|by right].
Qed.
End open.

(** ** Opening again *)
Section reopen.
Context `{SerdeJson, Sha256, UuidText, RegexCrate, !JsonParse}.
Context {D : Type} `{!SqlCipher D, !SqlCipherLaws D} {S : Type} `{!KeyStore S, !KeyStoreLaws S}.

(** What a statement makes, and that it can be repeated once it is made. *)
Definition made (statement : sql_statement) (d : D) : Prop :=
  match statement with
  | Create kind _ name _ => (kind, name) ∈ db_objects d
  | InsertOrIgnoreMeta key _ => is_Some (db_meta d !! key)
  | AlterTableAddColumn _ _ _ => False
  end.
Definition repeatable (statement : sql_statement) : bool :=
  match statement with
  | Create _ if_not_exists _ _ => if_not_exists
  | InsertOrIgnoreMeta _ _ => true
  | AlterTableAddColumn _ _ _ => false
  end.
Lemma made_kept statement other d d' :
  db_execute other d = (d', Ok tt) → made statement d → made statement d'.
Proof. intros (Ho&Hm&_)%statement_keeps. destruct statement; simpl; auto. Qed.
Lemma batch_rows statements : ∀ d d', execute_batch statements d = (d', Ok tt) → db_rows d' = db_rows d.
Proof.
  induction statements as [|st statements IH]; intros d d'; simpl; [by intros [= <-]|].
  destruct (db_execute st d) as [d1 [[]|]] eqn:Hx; [|done]. intros ->%IH.
  by apply statement_keeps in Hx as (_&_&?).
Qed.
Lemma batch_makes statements : ∀ d d', forallb repeatable statements = true →
  execute_batch statements d = (d', Ok tt) →
  (∀ st, made st d → made st d') ∧ Forall (λ st, made st d') statements.
Proof.
  induction statements as [|st statements IH]; intros d d' Hrep; simpl; [by intros [= <-]|].
  simpl in Hrep. apply andb_true_iff in Hrep as [Hst Hrep].
  destruct (db_execute st d) as [d1 [[]|]] eqn:Hx; [|done]. intros Hb.
  destruct (IH _ _ Hrep Hb) as [Hkeep Hall]. split.
  - intros st' Hm. by eapply Hkeep, made_kept.
  - constructor; [|done]. apply Hkeep. destruct st; simpl in *; [by eapply create_creates|by eapply insert_inserts|done].
Qed.
Lemma batch_again statements d : forallb repeatable statements = true →
  Forall (λ st, made st d) statements → execute_batch statements d = (d, Ok tt).
Proof.
  intros Hrep. induction 1 as [|st statements Hm Hall IH]; [done|].
  simpl in Hrep. apply andb_true_iff in Hrep as [Hst Hrep]. simpl.
  assert (db_execute st d = (d, Ok tt)) as ->; [|by apply IH].
  destruct st as [kind [] name body| |]; simpl in *; try done; [by apply create_ignored|by apply insert_ignored].
Qed.
Lemma schema_repeatable : forallb repeatable SCHEMA = true.
Proof. vm_compute. reflexivity. Qed.
(** A database nothing more is to be done to. *)
Definition settled (d : D) (ledger : EncryptedLedger) : Prop :=
  execute_batch SCHEMA d = (d, Ok tt) ∧ check_database d = (d, Ok ledger) ∧
  Forall (λ st, made st d) SCHEMA ∧ ledger = db_rows d.
Lemma checked_again d ledger columns :
  db_columns d = Ok columns → existsb (str_eqb "raw_evidence") columns = true →
  (sentinel ← map_err (λ _, LedgerDatabase) (db_sentinel d);
   if negb (bool_decide (sentinel = Some LEDGER_SENTINEL)) then Err KeyMismatch else
   quick_check ← map_err (λ _, LedgerDatabase) (db_quick_check d);
   _ ← integrity_report quick_check (db_rows d);
   Ok (db_rows d)) = Ok ledger →
  check_database d = (d, Ok ledger) ∧ ledger = db_rows d.
Proof.
  intros Hcol Hex Hr. split; [unfold check_database, ensure_raw_evidence_column; by rewrite Hcol, Hex, Hr|].
  bind_inv Hr. destruct (negb _); [done|]. bind_inv Hr. bind_inv Hr. by injection Hr.
Qed.
Lemma check_settles d d1 d2 ledger :
  execute_batch SCHEMA d = (d1, Ok tt) → check_database d1 = (d2, Ok ledger) →
  settled d2 ledger ∧ ledger = db_rows d.
Proof.
  intros Hs Hc. pose proof (batch_rows _ _ _ Hs) as Hrows.
  destruct (batch_makes SCHEMA _ _ schema_repeatable Hs) as [_ Hmade].
  revert Hc. unfold check_database at 1, ensure_raw_evidence_column.
  destruct (db_columns d1) as [columns|] eqn:Hcol; [|done].
  destruct (existsb _ _) eqn:Hex; simpl.
  { intros [= <- Hl]. destruct (checked_again _ _ _ Hcol Hex Hl) as [Hc ->].
    split; [|done]. split_and!; [by apply batch_again; [apply schema_repeatable|]|done..]. }
  destruct (db_execute ADD_RAW_EVIDENCE d1) as [d' [[]|]] eqn:Ha; simpl; [|done]. intros [= <- Hl].
  assert (Forall (λ st, made st d') SCHEMA) as Hmade'.
  { eapply Forall_impl; [exact Hmade|]. intros st. by apply (made_kept _ _ _ _ Ha). }
  destruct (column_added _ _ _ _ Ha) as (columns'&Hcol'&Hin).
  destruct (checked_again d' ledger columns') as [Hc ->]; [done| |done|].
  { apply existsb_exists. exists "raw_evidence". split; [by apply list_elem_of_In|by apply String.eqb_eq]. }
  apply statement_keeps in Ha as (_&_&Hr). split; [|congruence]. split_and!; [by apply batch_again; [apply schema_repeatable|]|done..].
Qed.
Lemma open_connection_ok env path key backup (files files' : Files) ledger :
  open_connection env path key backup files = (files', Ok ledger) →
  ∃ d0 d, db_read (default [] (files !! path)) key = Some d0 ∧ ledger = db_rows d0 ∧
    files' !! path = Some (db_write d key) ∧ settled d ledger.
Proof.
  unfold open_connection. destruct (OpenEnv_connect env); [|done]. destruct (OpenEnv_settings env); [|done].
  simpl. rewrite lookup_insert_eq. simpl. destruct (db_read _ key) as [d|]; [|done].
  destruct (execute_batch SCHEMA d) as [d1 [[]|e]] eqn:Hs.
  2: { destruct backup as [backup|]; [|done]. by destruct (restore_database _ _ _ _) as [? [[]|]]. }
  destruct (check_database d1) as [d2 r] eqn:Hc. intros [= <- ->]. exists d, d2. rewrite lookup_insert_eq.
  by destruct (check_settles _ _ _ _ Hs Hc).
Qed.
Lemma open_settled env path key backup (files : Files) d ledger :
  OpenEnv_connect env = true → OpenEnv_settings env = true →
  files !! path = Some (db_write d key) → settled d ledger →
  open_connection env path key backup files = (files, Ok ledger).
Proof.
  intros Hc Hs Hp (Hm&Hd&_). unfold open_connection. rewrite Hc, Hs, Hp. cbn [negb default].
  rewrite (insert_id files path) by done. rewrite Hp. simpl. rewrite reads_back, Hm, Hd.
  by rewrite (insert_id files path), insert_id by done.
Qed.
Lemma ledger_opened env path install_id (files files' : Files) (store store' : S) ledger :
  ledger_open env path install_id (files, store) = (files', store', Ok ledger) →
  ∃ key d0 d, load_database_key install_id store' = Ok key ∧
    db_read (default [] (files !! path)) key = Some d0 ∧ ledger = db_rows d0 ∧
    files' !! path = Some (db_write d key) ∧ settled d ledger.
Proof.
  unfold ledger_open. destruct (OpenEnv_create_dir env); [|done]. simpl.
  destruct (bool_decide _ && negb _); [done|]. destruct (is_new_database path files).
  - destruct (load_or_create_database_key install_id store) as [store1 [key|]] eqn:Hk; [|done].
    destruct (open_connection env path key None files) as [files1 r] eqn:Ho. intros [= <- <- ->].
    apply open_connection_ok in Ho as (d0&d&Hd&Hl&Hp&Hs). exists key, d0, d. by apply created_key_loads in Hk.
  - destruct (load_database_key install_id store) as [key|] eqn:Hk; [|done].
    unfold backup_database. destruct (files !! path) as [bytes|] eqn:Hp; [|done].
    destruct (OpenEnv_copy env) as [|[]]; simpl; [|done|done].
    destruct (open_connection env path key (Some _) _) as [files2 r] eqn:Ho. intros [= <- <- ->].
    apply open_connection_ok in Ho as (d0&d&Hd&Hl&Hp'&Hs). exists key, d0, d. split_and!; try done.
    destruct (decide (backup_path path files = path)) as [He|He]; [rewrite He, lookup_insert_eq in Hd|
      rewrite lookup_insert_ne, Hp in Hd by done]; done.
Qed.
(** All goes well with the files and the connection. *)
Definition open_works : OpenEnv := {|
  OpenEnv_create_dir := true; OpenEnv_metadata := true; OpenEnv_copy := Copied;
  OpenEnv_connect := true; OpenEnv_settings := true; OpenEnv_restore := Copied |}.
(** C18: opening gives the rows that were in the file, and can be repeated.
    After a successful open, whatever database it found, an old one whose
    schema it completed or none at all: the ledger has exactly the rows the
    file held under the installation's key; the file holds a database with
    every table, index and trigger of the migration script and its sentinel;
    and the next open by the same installation, if nothing fails around it,
    carries out the script again without effect, gives the same rows and
    leaves the file as it is, byte for byte. *)
Theorem ledger_reopens env path install_id (files files1 : Files) (store store1 : S) ledger :
  ledger_open env path install_id (files, store) = (files1, store1, Ok ledger) →
  backup_path path files1 ≠ path →
  (∃ key found d, load_database_key install_id store1 = Ok key ∧
    db_read (default [] (files !! path)) key = Some found ∧ ledger = db_rows found ∧
    files1 !! path = Some (db_write d key) ∧
    (∀ kind name body, Create kind true name body ∈ SCHEMA → (kind, name) ∈ db_objects d) ∧
    is_Some (db_meta d !! "schema_sentinel")) ∧
  ∃ files2, ledger_open open_works path install_id (files1, store1) = (files2, store1, Ok ledger) ∧
    files2 !! path = files1 !! path.
Proof.
  intros (key&d0&d&Hk&Hd0&Hl&Hp&Hs)%ledger_opened Hb. destruct Hs as (Hm&Hc&Hmade&Hrows). split.
  - exists key, d0, d. split_and!; [done..| |].
    + intros kind name body Hin. rewrite list.Forall_forall in Hmade. by apply Hmade in Hin.
    + rewrite list.Forall_forall in Hmade. apply (Hmade (InsertOrIgnoreMeta "schema_sentinel" LEDGER_SENTINEL)).
      apply list_elem_of_In. vm_compute. tauto.
  - assert (is_new_database path files1 = false) as Hnew.
    { unfold is_new_database. rewrite Hp. destruct (db_write d key) eqn:E; [|done].
      by apply written_not_empty in E. }
    set (files2 := <[backup_path path files1 := db_write d key]> files1).
    assert (files2 !! path = Some (db_write d key)) as Hp2 by (unfold files2; by rewrite lookup_insert_ne).
    exists files2. split; [|by rewrite Hp2, Hp].
    unfold ledger_open, backup_database. cbn [open_works OpenEnv_create_dir
      OpenEnv_metadata OpenEnv_copy negb]. rewrite Hnew, Hk, Hp, andb_false_r. simpl.
    fold files2. by rewrite (open_settled _ _ _ _ _ d ledger).
Qed.
End reopen.

Module OpenExamples.
Import Json RedactionExamples RecoveryPackageExamples CodedJson.

(** A database that knows its objects, whether it has its sentinel, and whether
    its events have their column; on disk it is what it knows and its key. *)
Record toy_db := { toy_objects : list (object_kind * string); toy_marked : bool; toy_column : bool }.
Definition toy_code (d : toy_db) : Z :=
  Z.pos (encode (toy_objects d, toy_marked d, toy_column d)).
Definition toy_decode (z : Z) : option toy_db :=
  '(objects, marked, column) ← decode (Z.to_pos z);
  Some {| toy_objects := objects; toy_marked := marked; toy_column := column |}.
Definition toy_add (o : object_kind * string) (d : toy_db) : toy_db := {|
  toy_objects := if decide (o ∈ toy_objects d) then toy_objects d else toy_objects d ++ [o];
  toy_marked := toy_marked d; toy_column := toy_column d |}.
Definition toy_execute (statement : sql_statement) (d : toy_db) : toy_db * result string unit :=
  match statement with
  | Create kind if_not_exists name _ =>
      if negb if_not_exists && bool_decide ((kind, name) ∈ toy_objects d) then (d, Err "already exists")
      else (if str_eqb name "events" && negb (bool_decide ((kind, name) ∈ toy_objects d)) then
              {| toy_objects := toy_objects (toy_add (kind, name) d);
                 toy_marked := toy_marked d; toy_column := true |}
            else toy_add (kind, name) d, Ok tt)
  | InsertOrIgnoreMeta key _ =>
      if str_eqb key "schema_sentinel" then
        ({| toy_objects := toy_objects d; toy_marked := true; toy_column := toy_column d |}, Ok tt)
      else (d, Err "no such row")
  | AlterTableAddColumn table column _ =>
      if str_eqb column "raw_evidence" then
        ({| toy_objects := toy_objects d; toy_marked := toy_marked d; toy_column := true |}, Ok tt)
      else (d, Err "no such column")
  end.
Definition toy_new : toy_db := {| toy_objects := []; toy_marked := false; toy_column := false |}.
Definition toy_meta (d : toy_db) : gmap string string :=
  if toy_marked d then {[ "schema_sentinel" := LEDGER_SENTINEL ]} else ∅.
#[local] Instance toy_sql : SqlCipher toy_db := {
  db_read bytes key := match bytes with
    | [] => Some toy_new
    | code :: key' => if bool_decide (key = key') then toy_decode code else None
    end;
  db_write d key := toy_code d :: key;
  db_execute := toy_execute;
  db_objects d := list_to_set (toy_objects d);
  db_meta := toy_meta;
  db_columns d := Ok (if toy_column d then ["raw_evidence"] else []);
  db_sentinel d := Ok (toy_meta d !! "schema_sentinel");
  db_quick_check _ := Ok "ok";
  db_rows _ := EncryptedLedger_new;
}.
Lemma toy_add_objects o d o' : o' ∈ toy_objects (toy_add o d) ↔ o' = o ∨ o' ∈ toy_objects d.
Proof. unfold toy_add. simpl. case_decide; set_solver. Qed.
Lemma toy_add_known o d : o ∈ toy_objects d → toy_add o d = d.
Proof. destruct d. unfold toy_add. simpl. intros. by rewrite decide_True. Qed.
#[local] Instance toy_sql_laws : SqlCipherLaws toy_db.
Proof.
  split.
  - intros [] key. simpl. rewrite bool_decide_true by done. unfold toy_decode, toy_code. simpl.
    by rewrite decode_encode.
  - done.
  - intros kind name body d Hin. simpl in *. apply elem_of_list_to_set in Hin.
    rewrite (bool_decide_true _ Hin), andb_false_r, toy_add_known by done. done.
  - intros kind ok name body d d'. simpl. destruct (negb ok && _); [done|]. intros [= <-].
    apply elem_of_list_to_set. destruct (_ && _); simpl; apply toy_add_objects; by left.
  - intros key value [objects marked column]. simpl. unfold toy_meta. simpl. destruct marked.
    + intros [v [<- _]%lookup_singleton_Some]. done.
    + rewrite lookup_empty. by intros [].
  - intros key value d d'. simpl. destruct (str_eqb key _) eqn:E; [|done]. intros [= <-].
    apply String.eqb_eq in E as ->. unfold toy_meta. simpl. rewrite lookup_singleton_eq. by eexists.
  - intros column type d d'. simpl. destruct (str_eqb column _) eqn:E; [|done]. intros [= <-].
    apply String.eqb_eq in E as ->. simpl. eexists. split; [done|by left].
  - intros [kind ok name body|key value|table column type] d d'; simpl.
    + destruct (negb ok && _); [done|]. intros [= <-]. split_and!; [|by destruct (_ && _)|done].
      intros o Ho. apply elem_of_list_to_set in Ho. apply elem_of_list_to_set.
      destruct (_ && _); simpl; apply toy_add_objects; by right.
    + destruct (str_eqb key _); [|done]. intros [= <-]. split_and!; [done| |done].
      intros key'. unfold toy_meta. simpl. destruct (toy_marked d); [done|].
      rewrite lookup_empty. by intros [].
    + destruct (str_eqb column _); [|done]. by intros [= <-].
Qed.
#[local] Instance toy_keys : KeyStore InMemoryKeyStore := in_memory_store (λ _, Some [7%Z]).
#[local] Instance toy_keys_laws : KeyStoreLaws InMemoryKeyStore := in_memory_laws (λ _, Some [7%Z]).
Definition toy_store : InMemoryKeyStore := {| InMemory_keys := ∅; InMemory_drawn := 0 |}.
(** A database of before the column and the audit, and its first open. *)
Definition toy_old : list u8 :=
  db_write {| toy_objects := [(OTable, "ledger_meta"); (OTable, "events")]; toy_marked := true;
              toy_column := false |} [7%Z].
Definition toy_files : gmap string (list u8) := {[ "/d/ledger.db" := toy_old ]}.
Definition toy_first : gmap string (list u8) * InMemoryKeyStore * result LedgerError EncryptedLedger :=
  ledger_open open_works "/d/ledger.db" "a" (toy_files, InMemory_insert "a" [7%Z] toy_store).
Lemma ledger_reopens_witness :
  toy_first.1.1 !! "/d/ledger.db" ≠ Some toy_old ∧
  ∃ files2, ledger_open open_works "/d/ledger.db" "a" (toy_first.1.1, toy_first.1.2) =
     (files2, toy_first.1.2, Ok EncryptedLedger_new) ∧
     files2 !! "/d/ledger.db" = toy_first.1.1 !! "/d/ledger.db".
Proof.
  split; [apply (bool_decide_eq_false_1 _); vm_compute; reflexivity|].
  assert (toy_first.2 = Ok EncryptedLedger_new) as Hr by (vm_compute; reflexivity).
  destruct (ledger_reopens open_works "/d/ledger.db" "a" toy_files toy_first.1.1
    (InMemory_insert "a" [7%Z] toy_store) toy_first.1.2 EncryptedLedger_new) as [_ Hs].
  - fold toy_first. rewrite <-Hr. by destruct toy_first as [[]].
  - apply (bool_decide_eq_false_1 _). vm_compute. reflexivity.
  - exact Hs.
Defined.
(** A disk that is full at the third statement. *)
Definition toy_failing : SqlCipher toy_db := {|
  db_read := db_read; db_write := db_write;
  db_execute statement d := match statement with
    | Create OIndex _ _ _ => (d, Err "disk full")
    | _ => toy_execute statement d
    end;
  db_objects := db_objects; db_meta := db_meta; db_columns := db_columns;
  db_sentinel := db_sentinel; db_quick_check := db_quick_check; db_rows := db_rows |}.
(** An old database whose migration fails half-way is put back. *)
Lemma ledger_open_safe_witness :
  let opened := ledger_open (SqlCipher0 := toy_failing) open_works "/d/ledger.db" "a"
    (toy_files, InMemory_insert "a" [7%Z] toy_store) in
  opened.2 = Err MigrationFailedReadOnly ∧ opened.1.1 !! "/d/ledger.db" = Some toy_old.
Proof.
  intros opened.
  pose proof (ledger_open_safe (SqlCipher0 := toy_failing) open_works "/d/ledger.db" "a" toy_files
    (InMemory_insert "a" [7%Z] toy_store) toy_old eq_refl) as Hs.
  fold opened in Hs. assert (opened.2 = Err MigrationFailedReadOnly) as Hr by (vm_compute; reflexivity).
  destruct opened as [[files' store'] r]. split; [exact Hr|].
  destruct Hs as (_&_&_&_&Hm&_); [discriminate|apply (bool_decide_eq_false_1 _); vm_compute; reflexivity|exact (Hm Hr)].
Defined.
End OpenExamples.
