(* ===== verification/BlobFiles.v ===== *)
(** * The blob store on disk ([crates/ledger/src/blob_store.rs])

    Where blobs and the temporary files of interrupted writes are, opening
    the store, and the report that finds what a crash left behind.  What the
    file system and the database answer to the report is given. *)

From S2P Require Import Prelude Text Extern Frame BlobStore Ledger KeyStore LedgerOpen.
From Stdlib Require Import ZArith Lia.
From stdpp Require Import prelude gmap strings.

(** ** Paths

    A directory joined with a name, and the paths of [put]. *)
Definition join (directory name : string) : string := directory +:+ "/" +:+ name.
Definition path_for_hash (root hash : string) : result BlobStoreError string :=
  _ ← validate_hash hash;
  Ok (join (join (join root (String.substring 0 2 hash)) (String.substring 2 2 hash)) (hash +:+ ".blob")).
Definition temp_name (hash uuid : string) : string := "." +:+ hash +:+ "." +:+ uuid +:+ ".tmp".
(** [Path::extension] of a file name. *)
Definition extension (name : string) : option string :=
  match rsplit_once 46 [] name with
  | Some (before, after) => if str_eqb before "" then None else Some after
  | None => None
  end.

(** ** Opening *)
Definition BLOB_TABLE : sql_statement :=
  Create OTable true "blob_refs" [
    "blob_hash TEXT PRIMARY KEY NOT NULL"; "size INTEGER NOT NULL"; "media_type TEXT NOT NULL";
    "ref_count INTEGER NOT NULL DEFAULT 0 CHECK (ref_count >= 0)"].
Section open.
Context {D : Type} `{!SqlCipher D}.
(** [Hkdf::<Sha256>]: salt, key material and info. *)
Context (hkdf_sha256 : list u8 → list u8 → list u8 → list u8).

Record OpenedBlobStore := { Opened_root : string; Opened_cipher : list u8 }.
Definition derive_cipher (database_key : list u8) : list u8 :=
  hkdf_sha256 (str_bytes "mission-ledger-blob-v1") database_key (str_bytes "content-addressed-blob").
Definition blob_open_metadata (connects : bool) (root metadata_path : string) (key : list u8)
    (require_ledger : bool) : stm Files BlobStoreError OpenedBlobStore := λ files,
  if negb connects then (files, Err BlobDatabase) else
  let files := <[metadata_path := default [] (files !! metadata_path)]> files in
  match db_read (default [] (files !! metadata_path)) key with
  | None => (files, Err BlobDatabase)
  | Some d =>
      match (if require_ledger then
               initialized ← map_err (λ _, BlobDatabase) (db_sentinel d);
               if bool_decide (initialized = Some LEDGER_SENTINEL) then Ok tt
               else Err LedgerNotInitialized
             else Ok tt) with
      | Err e => (files, Err e)
      | Ok _ =>
          let '(d, r) := execute_batch [BLOB_TABLE] d in
          (<[metadata_path := db_write d key]> files,
           _ ← map_err (λ _, BlobDatabase) r;
           Ok {| Opened_root := root; Opened_cipher := derive_cipher key |})
      end
  end.
Definition blob_open (creates connects : bool) (root : string) (key : list u8)
    : stm Files BlobStoreError OpenedBlobStore := λ files,
  if negb creates then (files, Err BlobIo)
  else blob_open_metadata connects root (join root "metadata.db") key false files.
Definition open_for_ledger (creates connects : bool) (root ledger_path : string) (key : list u8)
    : stm Files BlobStoreError OpenedBlobStore := λ files,
  if negb creates then (files, Err BlobIo)
  else blob_open_metadata connects root ledger_path key true files.

(** Blobs are kept with a ledger only: without the ledger's own sentinel,
    under its key, the store does not open and the file is as it was; and on a
    ledger whose script was carried out, opening the store changes nothing. *)
Lemma open_for_ledger_needs_ledger creates connects root path key (files files' : Files) r bytes :
  files !! path = Some bytes → open_for_ledger creates connects root path key files = (files', r) →
  (∃ d, db_read bytes key = Some d ∧ db_sentinel d = Ok (Some LEDGER_SENTINEL)) ∨
  files' = files ∧ is_ok r = false.
Proof.
  intros Hp. unfold open_for_ledger, blob_open_metadata.
  destruct creates; [|by intros [= <- <-]; right]. destruct connects; [|by intros [= <- <-]; right].
  simpl. rewrite Hp. simpl. rewrite insert_id, Hp by done. simpl.
  destruct (db_read bytes key) as [d|]; [|by intros [= <- <-]; right].
  destruct (db_sentinel d) as [sentinel|]  eqn:Hs; simpl; [|by intros [= <- <-]; right].
  case_bool_decide as Hl; [|by intros [= <- <-]; right]. left. exists d. by subst.
Qed.
Lemma open_for_ledger_settled `{!SqlCipherLaws D} root path key (files : Files) d :
  files !! path = Some (db_write d key) → (OTable, "blob_refs") ∈ db_objects d →
  db_sentinel d = Ok (Some LEDGER_SENTINEL) →
  open_for_ledger true true root path key files =
    (files, Ok {| Opened_root := root; Opened_cipher := derive_cipher key |}).
Proof.
  intros Hp Ho Hs. unfold open_for_ledger, blob_open_metadata. simpl. rewrite Hp. simpl.
  rewrite insert_id, Hp by done. simpl. rewrite reads_back, Hs. simpl.
  unfold BLOB_TABLE. rewrite create_ignored by done. simpl. by rewrite insert_id.
Qed.
End open.

(** ** What a crash leaves behind *)

(** What the surroundings answer while the report is made.  [read_dir] is
    asked with a path, as the code asks: [None] when the directory cannot be
    opened, an entry [None] when reading that entry fails, else its name and
    whether [is_dir] holds of its path, which follows links; so a link to a
    directory is a directory here, and nothing keeps a path from leading back
    to where it came from.  The statement can fail to be prepared or to be
    run, and a row of its answer can be unreadable. *)
Record ReportEnv := {
  ReportEnv_read_dir : string → option (list (option (string * bool)));
  ReportEnv_prepare : bool;
  ReportEnv_query_map : bool;
  ReportEnv_row_read : string → bool;
}.
Definition is_tmp (name : string) : bool := bool_decide (extension name = Some "tmp").

(** One directory: the directories in it, pushed one after the other, and its
    temporary files. *)
Fixpoint visit (directory : string) (entries : list (option (string * bool)))
    (pending found : list string) : result BlobStoreError (list string * list string) :=
  match entries with
  | [] => Ok (pending, found)
  | None :: _ => Err BlobIo
  | Some (name, is_dir) :: entries =>
      let path := join directory name in
      if is_dir : bool then visit directory entries (path :: pending) found
      else if is_tmp name then visit directory entries pending (found ++ [path])
      else visit directory entries pending found
  end.
(** [while let Some(directory) = pending.pop()], for at most [fuel] turns. *)
Fixpoint walk (env : ReportEnv) (fuel : nat) (pending found : list string)
    : option (result BlobStoreError (list string)) :=
  match fuel with
  | O => None
  | S fuel =>
      match pending with
      | [] => Some (Ok found)
      | directory :: pending =>
          match ReportEnv_read_dir env directory with
          | None => Some (Err BlobIo)
          | Some entries =>
              match visit directory entries pending found with
              | Err e => Some (Err e)
              | Ok (pending, found) => walk env fuel pending found
              end
          end
      end
  end.
Record BlobRecoveryReport := {
  BlobRecoveryReport_temporary_files : list string;
  BlobRecoveryReport_missing_blob_files : list string;
  BlobRecoveryReport_recovery_required : bool;
}.
Definition recovery_report (env : ReportEnv) (fuel : nat) (root : string) (self : EncryptedBlobStore)
    : option (result BlobStoreError BlobRecoveryReport) :=
  walked ← walk env fuel [root] [];
  Some (temporary_files ← walked;
        if negb (ReportEnv_prepare env) then Err BlobDatabase else
        if negb (ReportEnv_query_map env) then Err BlobDatabase else
        let missing := filter (λ hash, ReportEnv_row_read env hash = true) (missing_blob_files self) in
        Ok {| BlobRecoveryReport_temporary_files := temporary_files;
              BlobRecoveryReport_missing_blob_files := missing;
              BlobRecoveryReport_recovery_required :=
                negb (bool_decide (temporary_files = [])) || negb (bool_decide (missing = [])) |}).

(** ** The report is complete *)
Section report.
Context (env : ReportEnv).
Abbreviation read_dir := (ReportEnv_read_dir env).

(** The paths of the directories below a directory, itself included; its
    temporary files; and whether something below it cannot be read. *)
Inductive dir_below : string → string → Prop :=
| below_here directory : dir_below directory directory
| below_step directory entries name d :
    read_dir directory = Some entries → Some (name, true) ∈ entries →
    dir_below (join directory name) d → dir_below directory d.
Definition tmp_below (directory path : string) : Prop :=
  ∃ d entries name, dir_below directory d ∧ read_dir d = Some entries ∧
    Some (name, false) ∈ entries ∧ is_tmp name = true ∧ path = join d name.
Definition unreadable_below (directory : string) : Prop :=
  ∃ d, dir_below directory d ∧
    (read_dir d = None ∨ ∃ entries, read_dir d = Some entries ∧ None ∈ entries).
(** No path goes down more than [n] directories. *)
Fixpoint depth_within (n : nat) (directory : string) : Prop :=
  match n with
  | O => False
  | S n => ∀ entries name, read_dir directory = Some entries → Some (name, true) ∈ entries →
      depth_within n (join directory name)
  end.

Definition subdirs (directory : string) (entries : list (option (string * bool))) : list string :=
  omap (λ e, match e with Some (name, true) => Some (join directory name) | _ => None end) entries.
Lemma elem_subdirs directory entries d :
  d ∈ subdirs directory entries ↔ ∃ name, Some (name, true) ∈ entries ∧ d = join directory name.
Proof.
  unfold subdirs. rewrite list_elem_of_omap. split.
  - intros ([[name []]|]&Hin&He); simplify_eq/=. by exists name.
  - intros (name&Hin&->). by exists (Some (name, true)).
Qed.
Lemma visit_spec directory entries : ∀ pending found,
  match visit directory entries pending found with
  | Err _ => None ∈ entries
  | Ok (pending', found') => (None ∉ entries) ∧
      pending' = rev (subdirs directory entries) ++ pending ∧
      ∀ path, path ∈ found' ↔ path ∈ found ∨
        ∃ name, Some (name, false) ∈ entries ∧ is_tmp name = true ∧ path = join directory name
  end.
Proof.
  induction entries as [|[[name []]|] entries IH]; intros pending found; cbn [visit].
  - split_and!; [set_solver|done|set_solver].
  - specialize (IH (join directory name :: pending) found).
    destruct (visit _ _ _ _) as [[pending' found']|e]; [|by right]. destruct IH as (Hn&->&Hf).
    split_and!; [set_solver| |intros path; rewrite Hf; setoid_rewrite elem_of_cons; naive_solver].
    change (subdirs _ (_ :: entries)) with
      (join directory name :: subdirs directory entries). simpl. by rewrite <-app_assoc.
  - specialize (IH pending (if is_tmp name then found ++ [join directory name] else found)).
    destruct (is_tmp name) eqn:Ht; (destruct (visit _ _ _ _) as [[pending' found']|e]; [|by right]);
      destruct IH as (Hn&->&Hf); (split_and!; [set_solver|done|]); intros path; rewrite Hf;
      setoid_rewrite elem_of_cons.
    + rewrite elem_of_app, list_elem_of_singleton. naive_solver.
    + split; (intros [?|(name'&Hin&Htmp&->)]; [by left|right]); [by eauto|].
      destruct Hin as [[= ->]|]; [congruence|by eauto].
  - by left.
Qed.

Lemma below_inv directory d : dir_below directory d →
  d = directory ∨ ∃ entries name, read_dir directory = Some entries ∧
    Some (name, true) ∈ entries ∧ dir_below (join directory name) d.
Proof. intros []; [by left|right; eauto]. Qed.
Lemma readable_step directory entries : read_dir directory = Some entries → None ∉ entries →
  unreadable_below directory ↔ ∃ d, d ∈ subdirs directory entries ∧ unreadable_below d.
Proof.
  intros Hr Hn. split.
  - intros (d&[->|(es&name&?&Hin&Hb)]%below_inv&Hd); [naive_solver|]. simplify_eq.
    exists (join directory name). split; [apply elem_subdirs; eauto|]. by exists d.
  - intros (d&(name&Hin&->)%elem_subdirs&d'&Hb&Hd). exists d'. split; [|done]. by eapply below_step.
Qed.
Lemma tmp_step directory entries path : read_dir directory = Some entries →
  tmp_below directory path ↔
    (∃ name, Some (name, false) ∈ entries ∧ is_tmp name = true ∧ path = join directory name) ∨
    ∃ d, d ∈ subdirs directory entries ∧ tmp_below d path.
Proof.
  intros Hr. split.
  - intros (d&es&name&[->|(es'&name'&?&Hin&Hb)]%below_inv&Hd&Ht); simplify_eq; [by left; eauto|right].
    exists (join directory name'). split; [apply elem_subdirs; eauto|]. by exists d, es, name.
  - intros [(name&Ht)|(d&(name&Hin&->)%elem_subdirs&d'&es&name'&Hb&Hd)].
    + exists directory, entries, name. split_and!; [constructor|done|apply Ht..].
    + exists d', es, name'. split; [by eapply below_step|done].
Qed.
Lemma in_rev_elem {A} (x : A) l : x ∈ rev l ↔ x ∈ l.
Proof. rewrite !list_elem_of_In. symmetry. apply in_rev. Qed.

(** What a walk that ends has found. *)
Lemma walk_finds fuel : ∀ pending found r,
  walk env fuel pending found = Some r →
  match r with
  | Ok all => (∀ d, d ∈ pending → ¬ unreadable_below d) ∧
      ∀ path, path ∈ all ↔ path ∈ found ∨ ∃ d, d ∈ pending ∧ tmp_below d path
  | Err e => e = BlobIo ∧ ∃ d, d ∈ pending ∧ unreadable_below d
  end.
Proof.
  induction fuel as [|fuel IH]; intros pending found r; [done|]. cbn [walk].
  destruct pending as [|directory pending]; [intros [= <-]; set_solver|].
  destruct (read_dir directory) as [entries|] eqn:Hr.
  2: { intros [= <-]. split; [done|]. exists directory. split; [by left|].
    exists directory. split; [constructor|by left]. }
  pose proof (visit_spec directory entries pending found) as Hv.
  destruct (visit directory entries pending found) as [[pending' found']|e] eqn:Hvis.
  2: { intros [= <-]. split.
    - clear -Hvis. revert pending found Hvis. induction entries as [|[[name []]|] entries IH]; simpl;
        intros pending found; try done; [apply IH|case_match; apply IH|by intros [= <-]].
    - exists directory. split; [by left|]. exists directory. split; [constructor|right; eauto]. }
  destruct Hv as (Hn&->&Hf). intros Hw%IH. pose proof (readable_step _ _ Hr Hn) as Hs.
  destruct r as [all|e].
  - destruct Hw as [Hread Hall]. split.
    + intros d [->|Hd]%elem_of_cons; [|apply Hread; set_solver].
      rewrite Hs. intros (d&Hd&Hu). eapply Hread; [|done]. rewrite elem_of_app, in_rev_elem. by left.
    + intros path. rewrite Hall, Hf. setoid_rewrite elem_of_app. setoid_rewrite in_rev_elem.
      setoid_rewrite elem_of_cons. pose proof (tmp_step _ _ path Hr). naive_solver.
  - destruct Hw as (->&d&Hd&Hu). split; [done|]. rewrite elem_of_app, in_rev_elem in Hd.
    destruct Hd as [Hd|Hd]; [|exists d; split; [by right|done]].
    exists directory. split; [by left|]. apply Hs. eauto.
Qed.
Lemma walk_more fuel : ∀ more pending found r, fuel ≤ more →
  walk env fuel pending found = Some r → walk env more pending found = Some r.
Proof.
  induction fuel as [|fuel IH]; intros [|more] pending found r Hle; try done; [lia|]. cbn [walk].
  destruct pending as [|directory pending]; [done|]. destruct (read_dir directory); [|done].
  destruct (visit _ _ _ _) as [[]|]; [|done]. apply IH. lia.
Qed.
(** A walk ends when nothing is infinitely deep, and it does not finish its
    search when something is. *)
Lemma walk_ends n : ∀ directory pending found, depth_within n directory →
  (∀ found, ∃ fuel, is_Some (walk env fuel pending found)) →
  ∃ fuel, is_Some (walk env fuel (directory :: pending) found).
Proof.
  induction n as [|n IH]; intros directory pending found Hd Hrest; [done|].
  destruct (read_dir directory) as [entries|] eqn:Hr; [|exists 1; cbn [walk]; by rewrite Hr].
  pose proof (visit_spec directory entries pending found) as Hv.
  destruct (visit directory entries pending found) as [[pending' found']|e] eqn:Hvis;
    [|exists 1; cbn [walk]; by rewrite Hr, Hvis].
  destruct Hv as (_&->&_).
  assert (∀ l found, (∀ d, d ∈ l → depth_within n d) →
    ∃ fuel, is_Some (walk env fuel (l ++ pending) found)) as Hl.
  { induction l as [|d l IHl]; intros found1 Hall; [apply Hrest|]. simpl. apply IH; [apply Hall; by left|].
    intros found2. apply IHl. intros. apply Hall. by right. }
  destruct (Hl (rev (subdirs directory entries)) found') as [fuel Hfuel].
  { intros d. rewrite in_rev_elem. intros (name&Hin&->)%elem_subdirs. by eapply Hd. }
  exists (S fuel). cbn [walk]. by rewrite Hr, Hvis.
Qed.
Lemma depth_more n : ∀ m directory, n ≤ m → depth_within n directory → depth_within m directory.
Proof.
  induction n as [|n IH]; intros [|m] directory Hle; try done; [lia|]. simpl. intros Hd entries name Hr Hin.
  apply IH; [lia|by eapply Hd].
Qed.
Lemma walk_finished fuel : ∀ pending found all,
  walk env fuel pending found = Some (Ok all) → Forall (depth_within fuel) pending.
Proof.
  induction fuel as [|fuel IH]; intros pending found all; [done|]. cbn [walk].
  destruct pending as [|directory pending]; [by constructor|].
  destruct (read_dir directory) as [entries|] eqn:Hr; [|done].
  pose proof (visit_spec directory entries pending found) as Hv.
  destruct (visit _ _ _ _) as [[pending' found']|]; [|done]. destruct Hv as (_&->&_).
  intros [Hsub Hrest]%IH%list.Forall_app. constructor.
  - simpl. intros es name Hr' Hin. simplify_eq. rewrite list.Forall_forall in Hsub. apply Hsub.
    rewrite in_rev_elem. apply elem_subdirs. eauto.
  - eapply Forall_impl; [exact Hrest|]. intros d. apply depth_more. lia.
Qed.
End report.

(** ** Names *)
Lemma rsplit_none suffix : ∀ cur cur',
  rsplit_once 46 cur suffix = None → rsplit_once 46 cur' suffix = None.
Proof.
  induction suffix as [|c r IH]; intros cur cur'; [done|]. cbn [rsplit_once].
  destruct (rsplit_once 46 (c :: cur) r) eqn:E; [done|]. destruct (byte_is 46 c); [done|].
  by rewrite (IH _ (c :: cur') E).
Qed.
Lemma rsplit_last suffix s : ∀ cur, rsplit_once 46 [] suffix = None →
  rsplit_once 46 cur (s +:+ String (Ascii.ascii_of_N 46) suffix) =
    Some (part (rev (String.list_ascii_of_string s) ++ cur), suffix).
Proof.
  induction s as [|c s IH]; intros cur Hn.
  - change ("" +:+ String (Ascii.ascii_of_N 46) suffix) with (String (Ascii.ascii_of_N 46) suffix).
    cbn [rsplit_once]. by rewrite (rsplit_none suffix [] _ Hn).
  - change (String c s +:+ String (Ascii.ascii_of_N 46) suffix)
      with (String c (s +:+ String (Ascii.ascii_of_N 46) suffix)). cbn [rsplit_once].
    rewrite IH by done. simpl. by rewrite <-app_assoc.
Qed.
Lemma extension_of stem suffix : rsplit_once 46 [] suffix = None → stem ≠ "" →
  extension (stem +:+ String (Ascii.ascii_of_N 46) suffix) = Some suffix.
Proof.
  intros Hn Hs. unfold extension. rewrite rsplit_last, part_app by done.
  change (part [] +:+ stem) with stem. unfold str_eqb. by rewrite (proj2 (String.eqb_neq stem "") Hs).
Qed.
(** What [put] leaves when it is interrupted is a temporary file, and a blob
    is not. *)
Lemma put_names hash uuid :
  hash ≠ "" → is_tmp (temp_name hash uuid) = true ∧ is_tmp (hash +:+ ".blob") = false.
Proof.
  intros Hh. unfold is_tmp. split.
  - assert (temp_name hash uuid =
      ("." +:+ hash +:+ "." +:+ uuid) +:+ String (Ascii.ascii_of_N 46) "tmp") as ->.
    { unfold temp_name. by rewrite !str_app_assoc. }
    rewrite extension_of by done. done.
  - change ".blob" with (String (Ascii.ascii_of_N 46) "blob"). by rewrite extension_of.
Qed.

(** C33: the report after a crash is exact, given what the surroundings answer.
    If no path goes down for ever (directory links can lead back to where they
    are; the system's limit on paths then cuts them off), it ends; it never
    finishes its search if one does.  Whenever it ends it has failed exactly
    because something below the root could not be read or the database did not
    answer; else it lists the temporary files below the root, each of them and
    nothing else, and of the recorded blobs whose rows could be read those
    without a file, and it asks for recovery exactly when one of the two lists
    is not empty. *)
Theorem recovery_report_exact env root self :
  ((∃ n, depth_within env n root) →
    ∃ fuel r, ∀ more, fuel ≤ more → recovery_report env more root self = Some r) ∧
  (∀ fuel report, recovery_report env fuel root self = Some (Ok report) → depth_within env fuel root) ∧
  (∀ fuel r, recovery_report env fuel root self = Some r →
    let answered := ReportEnv_prepare env && ReportEnv_query_map env in
    match r with
    | Err e => e = BlobIo ∧ unreadable_below env root ∨
        e = BlobDatabase ∧ ¬ unreadable_below env root ∧ answered = false
    | Ok report => ¬ unreadable_below env root ∧ answered = true ∧
        (∀ path, path ∈ BlobRecoveryReport_temporary_files report ↔ tmp_below env root path) ∧
        (∀ hash, hash ∈ BlobRecoveryReport_missing_blob_files report ↔
          is_Some (BlobStore_rows self !! hash) ∧ BlobStore_files self !! hash = None ∧
          validate_hash hash = Ok tt ∧ ReportEnv_row_read env hash = true) ∧
        (BlobRecoveryReport_recovery_required report = false ↔
          BlobRecoveryReport_temporary_files report = [] ∧
          BlobRecoveryReport_missing_blob_files report = [])
    end).
Proof.
  split_and!.
  - intros [n Hn]. destruct (walk_ends env n root [] [] Hn) as [fuel [w Hw]]; [by exists 1|].
    exists fuel. eexists. intros more Hle. unfold recovery_report.
    by rewrite (walk_more env fuel more [root] [] w Hle Hw).
  - intros fuel report. unfold recovery_report. destruct (walk env fuel [root] []) as [[all|]|] eqn:Hw; try done.
    intros _. apply walk_finished in Hw. by inversion Hw.
  - intros fuel r. unfold recovery_report. destruct (walk env fuel [root] []) as [w|] eqn:Hw; [|done].
    apply walk_finds in Hw. intros [= <-]. destruct w as [all|e]; simpl.
    2: { destruct Hw as (->&d&->%list_elem_of_singleton&Hu). by left. }
    destruct Hw as [Hread Hall].
    assert (¬ unreadable_below env root) as Hu by (apply Hread; by left).
    destruct (ReportEnv_prepare env); simpl; [|by right].
    destruct (ReportEnv_query_map env); simpl; [|by right]. split_and!; [done|done| | |].
    + intros path. rewrite Hall. setoid_rewrite list_elem_of_singleton. set_solver.
    + intros hash. unfold missing_blob_files. rewrite !list_elem_of_filter, list_elem_of_fmap. split.
      * intros (Hrow&(Hf&Hv)&([h row]&->&Hin%elem_of_map_to_list)). by split_and!.
      * intros ([row Hrow]&Hf&Hv&Hread'). split_and!; [done..|]. exists (hash, row).
        split; [done|by apply elem_of_map_to_list].
    + by rewrite orb_false_iff, !negb_false_iff, !bool_decide_eq_true.
Qed.

(** ** A tree, and a link that leads back *)
Module ReportExamples.
Definition fx_tree : ReportEnv := {|
  ReportEnv_read_dir := λ d,
    if str_eqb d "r" then Some [Some ("ab", true); Some ("metadata.db", false)]
    else if str_eqb d "r/ab" then Some [Some (".cd.1.tmp", false); Some ("cd.blob", false)] else None;
  ReportEnv_prepare := true; ReportEnv_query_map := true; ReportEnv_row_read := λ _, true |}.
(** Every directory holds a link to itself. *)
Definition fx_link : ReportEnv := {|
  ReportEnv_read_dir := λ _, Some [Some ("self", true)];
  ReportEnv_prepare := true; ReportEnv_query_map := true; ReportEnv_row_read := λ _, true |}.
Lemma fx_link_deep n : ∀ d, ¬ depth_within fx_link n d.
Proof. induction n as [|n IH]; intros d; [by intros []|]. intros Hd. eapply IH, Hd; [done|by left]. Qed.

Lemma recovery_report_exact_witness :
  (∃ report, recovery_report fx_tree 3 "r" BlobStore_empty = Some (Ok report) ∧
    tmp_below fx_tree "r" "r/ab/.cd.1.tmp" ∧ BlobRecoveryReport_recovery_required report = true) ∧
  ∀ fuel report, recovery_report fx_link fuel "r" BlobStore_empty ≠ Some (Ok report).
Proof.
  split.
  - destruct (recovery_report fx_tree 3 "r" BlobStore_empty) as [[report|e]|] eqn:Hr;
      [|vm_compute in Hr; discriminate..].
    exists report. split; [done|].
    destruct (recovery_report_exact fx_tree "r" BlobStore_empty) as (_&_&Hexact).
    destruct (Hexact _ _ Hr) as (_&_&Htmp&_&_). rewrite <-Htmp.
    vm_compute in Hr. injection Hr as <-. split; [by left|done].
  - intros fuel report Hr.
    destruct (recovery_report_exact fx_link "r" BlobStore_empty) as (_&Hdeep&_).
    by apply Hdeep, fx_link_deep in Hr.
Defined.
End ReportExamples.
