(* ===== verification/Startup.v ===== *)
(** * Starting and stopping the supervisor ([crates/supervisor/src/lib.rs],
    [main.rs], [single_instance.rs])

    The command line, the names that make an instance unique to its user, the
    ready file other programs wait for, and the order in which [run] takes and
    gives back what it owns.  The operating system is what it answers. *)

From S2P Require Import Prelude Text Extern Frame.
From Stdlib Require Import ZArith Lia.
From stdpp Require Import prelude gmap strings pretty finite.

Inductive RunError := AlreadyRunning | InvalidArguments | RunIo (error : string).
#[export] Instance RunError_eq_dec : EqDecision RunError.
Proof. solve_decision. Defined.
Definition RunError_code (e : RunError) : string :=
  match e with
  | AlreadyRunning => "already_running" | InvalidArguments => "invalid_arguments"
  | RunIo _ => "io_error"
  end.

(** ** The command line *)
Inductive OsString := OsText (s : string) | OsRaw (bytes : list u8).
#[export] Instance OsString_eq_dec : EqDecision OsString.
Proof. solve_decision. Defined.
Definition to_str (s : OsString) : option string :=
  match s with OsText s => Some s | OsRaw _ => None end.
Record Config := {
  Config_pipe_name : option string;
  Config_data_dir : OsString;
  Config_parent_pid : option Z;
  Config_instance_scope : option string;
  Config_credential_target : option string;
}.
Record PartialConfig := {
  Partial_pipe_name : option string;
  Partial_data_dir : option OsString;
  Partial_parent_pid : option Z;
  Partial_instance_scope : option string;
  Partial_credential_target : option string;
}.
Definition no_config : PartialConfig := {|
  Partial_pipe_name := None; Partial_data_dir := None; Partial_parent_pid := None;
  Partial_instance_scope := None; Partial_credential_target := None |}.
Definition nul : string := String (Ascii.ascii_of_N 0) "".
Definition nonempty_text (value : OsString) : option string :=
  s ← to_str value; if str_eqb s "" then None else Some s.

(** [test_switches] is whether the build has the switches for tests. *)
Section arguments.
Context (test_switches : bool).

(** What one switch with its value does to the configuration. *)
Definition apply_switch (switch : string) (value : OsString) (c : PartialConfig)
    : option PartialConfig :=
  if str_eqb switch "--pipe-name" then
    name ← nonempty_text value;
    Some {| Partial_pipe_name := Some name; Partial_data_dir := Partial_data_dir c;
      Partial_parent_pid := Partial_parent_pid c; Partial_instance_scope := Partial_instance_scope c;
      Partial_credential_target := Partial_credential_target c |}
  else if str_eqb switch "--data-dir" then
    Some {| Partial_pipe_name := Partial_pipe_name c; Partial_data_dir := Some value;
      Partial_parent_pid := Partial_parent_pid c; Partial_instance_scope := Partial_instance_scope c;
      Partial_credential_target := Partial_credential_target c |}
  else if str_eqb switch "--parent-pid" then
    pid ← (to_str value ≫= parse_uint u32_max);
    if (pid =? 0)%Z then None else
    Some {| Partial_pipe_name := Partial_pipe_name c; Partial_data_dir := Partial_data_dir c;
      Partial_parent_pid := Some pid; Partial_instance_scope := Partial_instance_scope c;
      Partial_credential_target := Partial_credential_target c |}
  else if str_eqb switch "--log-level" then
    level ← to_str value;
    if existsb (str_eqb level) ["trace"; "debug"; "info"; "warn"; "error"] then Some c else None
  else if test_switches && str_eqb switch "--instance-scope" then
    scope ← nonempty_text value;
    if str_contains scope nul then None else
    Some {| Partial_pipe_name := Partial_pipe_name c; Partial_data_dir := Partial_data_dir c;
      Partial_parent_pid := Partial_parent_pid c; Partial_instance_scope := Some scope;
      Partial_credential_target := Partial_credential_target c |}
  else if test_switches && str_eqb switch "--credential-target" then
    target ← nonempty_text value;
    Some {| Partial_pipe_name := Partial_pipe_name c; Partial_data_dir := Partial_data_dir c;
      Partial_parent_pid := Partial_parent_pid c; Partial_instance_scope := Partial_instance_scope c;
      Partial_credential_target := Some target |}
  else None.
Fixpoint parse_switches (args : list OsString) (c : PartialConfig) : result RunError PartialConfig :=
  match args with
  | [] => Ok c
  | [_] => Err InvalidArguments
  | switch :: value :: rest =>
      match to_str switch ≫= λ switch, apply_switch switch value c with
      | Some c => parse_switches rest c
      | None => Err InvalidArguments
      end
  end.
Definition parse_args (args : list OsString) : result RunError Config :=
  c ← parse_switches args no_config;
  data_dir ← ok_or InvalidArguments (Partial_data_dir c);
  Ok {| Config_pipe_name := Partial_pipe_name c; Config_data_dir := data_dir;
        Config_parent_pid := Partial_parent_pid c;
        Config_instance_scope := Partial_instance_scope c;
        Config_credential_target := Partial_credential_target c |}.
End arguments.

(** [packaged_supervisor_command] of the desktop: what it starts the
    supervisor with. *)
Definition packaged_supervisor_args (data_dir : OsString) (pipe_name : string)
    (instance_scope : option string) : list OsString :=
  [OsText "--data-dir"; data_dir; OsText "--pipe-name"; OsText pipe_name] ++
  match instance_scope with
  | Some scope => [OsText "--instance-scope"; OsText scope]
  | None => []
  end.

Lemma apply_data_dir test_switches value c :
  apply_switch test_switches "--data-dir" value c = Some {|
    Partial_pipe_name := Partial_pipe_name c; Partial_data_dir := Some value;
    Partial_parent_pid := Partial_parent_pid c; Partial_instance_scope := Partial_instance_scope c;
    Partial_credential_target := Partial_credential_target c |}.
Proof. done. Qed.
Lemma apply_pipe_name test_switches name c :
  apply_switch test_switches "--pipe-name" (OsText name) c =
    if str_eqb name "" then None else Some {|
      Partial_pipe_name := Some name; Partial_data_dir := Partial_data_dir c;
      Partial_parent_pid := Partial_parent_pid c; Partial_instance_scope := Partial_instance_scope c;
      Partial_credential_target := Partial_credential_target c |}.
Proof. unfold apply_switch, nonempty_text. simpl. by destruct (str_eqb name ""). Qed.
Lemma apply_scope test_switches scope c :
  apply_switch test_switches "--instance-scope" (OsText scope) c =
    if negb test_switches || str_eqb scope "" || str_contains scope nul then None else Some {|
      Partial_pipe_name := Partial_pipe_name c; Partial_data_dir := Partial_data_dir c;
      Partial_parent_pid := Partial_parent_pid c; Partial_instance_scope := Some scope;
      Partial_credential_target := Partial_credential_target c |}.
Proof.
  unfold apply_switch, nonempty_text. destruct test_switches; [|done]. simpl.
  destruct (str_eqb scope ""); [done|]. simpl. by destruct (str_contains scope nul).
Qed.

(** The desktop and the supervisor agree on the command line: what the
    desktop starts the supervisor with is read back as the same data
    directory, pipe and scope; and a build without the switches for tests
    refuses to start with a scope or a credential target. *)
Theorem packaged_args_parse test_switches data_dir pipe_name instance_scope :
  str_eqb pipe_name "" = false →
  parse_args test_switches (packaged_supervisor_args data_dir pipe_name instance_scope) =
    match instance_scope with
    | Some scope =>
        if test_switches && negb (str_eqb scope "") && negb (str_contains scope nul)
        then Ok {| Config_pipe_name := Some pipe_name; Config_data_dir := data_dir;
                   Config_parent_pid := None; Config_instance_scope := Some scope;
                   Config_credential_target := None |}
        else Err InvalidArguments
    | None => Ok {| Config_pipe_name := Some pipe_name; Config_data_dir := data_dir;
                    Config_parent_pid := None; Config_instance_scope := None;
                    Config_credential_target := None |}
    end.
Proof.
  intros Hp. unfold parse_args, packaged_supervisor_args. cbn [app parse_switches].
  assert (∀ switch value c, to_str (OsText switch) ≫= (λ switch, apply_switch test_switches switch value c)
    = apply_switch test_switches switch value c) as Hs by done.
  rewrite Hs, (apply_data_dir _ _ no_config). cbv iota. rewrite Hs, apply_pipe_name, Hp.
  destruct instance_scope as [scope|]; cbn [parse_switches]; [|done].
  rewrite Hs, apply_scope. destruct test_switches; [|done].
  by destruct (str_eqb scope ""), (str_contains scope nul).
Qed.

(** ** Names *)
Section names.
Context `{Sha256}.

Definition opaque_user_id (sid : string) : string := sha256_hex sid.
Definition first_16 (digest : string) : string := String.substring 0 16 digest.
Definition production_pipe_name (sid : string) : string :=
  "mission-control-" +:+ first_16 (opaque_user_id sid).
Definition mutex_name (sid : string) (scope : option string) : string :=
  match scope with
  | Some scope => "Global\MissionControlSupervisor-" +:+ opaque_user_id sid +:+ "-"
                  +:+ first_16 (opaque_user_id scope)
  | None => "Global\MissionControlSupervisor-" +:+ opaque_user_id sid
  end.
Definition resolve_pipe_name (pipe_name : option string) (sid : string) : string :=
  default (production_pipe_name sid) pipe_name.
(** An instance for tests never takes the place of the user's own. *)
Lemma scoped_mutex_differs sid scope : mutex_name sid (Some scope) ≠ mutex_name sid None.
Proof.
  unfold mutex_name. intros Heq. apply (inj (String.append "Global\MissionControlSupervisor-")) in Heq.
  apply (f_equal String.length) in Heq. rewrite !str_length_app in Heq. simpl in Heq. lia.
Qed.
End names.

(** ** The ready file

    The files of the data directory, by name; [content] is what the ready file
    is to hold.  What the file system answers: to removing, to creating the
    temporary file of an attempt, how much of a write succeeds, to syncing and
    to renaming. *)
Definition READY : string := "supervisor.ready".
Definition READY_TEMP_CREATE_ATTEMPTS : nat := 16.
Record ReadyEnv := {
  ReadyEnv_remove : bool;
  ReadyEnv_create : nat → bool;
  ReadyEnv_written : option nat;
  ReadyEnv_sync : bool;
  ReadyEnv_rename : bool;
  ReadyEnv_remove_temp : bool;
}.
Abbreviation files := (gmap string string).
Definition remove_file_if_exists (removes : bool) (name : string) (fs : files)
    : files * result string unit :=
  match fs !! name with
  | None => (fs, Ok tt)
  | Some _ => if removes then (delete name fs, Ok tt) else (fs, Err "remove")
  end.
Definition ready_temp (pid : Z) (nonce : nat) : string :=
  "supervisor.ready." +:+ pretty (Z.to_N pid) +:+ "." +:+ pretty (N.of_nat nonce) +:+ ".tmp".
(** The attempts to create a temporary file: the next nonce and its name. *)
Fixpoint create_temp (env : ReadyEnv) (pid : Z) (attempts nonce : nat) (fs : files)
    : nat * result string string :=
  match attempts with
  | O => (nonce, Err "ready temp create attempts exhausted")
  | S attempts =>
      let temp := ready_temp pid nonce in
      match fs !! temp with
      | Some _ => create_temp env pid attempts (S nonce) fs
      | None => (S nonce, if ReadyEnv_create env nonce then Ok temp else Err "create")
      end
  end.
(** The states of the directory one after the other, the next nonce, and what
    the call returns. *)
Definition write_ready_file (env : ReadyEnv) (pid : Z) (content : string) (nonce : nat) (fs : files)
    : list files * nat * result string unit :=
  match remove_file_if_exists (ReadyEnv_remove env) READY fs with
  | (_, Err e) => ([], nonce, Err e)
  | (fs, Ok _) =>
      match create_temp env pid READY_TEMP_CREATE_ATTEMPTS nonce fs with
      | (nonce, Err e) => ([fs], nonce, Err e)
      | (nonce, Ok temp) =>
          let created := <[temp := ""]> fs in
          let text := match ReadyEnv_written env with
                      | Some n => String.substring 0 n content | None => content end in
          let written := <[temp := text]> created in
          let trace := [fs; created; written] in
          match ReadyEnv_written env, ReadyEnv_sync env, ReadyEnv_rename env with
          | None, true, true => (trace ++ [<[READY := text]> (delete temp written)], nonce, Ok tt)
          | _, _, _ =>
              (trace ++ [(remove_file_if_exists (ReadyEnv_remove_temp env) temp written).1], nonce,
               Err "publish")
          end
      end
  end.

Lemma temp_is_not_ready pid nonce : ready_temp pid nonce ≠ READY.
Proof.
  unfold ready_temp, READY. intros Heq%(f_equal String.length).
  rewrite !str_length_app in Heq. simpl in Heq. lia.
Qed.
Lemma create_temp_fresh env pid attempts : ∀ nonce fs nonce' temp,
  create_temp env pid attempts nonce fs = (nonce', Ok temp) →
  fs !! temp = None ∧ temp ≠ READY.
Proof.
  induction attempts as [|attempts IH]; intros nonce fs nonce' temp; [done|]. simpl.
  destruct (fs !! ready_temp pid nonce) eqn:Ht; [apply IH|]. destruct (ReadyEnv_create env nonce); [|done].
  intros [= _ <-]. split; [done|apply temp_is_not_ready].
Qed.
Lemma create_temp_bounded env pid attempts : ∀ nonce fs,
  (create_temp env pid attempts nonce fs).1 ≤ nonce + attempts.
Proof.
  induction attempts as [|attempts IH]; intros nonce fs; simpl; [lia|].
  destruct (fs !! ready_temp pid nonce); [|simpl; lia]. specialize (IH (S nonce) fs). lia.
Qed.
(** The ready file is all or nothing.  Whatever fails and whenever the
    machine stops, the directory holds no ready file or a complete one, never
    a part; when publishing succeeds the complete file is there and nothing
    else in the directory has changed; when it fails there is none (unless
    the stale one could not even be removed); at most sixteen temporary
    names are tried. *)
Theorem ready_file_atomic env pid content nonce fs :
  let '(trace, nonce', r) := write_ready_file env pid content nonce fs in
  Forall (λ fs', fs' !! READY = None ∨ fs' !! READY = Some content) trace ∧
  nonce' ≤ nonce + READY_TEMP_CREATE_ATTEMPTS ∧
  match r with
  | Ok _ => last trace = Some (<[READY := content]> fs)
  | Err _ => trace = [] ∨ ∃ fs', last trace = Some fs' ∧ fs' !! READY = None
  end.
Proof.
  unfold write_ready_file.
  assert (∀ fs0, remove_file_if_exists (ReadyEnv_remove env) READY fs = (fs0, Ok tt) →
    fs0 = delete READY fs) as Hrm.
  { unfold remove_file_if_exists. intros fs0. destruct (fs !! READY) eqn:Hr.
    - destruct (ReadyEnv_remove env); [|done]. by intros [= <-].
    - intros [= <-]. symmetry. by apply delete_id. }
  destruct (remove_file_if_exists _ _ _) as [fs0 [[]|e]]; [|split_and!; [done|lia|by left]].
  specialize (Hrm fs0 eq_refl). subst fs0.
  pose proof (create_temp_bounded env pid READY_TEMP_CREATE_ATTEMPTS nonce (delete READY fs)) as Hb.
  assert (delete READY fs !! READY = None) as Hnone by apply lookup_delete_eq.
  destruct (create_temp _ _ _ _ _) as [nonce' [temp|e]] eqn:Hc.
  2: { split_and!; [by repeat constructor|done|right; eauto]. }
  apply create_temp_fresh in Hc as [Hfresh Hne]. simpl in Hb.
  set (text := match ReadyEnv_written env with Some n => String.substring 0 n content | None => content end).
  assert (∀ v, <[temp := v]> (delete READY fs) !! READY = None) as Hins
    by (intros v; by rewrite lookup_insert_ne).
  assert (<[temp := text]> (<[temp := ""]> (delete READY fs)) !! READY = None) as Hins2
    by (by rewrite !lookup_insert_ne).
  assert (((remove_file_if_exists (ReadyEnv_remove_temp env) temp
    (<[temp := text]> (<[temp := ""]> (delete READY fs)))).1) !! READY = None) as Hclean.
  { unfold remove_file_if_exists. rewrite lookup_insert_eq. destruct (ReadyEnv_remove_temp env); [|done].
    simpl. by rewrite lookup_delete_ne. }
  destruct (ReadyEnv_written env) as [n|] eqn:Hw; [|destruct (ReadyEnv_sync env), (ReadyEnv_rename env)];
    try (split_and!; [do 4 (constructor; [by left|]); done|done|right; eexists; split; [done|exact Hclean]]).
  split_and!; [|done|].
  - do 3 (constructor; [by left|]). constructor; [|done]. right. by rewrite lookup_insert_eq.
  - cbn [last app]. f_equal. rewrite insert_insert_eq, delete_insert_id by done. apply insert_delete_eq.
Qed.

(** ** What ends a run *)
Definition CTRL_C_EVENT : Z := 0%Z.
Definition CTRL_BREAK_EVENT : Z := 1%Z.
Definition WAIT_TIMEOUT : Z := 258%Z.
(** [console_handler]: the flag the loop of [run] watches, and whether the
    event was handled. *)
Definition console_handler (event : Z) (running : bool) : bool * Z :=
  if ((event =? CTRL_C_EVENT) || (event =? CTRL_BREAK_EVENT))%Z then (false, 1%Z)
  else (running, 0%Z).
(** [ConsoleHandler::install]: the flag is set before the handler is. *)
Definition console_install (installs : bool) : bool * result string unit :=
  (true, if installs then Ok tt else Err "SetConsoleCtrlHandler").
(** [ParentProcess::open] of a process that may be gone, and [is_running],
    which asks without waiting. *)
Definition parent_open (opens : bool) : result string unit :=
  if opens then Ok tt else Err "OpenProcess".
Definition parent_is_running (wait : Z) : bool := (wait =? WAIT_TIMEOUT)%Z.

(** What the loop sees at one turn: the console events since the last one,
    the server, and the parent process if there is one. *)
Record RunTurn := {
  RunTurn_events : list Z;
  RunTurn_server : bool;
  RunTurn_parent : option Z;
}.
Definition keeps_running (running : bool) (t : RunTurn) : bool :=
  running && RunTurn_server t
  && match RunTurn_parent t with None => true | Some wait => parent_is_running wait end.
(** The [while] of [run]: how many turns it sleeps; [None] while it goes on. *)
Fixpoint run_loop (turns : list RunTurn) (running : bool) : option nat :=
  match turns with
  | [] => None
  | t :: turns =>
      let running := foldl (λ r e, (console_handler e r).1) running (RunTurn_events t) in
      if keeps_running running t then S <$> run_loop turns running else Some 0
  end.

(** A reason to stop. *)
Definition stop_reason (t : RunTurn) : bool :=
  existsb (λ e, (e =? CTRL_C_EVENT) || (e =? CTRL_BREAK_EVENT))%Z (RunTurn_events t)
  || negb (RunTurn_server t)
  || match RunTurn_parent t with None => false | Some wait => negb (parent_is_running wait) end.
Lemma console_events events running :
  foldl (λ r e, (console_handler e r).1) running events =
  running && negb (existsb (λ e, (e =? CTRL_C_EVENT) || (e =? CTRL_BREAK_EVENT))%Z events).
Proof.
  revert running. induction events as [|e events IH]; intros running; simpl; [by rewrite andb_true_r|].
  rewrite IH. unfold console_handler. destruct (_ || _); simpl; by rewrite ?andb_false_r.
Qed.
(** The loop goes on exactly until the first reason to stop. *)
Lemma run_loop_exact turns :
  run_loop turns true = fst <$> list_find (λ t, stop_reason t = true) turns.
Proof.
  induction turns as [|t turns IH]; [done|]. cbn [run_loop list_find].
  rewrite console_events, andb_true_l. unfold keeps_running.
  destruct (decide (stop_reason t = true)) as [Hs|Hs].
  - replace (_ && _ && _) with false; [done|]. unfold stop_reason in Hs.
    destruct (existsb _ _), (RunTurn_server t), (RunTurn_parent t) as [w|]; simpl in *; try done.
    by destruct (parent_is_running w).
  - apply not_true_iff_false in Hs. unfold stop_reason in Hs.
    apply orb_false_iff in Hs as [[He Hv%negb_false_iff]%orb_false_iff Hp]. rewrite He, Hv. simpl.
    assert (match RunTurn_parent t with Some wait => parent_is_running wait | None => true end = true)
      as -> by (destruct (RunTurn_parent t); [by apply negb_false_iff|done]).
    rewrite IH. by destruct (list_find _ turns) as [[i x]|].
Qed.

(** [ReadyFile]: [armed] while the file is its to remove. *)
Record ReadyFile := { ReadyFile_armed : bool }.
Definition ReadyFile_publish (env : ReadyEnv) (pid : Z) (content : string) (nonce : nat) (fs : files)
    : files * nat * result string ReadyFile :=
  let '(trace, nonce, r) := write_ready_file env pid content nonce fs in
  (default fs (last trace), nonce, _ ← r; Ok {| ReadyFile_armed := true |}).
Definition ReadyFile_drop (removes : bool) (self : ReadyFile) (fs : files) : files :=
  if ReadyFile_armed self then (remove_file_if_exists removes READY fs).1 else fs.
(** [cleanup] consumes the guard: a removal that failed is tried again by the
    drop ([again]). *)
Definition ReadyFile_cleanup (removes again : bool) (self : ReadyFile) (fs : files)
    : files * result string unit :=
  match remove_file_if_exists removes READY fs with
  | (fs, Ok _) => (ReadyFile_drop again {| ReadyFile_armed := false |} fs, Ok tt)
  | (fs, Err e) => (ReadyFile_drop again self fs, Err e)
  end.
(** Once the run is over the announcement is gone, unless the file system
    refused to remove it, and then it was asked twice. *)
Lemma ready_file_withdrawn removes again fs fs' r :
  ReadyFile_cleanup removes again {| ReadyFile_armed := true |} fs = (fs', r) →
  (fs' !! READY = None ∨ (removes = false ∧ again = false ∧ r = Err "remove" ∧ fs' = fs)) ∧
  ∀ name, name ≠ READY → fs' !! name = fs !! name.
Proof.
  unfold ReadyFile_cleanup, ReadyFile_drop, remove_file_if_exists. simpl.
  destruct (fs !! READY) as [x|] eqn:Hx; destruct removes, again; simpl; rewrite ?Hx; simpl;
    intros [= <- <-]; (split; [|intros name Hn; by rewrite ?lookup_delete_ne]);
    rewrite ?lookup_delete_eq; auto.
Qed.

(** ** The life of the process

    What [run] takes and gives back, in order, with what the system answers to
    each step; the loop in between ends when the console handler, the server
    or the parent process says so.  Leaving early drops what was taken, last
    first.  The ready file is withdrawn by [cleanup] and, if that fails, once
    more by the drop of the guard ([ReadyFile_cleanup]); when the run is left
    before, only by the drop, the first removal asked for. *)
Inductive run_action :=
| LockAcquired | HandlerInstalled | ServerSpawned | ReadyPublished | ReadyLogged
| ServerStopped | StoppedLogged | ReadyRemoval (gone : bool) | HandlerRemoved | LockReleased.
#[export] Instance run_action_eq_dec : EqDecision run_action.
Proof. solve_decision. Defined.



Lemma packaged_args_parse_witness :
  parse_args false (packaged_supervisor_args (OsText "C:\Data") "mission-control-1" None) =
    Ok {| Config_pipe_name := Some "mission-control-1"; Config_data_dir := OsText "C:\Data";
          Config_parent_pid := None; Config_instance_scope := None; Config_credential_target := None |} ∧
  parse_args false (packaged_supervisor_args (OsText "C:\Data") "mission-control-1" (Some "e2e")) =
    Err InvalidArguments.
Proof.
  split; rewrite (packaged_args_parse false (OsText "C:\Data") "mission-control-1") by reflexivity;
    reflexivity.
Defined.
