(* ===== verification/Rendezvous.v ===== *)
(** * Where the desktop and the supervisor meet
    ([LocalSupervisorTransport::production] of
    [apps/desktop/src-tauri/src/supervisor_bridge.rs], [run] of
    [crates/supervisor/src/lib.rs])

    The desktop derives the name of the pipe from its user, opens that pipe,
    and if nobody answers starts a supervisor with a command line; the
    supervisor reads the command line, derives the name of its pipe and of its
    mutex.  The two computations are composed here. *)

From S2P Require Import Prelude Text Extern Startup.
From Stdlib Require Import ZArith.
From stdpp Require Import prelude strings.

Section rendezvous.
Context `{Sha256}.

(** What the process knows of itself: its executable's directory, the user,
    and the two variables of the environment ([None] when unset or not
    Unicode). *)
Record DesktopEnv := {
  DesktopEnv_install_dir : result string (option string);
  DesktopEnv_sid : result string string;
  DesktopEnv_pipe_name : option string;
  DesktopEnv_instance_scope : option string;
}.
Record Production := {
  Production_pipe_name : string;
  Production_pipe_path : string;
  Production_supervisor_path : string;
  Production_data_dir : OsString;
  Production_instance_scope : option string;
}.
Definition pipe_path (pipe_name : string) : string := "\\.\pipe\" +:+ pipe_name.
Definition nonempty (value : option string) : option string :=
  value ≫= λ v, if str_eqb v "" then None else Some v.

(** [production]; [debug] is whether the build has debug assertions. *)
Definition production (debug : bool) (env : DesktopEnv) (data_dir : OsString)
    : result string Production :=
  install_dir ← DesktopEnv_install_dir env;
  install_dir ← ok_or "desktop install directory is missing" install_dir;
  sid ← DesktopEnv_sid env;
  let pipe_name :=
    if debug then default (production_pipe_name sid) (nonempty (DesktopEnv_pipe_name env))
    else production_pipe_name sid in
  Ok {| Production_pipe_name := pipe_name;
        Production_pipe_path := pipe_path pipe_name;
        Production_supervisor_path := install_dir +:+ "\mission-control-supervisor.exe";
        Production_data_dir := data_dir;
        Production_instance_scope :=
          if debug then nonempty (DesktopEnv_instance_scope env) else None |}.

(** What [run] makes of its command line: the pipe it serves and the mutex it
    takes. *)
Definition run_names (test_switches : bool) (sid : string) (args : list OsString)
    : result RunError (string * string) :=
  config ← parse_args test_switches args;
  let scope := if test_switches then Config_instance_scope config else None in
  Ok (pipe_path (resolve_pipe_name (Config_pipe_name config) sid), mutex_name sid scope).

Lemma nonempty_Some o v : nonempty o = Some v → str_eqb v "" = false.
Proof. destruct o as [w|]; [|done]. simpl. destruct (str_eqb w "") eqn:Hw; [done|]. by intros [= <-]. Qed.

(** The supervisor a desktop starts is the one it will talk to: it reads the
    command line without an error, serves the very pipe the desktop opens and
    takes the mutex of its user and scope.  In a release build nothing in the
    environment has a say: the pipe and the mutex are those of the user, the
    same for every desktop of the user. *)
Theorem desktop_meets_supervisor debug env data_dir p sid :
  production debug env data_dir = Ok p → DesktopEnv_sid env = Ok sid →
  (∀ scope, Production_instance_scope p = Some scope → str_contains scope nul = false) →
  run_names debug sid
    (packaged_supervisor_args (Production_data_dir p) (Production_pipe_name p)
       (Production_instance_scope p)) =
    Ok (Production_pipe_path p, mutex_name sid (Production_instance_scope p)) ∧
  (debug = false → Production_pipe_path p = pipe_path (production_pipe_name sid) ∧
    Production_instance_scope p = None).
Proof.
  intros Hp Hsid Hnul. unfold production in Hp. bind_inv Hp. rewrite Hsid in *. simplify_eq/=.
  split; [|by intros ->]. unfold run_names. rewrite packaged_args_parse.
  2: { destruct debug; [|done]. destruct (nonempty (DesktopEnv_pipe_name env)) eqn:Hn; [|done].
       by apply nonempty_Some in Hn. }
  destruct debug; [|done]. simpl in *.
  destruct (nonempty (DesktopEnv_instance_scope env)) as [scope|] eqn:Hn; [|done].
  apply nonempty_Some in Hn as He. rewrite He, (Hnul scope eq_refl). done.
Qed.
End rendezvous.

(** ** A development build with a scope *)
Module RendezvousExamples.
(** A digest that depends on the length alone. *)
#[local] Instance rv_sha : Sha256 := λ s, replicate 32 (Z.of_nat (String.length s) mod 256)%Z.
Definition rv_env : DesktopEnv := {|
  DesktopEnv_install_dir := Ok (Some "C:\Apps"); DesktopEnv_sid := Ok "S-1-5-21-1";
  DesktopEnv_pipe_name := Some ""; DesktopEnv_instance_scope := Some "e2e" |}.
Definition rv_production : Production := {|
  Production_pipe_name := production_pipe_name "S-1-5-21-1";
  Production_pipe_path := pipe_path (production_pipe_name "S-1-5-21-1");
  Production_supervisor_path := "C:\Apps\mission-control-supervisor.exe";
  Production_data_dir := OsText "D:\data"; Production_instance_scope := Some "e2e" |}.
Lemma desktop_meets_supervisor_witness :
  production true rv_env (OsText "D:\data") = Ok rv_production ∧
  run_names true "S-1-5-21-1"
    (packaged_supervisor_args (OsText "D:\data") (Production_pipe_name rv_production) (Some "e2e")) =
    Ok (Production_pipe_path rv_production, mutex_name "S-1-5-21-1" (Some "e2e")).
Proof.
  split; [vm_compute; reflexivity|].
  refine (proj1 (desktop_meets_supervisor true rv_env (OsText "D:\data") rv_production "S-1-5-21-1" _ _ _)).
  - vm_compute. reflexivity.
  - reflexivity.
  - intros scope [= <-]. vm_compute. reflexivity.
Defined.
End RendezvousExamples.
