(* ===== verification/WindowsSecurity.v ===== *)
(** * Users and access lists
    ([crates/protocol/src/windows_security.rs], [pipe_sddl] of
    [crates/supervisor/src/ipc.rs])

    The text of a user's security identifier, from which the names of the
    pipe and of the mutexes are derived, and the access lists those objects
    are made with.  What the operating system answers is an argument. *)

From S2P Require Import Prelude Text Extern Startup.
From Stdlib Require Import ZArith Lia Ascii.
From stdpp Require Import prelude strings pretty.

(** ** Security identifiers *)

(** What a [PSID] points to: [GetSidIdentifierAuthority] gives six bytes,
    [GetSidSubAuthorityCount] a byte. *)
Record Sid := {
  Sid_revision : u8;
  Sid_authority : list u8;
  Sid_sub_authorities : list u32;
}.
#[export] Instance Sid_eq_dec : EqDecision Sid.
Proof. solve_decision. Defined.

Definition is_byte (b : Z) : Prop := (0 ≤ b ≤ 255)%Z.
Record sid_wf (sid : Sid) : Prop := {
  sid_wf_revision : is_byte (Sid_revision sid);
  sid_wf_authority : length (Sid_authority sid) = 6 ∧ Forall is_byte (Sid_authority sid);
  sid_wf_subs : Forall (λ s, (0 ≤ s ≤ u32_max)%Z) (Sid_sub_authorities sid);
}.

(** [.fold(0_u64, |value, byte| (value << 8) | u64::from(byte))]. *)
Definition authority_value (bytes : list u8) : u64 :=
  foldl (λ value byte, Z.lor (Z.shiftl value 8 mod (u64_max + 1)) byte) 0%Z bytes.

(** [None] is a null pointer, [valid] the answer of [IsValidSid]. *)
Definition sid_to_string (valid : bool) (sid : option Sid) : result string string :=
  match sid with
  | None => Err "current process token contains an invalid user SID"
  | Some sid =>
      if negb valid then Err "current process token contains an invalid user SID" else
      let value := "S-" +:+ pretty (Sid_revision sid) +:+ "-"
                   +:+ pretty (authority_value (Sid_authority sid)) in
      Ok (foldl (λ value sub, value +:+ "-" +:+ pretty sub) value (Sid_sub_authorities sid))
  end.

(** [aligned_token_buffer]: how many words hold the bytes. *)
Definition WORD : Z := 8%Z.
Definition aligned_token_words (required_bytes : u32) : Z := ((required_bytes + WORD - 1) / WORD)%Z.
Lemma token_buffer_covers required :
  (required ≤ aligned_token_words required * WORD < required + WORD)%Z.
Proof.
  unfold aligned_token_words, WORD. pose proof (Z.div_mod (required + 8 - 1) 8).
  pose proof (Z.mod_pos_bound (required + 8 - 1) 8). lia.
Qed.

(** What the token calls answer: the token, the size, and what is read. *)
Record TokenEnv := {
  TokenEnv_open : result string unit;
  TokenEnv_size : u32;
  TokenEnv_read : result string (option Sid);
  TokenEnv_valid : bool;
}.
Inductive token_action := TokenOpened | TokenRead (words : Z) | TokenClosed.
Definition user_sid_from_token (env : TokenEnv) : list token_action * result string string :=
  if (TokenEnv_size env =? 0)%Z then ([], Err "GetTokenInformation(size) failed") else
  let read := TokenRead (aligned_token_words (TokenEnv_size env)) in
  match TokenEnv_read env with
  | Err _ => ([read], Err "GetTokenInformation(user) failed")
  | Ok sid => ([read], sid_to_string (TokenEnv_valid env) sid)
  end.
Definition current_user_sid (env : TokenEnv) : list token_action * result string string :=
  match TokenEnv_open env with
  | Err _ => ([], Err "OpenProcessToken failed")
  | Ok _ =>
      let '(actions, r) := user_sid_from_token env in
      (TokenOpened :: actions ++ [TokenClosed], r)
  end.

(** ** Access lists *)
Definition user_system_admin_sddl (sid : string) : string :=
  "D:P(A;;GA;;;SY)(A;;GA;;;BA)(A;;GA;;;" +:+ sid +:+ ")".
Definition pipe_sddl (sid : string) : string := "D:P(A;;GA;;;" +:+ sid +:+ ")".

(** ** Reading the texts back *)

(** The big-endian bytes of an authority. *)
Fixpoint be_bytes (n : nat) (v : Z) : list u8 :=
  match n with O => [] | S n => be_bytes n (v / 256) ++ [(v mod 256)%Z] end.
Definition parse_sid (text : string) : option Sid :=
  match split_on 45 [] text with
  | s :: rev :: auth :: subs =>
      if negb (str_eqb s "S") then None else
      rev ← parse_uint 255 rev;
      auth ← parse_uint (2 ^ 48 - 1) auth;
      subs ← mapM (parse_uint u32_max) subs;
      Some {| Sid_revision := rev; Sid_authority := be_bytes 6 auth; Sid_sub_authorities := subs |}
  | _ => None
  end.
(** The entries of an access list: what stands between parentheses. *)
Fixpoint aces (cur : option (list ascii)) (text : string) : list string :=
  match text with
  | EmptyString => []
  | String c r =>
      match cur with
      | None => if byte_is 40 c then aces (Some []) r else aces None r
      | Some cur => if byte_is 41 c then part cur :: aces None r else aces (Some (c :: cur)) r
      end
  end.

(** ** Proofs *)
Lemma authority_be bytes : ∀ acc, (0 ≤ acc)%Z → Forall is_byte bytes →
  (acc < 2 ^ (64 - 8 * Z.of_nat (length bytes)))%Z → length bytes ≤ 8 →
  foldl (λ value byte, Z.lor (Z.shiftl value 8 mod (u64_max + 1)) byte) acc bytes =
  foldl (λ value byte, value * 256 + byte)%Z acc bytes.
Proof.
  induction bytes as [|b bytes IH]; intros acc Ha Hb Hlt Hlen; [done|]. simpl in *.
  apply list.Forall_cons in Hb as [Hb Hbs]. unfold is_byte in Hb.
  assert (Z.lor (Z.shiftl acc 8 mod (u64_max + 1)) b = acc * 256 + b)%Z as ->.
  { rewrite Z.shiftl_mul_pow2 by lia. change (2 ^ 8)%Z with 256%Z.
    rewrite Z.mod_small.
    2: { split; [lia|]. unfold u64_max.
         assert (acc < 2 ^ 56)%Z; [|lia].
         eapply Z.lt_le_trans; [exact Hlt|]. apply Z.pow_le_mono_r; lia. }
    rewrite <-Z.lxor_lor, <-Z.add_nocarry_lxor; [done|..].
    all: apply Z.bits_inj'; intros i Hi; rewrite Z.land_spec, Z.bits_0.
    all: change 256%Z with (2 ^ 8)%Z; destruct (Z.ltb_spec i 8).
    all: try (by rewrite Z.mul_pow2_bits_low).
    all: rewrite (Z.testbit_eqb b i) by lia; rewrite Z.div_small;
      [by rewrite andb_false_r|]; split; [lia|].
    all: eapply Z.lt_le_trans with (2 ^ 8)%Z; [lia|]; apply Z.pow_le_mono_r; lia. }
  apply IH; [lia|done| |lia].
  assert (2 ^ (64 - 8 * Z.of_nat (S (length bytes))) * 256 = 2 ^ (64 - 8 * Z.of_nat (length bytes)))%Z as <-.
  { change 256%Z with (2 ^ 8)%Z. rewrite <-Z.pow_add_r by lia. f_equal. lia. }
  lia.
Qed.
Lemma be_value_range bytes :
  Forall is_byte bytes →
  (0 ≤ foldl (λ value byte, value * 256 + byte)%Z 0%Z bytes < 256 ^ Z.of_nat (length bytes))%Z.
Proof.
  induction bytes as [|b bytes IH] using rev_ind; intros Hb; [done|].
  apply Forall_app in Hb as [Hbs [Hb _]%list.Forall_cons]. specialize (IH Hbs).
  rewrite foldl_app, length_app. simpl. unfold is_byte in Hb.
  rewrite Nat2Z.inj_add, Z.pow_add_r by lia. change (256 ^ Z.of_nat 1)%Z with 256%Z. lia.
Qed.
Lemma be_bytes_value bytes :
  Forall is_byte bytes →
  be_bytes (length bytes) (foldl (λ value byte, value * 256 + byte)%Z 0%Z bytes) = bytes.
Proof.
  induction bytes as [|b bytes IH] using rev_ind; intros Hb; [done|].
  apply Forall_app in Hb as [Hbs [Hb _]%list.Forall_cons]. unfold is_byte in Hb.
  rewrite foldl_app, length_app, Nat.add_comm. simpl.
  set (v := foldl _ 0%Z bytes) in *. rewrite Z.add_comm, Z.div_add, Z.mod_add by lia.
  rewrite Z.div_small, Z.mod_small, Z.add_0_l by lia. by rewrite IH.
Qed.
Lemma authority_value_be bytes :
  length bytes = 6 → Forall is_byte bytes →
  (0 ≤ authority_value bytes ≤ 2 ^ 48 - 1)%Z ∧ be_bytes 6 (authority_value bytes) = bytes.
Proof.
  intros Hlen Hb. unfold authority_value. rewrite authority_be by (rewrite ?Hlen; simpl; lia || done).
  pose proof (be_value_range bytes Hb) as Hr. rewrite Hlen in Hr. split; [simpl in Hr; lia|].
  rewrite <-Hlen. by apply be_bytes_value.
Qed.

Definition dash_free (t : string) : Prop := all_bytes (λ c, negb (byte_is 45 c)) t = true.
Lemma split_on_end cur t : dash_free t → split_on 45 cur t = [part cur +:+ t].
Proof.
  intros Ht. rewrite <-(string_app_nil t) at 1. rewrite split_on_name by done. simpl.
  by rewrite part_app.
Qed.
Lemma split_on_snoc s t : dash_free t → ∀ cur,
  split_on 45 cur (s +:+ "-" +:+ t) = split_on 45 cur s ++ [t].
Proof.
  intros Ht. induction s as [|c s IH]; intros cur.
  - change (part cur :: split_on 45 [] t = [part cur; t]). by rewrite (split_on_end [] t).
  - change (split_on 45 cur (String c (s +:+ "-" +:+ t)) = split_on 45 cur (String c s) ++ [t]).
    cbn [split_on]. destruct (byte_is 45 c); [|apply IH]. by rewrite IH.
Qed.
Lemma split_on_subs subs : Forall (λ s : Z, dash_free (pretty s)) subs → ∀ value,
  split_on 45 [] (foldl (λ value sub, value +:+ "-" +:+ pretty sub) value subs) =
  split_on 45 [] value ++ (pretty <$> subs).
Proof.
  induction subs as [|s subs IH]; intros Hd value; [by rewrite app_nil_r|].
  apply list.Forall_cons in Hd as [Hs Hd]. simpl. rewrite IH by done.
  rewrite split_on_snoc by done. by rewrite <-app_assoc.
Qed.
Lemma digits_dash_free t : all_bytes (byte_in 48 57) t = true → dash_free t.
Proof.
  unfold dash_free, all_bytes. rewrite !forallb_forall. intros Hd c Hc. specialize (Hd c Hc).
  unfold byte_in in Hd. unfold byte_is. apply andb_true_iff in Hd as [Hlo%N.leb_le _].
  apply negb_true_iff, N.eqb_neq. lia.
Qed.
Lemma pretty_dash_free z : (0 ≤ z)%Z → dash_free (pretty z).
Proof. intros. by apply digits_dash_free, pretty_digits. Qed.

Lemma mapM_parse_pretty subs :
  Forall (λ s, (0 ≤ s ≤ u32_max)%Z) subs → mapM (parse_uint u32_max) (pretty <$> subs) = Some subs.
Proof.
  intros Hs. apply mapM_fmap_Forall_Some. eapply Forall_impl; [exact Hs|]. simpl.
  intros. by apply parse_uint_pretty.
Qed.
Lemma sid_text_parses sid text :
  sid_wf sid → sid_to_string true (Some sid) = Ok text → parse_sid text = Some sid.
Proof.
  intros [Hr [Hlen Hb] Hs] [= <-]. destruct (authority_value_be _ Hlen Hb) as [Ha Hbe].
  unfold is_byte in Hr.
  unfold parse_sid. rewrite split_on_subs.
  2: { eapply Forall_impl; [exact Hs|]. simpl. intros s Hs'. apply pretty_dash_free. lia. }
  rewrite <-str_app_assoc, split_on_snoc by (apply pretty_dash_free; lia).
  change ("S-" +:+ pretty (Sid_revision sid)) with ("S" +:+ "-" +:+ pretty (Sid_revision sid)).
  rewrite split_on_snoc by (apply pretty_dash_free; lia). change (split_on 45 [] "S") with ["S"].
  cbn -[be_bytes parse_uint pretty mapM].
  rewrite !parse_uint_pretty by lia. cbn -[be_bytes]. rewrite mapM_parse_pretty by done.
  cbn -[be_bytes].
  rewrite Hbe. by destruct sid.
Qed.

(** *** Access lists *)

(** A text that cannot close an entry or open another. *)
Definition paren_free (t : string) : Prop :=
  all_bytes (λ c, negb (byte_is 40 c) && negb (byte_is 41 c)) t = true.
Lemma all_bytes_app p s t : all_bytes p (s +:+ t) = all_bytes p s && all_bytes p t.
Proof.
  unfold all_bytes. induction s as [|c s IH]; [done|].
  change (p c && forallb p (String.list_ascii_of_string (s +:+ t)) =
          p c && forallb p (String.list_ascii_of_string s)
          && forallb p (String.list_ascii_of_string t)).
  by rewrite IH, andb_assoc.
Qed.
Lemma pretty_paren_free z : (0 ≤ z)%Z → paren_free (pretty z).
Proof.
  intros Hz. pose proof (pretty_digits z Hz) as Hd. unfold paren_free, all_bytes in *.
  rewrite forallb_forall in *. intros c Hc. specialize (Hd c Hc). unfold byte_in in Hd.
  unfold byte_is. apply andb_true_iff in Hd as [Hlo%N.leb_le _].
  apply andb_true_iff. split; apply negb_true_iff, N.eqb_neq; lia.
Qed.
Lemma aces_inside t : paren_free t → ∀ cur rest,
  aces (Some cur) (t +:+ String ")" rest) = (part cur +:+ t) :: aces None rest.
Proof.
  unfold paren_free. induction t as [|c t IH]; intros Ht cur rest.
  - rewrite string_app_nil. done.
  - unfold all_bytes in Ht. simpl in Ht. apply andb_true_iff in Ht as [[_ Hc]%andb_true_iff Ht].
    change (aces (Some cur) (String c (t +:+ String ")" rest)) = (part cur +:+ String c t) :: aces None rest).
    cbn [aces]. apply negb_true_iff in Hc. rewrite Hc, IH by done. f_equal.
    change (c :: cur) with (rev (String.list_ascii_of_string (String c "")) ++ cur).
    by rewrite part_app, str_app_assoc.
Qed.
Lemma sid_text_paren_free sid text :
  sid_wf sid → sid_to_string true (Some sid) = Ok text → paren_free text.
Proof.
  intros [Hr [Hlen Hb] Hs] [= <-]. destruct (authority_value_be _ Hlen Hb) as [Ha _]. unfold is_byte in Hr.
  assert (paren_free ("S-" +:+ pretty (Sid_revision sid) +:+ "-"
                   +:+ pretty (authority_value (Sid_authority sid)))) as H0.
  { unfold paren_free. rewrite !all_bytes_app. rewrite !pretty_paren_free by lia. done. }
  revert H0. generalize ("S-" +:+ pretty (Sid_revision sid) +:+ "-"
                   +:+ pretty (authority_value (Sid_authority sid))).
  induction Hs as [|s subs Hs _ IH]; intros value Hv; [done|]. simpl. apply IH.
  unfold paren_free in *. rewrite !all_bytes_app, Hv, pretty_paren_free by lia. done.
Qed.

(** The text of a user identifies the user: it is read back as the security
    identifier it was made from, so two users never share it; and it cannot
    add entries to an access list: the pipe is open to that user alone, the
    mutexes to that user, the system and the administrators.  The token the
    identifier is read from is closed whatever happens. *)
Theorem user_text_identifies env sid text :
  TokenEnv_read env = Ok (Some sid) → sid_wf sid →
  (current_user_sid env).2 = Ok text →
  parse_sid text = Some sid ∧
  aces None (pipe_sddl text) = ["A;;GA;;;" +:+ text] ∧
  aces None (user_system_admin_sddl text) =
    ["A;;GA;;;SY"; "A;;GA;;;BA"; "A;;GA;;;" +:+ text] ∧
  ∃ words, (current_user_sid env).1 = [TokenOpened; TokenRead words; TokenClosed] ∧
    (TokenEnv_size env ≤ words * WORD)%Z.
Proof.
  intros Hread Hwf. unfold current_user_sid, user_sid_from_token.
  destruct (TokenEnv_open env) as [u|]; [|done]. simpl.
  destruct (Z.eqb_spec (TokenEnv_size env) 0) as [|Hsize]; [done|]. rewrite Hread. simpl.
  destruct (TokenEnv_valid env) eqn:Hv; [|done]. intros Ht.
  assert (sid_to_string true (Some sid) = Ok text) as Ht' by done.
  pose proof (sid_text_paren_free sid text Hwf Ht') as Hp.
  split_and!; [by apply sid_text_parses| | |].
  - exact (aces_inside ("A;;GA;;;" +:+ text) Hp [] "").
  - change (["A;;GA;;;SY"; "A;;GA;;;BA"] ++
      aces (Some []) (("A;;GA;;;" +:+ text) +:+ String ")" "") =
      ["A;;GA;;;SY"; "A;;GA;;;BA"; "A;;GA;;;" +:+ text]).
    by rewrite (aces_inside ("A;;GA;;;" +:+ text) Hp [] "").
  - eexists. split; [done|]. apply token_buffer_covers.
Qed.

(** ** A user *)
Module SidExamples.
Definition sid_user : Sid := {| Sid_revision := 1; Sid_authority := [0; 0; 0; 0; 0; 5]%Z;
  Sid_sub_authorities := [21; 111; 222; 333; 1001]%Z |}.
Definition sid_env : TokenEnv := {| TokenEnv_open := Ok tt; TokenEnv_size := 44;
  TokenEnv_read := Ok (Some sid_user); TokenEnv_valid := true |}.
Lemma user_text_identifies_witness :
  (current_user_sid sid_env).2 = Ok "S-1-5-21-111-222-333-1001" ∧
  parse_sid "S-1-5-21-111-222-333-1001" = Some sid_user.
Proof.
  split; [vm_compute; reflexivity|].
  refine (proj1 (user_text_identifies sid_env sid_user _ eq_refl _ _)).
  - split; [unfold is_byte; simpl; lia|split; [reflexivity|]|]; simpl;
      repeat constructor; unfold is_byte, u32_max; lia.
  - vm_compute. reflexivity.
Defined.
End SidExamples.
