(* ===== verification/JobObjects.v ===== *)
(** * Job objects: an agent and everything it starts
    ([OwnedJob] of [crates/adapter-codex/src/app_server.rs] and of
    [crates/adapter-claude/src/process.rs], [spawn_owned_app_server],
    [crates/supervisor/src/process_tree.rs])

    A job of the operating system owns a process and the processes that one
    starts; closing its handle or terminating it ends them all.  The system's
    jobs are an interface with the documented behaviour; what happens to the
    processes in the meantime is a list of events. *)

From S2P Require Import Prelude Text ProcessTree.
From Stdlib Require Import ZArith Lia.
From stdpp Require Import prelude gmap strings.

(** Processes come and go by themselves. *)
Inductive process_event := Starts (parent child : Z) | Exits (pid : Z).

Class JobObjects (K : Type) : Type := {
  create_job : K → K * option nat; (* [CreateJobObjectW]; a null handle is [None] *)
  kill_on_close : nat → K → K * bool; (* [SetInformationJobObject] with [KILL_ON_JOB_CLOSE] *)
  assign_process : nat → Z → K → K * bool;
  terminate_job : nat → K → K * bool;
  close_job : nat → K → K;
  kill_process : Z → K → K; (* [kill_on_drop] of a child *)
  process_happens : process_event → K → K;
  processes : K → gset Z;
  job_members : K → nat → gset Z;
  job_kills : K → nat → bool;
  open_jobs : K → gset nat;
}.

(** Same processes and jobs, but for what is said of the job [j]. *)
Record only_job `{JobObjects K} (j : nat) (k k' : K) : Prop := {
  only_processes : processes k' = processes k;
  only_open : open_jobs k' = open_jobs k;
  only_members i : i ≠ j → job_members k' i = job_members k i;
  only_kills i : i ≠ j → job_kills k' i = job_kills k i;
}.
Class JobObjectsLaws (K : Type) `{!JobObjects K} : Prop := {
  create_job_ok k k' j :
    create_job k = (k', Some j) →
    (j ∉ open_jobs k) ∧ open_jobs k' = {[j]} ∪ open_jobs k ∧ processes k' = processes k ∧
    job_members k' j = ∅ ∧ job_kills k' j = false;
  create_job_failed k k' :
    create_job k = (k', None) → open_jobs k' = open_jobs k ∧ processes k' = processes k;
  kill_on_close_spec k k' j ok :
    kill_on_close j k = (k', ok) →
    only_job j k k' ∧ job_members k' j = job_members k j ∧ (ok = true → job_kills k' j = true);
  assign_spec k k' j p ok :
    assign_process j p k = (k', ok) →
    only_job j k k' ∧ job_kills k' j = job_kills k j ∧
    job_members k' j = (if ok then {[p]} ∪ job_members k j else job_members k j);
  terminate_spec k k' j ok :
    terminate_job j k = (k', ok) →
    processes k' = (if ok then processes k ∖ job_members k j else processes k) ∧
    open_jobs k' = open_jobs k;
  close_spec k j :
    processes (close_job j k) =
      (if job_kills k j then processes k ∖ job_members k j else processes k) ∧
    open_jobs (close_job j k) = open_jobs k ∖ {[j]};
  kill_spec k p :
    processes (kill_process p k) = processes k ∖ {[p]} ∧ open_jobs (kill_process p k) = open_jobs k;
  starts_spec k parent child :
    processes (process_happens (Starts parent child) k) = {[child]} ∪ processes k ∧
    ∀ j, job_members (process_happens (Starts parent child) k) j =
      (if decide (parent ∈ job_members k j) then {[child]} ∪ job_members k j else job_members k j);
  exits_spec k p :
    processes (process_happens (Exits p) k) = processes k ∖ {[p]} ∧
    ∀ j, job_members (process_happens (Exits p) k) j = job_members k j ∖ {[p]};
  happens_frame k e j :
    open_jobs (process_happens e k) = open_jobs k ∧
    job_kills (process_happens e k) j = job_kills k j;
}.

(** ** The operations *)
Section jobs.
Context `{JobObjects K}.

(** [OwnedJob::from_child] on Windows: [unavailable] is the text of the
    adapter, [raw_handle] the child's process, [None] once it was reaped. *)
Definition owned_job_from_child (unavailable : string) (raw_handle : option Z)
    : stm K string nat := λ k,
  match create_job k with
  | (k, None) => (k, Err "CreateJobObjectW failed")
  | (k, Some handle) =>
      let '(k, configured) := kill_on_close handle k in
      match raw_handle with
      | None => (k, Err unavailable)
      | Some process =>
          let '(k, assigned) := if configured : bool then assign_process handle process k else (k, false) in
          if assigned : bool then (k, Ok handle)
          else (close_job handle k, Err "AssignProcessToJobObject failed")
      end
  end.
Definition codex_job_from_child : option Z → stm K string nat :=
  owned_job_from_child "Codex process handle unavailable".
Definition claude_job_from_child : option Z → stm K string nat :=
  owned_job_from_child "Claude process handle unavailable".

Definition job_terminate (handle : option nat) : stm K string unit := λ k,
  match handle with
  | None => (k, Ok tt)
  | Some handle =>
      let '(k, ok) := terminate_job handle k in
      (k, if ok : bool then Ok tt else Err "TerminateJobObject failed")
  end.
Definition job_drop (handle : option nat) (k : K) : K :=
  match handle with None => k | Some handle => close_job handle k end.

(** [spawn_owned_app_server]: [spawned] is the process, or why there is none;
    [pipes] whether its three pipes are there.  A value that goes out of scope
    on the way out is dropped: the job's handle is closed, the child killed. *)
Definition spawn_owned_app_server (spawned : result string Z) (raw_handle : option Z) (pipes : bool)
    : stm K string (Z * nat) := λ k,
  match spawned with
  | Err e => (k, Err e)
  | Ok pid =>
      match codex_job_from_child raw_handle k with
      | (k, Err e) => (kill_process pid k, Err e)
      | (k, Ok job) =>
          if pipes then (k, Ok (pid, job))
          else (kill_process pid (close_job job k), Err "Closed")
      end
  end.

(** *** The supervisor's trees *)
Definition tree_new : K → K * option nat := λ k,
  match create_job k with
  | (k, None) => (k, None)
  | (k, Some job) =>
      let '(k, configured) := kill_on_close job k in
      if configured : bool then (k, Some job) else (close_job job k, None)
  end.
Definition tree_from_child (pid : Z) : K → K * (OwnedProcessTree * option nat) := λ k,
  let '(k, job) := tree_new k in
  let tree := process_register pid OwnedProcessTree_new in
  match job with
  | None => (k, (tree, None))
  | Some job =>
      let '(k, assigned) := assign_process job pid k in
      if assigned : bool then (k, (tree, Some job)) else (close_job job k, (tree, None))
  end.
(** What [process_terminate] is told. *)
Definition tree_terminate (tree : OwnedProcessTree) (job : option nat)
    : K → K * (OwnedProcessTree * result string unit) := λ k,
  match OwnedProcessTree_root_pid tree with
  | None => (k, (tree, Ok tt))
  | Some _ =>
      match job with
      | None => (k, process_terminate (Err "owned process job object is unavailable") tree)
      | Some job =>
          let '(k, r) := job_terminate (Some job) k in (k, process_terminate r tree)
      end
  end.

(** *** What happens in the meantime *)
Definition happen (events : list process_event) (k : K) : K :=
  foldl (λ k e, process_happens e k) k events.
End jobs.

(** The living among [root] and what comes from it by these starts. *)
Definition descend (tree : gset Z) (e : process_event) : gset Z :=
  match e with
  | Starts parent child => if decide (parent ∈ tree) then {[child]} ∪ tree else tree
  | Exits pid => tree ∖ {[pid]}
  end.
Definition tree_of (root : Z) (events : list process_event) : gset Z :=
  foldl descend {[root]} events.

(** ** Proofs *)
Section proofs.
Context `{JobObjects K, !JobObjectsLaws K}.

(** A handle is returned only for a job that holds the child and dies with
    its handle; an error leaves nothing open, if the child is not yet gone. *)
Lemma from_child_spec unavailable p (k k' : K) r :
  owned_job_from_child unavailable (Some p) k = (k', r) →
  processes k' = processes k ∧
  match r with
  | Ok j => (j ∉ open_jobs k) ∧ open_jobs k' = {[j]} ∪ open_jobs k ∧
            job_members k' j = {[p]} ∧ job_kills k' j = true
  | Err _ => open_jobs k' = open_jobs k
  end.
Proof.
  unfold owned_job_from_child. destruct (create_job k) as [k1 [j|]] eqn:Hc.
  2: { intros [= <- <-]. by apply create_job_failed in Hc as [??]. }
  apply create_job_ok in Hc as (Hj&Ho&Hp&Hm&_).
  destruct (kill_on_close j k1) as [k2 configured] eqn:Hk.
  apply kill_on_close_spec in Hk as ([Hp2 Ho2 _ _]&Hm2&Hk2).
  assert (∀ k3, processes k3 = processes k → open_jobs k3 = {[j]} ∪ open_jobs k →
    job_members k3 j = ∅ →
    processes (close_job j k3) = processes k ∧ open_jobs (close_job j k3) = open_jobs k) as Hclose.
  { intros k3 E1 E2 E3. destruct (close_spec k3 j) as [-> ->]. rewrite E1, E2, E3.
    split; [case_match; set_solver|set_solver]. }
  destruct configured.
  - destruct (assign_process j p k2) as [k3 assigned] eqn:Ha.
    apply assign_spec in Ha as ([Hp3 Ho3 _ _]&Hk3&Hm3). destruct assigned; intros [= <- <-].
    + split; [congruence|]. split_and!; [done|congruence| |].
      * rewrite Hm3, Hm2, Hm. set_solver.
      * rewrite Hk3. by apply Hk2.
    + apply Hclose; congruence.
  - intros [= <- <-]. apply Hclose; congruence.
Qed.

(** The members of a job are the descendants of its members. *)
Lemma happen_members events (k : K) j :
  job_members (happen events k) j = foldl descend (job_members k j) events ∧
  job_kills (happen events k) j = job_kills k j ∧ open_jobs (happen events k) = open_jobs k.
Proof.
  revert k. induction events as [|e events IH]; intros k; [done|]. simpl.
  destruct (IH (process_happens e k)) as (->&->&->).
  destruct (happens_frame k e j) as [-> ->]. split; [|done]. f_equal.
  destruct e as [parent child|pid]; simpl.
  - by rewrite (proj2 (starts_spec k parent child)).
  - by rewrite (proj2 (exits_spec k pid)).
Qed.

(** C35: what an agent starts once it is in its job does not outlive the run.
    Let [early] happen before the child is put into the job and [late] after.
    Terminating the job, or dropping its handle, as the end of the owning
    process does, ends exactly the living processes among the child and those
    that come from it by starts in [late], and no other process; a child that
    had no other living descendant when it was put into the job has all of them
    ended.  One it started before is left alone, which is why the order
    matters.  Dropping closes the handle, so nothing is left open; terminating
    leaves it open. *)
Theorem agent_tree_ends unavailable p early late (k0 k1 : K) j :
  owned_job_from_child unavailable (Some p) (happen early k0) = (k1, Ok j) →
  let k2 := happen late k1 in
  processes (job_drop (Some j) k2) = processes k2 ∖ tree_of p late ∧
  open_jobs (job_drop (Some j) k2) = open_jobs k0 ∧
  (∀ k3, job_terminate (Some j) k2 = (k3, Ok tt) →
    processes k3 = processes k2 ∖ tree_of p late ∧ open_jobs k3 = {[j]} ∪ open_jobs k0) ∧
  (tree_of p early = {[p]} → tree_of p late = tree_of p (early ++ late)) ∧
  (∀ c, c ∈ tree_of p early → c ∉ tree_of p late → c ∈ processes k2 →
    c ∈ processes (job_drop (Some j) k2)).
Proof.
  intros Hj k2. apply from_child_spec in Hj as (_&Hn&Ho&Hm&Hk).
  destruct (happen_members early k0 j) as (_&_&Ho0). rewrite Ho0 in Hn, Ho.
  destruct (happen_members late k1 j) as (Hm2&Hk2&Ho2). fold k2 in Hm2, Hk2, Ho2.
  rewrite Hm in Hm2.
  assert (processes (job_drop (Some j) k2) = processes k2 ∖ tree_of p late) as Hdrop.
  { simpl. rewrite (proj1 (close_spec k2 j)), Hk2, Hk. by rewrite Hm2. }
  split_and!; [done| | | |rewrite Hdrop; set_solver].
  - simpl. rewrite (proj2 (close_spec k2 j)), Ho2, Ho. set_solver.
  - intros k3. unfold job_terminate. destruct (terminate_job j k2) as [k4 []] eqn:Ht; [|done].
    intros [= <-]. apply terminate_spec in Ht as [-> ->]. by rewrite Hm2, Ho2, Ho.
  - unfold tree_of. intros He. by rewrite foldl_app, He.
Qed.

(** An app server that could not be taken into a job is not left running,
    and neither is one whose pipes are missing. *)
Lemma spawn_failure_leaves_nothing pid (pipes : bool) (k k' : K) e :
  spawn_owned_app_server (Ok pid) (Some pid) pipes k = (k', Err e) →
  processes k' = processes k ∖ {[pid]} ∧ open_jobs k' = open_jobs k.
Proof.
  unfold spawn_owned_app_server, codex_job_from_child.
  destruct (owned_job_from_child _ (Some pid) k) as [k1 [j|err]] eqn:Hj;
    apply from_child_spec in Hj as [Hp Hr].
  - destruct Hr as (Hn&Ho&Hm&Hk). destruct pipes; [done|]. intros [= <- _].
    destruct (kill_spec (close_job j k1) pid) as [-> ->].
    destruct (close_spec k1 j) as [-> ->]. rewrite Hk, Hm, Hp, Ho. set_solver.
  - intros [= <- _]. destruct (kill_spec k1 pid) as [-> ->]. by rewrite Hp, Hr.
Qed.

(** What the child starts before it is in the job stays outside. *)
Lemma early_child_escapes unavailable p c (k k1 : K) j :
  c ≠ p →
  owned_job_from_child unavailable (Some p) (process_happens (Starts p c) k) = (k1, Ok j) →
  c ∈ processes (job_drop (Some j) k1).
Proof.
  intros Hne Hj. apply from_child_spec in Hj as (Hp&_&_&Hm&Hk). simpl.
  rewrite (proj1 (close_spec k1 j)), Hk, Hm, Hp, (proj1 (starts_spec k p c)). set_solver.
Qed.
(** The handle of the job is lost when the child was reaped before. *)
Lemma reaped_child_leaks_job unavailable (k k1 : K) j :
  create_job k = (k1, Some j) →
  ∃ k', owned_job_from_child unavailable None k = (k', Err unavailable) ∧ j ∈ open_jobs k'.
Proof.
  intros Hc. unfold owned_job_from_child. rewrite Hc.
  destruct (kill_on_close j k1) as [k2 ok] eqn:Hk. eexists. split; [done|].
  apply create_job_ok in Hc as (_&Ho&_). apply kill_on_close_spec in Hk as ([_ -> _ _]&_).
  rewrite Ho. set_solver.
Qed.

Lemma tree_from_child_spec pid (k k1 : K) tree job :
  tree_from_child pid k = (k1, (tree, job)) →
  tree = process_register pid OwnedProcessTree_new ∧ processes k1 = processes k ∧
  match job with
  | Some j => job_members k1 j = {[pid]} ∧ job_kills k1 j = true
  | None => open_jobs k1 = open_jobs k
  end.
Proof.
  unfold tree_from_child, tree_new. destruct (create_job k) as [k2 [j|]] eqn:Hc.
  2: { intros [= <- <- <-]. by apply create_job_failed in Hc as [??]. }
  apply create_job_ok in Hc as (Hj&Ho&Hp&Hm&_).
  destruct (kill_on_close j k2) as [k3 configured] eqn:Hk.
  apply kill_on_close_spec in Hk as ([Hp2 Ho2 _ _]&Hm2&Hk2). destruct configured.
  - destruct (assign_process j pid k3) as [k4 assigned] eqn:Ha.
    apply assign_spec in Ha as ([Hp3 Ho3 _ _]&Hk3&Hm3). destruct assigned; intros [= <- <- <-].
    + split; [done|]. split; [congruence|]. rewrite Hm3, Hm2, Hm, Hk3, Hk2 by done. set_solver.
    + split; [done|]. destruct (close_spec k4 j) as [-> ->]. rewrite Hk3, Hk2, Hm3, Hm2, Hm by done.
      rewrite Ho3, Ho2, Ho. set_solver.
  - intros [= <- <- <-]. split; [done|]. destruct (close_spec k3 j) as [-> ->].
    rewrite Hm2, Hm, Ho2, Ho. split; [case_match; set_solver|set_solver].
Qed.

(** The supervisor's tree: a termination that is reported done ended exactly
    the descendants of the child; one that is not keeps the ownership. *)
Lemma tree_terminate_exact pid (k k1 : K) tree job events k3 tree' r :
  tree_from_child pid k = (k1, (tree, job)) →
  tree_terminate tree job (happen events k1) = (k3, (tree', r)) →
  match r with
  | Ok _ => processes k3 = processes (happen events k1) ∖ tree_of pid events ∧
            OwnedProcessTree_pids tree' = ∅
  | Err _ => processes k3 = processes (happen events k1) ∧ tree' = tree
  end.
Proof.
  intros Hf%tree_from_child_spec Ht. destruct Hf as (->&_&Hjob). 
  unfold tree_terminate, job_terminate, process_terminate in Ht. simpl in Ht.
  destruct job as [j|]; [|by simplify_eq/=].
  destruct Hjob as [Hm Hk]. destruct (happen_members events k1 j) as (Hm2&_&_). rewrite Hm in Hm2.
  destruct (terminate_job j (happen events k1)) as [k4 ok] eqn:Hterm.
  apply terminate_spec in Hterm as [Hp _]. destruct ok; simplify_eq/=; [|done].
  by rewrite Hp, Hm2.
Qed.
End proofs.

(** ** Jobs that behave as documented *)
Module JobExamples.
Record Kernel := {
  Kernel_processes : gset Z;
  Kernel_jobs : gmap nat (bool * gset Z); (* open jobs *)
}.
Definition job_at (k : Kernel) (j : nat) : bool * gset Z := default (false, ∅) (Kernel_jobs k !! j).
Definition set_job (j : nat) (v : bool * gset Z) (k : Kernel) : Kernel := {|
  Kernel_processes := Kernel_processes k; Kernel_jobs := <[j := v]> (Kernel_jobs k) |}.
Definition set_processes (ps : gset Z) (k : Kernel) : Kernel := {|
  Kernel_processes := ps; Kernel_jobs := Kernel_jobs k |}.
Definition fresh_job (k : Kernel) : nat := fresh (dom (Kernel_jobs k) : gset nat).
Lemma fresh_job_fresh k : fresh_job k ∉ dom (Kernel_jobs k).
Proof. exact (is_fresh (dom (Kernel_jobs k) : gset nat)). Qed.
#[export] Instance kernel_jobs : JobObjects Kernel := {
  create_job k := (set_job (fresh_job k) (false, ∅) k, Some (fresh_job k));
  kill_on_close j k :=
    match Kernel_jobs k !! j with
    | Some (_, m) => (set_job j (true, m) k, true) | None => (k, false) end;
  assign_process j p k :=
    match Kernel_jobs k !! j with
    | Some (b, m) => (set_job j (b, {[p]} ∪ m) k, true) | None => (k, false) end;
  terminate_job j k := (set_processes (Kernel_processes k ∖ (job_at k j).2) k, true);
  close_job j k := {|
    Kernel_processes := if (job_at k j).1 then Kernel_processes k ∖ (job_at k j).2
                        else Kernel_processes k;
    Kernel_jobs := delete j (Kernel_jobs k) |};
  kill_process p k := set_processes (Kernel_processes k ∖ {[p]}) k;
  process_happens e k := match e with
    | Starts parent child => {|
        Kernel_processes := {[child]} ∪ Kernel_processes k;
        Kernel_jobs := (λ v, (v.1, if decide (parent ∈ v.2) then {[child]} ∪ v.2 else v.2))
          <$> Kernel_jobs k |}
    | Exits p => {|
        Kernel_processes := Kernel_processes k ∖ {[p]};
        Kernel_jobs := (λ v, (v.1, v.2 ∖ {[p]})) <$> Kernel_jobs k |}
    end;
  processes := Kernel_processes;
  job_members k j := (job_at k j).2;
  job_kills k j := (job_at k j).1;
  open_jobs k := dom (Kernel_jobs k);
}.
Lemma set_job_only j v (k : Kernel) : is_Some (Kernel_jobs k !! j) → only_job j k (set_job j v k).
Proof.
  intros Hj. split; simpl; [done| |..].
  - rewrite dom_insert_L. apply elem_of_dom in Hj. set_solver.
  - intros i Hi. unfold job_at. simpl. by rewrite lookup_insert_ne.
  - intros i Hi. unfold job_at. simpl. by rewrite lookup_insert_ne.
Qed.
#[export] Instance kernel_jobs_laws : JobObjectsLaws Kernel.
Proof.
  split; simpl.
  - intros k k' j [= <- <-]. unfold job_at. simpl. rewrite lookup_insert_eq, dom_insert_L.
    split_and!; try done. apply (fresh_job_fresh k).
  - done.
  - intros k k' j ok. destruct (Kernel_jobs k !! j) as [[b m]|] eqn:Hj; intros [= <- <-].
    + split; [apply set_job_only; by eexists|]. unfold job_at. simpl. by rewrite lookup_insert_eq, Hj.
    + split; [by split|done].
  - intros k k' j p ok. destruct (Kernel_jobs k !! j) as [[b m]|] eqn:Hj; intros [= <- <-].
    + split; [apply set_job_only; by eexists|]. unfold job_at. simpl. by rewrite lookup_insert_eq, Hj.
    + split; [by split|done].
  - intros k k' j ok [= <- <-]. done.
  - intros k j. by rewrite dom_delete_L.
  - done.
  - intros k parent child. split; [done|]. intros j. unfold job_at. simpl. rewrite lookup_fmap.
    destruct (Kernel_jobs k !! j); simpl; [done|]. case_decide; set_solver.
  - intros k p. split; [done|]. intros j. unfold job_at. simpl. rewrite lookup_fmap.
    destruct (Kernel_jobs k !! j); simpl; [done|]. set_solver.
  - intros k e j. destruct e; simpl; unfold job_at; simpl; rewrite dom_fmap_L, lookup_fmap;
      by destruct (Kernel_jobs k !! j).
Qed.

(** An agent starts a shell that starts a compiler; the shell exits. *)
Definition jx_kernel : Kernel :=
  {| Kernel_processes := {[1; 10]}%Z; Kernel_jobs := ∅ |}.
Definition jx_start := owned_job_from_child "unavailable" (Some 10%Z) jx_kernel.
Definition jx_events : list process_event := [Starts 10 11; Starts 11 12; Starts 1 2; Exits 11].
Lemma agent_tree_ends_witness :
  ∃ j, jx_start.2 = Ok j ∧
    processes (job_drop (Some j) (happen jx_events jx_start.1)) =
      processes (happen jx_events jx_start.1) ∖ {[10; 12]}%Z.
Proof.
  exists (fresh_job jx_kernel). split; [vm_compute; reflexivity|].
  destruct (agent_tree_ends "unavailable" 10%Z [] jx_events jx_kernel jx_start.1 (fresh_job jx_kernel))
    as (Hd&_); [vm_compute; reflexivity|].
  rewrite Hd. vm_compute. reflexivity.
Defined.
End JobExamples.
