(* ===== verification/NamedMutex.v ===== *)
(** * Processes that share a named mutex
    ([crates/supervisor/src/single_instance.rs],
    [crates/protocol/src/credential.rs])

    Two places of the program rely on a mutex of the operating system that
    several processes open by name: a supervisor is the only one of its user
    because it made the mutex of that user, and the processes that need the
    installation secret make it once because they take turns.  The system's
    mutexes are an interface with the behaviour their documentation promises;
    the processes run interleaved, one call of the system at a time, and may
    disappear between any two calls. *)

From S2P Require Import Prelude Text Extern Startup KeyStore.
From Stdlib Require Import ZArith Lia.
From stdpp Require Import prelude gmap strings.

(** ** The system's mutexes

    A client is one open handle: a call of [acquire] in some thread of some
    process. *)
Abbreviation client := nat (only parsing).
(** [CreateMutexW]: the mutex is new, or it existed and was opened. *)
Inductive created := MutexNew | MutexExists | MutexFailed (code : Z).
(** [WaitForSingleObject] with a timeout. *)
Inductive waited := WaitObject | WaitAbandoned | WaitTimeout | WaitFailed (code : Z).

Class NamedMutexes (K : Type) : Type := {
  create_mutex : client → string → bool → K → K * created;
  wait_mutex : client → string → K → K * waited;
  release_mutex : client → string → K → K;
  close_mutex : client → string → K → K;
  (** The process ends: its handles are closed, its mutexes abandoned. *)
  client_exits : client → K → K;
  mutex_handles : K → string → gset nat;
  mutex_owner : K → string → option nat;
}.
Class NamedMutexesLaws (K : Type) `{!NamedMutexes K} : Prop := {
  create_new c n owner k k' :
    create_mutex c n owner k = (k', MutexNew) →
    mutex_handles k n = ∅ ∧ mutex_handles k' n = {[c]} ∧
    mutex_owner k' n = (if owner then Some c else None);
  create_exists c n owner k k' :
    create_mutex c n owner k = (k', MutexExists) →
    mutex_handles k n ≠ ∅ ∧ mutex_handles k' n = {[c]} ∪ mutex_handles k n ∧
    mutex_owner k' n = mutex_owner k n;
  create_failed c n owner k k' code :
    create_mutex c n owner k = (k', MutexFailed code) →
    mutex_handles k' n = mutex_handles k n ∧ mutex_owner k' n = mutex_owner k n;
  wait_got c n k k' w :
    wait_mutex c n k = (k', w) → w = WaitObject ∨ w = WaitAbandoned →
    (mutex_owner k n = None ∨ mutex_owner k n = Some c) ∧
    mutex_owner k' n = Some c ∧ mutex_handles k' n = mutex_handles k n;
  wait_gave_up c n k k' w :
    wait_mutex c n k = (k', w) → w ≠ WaitObject → w ≠ WaitAbandoned →
    mutex_owner k' n = mutex_owner k n ∧ mutex_handles k' n = mutex_handles k n;
  release_owner c n k :
    mutex_owner (release_mutex c n k) n =
      (if decide (mutex_owner k n = Some c) then None else mutex_owner k n);
  release_handles c n k : mutex_handles (release_mutex c n k) n = mutex_handles k n;
  close_handles c n k : mutex_handles (close_mutex c n k) n = mutex_handles k n ∖ {[c]};
  close_owner c d n k : c ≠ d →
    mutex_owner (close_mutex c n k) n = Some d ↔ mutex_owner k n = Some d;
  exit_handles c n k : mutex_handles (client_exits c k) n = mutex_handles k n ∖ {[c]};
  exit_owner c d n k : c ≠ d →
    mutex_owner (client_exits c k) n = Some d ↔ mutex_owner k n = Some d;
}.

(** What happens to the clients: one of them makes its next call, or its
    process ends. *)
Inductive client_turn (E : Type) := Step (c : client) (env : E) | Exit (c : client).
Arguments Step {E}. Arguments Exit {E}.

(** ** One supervisor per user *)
Section single_instance.
Context `{NamedMutexes K, !NamedMutexesLaws K}.
Context (name : string).

(** Where a process is in [acquire_named] and in the life of the
    [SingleInstance] it returns. *)
Inductive instance_phase :=
| InstanceIdle
| InstanceOpened (* told that the mutex existed, handle not yet closed *)
| InstanceHeld   (* [AcquireResult::Acquired] *)
| InstanceReleasing (* [drop], between its two calls *)
| InstanceRefused (* [AcquireResult::AlreadyRunning] *)
| InstanceError (code : Z)
| InstanceGone.
#[export] Instance instance_phase_eq_dec : EqDecision instance_phase.
Proof. solve_decision. Defined.

(** The next call of a process: [acquire_named], and [drop] for one that
    holds the instance. *)
Definition instance_step (c : client) (p : instance_phase) (k : K) : K * instance_phase :=
  match p with
  | InstanceIdle =>
      match create_mutex c name true k with
      | (k, MutexFailed code) => (k, InstanceError code)
      | (k, MutexExists) => (k, InstanceOpened)
      | (k, MutexNew) => (k, InstanceHeld)
      end
  | InstanceOpened => (close_mutex c name k, InstanceRefused)
  | InstanceHeld => (release_mutex c name k, InstanceReleasing)
  | InstanceReleasing => (close_mutex c name k, InstanceGone)
  | InstanceRefused | InstanceError _ | InstanceGone => (k, p)
  end.

Definition instances : Type := K * gmap nat instance_phase.
Definition instance_of (s : instances) (c : client) : instance_phase :=
  default InstanceIdle (s.2 !! c).
Definition instance_turn (t : client_turn unit) (s : instances) : instances :=
  match t with
  | Step c _ => let '(k, p) := instance_step c (instance_of s c) s.1 in (k, <[c := p]> s.2)
  | Exit c => (client_exits c s.1, <[c := InstanceGone]> s.2)
  end.
Definition instance_run (s : instances) (turns : list (client_turn unit)) : instances :=
  foldl (λ s t, instance_turn t s) s turns.

Definition instance_has_handle (p : instance_phase) : bool :=
  match p with InstanceOpened | InstanceHeld | InstanceReleasing => true | _ => false end.
Definition instance_made_it (p : instance_phase) : bool :=
  match p with InstanceHeld | InstanceReleasing => true | _ => false end.
Record instances_inv (s : instances) : Prop := {
  inst_handles c : c ∈ mutex_handles s.1 name ↔ instance_has_handle (instance_of s c) = true;
  inst_one c d : instance_made_it (instance_of s c) = true →
    instance_made_it (instance_of s d) = true → c = d;
}.

Lemma instance_of_insert k m c d p :
  instance_of (k, <[c := p]> m) d = if decide (c = d) then p else instance_of (k, m) d.
Proof. unfold instance_of. simpl. case_decide; subst; by simplify_map_eq. Qed.

Lemma instances_inv_set k k' m c p :
  instances_inv (k, m) →
  mutex_handles k' name = (if instance_has_handle p then {[c]} ∪ mutex_handles k name
                           else mutex_handles k name ∖ {[c]}) →
  (instance_made_it p = true → instance_made_it (instance_of (k, m) c) = true
    ∨ mutex_handles k name = ∅) →
  instances_inv (k', <[c := p]> m).
Proof.
  intros [Hh Ho] Hk Hp. split; simpl in *.
  - intros d. rewrite instance_of_insert, Hk. specialize (Hh d).
    case_decide; subst; destruct (instance_has_handle p); set_solver.
  - assert (∀ d, instance_made_it p = true → instance_made_it (instance_of (k, m) d) = true → c = d)
      as Hone.
    { intros d Hpm Hd. destruct (Hp Hpm) as [Hc|He]; [by apply Ho|]. exfalso.
      assert (d ∈ mutex_handles k name) as Hin; [|by rewrite He in Hin; set_solver].
      apply Hh. by destruct (instance_of _ d). }
    intros d d'. rewrite !instance_of_insert. do 2 case_decide; subst; intros; auto.
Qed.

Lemma instance_turn_inv t s : instances_inv s → instances_inv (instance_turn t s).
Proof.
  destruct s as [k m]. intros Hinv. destruct t as [c []|c]; simpl.
  2: { eapply instances_inv_set; [done|by rewrite exit_handles|done]. }
  destruct (instance_step c (instance_of (k, m) c) k) as [k' p] eqn:Hs.
  unfold instance_step in Hs. pose proof (proj1 (inst_handles _ Hinv c)) as Hc.
  pose proof (proj2 (inst_handles _ Hinv c)) as Hc'. simpl in Hc, Hc'.
  destruct (instance_of (k, m) c) eqn:Hp; simplify_eq/=.
  2-7: eapply instances_inv_set; [done| |rewrite ?Hp; simpl; tauto]; simpl;
    rewrite ?close_handles, ?release_handles; set_solver.
  destruct (create_mutex c name true k) as [k1 []] eqn:Hcr; simplify_eq/=.
  - apply create_new in Hcr as (H1&H2&_). eapply instances_inv_set; [done| |by right].
    simpl. set_solver.
  - apply create_exists in Hcr as (H1&H2&_). by eapply instances_inv_set.
  - apply create_failed in Hcr as (H1&_). eapply instances_inv_set; [done| |done]. simpl. set_solver.
Qed.

Lemma instance_run_inv k turns :
  mutex_handles k name = ∅ → instances_inv (instance_run (k, ∅) turns).
Proof.
  intros Hk. unfold instance_run. induction turns as [|t turns IH] using rev_ind.
  - split; simpl; [|done]. intros e. rewrite Hk. unfold instance_of. simpl.
    rewrite lookup_empty. simpl. set_solver.
  - rewrite foldl_app. simpl. by apply instance_turn_inv.
Qed.

(** C20: one supervisor at a time: whatever processes of a user start, stop and
    die, in whatever order their calls of the system interleave, at most one
    of them holds the instance; and a process that asks is told that another
    one runs only if another one has the mutex open. *)
Theorem single_instance_exclusive k turns :
  mutex_handles k name = ∅ →
  let s := instance_run (k, ∅) turns in
  (∀ c d, instance_of s c = InstanceHeld → instance_of s d = InstanceHeld → c = d) ∧
  (∀ c, instance_of s c = InstanceIdle →
    instance_of (instance_turn (Step c tt) s) c = InstanceOpened →
    ∃ d, d ≠ c ∧ instance_has_handle (instance_of s d) = true).
Proof.
  intros Hk s. assert (instances_inv s) as Hinv by by apply instance_run_inv.
  clearbody s. split.
  - intros c d Hc Hd. apply (inst_one _ Hinv); [by rewrite Hc|by rewrite Hd].
  - intros c Hc. destruct s as [k' m]. simpl. rewrite Hc. unfold instance_step.
    destruct (create_mutex c name true k') as [k1 []] eqn:Hcr; rewrite instance_of_insert;
      case_decide; try done. intros _.
    apply create_exists in Hcr as (Hne&_). apply set_choose_L in Hne as [d Hd].
    apply (inst_handles _ Hinv) in Hd as Hdh. exists d. split; [|done].
    intros ->. by rewrite Hc in Hdh.
Qed.
End single_instance.

(** ** One installation secret *)
Definition credential_mutex_name `{Sha256} (sid : string) : string :=
  "Global\AgentMissionControlInstallSecretV1-" +:+ opaque_user_id sid.
(** [WindowsCredentialInstallSecret::for_test_target]. *)
Definition for_test_target (target : string) : result string string :=
  if str_eqb target "" || str_contains target nul then Err "credential target is invalid"
  else Ok target.
(** The timeout handed to [WaitForSingleObject], for which [u32::MAX] would
    mean to wait for ever. *)
Definition timeout_millis (timeout : Z) : u32 := Z.min timeout (u32_max - 1).
Definition SECRET_MUTEX_TIMEOUT : Z := 2000%Z.
Lemma wait_is_bounded timeout : (0 ≤ timeout)%Z →
  (0 ≤ timeout_millis timeout < u32_max)%Z ∧ (timeout_millis timeout ≤ timeout)%Z.
Proof. unfold timeout_millis, u32_max. lia. Qed.

Section install_secret.
Context `{NamedMutexes K, !NamedMutexesLaws K, DataProtection}.
Context (name target : string).

(** Where a call of [install_secret] is. *)
Inductive secret_phase :=
| SecretStart
| SecretWaiting
| SecretLocked
| SecretMissing
| SecretDrawn (secret : list u8)
| SecretReturning (r : result string (list u8)) (* the guard is still alive *)
| SecretReleased (r : result string (list u8)) (* in its [drop] *)
| SecretDone (r : result string (list u8))
| SecretGone.

(** The next call of the system [install_secret] makes, with
    [NamedMutexGuard::acquire] at its start and the guard's [drop] at its end;
    [env] is what the credential store answers at this moment. *)
Definition secret_step (env : CredentialEnv) (c : client) (p : secret_phase)
    (k : K) (s : Credentials) : K * Credentials * secret_phase :=
  match p with
  | SecretStart =>
      match create_mutex c name false k with
      | (k, MutexFailed _) => (k, s, SecretDone (Err "CreateMutexW failed"))
      | (k, _) => (k, s, SecretWaiting)
      end
  | SecretWaiting =>
      match wait_mutex c name k with
      | (k, WaitTimeout) =>
          (close_mutex c name k, s, SecretDone (Err "credential mutex wait timed out"))
      | (k, WaitFailed _) =>
          (close_mutex c name k, s, SecretDone (Err "WaitForSingleObject failed"))
      | (k, _) => (k, s, SecretLocked)
      end
  | SecretLocked =>
      match read_secret env target s with
      | Err e => (k, s, SecretReturning (Err e))
      | Ok (Some secret) => (k, s, SecretReturning (Ok secret))
      | Ok None => (k, s, SecretMissing)
      end
  | SecretMissing =>
      match draw_random env s with
      | (s, None) => (k, s, SecretReturning (Err "BCryptGenRandom failed"))
      | (s, Some secret) => (k, s, SecretDrawn secret)
      end
  | SecretDrawn secret =>
      match cred_write env target secret s with
      | (s, true) => (k, s, SecretReturning (Ok secret))
      | (s, false) => (k, s, SecretReturning (Err "CredWriteW failed"))
      end
  | SecretReturning r => (release_mutex c name k, s, SecretReleased r)
  | SecretReleased r => (close_mutex c name k, s, SecretDone r)
  | SecretDone _ | SecretGone => (k, s, p)
  end.

(** The steps in the lock, uninterrupted, are [install_secret]. *)
Lemma secret_steps_sequential env c k s :
  let '(k1, s1, p1) := secret_step env c SecretLocked k s in
  let '(k2, s2, p2) := (match p1 with SecretMissing => secret_step env c p1 k1 s1
                        | _ => (k1, s1, p1) end) in
  let '(k3, s3, p3) := (match p2 with SecretDrawn _ => secret_step env c p2 k2 s2
                        | _ => (k2, s2, p2) end) in
  k3 = k ∧ p3 = SecretReturning (install_secret env (Ok tt) target s).2 ∧
  s3 = (install_secret env (Ok tt) target s).1.
Proof.
  unfold install_secret, secret_step. destruct (read_secret env target s) as [[x|]|e]; try done.
  destruct (draw_random env s) as [s1 [x|]]; [|done].
  by destruct (cred_write env target x s1) as [s2 []].
Qed.

Record secrets := {
  secrets_kernel : K;
  secrets_store : Credentials;
  secrets_calls : gmap nat secret_phase;
}.
Definition call_of (s : secrets) (c : client) : secret_phase :=
  default SecretStart (secrets_calls s !! c).
Definition secret_turn (t : client_turn CredentialEnv) (s : secrets) : secrets :=
  match t with
  | Step c env =>
      let '(k, store, p) := secret_step env c (call_of s c) (secrets_kernel s) (secrets_store s) in
      {| secrets_kernel := k; secrets_store := store; secrets_calls := <[c := p]> (secrets_calls s) |}
  | Exit c => {| secrets_kernel := client_exits c (secrets_kernel s);
                 secrets_store := secrets_store s;
                 secrets_calls := <[c := SecretGone]> (secrets_calls s) |}
  end.
Definition secret_run (s : secrets) (turns : list (client_turn CredentialEnv)) : secrets :=
  foldl (λ s t, secret_turn t s) s turns.

Definition in_lock (p : secret_phase) : bool :=
  match p with
  | SecretLocked | SecretMissing | SecretDrawn _ | SecretReturning _ => true
  | _ => false
  end.
Definition has_handle (p : secret_phase) : bool :=
  match p with SecretWaiting | SecretReleased _ => true | _ => in_lock p end.
Definition returned (p : secret_phase) : option (list u8) :=
  match p with SecretReturning (Ok x) | SecretReleased (Ok x) | SecretDone (Ok x) => Some x
  | _ => None end.
(** What a call knows of the store. *)
Definition phase_ok (s : Credentials) (p : secret_phase) : Prop :=
  match p with
  | SecretMissing => Credentials_blobs s !! target = None
  | SecretDrawn x => Credentials_blobs s !! target = None ∧ length x = INSTALL_SECRET_BYTES
  | _ => ∀ x, returned p = Some x →
           Credentials_blobs s !! target = Some x ∧ length x = INSTALL_SECRET_BYTES
  end.
Record secrets_inv (s : secrets) : Prop := {
  sec_lock c : in_lock (call_of s c) = true → mutex_owner (secrets_kernel s) name = Some c;
  sec_handle c : has_handle (call_of s c) = true → c ∈ mutex_handles (secrets_kernel s) name;
  sec_phase c : phase_ok (secrets_store s) (call_of s c);
}.

Lemma call_of_insert k st m c d p :
  call_of {| secrets_kernel := k; secrets_store := st; secrets_calls := <[c := p]> m |} d =
  if decide (c = d) then p
  else call_of {| secrets_kernel := k; secrets_store := st; secrets_calls := m |} d.
Proof. unfold call_of. simpl. case_decide; subst; by simplify_map_eq. Qed.

(** One call moves to [p]; the store keeps the secret, or gets its first one
    from the call in the lock. *)
Lemma secrets_inv_set s k' st' c p :
  secrets_inv s →
  (∀ d, d ≠ c → in_lock (call_of s d) = true → mutex_owner k' name = Some d) →
  (∀ d, d ≠ c → has_handle (call_of s d) = true → d ∈ mutex_handles k' name) →
  (in_lock p = true → mutex_owner k' name = Some c) →
  (has_handle p = true → c ∈ mutex_handles k' name) →
  Credentials_blobs st' !! target = Credentials_blobs (secrets_store s) !! target ∨
    (Credentials_blobs (secrets_store s) !! target = None ∧ in_lock (call_of s c) = true) →
  phase_ok st' p →
  secrets_inv {| secrets_kernel := k'; secrets_store := st';
                 secrets_calls := <[c := p]> (secrets_calls s) |}.
Proof.
  intros [Hl Hh Hp] Ho Hhk Hlp Hhp Hst Hpp. split; intros d; rewrite call_of_insert; simpl;
    (case_decide as Hd; [subst d; auto|]); unfold call_of in *; simpl.
  - by apply Ho.
  - by apply Hhk.
  - specialize (Hp d). destruct Hst as [Hst|[Hnone Hlock]].
    + unfold phase_ok in *. by rewrite Hst.
    + apply Hl in Hlock. specialize (Hl d). unfold phase_ok in *. rewrite Hnone in Hp.
      destruct (default SecretStart (secrets_calls s !! d)); try (by intros x [? _]%Hp);
        exfalso; specialize (Hl eq_refl); congruence.
Qed.

(** The store's answers: an unreachable store does not pretend to be empty,
    random bytes come as many as asked for. *)
Definition env_ok (env : CredentialEnv) : Prop :=
  CredentialEnv_unreachable env ≠ Some ERROR_NOT_FOUND ∧
  ∀ n x, CredentialEnv_random env n = Some x → length x = INSTALL_SECRET_BYTES.
Definition turn_ok (t : client_turn CredentialEnv) : Prop :=
  match t with Step _ env => env_ok env | Exit _ => True end.

Lemma read_secret_ok env st r :
  env_ok env → read_secret env target st = Ok r →
  match r with
  | None => Credentials_blobs st !! target = None
  | Some x => Credentials_blobs st !! target = Some x ∧ length x = INSTALL_SECRET_BYTES
  end.
Proof.
  intros [Hu _]. unfold read_secret, cred_read.
  destruct (CredentialEnv_unreachable env) as [code|].
  { destruct (Z.eqb_spec code ERROR_NOT_FOUND); [congruence|done]. }
  destruct (Credentials_blobs st !! target) as [x|]; simpl.
  - destruct (Nat.eqb_spec (length x) INSTALL_SECRET_BYTES); [|done]. by intros [= <-].
  - by intros [= <-].
Qed.

Lemma lock_handle p : in_lock p = true → has_handle p = true.
Proof. by destruct p. Qed.

(** A step that leaves the mutex alone. *)
Lemma secrets_inv_store s st' c p :
  secrets_inv s →
  (in_lock p = true → in_lock (call_of s c) = true) →
  (has_handle p = true → has_handle (call_of s c) = true) →
  Credentials_blobs st' !! target = Credentials_blobs (secrets_store s) !! target ∨
    (Credentials_blobs (secrets_store s) !! target = None ∧ in_lock (call_of s c) = true) →
  phase_ok st' p →
  secrets_inv {| secrets_kernel := secrets_kernel s; secrets_store := st';
                 secrets_calls := <[c := p]> (secrets_calls s) |}.
Proof.
  intros Hinv Hl Hh Hst Hp. apply secrets_inv_set; try done.
  - intros d _. apply Hinv.
  - intros d _. apply Hinv.
  - intros Hi. by apply (sec_lock _ Hinv), Hl.
  - intros Hi. by apply (sec_handle _ Hinv), Hh.
Qed.

(** A step that leaves the store alone: the others keep their handles and the
    lock. *)
Lemma secrets_inv_kernel s k' c p :
  secrets_inv s →
  (∀ d, d ≠ c → in_lock (call_of s d) = true →
    mutex_owner (secrets_kernel s) name = Some d → d ∈ mutex_handles (secrets_kernel s) name →
    mutex_owner k' name = Some d) →
  (∀ d, d ≠ c → d ∈ mutex_handles (secrets_kernel s) name → d ∈ mutex_handles k' name) →
  (in_lock p = true → mutex_owner k' name = Some c) →
  (has_handle p = true → c ∈ mutex_handles k' name) →
  (∀ x, returned p = Some x → returned (call_of s c) = Some x) →
  (∀ st, (∀ x, returned p = Some x →
      Credentials_blobs st !! target = Some x ∧ length x = INSTALL_SECRET_BYTES) → phase_ok st p) →
  secrets_inv {| secrets_kernel := k'; secrets_store := secrets_store s;
                 secrets_calls := <[c := p]> (secrets_calls s) |}.
Proof.
  intros Hinv Ho Hh Hl Hhp Hr Hp. apply secrets_inv_set; try done; [..|by left|].
  - intros d Hd Hi. apply Ho; [done|done|by apply Hinv|by apply Hinv, lock_handle].
  - intros d Hd Hi. apply Hh; [done|by apply Hinv].
  - apply Hp. intros x Hx%Hr. pose proof (sec_phase _ Hinv c) as Hc. unfold phase_ok in Hc.
    destruct (call_of s c); try done; by apply Hc.
Qed.

Lemma secret_turn_inv t s : turn_ok t → secrets_inv s → secrets_inv (secret_turn t s).
Proof.
  destruct t as [c env|c]; intros Hok Hinv; simpl.
  2: { apply secrets_inv_kernel; try done.
       - intros d Hd _ Ho _. by apply exit_owner.
       - intros d Hd Hin. rewrite exit_handles. set_solver. }
  pose proof (sec_phase _ Hinv c) as Hp. pose proof (sec_lock _ Hinv c) as Hl.
  destruct (call_of s c) as [| | | |x|r|r|r|] eqn:Hc; simpl in *.
  - destruct (create_mutex c name false (secrets_kernel s)) as [k' [| |code]] eqn:Hcr.
    + apply create_new in Hcr as (He&Hh&_). apply secrets_inv_kernel; try done; set_solver.
    + apply create_exists in Hcr as (_&Hh&Ho).
      apply secrets_inv_kernel; try done; rewrite ?Hh, ?Ho; set_solver.
    + apply create_failed in Hcr as (Hh&Ho).
      apply secrets_inv_kernel; try done; rewrite ?Hh, ?Ho; set_solver.
  - destruct (wait_mutex c name (secrets_kernel s)) as [k' w] eqn:Hw.
    destruct w as [| | |code].
    1,2: apply wait_got in Hw as (Ho&Ho'&Hh); [|by auto];
      (apply secrets_inv_kernel; try done; rewrite ?Hh; try done;
       [intros d Hd _ Hd'; destruct Ho; congruence|]);
      intros _; apply (sec_handle _ Hinv); by rewrite Hc.
    all: apply wait_gave_up in Hw as (Ho&Hh); [|done..];
      apply secrets_inv_kernel; try done;
      [intros d Hd _ Hd' _; apply close_owner; congruence|];
      intros d Hd Hin; rewrite close_handles, Hh; set_solver.
  - destruct (read_secret env target (secrets_store s)) as [r|e] eqn:Hr.
    + apply read_secret_ok in Hr; [|done]. destruct r as [x|];
        apply secrets_inv_store; rewrite ?Hc; auto. by intros y [= <-].
    + apply secrets_inv_store; rewrite ?Hc; auto.
  - unfold draw_random. destruct (CredentialEnv_random env _) as [x|] eqn:Hx;
      apply secrets_inv_store; rewrite ?Hc; auto.
    + split; [done|]. by apply Hok in Hx.
    + done.
  - unfold cred_write. destruct Hp as [Hnone Hlen]. destruct (CredentialEnv_write_fails env);
      apply secrets_inv_store; rewrite ?Hc; auto; [done|].
    intros y [= <-]. simpl. by rewrite lookup_insert_eq.
  - apply secrets_inv_kernel; try done; rewrite ?Hc; try done.
    + intros d Hd _ Ho. rewrite release_owner, Hl in * by done. congruence.
    + by rewrite release_handles.
    + intros _. rewrite release_handles. apply (sec_handle _ Hinv). by rewrite Hc.
  - apply secrets_inv_kernel; try done; rewrite ?Hc; try done.
    + intros d Hd _ Ho _. by apply close_owner.
    + intros d Hd Hin. rewrite close_handles. set_solver.
  - apply secrets_inv_store; rewrite ?Hc; auto.
  - apply secrets_inv_store; rewrite ?Hc; auto.
Qed.

(** A stored secret stays. *)
Lemma secret_turn_keeps t s x :
  secrets_inv s → Credentials_blobs (secrets_store s) !! target = Some x →
  Credentials_blobs (secrets_store (secret_turn t s)) !! target = Some x.
Proof.
  intros Hinv Hx. destruct t as [c env|c]; simpl; [|done].
  pose proof (sec_phase _ Hinv c) as Hp. destruct (call_of s c) as [| | | |y|r|r|r|]; simpl in *; try done.
  - by destruct (create_mutex _ _ _ _) as [k' []].
  - by destruct (wait_mutex _ _ _) as [k' []].
  - by destruct (read_secret _ _ _) as [[]|].
  - unfold draw_random. by destruct (CredentialEnv_random _ _).
  - destruct Hp as [Hn _]. congruence.
Qed.
Lemma secret_run_inv k store turns :
  mutex_handles k name = ∅ → Forall turn_ok turns →
  let s := secret_run {| secrets_kernel := k; secrets_store := store; secrets_calls := ∅ |} turns in
  secrets_inv s ∧
  (∀ x, Credentials_blobs store !! target = Some x →
    Credentials_blobs (secrets_store s) !! target = Some x).
Proof.
  intros Hk Hall. unfold secret_run. induction turns as [|t turns IH] using rev_ind; simpl.
  - split; [|done]. by split; intros c; unfold call_of; simpl; rewrite lookup_empty.
  - rewrite foldl_app. simpl. apply Forall_app in Hall as [Hall [Ht _]%list.Forall_cons].
    destruct (IH Hall) as [Hinv Hkeep]. split; [by apply secret_turn_inv|].
    intros x Hx%Hkeep. by apply secret_turn_keeps.
Qed.

(** C31: the processes of a user agree on the installation secret.  Whatever calls
    of [install_secret] run in whatever processes, interleaved in any way,
    some failing, some of the processes dying at any moment, every call that
    returns a secret returns the one that is stored, of 32 bytes, so any two
    return the same; a stored secret is never replaced; and at most one call
    is in the lock. *)
Theorem install_secret_agreed k store turns :
  mutex_handles k name = ∅ → Forall turn_ok turns →
  let s := secret_run {| secrets_kernel := k; secrets_store := store; secrets_calls := ∅ |} turns in
  (∀ c x, call_of s c = SecretDone (Ok x) →
    Credentials_blobs (secrets_store s) !! target = Some x ∧ length x = INSTALL_SECRET_BYTES) ∧
  (∀ c d x y, call_of s c = SecretDone (Ok x) → call_of s d = SecretDone (Ok y) → x = y) ∧
  (∀ x, Credentials_blobs store !! target = Some x →
    Credentials_blobs (secrets_store s) !! target = Some x) ∧
  (∀ c d, in_lock (call_of s c) = true → in_lock (call_of s d) = true → c = d).
Proof.
  intros Hk Hall s. destruct (secret_run_inv k store turns Hk Hall) as [Hinv Hkeep].
  fold s in Hinv, Hkeep.
  assert (∀ c x, call_of s c = SecretDone (Ok x) →
    Credentials_blobs (secrets_store s) !! target = Some x ∧ length x = INSTALL_SECRET_BYTES) as Hdone.
  { intros c x Hc. pose proof (sec_phase _ Hinv c) as Hp. rewrite Hc in Hp. by apply Hp. }
  split_and!; [done| |done|].
  - intros c d x y [Hx _]%Hdone [Hy _]%Hdone. congruence.
  - intros c d Hc%(sec_lock _ Hinv) Hd%(sec_lock _ Hinv). congruence.
Qed.
End install_secret.

(** ** Mutexes that behave as documented *)
Module MutexExamples.
Record Mutexes := {
  Mutexes_handles : gmap string (gset nat);
  Mutexes_owners : gmap string nat;
}.
Definition handles_of (k : Mutexes) (n : string) : gset nat := default ∅ (Mutexes_handles k !! n).
Definition set_handles (n : string) (h : gset nat) (k : Mutexes) : Mutexes :=
  {| Mutexes_handles := <[n := h]> (Mutexes_handles k); Mutexes_owners := Mutexes_owners k |}.
Definition set_owner (n : string) (o : option nat) (k : Mutexes) : Mutexes :=
  {| Mutexes_handles := Mutexes_handles k;
     Mutexes_owners := partial_alter (λ _, o) n (Mutexes_owners k) |}.
#[export] Instance mutexes : NamedMutexes Mutexes := {
  create_mutex c n owner k :=
    if decide (handles_of k n = ∅)
    then (set_owner n (if owner then Some c else None) (set_handles n {[c]} k), MutexNew)
    else (set_handles n ({[c]} ∪ handles_of k n) k, MutexExists);
  wait_mutex c n k :=
    if decide (Mutexes_owners k !! n = None ∨ Mutexes_owners k !! n = Some c)
    then (set_owner n (Some c) k, WaitObject) else (k, WaitTimeout);
  release_mutex c n k :=
    if decide (Mutexes_owners k !! n = Some c) then set_owner n None k else k;
  close_mutex c n k := set_handles n (handles_of k n ∖ {[c]}) k;
  client_exits c k := {|
    Mutexes_handles := (λ h, h ∖ {[c]}) <$> Mutexes_handles k;
    Mutexes_owners := filter (λ p, p.2 ≠ c) (Mutexes_owners k) |};
  mutex_handles := handles_of;
  mutex_owner k n := Mutexes_owners k !! n;
}.
#[export] Instance mutexes_laws : NamedMutexesLaws Mutexes.
Proof.
  split; simpl; unfold handles_of, set_handles, set_owner; simpl; intros.
  all: try (repeat case_decide; simplify_eq; simpl; rewrite ?lookup_insert_eq, ?lookup_partial_alter_eq;
    naive_solver).
  - rewrite lookup_fmap. destruct (Mutexes_handles k !! n); simpl; set_solver.
  - rewrite map_lookup_filter_Some. naive_solver.
Qed.

Definition no_mutexes : Mutexes := {| Mutexes_handles := ∅; Mutexes_owners := ∅ |}.
Lemma no_handles n : mutex_handles no_mutexes n = ∅.
Proof. simpl. unfold handles_of. simpl. by rewrite lookup_empty. Qed.

(** Two processes start; the first one wins, the second one looks and is
    refused; when the first one dies a third one takes over. *)
Definition mx_turns : list (client_turn unit) :=
  [Step 1 tt; Step 2 tt; Step 2 tt; Exit 1; Step 3 tt].
Lemma single_instance_exclusive_witness :
  let s := instance_run "m" (no_mutexes, ∅) mx_turns in
  instance_of s 3 = InstanceHeld ∧ instance_of s 2 = InstanceRefused ∧
  ∀ c, instance_of s c = InstanceHeld → c = 3.
Proof.
  intros s. split; [vm_compute; reflexivity|]. split; [vm_compute; reflexivity|].
  intros c Hc. destruct (single_instance_exclusive "m" no_mutexes mx_turns (no_handles _))
    as [Hone _]. apply Hone; [exact Hc|vm_compute; reflexivity].
Defined.

(** The randomness of process [i]. *)
Definition mx_env (i : Z) : CredentialEnv := {|
  CredentialEnv_unreachable := None; CredentialEnv_write_fails := false;
  CredentialEnv_random _ := Some (replicate 32 i) |}.
Lemma mx_env_ok i : env_ok (mx_env i).
Proof. split; [done|]. by intros n x [= <-]. Qed.
Definition mx_steps (c : nat) (n : nat) : list (client_turn CredentialEnv) :=
  replicate n (Step c (mx_env (Z.of_nat c))).
(** The first process dies in the lock with bytes it never stored; the second
    and the third race. *)
Definition mx_secret_turns : list (client_turn CredentialEnv) :=
  mx_steps 1 4 ++ mx_steps 3 1 ++ mx_steps 2 1 ++ [Exit 1] ++ mx_steps 2 4 ++ mx_steps 2 2 ++ mx_steps 3 4.
Definition mx_store : Credentials := {| Credentials_blobs := ∅; Credentials_drawn := 0 |}.
Abbreviation mx_secrets :=
  (secret_run "m" "t" {| secrets_kernel := no_mutexes; secrets_store := mx_store;
                         secrets_calls := ∅ |} mx_secret_turns).
Lemma mx_turns_ok : Forall turn_ok mx_secret_turns.
Proof. repeat first [apply Forall_nil_2|apply Forall_cons_2; [first [apply mx_env_ok|exact I]|]]. Qed.
Lemma install_secret_agreed_witness :
  call_of mx_secrets 2 = SecretDone (Ok (replicate 32 2%Z)) ∧
  ∀ x, call_of mx_secrets 3 = SecretDone (Ok x) → x = replicate 32 2%Z.
Proof.
  assert (call_of mx_secrets 2 = SecretDone (Ok (replicate 32 2%Z))) as H2 by (vm_compute; reflexivity).
  split; [exact H2|]. intros x Hx.
  destruct (install_secret_agreed "m" "t" no_mutexes mx_store mx_secret_turns (no_handles _) mx_turns_ok)
    as (_&Hsame&_).
  exact (Hsame 3 2 x (replicate 32 2%Z) Hx H2).
Defined.
Lemma mx_third_returns : call_of mx_secrets 3 = SecretDone (Ok (replicate 32 2%Z)).
Proof. vm_compute. reflexivity. Qed.
End MutexExamples.
