(* ===== verification/PackageSmoke.v ===== *)
(** * The packaging smoke test ([crates/supervisor/src/package_smoke.rs],
    [crates/supervisor/src/bin/package_smoke_client.rs])

    A client that, within a deadline, connects to a supervisor,
    authenticates, pings it once and reports the version it answered.  The
    worker thread does the exchange; the thread that started it waits for it
    until the deadline, cancels what it is blocked in, and reports.

    Time is how many more readings of the clock come before the deadline:
    readings only grow, so a finite number of them do. *)

From S2P Require Import Prelude Text Always Extern Frame Handshake RecoveryPackage ServiceData Service ServiceExamples Ipc ServiceIpc DesktopBridge UpdateGuard ClaudeSession CcSwitch KeyStore Startup.
From Stdlib Require Import ZArith Lia.
From stdpp Require Import prelude strings.

Record PackageSmokeSuccess := {
  PackageSmokeSuccess_protocol_version : u32;
  PackageSmokeSuccess_supervisor_version : string;
}.
Inductive PackageSmokeClientError :=
| SmokeTimeout | SmokeAuthentication | SmokeProtocol | SmokeUnavailable | WorkerDidNotStop.
#[export] Instance PackageSmokeClientError_eq_dec : EqDecision PackageSmokeClientError.
Proof. solve_decision. Defined.

Definition map_read_error (error : FrameError) : PackageSmokeClientError :=
  match error with
  | FrameTooLarge | InvalidUtf8 | InvalidJson => SmokeProtocol
  | FrameIo => SmokeUnavailable
  end.
Definition map_write_error (_ : FrameError) : PackageSmokeClientError := SmokeUnavailable.
Definition map_protocol_error (code : ProtocolErrorCode) : PackageSmokeClientError :=
  match code with
  | AuthFailed | ReplayedNonce => SmokeAuthentication
  | CodeFrameTooLarge | IncompatibleProtocol | InvalidFrame => SmokeProtocol
  end.

(** ** The worker *)
Section worker.
Context `{SerdeJson, HmacSha256, !SerdeText ClientMessage, !SerdeText ServerMessage}.
Context {P : Type} `{!Pipe P}.

(** [unread] holds what arrived and was not read; [turns] counts the readings
    of the clock before the deadline. *)
Record Smoke := { Smoke_pipe : P; Smoke_unread : list u8; Smoke_turns : nat }.
Abbreviation smoke_m := (stm Smoke PackageSmokeClientError).

Definition ensure_before_deadline : smoke_m unit := λ s,
  match Smoke_turns s with
  | O => (s, Err SmokeTimeout)
  | S turns =>
      ({| Smoke_pipe := Smoke_pipe s; Smoke_unread := Smoke_unread s; Smoke_turns := turns |}, Ok tt)
  end.
(** One turn of [connect_pipe] for each reading before the deadline; [absent]
    says whether an open that fails does so because the pipe is missing or
    busy, by the turns left. *)
Fixpoint connect_turns (absent : nat → bool) (turns : nat) (s : Smoke)
    : Smoke * result PackageSmokeClientError unit :=
  match turns with
  | O => ({| Smoke_pipe := Smoke_pipe s; Smoke_unread := Smoke_unread s; Smoke_turns := 0 |},
          Err SmokeTimeout)
  | S turns =>
      let '(pipe, opened) := pipe_open (Smoke_pipe s) in
      let s := {| Smoke_pipe := pipe; Smoke_unread := []; Smoke_turns := turns |} in
      if opened then (s, Ok tt)
      else if absent turns then connect_turns absent turns s
      else (s, Err SmokeUnavailable)
  end.
Definition connect_pipe (absent : nat → bool) : smoke_m unit := λ s,
  connect_turns absent (Smoke_turns s) s.
Definition smoke_write (message : ClientMessage) : smoke_m unit := λ s,
  match write_frame message [] with
  | (_, Err error) => (s, Err (map_write_error error))
  | (bytes, Ok _) =>
      match pipe_write bytes (Smoke_pipe s) with
      | (pipe, None) =>
          ({| Smoke_pipe := pipe; Smoke_unread := Smoke_unread s; Smoke_turns := Smoke_turns s |},
           Err (map_write_error FrameIo))
      | (pipe, Some answer) =>
          ({| Smoke_pipe := pipe; Smoke_unread := Smoke_unread s ++ answer;
              Smoke_turns := Smoke_turns s |}, Ok tt)
      end
  end.
Definition smoke_read : smoke_m ServerMessage := λ s,
  let '(unread, r) := read_frame (Smoke_unread s) in
  ({| Smoke_pipe := Smoke_pipe s; Smoke_unread := unread; Smoke_turns := Smoke_turns s |},
   map_err map_read_error r).
(** A frame written and one read, with the clock read in between. *)
Definition smoke_exchange (message : ClientMessage) : smoke_m ServerMessage :=
  _ ← smoke_write message; _ ← ensure_before_deadline; smoke_read.

Definition authenticated_ping_worker (secret nonce : option (list u8)) (absent : nat → bool)
    : smoke_m PackageSmokeSuccess :=
  secret ← stm_lift (ok_or SmokeAuthentication secret);
  nonce ← stm_lift (ok_or SmokeAuthentication nonce);
  let versions := [PROTOCOL_VERSION] in
  proof ← stm_lift (ok_or SmokeAuthentication
    (handshake_proof secret PRODUCT_INSTALL_ID nonce versions));
  _ ← connect_pipe absent;
  _ ← ensure_before_deadline;
  reply ← smoke_exchange (ClientHandshake {|
    Handshake_install_id := PRODUCT_INSTALL_ID; Handshake_protocol_versions := versions;
    Handshake_nonce := nonce; Handshake_proof := proof |});
  _ ← match reply with
      | ServerHandshakeAccepted accepted =>
          if (HandshakeAccepted_protocol_version accepted =? PROTOCOL_VERSION)%Z
          then mret tt else stm_throw SmokeProtocol
      | ServerError code => stm_throw (map_protocol_error code)
      | _ => stm_throw SmokeProtocol
      end;
  _ ← ensure_before_deadline;
  reply ← smoke_exchange ClientPing;
  match reply with
  | ServerPong pong =>
      if (Pong_protocol_version pong =? PROTOCOL_VERSION)%Z
      then mret {| PackageSmokeSuccess_protocol_version := Pong_protocol_version pong;
                   PackageSmokeSuccess_supervisor_version := Pong_supervisor_version pong |}
      else stm_throw SmokeProtocol
  | ServerError code => stm_throw (map_protocol_error code)
  | _ => stm_throw SmokeProtocol
  end.
End worker.

(** ** The waiting thread

    How the worker is seen to end once nobody waits for its result, and what
    the waiting thread sees of it.  A worker whose channel closed, or that has
    sent its last message, has returned or panicked: joining it does not
    block. *)
Inductive WorkerStop := WorkerStopped | WorkerPanicked | WorkerStillRunning.
Inductive WorkerDone :=
| DoneInTime (r : result PackageSmokeClientError PackageSmokeSuccess) (panicked : bool)
| DoneGone (panicked : bool)
| DoneLate (stop : WorkerStop).
Inductive WorkerSeen :=
| SpawnFails | NoTarget (panicked : bool) | ReadyGone (panicked : bool)
| ReadyLate (stop : WorkerStop) | TargetReady (outcome : WorkerDone).

Definition join_worker (panicked : bool) (error : PackageSmokeClientError)
    : result PackageSmokeClientError PackageSmokeSuccess :=
  if panicked then Err WorkerDidNotStop else Err error.
Definition join_worker_result (panicked : bool)
    (r : result PackageSmokeClientError PackageSmokeSuccess)
    : result PackageSmokeClientError PackageSmokeSuccess :=
  if panicked then Err WorkerDidNotStop else r.
Definition join_worker_bounded (stop : WorkerStop) (error : PackageSmokeClientError)
    : result PackageSmokeClientError PackageSmokeSuccess :=
  match stop with
  | WorkerStopped => join_worker false error
  | WorkerPanicked => join_worker true error
  | WorkerStillRunning => Err WorkerDidNotStop
  end.
(** [timeout] in milliseconds; [fits] is whether the deadline can be
    represented. *)
Definition authenticated_ping (pipe_name : string) (timeout : Z) (fits : bool) (seen : WorkerSeen)
    : result PackageSmokeClientError PackageSmokeSuccess :=
  if str_eqb pipe_name "" || str_contains pipe_name nul || (timeout =? 0)%Z
  then Err SmokeUnavailable
  else if negb fits then Err SmokeUnavailable
  else match seen with
  | SpawnFails => Err SmokeUnavailable
  | NoTarget panicked => join_worker panicked SmokeUnavailable
  | ReadyGone panicked => join_worker panicked WorkerDidNotStop
  | ReadyLate stop => join_worker_bounded stop SmokeTimeout
  | TargetReady (DoneInTime r panicked) => join_worker_result panicked r
  | TargetReady (DoneGone panicked) => join_worker panicked WorkerDidNotStop
  | TargetReady (DoneLate stop) => join_worker_bounded stop SmokeTimeout
  end.

(** ** The program *)
Definition smoke_error_code (error : PackageSmokeClientError) : string :=
  match error with
  | SmokeTimeout => "PACKAGE_SMOKE_TIMEOUT"
  | SmokeAuthentication => "PACKAGE_SMOKE_AUTHENTICATION_FAILED"
  | SmokeProtocol => "PACKAGE_SMOKE_PROTOCOL_FAILED"
  | SmokeUnavailable => "PACKAGE_SMOKE_UNAVAILABLE"
  | WorkerDidNotStop => "PACKAGE_SMOKE_WORKER_DID_NOT_STOP"
  end.
Fixpoint smoke_switches (args : list OsString) (pipe_name : option string) (timeout : option Z)
    : result string (option string * option Z) :=
  match args with
  | [] => Ok (pipe_name, timeout)
  | argument :: rest =>
      let value := head rest ≫= to_str in
      let pipe_name' := value ≫= λ v,
        if negb (str_eqb v "") && negb (str_contains v nul) then Some v else None in
      let timeout' := n ← (value ≫= parse_uint u64_max); if (n =? 0)%Z then None else Some n in
      match rest with
      | _ :: rest =>
          if bool_decide (to_str argument = Some "--pipe-name")
          then smoke_switches rest pipe_name' timeout
          else if bool_decide (to_str argument = Some "--timeout-milliseconds")
          then smoke_switches rest pipe_name timeout'
          else Err "PACKAGE_ARGUMENT_INVALID"
      | [] =>
          if bool_decide (to_str argument = Some "--pipe-name") then Ok (None, timeout)
          else if bool_decide (to_str argument = Some "--timeout-milliseconds") then Ok (pipe_name, None)
          else Err "PACKAGE_ARGUMENT_INVALID"
      end
  end.
Definition smoke_parse_args (args : list OsString) : result string (string * Z) :=
  '(pipe_name, timeout) ← smoke_switches args None None;
  pipe_name ← ok_or "PACKAGE_ARGUMENT_INVALID" pipe_name;
  timeout ← ok_or "PACKAGE_ARGUMENT_INVALID" timeout;
  Ok (pipe_name, timeout).
Section smoke_main.
Context `{SerdeJson}.
(** What [main] prints and the exit code; [fits] and [seen] for the pipe and
    timeout it was given. *)
Definition smoke_main (args : list OsString) (fits : Z → bool) (seen : string → Z → WorkerSeen)
    : Value * Z :=
  match
    '(pipe_name, timeout) ← smoke_parse_args args;
    map_err smoke_error_code (authenticated_ping pipe_name timeout (fits timeout) (seen pipe_name timeout))
  with
  | Ok success => (json_object [("ok", Value_Bool true);
      ("protocolVersion", Value_U64 (PackageSmokeSuccess_protocol_version success));
      ("supervisorVersion", Value_String (PackageSmokeSuccess_supervisor_version success))], 0%Z)
  | Err code => (json_object [("ok", Value_Bool false); ("errorCode", Value_String code)], 1%Z)
  end.
End smoke_main.

(** ** What a success means *)

(** The smoke test reports success exactly when its worker did, in time. *)
Lemma smoke_success_is_the_workers pipe_name timeout fits seen success :
  authenticated_ping pipe_name timeout fits seen = Ok success ↔
  pipe_name ≠ "" ∧ str_contains pipe_name nul = false ∧ timeout ≠ 0%Z ∧ fits = true ∧
  seen = TargetReady (DoneInTime (Ok success) false).
Proof.
  unfold authenticated_ping, str_eqb. destruct (String.eqb_spec pipe_name "") as [->|Hn]; [naive_solver|].
  destruct (str_contains pipe_name nul); [naive_solver|]. destruct (Z.eqb_spec timeout 0); [naive_solver|].
  destruct fits; [|naive_solver]. simpl.
  destruct seen as [|[]|[]|[]|[[r|r] []|[]|[]]]; simpl; naive_solver.
Qed.

Section agrees.
Context `{SerdeJson, HmacSha256, !SerdeText ClientMessage, !SerdeText ServerMessage}.
Context {P : Type} `{!Pipe P}.
Context (env : TransportEnv) (secret nonce : option (list u8)).
Context (same_secret : ∀ n, TransportEnv_secret env n = secret).
Context (same_nonce : ∀ n, TransportEnv_nonce env n = nonce).
Context (in_time : ∀ n timeout, TransportEnv_deadline env n timeout = InTime).

(** One exchange, seen by either client. *)
Inductive answered (message : ClientMessage) (unread : list u8) (pipe : P)
    : P → list u8 → ServerMessage → Prop :=
| answer bytes pipe' reply_bytes unread' reply :
    write_frame message [] = (bytes, Ok tt) → pipe_write bytes pipe = (pipe', Some reply_bytes) →
    read_frame (unread ++ reply_bytes) = (unread', Ok reply) →
    answered message unread pipe pipe' unread' reply.
Lemma exchange_answered message unread (t : LocalSupervisorTransport (P := P)) t' unread' reply :
  exchange message unread t = (t', Ok (unread', reply)) ↔
  answered message unread (Transport_pipe t) (Transport_pipe t') unread' reply ∧
  t' = note (Received reply) (note (Wrote message) (set_pipe (Transport_pipe t') t)).
Proof.
  unfold exchange. split.
  - destruct (write_frame message []) as [bytes [[]|e]] eqn:Hw; [|done].
    destruct (pipe_write bytes (Transport_pipe t)) as [pipe' [reply_bytes|]] eqn:Hp; [|done].
    destruct (read_frame (unread ++ reply_bytes)) as [rest [r|e]] eqn:Hr; [|done].
    intros [= <- <- <-]. split; [by econstructor|done].
  - intros [Ha ->]. destruct Ha as [bytes pipe' reply_bytes unread' reply Hw Hp Hr].
    simpl. rewrite Hw, Hp, Hr. done.
Qed.
Lemma exchange_complete message unread (t : LocalSupervisorTransport (P := P)) pipe' unread' reply :
  answered message unread (Transport_pipe t) pipe' unread' reply →
  exchange message unread t =
    (note (Received reply) (note (Wrote message) (set_pipe pipe' t)), Ok (unread', reply)).
Proof. intros Ha. by apply exchange_answered. Qed.

(** The conversation both clients mean to have: connect, authenticate with a
    proof of the secret, and be answered a ping, in the protocol version of
    this build; it leaves the other end in [pipe']. *)
Definition authenticated_version (pipe pipe' : P) (version : string) : Prop :=
  ∃ key salt proof opened welcomed unread accepted unread' pong,
    secret = Some key ∧ nonce = Some salt ∧
    handshake_proof key PRODUCT_INSTALL_ID salt [PROTOCOL_VERSION] = Some proof ∧
    pipe_open pipe = (opened, true) ∧
    answered (ClientHandshake {|
      Handshake_install_id := PRODUCT_INSTALL_ID; Handshake_protocol_versions := [PROTOCOL_VERSION];
      Handshake_nonce := salt; Handshake_proof := proof |}) [] opened
      welcomed unread (ServerHandshakeAccepted accepted) ∧
    HandshakeAccepted_protocol_version accepted = PROTOCOL_VERSION ∧
    answered ClientPing unread welcomed pipe' unread' (ServerPong pong) ∧
    Pong_protocol_version pong = PROTOCOL_VERSION ∧ Pong_supervisor_version pong = version.

Lemma desktop_ping_sound pipe data_dir t version :
  ping env (transport_new pipe data_dir) = (t, Ok version) →
  authenticated_version pipe (Transport_pipe t) version.
Proof.
  unfold ping, establish, connect_and_authenticate, ping_session.
  unfold mbind, stm_bind, stm_get, stm_modify, stm_lift, stm_throw, asks. cbn [transport_new Transport_session].
  destruct (pipe_open _) as [opened []] eqn:Ho; cbn; [|done]. rewrite same_secret.
  destruct secret as [key|] eqn:Hs; cbn; [|done]. rewrite same_nonce.
  destruct nonce as [salt|] eqn:Hn; cbn; [|done].
  destruct (handshake_proof _ _ _ _) as [proof|] eqn:Hp; cbn; [|done].
  rewrite in_time. cbn.
  destruct (exchange _ [] _) as [t1 [[unread reply]|e]] eqn:Hx; [|done]. cbn.
  apply exchange_answered in Hx as [Ha Ht1]. cbn in Ha.
  destruct reply as [accepted| | |]; [|done..]. cbn.
  destruct (Z.eqb_spec (HandshakeAccepted_protocol_version accepted) PROTOCOL_VERSION) as [Hv|]; cbn; [|done].
  rewrite in_time. cbn.
  destruct (exchange ClientPing unread _) as [t2 [[unread' reply]|e]] eqn:Hy; [|done]. cbn.
  apply exchange_answered in Hy as [Hb _]. cbn in Hb.
  destruct reply as [|pong| |]; [done| |done..]. cbn.
  destruct (Z.eqb_spec (Pong_protocol_version pong) PROTOCOL_VERSION) as [Hv'|]; cbn; [|done].
  intros [= <- <-]. cbn.
  by exists key, salt, proof, opened, (Transport_pipe t1), unread, accepted, unread', pong.
Qed.
Lemma desktop_ping_complete pipe pipe' data_dir version :
  authenticated_version pipe pipe' version →
  ∃ t, ping env (transport_new pipe data_dir) = (t, Ok version) ∧ Transport_pipe t = pipe'.
Proof.
  intros (key&salt&proof&opened&welcomed&unread&accepted&unread'&pong&Hs&Hn&Hp&Ho&Ha&Hv&Hb&Hv'&<-).
  unfold ping, establish, connect_and_authenticate, ping_session.
  unfold mbind, stm_bind, stm_get, stm_modify, stm_lift, stm_throw, asks. cbn [transport_new Transport_session].
  cbn. rewrite Ho. cbn. rewrite same_secret, Hs. cbn. rewrite same_nonce, Hn. cbn. rewrite Hp. cbn.
  rewrite in_time. cbn.
  erewrite exchange_complete by exact Ha. cbn. rewrite Hv. cbn. rewrite in_time. cbn.
  erewrite exchange_complete by exact Hb. cbn. rewrite Hv'. cbn.
  by eexists.
Qed.

(** Attempts to connect that are refused before one is not. *)
Inductive refused : nat → P → P → Prop :=
| refused_0 pipe : refused 0 pipe pipe
| refused_S k pipe pipe' pipe'' :
    pipe_open pipe = (pipe', false) → refused k pipe' pipe'' → refused (S k) pipe pipe''.
Lemma connect_sound absent turns : ∀ s s',
  connect_turns absent turns s = (s', Ok tt) →
  ∃ k pipe, refused k (Smoke_pipe s) pipe ∧ pipe_open pipe = (Smoke_pipe s', true) ∧ Smoke_unread s' = [].
Proof.
  induction turns as [|turns IH]; intros s s'; cbn [connect_turns]; [done|].
  destruct (pipe_open (Smoke_pipe s)) as [pipe []] eqn:Ho.
  { intros [= <-]. exists 0, (Smoke_pipe s). split_and!; [constructor|done..]. }
  destruct (absent turns); [|done]. intros (k&pipe'&Hr&Ho'&Hu)%IH.
  exists (S k), pipe'. split_and!; [by econstructor|done..].
Qed.
Lemma connect_complete absent k pipe pipe' : (∀ n, absent n = true) → refused k pipe pipe' →
  ∀ turns s opened, Smoke_pipe s = pipe → pipe_open pipe' = (opened, true) → k < turns →
  connect_turns absent turns s =
    ({| Smoke_pipe := opened; Smoke_unread := []; Smoke_turns := turns - S k |}, Ok tt).
Proof.
  intros Ha Hr. induction Hr as [pipe|k pipe p1 p2 Hf Hr IH]; intros [|turns] s opened Hs Ho Hlt; try lia;
    cbn [connect_turns]; rewrite Hs.
  - rewrite Ho. do 2 f_equal. simpl. lia.
  - rewrite Hf, Ha. apply IH; [done|done|lia].
Qed.
Lemma smoke_exchange_answered message s s' reply :
  smoke_exchange message s = (s', Ok reply) ↔
  answered message (Smoke_unread s) (Smoke_pipe s) (Smoke_pipe s') (Smoke_unread s') reply ∧
  Smoke_turns s = S (Smoke_turns s').
Proof.
  unfold smoke_exchange, smoke_write, smoke_read, ensure_before_deadline, mbind, stm_bind. split.
  - destruct (write_frame message []) as [bytes [[]|e]] eqn:Hw; [|done].
    destruct (pipe_write bytes (Smoke_pipe s)) as [pipe' [reply_bytes|]] eqn:Hp; [|done]. cbn.
    destruct (Smoke_turns s) as [|turns]; [done|]. cbn.
    destruct (read_frame (Smoke_unread s ++ reply_bytes)) as [rest [r|e]] eqn:Hr; [|done].
    intros [= <- <-]. split; [by econstructor|done].
  - destruct s' as [pipe unread turns]. cbn. intros [[bytes pipe' reply_bytes unread' reply' Hw Hp Hr] Ht].
    rewrite Hw, Hp. cbn. rewrite Ht. cbn. by rewrite Hr.
Qed.
Lemma ensure_spec (s s' : Smoke (P := P)) :
  ensure_before_deadline s = (s', Ok tt) ↔
  Smoke_pipe s' = Smoke_pipe s ∧ Smoke_unread s' = Smoke_unread s ∧ Smoke_turns s = S (Smoke_turns s').
Proof.
  unfold ensure_before_deadline. destruct s as [pipe unread [|turns]], s' as [pipe' unread' turns'];
    simpl; naive_solver.
Qed.
Lemma refused_unique k pipe pipe' k' pipe'' : refused k pipe pipe' → refused k' pipe pipe'' →
  (pipe_open pipe').2 = true → (pipe_open pipe'').2 = true → pipe' = pipe''.
Proof.
  intros Hr. revert k'. induction Hr as [pipe|k pipe p1 p2 Hf Hr IH]; intros k' Hr' Ho Ho';
    inversion Hr' as [|? ? ? ? Hf' Hr'' E1 E2]; subst; try done.
  - by rewrite Hf' in Ho.
  - by rewrite Hf in Ho'.
  - rewrite Hf in Hf'. simplify_eq. by eapply IH.
Qed.

Lemma worker_sound absent s s' success :
  authenticated_ping_worker secret nonce absent s = (s', Ok success) →
  PackageSmokeSuccess_protocol_version success = PROTOCOL_VERSION ∧
  ∃ k pipe, refused k (Smoke_pipe s) pipe ∧
    authenticated_version pipe (Smoke_pipe s') (PackageSmokeSuccess_supervisor_version success).
Proof.
  unfold authenticated_ping_worker, connect_pipe, mbind, stm_bind, stm_lift, stm_throw.
  destruct secret as [key|] eqn:Hs; cbn; [|done]. destruct nonce as [salt|] eqn:Hn; cbn; [|done].
  destruct (handshake_proof _ _ _ _) as [proof|] eqn:Hp; cbn; [|done].
  destruct (connect_turns _ _ _) as [s1 [[]|e]] eqn:Hc; cbn; [|done].
  apply connect_sound in Hc as (k&pipe&Hr&Ho&Hu).
  destruct (ensure_before_deadline s1) as [s2 [[]|e]] eqn:E1; [|done].
  apply ensure_spec in E1 as (P2&U2&_). rewrite Hu in U2.
  destruct (smoke_exchange _ s2) as [s3 [reply|e]] eqn:Hx; [|done].
  apply smoke_exchange_answered in Hx as [Ha _]. rewrite P2, U2 in Ha.
  destruct reply as [accepted| | |]; [|done..]. cbn.
  destruct (Z.eqb_spec (HandshakeAccepted_protocol_version accepted) PROTOCOL_VERSION) as [Hv|]; cbn; [|done].
  destruct (ensure_before_deadline s3) as [s4 [[]|e]] eqn:E2; [|done].
  apply ensure_spec in E2 as (P4&U4&_).
  destruct (smoke_exchange ClientPing s4) as [s5 [reply|e]] eqn:Hy; [|done].
  apply smoke_exchange_answered in Hy as [Hb _]. rewrite P4, U4 in Hb.
  destruct reply as [|pong| |]; [done| |done..]. cbn.
  destruct (Z.eqb_spec (Pong_protocol_version pong) PROTOCOL_VERSION) as [Hv'|]; cbn; [|done].
  intros [= <- <-]. cbn. split; [done|]. exists k, pipe. split; [done|].
  by exists key, salt, proof, (Smoke_pipe s1), (Smoke_pipe s3), (Smoke_unread s3), accepted,
    (Smoke_unread s5), pong.
Qed.
Lemma worker_complete absent k pipe pipe0 pipe' turns version :
  (∀ n, absent n = true) → refused k pipe pipe0 → k + 5 ≤ turns →
  authenticated_version pipe0 pipe' version →
  ∃ s, authenticated_ping_worker secret nonce absent
      {| Smoke_pipe := pipe; Smoke_unread := []; Smoke_turns := turns |} =
    (s, Ok {| PackageSmokeSuccess_protocol_version := PROTOCOL_VERSION;
              PackageSmokeSuccess_supervisor_version := version |}) ∧ Smoke_pipe s = pipe'.
Proof.
  intros Habs Hr Hk
    (key&salt&proof&opened&welcomed&unread&accepted&unread'&pong&Hs&Hn&Hp&Ho&Ha&Hv&Hb&Hv'&<-).
  unfold authenticated_ping_worker, connect_pipe, mbind, stm_bind, stm_lift, stm_throw.
  rewrite Hs, Hn. cbn. rewrite Hp. cbn.
  erewrite (connect_complete absent k pipe pipe0 Habs Hr turns _ opened) by (done || lia).
  destruct (turns - S k) as [|[|[|[|rest]]]] eqn:Ht; [lia..|]. cbn.
  rewrite (proj2 (smoke_exchange_answered _ _ {| Smoke_pipe := welcomed; Smoke_unread := unread;
    Smoke_turns := S (S rest) |} (ServerHandshakeAccepted accepted))); [|split; [exact Ha|done]]. cbn. rewrite Hv. cbn.
  rewrite (proj2 (smoke_exchange_answered _ _ {| Smoke_pipe := pipe'; Smoke_unread := unread';
    Smoke_turns := rest |} (ServerPong pong))); [|split; [exact Hb|done]]. cbn. rewrite Hv'. cbn. by eexists.
Qed.
(** The smoke test tests what the desktop does.  With the same secret and
    nonce, a pipe that appears after [k] attempts, and time for those and for
    the two exchanges, the smoke test succeeds on a supervisor with a version
    exactly when the desktop's own ping does, and the two leave the supervisor
    in the same state: they said the same to it. *)
Theorem smoke_tests_the_desktop absent k pipe pipe0 data_dir turns version :
  (∀ n, absent n = true) → refused k pipe pipe0 → (pipe_open pipe0).2 = true → k + 5 ≤ turns →
  let smoke := authenticated_ping_worker secret nonce absent
    {| Smoke_pipe := pipe; Smoke_unread := []; Smoke_turns := turns |} in
  let desktop := ping env (transport_new pipe0 data_dir) in
  let success := {| PackageSmokeSuccess_protocol_version := PROTOCOL_VERSION;
                    PackageSmokeSuccess_supervisor_version := version |} in
  (smoke.2 = Ok success ↔ desktop.2 = Ok version) ∧
  (desktop.2 = Ok version → Smoke_pipe smoke.1 = Transport_pipe desktop.1).
Proof.
  intros Habs Hr Ho Hk smoke desktop success.
  assert (desktop.2 = Ok version → smoke.2 = Ok success ∧ Smoke_pipe smoke.1 = Transport_pipe desktop.1) as Hds.
  { destruct desktop as [t r] eqn:Hd. simpl. intros ->. apply desktop_ping_sound in Hd.
    destruct (worker_complete absent k pipe pipe0 _ turns version Habs Hr Hk Hd) as (s&Hw&Hp).
    unfold smoke. by rewrite Hw. }
  split; [split|]; [|apply Hds..].
  destruct smoke as [s r] eqn:Hw. simpl. intros ->. apply worker_sound in Hw as (_&k'&pipe1&Hr'&Hv).
  simpl in Hr', Hv. assert (pipe1 = pipe0) as ->.
  { eapply refused_unique; [exact Hr'|exact Hr| |done]. destruct Hv as (?&?&?&?&?&?&?&?&?&_&_&_&->&_). done. }
  destruct (desktop_ping_complete pipe0 (Smoke_pipe s) data_dir version Hv) as (t&Hd&_).
  unfold desktop. by rewrite Hd.
Qed.
End agrees.

Module SmokeExamples.
Import Json CodedJson IpcExamples DesktopExamples.
#[local] Existing Instances server_text' counter.
#[local] Instance smoke_pipe : Pipe (ServedPipe (W := list string)) := served_pipe "1" (λ _, ipc_env 0) always_through.
Definition smoke_server : ServedPipe (W := list string) :=
  served_new (HandshakeVerifier_new PRODUCT_INSTALL_ID) [].
(** The smoke test and the desktop against the supervisor's own server. *)
Lemma smoke_tests_the_desktop_witness :
  (authenticated_ping_worker (Some [9%Z]) (Some ipc_nonce) (λ _, true)
     {| Smoke_pipe := smoke_server; Smoke_unread := []; Smoke_turns := 5 |}).2 =
    Ok {| PackageSmokeSuccess_protocol_version := 1%Z; PackageSmokeSuccess_supervisor_version := "1" |} ∧
  (ping desk_env (transport_new smoke_server None)).2 = Ok "1".
Proof.
  destruct (smoke_tests_the_desktop desk_env (Some [9%Z]) (Some ipc_nonce) (λ _, eq_refl) (λ _, eq_refl)
    (λ _ _, eq_refl) (λ _, true) 0 smoke_server smoke_server None 5 "1" (λ _, eq_refl)) as [Heq _];
    [constructor|reflexivity|lia|].
  assert ((ping desk_env (transport_new smoke_server None)).2 = Ok "1") as Hd by (vm_compute; reflexivity).
  split; [exact (proj2 Heq Hd)|exact Hd].
Defined.
End SmokeExamples.
