(* ===== verification/Adapters.v ===== *)
(** * The adapter interface and its implementations
    ([crates/adapter-core/src/adapter.rs], [crates/adapter-core/src/fake.rs])

    The trait [AgentAdapter] lets the supervisor pause, terminate and answer
    a run by its identifier.  The Codex and Claude adapters send a control to
    the run's task; the fake adapter, used by the tests of the other crates,
    shares a control cell between its table and the handle it returns, which
    is modelled as a store of cells with both holding the same index. *)

From S2P Require Import Prelude Extern Ids Event AdapterCore Redaction Ledger RecoveryPackage ServiceData Service.
From S2P Require Import Text Frame ServiceExamples Normalize AppServer CodexSession.
From Stdlib Require Import ZArith Lia.
From stdpp Require Import prelude gmap strings.

(** ** The interface *)
Section interface.
Context `{SerdeJson}.

Inductive run_control := RunPause | RunTerminate | RunRespond (request_id : Value) (decision : string).

(** The methods of the trait that act on a run, by what they are asked to do,
    and what can be seen of a run. *)
Class AgentAdapter (S V : Type) := {
  adapter_control : string → run_control → stm S AdapterError unit;
  adapter_run : S → string → option V;
  adapter_wf : S → Prop;
}.
(** What the supervisor relies on: a control is for one run, a run that is not
    known is refused, and controls do not start or forget runs. *)
Class AgentAdapterLaws (S V : Type) `{!AgentAdapter S V} := {
  control_wf run_id c s : adapter_wf s → adapter_wf (adapter_control run_id c s).1;
  control_local run_id run_id' c s : adapter_wf s → run_id ≠ run_id' →
    adapter_run (adapter_control run_id c s).1 run_id' = adapter_run s run_id';
  control_unknown run_id c s : adapter_wf s → adapter_run s run_id = None →
    ∃ e, adapter_control run_id c s = (s, Err e);
  control_keeps run_id c s : adapter_wf s → is_Some (adapter_run s run_id) →
    is_Some (adapter_run (adapter_control run_id c s).1 run_id);
}.

Section client.
Context {S V : Type} `{!AgentAdapter S V, !AgentAdapterLaws S V}.

Definition controls (cs : list (string * run_control)) (s : S) : S :=
  foldl (λ s '(run_id, c), (adapter_control run_id c s).1) s cs.

Lemma controls_wf cs : ∀ s, adapter_wf s → adapter_wf (controls cs s).
Proof. induction cs as [|[r c] cs IH]; intros s Hs; [done|]. apply IH. by apply control_wf. Qed.
(** Controls for other runs, in any number and order, do not touch a run, and
    no control starts one. *)
Lemma controls_isolated run_id cs : ∀ s,
  adapter_wf s → Forall (λ rc, rc.1 ≠ run_id) cs →
  adapter_run (controls cs s) run_id = adapter_run s run_id.
Proof.
  induction cs as [|[r c] cs IH]; intros s Hs Hcs; [done|].
  apply list.Forall_cons in Hcs as [Hr Hcs].
  change (controls ((r, c) :: cs) s) with (controls cs (adapter_control r c s).1).
  rewrite IH; [|by apply control_wf|done]. by apply control_local.
Qed.
Lemma controls_start_nothing run_id cs : ∀ s,
  adapter_wf s → adapter_run s run_id = None → adapter_run (controls cs s) run_id = None.
Proof.
  induction cs as [|[r c] cs IH]; intros s Hs Hn; [done|].
  change (controls ((r, c) :: cs) s) with (controls cs (adapter_control r c s).1).
  apply IH; [by apply control_wf|].
  destruct (decide (r = run_id)) as [->|]; [|by rewrite control_local].
  by destruct (control_unknown run_id c s Hs Hn) as [e ->].
Qed.
End client.
End interface.

(** ** Codex and Claude: controls are messages *)
Section message_adapters.
Context `{SerdeJson}.

Record CodexRuns := { CodexRuns_table : gmap string Channel }.
Record ClaudeRuns := { ClaudeRuns_table : gmap string Channel }.
Definition ClaudeAdapter_request_safe_pause (run_id : string) :=
  run_send run_id (ControlSafePause "adapter request").
Definition ClaudeAdapter_terminate_owned_tree (run_id : string) := run_send run_id ControlTerminate.
(** A method the adapter does not implement. *)
Definition adapter_unsupported {S} : stm S AdapterError unit := stm_throw Unsupported.

#[export] Instance codex_adapter : AgentAdapter CodexRuns Channel := {|
  adapter_control run_id c := stm_zoom CodexRuns_table (λ t _, {| CodexRuns_table := t |}) id
    match c with
    | RunPause => CodexAdapter_request_safe_pause run_id
    | RunTerminate => CodexAdapter_terminate_owned_tree run_id
    | RunRespond id decision => CodexAdapter_respond_to_server_request run_id id decision
    end;
  adapter_run s run_id := CodexRuns_table s !! run_id;
  adapter_wf _ := True |}.
#[export] Instance claude_adapter : AgentAdapter ClaudeRuns Channel := {|
  adapter_control run_id c := stm_zoom ClaudeRuns_table (λ t _, {| ClaudeRuns_table := t |}) id
    match c with
    | RunPause => ClaudeAdapter_request_safe_pause run_id
    | RunTerminate => ClaudeAdapter_terminate_owned_tree run_id
    | RunRespond _ _ => adapter_unsupported
    end;
  adapter_run s run_id := ClaudeRuns_table s !! run_id;
  adapter_wf _ := True |}.

Lemma run_send_spec run_id control (runs : gmap string Channel) :
  let '(runs', r) := run_send run_id control runs in
  (∀ run_id', run_id ≠ run_id' → runs' !! run_id' = runs !! run_id') ∧
  (runs !! run_id = None → runs' = runs ∧ r = Err (Unavailable "unknown run")) ∧
  (is_Some (runs !! run_id) → is_Some (runs' !! run_id)).
Proof.
  unfold run_send. destruct (runs !! run_id) as [[[] sent]|] eqn:Hr; simpl; split_and!; try done.
  - intros. by rewrite lookup_insert_ne.
  - intros _. rewrite lookup_insert_eq. by eexists.
Qed.
Lemma codex_control_spec run_id c (s : CodexRuns) :
  ∃ control, adapter_control run_id c s =
    let '(runs, r) := run_send run_id control (CodexRuns_table s) in ({| CodexRuns_table := runs |}, r).
Proof.
  destruct c; [exists (ControlSafePause "adapter request")|exists ControlTerminate|
    exists (RespondToServerRequest request_id decision)]; simpl; unfold stm_zoom;
    [unfold CodexAdapter_request_safe_pause|unfold CodexAdapter_terminate_owned_tree|
     unfold CodexAdapter_respond_to_server_request];
    by destruct (run_send _ _ _) as [? [[]|]].
Qed.
Lemma claude_control_spec run_id c (s : ClaudeRuns) :
  adapter_control run_id c s = (s, Err Unsupported) ∨
  ∃ control, adapter_control run_id c s =
    let '(runs, r) := run_send run_id control (ClaudeRuns_table s) in ({| ClaudeRuns_table := runs |}, r).
Proof.
  destruct c; [right; exists (ControlSafePause "adapter request")|right; exists ControlTerminate|];
    simpl; unfold stm_zoom; [unfold ClaudeAdapter_request_safe_pause|
    unfold ClaudeAdapter_terminate_owned_tree|by left; destruct s];
    by destruct (run_send _ _ _) as [? [[]|]].
Qed.
#[export] Instance codex_adapter_laws : AgentAdapterLaws CodexRuns Channel.
Proof.
  split; [done|..]; intros run_id; [intros run_id'|..]; intros c s _ Hr;
    destruct (codex_control_spec run_id c s) as [control ->];
    pose proof (run_send_spec run_id control (CodexRuns_table s)) as Hs;
    destruct (run_send _ _ _) as [runs r]; destruct Hs as (Hl&Hn&Hk); simpl in *; [by apply Hl| |by apply Hk].
  destruct (Hn Hr) as [-> ->]. destruct s. by eexists.
Qed.
#[export] Instance claude_adapter_laws : AgentAdapterLaws ClaudeRuns Channel.
Proof.
  split; [done|..]; intros run_id; [intros run_id'|..]; intros c s _ Hr;
    (destruct (claude_control_spec run_id c s) as [->|[control ->]]; [naive_solver|]);
    pose proof (run_send_spec run_id control (ClaudeRuns_table s)) as Hs;
    destruct (run_send _ _ _) as [runs r]; destruct Hs as (Hl&Hn&Hk); simpl in *; [by apply Hl| |by apply Hk].
  destruct (Hn Hr) as [-> ->]. destruct s. by eexists.
Qed.
End message_adapters.


(** ** The fake adapter: a cell shared with the handle *)
Section fake.
Context `{SerdeJson}.

Record ControlState := { ControlState_paused : bool; ControlState_terminated : bool }.
Definition ControlState_default : ControlState :=
  {| ControlState_paused := false; ControlState_terminated := false |}.
Record FakeAdapter := {
  FakeAdapter_events : list AgentEvent;
  FakeAdapter_controls : gmap string nat;
  FakeAdapter_cells : list ControlState;
}.
Record FakeHandle := { FakeHandle_run_id : string; FakeHandle_control : nat }.

Definition FakeAdapter_new (events : list AgentEvent) : FakeAdapter :=
  {| FakeAdapter_events := events; FakeAdapter_controls := ∅; FakeAdapter_cells := [] |}.
Definition fake_event (event_id : EventId) (kind : EventKind) (payload : Value) (pause : bool)
    (raw_evidence : option Value) : AgentEvent := {|
  AgentEvent_event_id := event_id; AgentEvent_agent_run_id := None;
  AgentEvent_event_kind := kind; AgentEvent_payload := payload;
  AgentEvent_requires_safe_pause := pause; AgentEvent_raw_evidence := raw_evidence |}.
Definition FakeAdapter_default (fresh : nat → EventId) : FakeAdapter := FakeAdapter_new [
  fake_event (fresh 0) AgentRunStarted (json_object [("phase", Value_String "started")]) false None;
  fake_event (fresh 1) AgentMessage (json_object [("phase", Value_String "analysis")]) false None;
  fake_event (fresh 2) (UnknownKind "tool.request") (json_object [("tool", Value_String "read_file")])
    true (Some (json_object [("type", Value_String "tool.request")]));
  fake_event (fresh 3) EvidenceRecorded (json_object [("evidence_id", Value_String "fake-tool-result");
    ("kind", Value_String "test"); ("status", Value_String "verified");
    ("source", Value_String "agent")]) false None;
  fake_event (fresh 4) AgentMessage
    (json_object [("usage", json_object [("input", Value_U64 10); ("output", Value_U64 5)])]) false None].
Definition fake_probe : AgentCapabilityReport := {|
  AgentCapabilityReport_provider := Codex; AgentCapabilityReport_agent := "fake-codex";
  AgentCapabilityReport_version := Some "fixture-1"; AgentCapabilityReport_install_state := Installed;
  AgentCapabilityReport_capability := {|
    Capability_structured_events := true; Capability_resume := true; Capability_approval := true;
    Capability_safe_pause := true; Capability_terminal_fallback := true |};
  AgentCapabilityReport_unavailable_reason := None;
  AgentCapabilityReport_executable_hash := Some "fixture";
  AgentCapabilityReport_configuration_source := Some "test" |}.
Definition fake_start (run_id : string) (s : FakeAdapter) : FakeAdapter * FakeHandle :=
  let control := length (FakeAdapter_cells s) in
  ({| FakeAdapter_events := FakeAdapter_events s;
      FakeAdapter_controls := <[run_id := control]> (FakeAdapter_controls s);
      FakeAdapter_cells := FakeAdapter_cells s ++ [ControlState_default] |},
   {| FakeHandle_run_id := run_id; FakeHandle_control := control |}).
(** The task of a run: what the sink and what the handle receive, when the
    sink takes [accepts] events before its receiver is gone. *)
Fixpoint fake_task (accepts : nat) (events : list AgentEvent) : list AgentEvent * list AgentEvent :=
  match events, accepts with
  | event :: rest, S accepts =>
      let '(sink, handle) := fake_task accepts rest in (event :: sink, event :: handle)
  | _, _ => ([], [])
  end.

Definition pause_cell : stm ControlState AdapterError unit := λ c,
  if ControlState_terminated c then (c, Err AlreadyTerminated)
  else if ControlState_paused c then (c, Err AlreadyPaused)
  else ({| ControlState_paused := true; ControlState_terminated := ControlState_terminated c |}, Ok tt).
Definition terminate_cell : stm ControlState AdapterError unit := λ c,
  if ControlState_terminated c then (c, Err AlreadyTerminated)
  else ({| ControlState_paused := ControlState_paused c; ControlState_terminated := true |}, Ok tt).
(** A method on the locked cell [control]. *)
Definition with_cell (control : nat) (m : stm ControlState AdapterError unit)
    : stm FakeAdapter AdapterError unit := λ s,
  match FakeAdapter_cells s !! control with
  | Some c => let '(c, r) := m c in
      ({| FakeAdapter_events := FakeAdapter_events s; FakeAdapter_controls := FakeAdapter_controls s;
          FakeAdapter_cells := <[control := c]> (FakeAdapter_cells s) |}, r)
  | None => (s, Ok tt)
  end.
Definition with_run (run_id : string) (m : stm ControlState AdapterError unit)
    : stm FakeAdapter AdapterError unit := λ s,
  match FakeAdapter_controls s !! run_id with
  | Some control => with_cell control m s
  | None => (s, Err (Unavailable "unknown run"))
  end.
Definition fake_request_safe_pause (run_id : string) := with_run run_id pause_cell.
Definition fake_terminate_owned_tree (run_id : string) := with_run run_id terminate_cell.
Definition FakeHandle_request_safe_pause (h : FakeHandle) := with_cell (FakeHandle_control h) pause_cell.
Definition FakeHandle_terminate_owned_tree (h : FakeHandle) :=
  with_cell (FakeHandle_control h) terminate_cell.

#[export] Instance fake_adapter : AgentAdapter FakeAdapter ControlState := {|
  adapter_control run_id c := match c with
    | RunPause => fake_request_safe_pause run_id
    | RunTerminate => fake_terminate_owned_tree run_id
    | RunRespond _ _ => adapter_unsupported
    end;
  adapter_run s run_id := FakeAdapter_controls s !! run_id ≫= (FakeAdapter_cells s !!.);
  adapter_wf s :=
    (∀ run_id control, FakeAdapter_controls s !! run_id = Some control →
      control < length (FakeAdapter_cells s)) ∧
    ∀ run_id run_id' control, FakeAdapter_controls s !! run_id = Some control →
      FakeAdapter_controls s !! run_id' = Some control → run_id = run_id' |}.

Lemma with_run_known run_id control c m s :
  FakeAdapter_controls s !! run_id = Some control → FakeAdapter_cells s !! control = Some c →
  with_run run_id m s =
    ({| FakeAdapter_events := FakeAdapter_events s; FakeAdapter_controls := FakeAdapter_controls s;
        FakeAdapter_cells := <[control := (m c).1]> (FakeAdapter_cells s) |}, (m c).2).
Proof. intros Hr Hc. unfold with_run, with_cell. rewrite Hr, Hc. by destruct (m c). Qed.
(** On a table whose runs have cells of their own, a method of a run reaches
    its cell and no other. *)
Lemma with_run_spec run_id m s :
  adapter_wf s →
  adapter_wf (with_run run_id m s).1 ∧
  (∀ run_id', run_id ≠ run_id' → adapter_run (with_run run_id m s).1 run_id' = adapter_run s run_id') ∧
  match adapter_run s run_id with
  | None => with_run run_id m s = (s, Err (Unavailable "unknown run"))
  | Some c => adapter_run (with_run run_id m s).1 run_id = Some (m c).1 ∧ (with_run run_id m s).2 = (m c).2
  end.
Proof.
  intros [Hin Hinj]. simpl. destruct (FakeAdapter_controls s !! run_id) as [control|] eqn:Hr; simpl.
  2: { assert (with_run run_id m s = (s, Err (Unavailable "unknown run"))) as ->; [|done].
       unfold with_run. by rewrite Hr. }
  destruct (lookup_lt_is_Some_2 _ _ (Hin _ _ Hr)) as [c Hc].
  rewrite (with_run_known run_id control c m s Hr Hc), Hc. simpl. rewrite Hr. simpl. split_and!.
  - intros ??. rewrite length_insert. apply Hin.
  - exact Hinj.
  - intros run_id' Hne. destruct (FakeAdapter_controls s !! run_id') as [control'|] eqn:Hr'; [|done]. simpl.
    apply list_lookup_insert_ne. intros ->. apply Hne. by eapply Hinj.
  - apply list_lookup_insert_eq. by eapply lookup_lt_Some.
  - done.
Qed.
#[export] Instance fake_adapter_laws : AgentAdapterLaws FakeAdapter ControlState.
Proof.
  split; intros run_id; [|intros run_id'|..]; intros c s Hs; (destruct c; [| |simpl; by eauto]);
    cbn [adapter_control fake_adapter]; unfold fake_request_safe_pause, fake_terminate_owned_tree;
    match goal with |- context [with_run _ ?m] =>
      destruct (with_run_spec run_id m s Hs) as (Hw&Hl&Hu) end; auto.
  1,2: intros Hn; rewrite Hn in Hu; by eexists.
  all: intros [v Hv]; rewrite Hv in Hu; destruct Hu as [-> _]; by eexists.
Qed.

(** Starting a run gives it a cell of its own, in its initial state. *)
Lemma fake_start_spec run_id s s' h :
  adapter_wf s → FakeAdapter_controls s !! run_id = None → fake_start run_id s = (s', h) →
  adapter_wf s' ∧ adapter_run s' run_id = Some ControlState_default ∧
  FakeAdapter_controls s' !! run_id = Some (FakeHandle_control h) ∧
  ∀ run_id', run_id ≠ run_id' → adapter_run s' run_id' = adapter_run s run_id'.
Proof.
  intros [Hin Hinj] Hn [= <- <-]. simpl. rewrite lookup_insert_eq. simpl. split_and!.
  - intros r control. rewrite length_app. simpl. destruct (decide (r = run_id)) as [->|];
      [rewrite lookup_insert_eq; intros [= <-]; lia|rewrite lookup_insert_ne by done].
    intros ?%Hin. lia.
  - intros r r' control. destruct (decide (r = run_id)) as [->|], (decide (r' = run_id)) as [->|];
      rewrite ?lookup_insert_eq, ?lookup_insert_ne by done; [done|..|apply Hinj].
    + intros [= <-] ?%Hin. lia.
    + intros ?%Hin [= <-]. lia.
  - by rewrite lookup_app_r, Nat.sub_diag by lia.
  - done.
  - intros run_id' Hne. rewrite lookup_insert_ne by done.
    destruct (FakeAdapter_controls s !! run_id') as [control|] eqn:Hr; [|done]. simpl.
    apply lookup_app_l. by eapply Hin.
Qed.

(** ** A run of the fake adapter, controlled from both sides

    Pausing and terminating a run through the adapter or through its handle,
    with controls for other runs in between; [granted] is what of it
    succeeded for the run. *)
Inductive fake_op :=
| ViaAdapter (terminate : bool) | ViaHandle (terminate : bool) | OtherRun (run_id : string) (c : run_control).
Definition fake_do (h : FakeHandle) (op : fake_op) : stm FakeAdapter AdapterError unit :=
  match op with
  | ViaAdapter false => fake_request_safe_pause (FakeHandle_run_id h)
  | ViaAdapter true => fake_terminate_owned_tree (FakeHandle_run_id h)
  | ViaHandle false => FakeHandle_request_safe_pause h
  | ViaHandle true => FakeHandle_terminate_owned_tree h
  | OtherRun run_id c => adapter_control run_id c
  end.
Fixpoint granted (h : FakeHandle) (ops : list fake_op) (s : FakeAdapter) : list bool :=
  match ops with
  | [] => []
  | op :: ops =>
      let '(s', r) := fake_do h op s in
      match op, r with
      | (ViaAdapter t | ViaHandle t), Ok _ => t :: granted h ops s'
      | _, _ => granted h ops s'
      end
  end.
(** What a cell still grants. *)
Definition may_grant (c : ControlState) (g : list bool) : Prop :=
  match ControlState_terminated c, ControlState_paused c with
  | true, _ => g = []
  | false, true => g = [] ∨ g = [true]
  | false, false => g = [] ∨ g = [false] ∨ g = [true] ∨ g = [false; true]
  end.

(** The handle and the adapter reach the same cell. *)
Lemma handle_is_adapter h s m :
  FakeAdapter_controls s !! FakeHandle_run_id h = Some (FakeHandle_control h) →
  with_cell (FakeHandle_control h) m s = with_run (FakeHandle_run_id h) m s.
Proof. intros Hr. unfold with_run. by rewrite Hr. Qed.
Lemma with_run_controls run_id m s :
  FakeAdapter_controls (with_run run_id m s).1 = FakeAdapter_controls s.
Proof.
  unfold with_run, with_cell. repeat case_match; simplify_eq; done.
Qed.
Lemma fake_do_spec h op s c :
  adapter_wf s → FakeAdapter_controls s !! FakeHandle_run_id h = Some (FakeHandle_control h) →
  adapter_run s (FakeHandle_run_id h) = Some c →
  (∀ run_id c, op = OtherRun run_id c → run_id ≠ FakeHandle_run_id h) →
  adapter_wf (fake_do h op s).1 ∧
  FakeAdapter_controls (fake_do h op s).1 = FakeAdapter_controls s ∧
  match op with
  | ViaAdapter t | ViaHandle t =>
      let m := if t then terminate_cell else pause_cell in
      adapter_run (fake_do h op s).1 (FakeHandle_run_id h) = Some (m c).1 ∧ (fake_do h op s).2 = (m c).2
  | OtherRun _ _ => adapter_run (fake_do h op s).1 (FakeHandle_run_id h) = Some c
  end.
Proof.
  intros Hw Hr Hc Ho. destruct op as [[]|[]|run_id rc]; cbn [fake_do].
  5: { split_and!; [by apply control_wf| |].
       - destruct rc; [apply with_run_controls..|done].
       - rewrite control_local; [done|done|by eapply Ho]. }
  3,4: unfold FakeHandle_terminate_owned_tree, FakeHandle_request_safe_pause;
    rewrite (handle_is_adapter h s _ Hr).
  all: unfold fake_terminate_owned_tree, fake_request_safe_pause;
    match goal with |- context [with_run _ ?m _] =>
      destruct (with_run_spec (FakeHandle_run_id h) m s Hw) as (Hw'&_&Hu) end;
    rewrite Hc in Hu; split_and!; [done|apply with_run_controls|apply Hu..].
Qed.
(** However a run is controlled, through the adapter, through its handle or
    both, and whatever happens to other runs meanwhile: it is paused at most
    once, terminated at most once, and never paused after it was terminated. *)
Theorem fake_run_controlled_once ops : ∀ h s,
  adapter_wf s → FakeAdapter_controls s !! FakeHandle_run_id h = Some (FakeHandle_control h) →
  Forall (λ op, ∀ run_id c, op = OtherRun run_id c → run_id ≠ FakeHandle_run_id h) ops →
  ∀ c, adapter_run s (FakeHandle_run_id h) = Some c → may_grant c (granted h ops s).
Proof.
  induction ops as [|op ops IH]; intros h s Hw Hr Hops c Hc.
  { unfold may_grant. simpl. repeat case_match; auto. }
  apply list.Forall_cons in Hops as [Ho Hops].
  destruct (fake_do_spec h op s c Hw Hr Hc Ho) as (Hw'&Hr'&Hop). cbn [granted].
  destruct (fake_do h op s) as [s' r]. simpl in *. rewrite <-Hr' in Hr.
  destruct op as [t|t|run_id rc]; [| |by eapply IH].
  all: destruct Hop as [Hc' ->]; specialize (IH h s' Hw' Hr Hops _ Hc'); revert IH;
    unfold may_grant; destruct t, c as [[] []]; cbn; (intros ->; tauto) || (intros [->| ->]; tauto) || tauto.
Qed.
End fake.

Module AdapterExamples.
Import Json.
Definition fk_start : FakeAdapter * FakeHandle := fake_start "r" (FakeAdapter_new []).
Definition fk_ops : list fake_op :=
  [ViaHandle false; ViaAdapter false; OtherRun "q" RunPause; ViaAdapter true; ViaHandle true; ViaHandle false].
(** Paused through its handle, then terminated through the adapter. *)
Lemma fake_run_controlled_once_witness :
  granted fk_start.2 fk_ops fk_start.1 = [false; true] ∧
  may_grant ControlState_default (granted fk_start.2 fk_ops fk_start.1).
Proof.
  split; [vm_compute; reflexivity|].
  apply (fake_run_controlled_once fk_ops fk_start.2 fk_start.1);
    [| reflexivity | | reflexivity].
  - apply (fake_start_spec "r" (FakeAdapter_new []) fk_start.1 fk_start.2); [|done|reflexivity].
    by split; intros *; cbn; rewrite lookup_empty.
  - repeat constructor; intros ?? [=]; by subst.
Defined.
End AdapterExamples.
