(* ===== verification/Detect.v ===== *)
(** * Finding installed agents ([crates/adapter-detect/src/version.rs],
    [crates/adapter-detect/src/path_probe.rs])

    Which agents are installed, found on the search path and asked for their
    version.  Which files exist, what they hold and what running them with
    [--version] gives is given. *)

From S2P Require Import Prelude Text Extern AdapterCore Frame BlobStore GitWorkspace Snapshot.
From Stdlib Require Import ZArith Lia.
From stdpp Require Import prelude strings.

Inductive AgentKind := KindCodex | KindClaude | KindOpenCode | KindZCode.
#[export] Instance AgentKind_eq_dec : EqDecision AgentKind.
Proof. solve_decision. Defined.
Definition AgentKind_ALL : list AgentKind := [KindCodex; KindClaude; KindOpenCode; KindZCode].
Definition AgentKind_executable (agent : AgentKind) : string :=
  match agent with
  | KindCodex => "codex" | KindClaude => "claude" | KindOpenCode => "opencode" | KindZCode => "zcode"
  end.
Definition runnable (agent : AgentKind) : bool :=
  match agent with KindCodex | KindClaude => true | _ => false end.
Definition provider_id (agent : AgentKind) : ProviderId :=
  match agent with
  | KindCodex => Codex | KindClaude => Claude | KindOpenCode => OpenCode | KindZCode => ZCode
  end.
Record Detection := {
  Detection_agent : AgentKind;
  Detection_report : AgentCapabilityReport;
  Detection_executable : option string;
  Detection_reason : option string;
}.
Record VersionProbe := {
  VersionProbe_executable : string;
  VersionProbe_version : option string;
  VersionProbe_stdout : string;
  VersionProbe_stderr : string;
  VersionProbe_timed_out : bool;
  VersionProbe_executable_hash : string;
}.
Inductive ProbeError := ProbeMissing | ProbeStart (error : string) | ProbeMetadata (error : string).
Definition ProbeError_display (e : ProbeError) : string :=
  match e with
  | ProbeMissing => "executable is missing"
  | ProbeStart error => "failed to start executable: " +:+ error
  | ProbeMetadata error => "failed to read executable metadata: " +:+ error
  end.

(** What the machine answers: which paths are files and what they hold; and
    what running one gives: an error, or whether it had to be killed at the
    deadline, and what it printed. *)
Record ProbeEnv := {
  ProbeEnv_windows : bool;
  ProbeEnv_path : option string;
  ProbeEnv_file : string → option (result string (list u8));
  ProbeEnv_run : string → result string (bool * string * string);
}.
Section detect.
Context `{Sha256} (env : ProbeEnv).

Definition is_file (path : string) : bool := bool_decide (is_Some (ProbeEnv_file env path)).
Definition executable_suffixes : list string :=
  if ProbeEnv_windows env then [".exe"; ".cmd"; ".bat"; ""] else [""; ".sh"].
Definition path_separator : N := if ProbeEnv_windows env then 59%N else 58%N.
(** [Path::join] of a directory and a plain name. *)
Definition join_name (directory name : string) : string :=
  if str_eqb directory "" || ends_with directory "/" then directory +:+ name
  else directory +:+ "/" +:+ name.
(** The files that are looked for, in order. *)
Definition candidates (name path : string) : list string :=
  split_on path_separator [] path ≫= λ directory,
    (λ suffix, join_name directory (name +:+ suffix)) <$> executable_suffixes.
Definition resolve_executable (name : string) (search_path : option string) : option string :=
  if (1 <? length (path_components name))%nat || starts_with name "/"
  then if is_file name then Some name else None
  else
    path ← (match search_path with Some p => Some p | None => ProbeEnv_path env end);
    snd <$> list_find (λ candidate, is_file candidate = true) (candidates name path).
Definition hash_file (path : string) : result ProbeError string :=
  match ProbeEnv_file env path with
  | Some (Ok bytes) => Ok ("sha256:" +:+ blob_digest bytes)
  | Some (Err error) => Err (ProbeMetadata error)
  | None => Err (ProbeMetadata "not found")
  end.
Definition probe_executable (path : string) : result ProbeError VersionProbe :=
  if negb (is_file path) then Err ProbeMissing else
  executable_hash ← hash_file path;
  '(timed_out, out, err) ← map_err ProbeStart (ProbeEnv_run env path);
  let stdout := str_trim out in
  Ok {| VersionProbe_executable := path;
        VersionProbe_version :=
          if str_eqb stdout "" then None else Some (default "" (head (str_lines stdout)));
        VersionProbe_stdout := stdout; VersionProbe_stderr := str_trim err;
        VersionProbe_timed_out := timed_out; VersionProbe_executable_hash := executable_hash |}.

Definition missing_with_path (agent : AgentKind) (executable : option string) (reason : string)
    : Detection := {|
  Detection_agent := agent;
  Detection_report := {|
    AgentCapabilityReport_provider := provider_id agent;
    AgentCapabilityReport_agent := AgentKind_executable agent;
    AgentCapabilityReport_version := None; AgentCapabilityReport_install_state := Missing;
    AgentCapabilityReport_capability := {|
      Capability_structured_events := false; Capability_resume := false;
      Capability_approval := false; Capability_safe_pause := false;
      Capability_terminal_fallback := false |};
    AgentCapabilityReport_unavailable_reason := Some reason;
    AgentCapabilityReport_executable_hash := None;
    AgentCapabilityReport_configuration_source := None |};
  Detection_executable := executable; Detection_reason := Some reason |}.
Definition from_probe (agent : AgentKind) (probe : VersionProbe) : Detection :=
  let unknown_version :=
    negb (bool_decide (is_Some (VersionProbe_version probe))) || VersionProbe_timed_out probe in
  let usable := runnable agent && negb unknown_version in
  {| Detection_agent := agent;
     Detection_report := {|
       AgentCapabilityReport_provider := provider_id agent;
       AgentCapabilityReport_agent := AgentKind_executable agent;
       AgentCapabilityReport_version := VersionProbe_version probe;
       AgentCapabilityReport_install_state :=
         if negb (runnable agent) then DetectedNotRunnable
         else if unknown_version then InstallUnknown else Installed;
       AgentCapabilityReport_capability := {|
         Capability_structured_events := usable;
         Capability_resume := bool_decide (agent = KindCodex) && negb unknown_version;
         Capability_approval := usable; Capability_safe_pause := usable;
         Capability_terminal_fallback := usable |};
       AgentCapabilityReport_unavailable_reason :=
         if negb (runnable agent)
         then Some "provider detected but runtime adapter is unavailable"
         else if unknown_version then Some "provider version is unknown" else None;
       AgentCapabilityReport_executable_hash := Some (VersionProbe_executable_hash probe);
       AgentCapabilityReport_configuration_source := Some "local_cli" |};
     Detection_executable := Some (VersionProbe_executable probe);
     Detection_reason :=
       if VersionProbe_timed_out probe then Some "--version probe timed out"
       else if bool_decide (is_Some (VersionProbe_version probe)) then None
       else Some "version output is unknown" |}.
Definition detect (agent : AgentKind) (search_path : option string) : Detection :=
  match resolve_executable (AgentKind_executable agent) search_path with
  | None => missing_with_path agent None "executable not found"
  | Some path =>
      match probe_executable path with
      | Err error => missing_with_path agent (Some path) (ProbeError_display error)
      | Ok probe => from_probe agent probe
      end
  end.
Definition detect_all (search_path : option string) : list Detection :=
  (λ agent, detect agent search_path) <$> AgentKind_ALL.

(** ** What a detection says *)
Definition claims_capability (c : Capability) : bool :=
  Capability_structured_events c || Capability_resume c || Capability_approval c
  || Capability_safe_pause c || Capability_terminal_fallback c.
(** A report that makes sense: of the agent it is about, available exactly when
    it claims capabilities, with a reason exactly when it is not. *)
Definition well_formed (d : Detection) : Prop :=
  let report := Detection_report d in
  AgentCapabilityReport_provider report = provider_id (Detection_agent d) ∧
  AgentCapabilityReport_agent report = AgentKind_executable (Detection_agent d) ∧
  (claims_capability (AgentCapabilityReport_capability report) = true ↔
    AgentCapabilityReport_install_state report = Installed) ∧
  (AgentCapabilityReport_unavailable_reason report = None ↔
    AgentCapabilityReport_install_state report = Installed).
Lemma resolved_is_file agent search_path path :
  resolve_executable (AgentKind_executable agent) search_path = Some path → is_file path = true.
Proof.
  unfold resolve_executable. destruct (_ || _).
  - destruct (is_file _) eqn:Hf; [|done]. by intros [= <-].
  - destruct (match search_path with Some p => Some p | None => ProbeEnv_path env end); simpl; [|done].
    destruct (list_find _ _) as [[i p]|] eqn:Hl; simpl; [|done]. intros [= <-].
    by apply list_find_Some in Hl as (_&Hf&_).
Qed.
Lemma lines_nonempty s : ∀ cur, lines_of cur s = [] → s = "" ∧ cur = [].
Proof.
  induction s as [|c s IH]; intros cur; simpl; [by destruct cur|].
  destruct (byte_is 10 c); [done|]. by intros [_ [=]]%IH.
Qed.
Lemma detect_agent agent search_path : Detection_agent (detect agent search_path) = agent.
Proof. unfold detect. by repeat case_match. Qed.
Lemma detect_well_formed agent search_path : well_formed (detect agent search_path).
Proof.
  unfold detect. destruct (resolve_executable _ _); [|by split_and!].
  destruct (probe_executable _) as [probe|]; [|by split_and!]. unfold from_probe, well_formed. simpl.
  split_and!; [done|done| |]; destruct (bool_decide (is_Some (VersionProbe_version probe))),
    (VersionProbe_timed_out probe), agent; simpl; try case_bool_decide; simpl; naive_solver.
Qed.
Lemma detect_installed agent search_path :
  let d := detect agent search_path in
  AgentCapabilityReport_install_state (Detection_report d) = Installed →
  runnable agent = true ∧
  ∃ path bytes out err, Detection_executable d = Some path ∧
    ProbeEnv_file env path = Some (Ok bytes) ∧
    AgentCapabilityReport_executable_hash (Detection_report d) =
      Some ("sha256:" +:+ blob_digest bytes) ∧
    ProbeEnv_run env path = Ok (false, out, err) ∧ str_trim out ≠ "" ∧
    AgentCapabilityReport_version (Detection_report d) = head (str_lines (str_trim out)) ∧
    (Capability_resume (AgentCapabilityReport_capability (Detection_report d)) = true →
      agent = KindCodex).
Proof.
  unfold detect. destruct (resolve_executable _ _) as [path|]; [|done].
  unfold probe_executable, hash_file, is_file.
  destruct (ProbeEnv_file env path) as [[bytes|error]|] eqn:Hf; [|done|done]. simpl.
  destruct (ProbeEnv_run env path) as [[[timed_out out] err]|error] eqn:Hr; simpl; [|done].
  destruct (runnable agent); simpl; [|done].
  unfold str_eqb. destruct (String.eqb_spec (str_trim out) "") as [He|He]; simpl; [done|].
  destruct timed_out; [done|]. intros _. split; [done|]. exists path, bytes, out, err.
  split_and!; try done.
  - unfold str_lines. destruct (lines_of [] (str_trim out)) eqn:Hl; [|done].
    by apply lines_nonempty in Hl as [? _].
  - case_bool_decide; [done|]. done.
Qed.
(** C39: what detection reports makes sense: there is one well-formed report for
    every known agent; an agent is reported as installed only if it has an
    adapter, its executable is a file on the path that was hashed, and it
    answered in time with a version that is not empty, which is the one
    reported; resuming is claimed for Codex only. *)
Theorem detections_well_formed search_path :
  Detection_agent <$> detect_all search_path = AgentKind_ALL ∧
  Forall (λ d, well_formed d ∧
    (AgentCapabilityReport_install_state (Detection_report d) = Installed →
      runnable (Detection_agent d) = true ∧
      ∃ path bytes out err, Detection_executable d = Some path ∧
        ProbeEnv_file env path = Some (Ok bytes) ∧
        AgentCapabilityReport_executable_hash (Detection_report d) =
          Some ("sha256:" +:+ blob_digest bytes) ∧
        ProbeEnv_run env path = Ok (false, out, err) ∧ str_trim out ≠ "" ∧
        AgentCapabilityReport_version (Detection_report d) = head (str_lines (str_trim out)) ∧
        (Capability_resume (AgentCapabilityReport_capability (Detection_report d)) = true →
          Detection_agent d = KindCodex)))
    (detect_all search_path).
Proof.
  split; [unfold detect_all; rewrite <-list_fmap_compose; simpl; by rewrite !detect_agent|].
  apply list.Forall_forall. intros d (agent&->&_)%list_elem_of_fmap.
  rewrite detect_agent. split; [apply detect_well_formed|apply detect_installed].
Qed.
End detect.
