(* ===== verification/CodexProbe.v ===== *)
(** * Asking Codex what it can do ([crates/adapter-codex/src/process.rs],
    [crates/adapter-codex/src/exec_probe.rs])

    [CodexAdapter::probe] finds the executable, asks for its version, runs it
    once read-only, and reports what may be relied on.  Which files exist and
    what running them gives is given: [ProbeEnv] for the version, [ExecChild]
    for the run, which may fail to start, be cut off at the deadline, or fail
    while its output is read. *)

From S2P Require Import Prelude Text Extern Ids Event AdapterCore Redaction BlobStore Ledger RecoveryPackage.
From S2P Require Import ServiceData Service ServiceExamples Normalize GitWorkspace Snapshot Detect.
From Stdlib Require Import ZArith Lia.
From stdpp Require Import prelude strings.

(** ** One read-only run *)
Inductive ExecProbeError := ExecStart (error : string) | ExecTimeout.
Definition ExecProbeError_display (e : ExecProbeError) : string :=
  match e with
  | ExecStart error => "failed to start codex exec: " +:+ error
  | ExecTimeout => "codex exec probe timed out"
  end.
Definition exec_args (project_root prompt : string) : list string :=
  ["exec"; "--json"; "--sandbox"; "read-only"; "--cd"; project_root; prompt].

(** A launched child: what reading the lines of its two streams gives, each
    ending with the stream or with an error; what waiting for it gives; whether
    all that came before the deadline; and which stream's error is seen first
    when both have one. *)
Record ExecChild := {
  ExecChild_stdout : list (result string string);
  ExecChild_stderr : list (result string string);
  ExecChild_wait : result string (option Z);
  ExecChild_in_time : bool;
  ExecChild_stderr_first : bool;
}.

Section codex_probe.
Context `{SerdeJson, Sha256, RegexCrate, !JsonParse} `{!DisplayFmt NativeParseError}.
Context (fresh : nat → EventId).

Record ExecProbeResult := {
  ExecProbeResult_command : string;
  ExecProbeResult_events : list NormalizedEvent;
  ExecProbeResult_stderr : string;
  ExecProbeResult_exit_code : option Z;
}.

Fixpoint read_stdout (n : nat) (lines : list (result string string))
    : result string (list NormalizedEvent) :=
  match lines with
  | [] => Ok []
  | Err error :: _ => Err error
  | Ok line :: rest =>
      events ← read_stdout (S n) rest;
      Ok (codex_normalize_line_lossless (fresh n) line :: events)
  end.
Fixpoint collect_stderr (lines : list (result string string)) : result string string :=
  match lines with
  | [] => Ok ""
  | Err error :: _ => Err error
  | Ok line :: rest => output ← collect_stderr rest; Ok (line +:+ line_feed +:+ output)
  end.
(** [tokio::try_join!]: the error of whichever side fails first. *)
Definition try_join {A B} (right_first : bool) (left : result string A) (right : result string B)
    : result string (A * B) :=
  match left, right with
  | Ok a, Ok b => Ok (a, b)
  | Err e, Ok _ | Ok _, Err e => Err e
  | Err e, Err e' => Err (if right_first then e' else e)
  end.
Definition run_exec_probe (exec : string → list string → string → result string ExecChild)
    (executable project_root prompt : string) : result ExecProbeError ExecProbeResult :=
  child ← map_err ExecStart (exec executable (exec_args project_root prompt) project_root);
  if negb (ExecChild_in_time child) then Err ExecTimeout else
  '(events, stderr) ← map_err ExecStart (try_join (ExecChild_stderr_first child)
    (read_stdout 0 (ExecChild_stdout child)) (collect_stderr (ExecChild_stderr child)));
  status ← map_err ExecStart (ExecChild_wait child);
  Ok {| ExecProbeResult_command := executable; ExecProbeResult_events := events;
        ExecProbeResult_stderr := stderr; ExecProbeResult_exit_code := status |}.

(** ** The report *)
Definition codex_unavailable_report (install_state : InstallState) (reason : string)
    (version executable_hash configuration_source : option string) : AgentCapabilityReport := {|
  AgentCapabilityReport_provider := Codex; AgentCapabilityReport_agent := "codex";
  AgentCapabilityReport_version := version;
  AgentCapabilityReport_install_state := install_state;
  AgentCapabilityReport_capability := {|
    Capability_structured_events := false; Capability_resume := false;
    Capability_approval := false; Capability_safe_pause := false;
    Capability_terminal_fallback := false |};
  AgentCapabilityReport_unavailable_reason := Some reason;
  AgentCapabilityReport_executable_hash := executable_hash;
  AgentCapabilityReport_configuration_source := configuration_source |}.
Definition probe_failure_report (probe : VersionProbe) (install_state : InstallState)
    (reason : string) : AgentCapabilityReport :=
  codex_unavailable_report install_state reason (VersionProbe_version probe)
    (Some (VersionProbe_executable_hash probe)) (Some "codex-cli").
Definition codex_installed_report (probe : VersionProbe) : AgentCapabilityReport := {|
  AgentCapabilityReport_provider := Codex; AgentCapabilityReport_agent := "codex";
  AgentCapabilityReport_version := VersionProbe_version probe;
  AgentCapabilityReport_install_state := Installed;
  AgentCapabilityReport_capability := {|
    Capability_structured_events := true; Capability_resume := true;
    Capability_approval := true; Capability_safe_pause := true;
    Capability_terminal_fallback := true |};
  AgentCapabilityReport_unavailable_reason := None;
  AgentCapabilityReport_executable_hash := Some (VersionProbe_executable_hash probe);
  AgentCapabilityReport_configuration_source := Some "codex-cli" |}.
Definition resolve_probe_path (env : ProbeEnv) (executable : string) : option string :=
  if starts_with executable "/" || (1 <? length (path_components executable))%nat
  then if is_file env executable then Some executable else None
  else resolve_executable env executable None.

(** What else the probe asks the machine: whether the worker that runs the
    version probe ends normally, and the working directory. *)
Record CodexProbeEnv := {
  CodexProbeEnv_files : ProbeEnv;
  CodexProbeEnv_worker_ends : bool;
  CodexProbeEnv_current_dir : option string;
  CodexProbeEnv_exec : string → list string → string → result string ExecChild;
}.
Definition version_probe_failure (error : ProbeError) : AgentCapabilityReport :=
  match error with
  | ProbeMissing => codex_unavailable_report Missing "codex executable disappeared during probe"
      None None (Some "codex-cli")
  | ProbeStart _ => codex_unavailable_report DetectedNotRunnable
      "codex version probe could not start" None None (Some "codex-cli")
  | ProbeMetadata _ => codex_unavailable_report DetectedNotRunnable
      "codex executable metadata unavailable" None None (Some "codex-cli")
  end.
(** The part of [probe] that follows a version. *)
Definition exec_probe_report (env : CodexProbeEnv) (executable : string) (probe : VersionProbe)
    : AgentCapabilityReport :=
  match CodexProbeEnv_current_dir env with
  | None => probe_failure_report probe DetectedNotRunnable "codex probe workspace is unavailable"
  | Some project_root =>
      match run_exec_probe (CodexProbeEnv_exec env) executable project_root
              "mission-control capability probe" with
      | Err ExecTimeout => probe_failure_report probe DetectedNotRunnable "codex exec probe timed out"
      | Err (ExecStart _) =>
          probe_failure_report probe DetectedNotRunnable "codex exec probe could not start"
      | Ok result =>
          if negb (bool_decide (ExecProbeResult_exit_code result = Some 0%Z))
          then probe_failure_report probe DetectedNotRunnable
                 "codex exec probe exited unsuccessfully"
          else if bool_decide (ExecProbeResult_events result = [])
          then probe_failure_report probe InstallUnknown
                 "codex exec probe returned no structured events"
          else codex_installed_report probe
      end
  end.
Definition codex_probe (env : CodexProbeEnv) (configured : string) : AgentCapabilityReport :=
  match resolve_probe_path (CodexProbeEnv_files env) configured with
  | None => codex_unavailable_report Missing "codex executable not found" None None None
  | Some executable =>
      if negb (CodexProbeEnv_worker_ends env)
      then codex_unavailable_report DetectedNotRunnable "codex version probe worker failed"
             None None (Some "codex-cli")
      else match probe_executable (CodexProbeEnv_files env) executable with
      | Err error => version_probe_failure error
      | Ok probe =>
          if VersionProbe_timed_out probe
          then probe_failure_report probe InstallUnknown "codex version probe timed out"
          else if negb (bool_decide (is_Some (VersionProbe_version probe)))
          then probe_failure_report probe InstallUnknown "codex version output is unknown"
          else exec_probe_report env executable probe
      end
  end.

(** ** What a report rests on *)

(** The lines of a stream that was read to its end. *)
Fixpoint all_lines (lines : list (result string string)) : option (list string) :=
  match lines with
  | [] => Some []
  | Err _ :: _ => None
  | Ok line :: rest => (cons line) <$> all_lines rest
  end.
Lemma read_stdout_spec lines : ∀ n,
  result_ok (read_stdout n lines) =
    (λ ls, imap (λ i line, codex_normalize_line_lossless (fresh (n + i)) line) ls) <$> all_lines lines.
Proof.
  induction lines as [|[line|error] lines IH]; intros n; [done| |done].
  simpl. specialize (IH (S n)). destruct (read_stdout (S n) lines) as [events|e]; simpl in *;
    destruct (all_lines lines) as [ls|]; simpl in *; simplify_eq; [|done].
  rewrite Nat.add_0_r. do 2 f_equal. apply imap_ext. intros i line' _. simpl. do 2 f_equal. lia.
Qed.
Lemma collect_stderr_spec lines :
  result_ok (collect_stderr lines) =
    foldr (λ line output, line +:+ line_feed +:+ output) "" <$> all_lines lines.
Proof.
  induction lines as [|[line|error] lines IH]; [done| |done]. simpl.
  destruct (collect_stderr lines), (all_lines lines); simpl in *; by simplify_eq.
Qed.
(** The run is answered exactly when it ended in time with both streams read
    to their ends; it has one event for each line, in order. *)
Lemma exec_probe_answers exec executable root prompt r :
  run_exec_probe exec executable root prompt = Ok r ↔
  ∃ child out err,
    exec executable (exec_args root prompt) root = Ok child ∧ ExecChild_in_time child = true ∧
    all_lines (ExecChild_stdout child) = Some out ∧ all_lines (ExecChild_stderr child) = Some err ∧
    ExecChild_wait child = Ok (ExecProbeResult_exit_code r) ∧
    ExecProbeResult_command r = executable ∧
    ExecProbeResult_events r = imap (λ i line, codex_normalize_line_lossless (fresh i) line) out ∧
    ExecProbeResult_stderr r = foldr (λ line output, line +:+ line_feed +:+ output) "" err.
Proof.
  unfold run_exec_probe. destruct (exec _ _ _) as [child|e]; simpl; [|by split; [|intros (?&?&?&[=]&_)]].
  pose proof (read_stdout_spec (ExecChild_stdout child) 0) as Ho.
  pose proof (collect_stderr_spec (ExecChild_stderr child)) as He.
  destruct (ExecChild_in_time child) eqn:Ht; simpl.
  2: { split; [done|]. intros (child'&?&?&[= <-]&?&_). congruence. }
  destruct (read_stdout 0 (ExecChild_stdout child)) as [events|e1],
    (collect_stderr (ExecChild_stderr child)) as [stderr|e2]; simpl in *;
    destruct (all_lines (ExecChild_stdout child)) as [out|] eqn:Eo,
      (all_lines (ExecChild_stderr child)) as [err|] eqn:Ee; simpl in *; simplify_eq;
    try (split; [done|]; intros (child'&?&?&[= <-]&?&?&?&_); congruence).
  destruct (ExecChild_wait child) as [status|e] eqn:Hw; simpl; split.
  - intros [= <-]. by exists child, out, err.
  - intros (child'&out'&err'&[= <-]&?&?&?&?&?&?&?). destruct r. simpl in *. simplify_eq. congruence.
  - done.
  - intros (child'&out'&err'&[= <-]&?&?&?&?&_). congruence.
Qed.

(** All of Codex was seen to work, with this version and digest. *)
Definition codex_works (env : CodexProbeEnv) (configured version digest : string) : Prop :=
  ∃ executable bytes out err root child line lines errors,
    resolve_probe_path (CodexProbeEnv_files env) configured = Some executable ∧
    CodexProbeEnv_worker_ends env = true ∧
    ProbeEnv_file (CodexProbeEnv_files env) executable = Some (Ok bytes) ∧
    digest = "sha256:" +:+ blob_digest bytes ∧
    ProbeEnv_run (CodexProbeEnv_files env) executable = Ok (false, out, err) ∧
    str_trim out ≠ "" ∧ version = default "" (head (str_lines (str_trim out))) ∧
    CodexProbeEnv_current_dir env = Some root ∧
    CodexProbeEnv_exec env executable
      ["exec"; "--json"; "--sandbox"; "read-only"; "--cd"; root; "mission-control capability probe"]
      root = Ok child ∧
    ExecChild_in_time child = true ∧ ExecChild_wait child = Ok (Some 0%Z) ∧
    all_lines (ExecChild_stdout child) = Some (line :: lines) ∧
    all_lines (ExecChild_stderr child) = Some errors.
Lemma exec_probe_report_available env executable probe :
  is_available (exec_probe_report env executable probe) = true ↔
  ∃ root r, CodexProbeEnv_current_dir env = Some root ∧
    run_exec_probe (CodexProbeEnv_exec env) executable root "mission-control capability probe" = Ok r ∧
    ExecProbeResult_exit_code r = Some 0%Z ∧ ExecProbeResult_events r ≠ [].
Proof.
  unfold exec_probe_report. destruct (CodexProbeEnv_current_dir env) as [root|]; [|by split; [|intros (?&?&[=]&_)]].
  destruct (run_exec_probe _ _ _ _) as [r|[e|]] eqn:Hr;
    [|by split; [|intros (?&?&[= <-]&Hr'&_); congruence]..].
  case_bool_decide as Hx; simpl; [case_bool_decide as He; simpl|]; (split; [try done|]).
  - intros (?&r'&[= <-]&Hr'&_&?). rewrite Hr in Hr'. by simplify_eq.
  - intros _. by exists root, r.
  - done.
  - intros (?&r'&[= <-]&Hr'&?&_). rewrite Hr in Hr'. by simplify_eq.
Qed.
Lemma exec_probe_report_kind env executable probe :
  exec_probe_report env executable probe = codex_installed_report probe ∨
  ∃ state reason, state ≠ Installed ∧
    exec_probe_report env executable probe = probe_failure_report probe state reason.
Proof. unfold exec_probe_report. repeat case_match; (by left) || (right; do 2 eexists; split; [|reflexivity]; done). Qed.
Lemma exec_probe_report_fields env executable probe :
  let report := exec_probe_report env executable probe in
  AgentCapabilityReport_version report = VersionProbe_version probe ∧
  AgentCapabilityReport_executable_hash report = Some (VersionProbe_executable_hash probe).
Proof. by destruct (exec_probe_report_kind env executable probe) as [->|(?&?&_&->)]. Qed.
(** The run that makes Codex available, seen from its child. *)
Lemma exec_probe_works env executable probe :
  is_available (exec_probe_report env executable probe) = true ↔
  ∃ root child line lines errors, CodexProbeEnv_current_dir env = Some root ∧
    CodexProbeEnv_exec env executable (exec_args root "mission-control capability probe") root
      = Ok child ∧
    ExecChild_in_time child = true ∧ ExecChild_wait child = Ok (Some 0%Z) ∧
    all_lines (ExecChild_stdout child) = Some (line :: lines) ∧
    all_lines (ExecChild_stderr child) = Some errors.
Proof.
  rewrite exec_probe_report_available. split.
  - intros (root&r&Hd&(child&out&err&Hc&Ht&Ho&He&Hw&_&Hev&_)%exec_probe_answers&Hx&Hne).
    rewrite Hev in Hne. destruct out as [|line lines]; [done|]. rewrite Hx in Hw.
    by exists root, child, line, lines, err.
  - intros (root&child&line&lines&errors&Hd&Hc&Ht&Hw&Ho&He). eexists root, {|
      ExecProbeResult_command := executable; ExecProbeResult_exit_code := Some 0%Z |}.
    split_and!; [done| |done|]; [apply exec_probe_answers; by exists child, (line :: lines), errors|done].
Qed.
Ltac not_working :=
  split; [by intros [? _]|intros (executable'&?&?&?&?&?&?&?&?&?&?&?&?&?&?&_);
    first [by simplify_eq|simplify_eq; congruence]].
(** Codex is reported as available exactly when all of it was seen to work: its
    executable was found and could be read, the one it names answered with a
    version in time, and a read-only run in the working directory ended
    normally, in time, with at least one line of output, all of it read.  The
    report then carries that version and the digest of that file; otherwise it
    claims no capability and gives a reason. *)
Theorem codex_probe_exact env configured version digest :
  let report := codex_probe env configured in
  (is_available report = true ∧ AgentCapabilityReport_version report = Some version ∧
     AgentCapabilityReport_executable_hash report = Some digest ↔
   codex_works env configured version digest) ∧
  (is_available report = false → AgentCapabilityReport_unavailable_reason report ≠ None ∧
     claims_capability (AgentCapabilityReport_capability report) = false).
Proof.
  split.
  - unfold codex_probe, codex_works.
    destruct (resolve_probe_path _ _) as [executable|]; [|not_working].
    destruct (CodexProbeEnv_worker_ends env); [|not_working]. simpl.
    unfold probe_executable, hash_file, is_file.
    destruct (ProbeEnv_file _ executable) as [[bytes|e]|] eqn:Hf; [|not_working..]. simpl.
    destruct (ProbeEnv_run _ executable) as [[[timed_out out] err]|e] eqn:Hr; simpl; [|not_working].
    destruct timed_out; [not_working|].
    unfold str_eqb. destruct (String.eqb_spec (str_trim out) "") as [He|He]; simpl; [not_working|].
    match goal with |- context [exec_probe_report _ _ ?p] =>
      destruct (exec_probe_report_fields env executable p) as [-> ->];
      rewrite (exec_probe_works env executable p) end. simpl. split.
    + intros [(root&child&line&lines&errors&?&?&?&?&?&?) [[= <-] [= <-]]].
      by exists executable, bytes, out, err, root, child, line, lines, errors.
    + intros (?&?&?&?&root&child&line&lines&errors&[= <-]&_&Hf'&->&Hr'&_&->&?&?&?&?&?&?).
      rewrite Hf in Hf'. rewrite Hr in Hr'. simplify_eq.
      split; [|done]. by exists root, child, line, lines, errors.
  - unfold codex_probe. destruct (resolve_probe_path _ _) as [executable|]; [|done].
    destruct (CodexProbeEnv_worker_ends env); [|done]. simpl.
    destruct (probe_executable _ _) as [probe|[]]; [|done..].
    destruct (VersionProbe_timed_out probe); [done|].
    destruct (bool_decide _); [|done]. simpl.
    by destruct (exec_probe_report_kind env executable probe) as [->|(state&reason&_&->)].
Qed.
End codex_probe.

Module CodexProbeExamples.
Import Json RedactionExamples RecoveryPackageExamples CodedJson.

(** A machine whose [codex] prints a version, and plain text for anything else. *)
Definition cp_env (text : string) : CodexProbeEnv := {|
  CodexProbeEnv_files := {|
    ProbeEnv_windows := false; ProbeEnv_path := Some "/bin";
    ProbeEnv_file := λ path, if str_eqb path "/bin/codex" then Some (Ok [1%Z]) else None;
    ProbeEnv_run := λ _, Ok (false, "codex 1.2", "") |};
  CodexProbeEnv_worker_ends := true; CodexProbeEnv_current_dir := Some "/p";
  CodexProbeEnv_exec := λ _ args _, Ok {|
    ExecChild_stdout := [Ok text]; ExecChild_stderr := []; ExecChild_wait := Ok (Some 0%Z);
    ExecChild_in_time := true; ExecChild_stderr_first := false |} |}.
(** A line that is not JSON is kept as an event of its own, so a program that
    never speaks the protocol is reported as giving structured events. *)
Lemma plain_text_is_structured :
  is_ok (parse_native_line "hello") = false ∧
  Capability_structured_events (AgentCapabilityReport_capability
    (codex_probe (λ n, N.of_nat n) (cp_env "hello") "codex")) = true.
Proof. split; vm_compute; reflexivity. Qed.
Lemma codex_probe_exact_witness :
  is_available (codex_probe (λ n, N.of_nat n) (cp_env "hello") "codex") = true ∧
  codex_works (cp_env "hello") "codex" "codex 1.2"
    (default "" (AgentCapabilityReport_executable_hash
      (codex_probe (λ n, N.of_nat n) (cp_env "hello") "codex"))).
Proof.
  split; [vm_compute; reflexivity|].
  apply (codex_probe_exact (λ n, N.of_nat n)). split_and!; vm_compute; reflexivity.
Defined.
End CodexProbeExamples.
