(* ===== verification/TypeExports.v ===== *)
(** * The exported TypeScript types ([crates/protocol/src/export.rs],
    [read_model.rs])

    The protocol crate carries the text of a TypeScript module that declares
    the types of its messages.  The text is kept by hand; here it is read and
    compared with the types it stands for: with the names the enumerations
    have on the wire and with the fields the derived serialisation gives the
    structures. *)

From S2P Require Import Prelude Text Extern Command AdapterCore.
From Stdlib Require Import ZArith Ascii.
From stdpp Require Import prelude strings.

(** ** The text

    A double quote is written as an apostrophe; the text has none of its own. *)
Fixpoint quoted (s : string) : string :=
  match s with
  | EmptyString => EmptyString
  | String c r => String (if byte_is 39 c then ascii_of_N 34 else c) (quoted r)
  end.
Definition GENERATED_TYPESCRIPT : string := quoted "// Generated by mission-protocol-export. Do not edit by hand.
export type Branded<T, B extends string> = T & { readonly __brand: B };
export type MissionId = Branded<string, 'MissionId'>;
export type RouteId = Branded<string, 'RouteId'>;
export type EventId = Branded<string, 'EventId'>;
export type Rfc3339 = Branded<string, 'Rfc3339'>;

export type ProviderId = 'codex' | 'claude' | 'opencode' | 'zcode';

export interface ProviderCapability {
  provider: ProviderId;
  agent: string;
  version?: string;
  installState: 'installed' | 'missing' | 'detected_not_runnable' | 'unknown';
  available: boolean;
  unavailableReason?: string;
  structuredEvents: boolean;
  resume: boolean;
  approval: boolean;
  safePause: boolean;
  terminalFallback: boolean;
}

export interface LoadoutSnapshot {
  provider: ProviderId;
  model?: string;
  configFingerprint: string;
  hooksFingerprint: string;
  skillsFingerprint: string;
  pluginsFingerprint: string;
  mcpFingerprint: string;
}

export interface StartAgentRequest {
  missionId: MissionId;
  routeId: RouteId;
  provider?: ProviderId;
  projectRoot: string;
  routeWorkspace: string;
  readOnly: boolean;
  approvedEnvironment: Array<[string, string]>;
  model?: string;
  goal?: string;
  loadoutFingerprint: string;
  resumeThreadId?: string;
  loadout?: LoadoutSnapshot;
}

export type IpcCommand =
  | 'Handshake'
  | 'CreateMission'
  | 'UpdateMissionContract'
  | 'LaunchRoute'
  | 'RequestSafePause'
  | 'ForceTerminate'
  | 'ResolveApproval'
  | 'SubscribeMission'
  | 'ReviewMemory'
  | 'BuildContextPack'
  | 'BuildRecoveryPackage'
  | 'VerifyRecovery'
  | 'ResolveRecovery'
  | 'HandoffProvider';

export type ContinuityErrorCode =
  | 'PROVIDER_UNAVAILABLE'
  | 'PROVIDER_NOT_SELECTED'
  | 'LOADOUT_MISMATCH'
  | 'MEMORY_SOURCE_REQUIRED'
  | 'CONTEXTPACK_BUDGET_EXCEEDED'
  | 'RECOVERY_TAMPERED'
  | 'RECOVERY_SEQUENCE_INVALID'
  | 'RECOVERY_PACKAGE_REQUIRED'
  | 'RECOVERY_PACKAGE_INVALID'
  | 'RECOVERY_NOT_REQUIRED'
  | 'RECOVERY_DECISION_REQUIRED'
  | 'RECOVERY_VERIFY_FAILED'
  | 'RECOVERY_RESOLUTION_FAILED'
  | 'PENDING_APPROVAL_MISMATCH'
  | 'PERMISSION_EXPANSION'
  | 'UNSUPPORTED_COMMAND';

export interface ReviewMemoryRequest {
  missionId: MissionId;
  candidateIds: string[];
  expectedRevision: number;
}

export interface ContextPackRequest {
  missionId: MissionId;
  routeId: RouteId;
  maxTokens: number;
  expectedSequence: number;
}

export interface BuildRecoveryPackageRequest {
  missionId: MissionId;
  routeId: RouteId;
  contractVersion: number;
  checkpointId: string;
  ledgerSequence: number;
  loadoutFingerprint: string;
  contextPackHash: string;
  pendingApprovalHash?: string;
}

export interface ProviderHandoffRequest {
  missionId: MissionId;
  routeId: RouteId;
  targetProvider: ProviderId;
  contextPackHash: string;
  pendingApprovalHash?: string;
}

export type Actor = 'user' | 'renderer' | 'supervisor' | 'agent';

export type ApprovalDecision = 'approve' | 'deny' | 'revoke';
export type ApprovalGrantScope = 'once' | 'route_action_class';

export interface ResolveApproval {
  approvalId: string;
  expectedRevision: number;
  decision: ApprovalDecision;
  missionId: string;
  routeId: string;
  contractVersion: number;
  loadoutFingerprint: string;
  actionDigest: string;
  nowMs: number;
  scope?: ApprovalGrantScope;
}

export interface RequestEnvelope {
  requestId: string;
  expectedRevision?: number;
  actor: Actor;
  command: IpcCommand;
}

export interface OkResponse<T> {
  requestId: string;
  revision: number;
  value: T;
}

export interface ErrorResponse {
  requestId: string;
  code: string;
  messageKey: string;
  retryable: boolean;
  details?: unknown;
}

export interface MissionReadModel {
  missionId: string;
  revision: number;
  routeState: string;
  evidenceVerified: number;
  evidenceRequired: number;
  incomplete: boolean;
}

export interface MissionEventSummary {
  eventId: string;
  sequence: number;
  kind: string;
  occurredAt: Rfc3339;
}

export const IPC_COMMANDS: readonly IpcCommand[] = [
  'Handshake',
  'CreateMission',
  'UpdateMissionContract',
  'LaunchRoute',
  'RequestSafePause',
  'ForceTerminate',
  'ResolveApproval',
  'SubscribeMission',
  'ReviewMemory',
  'BuildContextPack',
  'BuildRecoveryPackage',
  'VerifyRecovery',
  'ResolveRecovery',
  'HandoffProvider',
] as const;

".
Definition typescript_bindings : string := GENERATED_TYPESCRIPT.

(** ** The views of [read_model.rs] *)
Record MissionReadModel := {
  MissionReadModel_mission_id : string;
  MissionReadModel_revision : u64;
  MissionReadModel_route_state : string;
  MissionReadModel_evidence_verified : u64;
  MissionReadModel_evidence_required : u64;
  MissionReadModel_incomplete : bool;
}.
Record MissionEventSummary := {
  MissionEventSummary_event_id : string;
  MissionEventSummary_sequence : u64;
  MissionEventSummary_kind : string;
  MissionEventSummary_occurred_at : string;
}.
Record ProviderCapabilityReadModel := {
  ProviderCapabilityReadModel_provider : string;
  ProviderCapabilityReadModel_install_state : string;
  ProviderCapabilityReadModel_available : bool;
  ProviderCapabilityReadModel_unavailable_reason : option string;
  ProviderCapabilityReadModel_structured_events : bool;
  ProviderCapabilityReadModel_resume : bool;
  ProviderCapabilityReadModel_approval : bool;
  ProviderCapabilityReadModel_safe_pause : bool;
}.

(** ** Names on the wire

    The derived serialisation: [rename_all] for the enumerations. *)
Definition IpcCommand_wire (c : IpcCommand) : string :=
  match c with
  | CmdHandshake => "Handshake" | CmdCreateMission => "CreateMission"
  | CmdUpdateMissionContract => "UpdateMissionContract" | CmdLaunchRoute => "LaunchRoute"
  | CmdRequestSafePause => "RequestSafePause" | CmdForceTerminate => "ForceTerminate"
  | CmdResolveApproval => "ResolveApproval" | CmdSubscribeMission => "SubscribeMission"
  | CmdReviewMemory => "ReviewMemory" | CmdBuildContextPack => "BuildContextPack"
  | CmdBuildRecoveryPackage => "BuildRecoveryPackage" | CmdVerifyRecovery => "VerifyRecovery"
  | CmdResolveRecovery => "ResolveRecovery" | CmdHandoffProvider => "HandoffProvider"
  end.
(** [rename_all = SCREAMING_SNAKE_CASE]: an underscore before every capital
    but the first. *)
Definition ContinuityErrorCode_wire (c : ContinuityErrorCode) : string :=
  match c with
  | ProviderUnavailable => "PROVIDER_UNAVAILABLE"
  | ProviderNotSelected => "PROVIDER_NOT_SELECTED"
  | LoadoutMismatch => "LOADOUT_MISMATCH"
  | MemorySourceRequired => "MEMORY_SOURCE_REQUIRED"
  | ContextPackBudgetExceeded => "CONTEXT_PACK_BUDGET_EXCEEDED"
  | RecoveryTampered => "RECOVERY_TAMPERED"
  | RecoverySequenceInvalid => "RECOVERY_SEQUENCE_INVALID"
  | RecoveryPackageRequired => "RECOVERY_PACKAGE_REQUIRED"
  | RecoveryPackageInvalid => "RECOVERY_PACKAGE_INVALID"
  | CodeRecoveryNotRequired => "RECOVERY_NOT_REQUIRED"
  | RecoveryDecisionRequired => "RECOVERY_DECISION_REQUIRED"
  | RecoveryVerifyFailed => "RECOVERY_VERIFY_FAILED"
  | RecoveryResolutionFailed => "RECOVERY_RESOLUTION_FAILED"
  | PendingApprovalMismatch => "PENDING_APPROVAL_MISMATCH"
  | PermissionExpansion => "PERMISSION_EXPANSION"
  | UnsupportedCommand => "UNSUPPORTED_COMMAND"
  end.
Definition all_error_codes : list ContinuityErrorCode :=
  [ProviderUnavailable; ProviderNotSelected; LoadoutMismatch; MemorySourceRequired;
   ContextPackBudgetExceeded; RecoveryTampered; RecoverySequenceInvalid; RecoveryPackageRequired;
   RecoveryPackageInvalid; CodeRecoveryNotRequired; RecoveryDecisionRequired; RecoveryVerifyFailed;
   RecoveryResolutionFailed; PendingApprovalMismatch; PermissionExpansion; UnsupportedCommand].
Definition Actor_wire (a : Actor) : string :=
  match a with
  | ProtoUser => "user" | ProtoRenderer => "renderer" | ProtoSupervisor => "supervisor"
  | ProtoAgent => "agent"
  end.
Definition ApprovalDecision_wire (d : ApprovalDecision) : string :=
  match d with DecisionApprove => "approve" | DecisionDeny => "deny" | DecisionRevoke => "revoke" end.
Definition ApprovalGrantScope_wire (s : ApprovalGrantScope) : string :=
  match s with GrantOnce => "once" | GrantRouteActionClass => "route_action_class" end.

(** The fields of the structures, with whether one is an [Option]. *)
Definition ReviewMemoryRequest_fields : list (string * bool) :=
  [("missionId", false); ("candidateIds", false); ("expectedRevision", false)].
Definition ContextPackRequest_fields : list (string * bool) :=
  [("missionId", false); ("routeId", false); ("maxTokens", false); ("expectedSequence", false)].
Definition BuildRecoveryPackageRequest_fields : list (string * bool) :=
  [("missionId", false); ("routeId", false); ("contractVersion", false); ("checkpointId", false);
   ("ledgerSequence", false); ("loadoutFingerprint", false); ("contextPackHash", false);
   ("pendingApprovalHash", true)].
Definition ProviderHandoffRequest_fields : list (string * bool) :=
  [("missionId", false); ("routeId", false); ("targetProvider", false); ("contextPackHash", false);
   ("pendingApprovalHash", true)].
Definition LoadoutSnapshot_fields : list (string * bool) :=
  [("provider", false); ("model", true); ("configFingerprint", false); ("hooksFingerprint", false);
   ("skillsFingerprint", false); ("pluginsFingerprint", false); ("mcpFingerprint", false)].
(** These have no [rename_all]. *)
Definition ResolveApproval_fields : list (string * bool) :=
  [("approval_id", false); ("expected_revision", false); ("decision", false); ("mission_id", false);
   ("route_id", false); ("contract_version", false); ("loadout_fingerprint", false);
   ("action_digest", false); ("now_ms", false); ("scope", true)].
Definition RequestEnvelope_fields : list (string * bool) :=
  [("request_id", false); ("expected_revision", true); ("actor", false); ("command", false)].
Definition ErrorResponse_fields : list (string * bool) :=
  [("request_id", false); ("code", false); ("message_key", false); ("retryable", false);
   ("details", true)].
Definition MissionReadModel_fields : list (string * bool) :=
  [("mission_id", false); ("revision", false); ("route_state", false); ("evidence_verified", false);
   ("evidence_required", false); ("incomplete", false)].
Definition MissionEventSummary_fields : list (string * bool) :=
  [("event_id", false); ("sequence", false); ("kind", false); ("occurred_at", false)].

(** ** Reading the text *)

(** What follows the first occurrence of [key]. *)
Definition after (key text : string) : option string := snd <$> split_once_str key [] text.
Definition before_byte (sep : N) (text : string) : string := hd "" (split_on sep [] text).
(** The quoted words of a text: every second piece between quotes. *)
Fixpoint odd_pieces (l : list string) : list string :=
  match l with _ :: x :: r => x :: odd_pieces r | _ => [] end.
Definition quoted_words (text : string) : list string := odd_pieces (split_on 34 [] text).
(** [export type NAME = ...;]. *)
Definition exported_union (name text : string) : option (list string) :=
  rest ← after ("export type " +:+ name +:+ " =") text;
  Some (quoted_words (before_byte 59 rest)).
(** One line of an interface: the name, and whether it ends in a question
    mark. *)
Definition field_of_line (line : string) : option (string * bool) :=
  '(name, _) ← split_once 58 [] (str_trim line);
  match rsplit_once 63 [] name with
  | Some (name, _) => Some (name, true)
  | None => Some (name, false)
  end.
Definition exported_fields (name text : string) : option (list (string * bool)) :=
  rest ← after ("export interface " +:+ name +:+ " {") text;
  Some (omap field_of_line (str_lines (before_byte 125 rest))).
Definition exported_commands (text : string) : option (list string) :=
  rest ← after "IPC_COMMANDS: readonly IpcCommand[] = [" text;
  Some (quoted_words (before_byte 93 rest)).

(** ** Agreement *)
Lemma all_error_codes_complete c : c ∈ all_error_codes.
Proof. unfold all_error_codes. destruct c; set_solver. Qed.

(** The exported enumerations are the protocol's, value for value and in the
    same order, and so are the fields of the continuity requests and of the
    loadout. *)
Theorem exported_types_agree :
  exported_union "IpcCommand" typescript_bindings = Some (IpcCommand_wire <$> allowlisted) ∧
  exported_commands typescript_bindings = Some (IpcCommand_wire <$> allowlisted) ∧
  (∀ c, c ∈ allowlisted) ∧
  exported_union "ContinuityErrorCode" typescript_bindings =
    Some (ContinuityErrorCode_as_str <$> all_error_codes) ∧
  (∀ c, c ∈ all_error_codes) ∧
  exported_union "ProviderId" typescript_bindings =
    Some (ProviderId_as_str <$> [Codex; Claude; OpenCode; ZCode]) ∧
  exported_union "Actor" typescript_bindings =
    Some (Actor_wire <$> [ProtoUser; ProtoRenderer; ProtoSupervisor; ProtoAgent]) ∧
  exported_union "ApprovalDecision" typescript_bindings =
    Some (ApprovalDecision_wire <$> [DecisionApprove; DecisionDeny; DecisionRevoke]) ∧
  exported_union "ApprovalGrantScope" typescript_bindings =
    Some (ApprovalGrantScope_wire <$> [GrantOnce; GrantRouteActionClass]) ∧
  exported_fields "ReviewMemoryRequest" typescript_bindings = Some ReviewMemoryRequest_fields ∧
  exported_fields "ContextPackRequest" typescript_bindings = Some ContextPackRequest_fields ∧
  exported_fields "BuildRecoveryPackageRequest" typescript_bindings =
    Some BuildRecoveryPackageRequest_fields ∧
  exported_fields "ProviderHandoffRequest" typescript_bindings = Some ProviderHandoffRequest_fields ∧
  exported_fields "LoadoutSnapshot" typescript_bindings = Some LoadoutSnapshot_fields.
Proof.
  split_and!; try (vm_compute; reflexivity).
  - apply allowlisted_complete.
  - apply all_error_codes_complete.
Qed.

(** One error code has another name where it is serialised than where it is
    printed and exported. *)
Lemma error_code_names c :
  ContinuityErrorCode_wire c = ContinuityErrorCode_as_str c ↔ c ≠ ContextPackBudgetExceeded.
Proof. by destruct c. Qed.

(** Five exported interfaces name fields that are not on the wire. *)
Lemma exported_fields_not_on_wire :
  exported_fields "ResolveApproval" typescript_bindings ≠ Some ResolveApproval_fields ∧
  exported_fields "RequestEnvelope" typescript_bindings ≠ Some RequestEnvelope_fields ∧
  exported_fields "ErrorResponse" typescript_bindings ≠ Some ErrorResponse_fields ∧
  exported_fields "MissionReadModel" typescript_bindings ≠ Some MissionReadModel_fields ∧
  exported_fields "MissionEventSummary" typescript_bindings ≠ Some MissionEventSummary_fields.
Proof. split_and!; vm_compute; discriminate. Qed.
