(* ===== verification/ChildProcess.v ===== *)
(** * Waiting for a child process
    ([probe_executable] of [crates/adapter-detect/src/path_probe.rs],
    [GitRunner::run_unchecked] of [crates/workspace/src/git.rs])

    Both start a program with its output in pipes, ask again and again whether
    it has ended, and kill it when a deadline passes; then they read the
    output to its end.  One reads only afterwards, the other has threads that
    read meanwhile.  A pipe holds a bounded number of bytes, a program whose
    pipe is full waits, and reading ends when every process that has the pipe
    has closed it, which a program the child started may do late or never.
    Times are milliseconds since the start. *)

From S2P Require Import Prelude.
From Stdlib Require Import Lia.
From stdpp Require Import prelude.

Record Child := {
  Child_stdout : list u8;
  Child_stderr : list u8;
  Child_status : Z;
  (** When it ends, if nothing blocks it and nobody kills it. *)
  Child_ends : option nat;
  (** How much of its output it has written at a time. *)
  Child_progress : nat → nat;
  (** When the last other process that inherited its pipes ends. *)
  Child_others : option nat;
}.

(** ** The deadline *)

(** When the child ends by itself: one whose output nobody reads must fit
    into the pipes. *)
Definition ends_itself (capacity : nat) (drained : bool) (c : Child) : option nat :=
  if drained || (bool_decide (length (Child_stdout c) ≤ capacity)
                 && bool_decide (length (Child_stderr c) ≤ capacity))
  then Child_ends c else None.

(** The polling loop: at [now] the child has ended, or the deadline has
    passed, or it sleeps for [pause].  The time the loop ends, and whether the
    child had to be killed; [None] when the fuel is used up. *)
Fixpoint poll_child (fuel pause timeout now : nat) (ends : option nat) : option (nat * bool) :=
  match fuel with
  | O => None
  | S fuel =>
      if match ends with Some t => bool_decide (t ≤ now) | None => false end then Some (now, false)
      else if bool_decide (timeout ≤ now) then Some (now, true)
      else poll_child fuel pause timeout (now + pause) ends
  end.
(** A poll advances the clock: [S timeout] turns are enough. *)
Definition await_child (pause timeout : nat) (ends : option nat) : option (nat * bool) :=
  poll_child (S timeout) pause timeout 0 ends.
(** Reading to the end: when the last writer is gone. *)
Definition read_to_end (now : nat) (c : Child) : option nat := Nat.max now <$> Child_others c.

(** ** The two callers *)
Inductive child_output :=
| ChildCompleted (status : Z) (stdout stderr : list u8)
| ChildTimedOut (stdout : list u8).

(** [probe_executable] from the start of the child on: when it returns and
    what; [None] when it never does. *)
Definition probe_child (capacity timeout : nat) (c : Child) : option (nat * child_output) :=
  '(now, timed_out) ← await_child 5 timeout (ends_itself capacity false c);
  at_ ← read_to_end now c;
  Some (at_, if timed_out : bool then
               ChildTimedOut (take (capacity `min` Child_progress c now) (Child_stdout c))
             else ChildCompleted (Child_status c) (Child_stdout c) (Child_stderr c)).

(** [run_unchecked] from the start of the child on: the readers drain the
    pipes; a command that is out of time is an error without output. *)
Definition git_child (capacity timeout : nat) (c : Child) : option (nat * child_output) :=
  '(now, timed_out) ← await_child 10 timeout (ends_itself capacity true c);
  at_ ← read_to_end now c;
  Some (at_, if timed_out : bool then ChildTimedOut []
             else ChildCompleted (Child_status c) (Child_stdout c) (Child_stderr c)).

(** ** Proofs *)
Lemma poll_child_ends pause timeout ends : 0 < pause → ∀ fuel now, timeout ≤ fuel + now →
  ∃ t killed, poll_child (S fuel) pause timeout now ends = Some (t, killed) ∧ now ≤ t ∧
    (t = now ∨ t < timeout + pause) ∧
    (if killed : bool then timeout ≤ t ∧ ∀ e, ends = Some e → t < e
     else ∃ e, ends = Some e ∧ e ≤ t ∧ (t = now ∨ t < e + pause)).
Proof.
  intros Hp. induction fuel as [|fuel IH]; intros now Hf; cbn [poll_child].
  all: destruct (match ends with Some t => _ | None => _ end) eqn:He.
  1,3: exists now, false; split_and!; auto; destruct ends as [e|]; [|done];
    apply bool_decide_eq_true in He; by exists e; auto.
  all: assert (∀ e, ends = Some e → now < e) as Hlate
    by (intros e ->; apply bool_decide_eq_false in He; lia).
  - rewrite bool_decide_eq_true_2 by lia. exists now, true. auto with lia.
  - case_bool_decide as Ht; [exists now, true; auto|].
    destruct (IH (now + pause) ltac:(lia)) as (t&killed&Hr&Hle&Hb&Hk).
    exists t, killed. split; [exact Hr|]. split; [lia|]. split; [lia|].
    destruct killed; [done|]. destruct Hk as (e&->&Hle'&Hlt). exists e.
    specialize (Hlate e eq_refl). split_and!; [done|done|]. lia.
Qed.
Lemma await_child_spec pause timeout ends : 0 < pause →
  ∃ t killed, await_child pause timeout ends = Some (t, killed) ∧ t ≤ timeout + pause ∧
    (if killed : bool then timeout ≤ t ∧ ∀ e, ends = Some e → t < e
     else ∃ e, ends = Some e ∧ e ≤ t ≤ e + pause).
Proof.
  intros Hp. destruct (poll_child_ends pause timeout ends Hp timeout 0 ltac:(lia))
    as (t&killed&Hr&_&Hb&Hk). exists t, killed. split; [exact Hr|]. split; [lia|].
  destruct killed; [done|]. destruct Hk as (e&->&Hle&Hlt). exists e. split; [done|]. lia.
Qed.

(** A Git command returns.  If the processes that share its output are gone
    by some time, it returns by then or by one poll after the deadline,
    whichever is later: with the complete output, however large, of a command
    that ended in time, and with an error exactly for one that did not. *)
Theorem git_command_returns capacity timeout c others :
  Child_others c = Some others →
  ∃ t out, git_child capacity timeout c = Some (t, out) ∧
    t ≤ (timeout + 10) `max` others ∧
    match out with
    | ChildCompleted status stdout stderr =>
        (∃ e, Child_ends c = Some e ∧ e ≤ timeout + 10) ∧
        status = Child_status c ∧ stdout = Child_stdout c ∧ stderr = Child_stderr c
    | ChildTimedOut stdout => stdout = [] ∧ ∀ e, Child_ends c = Some e → timeout < e
    end.
Proof.
  intros Ho. unfold git_child, read_to_end, ends_itself. rewrite Ho. simpl.
  destruct (await_child_spec 10 timeout (Child_ends c) ltac:(lia)) as (t&killed&->&Hb&Hk). simpl.
  eexists _, _. split; [done|]. split; [lia|]. destruct killed; simpl.
  - split; [done|]. intros e He. destruct Hk as [Hk1 Hk2]. specialize (Hk2 e He). lia.
  - destruct Hk as (e&He&Hle). split; [|done]. exists e. split; [done|]. lia.
Qed.

(** A probe returns under the same condition, but nobody reads while it
    waits: a program that prints more than a pipe holds never ends by itself
    and is reported as out of time, however fast it is. *)
Theorem probe_returns capacity timeout c others :
  Child_others c = Some others →
  ∃ t out, probe_child capacity timeout c = Some (t, out) ∧
    t ≤ (timeout + 5) `max` others ∧
    match out with
    | ChildCompleted _ stdout _ => stdout = Child_stdout c ∧ length stdout ≤ capacity
    | ChildTimedOut stdout => length stdout ≤ capacity ∧
        (capacity < length (Child_stdout c) ∨ capacity < length (Child_stderr c) ∨
         ∀ e, Child_ends c = Some e → timeout < e)
    end.
Proof.
  intros Ho. unfold probe_child, read_to_end. rewrite Ho. simpl.
  destruct (await_child_spec 5 timeout (ends_itself capacity false c) ltac:(lia))
    as (t&killed&->&Hb&Hk). simpl. eexists _, _. split; [done|]. split; [lia|].
  unfold ends_itself in Hk. simpl in Hk. destruct killed; simpl.
  - split; [rewrite length_take; lia|]. destruct Hk as [Hk1 Hk2].
    case_bool_decide; [|lia]. case_bool_decide; [|lia]. simpl in Hk2. right; right.
    intros e He. specialize (Hk2 e He). lia.
  - split; [done|]. destruct Hk as (e&He&_). by repeat case_bool_decide.
Qed.

(** The deadline does not bound the call: as long as a process the child
    started keeps the pipe open, both calls wait for it. *)
Lemma deadline_not_a_bound capacity timeout c :
  Child_others c = None →
  git_child capacity timeout c = None ∧ probe_child capacity timeout c = None.
Proof.
  intros Ho. unfold git_child, probe_child, read_to_end. rewrite Ho. simpl.
  destruct (await_child_spec 10 timeout (ends_itself capacity true c) ltac:(lia)) as (?&?&->&_).
  by destruct (await_child_spec 5 timeout (ends_itself capacity false c) ltac:(lia)) as (?&?&->&_).
Qed.

(** ** A command with more output than a pipe holds *)
Module ChildExamples.
Definition ch_large : Child := {| Child_stdout := replicate 10 7%Z; Child_stderr := [];
  Child_status := 0; Child_ends := Some 3; Child_progress := λ t, 3 * t; Child_others := Some 0 |}.
Lemma git_command_returns_witness :
  git_child 4 50 ch_large = Some (10, ChildCompleted 0 (replicate 10 7%Z) []) ∧
  ∃ t out, git_child 4 50 ch_large = Some (t, out) ∧ t ≤ 60.
Proof.
  split; [vm_compute; reflexivity|].
  destruct (git_command_returns 4 50 ch_large 0 eq_refl) as (t&out&Hr&Ht&_).
  exists t, out. split; [exact Hr|exact Ht].
Defined.
Lemma probe_returns_witness :
  probe_child 4 50 ch_large = Some (50, ChildTimedOut (replicate 4 7%Z)) ∧
  ∃ t out, probe_child 4 50 ch_large = Some (t, out) ∧ t ≤ 55.
Proof.
  split; [vm_compute; reflexivity|].
  destruct (probe_returns 4 50 ch_large 0 eq_refl) as (t&out&Hr&Ht&_).
  exists t, out. split; [exact Hr|exact Ht].
Defined.
End ChildExamples.
